(* ===== verification/_CoqProject ===== *)
-Q . S2P
Prelude.v
Base.v
Buffer.v
Resp.v
RespSpec.v
Object.v
ObjectSpec.v
Payload.v
PayloadSpec.v
ExpireDict.v
Storage.v
StorageSpec.v
StorageProps.v
Commands.v
CommandsSpec.v
CommandsEffect.v
CommandsProps.v
Rdb.v
RdbSpec.v
RdbProps.v
Slots.v
Cluster.v
ClusterProps.v
Link.v
LinkProps.v
Gossip.v
GossipProps.v
Connection.v
ConnectionProps.v
Replication.v
ReplicationProps.v
Monitor.v
Locks.v
LocksProps.v
Guards.v
Pool.v
SpanLinks.v
PageCacheProps.v
CentralCacheProps.v
PoolProps.v
PoolThreads.v
ThreadPool.v
Background.v
ClusterCmd.v
ClusterCmdProps.v
Admin.v
Config.v
Log.v
Logger.v
Format.v
NodesFile.v
BusCall.v
BusCallProps.v
BusConn.v
BusLinks.v
BusLinksProps.v
Channels.v
OutLinks.v
OutLinksProps.v
Reactor.v
ReactorProps.v
Workers.v
Sockets.v
ClusterLife.v
EventLoop.v
EventLoopProps.v
Main.v
MainProps.v
