(* ===== verification/Prelude.v ===== *)
(** * ConcurrentCache: verification library

    ConcurrentCache (src/src) is a Redis-compatible in-memory cache with persistence
    and a cluster mode. The accepting thread hands a client to a sub-reactor, whose
    loop reads bytes into a [Buffer]; [RespParser] frames and parses commands, the
    command callback routes them in the cluster, [CommandFactory] finds the command
    by name, the command works on [GlobalStorage] (64 shards of [CacheObject]s and an
    [ExpireDict]), and [RespEncoder] writes the reply. Threads beside it expire keys
    and save snapshots ([RdbPersistence]). Nodes of a cluster talk over a bus of
    framed links: gossip, failure detection and failover, replication, and commands
    that wait for a reply, which MIGRATE uses. Below are the project's own locks, its
    thread pool, its memory pool, its configuration and its log. This library models
    these parts and proves what they guarantee.

    ** Files

    Values and protocol:
    - [Prelude] (this file): bytes, machine integers, tactics, list lemmas.
    - [Base]: base/int_parse.h, base/range_clip.h; [std::from_chars],
      [std::to_string], [std::stoll] and [std::stoi] on integers (Module Text).
    - [Buffer]: network/buffer.cpp, with [copy_backward] element by element; the
      class [ByteQueue] is what the parser, the connections and the links use of it;
      [Buffer] and the plain list of bytes are its instances.
    - [Resp], [RespSpec]: protocol/resp.cpp, the parser over any [ByteQueue] and
      the encoder; its properties.
    - [Object], [ObjectSpec]: datatype/object.cpp, the five value types.
    - [Payload], [PayloadSpec]: [serialize] and [deserialize] of object.cpp, the
      payload of RESTORE.
    Store, commands, persistence:
    - [ExpireDict]: cache/expire_dict.cpp.
    - [Storage], [StorageSpec], [StorageProps]: cache/storage.cpp; the abstract
      state and the effect of every operation on it; the properties.
    - [Commands]: command/string_cmd.h, expire_cmd.h, restore_cmd.cpp,
      command_factory.cpp and [RespEncoder::format_double], in a state monad over
      the store. [CommandsSpec]: the invariant of the commands, by a small program
      logic ([keeps]), and the form of replies. [CommandsEffect]: reply and effect of
      each command on the abstract state. [CommandsProps]: the properties.
    - [Admin]: SAVE, BGSAVE, LASTSAVE and INFO of string_cmd.h, the replication
      commands of psync_cmd.cpp, base/server_stats.h.
    - [Rdb], [RdbSpec], [RdbProps]: persistence/rdb.cpp, the writer and the reader
      of the snapshot file, [save] as steps on the files of the directory, and
      background saves as interleaved steps; that the reader inverts the writer.
    - [Background]: cache/expiration_checker.cpp and persistence/rdb_scheduler.cpp.
    Clients:
    - [Connection], [ConnectionProps]: network/connection.cpp over any [ByteQueue],
      and the command callback of network/sub_reactor.cpp (Module Server).
    - [Reactor], [ReactorProps]: main_reactor.cpp, sub_reactor_pool.cpp,
      sub_reactor.cpp and the tasks of event_loop.cpp: who owns a connection.
    - [EventLoop], [EventLoopProps]: event_loop.cpp, the thread of a loop against the
      threads that post tasks and the call of [quit]; the hand-over of descriptors.
    - [Channels]: channel.cpp, the mask and the dispatch for any callbacks.
    - [Sockets]: socket.cpp, and the descriptors that cluster_bus.cpp,
      cluster_link.cpp and event_loop.cpp open themselves.
    Cluster:
    - [Slots]: the hash slots of cluster_server.cpp.
    - [Cluster], [ClusterProps]: cluster_node.cpp, cluster_state.cpp and
      cluster_server.cpp: nodes, slots, routing, failure detection, failover.
    - [Link], [LinkProps]: cluster_link.cpp, frames and codecs, reading and writing.
    - [Gossip], [GossipProps]: cluster_gossip.cpp and the callbacks of
      cluster_server.cpp.
    - [Replication], [ReplicationProps]: replication_mgr.cpp.
    - [BusCall], [BusCallProps]: cluster_connection.cpp, the handler of messages, the
      check of their senders, and commands that wait for a reply.
    - [BusConn]: cluster_connection.cpp, the table of outbound links, heartbeat.
    - [OutLinks], [OutLinksProps]: cluster_connection.cpp with event_loop.cpp: the life of
      the outbound links over the threads that use them.
    - [BusLinks], [BusLinksProps]: cluster_bus.cpp with event_loop.cpp and
      channel.cpp: the inbound links and the life of their objects.
    - [ClusterCmd], [ClusterCmdProps]: command/cluster_cmd.cpp, CLUSTER and MIGRATE.
    - [NodesFile]: the queries of cluster_state.cpp and cluster_server.cpp, and the
      file of nodes. [ClusterLife]: the start and the stop of the cluster.
    Foundations:
    - [Monitor], [Locks], [LocksProps]: base/lock.cpp; a monitor runs any number of
      threads over the methods of a class with a mutex and a condition variable.
      [Guards]: the guards of ShardedRWLock, and AtomicPointer.
    - [ThreadPool]: base/thread_pool.cpp. [Workers]: the threads that are started and
      stopped (expiration checker, scheduler, heartbeat, sub-reactor), the directory of the
      log and the wait for a background save.
    - [Pool], [SpanLinks], [PageCacheProps], [CentralCacheProps], [PoolProps],
      [PoolThreads]: memorypool/; the operations as functions, and their pieces as the
      steps of threads, with the locks of the size classes in the state.
    - [Config]: base/config.cpp. [Log], [Logger]: base/log.cpp. [Format]:
      base/format.cpp and base/signal.cpp.
    The program:
    - [Main], [MainProps]: main.cpp: the command line, the settings, the start, the
      order in which the parts are started and stopped, the signal handler.

    Definitions carry the names of the source; a method of a class is a function
    that takes the object and gives the new one. A [double] is its 64-bit
    pattern, compared as IEEE 754 compares.

    ** What the theorems show

    - Service: however the bytes of the commands are cut into reads and the replies
      into writes, the replies are those of running the commands in order
      ([serve_stream]); clients of a replica change nothing ([replica_readonly]).
    - Program: a server that is stopped and started again has its keys, if its last
      save lost nothing ([restart_restores]); a signal ends it whenever it comes ([signal_ends]); the
      settings are in their ranges ([settings_sound]).
    - Store: every operation refines an update of [live now s], the map from
      visible keys to values and deadlines ([storage_refines]); reachable stores
      keep their invariant ([storage_invariant]); a victim of eviction is expired
      or least recently used in its shard ([evict_one_victim]); a snapshot is
      exact ([snapshot_exact]).
    - Commands: the invariant and one well-formed reply per command
      ([commands_invariant]); the exact reply and effect by type
      ([strings_refine], [lists_refine], [hashes_refine], [sets_refine],
      [zsets_refine], [keys_refine], where the cases on which the code departs from its
      documentation are left out and shown apart); RESTORE inverts [serialize]
      ([restore_transfers]); lookup by name ([create_case_insensitive]); INFO and
      SAVE ([info_correct], [save_correct]).
    - Objects and payload: [objects_wf], [zset_refines_map], [ranges_select],
      [payload_roundtrip], [payload_strict], [deserialize_terminates].
    - Protocol: a stream of commands, however it is cut into reads, is parsed to
      exactly those commands ([feed_stream]); values come back from the wire
      ([parse_one_wire]); the parser ends on every input ([parse_terminates]);
      framing and error tests ([has_complete_command_exact],
      [has_protocol_error_correct], [nesting_limit]); the buffer is a queue
      ([buffer_refines_queue]).
    - Persistence: a snapshot that is saved and loaded gives back the visible keys
      ([rdb_roundtrip]); [load] ends on every file and refuses a damaged one
      ([load_terminates], [load_refuses_damage]); the file is replaced atomically, and
      whole unless an ignored failure has lost bytes ([save_atomic], [save_succeeds]); the flag, the status and the statistics of background saves
      are right in every interleaving ([bgsave_consistent]); a cycle of the checker
      removes only expired keys ([expiry_cycle_correct]); the count of changes covers
      what is not saved, while callers do not overlap ([dirty_count_keeps]).
    - Cluster: routing ([routing], with the exact replies in [redirect_replies], [slot_of_key], [gossip_keeps_routing]); invariants
      ([cluster_invariant], [cluster_commands_consistent]); votes and failover
      ([one_vote_per_epoch], [fail_quorum_distinct], [failover_takes_over],
      [election_tally]); the commands ([slot_commands_effect], [valid_ip_exact]);
      MIGRATE moves a key or keeps it ([migrate_moves], [migrate_keeps_source]); the
      file of nodes loses nothing ([nodes_file_roundtrip]).
    - Replication: a full synchronisation gives the replica the visible keys
      ([full_sync_transfers]), a quiet one what was written meanwhile
      ([sync_exact]); the window of recent commands ([replication_window]).
    - Bus: messages arrive whole, once and in order, on links that are read in time
      ([bus_fifo]), reading ends on all
      bytes ([link_read_total]), gossip comes back from the wire
      ([gossip_roundtrip]); a message acts only in its sender's name
      ([bus_identity]); a command sent to another node is executed there and its
      reply comes back ([bus_call_answered]), to the call it belongs to
      ([bus_calls_correct]); silent nodes are suspected ([heartbeat_correct]).
    - Life of objects: no step uses a destroyed connection or link, and nothing is
      left over ([reactor_safe], [stop_safe], and [bus_links_safe], [out_links_safe]
      under the conditions that their comments name);
      connections go round the reactors ([round_robin]). Tasks of an event loop run
      once and in order, and none is forgotten when it quits ([tasks_run], [quit_ends],
      [descriptors_handed_over]); a channel dispatches every event ([channel_mask],
      [hang_up_handled], [link_dispatch_refines]); descriptors are closed once, by their owner
      ([sockets_own], [descriptors_given_back]).
    - Locks and threads: exclusion and progress in every interleaving
      ([mutex_correct], [rwlock2_correct], [recursive_mutex_correct],
      [semaphore_correct], [latch_correct], [barrier_correct], [spinlock_correct],
      [fetch_adds_total], [try_until_spec], [guards_release], [guards_exclude]); tasks
      of the thread pool run once and none is forgotten ([thread_pool_correct]); the log
      is delivered in order ([logger_delivers]) and rotated ([log_rotation],
      [cleanup_total], [make_dirs_correct]); parts stop when they are told to
      ([workers_stop], [cluster_starts_stops], [wait_for_bgsave_ends]).
    - Memory pool: in every interleaving of the steps of its threads, blocks handed out
      are disjoint and aligned, and some thread can go on ([pool_blocks_safe]); what is
      given back comes back ([pool_idle]); a request on its own returns
      ([pool_requests]); the steps of a call, undisturbed, are the call
      ([allocate_call], [deallocate_call]); pages are in one span each ([page_cache_correct]); the linked
      lists are lists ([span_list_refines]).
    - Configuration: [config_roundtrip], [reload_correct]. Integers and ranges:
      [parse_ll_strict_exact], [clip_range_exact]. Levels: [level_read_back].
      Time stamps, traces and signals: [timestamp_roundtrip], [stack_trace_lines],
      [main_signals_table].
    - Defects and edges of the code: [lazy_delete_race], [range_normalised_twice],
      [null_array_stalls], [nested_array_framing], [deserialize_edges],
      [compact_overlap_corrupts], [zadd_counts_updates], [writes_replace_strings],
      [del_counts_expired], [lenient_ttl], [ignored_flush_truncates], [busy_reply_text],
      [crc16_not_redis], [failover_never_announced], [failover_unreachable],
      [busy_link_cut], [args_limit_asymmetric], [bad_integer_wedges],
      [protocol_error_unanswered], [sync_races], [checker_starves], [checker_race],
      [overlapping_saves_forget], [failed_bgsave_forgets], [fail_reply_splits],
      [migrate_lost_update], [migrate_late_expiry], [reload_calls],
      [destructor_hangs], [flush_hangs], [flush_takes_notification],
      [hex_name_dropped], [reply_from_another], [name_collision_faults],
      [second_unlock_breaks], [descriptors_left_behind], [wakeup_swallowed],
      [unreadable_snapshot_replaced], [port_option_partial], [early_event_deafens],
      [reused_descriptor_deafens], [two_connects_fault], [bare_pointer_faults],
      [deaf_start].

    ** Bounds and fuel

    [parse_one] has fuel 34, since the parser refuses arrays nested deeper than
    32 and fuel drops once per level; [parse_elems], [parse_loop] and the record
    loops of [deserialize] have one unit more than the bytes that are left, since
    every round consumes a byte; so have the loops of [Rdb.load] and of [Link.drain].
    [parse_terminates], [deserialize_terminates], [load_terminates] and
    [link_read_total] show that this is enough. The eviction loop keeps the source's
    bounds (8 tries, 1024 rounds), [format_double] its 341 digits. In the memory pool
    merging has one unit more than there are spans, carving one more than blocks fit,
    and the walk of a linked list one more than its nodes; [cleanup] of the log one
    more than there are files, by [cleanup_total]. The other loops are structural.

    ** Modelling choices

    An operation of the store runs under the lock of its shard and is one step;
    [get] is two, since it unlocks before it deletes ([lazy_delete_race] is about
    the gap). An operation reads the clock once, and MIGRATE three times as the source
    does; a full synchronisation reads it once ([restore_args]), and its sends do not
    fail. An index that [list_range] turns once and [clip_range] again is turned twice in
    the model as well. [reserve] on a count out of a payload does not throw. Parameters are: the hash
    of keys, the order of one iteration over an unordered container (any
    permutation), random draws, the text of doubles ([DoubleText], [DoubleLib]), of
    which only the round trip of ["%.17g"] and its length are assumed, zlib's crc32, of
    which only its 32-bit range is assumed, and the pages that [mmap] and [malloc]
    give. The results of socket calls are inputs. In
    [save_step] a call of stdio that fails keeps or drops what is buffered, and the
    source goes on after the calls whose result it ignores; a checked [fflush] that
    succeeds has written what is still buffered then. Files are maps from names to contents.

    Threads interleave: locks, the thread pool, the log, background saves, the memory
    pool, calls over the bus and the reactors are steps in any order, where a step is
    what one thread does under a mutex, or an atomic operation; spurious wake-ups are
    steps. In the memory pool the locks of the size classes are part of the state and a
    call of the central cache is several steps under its lock; a step is what is done
    under the mutex of the page cache, a part of what is done under the lock of a class,
    or what a thread does on its own cache. In the thread pool the test of [stop_] and
    going to sleep are one step ([take_task]): the mutex that the sleeper releases is
    taken for [notify_all] after [stop_] is set. What a handler finds in [errno] after the
    tasks of a round is an input ([after_drain]). Full synchronisation is given both in steps and as a whole. Counters of
    threads, generations and addresses are unbounded integers; numbers that the
    source reads, compares or sends are kept at their width.

    Nodes of a cluster are shared objects, kept by address. [wire] and [outbox] are
    what was asked to be sent. [execute_other] stands for the commands that
    [Commands.execute] leaves to [Admin] and [ClusterCmd]. Log lines, counters of bus
    messages and the assertions of debug builds are left out.

    ** Not modelled, and the plan

    System calls: what they answer is an input, and threads are started and joined by
    the system. What is printed on the console is left out, and the branch of rdb.cpp
    for Windows. [disconnect_from_node], which only tests call, is modelled as a
    change of the table (BusConn) and not against the other threads. What would extend the
    library: whole clusters of nodes over [Link]. *)

From stdpp Require Export base tactics list gmap sets strings numbers sorting.
From Stdlib Require Export ZArith Lia Ascii.
From stdpp Require Import options.

#[global] Open Scope Z_scope.

(** ** Bytes and C++ string literals *)

(** [std::string] holds arbitrary bytes: a list of 8-bit characters. *)
Abbreviation bytes := (list ascii).

(** A C++ string literal. *)
Definition lit (s : string) : bytes := String.list_ascii_of_string s.
Arguments lit : simpl never.

Definition CR : ascii := "013"%char.
Definition LF : ascii := "010"%char.

(** The value of a byte as [unsigned char]. *)
Definition byte_val (c : ascii) : Z := Z.of_N (N_of_ascii c).

(** [size()] of a string or of a vector, as [size_t]. *)
Definition zlen {A} (l : list A) : Z := Z.of_nat (length l).

(** ** Machine integers *)

Definition int64_min : Z := -9223372036854775808.
Definition int64_max : Z := 9223372036854775807.
Definition uint64_max : Z := 18446744073709551615.
Definition uint32_mod : Z := 4294967296.

Definition in_i64 (z : Z) : Prop := int64_min <= z <= int64_max.

Definition in_i64b (z : Z) : bool := (int64_min <=? z) && (z <=? int64_max).

(** ** Tactics of the development *)

(** Split boolean conjunctions and disjunctions in the context, turning
    them into hypotheses [lia] reads. *)
Ltac bsplit :=
  repeat match goal with
  | H : (_ && _) = true |- _ => apply andb_true_iff in H; destruct H
  | H : (_ && _) = false |- _ => apply andb_false_iff in H
  | H : (_ || _) = false |- _ => apply orb_false_iff in H; destruct H
  | H : (_ || _) = true |- _ => apply orb_true_iff in H
  | H : negb _ = true |- _ => apply negb_true_iff in H
  | H : negb _ = false |- _ => apply negb_false_iff in H
  end.

(** Case analysis on the conditionals of the goal, innermost first. *)
Ltac case_ifs :=
  repeat match goal with
  | |- context [if ?b then _ else _] =>
      lazymatch b with context [if _ then _ else _] => fail | _ => idtac end;
      let H := fresh "Hif" in destruct b eqn:H
  end.

(** Turn boolean comparisons of the context into propositions and call [lia]. *)
Ltac blia :=
  bsplit;
  rewrite ?Z.ltb_ge, ?Z.ltb_lt, ?Z.leb_le, ?Z.leb_gt, ?Z.eqb_eq, ?Z.eqb_neq,
    ?Nat.ltb_ge, ?Nat.ltb_lt, ?Nat.leb_le, ?Nat.leb_gt, ?Nat.eqb_eq, ?Nat.eqb_neq in *;
  lia.

Create HintDb cc_db.
Create Rewrite HintDb cc_db.

(** ** Lists *)

Section lists.
Context {A : Type}.
Implicit Types (l k : list A) (P : A -> bool).

(** Position of the first element that satisfies [P], as a search loop
    returns it. *)
Fixpoint find_pos P l : option nat :=
  match l with
  | [] => None
  | x :: l => if P x then Some O else S <$> find_pos P l
  end.

Lemma find_pos_app_skip P l k :
  Forall (fun x => P x = false) l ->
  find_pos P (l ++ k) = Nat.add (length l) <$> find_pos P k.
Proof.
  induction 1 as [|x l Hx _ IH]; simpl; [by destruct (find_pos P k)|].
  rewrite Hx, IH. by destruct (find_pos P k).
Qed.

Lemma find_pos_first P l x k :
  Forall (fun x => P x = false) l -> P x = true ->
  find_pos P (l ++ x :: k) = Some (length l).
Proof.
  intros Hl Hx. rewrite find_pos_app_skip by done. simpl. rewrite Hx. simpl.
  by rewrite Nat.add_0_r.
Qed.

Lemma find_pos_Some P l i :
  find_pos P l = Some i ->
  (i < length l)%nat /\ Forall (fun x => P x = false) (take i l) /\
  exists x, l !! i = Some x /\ P x = true.
Proof.
  revert i; induction l as [|x l IH]; intros i; simpl; [done|].
  destruct (P x) eqn:Hx.
  - intros [= <-]. split; [lia|]. split; [constructor|]. by exists x.
  - destruct (find_pos P l) as [j|]; simpl; intros [= <-].
    destruct (IH j eq_refl) as (? & ? & y & ? & ?).
    split; [lia|]. split; [by constructor|]. by exists y.
Qed.

Lemma find_pos_None P l :
  find_pos P l = None <-> Forall (fun x => P x = false) l.
Proof.
  split.
  - induction l as [|x l IH]; simpl; [done|].
    destruct (P x) eqn:Hx; [done|]. destruct (find_pos P l); [done|]. auto.
  - induction 1 as [|x l Hx _ IH]; simpl; [done|]. by rewrite Hx, IH.
Qed.

(** A subsequence of a sorted list is sorted. *)
Lemma Forall_sublist (Q : A -> Prop) l k : l `sublist_of` k -> Forall Q k -> Forall Q l.
Proof.
  rewrite !Forall_forall. intros Hs Hk x Hx. apply Hk.
  by eapply elem_of_submseteq, sublist_submseteq.
Qed.

Lemma StronglySorted_sublist (R : relation A) l k :
  l `sublist_of` k -> StronglySorted R k -> StronglySorted R l.
Proof.
  induction 1 as [|x l k Hs IH|x l k Hs IH]; intros Hk; [done|..];
    apply StronglySorted_cons in Hk as [Hx Hk]; [|by apply IH].
  apply StronglySorted_cons. split; [by eapply Forall_sublist|by apply IH].
Qed.

(** However a sequence of blocks is cut in two, the first part is a number of
    whole blocks and an initial part of the next one. *)
Lemma mjoin_split (fs : list (list A)) t x y :
  x ++ y = mjoin fs ++ t ->
  exists f1 f2 t1, fs = f1 ++ f2 /\ x = mjoin f1 ++ t1 /\ t1 ++ y = mjoin f2 ++ t /\
    match f2 with [] => True | f :: _ => (length t1 < length f)%nat /\ t1 `prefix_of` f end.
Proof.
  revert x. induction fs as [|f fs IH]; intros x Heq; [by exists [], [], x|].
  change (mjoin (f :: fs)) with (f ++ mjoin fs) in *. rewrite <-app_assoc in Heq.
  destruct (decide (length x < length f)%nat) as [Hlt|Hge].
  - exists [], (f :: fs), x. split_and!; [done..|by rewrite Heq, (assoc app)|done|].
    exists (drop (length x) f). apply (f_equal (take (length x))) in Heq as Hx.
    rewrite take_app_length, take_app_le in Hx by lia. rewrite Hx at 1. by rewrite take_drop.
  - assert (x = f ++ drop (length f) x) as Hx.
    { apply (f_equal (take (length f))) in Heq. rewrite take_app_length, take_app_le in Heq by lia.
      rewrite <-Heq at 1. by rewrite take_drop. }
    rewrite Hx, <-app_assoc in Heq. apply app_inv_head in Heq.
    destruct (IH _ Heq) as (f1 & f2 & t1 & -> & Hx1 & ? & ?). exists (f :: f1), f2, t1.
    split_and!; [done| |done|done]. rewrite Hx, Hx1 at 1. by rewrite (assoc app).
Qed.

Lemma zlen_nonneg l : 0 <= zlen l.
Proof. unfold zlen. lia. Qed.

Lemma zlen_app l k : zlen (l ++ k) = zlen l + zlen k.
Proof. unfold zlen. rewrite length_app. lia. Qed.

Lemma zlen_cons x l : zlen (x :: l) = 1 + zlen l.
Proof. unfold zlen. simpl. lia. Qed.

Lemma zlen_to_nat l : Z.to_nat (zlen l) = length l.
Proof. unfold zlen. lia. Qed.
End lists.

#[export] Hint Resolve zlen_nonneg : cc_db.
#[export] Hint Rewrite @zlen_app @zlen_cons : cc_db.
