(* ===== verification/Base.v ===== *)
(** * Base utilities: integer text and index ranges

    Models [src/base/int_parse.h], [src/base/range_clip.h] and the parts of
    the C++ library they and their callers use: [std::to_string],
    [std::from_chars] on integers and [std::stoll]. *)

From S2P Require Import Prelude.
From stdpp Require Import options.

(** ** Decimal text: the C++ library functions *)

Module Text.

Definition is_digit (c : ascii) : bool :=
  (48 <=? byte_val c) && (byte_val c <=? 57).

Definition digit_val (c : ascii) : Z := byte_val c - 48.

Definition digit_chr (d : Z) : ascii := ascii_of_N (Z.to_N (48 + d)).

(** [isspace] of the C locale. *)
Definition is_space (c : ascii) : bool :=
  (byte_val c =? 32) || ((9 <=? byte_val c) && (byte_val c <=? 13)).

(** The longest prefix of digits, and the rest. *)
Fixpoint span_digits (s : bytes) : bytes * bytes :=
  match s with
  | [] => ([], [])
  | c :: s' =>
      if is_digit c then let '(ds, r) := span_digits s' in (c :: ds, r)
      else ([], s)
  end.

Definition digits_val (ds : bytes) : Z :=
  foldl (fun v c => v * 10 + digit_val c) 0 ds.

Fixpoint dec_digits (fuel : nat) (n : Z) : bytes :=
  match fuel with
  | O => []
  | S f =>
      if n <? 10 then [digit_chr n]
      else dec_digits f (n / 10) ++ [digit_chr (n mod 10)]
  end.

(** The decimal digits of a number that is not negative. A number below
    [2^k] has at most [k] decimal digits, so the fuel suffices. *)
Definition show_unsigned (n : Z) : bytes :=
  dec_digits (S (Z.to_nat (Z.log2 n))) n.

(** [std::to_string] on the integer types. *)
Definition to_string (z : Z) : bytes :=
  if z <? 0 then "-"%char :: show_unsigned (- z) else show_unsigned z.

Inductive errc := errc_ok | errc_invalid_argument | errc_result_out_of_range.

(** [std::from_chars_result] with the value written, if one is: on an error
    the output argument is left as it was. *)
Record from_chars_result := {
  fc_ec : errc;
  fc_ptr : nat;
  fc_value : option Z
}.

(** [std::from_chars] for an integer type with range [lo, hi] in base 10: an
    optional minus sign (signed types only), then the longest run of digits;
    no leading space and no plus sign. *)
Definition from_chars (is_signed : bool) (lo hi : Z) (s : bytes)
    : from_chars_result :=
  let '(neg, skip, body) :=
    match s with
    | c :: r => if is_signed && bool_decide (c = "-"%char)
                then (true, 1%nat, r) else (false, 0%nat, s)
    | [] => (false, 0%nat, s)
    end in
  let '(ds, _) := span_digits body in
  match ds with
  | [] => {| fc_ec := errc_invalid_argument; fc_ptr := 0; fc_value := None |}
  | _ =>
      let v := if neg : bool then - digits_val ds else digits_val ds in
      if (lo <=? v) && (v <=? hi)
      then {| fc_ec := errc_ok; fc_ptr := skip + length ds; fc_value := Some v |}
      else {| fc_ec := errc_result_out_of_range; fc_ptr := skip + length ds;
              fc_value := None |}
  end.

(** The idiom [r.ec == std::errc() && r.ptr == last]. *)
Definition from_chars_all (is_signed : bool) (lo hi : Z) (s : bytes) : option Z :=
  let r := from_chars is_signed lo hi s in
  match fc_ec r with
  | errc_ok => if (fc_ptr r =? length s)%nat then fc_value r else None
  | _ => None
  end.

Fixpoint skip_spaces (s : bytes) : nat * bytes :=
  match s with
  | [] => (0%nat, [])
  | c :: s' =>
      if is_space c then let '(n, r) := skip_spaces s' in (S n, r) else (0%nat, s)
  end.

(** [std::stoll(s, &idx)]: the value and the number of bytes consumed, [None]
    where it throws ([invalid_argument] or [out_of_range]). Leading white
    space and a sign of either kind are accepted, and what follows the digits
    is left unread. *)
Definition stoll (s : bytes) : option (Z * nat) :=
  let '(w, s1) := skip_spaces s in
  let '(neg, sg, body) :=
    match s1 with
    | c :: r =>
        if bool_decide (c = "-"%char) then (true, 1%nat, r)
        else if bool_decide (c = "+"%char) then (false, 1%nat, r)
        else (false, 0%nat, s1)
    | [] => (false, 0%nat, s1)
    end in
  let '(ds, _) := span_digits body in
  match ds with
  | [] => None
  | _ =>
      let v := if neg : bool then - digits_val ds else digits_val ds in
      if in_i64b v then Some (v, w + sg + length ds)%nat else None
  end.

(** [std::stoi]: [None] where it throws. *)
Definition stoi (s : bytes) : option Z :=
  match stoll s with
  | Some (z, _) => if (-2147483648 <=? z) && (z <=? 2147483647) then Some z else None
  | None => None
  end.

(** *** Lemmas on digits *)

Lemma byte_val_digit_chr d : 0 <= d < 10 -> byte_val (digit_chr d) = 48 + d.
Proof.
  intros. unfold byte_val, digit_chr. rewrite N_ascii_embedding by lia. lia.
Qed.

Lemma is_digit_chr d : 0 <= d < 10 -> is_digit (digit_chr d) = true.
Proof. intros. unfold is_digit. rewrite byte_val_digit_chr by done. lia. Qed.

Lemma digit_val_chr d : 0 <= d < 10 -> digit_val (digit_chr d) = d.
Proof. intros. unfold digit_val. rewrite byte_val_digit_chr by done. lia. Qed.

Lemma digits_val_snoc ds c :
  digits_val (ds ++ [c]) = digits_val ds * 10 + digit_val c.
Proof. unfold digits_val. by rewrite foldl_snoc. Qed.

(** What the printed digits of [n] are. *)
Definition digits_of (n : Z) (ds : bytes) : Prop :=
  ds <> [] /\ Forall (fun c => is_digit c = true) ds /\ digits_val ds = n.

Lemma dec_digits_S f n :
  dec_digits (S f) n =
  if n <? 10 then [digit_chr n] else dec_digits f (n / 10) ++ [digit_chr (n mod 10)].
Proof. done. Qed.

Lemma dec_digits_spec f n :
  0 <= n < 2 ^ Z.of_nat (S f) -> digits_of n (dec_digits (S f) n).
Proof.
  revert n; induction f as [|f IH]; intros n Hn; rewrite dec_digits_S;
    destruct (Z.ltb_spec n 10).
  1,3: split_and!; [done| |]; [constructor; [apply is_digit_chr; lia|done]|];
    unfold digits_val; simpl; rewrite digit_val_chr; lia.
  - change (Z.of_nat 1) with 1 in Hn. lia.
  - assert (0 <= n / 10 < 2 ^ Z.of_nat (S f)) as Hq.
    { rewrite (Nat2Z.inj_succ (S f)), Z.pow_succ_r in Hn by lia.
      split; [apply Z.div_pos; lia|apply Z.div_lt_upper_bound; lia]. }
    destruct (IH _ Hq) as (_ & Hall & Hval).
    pose proof (Z.mod_pos_bound n 10 ltac:(lia)).
    split_and!.
    + intros []%app_eq_nil; done.
    + apply Forall_app; split; [done|]. constructor; [by apply is_digit_chr|done].
    + rewrite digits_val_snoc, Hval, digit_val_chr by done.
      pose proof (Z.div_mod n 10). lia.
Qed.

Lemma show_unsigned_spec n : 0 <= n -> digits_of n (show_unsigned n).
Proof.
  intros Hn. apply dec_digits_spec. split; [done|].
  destruct (decide (n = 0)) as [->|]; [done|].
  rewrite Nat2Z.inj_succ, Z2Nat.id by apply Z.log2_nonneg.
  apply Z.log2_spec. lia.
Qed.

Lemma dec_digits_length f k n :
  0 <= n < 10 ^ Z.of_nat (S k) -> (length (dec_digits f n) <= S k)%nat.
Proof.
  revert k n; induction f as [|f IH]; intros k n Hn; [simpl; lia|]. rewrite dec_digits_S.
  destruct (Z.ltb_spec n 10); [simpl; lia|].
  destruct k as [|k]; [change (10 ^ Z.of_nat 1) with 10 in Hn; lia|].
  rewrite length_app. specialize (IH k (n / 10)).
  rewrite (Nat2Z.inj_succ (S k)), Z.pow_succ_r in Hn by lia.
  assert (0 <= n / 10 < 10 ^ Z.of_nat (S k))
    by (split; [apply Z.div_pos; lia|apply Z.div_lt_upper_bound; lia]).
  simpl length in *. specialize (IH ltac:(done)). lia.
Qed.

(** The text of a 64-bit number is short. *)
Lemma to_string_length n : 0 <= n <= uint64_max -> (length (to_string n) <= 20)%nat.
Proof.
  intros Hn. unfold to_string. rewrite (proj2 (Z.ltb_ge n 0)) by lia.
  apply (dec_digits_length _ 19). split; [lia|].
  apply Z.le_lt_trans with uint64_max; [lia|]. by vm_compute.
Qed.

Lemma span_digits_all ds :
  Forall (fun c => is_digit c = true) ds -> span_digits ds = (ds, []).
Proof. induction 1 as [|c ds Hc _ IH]; simpl; [done|]. by rewrite Hc, IH. Qed.

Lemma span_digits_stop ds c r :
  Forall (fun c => is_digit c = true) ds -> is_digit c = false ->
  span_digits (ds ++ c :: r) = (ds, c :: r).
Proof.
  intros Hds Hc. induction Hds as [|d ds Hd _ IH]; simpl; [by rewrite Hc|].
  by rewrite Hd, IH.
Qed.

Lemma span_digits_spec s ds r :
  span_digits s = (ds, r) ->
  s = ds ++ r /\ Forall (fun c => is_digit c = true) ds.
Proof.
  revert ds r; induction s as [|c s IH]; simpl; intros ds r.
  { intros [= <- <-]. done. }
  destruct (is_digit c) eqn:Hc; [|intros [= <- <-]; done].
  destruct (span_digits s) as [ds' r']. intros [= <- <-].
  destruct (IH _ _ eq_refl) as [-> ?]. split; [done|]. by constructor.
Qed.

Lemma is_digit_not_minus c : is_digit c = true -> c <> "-"%char.
Proof. by intros ? ->. Qed.

Lemma is_digit_not_plus c : is_digit c = true -> c <> "+"%char.
Proof. by intros ? ->. Qed.

Lemma is_digit_not_space c : is_digit c = true -> is_space c = false.
Proof. unfold is_digit, is_space. lia. Qed.

(** The texts [from_chars] accepts in full, and their values. *)
Lemma from_chars_all_iff sg lo hi s v :
  from_chars_all sg lo hi s = Some v <->
  lo <= v <= hi /\
  ((exists n, digits_of n s /\ v = n) \/
   (sg = true /\ exists n ds, digits_of n ds /\ s = "-"%char :: ds /\ v = - n)).
Proof.
  unfold from_chars_all, from_chars. split.
  - destruct s as [|c s]; [done|].
    destruct (sg && bool_decide (c = "-"%char)) eqn:Hsg.
    + bsplit. rewrite bool_decide_eq_true in *. subst.
      destruct (span_digits s) as [ds r] eqn:Hsp.
      apply span_digits_spec in Hsp as [-> Hds]. destruct ds as [|d ds]; [done|].
      destruct ((lo <=? _) && _) eqn:Hr; [|done]. simpl fc_ec. cbv iota.
      cbn [fc_ptr fc_value]. destruct (_ =? _)%nat eqn:Hl; [|done].
      intros [= <-]. apply Nat.eqb_eq in Hl. simpl in Hl. rewrite length_app in Hl.
      assert (r = []) as -> by (destruct r; simpl in *; [done|lia]).
      rewrite app_nil_r. split; [lia|]. right. split; [done|].
      by exists (digits_val (d :: ds)), (d :: ds).
    + destruct (span_digits (c :: s)) as [ds r] eqn:Hsp.
      apply span_digits_spec in Hsp as [-> Hds]. destruct ds as [|d ds]; [done|].
      destruct ((lo <=? _) && _) eqn:Hr; [|done]. simpl fc_ec. cbv iota.
      cbn [fc_ptr fc_value]. destruct (_ =? _)%nat eqn:Hl; [|done].
      intros [= <-]. apply Nat.eqb_eq in Hl. simpl in Hl. rewrite length_app in Hl.
      assert (r = []) as -> by (destruct r; simpl in *; [done|lia]).
      rewrite app_nil_r. split; [lia|]. left. by exists (digits_val (d :: ds)).
  - intros [Hv [(n & (Hne & Hds & Hn) & ->)|(-> & n & ds & (Hne & Hds & Hn) & -> & ->)]].
    + destruct s as [|c s]; [done|].
      rewrite bool_decide_eq_false_2
        by (apply is_digit_not_minus; by inversion Hds).
      rewrite andb_false_r, span_digits_all by done. rewrite Hn.
      replace ((lo <=? n) && (n <=? hi)) with true by lia. simpl.
      by rewrite Nat.eqb_refl.
    + rewrite bool_decide_eq_true_2 by done. simpl.
      rewrite span_digits_all by done. destruct ds as [|d ds]; [done|].
      rewrite Hn. replace ((lo <=? - n) && (- n <=? hi)) with true by lia. simpl.
      by rewrite Nat.eqb_refl.
Qed.

(** The printed form of a number of the type is read back. *)
Lemma from_chars_all_to_string sg lo hi z :
  lo <= z <= hi -> (sg = false -> 0 <= z) ->
  from_chars_all sg lo hi (to_string z) = Some z.
Proof.
  intros Hz Hsg. apply from_chars_all_iff. split; [done|].
  unfold to_string. destruct (Z.ltb_spec z 0).
  - right. split; [destruct sg; [done|]; specialize (Hsg eq_refl); lia|].
    exists (- z), (show_unsigned (- z)). split_and!; [|done|lia].
    apply show_unsigned_spec. lia.
  - left. exists z. split; [|done]. by apply show_unsigned_spec.
Qed.

(** A text is the printed form of at most one number. *)
Lemma to_string_reads_as z w :
  ((exists n, digits_of n (to_string z) /\ w = n) \/
   (exists n ds, digits_of n ds /\ to_string z = "-"%char :: ds /\ w = - n)) -> w = z.
Proof.
  unfold to_string. destruct (Z.ltb_spec z 0).
  - destruct (show_unsigned_spec (- z)) as (_ & _ & Hv); [lia|].
    intros [(n & (_ & Hall & _) & _)|(n & ds & (_ & _ & Hn) & [= <-] & ->)]; [|lia].
    inversion_clear Hall. done.
  - destruct (show_unsigned_spec z) as (_ & Hall & Hv); [lia|].
    intros [(n & (_ & _ & Hn) & ->)|(n & ds & _ & Hs & _)]; [lia|].
    rewrite Hs in Hall. inversion_clear Hall. done.
Qed.

Lemma skip_spaces_digit c s :
  is_space c = false -> skip_spaces (c :: s) = (0%nat, c :: s).
Proof. intros Hc. simpl. by rewrite Hc. Qed.

Lemma stoll_to_string z :
  in_i64 z -> stoll (to_string z) = Some (z, length (to_string z)).
Proof.
  intros Hz. unfold in_i64 in *. unfold stoll, to_string.
  destruct (Z.ltb_spec z 0).
  - rewrite skip_spaces_digit by done. rewrite bool_decide_eq_true_2 by done.
    destruct (show_unsigned_spec (- z)) as (Hne & Hds & Hn); [lia|].
    rewrite span_digits_all by done.
    destruct (show_unsigned (- z)) as [|d ds]; [done|].
    rewrite Hn, Z.opp_involutive.
    replace (in_i64b z) with true by (unfold in_i64b; lia). done.
  - destruct (show_unsigned_spec z) as (Hne & Hds & Hn); [lia|].
    destruct (show_unsigned z) as [|d ds]; [done|].
    assert (is_digit d = true) as Hd by by inversion Hds.
    rewrite skip_spaces_digit by by apply is_digit_not_space.
    rewrite bool_decide_eq_false_2 by by apply is_digit_not_minus.
    rewrite bool_decide_eq_false_2 by by apply is_digit_not_plus.
    rewrite span_digits_all, Hn by done.
    replace (in_i64b z) with true by (unfold in_i64b; lia). done.
Qed.

(** A text that is a number as a whole is that number to [std::stoll] too. *)
Lemma stoll_all s v :
  from_chars_all true int64_min int64_max s = Some v -> stoll s = Some (v, length s).
Proof.
  intros [Hv [(n & (Hne & Hds & Hn) & ->)|(_ & n & ds & (Hne & Hds & Hn) & -> & ->)]]%from_chars_all_iff;
    unfold stoll.
  - destruct s as [|d ds]; [done|]. assert (is_digit d = true) as Hd by by inversion Hds.
    rewrite skip_spaces_digit by by apply is_digit_not_space.
    rewrite bool_decide_eq_false_2 by by apply is_digit_not_minus.
    rewrite bool_decide_eq_false_2 by by apply is_digit_not_plus.
    rewrite span_digits_all, Hn by done.
    replace (in_i64b n) with true by (unfold in_i64b; lia). done.
  - rewrite skip_spaces_digit by done. rewrite bool_decide_eq_true_2 by done.
    rewrite span_digits_all by done. destruct ds as [|d ds]; [done|]. rewrite Hn.
    replace (in_i64b (- n)) with true by (unfold in_i64b; lia). done.
Qed.

Lemma stoi_to_string z : -2147483648 <= z <= 2147483647 -> stoi (to_string z) = Some z.
Proof.
  intros Hz. unfold stoi. rewrite stoll_to_string by (unfold in_i64, int64_min, int64_max; lia).
  by rewrite (proj2 (Z.leb_le _ z)), (proj2 (Z.leb_le z _)) by lia.
Qed.

End Text.

(** ** [base/int_parse.h] *)

Module IntParse.
Import Text.

(** [parse_ll_strict]: the value written to [out] on success. *)
Definition parse_ll_strict (s : bytes) : option Z :=
  match s with
  | [] => None
  | _ => from_chars_all true int64_min int64_max s
  end.

Lemma parse_ll_strict_eq s :
  parse_ll_strict s = from_chars_all true int64_min int64_max s.
Proof. by destruct s. Qed.

Lemma parse_ll_strict_range s v : parse_ll_strict s = Some v -> in_i64 v.
Proof.
  rewrite parse_ll_strict_eq. intros H%from_chars_all_iff. unfold in_i64. lia.
Qed.

Lemma parse_ll_strict_stoll s v : parse_ll_strict s = Some v -> stoll s = Some (v, length s).
Proof. rewrite parse_ll_strict_eq. apply stoll_all. Qed.

Lemma parse_ll_strict_print z :
  in_i64 z -> parse_ll_strict (to_string z) = Some z.
Proof.
  intros. rewrite parse_ll_strict_eq. by apply from_chars_all_to_string.
Qed.

(** [parse_ll_strict] accepts exactly the decimal texts of the [long long]
    values, an optional minus sign and digits, nothing before or after, and
    reads back what [std::to_string] prints. *)
Theorem parse_ll_strict_exact s v :
  (parse_ll_strict s = Some v <->
   in_i64 v /\ ((exists n, digits_of n s /\ v = n) \/
                (exists n ds, digits_of n ds /\ s = "-"%char :: ds /\ v = - n))) /\
  parse_ll_strict (to_string v) = (if in_i64b v then Some v else None).
Proof.
  rewrite !parse_ll_strict_eq. split.
  - rewrite from_chars_all_iff. unfold in_i64. split; intros [? Hc]; (split; [done|]);
      destruct Hc as [?|?]; [by left|right; tauto|by left|right; tauto].
  - destruct (in_i64b v) eqn:Hv; unfold in_i64b in Hv.
    + apply from_chars_all_to_string; [lia|done].
    + apply eq_None_not_Some. intros [w Hw]. apply from_chars_all_iff in Hw.
      destruct Hw as [Hr Hc]. assert (w = v) as ->; [|lia].
      apply to_string_reads_as. destruct Hc as [?|[_ ?]]; [by left|by right].
Qed.

End IntParse.

(** ** [base/range_clip.h] *)

Module RangeClip.

(** [clip_range]: [None] is the return value false, [Some (a, b)] is true with
    [out_start = a] and [out_stop = b]. *)
Definition clip_range (size start stop : Z) : option (Z * Z) :=
  if size =? 0 then None
  else
    let len := size in
    let actual_start := if start <? 0 then len + start else start in
    let actual_stop := if stop <? 0 then len + stop else stop in
    let actual_start := if actual_start <? 0 then 0 else actual_start in
    if actual_stop <? 0 then None
    else if actual_start >=? len then None
    else
      let actual_stop := if actual_stop >=? len then len - 1 else actual_stop in
      if actual_start >? actual_stop then None
      else Some (actual_start, actual_stop).

(** The index an argument of LRANGE or ZRANGE stands for: counted from the end
    when negative. *)
Definition index_of_arg (len i : Z) : Z := if i <? 0 then len + i else i.

(** The positions [start..stop] selects in a sequence of [len] elements. *)
Definition selects (len start stop j : Z) : Prop :=
  0 <= j < len /\ index_of_arg len start <= j <= index_of_arg len stop.

Lemma clip_range_selects size start stop :
  0 <= size ->
  match clip_range size start stop with
  | Some (a, b) =>
      0 <= a <= b /\ b < size /\
      forall j, selects size start stop j <-> a <= j <= b
  | None => forall j, ~ selects size start stop j
  end.
Proof.
  intros Hs. unfold clip_range, selects, index_of_arg.
  case_ifs; split_and?; first [lia | intros j; lia].
Qed.

(** [clip_range] answers with the in-range positions that the arguments
    select, as one interval, and with false exactly when they select none. *)
Theorem clip_range_exact size start stop :
  0 <= size ->
  match clip_range size start stop with
  | Some (a, b) =>
      0 <= a <= b /\ b < size /\ forall j, selects size start stop j <-> a <= j <= b
  | None => forall j, ~ selects size start stop j
  end.
Proof. apply clip_range_selects. Qed.

Lemma clip_range_exact_witness :
  match clip_range 3 (-5) (-1) with
  | Some (a, b) =>
      0 <= a <= b /\ b < 3 /\ forall j, selects 3 (-5) (-1) j <-> a <= j <= b
  | None => forall j, ~ selects 3 (-5) (-1) j
  end.
Proof. apply (clip_range_exact 3 (-5) (-1)). lia. Defined.

End RangeClip.
