(* ===== verification/Buffer.v ===== *)
(** * [network/buffer.cpp]: the two-pointer read/write buffer

    The state of [Buffer] is its vector and its two indices; every member
    function is a definition. [ByteQueue] is what the RESP parser and the
    cluster link rely on: the unread bytes form a queue. The instance at the
    end shows that [Buffer] implements it. *)

From S2P Require Import Prelude.
From stdpp Require Import options.

(** ** The interface: a queue of unread bytes *)

Class ByteQueue (B : Type) := {
  bq_ok : B -> Prop;
  (** [peek()] with [readable_bytes()]: the unread bytes. *)
  bq_peek : B -> bytes;
  bq_append : bytes -> B -> B;
  bq_retrieve : nat -> B -> B;
  bq_append_ok d b : bq_ok b -> bq_ok (bq_append d b);
  bq_retrieve_ok n b : bq_ok b -> bq_ok (bq_retrieve n b);
  bq_peek_append d b : bq_ok b -> bq_peek (bq_append d b) = bq_peek b ++ d;
  bq_peek_retrieve n b : bq_ok b -> bq_peek (bq_retrieve n b) = drop n (bq_peek b)
}.

#[export] Hint Resolve bq_append_ok bq_retrieve_ok : cc_db.

(** The queue of unread bytes itself is a queue. *)
#[export] Instance bytes_queue : ByteQueue bytes := {|
  bq_ok := fun _ => True;
  bq_peek := id;
  bq_append := fun d b => b ++ d;
  bq_retrieve := drop;
  bq_append_ok := fun _ _ H => H;
  bq_retrieve_ok := fun _ _ H => H;
  bq_peek_append := fun _ _ _ => eq_refl;
  bq_peek_retrieve := fun _ _ _ => eq_refl
|}.

(** ** The implementation *)

Module Buffer.

Record Buffer := mkBuffer {
  buffer_ : bytes;
  reader_idx_ : nat;
  writer_idx_ : nat
}.

(** [Buffer::Buffer()]. *)
Definition empty : Buffer := mkBuffer [] 0 0.

Definition readable_bytes (b : Buffer) : nat := writer_idx_ b - reader_idx_ b.

Definition writable_bytes (b : Buffer) : nat := length (buffer_ b) - writer_idx_ b.

(** [peek()] is a pointer to the unread bytes; callers read [readable_bytes()]
    of them. *)
Definition peek (b : Buffer) : bytes :=
  take (readable_bytes b) (drop (reader_idx_ b) (buffer_ b)).

(** [ensure_writable]: [vector::resize] value-initialises what it adds. *)
Definition ensure_writable (len : nat) (b : Buffer) : Buffer :=
  if (writable_bytes b <? len)%nat
  then mkBuffer (resize (writer_idx_ b + len) zero (buffer_ b))
         (reader_idx_ b) (writer_idx_ b)
  else b.

(** [std::copy] of [data] over the vector from position [i]. *)
Definition copy_at (i : nat) (data v : bytes) : bytes :=
  take i v ++ data ++ drop (i + length data) v.

Definition append (data : bytes) (b : Buffer) : Buffer :=
  let b := ensure_writable (length data) b in
  mkBuffer (copy_at (writer_idx_ b) data (buffer_ b))
    (reader_idx_ b) (writer_idx_ b + length data).

(** [std::copy_backward] inside one vector: [n] elements from [src] to [dst],
    the last one first, each read from the vector as left by the previous
    writes. *)
Fixpoint copy_backward (n src dst : nat) (v : bytes) : bytes :=
  match n with
  | O => v
  | S n =>
      let v := match v !! (src + n)%nat with
               | Some c => <[(dst + n)%nat := c]> v
               | None => v
               end in
      copy_backward n src dst v
  end.

Definition compact (b : Buffer) : Buffer :=
  if (reader_idx_ b =? 0)%nat then b
  else
    mkBuffer
      (copy_backward (writer_idx_ b - reader_idx_ b) (reader_idx_ b) 0 (buffer_ b))
      0 (writer_idx_ b - reader_idx_ b).

Definition retrieve (len : nat) (b : Buffer) : Buffer :=
  let b :=
    if (readable_bytes b <? len)%nat
    then mkBuffer (buffer_ b) (writer_idx_ b) (writer_idx_ b)
    else mkBuffer (buffer_ b) (reader_idx_ b + len) (writer_idx_ b) in
  if (length (buffer_ b) / 2 <? reader_idx_ b)%nat then compact b else b.

Definition retrieve_all (b : Buffer) : Buffer := mkBuffer (buffer_ b) 0 0.

Definition to_string (b : Buffer) : bytes := peek b.

(** ** Invariant *)

(** The indices stay inside the vector and in order. *)
Definition wf (b : Buffer) : Prop :=
  (reader_idx_ b <= writer_idx_ b <= length (buffer_ b))%nat.

Ltac simpl_buf := cbn [buffer_ reader_idx_ writer_idx_].

Lemma empty_wf : wf empty.
Proof. unfold wf. simpl. lia. Qed.

Lemma length_copy_at i d v :
  (i + length d <= length v)%nat -> length (copy_at i d v) = length v.
Proof. intros. unfold copy_at. rewrite !length_app, length_take, length_drop. lia. Qed.

Lemma length_copy_backward n s d v : length (copy_backward n s d v) = length v.
Proof.
  revert v; induction n as [|n IH]; intros v; simpl; [done|]. rewrite IH.
  case_match; [apply length_insert|done].
Qed.

(** [copy_backward] out of the destination leaves the vector as it was. *)
Lemma copy_backward_lookup_ge n s d v i :
  (d + n <= i)%nat -> copy_backward n s d v !! i = v !! i.
Proof.
  revert v; induction n as [|n IH]; intros v Hi; simpl; [done|].
  rewrite IH by lia. case_match; [|done]. rewrite list_lookup_insert_ne by lia. done.
Qed.

(** With the source after the destination and disjoint from it, every element
    arrives. *)
Lemma copy_backward_lookup n s d v i :
  (i < n)%nat -> (d + n <= s)%nat -> (s + n <= length v)%nat ->
  copy_backward n s d v !! (d + i)%nat = v !! (s + i)%nat.
Proof.
  revert v; induction n as [|n IH]; intros v Hi Hd Hs; [lia|]; simpl.
  destruct (lookup_lt_is_Some_2 v (s + n)) as [c Hc]; [lia|]. rewrite Hc.
  destruct (decide (i = n)) as [->|].
  - rewrite copy_backward_lookup_ge by lia. rewrite list_lookup_insert_eq by lia. done.
  - rewrite IH by (rewrite ?length_insert; lia). rewrite list_lookup_insert_ne by lia.
    done.
Qed.

Lemma copy_backward_take n s v :
  (n <= s)%nat -> (s + n <= length v)%nat ->
  take n (copy_backward n s 0 v) = take n (drop s v).
Proof.
  intros. apply list_eq; intros i. destruct (decide (i < n)%nat).
  - rewrite !lookup_take_lt, lookup_drop by lia.
    by apply (copy_backward_lookup n s 0 v i).
  - rewrite !lookup_take_ge by lia. done.
Qed.

Lemma ensure_writable_spec len b :
  wf b ->
  wf (ensure_writable len b) /\ peek (ensure_writable len b) = peek b /\
  (writer_idx_ b + len <= length (buffer_ (ensure_writable len b)))%nat /\
  writer_idx_ (ensure_writable len b) = writer_idx_ b /\
  reader_idx_ (ensure_writable len b) = reader_idx_ b.
Proof.
  unfold wf, ensure_writable, writable_bytes, peek, readable_bytes.
  destruct b as [v r w]; simpl. intros Hwf.
  destruct (Nat.ltb_spec (length v - w) len); simpl; rewrite ?length_resize;
    split_and!; try lia; [|done].
  rewrite resize_ge, drop_app_le, take_app_le by (rewrite ?length_drop; lia). done.
Qed.

Lemma append_spec d b :
  wf b -> wf (append d b) /\ peek (append d b) = peek b ++ d.
Proof.
  intros Hwf. unfold append.
  destruct (ensure_writable_spec (length d) b Hwf) as (Hwf' & Hpk & Hlen & Hw & Hr).
  rewrite <-Hpk. destruct (ensure_writable (length d) b) as [v r w].
  unfold wf, peek, readable_bytes in *; simpl in *.
  rewrite length_copy_at by lia. split; [lia|].
  unfold copy_at. rewrite drop_app_le by (rewrite length_take; lia).
  rewrite skipn_firstn_comm, app_assoc.
  rewrite take_app_le by (rewrite length_app, length_take, length_drop; lia).
  by rewrite take_ge by (rewrite length_app, length_take, length_drop; lia).
Qed.

(** The read index is past the middle of the vector when [retrieve] compacts,
    so source and destination of the copy are disjoint. *)
Lemma compact_spec b :
  wf b -> (length (buffer_ b) / 2 < reader_idx_ b)%nat ->
  wf (compact b) /\ peek (compact b) = peek b.
Proof.
  destruct b as [v r w]; unfold wf, compact; simpl_buf. intros Hwf Hhalf.
  destruct (Nat.eqb_spec r 0); [lia|]. simpl_buf.
  rewrite length_copy_backward. split; [lia|].
  unfold peek, readable_bytes; simpl_buf. rewrite Nat.sub_0_r, drop_0.
  pose proof (Nat.div_mod_eq (length v) 2).
  pose proof (Nat.mod_upper_bound (length v) 2 ltac:(lia)).
  apply copy_backward_take; lia.
Qed.

(** Moving the read index past the bytes that are retrieved. *)
Definition advance (len : nat) (b : Buffer) : Buffer :=
  if (readable_bytes b <? len)%nat
  then mkBuffer (buffer_ b) (writer_idx_ b) (writer_idx_ b)
  else mkBuffer (buffer_ b) (reader_idx_ b + len) (writer_idx_ b).

Lemma advance_spec n b :
  wf b -> wf (advance n b) /\ peek (advance n b) = drop n (peek b).
Proof.
  destruct b as [v r w]; unfold wf, advance, peek, readable_bytes; simpl_buf.
  intros Hwf. destruct (Nat.ltb_spec (w - r) n); simpl_buf; (split; [lia|]).
  - rewrite Nat.sub_diag. symmetry. apply drop_ge. rewrite length_take. lia.
  - rewrite skipn_firstn_comm, drop_drop. f_equal. lia.
Qed.

Lemma retrieve_spec n b :
  wf b -> wf (retrieve n b) /\ peek (retrieve n b) = drop n (peek b).
Proof.
  intros Hwf. destruct (advance_spec n b Hwf) as [Hwf' Hpk]. unfold retrieve.
  fold (advance n b). rewrite <-Hpk.
  destruct (Nat.ltb_spec (length (buffer_ (advance n b)) / 2) (reader_idx_ (advance n b)));
    [by apply compact_spec|done].
Qed.

#[global] Instance buffer_queue : ByteQueue Buffer.
Proof.
  refine {| bq_ok := wf; bq_peek := peek; bq_append := append;
            bq_retrieve := retrieve |}.
  - intros d b H. by apply append_spec.
  - intros n b H. by apply retrieve_spec.
  - intros d b H. by apply append_spec.
  - intros n b H. by apply retrieve_spec.
Defined.

(** ** Sequences of operations *)

Inductive buf_op :=
  | OpAppend (d : bytes)
  | OpRetrieve (n : nat)
  | OpRetrieveAll.

Definition run_op (b : Buffer) (o : buf_op) : Buffer :=
  match o with
  | OpAppend d => append d b
  | OpRetrieve n => retrieve n b
  | OpRetrieveAll => retrieve_all b
  end.

(** The same operations on a plain queue of bytes. *)
Definition queue_op (q : bytes) (o : buf_op) : bytes :=
  match o with
  | OpAppend d => q ++ d
  | OpRetrieve n => drop n q
  | OpRetrieveAll => []
  end.

Lemma retrieve_all_spec b : wf (retrieve_all b) /\ peek (retrieve_all b) = [].
Proof. unfold wf, peek, retrieve_all, readable_bytes. simpl. split; [lia|done]. Qed.

Lemma run_op_refines b o :
  wf b -> wf (run_op b o) /\ peek (run_op b o) = queue_op (peek b) o.
Proof.
  destruct o; simpl; intros;
    [by apply append_spec|by apply retrieve_spec|apply retrieve_all_spec].
Qed.

Lemma run_ops_refine ops b :
  wf b -> wf (foldl run_op b ops) /\ peek (foldl run_op b ops) = foldl queue_op (peek b) ops.
Proof.
  revert b; induction ops as [|o ops IH]; intros b Hwf; simpl; [done|].
  destruct (run_op_refines b o Hwf) as [Hwf' <-]. by apply IH.
Qed.

(** C40: the buffer refines a queue of bytes: after any sequence of appends and
    retrievals (with the growth and the compaction they trigger) the indices
    are in range and the unread bytes are those of the queue. *)
Theorem buffer_refines_queue ops :
  wf (foldl run_op empty ops) /\
  to_string (foldl run_op empty ops) = foldl queue_op [] ops /\
  readable_bytes (foldl run_op empty ops) = length (foldl queue_op [] ops).
Proof.
  destruct (run_ops_refine ops empty empty_wf) as [Hwf Hpk].
  change (peek empty) with (@nil ascii) in Hpk. unfold to_string. rewrite <-Hpk.
  split_and!; [done..|]. unfold wf, peek, readable_bytes in *.
  rewrite length_take, length_drop. lia.
Qed.

(** [std::copy_backward] is right for [compact] only because [retrieve]
    calls it with the read index past the middle of the vector. With the ranges
    overlapping (which the comment gives as the reason for it) the move to the
    left destroys unread bytes. *)
Theorem compact_overlap_corrupts :
  let b := mkBuffer (lit "abcd") 1 4 in
  wf b /\ peek b = lit "bcd" /\ peek (compact b) = lit "ddd".
Proof. split_and!; [unfold wf; simpl; lia|done|done]. Qed.

End Buffer.
