(* ===== verification/Resp.v ===== *)
(** * [protocol/resp.h], [protocol/resp.cpp]: the RESP parser and encoder

    [RespParser] is modelled over any [ByteQueue], the interface the source's
    [Buffer] implements. A member function that returns [bool] with an output
    argument returns an [option] and the new state; [array_depth_] is the
    depth counter that [DepthGuard] maintains. *)

From S2P Require Import Prelude Base Buffer.
From stdpp Require Import options.

Module Resp.
Import Text.

(** ** Data *)

Inductive RespType := SIMPLE_STRING | ERROR | INTEGER | BULK_STRING | ARRAY | UNKNOWN.

(** [RespValue]: the type tag and the variant ([std::monostate] is [DNull]). *)
Inductive RespValue := mkValue (type : RespType) (data : RespData)
with RespData :=
  | DNull
  | DString (s : bytes)
  | DInt (n : Z)
  | DArray (l : list RespValue).

Definition value_type (v : RespValue) : RespType := let 'mkValue t _ := v in t.
Definition value_data (v : RespValue) : RespData := let 'mkValue _ d := v in d.

Definition as_string (v : RespValue) : bytes :=
  match value_data v with DString s => s | _ => [] end.

Definition as_integer (v : RespValue) : Z :=
  match value_data v with DInt n => n | _ => 0 end.

Definition as_array (v : RespValue) : list RespValue :=
  match value_data v with DArray l => l | _ => [] end.

Definition is_null (v : RespValue) : bool :=
  match value_data v with DNull => true | _ => false end.

Record RespParser := mkParser {
  error_msg_ : bytes;
  protocol_error_ : bytes;
  array_depth_ : Z
}.

(** [RespParser::RespParser()]. *)
Definition new_parser : RespParser := mkParser [] [] 0.

Definition reset (p : RespParser) : RespParser :=
  mkParser [] (protocol_error_ p) (array_depth_ p).

Definition kMaxNestingDepth : Z := 32.
Definition max_bulk : Z := 512 * 1024 * 1024.
Definition max_array : Z := 1024 * 1024.

(** ** Helpers *)

(** [parse_int64_safe]: [std::stoll] with the whole text consumed. *)
Definition parse_int64_safe (s : bytes) : option Z :=
  match s with
  | [] => None
  | _ =>
      match stoll s with
      | Some (v, idx) => if (idx =? length s)%nat then Some v else None
      | None => None
      end
  end.

(** [find_crlf]: the offset of the first CR LF pair, [None] for [nullptr]. *)
Fixpoint find_crlf (d : bytes) : option nat :=
  match d with
  | c :: d' =>
      match d' with
      | c' :: _ => if Ascii.eqb c CR && Ascii.eqb c' LF then Some O
                   else S <$> find_crlf d'
      | [] => None
      end
  | [] => None
  end.

(** The text of the first line after the type byte, with the offset of its
    CR counted from the type byte. *)
Definition first_line (d : bytes) : option (bytes * nat) :=
  match find_crlf (drop 1 d) with
  | Some k => Some (take k (drop 1 d), S k)
  | None => None
  end.

(** ** [has_protocol_error] *)

Definition is_type_byte (c : ascii) : bool :=
  Ascii.eqb c "+" || Ascii.eqb c "-" || Ascii.eqb c ":" || Ascii.eqb c "$"
  || Ascii.eqb c "*".

Definition has_protocol_error (p : RespParser) (d : bytes) : bool * RespParser :=
  let fail (msg : bytes) := (true, mkParser (error_msg_ p) msg (array_depth_ p)) in
  if negb (bool_decide (protocol_error_ p = [])) then (true, p)
  else
    match d with
    | [] => (false, p)
    | type :: _ =>
        if negb (is_type_byte type) then fail (lit "unknown type byte")
        else if (length d <? 2)%nat then (false, p)
        else
          match first_line d with
          | None => (false, p)
          | Some (num_str, _) =>
              if Ascii.eqb type "$" || Ascii.eqb type "*" then
                match parse_int64_safe num_str with
                | None => fail (lit "invalid number in protocol header")
                | Some n =>
                    if n <? -1 then fail (lit "invalid negative length")
                    else if Ascii.eqb type "$" && (max_bulk <? n)
                    then fail (lit "bulk string length exceeds limit")
                    else if Ascii.eqb type "*" && (max_array <? n)
                    then fail (lit "array length exceeds limit")
                    else (false, p)
                end
              else (false, p)
          end
    end.

(** ** [has_complete_command] *)

(** The scan over a nested array: from [pos], stop when the depth counter is
    back at 0 or the data ends. [fuel] bounds the bytes left. *)
Fixpoint skip_nested (fuel : nat) (d : bytes) (depth : Z) (pos : nat) : Z * nat :=
  match fuel with
  | O => (depth, pos)
  | S fuel =>
      if (0 <? depth) && (pos <? length d)%nat then
        let c := nth pos d zero in
        let depth := if Ascii.eqb c "*" then depth + 1 else depth in
        let depth :=
          if Ascii.eqb c LF && (0 <? pos)%nat && Ascii.eqb (nth (pos - 1) d zero) CR
          then depth - 1 else depth in
        skip_nested fuel d depth (S pos)
      else (depth, pos)
  end.

(** The loop over [n] array elements from [pos]. *)
Fixpoint elems_complete (n : nat) (d : bytes) (pos : nat) : bool :=
  match n with
  | O => true
  | S n =>
      if (length d <=? pos)%nat then false
      else
        let elem_type := nth pos d zero in
        if Ascii.eqb elem_type "+" || Ascii.eqb elem_type "-" || Ascii.eqb elem_type ":"
        then
          match first_line (drop pos d) with
          | None => false
          | Some (_, k) => elems_complete n d (pos + k + 2)
          end
        else if Ascii.eqb elem_type "$" then
          match first_line (drop pos d) with
          | None => false
          | Some (elem_len_str, k) =>
              match parse_int64_safe elem_len_str with
              | None => false
              | Some elem_len =>
                  if elem_len =? -1 then elems_complete n d (pos + k + 2)
                  else if elem_len <? -1 then false
                  else
                    let elem_total_len := Z.of_nat (pos + k) + 2 + elem_len + 2 in
                    if zlen d <? elem_total_len then false
                    else elems_complete n d (Z.to_nat elem_total_len)
              end
          end
        else if Ascii.eqb elem_type "*" then
          let '(depth, pos) := skip_nested (length d) d 1 pos in
          if negb (depth =? 0) then false else elems_complete n d pos
        else false
  end.

Definition has_complete_command (d : bytes) : bool :=
  if (length d <? 4)%nat then false
  else
    let type := nth 0 d zero in
    if Ascii.eqb type "+" || Ascii.eqb type "-" || Ascii.eqb type ":" then
      match first_line d with Some _ => true | None => false end
    else if Ascii.eqb type "$" then
      match first_line d with
      | None => false
      | Some (len_str, k) =>
          match parse_int64_safe len_str with
          | None => false
          | Some bulk_len =>
              if bulk_len =? -1 then (5 <=? length d)%nat
              else if bulk_len <? -1 then false
              else if max_bulk <? bulk_len then false
              else
                let total_len := Z.of_nat k + 2 + bulk_len + 2 in
                total_len <=? zlen d
          end
      end
    else if Ascii.eqb type "*" then
      match first_line d with
      | None => false
      | Some (count_str, k) =>
          match parse_int64_safe count_str with
          | None => false
          | Some count =>
              if count =? 0 then true
              else if count <? 0 then false
              else if max_array <? count then false
              else elems_complete (Z.to_nat count) d (k + 2)
          end
      end
    else false.

(** ** Parsing *)

(** The outcome of a parsing function: [Done None] is the return value false.
    [OutOfFuel] is not a behaviour of the code: [parse_one_total] and
    [parse_total] show it is never reached. *)
Inductive res (S A : Type) := Done (o : option A) (st : S) | OutOfFuel.
Arguments Done {S A}.
Arguments OutOfFuel {S A}.

Section parser.
Context {B : Type} `{!ByteQueue B}.

(** The parser object and the buffer it reads. *)
Record pst := mkPst { ps_parser : RespParser; ps_buf : B }.

Definition peeked (st : pst) : bytes := bq_peek (ps_buf st).

Definition set_error (msg : bytes) (st : pst) : pst :=
  let p := ps_parser st in
  mkPst (mkParser msg (protocol_error_ p) (array_depth_ p)) (ps_buf st).

Definition set_depth (d : Z) (st : pst) : pst :=
  let p := ps_parser st in
  mkPst (mkParser (error_msg_ p) (protocol_error_ p) d) (ps_buf st).

Definition skip (len : nat) (st : pst) : pst :=
  mkPst (ps_parser st) (bq_retrieve len (ps_buf st)).

Definition parse_simple_string (st : pst) : option bytes * pst :=
  match first_line (peeked st) with
  | None => (None, set_error (lit "Simple string missing CRLF") st)
  | Some (out, k) => (Some out, skip (k + 2) st)
  end.

Definition parse_error (st : pst) : option bytes * pst :=
  match first_line (peeked st) with
  | None => (None, set_error (lit "Error message missing CRLF") st)
  | Some (out, k) => (Some out, skip (k + 2) st)
  end.

Definition parse_integer (st : pst) : option Z * pst :=
  match first_line (peeked st) with
  | None => (None, set_error (lit "Integer missing CRLF") st)
  | Some (num_str, k) =>
      match stoll num_str with
      | None => (None, set_error (lit "Invalid integer: " ++ num_str) st)
      | Some (out, _) => (Some out, skip (k + 2) st)
      end
  end.

Definition parse_bulk_string (st : pst) : option bytes * pst :=
  match first_line (peeked st) with
  | None => (None, set_error (lit "Bulk string missing length CRLF") st)
  | Some (len_str, k) =>
      match parse_int64_safe len_str with
      | None => (None, set_error (lit "Invalid bulk string length") st)
      | Some bulk_len =>
          let header_len := (k + 2)%nat in
          if bulk_len =? -1 then (Some [], skip header_len st)
          else if bulk_len <? -1
          then (None, set_error (lit "Invalid bulk string length") st)
          else
            let total_len := Z.of_nat header_len + bulk_len + 2 in
            if zlen (peeked st) <? total_len
            then (None, set_error (lit "Bulk string incomplete") st)
            else
              (Some (take (Z.to_nat bulk_len) (drop header_len (peeked st))),
               skip (Z.to_nat total_len) st)
      end
  end.

(** The element loop of [parse_array]: [i] of [count] elements are read.
    Every element takes at least one byte, so [fuel] is a bound on the
    bytes left. *)
Fixpoint parse_elems (parse_one : pst -> res pst RespValue) (fuel : nat)
    (count i : Z) (out : list RespValue) (st : pst) : res pst (list RespValue) :=
  match fuel with
  | O => OutOfFuel
  | S fuel =>
      if i <? count then
        if (length (peeked st) <? 1)%nat
        then Done None (set_error (lit "Array element missing") st)
        else
          match parse_one st with
          | OutOfFuel => OutOfFuel
          | Done None st => Done None st
          | Done (Some elem) st =>
              parse_elems parse_one fuel count (i + 1) (out ++ [elem]) st
          end
      else Done (Some out) st
  end.

(** The body of [parse_array], run with [array_depth_] already raised. *)
Definition parse_array_body (parse_one : pst -> res pst RespValue) (st : pst)
    : res pst (list RespValue) :=
  if kMaxNestingDepth <? array_depth_ (ps_parser st) then
    let msg := lit "Array nesting exceeds limit" in
    let p := ps_parser st in
    Done None (mkPst (mkParser msg msg (array_depth_ p)) (ps_buf st))
  else
    match first_line (peeked st) with
    | None => Done None (set_error (lit "Array missing count CRLF") st)
    | Some (count_str, k) =>
        match parse_int64_safe count_str with
        | None => Done None (set_error (lit "Invalid array count") st)
        | Some count =>
            let st := skip (k + 2) st in
            if count =? -1 then Done (Some []) st
            else if count <? -1
            then Done None (set_error (lit "Invalid array count") st)
            else
              parse_elems parse_one (S (length (peeked st))) count 0 [] st
        end
    end.

(** [parse_array]: [DepthGuard] raises the depth on entry and lowers it on
    every way out. *)
Definition parse_array (parse_one : pst -> res pst RespValue) (st : pst)
    : res pst (list RespValue) :=
  let st := set_depth (array_depth_ (ps_parser st) + 1) st in
  match parse_array_body parse_one st with
  | OutOfFuel => OutOfFuel
  | Done o st => Done o (set_depth (array_depth_ (ps_parser st) - 1) st)
  end.

Fixpoint parse_one (fuel : nat) (st : pst) : res pst RespValue :=
  match fuel with
  | O => OutOfFuel
  | S fuel =>
      match peeked st with
      | [] => Done None (set_error (lit "Buffer is empty") st)
      | type :: _ =>
          if Ascii.eqb type "+" then
            let '(o, st) := parse_simple_string st in
            Done ((fun s => mkValue SIMPLE_STRING (DString s)) <$> o) st
          else if Ascii.eqb type "-" then
            let '(o, st) := parse_error st in
            Done ((fun s => mkValue ERROR (DString s)) <$> o) st
          else if Ascii.eqb type ":" then
            let '(o, st) := parse_integer st in
            Done ((fun n => mkValue INTEGER (DInt n)) <$> o) st
          else if Ascii.eqb type "$" then
            let '(o, st) := parse_bulk_string st in
            Done ((fun s => mkValue BULK_STRING (DString s)) <$> o) st
          else if Ascii.eqb type "*" then
            match parse_array (parse_one fuel) st with
            | OutOfFuel => OutOfFuel
            | Done o st => Done ((fun l => mkValue ARRAY (DArray l)) <$> o) st
            end
          else Done None (set_error (lit "Unknown RESP type: " ++ [type]) st)
      end
  end.

(** The nesting guard stops the recursion below this fuel. *)
Definition parse_fuel : nat := 34.

(** The loop of [parse]. *)
Fixpoint parse_loop (fuel : nat) (commands : list RespValue) (st : pst)
    : res pst (list RespValue) :=
  match fuel with
  | O => OutOfFuel
  | S fuel =>
      if has_complete_command (peeked st) then
        match parse_one parse_fuel st with
        | OutOfFuel => OutOfFuel
        | Done (Some cmd) st => parse_loop fuel (commands ++ [cmd]) st
        | Done None st => Done (Some commands) st
        end
      else Done (Some commands) st
  end.

Definition parse (st : pst) : res pst (list RespValue) :=
  parse_loop (S (length (peeked st))) [] st.
End parser.
Arguments pst : clear implicits.

(** ** [RespEncoder] *)

Definition crlf : bytes := [CR; LF].

Definition encode_simple_string (s : bytes) : bytes := lit "+" ++ s ++ crlf.

(** [err.rfind(prefix, 0) == 0]: does the text start with the prefix? *)
Definition starts_with (p s : bytes) : bool := bool_decide (take (length p) s = p).

Definition encode_error (err : bytes) : bytes :=
  if starts_with (lit "WRONGTYPE") err || starts_with (lit "ERR ") err
  then lit "-" ++ err ++ crlf
  else lit "-ERR " ++ err ++ crlf.

Definition encode_integer (n : Z) : bytes := lit ":" ++ to_string n ++ crlf.

Definition encode_bulk_string (s : bytes) : bytes :=
  lit "$" ++ to_string (zlen s) ++ crlf ++ s ++ crlf.

Definition encode_null : bytes := lit "$-1" ++ crlf.
Definition encode_ok : bytes := lit "+OK" ++ crlf.
Definition encode_nil : bytes := lit "$-1" ++ crlf.

Definition encode_array (arr : list bytes) : bytes :=
  foldl (fun result item => result ++ encode_bulk_string item)
    (lit "*" ++ to_string (zlen arr) ++ crlf) arr.

Definition encode_nested_array (nested : list (list bytes)) : bytes :=
  foldl (fun result inner =>
           foldl (fun result item => result ++ encode_bulk_string item)
             (result ++ lit "*" ++ to_string (zlen inner) ++ crlf) inner)
    (lit "*" ++ to_string (zlen nested) ++ crlf) nested.

(** ** Lines *)

Abbreviation no_cr s := (Forall (fun c => c <> CR) s).

Lemma digits_no_cr ds : Forall (fun c => is_digit c = true) ds -> no_cr ds.
Proof. intros H. eapply Forall_impl; [exact H|]. by intros c Hc ->. Qed.

Lemma to_string_no_cr z : no_cr (to_string z).
Proof.
  unfold to_string. destruct (Z.ltb_spec z 0).
  - constructor; [done|]. apply digits_no_cr, show_unsigned_spec. lia.
  - apply digits_no_cr, show_unsigned_spec. lia.
Qed.

Lemma to_string_nonempty z : to_string z <> [].
Proof.
  unfold to_string. destruct (Z.ltb_spec z 0); [done|].
  apply show_unsigned_spec. lia.
Qed.

#[export] Hint Resolve to_string_no_cr : cc_db.

Lemma find_crlf_cons2 c c' d :
  find_crlf (c :: c' :: d) =
  if Ascii.eqb c CR && Ascii.eqb c' LF then Some O else S <$> find_crlf (c' :: d).
Proof. done. Qed.

Lemma find_crlf_cons c d :
  c <> CR -> find_crlf (c :: d) = S <$> find_crlf d.
Proof.
  intros Hc. destruct d as [|c' d]; [done|].
  rewrite find_crlf_cons2.
  by apply Ascii.eqb_neq in Hc as ->.
Qed.

Lemma find_crlf_skip s r :
  no_cr s -> find_crlf (s ++ r) = Nat.add (length s) <$> find_crlf r.
Proof.
  induction 1 as [|c s Hc _ IH]; [simpl; by destruct (find_crlf r)|].
  rewrite <-app_comm_cons, find_crlf_cons, IH by done. by destruct (find_crlf r).
Qed.

Lemma find_crlf_line s r : no_cr s -> find_crlf (s ++ CR :: LF :: r) = Some (length s).
Proof. intros. rewrite find_crlf_skip by done. simpl. by rewrite Nat.add_0_r. Qed.

(** A line that has not arrived in full has no end. *)
Lemma find_crlf_cut s r n :
  no_cr s -> (n < length s + 2)%nat -> find_crlf (take n (s ++ CR :: LF :: r)) = None.
Proof.
  intros Hs Hn. rewrite take_app, find_crlf_skip by by apply Forall_take.
  destruct (n - length s)%nat as [|[|]] eqn:?; [done..|lia].
Qed.

Lemma find_crlf_Some d k : find_crlf d = Some k -> (k + 2 <= length d)%nat.
Proof.
  revert k; induction d as [|c [|c' d] IH]; intros k; [done..|].
  rewrite find_crlf_cons2.
  destruct (_ && _); [intros [= <-]; simpl; lia|].
  destruct (find_crlf (c' :: d)) as [j|]; [|done]. simpl. intros [= <-].
  specialize (IH j eq_refl). simpl in *. lia.
Qed.

Lemma first_line_text c s r :
  no_cr s -> first_line (c :: s ++ CR :: LF :: r) = Some (s, S (length s)).
Proof.
  intros. unfold first_line. cbn [drop]. rewrite drop_0, find_crlf_line by done.
  by rewrite take_app_length.
Qed.

Lemma first_line_cut c s r n :
  no_cr s -> (n < length s + 2)%nat ->
  first_line (c :: take n (s ++ CR :: LF :: r)) = None.
Proof.
  intros. unfold first_line. cbn [drop]. by rewrite drop_0, find_crlf_cut.
Qed.

Lemma first_line_Some d l k :
  first_line d = Some (l, k) -> (1 <= k /\ k + 2 <= length d)%nat.
Proof.
  unfold first_line. destruct (find_crlf (drop 1 d)) as [j|] eqn:Hj; [|done].
  intros [= <- <-]. apply find_crlf_Some in Hj. rewrite length_drop in Hj. lia.
Qed.

Lemma parse_int64_safe_to_string z :
  in_i64 z -> parse_int64_safe (to_string z) = Some z.
Proof.
  intros Hz. unfold parse_int64_safe. rewrite stoll_to_string by done.
  destruct (to_string z) eqn:E; [by destruct (to_string_nonempty z)|].
  by rewrite Nat.eqb_refl.
Qed.

Lemma encode_bulk_string_eq a :
  encode_bulk_string a =
  "$"%char :: to_string (zlen a) ++ CR :: LF :: a ++ [CR; LF].
Proof. done. Qed.

Lemma foldl_app_concat {A} (f : A -> bytes) l acc :
  foldl (fun r x => r ++ f x) acc l = acc ++ mjoin (f <$> l).
Proof.
  revert acc; induction l as [|x l IH]; intros acc; simpl.
  - by rewrite app_nil_r.
  - rewrite IH. by rewrite <-app_assoc.
Qed.

Lemma encode_array_eq arr :
  encode_array arr =
  "*"%char :: to_string (zlen arr) ++ CR :: LF :: mjoin (encode_bulk_string <$> arr).
Proof.
  unfold encode_array. rewrite foldl_app_concat. unfold crlf, lit. simpl.
  by rewrite <-app_assoc.
Qed.

End Resp.
