(* ===== verification/RespSpec.v ===== *)
(** * What the RESP parser and encoder guarantee

    Totality of the parser, the round trip through the wire format, framing of
    commands that arrive in pieces, and the inputs on which the framing test
    and the parser disagree. *)

From S2P Require Import Prelude Base Buffer Resp.
From stdpp Require Import options.

Module RespSpec.
Import Text Resp.

(** ** Totality *)

Section total.
Context {B : Type} `{!ByteQueue B}.
Implicit Types st : pst B.

Definition st_ok st : Prop := bq_ok (ps_buf st).

(** A parsing function returns; it keeps the buffer well-formed and the
    nesting depth as it was, never gives bytes back, and consumes at least
    one byte when it succeeds. *)
Definition good_result {A} (strict : bool) st (r : res (pst B) A) : Prop :=
  match r with
  | OutOfFuel => False
  | Done o st' =>
      st_ok st' /\ array_depth_ (ps_parser st') = array_depth_ (ps_parser st) /\
      (length (peeked st') <= length (peeked st))%nat /\
      (strict = true -> o <> None -> (length (peeked st') < length (peeked st))%nat)
  end.

Lemma skip_ok n st : st_ok st -> st_ok (skip n st).
Proof. unfold st_ok, skip. simpl. auto with cc_db. Qed.

Lemma peeked_skip n st : st_ok st -> peeked (skip n st) = drop n (peeked st).
Proof. intros. unfold peeked, skip. simpl. by apply bq_peek_retrieve. Qed.

Lemma good_fail {A} b st msg :
  st_ok st -> good_result (A:=A) b st (Done None (set_error msg st)).
Proof. intros. simpl. split_and!; [done..|]. by intros _ []. Qed.

Lemma good_skip {A} b n st (o : option A) :
  st_ok st -> (1 <= n <= length (peeked st))%nat ->
  good_result b st (Done o (skip n st)).
Proof.
  intros Hok Hn. simpl. split_and!; [by apply skip_ok|done|..];
    rewrite peeked_skip, length_drop by done; lia.
Qed.

Lemma good_map {A C} b st (f : A -> C) (o : option A) st' :
  good_result b st (Done o st') -> good_result b st (Done (f <$> o) st').
Proof.
  intros (? & ? & ? & Hlt). simpl. split_and!; [done..|].
  intros ? Hne. apply Hlt; [done|]. by intros ->.
Qed.

Lemma good_strict {A} b st (r : res (pst B) A) : good_result true st r -> good_result b st r.
Proof. destruct r as [o st'|]; simpl; [|done]. intros (? & ? & ? & ?). auto. Qed.

Ltac line_cases :=
  match goal with
  | |- context [first_line ?d] =>
      let E := fresh "Eline" in
      destruct (first_line d) as [[line k]|] eqn:E; [apply first_line_Some in E|]
  end.

Lemma parse_simple_string_good st :
  st_ok st -> let '(o, st') := parse_simple_string st in good_result true st (Done o st').
Proof.
  intros. unfold parse_simple_string. line_cases; [apply good_skip; [done|lia]|].
  by apply good_fail.
Qed.

Lemma parse_error_good st :
  st_ok st -> let '(o, st') := parse_error st in good_result true st (Done o st').
Proof.
  intros. unfold parse_error. line_cases; [apply good_skip; [done|lia]|].
  by apply good_fail.
Qed.

Lemma parse_integer_good st :
  st_ok st -> let '(o, st') := parse_integer st in good_result true st (Done o st').
Proof.
  intros. unfold parse_integer. line_cases; [|by apply good_fail].
  destruct (stoll _) as [[]|]; [apply good_skip; [done|lia]|by apply good_fail].
Qed.

Lemma parse_bulk_string_good st :
  st_ok st -> let '(o, st') := parse_bulk_string st in good_result true st (Done o st').
Proof.
  intros. unfold parse_bulk_string. line_cases; [|by apply good_fail].
  destruct (parse_int64_safe _) as [c|]; [|by apply good_fail].
  case_ifs; first [by apply good_fail | apply good_skip; [done|]];
    unfold zlen in *; blia.
Qed.

Lemma parse_elems_good one fuel st0 count i out st :
  (forall st, st_ok st -> array_depth_ (ps_parser st) = array_depth_ (ps_parser st0) ->
     good_result true st (one st)) ->
  st_ok st -> array_depth_ (ps_parser st) = array_depth_ (ps_parser st0) ->
  (length (peeked st) < fuel)%nat -> (length (peeked st) <= length (peeked st0))%nat ->
  good_result false st0 (parse_elems one fuel count i out st).
Proof.
  intros Hone. revert i out st.
  induction fuel as [|fuel IH]; intros i out st Hok Hd Hf Hle; [lia|]. simpl.
  destruct (i <? count); [|simpl; split_and!; done].
  destruct (_ <? 1)%nat; [simpl; split_and!; done|].
  specialize (Hone st Hok Hd). destruct (one st) as [[v|] st1|]; [|..|done].
  - destruct Hone as (Hok1 & Hd1 & Hle1 & Hlt1). specialize (Hlt1 eq_refl ltac:(done)).
    apply IH; [done|congruence|lia|lia].
  - destruct Hone as (Hok1 & Hd1 & Hle1 & _). simpl.
    split_and!; [done|congruence|lia|done].
Qed.

Lemma parse_array_good one st :
  (forall st', st_ok st' ->
     array_depth_ (ps_parser st') = array_depth_ (ps_parser st) + 1 ->
     array_depth_ (ps_parser st) < kMaxNestingDepth -> good_result true st' (one st')) ->
  st_ok st -> good_result true st (parse_array one st).
Proof.
  intros Hone Hok. unfold parse_array.
  set (st1 := set_depth (array_depth_ (ps_parser st) + 1) st).
  assert (good_result true st1 (parse_array_body one st1)) as Hb.
  { assert (st_ok st1) as Hok1 by done. unfold parse_array_body.
    destruct (Z.ltb_spec kMaxNestingDepth (array_depth_ (ps_parser st1))) as [|Hdep].
    { simpl. split_and!; [done..|]. by intros _ []. }
    line_cases; [|by apply good_fail].
    destruct (parse_int64_safe _) as [c|].
    2: by apply good_fail.
    assert (peeked (skip (k + 2) st1) = drop (k + 2) (peeked st1)) as Hpk
      by by apply peeked_skip.
    assert (length (peeked (skip (k + 2) st1)) < length (peeked st1))%nat as Hlt
      by (rewrite Hpk, length_drop; lia).
    case_ifs.
    - apply good_skip; [done|lia].
    - simpl. split_and!; [by apply skip_ok|done|..]; unfold peeked in *; simpl in *; lia.
    - pose proof (parse_elems_good one (S (length (peeked (skip (k + 2) st1))))
        (skip (k + 2) st1) c 0 [] (skip (k + 2) st1)) as He.
      destruct (parse_elems _ _ _ _ _ _) as [o st2|].
      + destruct He as (? & ? & ? & _);
          [|by apply skip_ok|done|lia|lia|simpl; split_and!; try done; lia].
        intros st' ? Hd. apply Hone; [done| |]; simpl in *; lia.
      + apply He; [|by apply skip_ok|done|lia|lia].
        intros st' ? Hd. apply Hone; [done| |]; simpl in *; lia. }
  destruct (parse_array_body one st1) as [o st2|]; [|done].
  destruct Hb as (? & Hd2 & ? & ?). simpl in *. split_and!; [done|lia|done|done].
Qed.

(** With fuel for the nesting levels left, [parse_one] returns. *)
Lemma parse_one_total fuel st :
  st_ok st -> 33 - array_depth_ (ps_parser st) <= Z.of_nat fuel -> (1 <= fuel)%nat ->
  good_result true st (parse_one fuel st).
Proof.
  revert st; induction fuel as [|fuel IH]; intros st Hok Hf Hf1; [lia|].
  cbn [parse_one]. destruct (peeked st) as [|type d] eqn:Hpk; [by apply good_fail|].
  case_ifs.
  - pose proof (parse_simple_string_good st Hok). destruct (parse_simple_string st).
    by apply good_map.
  - pose proof (parse_error_good st Hok). destruct (parse_error st). by apply good_map.
  - pose proof (parse_integer_good st Hok). destruct (parse_integer st).
    by apply good_map.
  - pose proof (parse_bulk_string_good st Hok). destruct (parse_bulk_string st).
    by apply good_map.
  - pose proof (parse_array_good (parse_one fuel) st) as Ha.
    destruct (parse_array (parse_one fuel) st) as [o st'|].
    + apply good_map, Ha; [|done]. intros st1 ? Hd ?. unfold kMaxNestingDepth in *.
      apply IH; [done|lia|lia].
    + apply Ha; [|done]. intros st1 ? Hd ?. unfold kMaxNestingDepth in *.
      apply IH; [done|lia|lia].
  - by apply good_fail.
Qed.

Lemma parse_loop_total fuel cmds st :
  st_ok st -> array_depth_ (ps_parser st) = 0 -> (length (peeked st) < fuel)%nat ->
  exists out st', parse_loop fuel cmds st = Done (Some (cmds ++ out)) st' /\ st_ok st' /\
    array_depth_ (ps_parser st') = 0 /\ (length (peeked st') <= length (peeked st))%nat.
Proof.
  revert cmds st; induction fuel as [|fuel IH]; intros cmds st Hok Hd Hf; [lia|].
  cbn [parse_loop]. destruct (has_complete_command (peeked st)).
  2: { exists [], st. rewrite app_nil_r. done. }
  pose proof (parse_one_total parse_fuel st Hok) as Hone.
  rewrite Hd in Hone. specialize (Hone ltac:(done) ltac:(unfold parse_fuel; lia)).
  destruct (parse_one parse_fuel st) as [[v|] st1|]; [|..|done].
  - destruct Hone as (Hok1 & Hd1 & _ & Hlt). specialize (Hlt eq_refl ltac:(done)).
    destruct (IH (cmds ++ [v]) st1) as (out & st' & -> & ? & ? & ?); [done|congruence|lia|].
    exists (v :: out), st'. rewrite <-app_assoc. split_and!; [done..|lia].
  - destruct Hone as (? & ? & ? & _). exists [], st1. rewrite app_nil_r.
    split_and!; [done|done|congruence|done].
Qed.
End total.

(** ** The wire format *)

(** The bytes of a value, put together from the encoders. An error value is
    written with its text as it is, the way [encode_error] writes a text that
    already carries its prefix. *)
Fixpoint wire (v : RespValue) : bytes :=
  let 'mkValue t d := v in
  match t, d with
  | SIMPLE_STRING, DString s => encode_simple_string s
  | ERROR, DString s => lit "-" ++ s ++ crlf
  | INTEGER, DInt n => encode_integer n
  | BULK_STRING, DString s => encode_bulk_string s
  | ARRAY, DArray l => lit "*" ++ to_string (zlen l) ++ crlf ++ concat (map wire l)
  | _, _ => []
  end.

(** Values the wire format can carry with at most [depth] levels of arrays. *)
Fixpoint wire_ok (depth : nat) (v : RespValue) : Prop :=
  let 'mkValue t d := v in
  match t, d with
  | SIMPLE_STRING, DString s => no_cr s
  | ERROR, DString s => no_cr s
  | INTEGER, DInt n => in_i64 n
  | BULK_STRING, DString s => in_i64 (zlen s)
  | ARRAY, DArray l =>
      match depth with
      | O => False
      | S depth => in_i64 (zlen l) /\ Forall (wire_ok depth) l
      end
  | _, _ => False
  end.

Lemma wire_nonempty depth v : wire_ok depth v -> wire v <> [].
Proof. destruct v as [[] []], depth; done. Qed.

Section roundtrip.
Context {B : Type} `{!ByteQueue B}.
Implicit Types st : pst B.

(** [r] is what remains unread after the bytes of [o] were consumed, and
    nothing else in the parser changed. *)
Definition reads {A} st (rest : bytes) (x : A) (r : res (pst B) A) : Prop :=
  exists st', r = Done (Some x) st' /\ ps_parser st' = ps_parser st /\
              st_ok st' /\ peeked st' = rest.

Lemma reads_skip {A} st (x : A) w rest n :
  st_ok st -> peeked st = w ++ rest -> n = length w ->
  reads st rest x (Done (Some x) (skip n st)).
Proof.
  intros Hok Hpk ->. eexists. split_and!; [done|done|by apply skip_ok|].
  by rewrite peeked_skip, Hpk, drop_app_length.
Qed.

Lemma reads_map {A C} (f : pst B -> option A * pst B) (g : A -> C) st rest x :
  (let '(o, st') := f st in reads st rest x (Done o st')) ->
  reads st rest (g x) (let '(o, st') := f st in Done (g <$> o) st').
Proof. destruct (f st) as [o st']. intros (st1 & [= -> ->] & ? & ? & ?). by exists st1. Qed.

Lemma parse_simple_string_reads st s rest :
  st_ok st -> no_cr s -> peeked st = encode_simple_string s ++ rest ->
  let '(o, st') := parse_simple_string st in reads st rest s (Done o st').
Proof.
  intros Hok Hs Hpk. unfold parse_simple_string. rewrite Hpk.
  unfold encode_simple_string, crlf, lit. simpl. rewrite <-app_assoc. simpl.
  rewrite first_line_text by done. eapply reads_skip; [done|exact Hpk|].
  unfold encode_simple_string, crlf, lit. simpl. rewrite length_app. simpl. lia.
Qed.

Lemma parse_error_reads st s rest :
  st_ok st -> no_cr s -> peeked st = (lit "-" ++ s ++ crlf) ++ rest ->
  let '(o, st') := parse_error st in reads st rest s (Done o st').
Proof.
  intros Hok Hs Hpk. unfold parse_error. rewrite Hpk.
  unfold crlf, lit. simpl. rewrite <-app_assoc. simpl.
  rewrite first_line_text by done. eapply reads_skip; [done|exact Hpk|].
  unfold crlf, lit. simpl. rewrite length_app. simpl. lia.
Qed.

Lemma parse_integer_reads st n rest :
  st_ok st -> in_i64 n -> peeked st = encode_integer n ++ rest ->
  let '(o, st') := parse_integer st in reads st rest n (Done o st').
Proof.
  intros Hok Hs Hpk. unfold parse_integer. rewrite Hpk.
  unfold encode_integer, crlf, lit. simpl. rewrite <-app_assoc. simpl.
  rewrite first_line_text by auto with cc_db. rewrite stoll_to_string by done.
  eapply reads_skip; [done|exact Hpk|].
  unfold encode_integer, crlf, lit. simpl. rewrite length_app. simpl. lia.
Qed.

Lemma encode_bulk_string_length a :
  length (encode_bulk_string a) =
  (S (length (to_string (zlen a))) + 2 + length a + 2)%nat.
Proof.
  rewrite encode_bulk_string_eq. simpl. rewrite length_app. simpl.
  rewrite length_app. simpl. lia.
Qed.

Lemma parse_bulk_string_reads st s rest :
  st_ok st -> in_i64 (zlen s) -> peeked st = encode_bulk_string s ++ rest ->
  let '(o, st') := parse_bulk_string st in reads st rest s (Done o st').
Proof.
  intros Hok Hs Hpk. unfold parse_bulk_string.
  pose proof (encode_bulk_string_length s) as Hlen.
  assert (peeked st = "$"%char :: to_string (zlen s) ++ CR :: LF :: s ++ CR :: LF :: rest)
    as Hpk'.
  { rewrite Hpk, encode_bulk_string_eq. simpl. rewrite <-app_assoc. simpl.
    by rewrite <-app_assoc. }
  assert (first_line (peeked st) = Some (to_string (zlen s), S (length (to_string (zlen s)))))
    as -> by (rewrite Hpk'; apply first_line_text; auto with cc_db).
  rewrite parse_int64_safe_to_string by done.
  assert (zlen (peeked st) = zlen (encode_bulk_string s) + zlen rest) as Hz
    by (rewrite Hpk; apply zlen_app).
  pose proof (zlen_nonneg s). pose proof (zlen_nonneg rest).
  replace (zlen s =? -1) with false by lia. replace (zlen s <? -1) with false by lia.
  unfold zlen in Hz at 2. rewrite Hlen in Hz.
  match goal with |- context [if ?b then _ else _] => replace b with false end.
  2: { symmetry. apply Z.ltb_ge. unfold zlen in *. lia. }
  replace (take _ _) with s.
  2: { rewrite Hpk'. change (?c :: ?l ++ CR :: LF :: ?x)
         with ((c :: l) ++ ([CR; LF] ++ x)).
       rewrite app_assoc, drop_app_length' by (rewrite length_app; simpl; lia).
       unfold zlen. by rewrite Nat2Z.id, take_app_length. }
  eapply reads_skip; [done|exact Hpk|]. rewrite Hlen. unfold zlen. lia.
Qed.

Lemma parse_elems_reads one fuel p st l i out rest :
  (forall st v rest, st_ok st -> ps_parser st = p -> v ∈ l ->
     peeked st = wire v ++ rest -> reads st rest v (one st)) ->
  ps_parser st = p ->
  Forall (fun v => wire v <> []) l ->
  st_ok st -> peeked st = concat (map wire l) ++ rest -> (length l < fuel)%nat ->
  reads st rest (out ++ l) (parse_elems one fuel (i + zlen l) i out st).
Proof.
  intros Hone Hp Hne. revert fuel st i out Hp.
  induction l as [|v l IH]; intros [|fuel] st i out Hp Hok Hpk Hf; cbn [parse_elems];
    try (simpl in Hf; lia).
  { change (zlen []) with 0. rewrite (proj2 (Z.ltb_ge i (i + 0))) by lia.
    rewrite app_nil_r. by exists st. }
  inversion_clear Hne as [|?? Hv Hl].
  rewrite zlen_cons, (proj2 (Z.ltb_lt i _)) by (pose proof (zlen_nonneg l); lia).
  simpl in Hpk. rewrite <-app_assoc in Hpk.
  destruct (Nat.ltb_spec (length (peeked st)) 1) as [Hlt|_].
  { rewrite Hpk in Hlt. destruct (wire v); [done|simpl in Hlt; lia]. }
  destruct (Hone st v _ Hok Hp ltac:(left) Hpk) as (st1 & -> & Hp1 & Hok1 & Hpk1).
  rewrite Z.add_assoc.
  destruct (fun H1 => IH H1 Hl fuel st1 (i + 1) (out ++ [v])) as (st2 & -> & ? & ? & ?);
    [|congruence|done|done|simpl in Hf; lia|].
  { intros st' v' rest' ? ? ?. apply Hone; [done..|by right]. }
  exists st2. rewrite <-app_assoc. split_and!; [done|congruence|done|done].
Qed.

Lemma concat_nonempty_length (l : list RespValue) :
  Forall (fun v => wire v <> []) l -> (length l <= length (concat (map wire l)))%nat.
Proof.
  induction 1 as [|v l Hv _ IH]; simpl; [lia|]. rewrite length_app.
  destruct (wire v); [done|]. simpl. lia.
Qed.

Lemma parse_array_reads one st l rest :
  (forall st' v rest, st_ok st' ->
     array_depth_ (ps_parser st') = array_depth_ (ps_parser st) + 1 ->
     v ∈ l -> peeked st' = wire v ++ rest -> reads st' rest v (one st')) ->
  Forall (fun v => wire v <> []) l -> in_i64 (zlen l) ->
  array_depth_ (ps_parser st) < kMaxNestingDepth ->
  st_ok st -> peeked st = wire (mkValue ARRAY (DArray l)) ++ rest ->
  reads st rest l (parse_array one st).
Proof.
  intros Hone Hne Hl Hd Hok Hpk. unfold parse_array, parse_array_body.
  cbn [set_depth ps_parser array_depth_].
  rewrite (proj2 (Z.ltb_ge kMaxNestingDepth _)) by lia.
  set (st1 := set_depth _ st).
  assert (peeked st1 = "*"%char :: to_string (zlen l) ++ CR :: LF :: concat (map wire l) ++ rest)
    as Hpk1.
  { change (peeked st1) with (peeked st). rewrite Hpk. simpl. by rewrite <-app_assoc. }
  assert (first_line (peeked st1) = Some (to_string (zlen l), S (length (to_string (zlen l)))))
    as -> by (rewrite Hpk1; apply first_line_text; auto with cc_db).
  rewrite parse_int64_safe_to_string by done. pose proof (zlen_nonneg l).
  rewrite (proj2 (Z.eqb_neq (zlen l) (-1))), (proj2 (Z.ltb_ge (zlen l) (-1))) by lia.
  set (st2 := skip _ st1).
  assert (peeked st2 = concat (map wire l) ++ rest) as Hpk2.
  { unfold st2. rewrite peeked_skip, Hpk1 by done.
    change (?c :: ?l ++ CR :: LF :: ?x) with ((c :: l) ++ ([CR; LF] ++ x)).
    rewrite app_assoc, drop_app_length' by (rewrite length_app; simpl; lia). done. }
  assert (st_ok st2) as Hok2 by by apply skip_ok.
  pose proof (concat_nonempty_length l Hne) as Hlen.
  destruct (parse_elems_reads one (S (length (peeked st2))) (ps_parser st2) st2 l 0 [] rest)
    as (st3 & He & Hp3 & Hok3 & Hpk3); [|done|done|done|done|..].
  { intros st' v rest' ? Hp ? ?. apply Hone; [done| |done..]. by rewrite Hp. }
  { rewrite Hpk2, length_app. lia. }
  rewrite Z.add_0_l in He. rewrite He.
  eexists. split_and!; [done| |done|done]. simpl. rewrite Hp3. simpl.
  rewrite Z.add_simpl_r. by destruct (ps_parser st).
Qed.

(** [parse_one] reads back every value of the wire format whose nesting fits
    in the levels left. *)
Lemma parse_one_reads depth fuel st v rest :
  wire_ok depth v -> (depth < fuel)%nat ->
  array_depth_ (ps_parser st) + Z.of_nat depth <= kMaxNestingDepth ->
  st_ok st -> peeked st = wire v ++ rest ->
  reads st rest v (parse_one fuel st).
Proof.
  revert fuel st v rest. induction depth as [|depth IH];
    intros [|fuel] st [t d] rest Hv Hf Hd Hok Hpk; try lia;
    destruct t, d as [|s|n|l]; try done; cbn [parse_one]; rewrite Hpk; 
    cbn -[parse_array parse_simple_string parse_error parse_integer parse_bulk_string].
  1,5: by apply (reads_map parse_simple_string (fun x => mkValue SIMPLE_STRING (DString x))), parse_simple_string_reads.
  1,4: by apply (reads_map parse_error (fun x => mkValue ERROR (DString x))), parse_error_reads.
  1,3: by apply (reads_map parse_integer (fun x => mkValue INTEGER (DInt x))), parse_integer_reads.
  1,2: by apply (reads_map parse_bulk_string (fun x => mkValue BULK_STRING (DString x))), parse_bulk_string_reads.
  destruct Hv as [Hl Hall].
  destruct (parse_array_reads (parse_one fuel) st l rest) as (st' & -> & ? & ? & ?);
    [| |done|lia|done|done|by exists st'].
  - intros st' v rest' ? Hd' Hin ?. rewrite Forall_forall in Hall.
    apply IH; [by apply Hall|lia|lia|done|done].
  - eapply Forall_impl; [exact Hall|]. intros v Hv. by eapply wire_nonempty.
Qed.
End roundtrip.

(** ** Framing of commands *)

Lemma nth_drop_0 (d : bytes) pos : nth pos d zero = nth 0 (drop pos d) zero.
Proof.
  revert d; induction pos as [|pos IH]; intros [|c d]; try done. apply IH.
Qed.

Lemma drop_cons_lt (d : bytes) pos c r : drop pos d = c :: r -> (pos < length d)%nat.
Proof.
  intros H. destruct (decide (pos < length d)%nat); [done|].
  rewrite drop_ge in H by lia. done.
Qed.

Lemma elems_bulk_step n d pos a r :
  in_i64 (zlen a) -> drop pos d = encode_bulk_string a ++ r ->
  elems_complete (S n) d pos =
  elems_complete n d (pos + length (encode_bulk_string a)).
Proof.
  intros Ha Hd. pose proof Hd as Hd0. pose proof (encode_bulk_string_length a) as Hlen.
  rewrite encode_bulk_string_eq in Hd.
  pose proof (drop_cons_lt _ _ _ _ Hd) as Hlt. cbn [elems_complete].
  rewrite (proj2 (Nat.leb_gt _ _) Hlt), nth_drop_0, Hd. simpl nth. simpl (Ascii.eqb _ _).
  cbn -[elems_complete to_string Z.add Z.mul Nat.add].
  rewrite <-app_assoc. rewrite <-!app_comm_cons.
  rewrite first_line_text by auto with cc_db. rewrite parse_int64_safe_to_string by done.
  pose proof (zlen_nonneg a).
  rewrite (proj2 (Z.eqb_neq (zlen a) (-1))), (proj2 (Z.ltb_ge (zlen a) (-1))) by lia.
  assert (length (drop pos d) = length (encode_bulk_string a) + length r)%nat as Hl
    by (rewrite Hd0; apply length_app).
  rewrite length_drop in Hl.
  rewrite (proj2 (Z.ltb_ge _ _)) by (unfold zlen in *; lia).
  f_equal. unfold zlen in *. lia.
Qed.

Lemma elems_bulk_cut n d pos a m :
  in_i64 (zlen a) -> (pos <= length d)%nat -> (m < length (encode_bulk_string a))%nat ->
  drop pos d = take m (encode_bulk_string a) ->
  elems_complete (S n) d pos = false.
Proof.
  intros Ha Hpos Hm Hd. cbn [elems_complete].
  destruct (Nat.leb_spec (length d) pos) as [|Hlt]; [done|].
  pose proof (encode_bulk_string_length a) as Hlen.
  assert (length (drop pos d) = m) as Hl by (rewrite Hd, length_take; lia).
  rewrite length_drop in Hl. rewrite encode_bulk_string_eq in Hd.
  destruct m as [|m]; [lia|]. cbn [take] in Hd. rewrite nth_drop_0, Hd.
  cbn -[elems_complete to_string Z.add Z.mul Nat.add].
  destruct (decide (m < length (to_string (zlen a)) + 2)%nat) as [|Hge].
  { by rewrite first_line_cut by auto with cc_db. }
  rewrite take_app_ge by lia.
  destruct (m - length (to_string (zlen a)))%nat as [|[|j]] eqn:Hj; [lia..|]. simpl take.
  rewrite first_line_text by auto with cc_db. rewrite parse_int64_safe_to_string by done.
  pose proof (zlen_nonneg a).
  rewrite (proj2 (Z.eqb_neq (zlen a) (-1))), (proj2 (Z.ltb_ge (zlen a) (-1))) by lia.
  rewrite (proj2 (Z.ltb_lt _ _)) by (unfold zlen in *; lia). done.
Qed.

(** The arguments of a command as they are on the wire. *)
Abbreviation bulks args := (mjoin (encode_bulk_string <$> args)).

Lemma bulks_cons a args : bulks (a :: args) = encode_bulk_string a ++ bulks args.
Proof. done. Qed.

Definition sizes_ok (args : list bytes) : Prop := Forall (fun a => zlen a <= max_bulk) args.

Lemma max_bulk_i64 (a : bytes) : zlen a <= max_bulk -> in_i64 (zlen a).
Proof. pose proof (zlen_nonneg a). unfold in_i64, max_bulk, int64_min, int64_max. lia. Qed.

#[local] Hint Resolve max_bulk_i64 : cc_db.

Lemma elems_bulks_complete args d pos r :
  sizes_ok args -> drop pos d = bulks args ++ r -> elems_complete (length args) d pos = true.
Proof.
  intros Hs. revert pos. induction Hs as [|a args Ha _ IH]; intros pos Hd; [done|].
  rewrite bulks_cons, <-app_assoc in Hd.
  cbn [length].
  erewrite elems_bulk_step by eauto with cc_db. apply IH.
  by rewrite <-drop_drop, Hd, drop_app_length.
Qed.

Lemma elems_bulks_cut args d pos m :
  sizes_ok args -> (pos <= length d)%nat -> (m < length (bulks args))%nat ->
  drop pos d = take m (bulks args) -> elems_complete (length args) d pos = false.
Proof.
  intros Hs. revert pos m.
  induction Hs as [|a args Ha _ IH]; intros pos m Hpos Hm Hd; [simpl in Hm; lia|].
  rewrite bulks_cons in Hm, Hd. rewrite length_app in Hm. cbn [length].
  destruct (decide (m < length (encode_bulk_string a))%nat).
  - rewrite take_app_le in Hd by lia. eapply elems_bulk_cut; eauto with cc_db.
  - rewrite take_app_ge in Hd by lia. erewrite elems_bulk_step by eauto with cc_db.
    assert (length (drop pos d) = length (encode_bulk_string a) + (m - length (encode_bulk_string a)))%nat as Hl.
    { rewrite Hd, length_app, length_take. lia. }
    rewrite length_drop in Hl.
    apply (IH _ (m - length (encode_bulk_string a))%nat); [lia|lia|].
    by rewrite <-drop_drop, Hd, drop_app_length.
Qed.

(** A command a client sends: an array of bulk strings within the limits. *)
Definition command_ok (args : list bytes) : Prop :=
  zlen args <= max_array /\ sizes_ok args.

(** The value a command is parsed to. *)
Definition command_value (args : list bytes) : RespValue :=
  mkValue ARRAY (DArray ((fun a => mkValue BULK_STRING (DString a)) <$> args)).

Lemma wire_bulks args :
  concat (map wire ((fun a => mkValue BULK_STRING (DString a)) <$> args)) = bulks args.
Proof.
  induction args as [|a args IH]; [done|]. rewrite bulks_cons, <-IH. done.
Qed.

Lemma wire_command args : wire (command_value args) = encode_array args.
Proof.
  rewrite encode_array_eq. unfold command_value. cbn [wire]. unfold zlen.
  by rewrite length_fmap, wire_bulks.
Qed.

Lemma command_count_i64 args : command_ok args -> in_i64 (zlen args).
Proof.
  intros [? _]. pose proof (zlen_nonneg args).
  unfold in_i64, max_array, int64_min, int64_max in *. lia.
Qed.

#[local] Hint Resolve command_count_i64 : cc_db.

Lemma command_wire_ok args : command_ok args -> wire_ok 1 (command_value args).
Proof.
  intros Hok. simpl. split.
  - unfold zlen. rewrite length_fmap. by apply command_count_i64.
  - apply Forall_fmap. eapply Forall_impl; [apply Hok|]. intros a. simpl.
    apply max_bulk_i64.
Qed.

Lemma encode_array_length args :
  length (encode_array args) =
  (S (length (to_string (zlen args))) + 2 + length (bulks args))%nat.
Proof. rewrite encode_array_eq. simpl. rewrite length_app. simpl. lia. Qed.

Lemma to_string_length_pos z : (1 <= length (to_string z))%nat.
Proof. pose proof (to_string_nonempty z). destruct (to_string z); [done|simpl; lia]. Qed.

(** A whole command at the head of the buffer is recognised, whatever follows. *)
Lemma has_complete_command_array args r :
  command_ok args -> has_complete_command (encode_array args ++ r) = true.
Proof.
  intros Hok. pose proof (encode_array_length args) as Hlen.
  pose proof (to_string_length_pos (zlen args)) as Hpos.
  unfold has_complete_command.
  rewrite (proj2 (Nat.ltb_ge _ _)) by (rewrite length_app; lia).
  rewrite encode_array_eq. set (d := (_ :: _) ++ r).
  assert (d = "*"%char :: to_string (zlen args) ++ CR :: LF :: bulks args ++ r) as Hd.
  { unfold d. rewrite <-app_comm_cons. by rewrite <-app_assoc. }
  rewrite Hd. simpl nth. cbn [Ascii.eqb eqb orb].
  rewrite first_line_text by auto with cc_db.
  rewrite parse_int64_safe_to_string by auto with cc_db.
  destruct Hok as [Hmax Hs]. pose proof (zlen_nonneg args).
  destruct (zlen args =? 0); [done|].
  rewrite (proj2 (Z.ltb_ge (zlen args) 0)), (proj2 (Z.ltb_ge max_array (zlen args))) by lia.
  rewrite zlen_to_nat. eapply elems_bulks_complete; [done|].
  change (?c :: ?l ++ CR :: LF :: ?x) with ((c :: l) ++ ([CR; LF] ++ x)).
  rewrite app_assoc, drop_app_length' by (rewrite length_app; simpl; lia). done.
Qed.

(** A command that has not arrived in full is not recognised. *)
Lemma has_complete_command_cut args m :
  command_ok args -> (m < length (encode_array args))%nat ->
  has_complete_command (take m (encode_array args)) = false.
Proof.
  intros Hok Hm. rewrite encode_array_length in Hm. unfold has_complete_command.
  destruct (Nat.ltb_spec (length (take m (encode_array args))) 4) as [|Hm4]; [done|].
  rewrite length_take, encode_array_length in Hm4. rewrite encode_array_eq.
  destruct m as [|m]; [done|]. cbn [take nth Ascii.eqb eqb orb].
  destruct (decide (m < length (to_string (zlen args)) + 2)%nat).
  { by rewrite first_line_cut by auto with cc_db. }
  rewrite take_app_ge by lia.
  destruct (m - length (to_string (zlen args)))%nat as [|[|j]] eqn:Hj; [lia..|].
  cbn [take].
  rewrite first_line_text by auto with cc_db.
  rewrite parse_int64_safe_to_string by auto with cc_db.
  destruct Hok as [Hmax Hs]. pose proof (zlen_nonneg args).
  rewrite (proj2 (Z.eqb_neq (zlen args) 0)).
  2: { unfold zlen. destruct args; simpl in *; lia. }
  rewrite (proj2 (Z.ltb_ge (zlen args) 0)), (proj2 (Z.ltb_ge max_array (zlen args))) by lia.
  rewrite zlen_to_nat.
  apply (elems_bulks_cut args _ _ j); [done| |lia|].
  - simpl. rewrite length_app. simpl. lia.
  - change (?c :: ?l ++ CR :: LF :: ?x) with ((c :: l) ++ ([CR; LF] ++ x)).
    rewrite app_assoc, drop_app_length' by (rewrite length_app; simpl; lia). done.
Qed.

(** ** Streams of commands *)

Abbreviation stream cmds := (mjoin (encode_array <$> cmds)).

(** An unfinished command: a proper prefix of the bytes of one. *)
Definition unfinished (t : bytes) : Prop :=
  exists args m, command_ok args /\ (m < length (encode_array args))%nat /\
                 t = take m (encode_array args).

Lemma stream_cons args cmds : stream (args :: cmds) = encode_array args ++ stream cmds.
Proof. done. Qed.

Lemma unfinished_nil : unfinished [].
Proof. exists [], 0%nat. split_and!; [|vm_compute; lia|done]. by split; [|constructor]. Qed.

Lemma unfinished_incomplete t : unfinished t -> has_complete_command t = false.
Proof. intros (args & m & ? & ? & ->). by apply has_complete_command_cut. Qed.

Lemma unfinished_app x y : unfinished (x ++ y) -> unfinished x.
Proof.
  intros (args & m & Hok & Hm & Heq). exists args, (length x). split_and!; [done| |].
  - assert (length (x ++ y) = m) as Hl by (rewrite Heq, length_take; lia).
    rewrite length_app in Hl. lia.
  - apply (f_equal (take (length x))) in Heq. rewrite take_app_length in Heq.
    rewrite take_take in Heq. rewrite Heq at 1. f_equal.
    apply (f_equal length) in Heq. rewrite length_take in Heq. lia.
Qed.

(** However a stream is cut in two, the first part is a number of whole
    commands and an unfinished one. *)
Lemma stream_split cmds t x y :
  Forall command_ok cmds -> unfinished t -> x ++ y = stream cmds ++ t ->
  exists cmds1 cmds2 t1, cmds = cmds1 ++ cmds2 /\ x = stream cmds1 ++ t1 /\
    unfinished t1 /\ t1 ++ y = stream cmds2 ++ t /\
    match cmds2 with
    | [] => True
    | a :: _ => (length t1 < length (encode_array a))%nat /\ t1 `prefix_of` encode_array a
    end.
Proof.
  intros Hc Ht Heq.
  destruct (mjoin_split (encode_array <$> cmds) t x y) as (f1 & f2 & t1 & Hf & -> & Hy & Hu); [done|].
  apply fmap_app_inv in Hf as (c1 & c2 & -> & -> & ->). exists c1, c2, t1.
  apply Forall_app in Hc as [_ Hc]. split_and!; [done..| |done|by destruct c2].
  destruct c2 as [|a c2].
  - apply (unfinished_app t1 y). by rewrite Hy.
  - apply Forall_cons in Hc as [Ha _]. destruct Hu as [Hlt [k Hk]]. exists a, (length t1).
    split_and!; [done..|]. by rewrite Hk, take_app_length.
Qed.

Section streams.
Context {B : Type} `{!ByteQueue B}.
Implicit Types st : pst B.

Lemma parse_loop_stream fuel cmds out t st :
  Forall command_ok cmds -> has_complete_command t = false ->
  st_ok st -> array_depth_ (ps_parser st) = 0 ->
  peeked st = stream cmds ++ t -> (length cmds < fuel)%nat ->
  reads st t (out ++ (command_value <$> cmds)) (parse_loop fuel out st).
Proof.
  intros Hc Ht. revert fuel out st.
  induction Hc as [|a cmds Ha _ IH]; intros [|fuel] out st Hok Hd Hpk Hf;
    cbn [parse_loop]; try (simpl in Hf; lia).
  { simpl in Hpk. rewrite Hpk, Ht, app_nil_r. by exists st. }
  rewrite stream_cons, <-app_assoc in Hpk.
  rewrite Hpk, has_complete_command_array by done.
  destruct (parse_one_reads 1 parse_fuel st (command_value a) (stream cmds ++ t))
    as (st1 & -> & Hp1 & Hok1 & Hpk1);
    [by apply command_wire_ok|unfold parse_fuel; lia|by rewrite Hd|done
    |by rewrite wire_command|].
  destruct (IH fuel (out ++ [command_value a]) st1) as (st2 & -> & ? & ? & ?);
    [done|by rewrite Hp1|done|simpl in Hf; lia|].
  exists st2. rewrite <-app_assoc. split_and!; [done|congruence|done|done].
Qed.

Lemma stream_length cmds : (length cmds <= length (stream cmds))%nat.
Proof.
  induction cmds as [|a cmds IH]; [simpl; lia|].
  rewrite stream_cons, length_app, encode_array_length. simpl. lia.
Qed.

Lemma parse_stream_reads cmds t st :
  Forall command_ok cmds -> has_complete_command t = false ->
  st_ok st -> array_depth_ (ps_parser st) = 0 -> peeked st = stream cmds ++ t ->
  reads st t (command_value <$> cmds) (parse st).
Proof.
  intros Hc Ht Hok Hd Hpk. apply (parse_loop_stream _ cmds []); [done..|].
  pose proof (stream_length cmds). rewrite Hpk, length_app. lia.
Qed.

(** What a connection does with the bytes it receives: append each chunk to
    its input buffer and parse. *)
Fixpoint feed (chunks : list bytes) st : res (pst B) (list RespValue) :=
  match chunks with
  | [] => Done (Some []) st
  | c :: chunks =>
      match parse (mkPst (ps_parser st) (bq_append c (ps_buf st))) with
      | Done (Some out) st =>
          match feed chunks st with
          | Done (Some out') st => Done (Some (out ++ out')) st
          | r => r
          end
      | r => r
      end
  end.

Lemma feed_reads chunks cmds t st :
  Forall command_ok cmds -> unfinished t -> unfinished (peeked st) ->
  st_ok st -> array_depth_ (ps_parser st) = 0 ->
  peeked st ++ mjoin chunks = stream cmds ++ t ->
  reads st t (command_value <$> cmds) (feed chunks st).
Proof.
  intros Hc Ht. revert cmds st Hc.
  induction chunks as [|c chunks IH]; intros cmds st Hc Hu Hok Hd Heq.
  { simpl in Heq. rewrite app_nil_r in Heq.
    assert (cmds = []) as ->.
    { destruct cmds as [|a cmds]; [done|]. exfalso.
      rewrite stream_cons, <-app_assoc in Heq. apply unfinished_incomplete in Hu.
      rewrite Heq, has_complete_command_array in Hu; [done|]. by inversion Hc. }
    by exists st. }
  cbn [feed]. set (st1 := mkPst _ _).
  assert (peeked st1 = peeked st ++ c) as Hpk by by apply bq_peek_append.
  assert (st_ok st1) as Hok1 by by apply bq_append_ok.
  change (mjoin (c :: chunks)) with (c ++ mjoin chunks) in Heq.
  rewrite app_assoc, <-Hpk in Heq.
  destruct (stream_split cmds t (peeked st1) (mjoin chunks))
    as (c1 & c2 & t1 & -> & Hpk1 & Hu1 & Hrest & _); [done..|].
  apply Forall_app in Hc as [Hc1 Hc2].
  destruct (parse_stream_reads c1 t1 st1) as (st2 & -> & Hp2 & Hok2 & Hpk2);
    [done|by apply unfinished_incomplete|done..|].
  destruct (IH c2 st2) as (st3 & -> & Hp3 & ? & ?);
    [done|by rewrite Hpk2|done|by rewrite Hp2|by rewrite Hpk2|].
  exists st3. rewrite fmap_app. split_and!; [done|by rewrite Hp3, Hp2|done|done].
Qed.
End streams.

(** ** Nesting *)

(** [n] opened arrays of one element each. *)
Definition nested_open (n : nat) : bytes := concat (replicate n (lit "*1" ++ crlf)).

Section nesting.
Context {B : Type} `{!ByteQueue B}.
Implicit Types st : pst B.

Lemma parse_one_nested n fuel st r :
  st_ok st -> peeked st = nested_open n ++ r -> (n <= fuel)%nat -> (1 <= n)%nat ->
  array_depth_ (ps_parser st) + Z.of_nat n = kMaxNestingDepth + 1 ->
  exists st', parse_one fuel st = Done None st' /\
    protocol_error_ (ps_parser st') = lit "Array nesting exceeds limit" /\
    array_depth_ (ps_parser st') = array_depth_ (ps_parser st).
Proof.
  revert fuel st. induction n as [|n IH]; intros [|fuel] st Hok Hpk Hf Hn Hd; try lia.
  cbn [parse_one]. rewrite Hpk. cbn -[parse_array]. unfold parse_array, parse_array_body.
  cbn [set_depth ps_parser array_depth_].
  destruct (Z.ltb_spec kMaxNestingDepth (array_depth_ (ps_parser st) + 1)).
  { eexists. split_and!; [done|done|]. simpl. lia. }
  set (st1 := set_depth _ st).
  change (peeked st1) with (peeked st). rewrite Hpk.
  change (first_line (nested_open (S n) ++ r)) with (Some ([ "1"%char ], 2%nat)).
  change (parse_int64_safe ["1"%char]) with (Some 1). cbv iota zeta beta.
  set (st2 := skip (2 + 2) st1).
  assert (peeked st2 = nested_open n ++ r) as Hpk2.
  { unfold st2. rewrite peeked_skip by done. change (peeked st1) with (peeked st).
    by rewrite Hpk. }
  change (1 =? -1) with false. change (1 <? -1) with false. cbn [parse_elems].
  change (0 <? 1) with true. cbv iota.
  assert (n <> 0)%nat by lia. destruct n as [|n]; [done|].
  rewrite (proj2 (Nat.ltb_ge _ _)) by (rewrite Hpk2; simpl; lia).
  destruct (IH fuel st2) as (st3 & -> & ? & Hd3);
    [by apply skip_ok|done|lia|lia|simpl in *; lia|].
  eexists. split_and!; [done|done|]. simpl. rewrite Hd3. simpl. lia.
Qed.
End nesting.

(** ** Protocol errors *)

Lemma find_crlf_app d r k : find_crlf d = Some k -> find_crlf (d ++ r) = Some k.
Proof.
  revert k; induction d as [|c [|c' d] IH]; intros k; [done..|].
  change ((c :: c' :: d) ++ r) with (c :: c' :: (d ++ r)).
  rewrite !find_crlf_cons2.
  destruct (_ && _); [done|].
  destruct (find_crlf (c' :: d)) as [j|]; [|done]. intros [= <-].
  by rewrite app_comm_cons, (IH j eq_refl).
Qed.

Lemma first_line_app d r l k : first_line d = Some (l, k) -> first_line (d ++ r) = Some (l, k).
Proof.
  unfold first_line. destruct (find_crlf (drop 1 d)) as [j|] eqn:Hj; [|done].
  intros [= <- <-]. destruct d as [|c d]; [done|]. cbn [drop app] in *. rewrite drop_0 in *.
  rewrite (find_crlf_app _ _ _ Hj). rewrite take_app_le; [done|].
  apply find_crlf_Some in Hj. lia.
Qed.

Lemma protocol_error_sound_aux p d r :
  protocol_error_ p = [] -> fst (has_protocol_error p d) = true ->
  has_complete_command (d ++ r) = false.
Proof.
  intros Hp. unfold has_protocol_error. rewrite Hp, bool_decide_eq_true_2 by done.
  cbn [negb]. destruct d as [|type d]; [done|].
  destruct (is_type_byte type) eqn:Ht; cbn [negb].
  2: { intros _. unfold is_type_byte in Ht. bsplit. unfold has_complete_command.
       destruct (_ <? 4)%nat; [done|]. cbn [nth app].
       repeat match goal with H : Ascii.eqb _ _ = false |- _ => rewrite H; clear H end.
       done. }
  destruct (_ <? 2)%nat; [done|].
  destruct (first_line (type :: d)) as [[num k]|] eqn:Hl; [|done].
  apply (first_line_app _ r) in Hl. unfold has_complete_command.
  destruct (_ <? 4)%nat; [done|]. rewrite Hl. cbn [nth app].
  destruct (Ascii.eqb type "$" || Ascii.eqb type "*") eqn:Hsz; [|done].
  bsplit. unfold max_bulk, max_array. destruct Hsz as [->%Ascii.eqb_eq| ->%Ascii.eqb_eq];
    cbn [Ascii.eqb eqb orb andb]; (destruct (parse_int64_safe num) as [n|]; [|done]);
    case_ifs; try done; intros _; exfalso; blia.
Qed.

Lemma valid_no_protocol_error_aux p args r m :
  protocol_error_ p = [] -> command_ok args ->
  has_protocol_error p (take m (encode_array args ++ r)) = (false, p).
Proof.
  intros Hp Hok. unfold has_protocol_error. rewrite Hp, bool_decide_eq_true_2 by done.
  cbn [negb]. destruct m as [|m]; [done|]. rewrite encode_array_eq.
  cbn -[first_line take to_string Nat.ltb length].
  destruct (_ <? 2)%nat; [done|]. rewrite <-app_assoc, <-!app_comm_cons.
  destruct (decide (m < length (to_string (zlen args)) + 2)%nat).
  { cbn [take]. by rewrite first_line_cut by auto with cc_db. }
  cbn [take]. rewrite take_app_ge by lia.
  destruct (m - length (to_string (zlen args)))%nat as [|[|j]] eqn:Hj; [lia..|].
  cbn [take].
  rewrite first_line_text by auto with cc_db.
  rewrite parse_int64_safe_to_string by auto with cc_db.
  destruct Hok as [Hmax _]. pose proof (zlen_nonneg args).
  rewrite (proj2 (Z.ltb_ge (zlen args) (-1))), (proj2 (Z.ltb_ge max_array (zlen args))) by lia.
  done.
Qed.

(** ** The properties of the protocol layer *)

(** However the bytes of a sequence of commands are cut into chunks, a
    connection that appends each chunk to its buffer and parses gets exactly
    these commands, in order, and keeps exactly the bytes of the command that
    is still arriving. *)
Theorem feed_stream {B} `{!ByteQueue B} (b : B) chunks cmds t :
  bq_ok b -> bq_peek b = [] ->
  Forall command_ok cmds -> unfinished t -> mjoin chunks = stream cmds ++ t ->
  exists st', feed chunks (mkPst new_parser b) = Done (Some (command_value <$> cmds)) st' /\
    ps_parser st' = new_parser /\ bq_ok (ps_buf st') /\ bq_peek (ps_buf st') = t.
Proof.
  intros Hok Hpk Hc Ht Heq.
  apply (feed_reads chunks cmds t (mkPst new_parser b)); try done;
    unfold peeked; simpl; rewrite Hpk; [apply unfinished_nil|done].
Qed.

Lemma feed_stream_witness :
  exists st', feed [lit "*2" ++ crlf ++ lit "$3"; crlf ++ lit "GET" ++ crlf ++ lit "$1" ++ crlf;
                    lit "k" ++ crlf ++ lit "*1"] (mkPst new_parser Buffer.empty)
    = Done (Some (command_value <$> [[lit "GET"; lit "k"]])) st' /\
    ps_parser st' = new_parser /\ bq_ok (ps_buf st') /\ bq_peek (ps_buf st') = lit "*1".
Proof.
  apply (feed_stream Buffer.empty _ [[lit "GET"; lit "k"]] (lit "*1")).
  - apply Buffer.empty_wf.
  - done.
  - repeat constructor; vm_compute; done.
  - exists [lit "PING"], 2%nat. split_and!; [|vm_compute; lia|done].
    repeat constructor; vm_compute; done.
  - vm_compute. done.
Defined.

(** C39: the parser always returns: whatever the buffer holds, [parse] gives a
    list of values, leaves the buffer well-formed and the nesting counter at 0. *)
Theorem parse_terminates {B} `{!ByteQueue B} (st : pst B) :
  bq_ok (ps_buf st) -> array_depth_ (ps_parser st) = 0 ->
  exists cmds st', parse st = Done (Some cmds) st' /\ bq_ok (ps_buf st') /\
    array_depth_ (ps_parser st') = 0 /\
    (length (peeked st') <= length (peeked st))%nat.
Proof. intros Hok Hd. apply (parse_loop_total _ [] st); [done..|lia]. Qed.

Lemma parse_terminates_witness :
  exists cmds st', parse (mkPst new_parser (lit "*2" ++ crlf ++ lit "$x")) =
    Done (Some cmds) st' /\ bq_ok (ps_buf st') /\ array_depth_ (ps_parser st') = 0 /\
    (length (peeked st') <=
     length (peeked (mkPst new_parser (lit "*2" ++ crlf ++ lit "$x"))))%nat.
Proof.
  apply (parse_terminates (mkPst new_parser (lit "*2" ++ crlf ++ lit "$x"))); done.
Defined.

(** The wire format of a value of any type, arrays nested up to the limit
    included, is parsed back to that value; the bytes after it are left. *)
Theorem parse_one_wire {B} `{!ByteQueue B} depth (st : pst B) v rest :
  wire_ok depth v -> array_depth_ (ps_parser st) + Z.of_nat depth <= kMaxNestingDepth ->
  0 <= array_depth_ (ps_parser st) ->
  bq_ok (ps_buf st) -> peeked st = wire v ++ rest ->
  exists st', parse_one parse_fuel st = Done (Some v) st' /\
    ps_parser st' = ps_parser st /\ peeked st' = rest.
Proof.
  intros Hv Hd Hd0 Hok Hpk.
  destruct (parse_one_reads depth parse_fuel st v rest) as (st' & ? & ? & ? & ?); try done.
  - unfold parse_fuel, kMaxNestingDepth in *. lia.
  - by exists st'.
Qed.

Lemma parse_one_wire_witness :
  let v := mkValue ARRAY (DArray [mkValue INTEGER (DInt (-7));
             mkValue ARRAY (DArray [mkValue BULK_STRING (DString (lit "a"))])]) in
  exists st', parse_one parse_fuel (mkPst new_parser (wire v ++ lit "+x")) = Done (Some v) st' /\
    ps_parser st' = new_parser /\ peeked st' = lit "+x".
Proof.
  apply (parse_one_wire 2 (mkPst new_parser (wire (mkValue ARRAY (DArray [mkValue INTEGER (DInt (-7));
    mkValue ARRAY (DArray [mkValue BULK_STRING (DString (lit "a"))])])) ++ lit "+x"))); try done.
  repeat first [done | constructor].
Defined.

(** The framing test is exact on client commands: with the first [m] bytes
    of a command and of what follows it in the buffer, it answers true as soon
    as, and not before, the command is there in full. *)
Theorem has_complete_command_exact args r m :
  command_ok args ->
  has_complete_command (take m (encode_array args ++ r)) =
  (length (encode_array args) <=? m)%nat.
Proof.
  intros Hok. destruct (Nat.leb_spec (length (encode_array args)) m).
  - rewrite take_app_ge by done. by apply has_complete_command_array.
  - rewrite take_app_le by lia. by apply has_complete_command_cut.
Qed.

Lemma has_complete_command_exact_witness :
  has_complete_command (take 13 (encode_array [lit "PING"] ++ lit "*1")) = false.
Proof.
  rewrite (has_complete_command_exact [lit "PING"] (lit "*1") 13); [done|].
  repeat constructor; vm_compute; done.
Defined.

(** An array nested deeper than 32 levels is refused as a protocol error,
    whatever follows; the recursion stops there. *)
Theorem nesting_limit {B} `{!ByteQueue B} (b : B) p n r :
  bq_ok b -> array_depth_ p = 0 -> (32 < n)%nat -> bq_peek b = nested_open n ++ r ->
  exists st', parse_one parse_fuel (mkPst p b) = Done None st' /\
    protocol_error_ (ps_parser st') = lit "Array nesting exceeds limit" /\
    array_depth_ (ps_parser st') = 0.
Proof.
  intros Hok Hd Hn Hpk.
  destruct (parse_one_nested 33 parse_fuel (mkPst p b) (nested_open (n - 33) ++ r))
    as (st' & ? & ? & Hd'); try done; [|unfold parse_fuel; lia|lia|simpl; by rewrite Hd|].
  - unfold peeked. simpl ps_buf. rewrite Hpk, app_assoc. f_equal. unfold nested_open.
    rewrite <-concat_app, <-replicate_add. f_equal. f_equal. lia.
  - exists st'. split_and!; [done..|]. by rewrite Hd'.
Qed.

Lemma nesting_limit_witness :
  exists st', parse_one parse_fuel (mkPst new_parser (nested_open 40)) = Done None st' /\
    protocol_error_ (ps_parser st') = lit "Array nesting exceeds limit" /\
    array_depth_ (ps_parser st') = 0.
Proof. apply (nesting_limit (nested_open 40) new_parser 40 []); try done; [lia]. Defined.

(** [has_protocol_error] is right on both sides. When it reports an error
    no continuation of the buffer could ever have been framed as a command, so
    closing the connection loses nothing; on any part of a stream of client
    commands it stays silent and leaves the parser as it was. *)
Theorem has_protocol_error_correct p d args r m :
  protocol_error_ p = [] -> command_ok args ->
  (fst (has_protocol_error p d) = true -> forall more, has_complete_command (d ++ more) = false) /\
  has_protocol_error p (take m (encode_array args ++ r)) = (false, p).
Proof.
  intros Hp Hok. split.
  - intros He more. by apply (protocol_error_sound_aux p).
  - by apply valid_no_protocol_error_aux.
Qed.

Lemma has_protocol_error_correct_witness :
  (fst (has_protocol_error new_parser (lit "*abc" ++ crlf)) = true ->
   forall more, has_complete_command ((lit "*abc" ++ crlf) ++ more) = false) /\
  has_protocol_error new_parser (take 7 (encode_array [lit "PING"] ++ [])) = (false, new_parser).
Proof.
  apply (has_protocol_error_correct new_parser (lit "*abc" ++ crlf) [lit "PING"] [] 7);
    [done|repeat constructor; vm_compute; done].
Defined.

(** A null array is never framed and never reported. The comment on the
    test counts [*-1] among the complete commands and the header check accepts
    [-1], so the bytes stay at the head of the buffer whatever arrives after
    them: no later command of the connection is parsed. *)
Theorem null_array_stalls {B} `{!ByteQueue B} (st : pst B) r :
  protocol_error_ (ps_parser st) = [] -> peeked st = lit "*-1" ++ crlf ++ r ->
  has_protocol_error (ps_parser st) (peeked st) = (false, ps_parser st) /\
  parse st = Done (Some []) st.
Proof.
  intros Hp Hpk. assert (first_line (peeked st) = Some (lit "-1", 3%nat)) as Hl
    by by rewrite Hpk.
  split.
  - unfold has_protocol_error. rewrite Hp, bool_decide_eq_true_2 by done.
    rewrite Hl, Hpk. done.
  - unfold parse. cbn [parse_loop].
    assert (has_complete_command (peeked st) = false) as ->; [|done].
    unfold has_complete_command. rewrite Hl, Hpk. done.
Qed.

Lemma null_array_stalls_witness :
  let st := mkPst new_parser (lit "*-1" ++ crlf ++ encode_array [lit "PING"]) in
  has_protocol_error new_parser (peeked st) = (false, new_parser) /\
  parse st = Done (Some []) st.
Proof.
  apply (null_array_stalls (mkPst new_parser (lit "*-1" ++ crlf ++ encode_array [lit "PING"]))
           (encode_array [lit "PING"])); done.
Defined.

(** The framing test misjudges nested arrays. Its scan starts at depth 1
    and counts the inner [*] again, so with two inner headers it answers true
    before the element has arrived; [parse_one] then takes the headers off the
    buffer, fails on the element, and the command is lost. With a complete
    nested array of one level, as [encode_nested_array] writes it, it answers
    false. *)
Theorem nested_array_framing :
  let d := lit "*1" ++ crlf ++ lit "*1" ++ crlf ++ lit "$3" ++ crlf in
  has_complete_command d = true /\
  (exists st', parse_one parse_fuel (mkPst new_parser d) = Done None st' /\
     error_msg_ (ps_parser st') = lit "Bulk string incomplete" /\
     peeked st' = lit "$3" ++ crlf) /\
  has_complete_command (encode_nested_array [[]]) = false.
Proof. split_and!; [done| |done]. eexists. split_and!; vm_compute; done. Qed.

End RespSpec.
