(* ===== verification/Object.v ===== *)
(** * [datatype/object.h], [datatype/object.cpp]: cache objects

    [CacheObject] holds one value of five types. The hash and the set are
    unordered containers: [HashOrder] is the order in which a call iterates
    over one, an argument of the operations that iterate. A [double] is its
    64-bit pattern; [DoubleText] is its text form. *)

From S2P Require Import Prelude Base.
From stdpp Require Import options.

(** ** [double] *)

Module Double.

(** A [double] as its IEEE 754 bit pattern, [0 <= b < 2^64]. *)
Definition sign_bit : Z := 9223372036854775808.

Definition in_double (b : Z) : Prop := 0 <= b <= uint64_max.

(** The pattern without its sign: patterns of finite doubles and infinities
    are ordered as their absolute values. *)
Definition magnitude (b : Z) : Z := if sign_bit <=? b then b - sign_bit else b.

Definition inf_bits : Z := 9218868437227405312.

Definition isnan (b : Z) : bool := inf_bits <? magnitude b.
Definition isinf (b : Z) : bool := magnitude b =? inf_bits.
Definition isfinite (b : Z) : bool := magnitude b <? inf_bits.

(** The place of a number that is not NaN in the order of the reals; both
    zeros are at 0. *)
Definition dkey (b : Z) : Z := if sign_bit <=? b then - magnitude b else magnitude b.

(** [a < b], [a <= b], [a == b], [a != b] on [double]. *)
Definition dlt (a b : Z) : bool := negb (isnan a) && negb (isnan b) && (dkey a <? dkey b).
Definition dle (a b : Z) : bool := negb (isnan a) && negb (isnan b) && (dkey a <=? dkey b).
Definition deq (a b : Z) : bool := negb (isnan a) && negb (isnan b) && (dkey a =? dkey b).
Definition dne (a b : Z) : bool := negb (deq a b).

Lemma isfinite_not_nan b : isfinite b = true -> isnan b = false.
Proof. unfold isfinite, isnan. blia. Qed.

Lemma dlt_irrefl a : dlt a a = false.
Proof. unfold dlt. destruct (isnan a); [done|]. simpl. lia. Qed.

End Double.

(** The text of a [double]: [snprintf("%.17g")], and [std::from_chars] with
    the whole text consumed. Seventeen significant digits determine a [double]:
    what is printed for a finite number is read back to the same bits. The text
    has a sign, 17 digits, a point and an exponent of at most five characters. *)
Class DoubleText := {
  fmt_17g : Z -> bytes;
  from_chars_double : bytes -> option Z;
  from_chars_fmt x :
    Double.in_double x -> Double.isfinite x = true -> from_chars_double (fmt_17g x) = Some x;
  fmt_17g_length x : (length (fmt_17g x) <= 24)%nat
}.

(** The order of one iteration over the unordered containers: every element
    once. *)
Class HashOrder := {
  map_items : gmap bytes bytes -> list (bytes * bytes);
  set_items : gset bytes -> list bytes;
  map_items_perm m : map_items m ≡ₚ map_to_list m;
  set_items_perm s : set_items s ≡ₚ elements s
}.

Module Object.
Import Text Double.

(** ** Data *)

Inductive ObjectType := STRING | LIST | HASH | SET | ZSET.

#[global] Instance ObjectType_eq_dec : EqDecision ObjectType.
Proof. solve_decision. Defined.

Record CacheObject := mkObject {
  type_ : ObjectType;
  string_val_ : bytes;
  list_val_ : list bytes;
  hash_val_ : gmap bytes bytes;
  set_val_ : gset bytes;
  (** [std::set<ZSetMember>]: the members with their scores, in its order. *)
  zset_val_ : list (bytes * Z)
}.

#[global] Instance CacheObject_eq_dec : EqDecision CacheObject.
Proof. solve_decision. Defined.

(** [CacheObject()], [CacheObject(std::string)], [CacheObject(std::vector)]. *)
Definition new_object : CacheObject := mkObject STRING [] [] ∅ ∅ [].
Definition object_of_string (val : bytes) : CacheObject := mkObject STRING val [] ∅ ∅ [].
Definition object_of_list (vals : list bytes) : CacheObject := mkObject LIST [] vals ∅ ∅ [].

Definition with_type (t : ObjectType) (o : CacheObject) : CacheObject :=
  mkObject t (string_val_ o) (list_val_ o) (hash_val_ o) (set_val_ o) (zset_val_ o).
Definition with_string (s : bytes) (o : CacheObject) : CacheObject :=
  mkObject (type_ o) s (list_val_ o) (hash_val_ o) (set_val_ o) (zset_val_ o).
Definition with_list (l : list bytes) (o : CacheObject) : CacheObject :=
  mkObject (type_ o) (string_val_ o) l (hash_val_ o) (set_val_ o) (zset_val_ o).
Definition with_hash (h : gmap bytes bytes) (o : CacheObject) : CacheObject :=
  mkObject (type_ o) (string_val_ o) (list_val_ o) h (set_val_ o) (zset_val_ o).
Definition with_set (s : gset bytes) (o : CacheObject) : CacheObject :=
  mkObject (type_ o) (string_val_ o) (list_val_ o) (hash_val_ o) s (zset_val_ o).
Definition with_zset (z : list (bytes * Z)) (o : CacheObject) : CacheObject :=
  mkObject (type_ o) (string_val_ o) (list_val_ o) (hash_val_ o) (set_val_ o) z.

Definition is_type (t : ObjectType) (o : CacheObject) : bool := bool_decide (type_ o = t).

Definition sum_sizes (l : list Z) : Z := foldr Z.add 0 l.

Definition memory_size (o : CacheObject) : Z :=
  match type_ o with
  | STRING => zlen (string_val_ o)
  | LIST => sum_sizes (zlen <$> list_val_ o)
  | HASH => sum_sizes ((fun kv => zlen kv.1 + zlen kv.2) <$> map_to_list (hash_val_ o))
  | SET => sum_sizes (zlen <$> elements (set_val_ o))
  | ZSET => sum_sizes ((fun z => zlen z.1 + 8) <$> zset_val_ o)
  end.

(** The values of the enumeration. *)
Definition type_code (t : ObjectType) : Z :=
  match t with STRING => 0 | LIST => 1 | HASH => 2 | SET => 3 | ZSET => 4 end.

Definition validate (o : CacheObject) : bool :=
  negb (type_code ZSET <? type_code (type_ o)).

(** ** Strings *)

Definition get_string (o : CacheObject) : option bytes :=
  if negb (is_type STRING o) then None else Some (string_val_ o).

Definition set_string (val : bytes) (o : CacheObject) : CacheObject :=
  with_string val (with_type STRING o).

Definition discard_string_payload (o : CacheObject) : CacheObject := with_string [] o.

(** ** Lists *)

Definition list_push (val : bytes) (front : bool) (o : CacheObject) : bool * CacheObject :=
  if negb (is_type LIST o) && negb (is_type STRING o) then (false, o)
  else
    let o :=
      if is_type STRING o then
        let old_val := string_val_ o in
        let o := with_list [] (with_type LIST (discard_string_payload o)) in
        if negb (bool_decide (old_val = [])) then with_list (list_val_ o ++ [old_val]) o else o
      else o in
    (true, with_list (if front then val :: list_val_ o else list_val_ o ++ [val]) o).

Definition list_pop (front : bool) (o : CacheObject) : option bytes * CacheObject :=
  if negb (is_type LIST o) then (None, o)
  else
    match list_val_ o with
    | [] => (None, o)
    | x :: l =>
        if front then (Some x, with_list l o)
        else (last (x :: l), with_list (removelast (x :: l)) o)
    end.

(** The vector built from the iterators [begin + a] and [begin + b + 1]. *)
Definition slice {A} (a b : Z) (l : list A) : list A :=
  take (Z.to_nat (b + 1 - a)) (drop (Z.to_nat a) l).

(** The normalisation and clipping that [list_range] and
    [zset_range_by_index] share. *)
Definition normalized_clip (size start stop : Z) : option (Z * Z) :=
  if size =? 0 then None
  else
    let actual_start := if start <? 0 then size + start else start in
    let actual_stop := if stop <? 0 then size + stop else stop in
    RangeClip.clip_range size actual_start actual_stop.

Definition list_range (start stop : Z) (o : CacheObject) : list bytes :=
  if negb (is_type LIST o) then []
  else
    match normalized_clip (zlen (list_val_ o)) start stop with
    | None => []
    | Some (a, b) => slice a b (list_val_ o)
    end.

Definition list_size (o : CacheObject) : Z := zlen (list_val_ o).

(** ** Hashes *)

Definition hash_set (field value : bytes) (o : CacheObject) : bool * CacheObject :=
  if negb (is_type HASH o) && negb (is_type STRING o) then (false, o)
  else
    let o := if is_type STRING o then discard_string_payload o else o in
    let o := with_type HASH o in
    (true, with_hash (<[field := value]> (hash_val_ o)) o).

Definition hash_get (field : bytes) (o : CacheObject) : option bytes :=
  if negb (is_type HASH o) then None else hash_val_ o !! field.

Definition hash_del (field : bytes) (o : CacheObject) : bool * CacheObject :=
  if negb (is_type HASH o) then (false, o)
  else (bool_decide (is_Some (hash_val_ o !! field)), with_hash (delete field (hash_val_ o)) o).

Definition hash_exists (field : bytes) (o : CacheObject) : bool :=
  if negb (is_type HASH o) then false else bool_decide (is_Some (hash_val_ o !! field)).

Definition hash_size (o : CacheObject) : Z := Z.of_nat (size (hash_val_ o)).

Definition hash_items `{HashOrder} (o : CacheObject) : list (bytes * bytes) :=
  if negb (is_type HASH o) then [] else map_items (hash_val_ o).

Definition hash_fields `{HashOrder} (o : CacheObject) : list bytes :=
  if negb (is_type HASH o) then [] else (map_items (hash_val_ o)).*1.

(** ** Sets *)

Definition set_add (member : bytes) (o : CacheObject) : bool * CacheObject :=
  if negb (is_type SET o) && negb (is_type STRING o) then (false, o)
  else
    let o := if is_type STRING o then discard_string_payload o else o in
    let o := with_type SET o in
    (bool_decide (member ∉ set_val_ o), with_set ({[member]} ∪ set_val_ o) o).

Definition set_remove (member : bytes) (o : CacheObject) : bool * CacheObject :=
  if negb (is_type SET o) then (false, o)
  else (bool_decide (member ∈ set_val_ o), with_set (set_val_ o ∖ {[member]}) o).

Definition set_contains (member : bytes) (o : CacheObject) : bool :=
  if negb (is_type SET o) then false else bool_decide (member ∈ set_val_ o).

Definition set_size (o : CacheObject) : Z := Z.of_nat (size (set_val_ o)).

Definition set_members `{HashOrder} (o : CacheObject) : list bytes :=
  if negb (is_type SET o) then [] else set_items (set_val_ o).

(** ** Sorted sets *)

(** [std::string::operator<]: bytes compared as [unsigned char]. *)
Fixpoint bytes_lt (a b : bytes) : bool :=
  match a, b with
  | _, [] => false
  | [], _ :: _ => true
  | x :: a, y :: b =>
      if byte_val x <? byte_val y then true
      else if byte_val y <? byte_val x then false
      else bytes_lt a b
  end.

(** [ZSetMember::operator<]. *)
Definition zlt (x y : bytes * Z) : bool :=
  if dlt x.2 y.2 then true
  else if dlt y.2 x.2 then false
  else bytes_lt x.1 y.1.

(** [std::set::insert]: the element goes where the order puts it, unless an
    equivalent one is there; the result tells whether it was inserted. *)
Fixpoint zinsert (x : bytes * Z) (l : list (bytes * Z)) : bool * list (bytes * Z) :=
  match l with
  | [] => (true, [x])
  | y :: l' =>
      if zlt x y then (true, x :: l)
      else if zlt y x then let '(b, l') := zinsert x l' in (b, y :: l')
      else (false, l)
  end.

(** The linear search by member. *)
Definition zfind (member : bytes) (l : list (bytes * Z)) : option nat :=
  find_pos (fun z => bool_decide (z.1 = member)) l.

(** [erase(it)] for the iterator at position [i]. *)
Definition zerase (i : nat) (l : list (bytes * Z)) : list (bytes * Z) := delete i l.

Definition zset_add (member : bytes) (score : Z) (o : CacheObject) : bool * CacheObject :=
  if negb (is_type ZSET o) && negb (is_type STRING o) then (false, o)
  else
    let o := if is_type STRING o then discard_string_payload o else o in
    let o := with_type ZSET o in
    let it_to_erase :=
      match zfind member (zset_val_ o) with
      | Some i =>
          match zset_val_ o !! i with
          | Some z => if dne z.2 score then Some i else None
          | None => None
          end
      | None => None
      end in
    let score_changed := bool_decide (is_Some it_to_erase) in
    let l := match it_to_erase with Some i => zerase i (zset_val_ o) | None => zset_val_ o end in
    let '(inserted, l) := zinsert (member, score) l in
    (inserted || score_changed, with_zset l o).

Definition zset_remove (member : bytes) (o : CacheObject) : bool * CacheObject :=
  if negb (is_type ZSET o) then (false, o)
  else
    match zfind member (zset_val_ o) with
    | Some i => (true, with_zset (zerase i (zset_val_ o)) o)
    | None => (false, o)
    end.

Definition zset_score (member : bytes) (o : CacheObject) : option Z :=
  if negb (is_type ZSET o) then None
  else
    match zfind member (zset_val_ o) with
    | Some i => snd <$> zset_val_ o !! i
    | None => None
    end.

Definition zset_size (o : CacheObject) : Z := zlen (zset_val_ o).

Definition zset_range_by_score (min max : Z) (o : CacheObject) : list (bytes * Z) :=
  if negb (is_type ZSET o) then []
  else List.filter (fun z => dle min z.2 && dle z.2 max) (zset_val_ o).

Definition zset_range_by_index (start stop : Z) (o : CacheObject) : list (bytes * Z) :=
  if negb (is_type ZSET o) then []
  else
    match normalized_clip (zlen (zset_val_ o)) start stop with
    | None => []
    | Some (a, b) => slice a b (zset_val_ o)
    end.

Definition zset_all (o : CacheObject) : list (bytes * Z) :=
  if negb (is_type ZSET o) then [] else zset_val_ o.

End Object.
