(* ===== verification/ObjectSpec.v ===== *)
(** * What cache objects guarantee

    The order of the sorted set, its invariant and the map from members to
    scores it implements; the functional behaviour of the other containers;
    the index ranges of LRANGE and ZRANGE. *)

From S2P Require Import Prelude Base Object.
From stdpp Require Import options.

Module ObjectSpec.
Import Text Double Object.

(** ** The order of the members *)

Lemma byte_val_inj a b : byte_val a = byte_val b -> a = b.
Proof.
  unfold byte_val. intros H. rewrite <-(ascii_N_embedding a), <-(ascii_N_embedding b).
  f_equal. lia.
Qed.

Lemma bytes_lt_irrefl a : bytes_lt a a = false.
Proof. induction a as [|x a IH]; simpl; [done|]. by rewrite Z.ltb_irrefl. Qed.

Lemma bytes_lt_trans a b c :
  bytes_lt a b = true -> bytes_lt b c = true -> bytes_lt a c = true.
Proof.
  revert b c; induction a as [|x a IH]; intros [|y b] [|z c]; simpl; try done.
  destruct (Z.ltb_spec (byte_val x) (byte_val y)), (Z.ltb_spec (byte_val y) (byte_val x)),
    (Z.ltb_spec (byte_val y) (byte_val z)), (Z.ltb_spec (byte_val z) (byte_val y)),
    (Z.ltb_spec (byte_val x) (byte_val z)), (Z.ltb_spec (byte_val z) (byte_val x));
    try done; try lia; apply IH.
Qed.

Lemma bytes_lt_total a b : bytes_lt a b = false -> bytes_lt b a = false -> a = b.
Proof.
  revert b; induction a as [|x a IH]; intros [|y b]; simpl; try done.
  destruct (Z.ltb_spec (byte_val x) (byte_val y)), (Z.ltb_spec (byte_val y) (byte_val x));
    try done. intros. f_equal; [apply byte_val_inj; lia|by apply IH].
Qed.

Definition num (z : bytes * Z) : Prop := isnan z.2 = false.

(** On numbers the order is lexicographic on score and member. *)
Lemma zlt_num x y :
  num x -> num y ->
  zlt x y = (dkey x.2 <? dkey y.2) || ((dkey x.2 =? dkey y.2) && bytes_lt x.1 y.1).
Proof.
  unfold num, zlt, dlt. intros -> ->. simpl.
  destruct (Z.ltb_spec (dkey x.2) (dkey y.2)); [done|].
  destruct (Z.ltb_spec (dkey y.2) (dkey x.2)), (Z.eqb_spec (dkey x.2) (dkey y.2));
    simpl; try done; lia.
Qed.

Lemma zlt_irrefl x : zlt x x = false.
Proof. unfold zlt. by rewrite dlt_irrefl, bytes_lt_irrefl. Qed.

Lemma zlt_trans x y z :
  num x -> num y -> num z -> zlt x y = true -> zlt y z = true -> zlt x z = true.
Proof.
  intros Hx Hy Hz. rewrite !zlt_num by done. intros H1 H2.
  apply orb_true_iff in H1, H2. apply orb_true_iff.
  destruct H1 as [H1|[H1 H1']%andb_true_iff], H2 as [H2|[H2 H2']%andb_true_iff];
    [left; lia..|right]. apply andb_true_iff. split; [lia|by eapply bytes_lt_trans].
Qed.

(** Members that compare neither way have equal scores and the same name. *)
Lemma zlt_equiv x y :
  num x -> num y -> zlt x y = false -> zlt y x = false -> x.1 = y.1 /\ dkey x.2 = dkey y.2.
Proof.
  intros Hx Hy. rewrite !zlt_num by done. intros H1 H2.
  apply orb_false_iff in H1 as [H1 H1'], H2 as [H2 H2'].
  assert (dkey x.2 = dkey y.2) as E by lia. split; [|done].
  rewrite E, Z.eqb_refl in *. by apply bytes_lt_total.
Qed.

Lemma dne_num a b : isnan a = false -> isnan b = false -> dne a b = negb (dkey a =? dkey b).
Proof. unfold dne, deq. by intros -> ->. Qed.

(** ** The sorted set *)

Definition zsorted (l : list (bytes * Z)) : Prop := StronglySorted (fun x y => zlt x y = true) l.

(** Sorted, without duplicates, no member twice, no NaN. *)
Record zset_wf (l : list (bytes * Z)) : Prop := {
  zwf_sorted : zsorted l;
  zwf_nodup : NoDup l.*1;
  zwf_num : Forall num l
}.

Lemma zset_wf_nil : zset_wf [].
Proof. split; constructor. Qed.

Lemma zinsert_new x l b l' :
  zsorted l -> Forall num l -> num x -> x.1 ∉ l.*1 -> zinsert x l = (b, l') ->
  b = true /\ l' ≡ₚ x :: l /\ zsorted l'.
Proof.
  intros Hs Hn Hx Hnin. revert b l'. induction l as [|y l IH]; intros b l'; simpl.
  { intros [= <- <-]. split_and!; [done..|]. repeat constructor. }
  apply StronglySorted_cons in Hs as [Hy Hs]. inversion_clear Hn as [|?? Hny Hnl].
  rewrite fmap_cons, not_elem_of_cons in Hnin. destruct Hnin as [Hne Hnin].
  destruct (zlt x y) eqn:Hxy.
  { intros [= <- <-]. split_and!; [done..|]. apply StronglySorted_cons. split.
    - constructor; [done|]. rewrite Forall_forall in Hy, Hnl |- *. intros z Hz.
      apply zlt_trans with y; auto.
    - by apply StronglySorted_cons. }
  destruct (zlt y x) eqn:Hyx.
  2: { destruct (zlt_equiv x y) as [? _]; done. }
  destruct (zinsert x l) as [b1 l1] eqn:E. intros [= <- <-].
  destruct (IH Hs Hnl Hnin b1 l1 eq_refl) as (-> & Hp & Hs1). split_and!; [done| |].
  - rewrite Hp. apply Permutation_swap.
  - apply StronglySorted_cons. split; [|done]. rewrite Hp. by constructor.
Qed.

Lemma zinsert_equiv x y l :
  zsorted l -> Forall num l -> num x -> y ∈ l -> y.1 = x.1 -> dkey y.2 = dkey x.2 ->
  zinsert x l = (false, l).
Proof.
  intros Hs Hn Hx Hin E1 E2. induction l as [|z l IH]; [by apply not_elem_of_nil in Hin|].
  apply StronglySorted_cons in Hs as [Hz Hs]. inversion_clear Hn as [|?? Hnz Hnl]. simpl.
  apply elem_of_cons in Hin as [->|Hin].
  - rewrite !zlt_num, E1, E2, Z.ltb_irrefl, bytes_lt_irrefl by done.
    by rewrite andb_false_r.
  - rewrite Forall_forall in Hz, Hnl. pose proof (Hz y Hin) as Hzy.
    assert (zlt z x = true) as Hzx.
    { rewrite zlt_num in Hzy |- * by auto. by rewrite <-E1, <-E2. }
    assert (zlt x z = false) as ->.
    { destruct (zlt x z) eqn:Hxz; [|done].
      pose proof (zlt_trans z x z Hnz Hx Hnz Hzx Hxz) as Hzz. by rewrite zlt_irrefl in Hzz. }
    rewrite Hzx, IH by (try done; by apply Forall_forall). done.
Qed.

Lemma zset_wf_sublist l k : l `sublist_of` k -> zset_wf k -> zset_wf l.
Proof.
  intros Hl [Hs Hd Hn]. split; [by eapply StronglySorted_sublist| |by eapply Forall_sublist].
  eapply sublist_NoDup; [exact Hd|]. by apply fmap_sublist.
Qed.

Lemma zfind_Some m l i :
  zfind m l = Some i -> exists s, l !! i = Some (m, s).
Proof.
  intros (_ & _ & [m' s] & Hi & Hm%bool_decide_eq_true)%find_pos_Some. simpl in Hm.
  subst. by exists s.
Qed.

Lemma zfind_None m l : zfind m l = None <-> m ∉ l.*1.
Proof.
  unfold zfind. rewrite find_pos_None, Forall_forall. split.
  - intros H (z & -> & Hz)%list_elem_of_fmap. by apply H in Hz as ?%bool_decide_eq_false.
  - intros H z Hz. apply bool_decide_eq_false. intros <-. apply H.
    by apply list_elem_of_fmap_2.
Qed.

(** The map from members to scores a sorted set stands for. *)
Definition zmap (l : list (bytes * Z)) : gmap bytes Z := list_to_map l.

Lemma zmap_lookup l i m s : NoDup l.*1 -> l !! i = Some (m, s) -> zmap l !! m = Some s.
Proof.
  intros Hd Hi. apply elem_of_list_to_map; [done|]. by eapply list_elem_of_lookup_2.
Qed.

Lemma zmap_delete l i m s :
  NoDup l.*1 -> l !! i = Some (m, s) -> zmap (delete i l) = delete m (zmap l) /\ m ∉ (delete i l).*1.
Proof.
  intros Hd Hi. pose proof (delete_Permutation _ _ _ Hi) as Hp.
  assert (NoDup (((m, s) :: delete i l).*1)) as Hd2 by by rewrite <-Hp.
  assert (m ∉ (delete i l).*1) as Hm.
  { apply NoDup_cons in Hd2. apply Hd2. }
  split; [|done]. unfold zmap. rewrite (list_to_map_proper l ((m, s) :: delete i l)) by done.
  simpl. rewrite delete_insert_id; [done|]. by apply not_elem_of_list_to_map_1.
Qed.

Lemma zinsert_wf m s l b l' :
  zset_wf l -> isnan s = false -> m ∉ l.*1 -> zinsert (m, s) l = (b, l') ->
  b = true /\ zset_wf l' /\ zmap l' = <[m := s]> (zmap l).
Proof.
  intros Hwf Hs Hm Hins.
  destruct (zinsert_new (m, s) l b l') as (-> & Hp & Hs'); try done; try apply Hwf.
  assert (NoDup (((m, s) :: l).*1)) as Hd by (apply NoDup_cons; split; [done|apply Hwf]).
  split; [done|]. split; [split|].
  - done.
  - by rewrite Hp.
  - rewrite Hp. constructor; [done|apply Hwf].
  - unfold zmap. by rewrite (list_to_map_proper l' ((m, s) :: l)) by (by rewrite ?Hp).
Qed.

(** The list after [zset_add] on the members [l]. *)
Definition zadd (m : bytes) (s : Z) (l : list (bytes * Z)) : bool * list (bytes * Z) :=
  let it_to_erase :=
    match zfind m l with
    | Some i => match l !! i with Some z => if dne z.2 s then Some i else None | None => None end
    | None => None
    end in
  let score_changed := bool_decide (is_Some it_to_erase) in
  let l := match it_to_erase with Some i => zerase i l | None => l end in
  let '(inserted, l) := zinsert (m, s) l in (inserted || score_changed, l).

(** Adding a member sets its score, unless it has an equal one already; the
    result tells whether anything changed. *)
Lemma zadd_spec m s l :
  zset_wf l -> isnan s = false ->
  zset_wf (zadd m s l).2 /\
  match zmap l !! m with
  | Some s0 =>
      if dkey s0 =? dkey s then zadd m s l = (false, l)
      else (zadd m s l).1 = true /\ zmap (zadd m s l).2 = <[m := s]> (zmap l)
  | None => (zadd m s l).1 = true /\ zmap (zadd m s l).2 = <[m := s]> (zmap l)
  end.
Proof.
  intros Hwf Hs. unfold zadd.
  destruct (zfind m l) as [i|] eqn:Hf.
  - destruct (zfind_Some _ _ _ Hf) as [s0 Hi]. rewrite Hi. cbn [snd].
    rewrite (zmap_lookup l i m s0) by (done || apply Hwf).
    assert (isnan s0 = false) as Hs0.
    { destruct Hwf as [_ _ Hn]. rewrite Forall_forall in Hn.
      by apply (Hn (m, s0)), list_elem_of_lookup_2 with i. }
    rewrite dne_num by done. destruct (Z.eqb_spec (dkey s0) (dkey s)) as [E|E]; cbn [negb].
    + rewrite (zinsert_equiv (m, s) (m, s0) l); try done; try apply Hwf.
      by eapply list_elem_of_lookup_2.
    + destruct (zmap_delete l i m s0) as [Hz Hm]; [apply Hwf|done|].
      pose proof (zset_wf_sublist (zerase i l) l (sublist_delete _ _) Hwf) as Hwf'.
      destruct (zinsert (m, s) (zerase i l)) as [b l'] eqn:Hins. cbn [fst snd].
      destruct (zinsert_wf m s (zerase i l) b l') as (-> & ? & Hz'); try done.
      split; [done|]. split; [done|]. rewrite Hz'. unfold zerase. rewrite Hz.
      apply insert_delete_eq.
  - pose proof (proj1 (zfind_None m l) Hf) as Hm.
    assert (zmap l !! m = None) as -> by by apply not_elem_of_list_to_map_1.
    destruct (zinsert (m, s) l) as [b l'] eqn:Hins. cbn [fst snd].
    destruct (zinsert_wf m s l b l') as (-> & ? & Hz'); done.
Qed.

(** ** The invariant of objects *)

(** An object that is not a string holds no string, and its sorted set is
    well-formed. *)
Record obj_wf (o : CacheObject) : Prop := {
  owf_string : type_ o <> STRING -> string_val_ o = [];
  owf_zset : zset_wf (zset_val_ o)
}.

Inductive obj_op :=
  | OpSetString (val : bytes)
  | OpListPush (val : bytes) (front : bool)
  | OpListPop (front : bool)
  | OpHashSet (field value : bytes)
  | OpHashDel (field : bytes)
  | OpSetAdd (member : bytes)
  | OpSetRemove (member : bytes)
  | OpZsetAdd (member : bytes) (score : Z)
  | OpZsetRemove (member : bytes).

Definition apply_op (o : CacheObject) (op : obj_op) : CacheObject :=
  match op with
  | OpSetString v => set_string v o
  | OpListPush v f => (list_push v f o).2
  | OpListPop f => (list_pop f o).2
  | OpHashSet f v => (hash_set f v o).2
  | OpHashDel f => (hash_del f o).2
  | OpSetAdd m => (set_add m o).2
  | OpSetRemove m => (set_remove m o).2
  | OpZsetAdd m s => (zset_add m s o).2
  | OpZsetRemove m => (zset_remove m o).2
  end.

(** Scores are numbers, as ZADD checks. *)
Definition op_ok (op : obj_op) : Prop :=
  match op with OpZsetAdd _ s => isnan s = false | _ => True end.

Lemma is_type_true t o : is_type t o = true <-> type_ o = t.
Proof. apply bool_decide_eq_true. Qed.

Lemma is_type_false t o : is_type t o = false <-> type_ o <> t.
Proof. apply bool_decide_eq_false. Qed.

(** Case analysis on the type tests of an operation. *)
Ltac type_cases :=
  repeat match goal with
  | |- context [is_type ?t ?o] =>
      let E := fresh "Ety" in
      destruct (is_type t o) eqn:E; [apply is_type_true in E|apply is_type_false in E]
  end.

Lemma zset_add_eq m s o :
  type_ o = ZSET \/ type_ o = STRING ->
  zset_add m s o =
  let o' := with_type ZSET (if is_type STRING o then discard_string_payload o else o) in
  ((zadd m s (zset_val_ o)).1, with_zset (zadd m s (zset_val_ o)).2 o').
Proof.
  intros Ht. unfold zset_add.
  assert (negb (is_type ZSET o) && negb (is_type STRING o) = false) as ->.
  { unfold is_type. destruct Ht as [-> | ->]; done. }
  set (o' := with_type ZSET _).
  assert (zset_val_ o' = zset_val_ o) as -> by (unfold o'; by destruct (is_type STRING o)).
  unfold zadd. by destruct (zinsert _ _).
Qed.

Lemma zset_add_wrong_type m s o :
  type_ o <> ZSET -> type_ o <> STRING -> zset_add m s o = (false, o).
Proof.
  intros H1 H2. unfold zset_add.
  by rewrite (proj2 (is_type_false _ _) H1), (proj2 (is_type_false _ _) H2).
Qed.

Lemma apply_op_wf o op : obj_wf o -> op_ok op -> obj_wf (apply_op o op).
Proof.
  intros [Hs Hz] Hop. destruct op; simpl in *.
  - by split.
  - unfold list_push. type_cases; simpl; try case_bool_decide; split; simpl; auto; congruence.
  - unfold list_pop. type_cases; simpl; [|done]. destruct (list_val_ o); [done|].
    by destruct front.
  - unfold hash_set. type_cases; simpl; split; simpl; auto; congruence.
  - unfold hash_del. type_cases; simpl; split; simpl; auto; congruence.
  - unfold set_add. type_cases; simpl; split; simpl; auto; congruence.
  - unfold set_remove. type_cases; simpl; split; simpl; auto; congruence.
  - destruct (decide (type_ o = ZSET)); [|destruct (decide (type_ o = STRING))].
    + rewrite zset_add_eq by auto. rewrite (proj2 (is_type_false STRING o)) by congruence.
      split; simpl; [intros _; apply Hs; congruence|by apply zadd_spec].
    + rewrite zset_add_eq by auto. rewrite (proj2 (is_type_true STRING o)) by done.
      split; simpl; [done|by apply zadd_spec].
    + by rewrite zset_add_wrong_type.
  - unfold zset_remove. type_cases; simpl; [|done]. destruct (zfind member (zset_val_ o)); [|done].
    split; simpl; [done|]. eapply zset_wf_sublist; [apply sublist_delete|done].
Qed.

Lemma new_object_wf : obj_wf new_object.
Proof. split; [done|apply zset_wf_nil]. Qed.

Lemma foldl_op_wf o ops : obj_wf o -> Forall op_ok ops -> obj_wf (foldl apply_op o ops).
Proof.
  intros Ho Hops. revert o Ho. induction Hops as [|op ops Hop _ IH]; intros o Ho; simpl; [done|].
  by apply IH, apply_op_wf.
Qed.

(** [zset_score] is the lookup in the map of scores. *)
Lemma zset_score_eq m o :
  type_ o = ZSET -> NoDup (zset_val_ o).*1 -> zset_score m o = zmap (zset_val_ o) !! m.
Proof.
  intros Ht Hd. unfold zset_score. rewrite (proj2 (is_type_true ZSET o) Ht). simpl.
  destruct (zfind m (zset_val_ o)) as [i|] eqn:Hf.
  - destruct (zfind_Some _ _ _ Hf) as [s Hi]. rewrite Hi. simpl.
    by rewrite (zmap_lookup _ i m s).
  - apply zfind_None in Hf. symmetry. by apply not_elem_of_list_to_map_1.
Qed.

(** ** Ranges *)

Lemma slice_lookup {A} a b (l : list A) k :
  0 <= a -> slice a b l !! k =
  if decide (a + Z.of_nat k <= b) then l !! Z.to_nat (a + Z.of_nat k) else None.
Proof.
  intros Ha. unfold slice. case_decide.
  - rewrite lookup_take_lt, lookup_drop by lia. f_equal. lia.
  - by rewrite lookup_take_ge by lia.
Qed.

(** The first position an index argument selects. *)
Definition first_selected (len start : Z) : Z := Z.max 0 (RangeClip.index_of_arg len start).

#[global] Instance selects_dec len start stop j : Decision (RangeClip.selects len start stop j).
Proof. unfold RangeClip.selects. apply _. Defined.

(** The elements [start..stop] of [l], as the documentation of the ranges has
    it: negative arguments count from the end, what is out of range is cut. *)
Definition range_of {A} (l : list A) (start stop : Z) (r : list A) : Prop :=
  forall k : nat,
    let j := first_selected (zlen l) start + Z.of_nat k in
    r !! k = if decide (RangeClip.selects (zlen l) start stop j)
             then l !! Z.to_nat j else None.

(** [normalized_clip] with its caller's slice. *)
Definition ranged {A} (start stop : Z) (l : list A) : list A :=
  match normalized_clip (zlen l) start stop with
  | None => []
  | Some (a, b) => slice a b l
  end.

(** An index that still selects the same when its distance from the end is taken
    twice: one that is in range, or so far below that it stays below. *)
Definition settled (size i : Z) : Prop := - size <= i \/ i < - (2 * size).

(** The second normalisation changes nothing then. *)
Lemma normalized_clip_eq size start stop :
  0 <= size -> settled size start -> settled size stop ->
  normalized_clip size start stop = RangeClip.clip_range size start stop.
Proof.
  unfold settled. intros. unfold normalized_clip, RangeClip.clip_range.
  destruct (Z.eqb_spec size 0); [done|]. case_ifs; first [done | lia | do 2 f_equal; lia].
Qed.

Lemma ranged_spec {A} (l : list A) start stop :
  settled (zlen l) start -> settled (zlen l) stop -> range_of l start stop (ranged start stop l).
Proof.
  intros Hstart Hstop k. unfold ranged. pose proof (zlen_nonneg l).
  rewrite normalized_clip_eq by done. set (j := first_selected _ _ + _).
  pose proof (RangeClip.clip_range_selects (zlen l) start stop ltac:(done)) as Hc.
  destruct (RangeClip.clip_range _ _ _) as [[a b]|].
  - destruct Hc as (Hab & Hb & Hsel). rewrite slice_lookup by lia.
    assert (a = first_selected (zlen l) start) as Ea.
    { pose proof (proj2 (Hsel a) ltac:(lia)) as Ha.
      pose proof (Hsel (first_selected (zlen l) start)) as Hf.
      unfold RangeClip.selects, first_selected in *. lia. }
    subst a. fold j. specialize (Hsel j).
    assert (first_selected (zlen l) start <= j) by (unfold j; lia).
    destruct (decide (j <= b)) as [Hj|Hj],
      (decide (RangeClip.selects (zlen l) start stop j)) as [Hs|Hs]; try done; exfalso.
    + apply Hs, Hsel. lia.
    + apply Hsel in Hs. lia.
  - case_decide as Hd; [by destruct (Hc j)|done].
Qed.

(** ** The properties of objects *)

(** An object that was built by its operations (scores are numbers) keeps
    its invariant: no string payload beside another type, and the sorted set
    ordered by score and member, every member once. *)
Theorem objects_wf ops :
  Forall op_ok ops -> obj_wf (foldl apply_op new_object ops).
Proof. intros. apply foldl_op_wf; [apply new_object_wf|done]. Qed.

Lemma objects_wf_witness :
  obj_wf (foldl apply_op new_object
    [OpSetString (lit "x"); OpZsetAdd (lit "a") 4607182418800017408;
     OpZsetAdd (lit "a") 13830554455654793216; OpZsetAdd (lit "b") 0; OpZsetRemove (lit "c")]).
Proof. apply (objects_wf _). by repeat constructor. Defined.

(** [zset_add] and [zset_remove] refine updates of a map from members to
    scores. An add sets the score and answers true, or finds an equal score,
    answers false and changes nothing; a removal answers whether the member was
    there. *)
Theorem zset_refines_map o m s :
  obj_wf o -> type_ o = ZSET -> isnan s = false ->
  let scores o := zmap (zset_val_ o) in
  (forall m', zset_score m' o = scores o !! m') /\
  (let '(r, o') := zset_add m s o in
   type_ o' = ZSET /\
   (if from_option (fun s0 => dkey s0 =? dkey s) false (scores o !! m)
    then r = false /\ scores o' = scores o
    else r = true /\ scores o' = <[m := s]> (scores o))) /\
  (let '(r, o') := zset_remove m o in
   type_ o' = ZSET /\ r = bool_decide (is_Some (scores o !! m)) /\
   scores o' = delete m (scores o)).
Proof.
  intros Hwf Ht Hs scores. destruct (owf_zset o Hwf) as [Hso Hd Hn] eqn:E. clear E.
  split; [intros; by apply zset_score_eq|]. split.
  - rewrite zset_add_eq, (proj2 (is_type_false STRING o)) by (auto || congruence).
    cbv zeta iota. split; [done|]. unfold scores. cbn [zset_val_ with_zset].
    destruct (zadd_spec m s (zset_val_ o)) as [_ Hz]; [apply Hwf|done|].
    destruct (zmap (zset_val_ o) !! m) as [s0|] eqn:Hm.
    + cbn [from_option]. destruct (dkey s0 =? dkey s); [by rewrite Hz|done].
    + done.
  - unfold zset_remove. rewrite (proj2 (is_type_true ZSET o) Ht). cbn [negb]. unfold scores.
    destruct (zfind m (zset_val_ o)) as [i|] eqn:Hf.
    + destruct (zfind_Some _ _ _ Hf) as [s0 Hi].
      destruct (zmap_delete (zset_val_ o) i m s0) as [Hz _]; [done..|].
      split; [done|]. rewrite (zmap_lookup _ i m s0) by done. split; [done|]. exact Hz.
    + apply zfind_None in Hf. assert (zmap (zset_val_ o) !! m = None) as Hm
        by by apply not_elem_of_list_to_map_1.
      rewrite Hm. split_and!; [done..|]. symmetry. by apply delete_id.
Qed.

Lemma zset_refines_map_witness :
  let o := foldl apply_op new_object [OpZsetAdd (lit "a") 0; OpZsetAdd (lit "b") 4607182418800017408] in
  zset_score (lit "b") o = zmap (zset_val_ o) !! lit "b".
Proof.
  refine (proj1 (zset_refines_map
    (foldl apply_op new_object [OpZsetAdd (lit "a") 0; OpZsetAdd (lit "b") 4607182418800017408])
    (lit "a") 0 _ _ _) (lit "b")).
  - apply foldl_op_wf; [apply new_object_wf|by repeat constructor].
  - vm_compute. done.
  - done.
Defined.

(** With arguments from [-size] on, or below twice that, LRANGE on a list and
    ZRANGE on a sorted set return the selected elements: negative indices count
    from the end and the part that is out of range is cut. *)
Theorem ranges_select start stop o :
  (type_ o = LIST -> settled (list_size o) start -> settled (list_size o) stop ->
   range_of (list_val_ o) start stop (list_range start stop o)) /\
  (type_ o = ZSET -> settled (zset_size o) start -> settled (zset_size o) stop ->
   range_of (zset_val_ o) start stop (zset_range_by_index start stop o)).
Proof.
  split; intros Ht ? ?;
    unfold list_range, zset_range_by_index; rewrite (proj2 (is_type_true _ o) Ht);
    by apply ranged_spec.
Qed.

Lemma ranges_select_witness :
  range_of [lit "a"; lit "b"; lit "c"] (-2) 7
    (list_range (-2) 7 (object_of_list [lit "a"; lit "b"; lit "c"])).
Proof.
  apply (proj1 (ranges_select (-2) 7 (object_of_list [lit "a"; lit "b"; lit "c"])));
    [done|by left|by left].
Defined.

(** Between these bounds the ranges are wrong. [list_range] counts a negative index
    from the end and passes the result, still negative, to [clip_range], which
    counts it from the end again: on three elements [-5 -1] loses the first one
    and [0 -4], which selects nothing, returns the whole list. *)
Theorem range_normalised_twice :
  let o := object_of_list [lit "a"; lit "b"; lit "c"] in
  RangeClip.clip_range 3 (-5) (-1) = Some (0, 2) /\
  list_range (-5) (-1) o = [lit "b"; lit "c"] /\
  RangeClip.clip_range 3 0 (-4) = None /\
  list_range 0 (-4) o = [lit "a"; lit "b"; lit "c"].
Proof. by vm_compute. Qed.

End ObjectSpec.
