(* ===== verification/Payload.v ===== *)
(** * [CacheObject::serialize] and [deserialize]

    The payload of RESTORE and of the replication stream: a type line, then
    length-prefixed records. The read position of the source is represented
    by the bytes that follow it. *)

From S2P Require Import Prelude Base Object.
From stdpp Require Import options.

Module Payload.
Import Text Double Object.

(** ** Writing *)

Definition append_record (out payload : bytes) : bytes :=
  out ++ to_string (zlen payload) ++ [LF] ++ payload.

Section serialize.
Context `{DoubleText} `{HashOrder}.

Definition serialize (o : CacheObject) : bytes :=
  match type_ o with
  | STRING => append_record (lit "STRING" ++ [LF]) (string_val_ o)
  | LIST =>
      let result := append_record (lit "LIST" ++ [LF]) (to_string (zlen (list_val_ o))) in
      foldl append_record result (list_val_ o)
  | HASH =>
      let result := append_record (lit "HASH" ++ [LF]) (to_string (hash_size o)) in
      foldl (fun result kv => append_record (append_record result kv.1) kv.2)
        result (map_items (hash_val_ o))
  | SET =>
      let result := append_record (lit "SET" ++ [LF]) (to_string (set_size o)) in
      foldl append_record result (set_items (set_val_ o))
  | ZSET =>
      let result := append_record (lit "ZSET" ++ [LF]) (to_string (zset_size o)) in
      foldl (fun result z => append_record (append_record result z.1) (fmt_17g z.2))
        result (zset_val_ o)
  end.
End serialize.

(** ** Reading *)

(** [buf.find('\n', pos)]: the bytes before the newline and after it. *)
Definition split_line (rest : bytes) : option (bytes * bytes) :=
  match find_pos (fun c => Ascii.eqb c LF) rest with
  | Some i => Some (take i rest, drop (S i) rest)
  | None => None
  end.

(** The idiom of an unsigned decimal with nothing after it. *)
Definition parse_u64 (s : bytes) : option Z := from_chars_all false 0 uint64_max s.

Definition read_record (rest : bytes) : option (bytes * bytes) :=
  match split_line rest with
  | None => None
  | Some (head, tail) =>
      match parse_u64 head with
      | None => None
      | Some len =>
          if zlen tail <? len then None
          else Some (take (Z.to_nat len) tail, drop (Z.to_nat len) tail)
      end
  end.

Definition read_count (rest : bytes) : option (Z * bytes) :=
  match read_record rest with
  | None => None
  | Some (head, rest) => (fun v => (v, rest)) <$> parse_u64 head
  end.

Definition read_score `{DoubleText} (text : bytes) : option Z :=
  match from_chars_double text with
  | Some score => if negb (isnan score) && negb (isinf score) then Some score else None
  | None => None
  end.

(** What [deserialize] does: return true, return false with a message, or
    leave by an exception. The object is modified in place on every way. *)
Inductive outcome :=
  | DOk (o : CacheObject)
  | DErr (err : bytes) (o : CacheObject)
  | DThrow (o : CacheObject)
  | DOutOfFuel.

(** The counted loop over records: [body] reads one item from the bytes left,
    or stops with a message. [fuel] bounds the bytes left ([read_loop_total]). *)
Fixpoint read_loop {S} (body : bytes -> S -> bytes * S + S * bytes)
    (fuel : nat) (count : Z) (rest : bytes) (s : S) : option (bytes * S + S * bytes) :=
  if count <=? 0 then Some (inr (s, rest))
  else
    match fuel with
    | O => None
    | S fuel =>
        match body rest s with
        | inl e => Some (inl e)
        | inr (s, rest) => read_loop body fuel (count - 1) rest s
        end
    end.

Definition finish (what rest : bytes) (o : CacheObject) : outcome :=
  if bool_decide (rest = []) then DOk o
  else DErr (what ++ lit ": trailing bytes in payload") o.

Definition list_body (count : Z) (rest : bytes) (elems : list bytes)
    : bytes * list bytes + list bytes * bytes :=
  match read_record rest with
  | None => inl (lit "truncated LIST payload: wanted " ++ to_string count ++ lit " elements", elems)
  | Some (elem, rest) => inr (elems ++ [elem], rest)
  end.

Definition hash_body (count : Z) (rest : bytes) (o : CacheObject)
    : bytes * CacheObject + CacheObject * bytes :=
  let truncated := lit "truncated HASH payload: wanted " ++ to_string count ++ lit " pairs" in
  match read_record rest with
  | None => inl (truncated, o)
  | Some (field, rest) =>
      match read_record rest with
      | None => inl (truncated, o)
      | Some (value, rest) => inr ((hash_set field value o).2, rest)
      end
  end.

Definition set_body (count : Z) (rest : bytes) (o : CacheObject)
    : bytes * CacheObject + CacheObject * bytes :=
  match read_record rest with
  | None => inl (lit "truncated SET payload: wanted " ++ to_string count ++ lit " members", o)
  | Some (member, rest) => inr ((set_add member o).2, rest)
  end.

Definition zset_body `{DoubleText} (count : Z) (rest : bytes) (o : CacheObject)
    : bytes * CacheObject + CacheObject * bytes :=
  let truncated := lit "truncated ZSET payload: wanted " ++ to_string count ++ lit " members" in
  match read_record rest with
  | None => inl (truncated, o)
  | Some (member, rest) =>
      match read_record rest with
      | None => inl (truncated, o)
      | Some (score_text, rest) =>
          match read_score score_text with
          | None =>
              inl (lit "ZSET score is not a finite number: '" ++ score_text ++ lit "'", o)
          | Some score => inr ((zset_add member score o).2, rest)
          end
      end
  end.

(** [vector<string>::max_size()]: [reserve] beyond it throws
    [std::length_error]. *)
Definition vector_max_size : Z := int64_max / 32.

(** Run a counted loop that modifies the object, then check for a tail. *)
Definition run_records (what : bytes) (count : Z) (rest : bytes)
    (body : bytes -> CacheObject -> bytes * CacheObject + CacheObject * bytes)
    (o : CacheObject) : outcome :=
  match read_loop body (S (length rest)) count rest o with
  | None => DOutOfFuel
  | Some (inl (err, o)) => DErr err o
  | Some (inr (o, rest)) => finish what rest o
  end.

Definition deserialize `{DoubleText} (payload : bytes) (o : CacheObject) : outcome :=
  match split_line payload with
  | None => DErr (lit "payload has no type tag") o
  | Some (type, rest) =>
      if bool_decide (type = lit "STRING") then
        match read_record rest with
        | None => DErr (lit "truncated STRING payload") o
        | Some (value, rest) => finish (lit "STRING") rest (set_string value o)
        end
      else if bool_decide (type = lit "LIST") then
        match read_count rest with
        | None => DErr (lit "bad LIST element count") o
        | Some (count, rest) =>
            if vector_max_size <? count then DThrow o
            else
              match read_loop (list_body count) (S (length rest)) count rest [] with
              | None => DOutOfFuel
              | Some (inl (err, _)) => DErr err o
              | Some (inr (elems, rest)) =>
                  match finish (lit "LIST") rest o with
                  | DOk o => DOk (foldl (fun o e => (list_push e false o).2) o elems)
                  | r => r
                  end
              end
        end
      else if bool_decide (type = lit "HASH") then
        match read_count rest with
        | None => DErr (lit "bad HASH field count") o
        | Some (count, rest) => run_records (lit "HASH") count rest (hash_body count) o
        end
      else if bool_decide (type = lit "SET") then
        match read_count rest with
        | None => DErr (lit "bad SET member count") o
        | Some (count, rest) => run_records (lit "SET") count rest (set_body count) o
        end
      else if bool_decide (type = lit "ZSET") then
        match read_count rest with
        | None => DErr (lit "bad ZSET member count") o
        | Some (count, rest) => run_records (lit "ZSET") count rest (zset_body count) o
        end
      else DErr (lit "unsupported payload type '" ++ type ++ lit "'") o
  end.

End Payload.
