(* ===== verification/PayloadSpec.v ===== *)
(** * What the payload codec guarantees

    Every payload that [serialize] writes is read back to the object it came
    from; no proper prefix of it is accepted, nor anything with bytes after it. *)

From S2P Require Import Prelude Base Object ObjectSpec Payload.
From stdpp Require Import options.

Module PayloadSpec.
Import Text Double Object ObjectSpec Payload.

(** ** Records *)

(** One record of the payload. *)
Definition record (p : bytes) : bytes := to_string (zlen p) ++ [LF] ++ p.

Abbreviation no_lf s := (Forall (fun c => Ascii.eqb c LF = false) s).

Lemma to_string_nat_no_lf n : 0 <= n -> no_lf (to_string n).
Proof.
  intros Hn. unfold to_string. rewrite (proj2 (Z.ltb_ge n 0)) by done.
  destruct (show_unsigned_spec n Hn) as (_ & Hd & _).
  eapply Forall_impl; [exact Hd|]. intros c Hc. apply Ascii.eqb_neq. by intros ->.
Qed.

Lemma split_line_text h r : no_lf h -> split_line (h ++ LF :: r) = Some (h, r).
Proof.
  intros Hh. unfold split_line. rewrite (find_pos_first _ h LF r) by done.
  rewrite take_app_length. f_equal. f_equal.
  change (h ++ LF :: r) with (h ++ [LF] ++ r). rewrite app_assoc.
  apply drop_app_length'. rewrite length_app. simpl. lia.
Qed.

Lemma split_line_cut h r m :
  no_lf h -> (m <= length h)%nat -> split_line (take m (h ++ r)) = None.
Proof.
  intros Hh Hm. unfold split_line. rewrite take_app_le by done.
  rewrite (proj2 (find_pos_None _ _)); [done|]. by apply Forall_take.
Qed.

Lemma parse_u64_to_string n : 0 <= n <= uint64_max -> parse_u64 (to_string n) = Some n.
Proof. intros. apply from_chars_all_to_string; lia. Qed.

(** A text whose length fits the 64-bit length prefix. *)
Definition fits (p : bytes) : Prop := zlen p <= uint64_max.

Lemma record_length p : length (record p) = (length (to_string (zlen p)) + 1 + length p)%nat.
Proof. unfold record. rewrite !length_app. simpl. lia. Qed.

Lemma read_record_ok p r : fits p -> read_record (record p ++ r) = Some (p, r).
Proof.
  intros Hp. pose proof (zlen_nonneg p). unfold fits, read_record, record in *.
  rewrite <-app_assoc. cbn [app].
  rewrite split_line_text by by apply to_string_nat_no_lf.
  rewrite parse_u64_to_string by done.
  rewrite (proj2 (Z.ltb_ge _ _)) by (rewrite zlen_app; pose proof (zlen_nonneg r); lia).
  by rewrite zlen_to_nat, take_app_length, drop_app_length.
Qed.

Lemma read_record_cut p m :
  fits p -> (m < length (record p))%nat -> read_record (take m (record p)) = None.
Proof.
  intros Hp Hm. pose proof (zlen_nonneg p). rewrite record_length in Hm.
  unfold fits, read_record, record in *.
  destruct (decide (m <= length (to_string (zlen p)))%nat).
  { by rewrite split_line_cut by (try done; by apply to_string_nat_no_lf). }
  rewrite take_app_ge by lia. cbn [app].
  destruct (m - length (to_string (zlen p)))%nat as [|j] eqn:Hj; [lia|]. cbn [take].
  rewrite split_line_text by by apply to_string_nat_no_lf.
  rewrite parse_u64_to_string by done.
  rewrite (proj2 (Z.ltb_lt _ _)); [done|]. unfold zlen. rewrite length_take. lia.
Qed.

(** A record never reads back less than it takes. *)
Lemma read_record_shrinks rest p rest' :
  read_record rest = Some (p, rest') -> (length rest' < length rest)%nat.
Proof.
  unfold read_record, split_line.
  destruct (find_pos _ rest) as [i|] eqn:Hi; [|done]. apply find_pos_Some in Hi as (Hi & _).
  destruct (parse_u64 _) as [len|]; [|done]. destruct (_ <? _); [done|]. intros [= <- <-].
  rewrite !length_drop. lia.
Qed.

(** Two records in a row. *)
Lemma record2_cut p q m :
  fits p -> fits q -> (m < length (record p ++ record q))%nat ->
  read_record (take m (record p ++ record q)) = None \/
  exists m', read_record (take m (record p ++ record q)) = Some (p, take m' (record q)) /\
    read_record (take m' (record q)) = None.
Proof.
  intros Hp Hq Hm. rewrite length_app in Hm.
  destruct (decide (m < length (record p))%nat).
  - left. rewrite take_app_le by lia. by apply read_record_cut.
  - right. exists (m - length (record p))%nat. rewrite take_app_ge by lia.
    rewrite read_record_ok by done. split; [done|]. apply read_record_cut; [done|lia].
Qed.

(** ** The counted loop *)

Section loop.
Context {S X : Type} (body : bytes -> S -> bytes * S + S * bytes).
Context (enc : X -> bytes) (upd : S -> X -> S) (good : X -> Prop).
Hypothesis enc_nonempty : forall x, enc x <> [].
Hypothesis body_ok : forall x s r, good x -> body (enc x ++ r) s = inr (upd s x, r).
Hypothesis body_cut : forall x s m, good x -> (m < length (enc x))%nat ->
  exists e, body (take m (enc x)) s = inl e.

Abbreviation encs xs := (concat (map enc xs)).

Lemma encs_length xs : (length xs <= length (encs xs))%nat.
Proof using enc_nonempty.
  induction xs as [|x xs IH]; simpl; [lia|]. rewrite length_app.
  pose proof (enc_nonempty x). destruct (enc x); [done|simpl; lia].
Qed.

Lemma read_loop_step fuel count rest s :
  0 < count ->
  read_loop body (Datatypes.S fuel) count rest s =
  match body rest s with
  | inl e => Some (inl e)
  | inr (s, rest) => read_loop body fuel (count - 1) rest s
  end.
Proof. intros. cbn [read_loop]. by rewrite (proj2 (Z.leb_gt count 0)). Qed.

Lemma read_loop_ok xs r fuel s :
  Forall good xs -> (length xs <= fuel)%nat ->
  read_loop body fuel (zlen xs) (encs xs ++ r) s = Some (inr (foldl upd s xs, r)).
Proof using body_ok.
  intros Hg. revert fuel s. induction Hg as [|x xs Hx _ IH]; intros fuel s Hf.
  { by destruct fuel. }
  destruct fuel as [|fuel]; [simpl in Hf; lia|].
  pose proof (zlen_nonneg xs). rewrite read_loop_step by (rewrite zlen_cons; lia).
  cbn [map concat foldl]. rewrite <-app_assoc, body_ok by done.
  rewrite zlen_cons. replace (1 + zlen xs - 1) with (zlen xs) by lia.
  apply IH. simpl in Hf. lia.
Qed.

Lemma read_loop_cut xs m fuel s :
  Forall good xs -> (m < length (encs xs))%nat -> (m < fuel)%nat ->
  exists e, read_loop body fuel (zlen xs) (take m (encs xs)) s = Some (inl e).
Proof using enc_nonempty body_ok body_cut.
  intros Hg. revert m fuel s. induction Hg as [|x xs Hx _ IH]; intros m fuel s Hm Hf;
    [simpl in Hm; lia|].
  destruct fuel as [|fuel]; [lia|].
  pose proof (zlen_nonneg xs). rewrite read_loop_step by (rewrite zlen_cons; lia).
  cbn [map concat] in *. rewrite length_app in Hm.
  destruct (decide (m < length (enc x))%nat).
  - rewrite take_app_le by lia. destruct (body_cut x s m) as [e ->]; [done..|]. eauto.
  - rewrite take_app_ge by lia. rewrite body_ok by done.
    rewrite zlen_cons. replace (1 + zlen xs - 1) with (zlen xs) by lia.
    pose proof (enc_nonempty x). assert (1 <= length (enc x))%nat
      by (destruct (enc x); [done|simpl; lia]).
    apply IH; lia.
Qed.
End loop.

(** Every step of the loops takes bytes. *)
Ltac shrink_tac :=
  repeat match goal with
  | |- context [read_record ?r] =>
      let E := fresh in
      destruct (read_record r) as [[]|] eqn:E; [apply read_record_shrinks in E|done]
  end.

Lemma list_body_shrinks count rest l l' rest' :
  list_body count rest l = inr (l', rest') -> (length rest' < length rest)%nat.
Proof. unfold list_body. shrink_tac. by intros [= _ <-]. Qed.

Lemma hash_body_shrinks count rest o o' rest' :
  hash_body count rest o = inr (o', rest') -> (length rest' < length rest)%nat.
Proof. unfold hash_body. shrink_tac. intros [= _ <-]. lia. Qed.

Lemma set_body_shrinks count rest o o' rest' :
  set_body count rest o = inr (o', rest') -> (length rest' < length rest)%nat.
Proof. unfold set_body. shrink_tac. by intros [= _ <-]. Qed.

Lemma zset_body_shrinks `{DoubleText} count rest o o' rest' :
  zset_body count rest o = inr (o', rest') -> (length rest' < length rest)%nat.
Proof.
  unfold zset_body. shrink_tac. destruct (read_score _); [|done]. intros [= _ <-]. lia.
Qed.

(** The loop never runs out of fuel: every step takes bytes. *)
Lemma read_loop_total {S} (body : bytes -> S -> bytes * S + S * bytes) fuel count rest s :
  (forall rest s s' rest', body rest s = inr (s', rest') -> (length rest' < length rest)%nat) ->
  (length rest < fuel)%nat -> read_loop body fuel count rest s <> None.
Proof.
  intros Hb. revert count rest s.
  induction fuel as [|fuel IH]; intros count rest s Hf; [lia|]. cbn [read_loop].
  destruct (count <=? 0); [done|]. destruct (body rest s) as [e|[s' rest']] eqn:E; [done|].
  apply IH. apply Hb in E. lia.
Qed.

(** ** Rebuilding the containers *)

Lemma foldl_insert_map (l : list (bytes * bytes)) (m : gmap bytes bytes) :
  NoDup l.*1 -> Forall (fun kv => m !! kv.1 = None) l ->
  foldl (fun m kv => <[kv.1 := kv.2]> m) m l = list_to_map l ∪ m.
Proof.
  intros Hd Hm. revert m Hm. induction l as [|[k v] l IH]; intros m Hm; simpl.
  { by rewrite (left_id_L ∅ (∪)). }
  simpl in Hd. apply NoDup_cons in Hd as [Hk Hd].
  inversion_clear Hm as [|?? Hmk Hml]. simpl in Hmk. rewrite IH.
  - rewrite <-insert_union_r, insert_union_l; [done|].
    by apply not_elem_of_list_to_map_1.
  - done.
  - rewrite Forall_forall in Hml |- *. intros [k' v'] Hin. simpl.
    rewrite lookup_insert_ne; [by apply (Hml (k', v'))|]. intros <-. apply Hk.
    by apply (list_elem_of_fmap_2 fst _ (k, v')).
Qed.

Lemma foldl_insert_set (l : list bytes) (s : gset bytes) :
  foldl (fun s x => {[x]} ∪ s) s l = list_to_set l ∪ s.
Proof.
  revert s; induction l as [|x l IH]; intros s; simpl; [by rewrite (left_id_L ∅ (∪))|].
  rewrite IH. by rewrite (assoc_L (∪)), (comm_L (∪) (list_to_set l)).
Qed.

Lemma zinsert_last x l :
  Forall num l -> num x -> Forall (fun y => zlt y x = true) l -> zinsert x l = (true, l ++ [x]).
Proof.
  intros Hn Hx Hl. induction l as [|y l IH]; simpl; [done|].
  inversion_clear Hn as [|?? Hy Hn']. inversion_clear Hl as [|?? Hyx Hl'].
  assert (zlt x y = false) as ->.
  { destruct (zlt x y) eqn:E; [|done].
    pose proof (zlt_trans x y x Hx Hy Hx E Hyx) as Hc. by rewrite zlt_irrefl in Hc. }
  by rewrite Hyx, IH.
Qed.

(** Adding the members of a sorted set in its order gives the set back. *)
Lemma foldl_zadd l acc :
  zset_wf (acc ++ l) -> foldl (fun l z => (zadd z.1 z.2 l).2) acc l = acc ++ l.
Proof.
  revert acc; induction l as [|[m s] l IH]; intros acc Hwf; simpl; [by rewrite app_nil_r|].
  destruct Hwf as [Hs Hd Hn]. pose proof Hs as Hs0. pose proof Hd as Hd0. pose proof Hn as Hn0.
  apply StronglySorted_app in Hs as (Hlt & Hs & _).
  rewrite fmap_app, NoDup_app in Hd. destruct Hd as (_ & Hd & _).
  rewrite Forall_app in Hn. destruct Hn as [Hn Hn2]. inversion_clear Hn2 as [|?? Hms _].
  unfold zadd. rewrite (proj2 (zfind_None m acc)).
  2: { intros Hin. apply (Hd m Hin). left. }
  rewrite zinsert_last; [|done|done|].
  2: { apply Forall_forall. intros y Hy. apply Hlt; [done|left]. }
  cbn [snd]. rewrite IH; [by rewrite <-app_assoc|]. by rewrite <-app_assoc.
Qed.

Lemma foldl_append_record acc l :
  foldl append_record acc l = acc ++ concat (map record l).
Proof.
  revert acc; induction l as [|x l IH]; intros acc; simpl; [by rewrite app_nil_r|].
  rewrite IH. unfold append_record, record. by rewrite <-!app_assoc.
Qed.

Lemma foldl_append_record2 {A} (f g : A -> bytes) acc l :
  foldl (fun r x => append_record (append_record r (f x)) (g x)) acc l =
  acc ++ concat (map (fun x => record (f x) ++ record (g x)) l).
Proof.
  revert acc; induction l as [|x l IH]; intros acc; simpl; [by rewrite app_nil_r|].
  rewrite IH. unfold append_record, record. by rewrite <-!app_assoc.
Qed.

(** ** Counts and loops over an object *)

Lemma fits_to_string n : 0 <= n <= uint64_max -> fits (to_string n).
Proof.
  intros Hn. pose proof (to_string_length n Hn). unfold fits, zlen, uint64_max. lia.
Qed.

Lemma read_count_ok n r :
  0 <= n <= uint64_max -> read_count (record (to_string n) ++ r) = Some (n, r).
Proof.
  intros. unfold read_count. rewrite read_record_ok by by apply fits_to_string.
  by rewrite parse_u64_to_string.
Qed.

Lemma read_count_cut n m :
  0 <= n <= uint64_max -> (m < length (record (to_string n)))%nat ->
  read_count (take m (record (to_string n))) = None.
Proof.
  intros. unfold read_count. by rewrite read_record_cut by (try done; by apply fits_to_string).
Qed.

(** What a container writes after its tag: the number of its items, then each
    of them. *)
Definition counted {X} (enc : X -> bytes) (xs : list X) : bytes :=
  record (to_string (zlen xs)) ++ concat (map enc xs).

Lemma record_nonempty p : record p <> [].
Proof. unfold record. intros [_ H]%app_eq_nil. done. Qed.

Section records.
Context {X : Type} (what : bytes) (body : Z -> bytes -> CacheObject -> bytes * CacheObject + CacheObject * bytes).
Context (enc : X -> bytes) (upd : CacheObject -> X -> CacheObject) (good : X -> Prop).
Hypothesis enc_nonempty : forall x, enc x <> [].
Hypothesis body_ok : forall c x s r, good x -> body c (enc x ++ r) s = inr (upd s x, r).
Hypothesis body_cut : forall c x s m, good x -> (m < length (enc x))%nat ->
  exists e, body c (take m (enc x)) s = inl e.

(** The part of [deserialize] after the tag of a container. *)
Definition read_container (err rest : bytes) (o : CacheObject) : outcome :=
  match read_count rest with
  | None => DErr err o
  | Some (count, rest) => run_records what count rest (body count) o
  end.

Lemma read_container_ok err xs r o :
  Forall good xs -> zlen xs <= uint64_max ->
  read_container err (counted enc xs ++ r) o = finish what r (foldl upd o xs).
Proof using enc_nonempty body_ok.
  intros Hg Hn. pose proof (zlen_nonneg xs). unfold read_container, counted.
  rewrite <-app_assoc, read_count_ok by done. unfold run_records.
  rewrite (read_loop_ok _ enc upd good) by (first [done | intros; by apply body_ok |
    pose proof (encs_length enc enc_nonempty xs); rewrite length_app; lia]). done.
Qed.

Lemma read_container_cut err xs m o :
  Forall good xs -> zlen xs <= uint64_max -> (m < length (counted enc xs))%nat ->
  exists e o', read_container err (take m (counted enc xs)) o = DErr e o'.
Proof using enc_nonempty body_ok body_cut.
  intros Hg Hn Hm. pose proof (zlen_nonneg xs). unfold read_container, counted in *.
  rewrite length_app in Hm.
  destruct (decide (m < length (record (to_string (zlen xs))))%nat).
  { rewrite take_app_le, read_count_cut by (done || lia). eauto. }
  rewrite take_app_ge, read_count_ok by (done || lia). unfold run_records.
  destruct (read_loop_cut (body (zlen xs)) enc upd good enc_nonempty (body_ok _) (body_cut _)
    xs (m - length (record (to_string (zlen xs)))) (Datatypes.S (length (take
      (m - length (record (to_string (zlen xs)))) (concat (map enc xs))))) o)
    as [[e o'] ->]; [done|lia|rewrite length_take; lia|eauto].
Qed.
End records.

(** ** The three containers that are filled while reading *)

Section containers.
Context `{DoubleText}.

Definition enc_pair (kv : bytes * bytes) : bytes := record kv.1 ++ record kv.2.
Definition enc_scored (z : bytes * Z) : bytes := record z.1 ++ record (fmt_17g z.2).

Definition fits_pair (kv : bytes * bytes) : Prop := fits kv.1 /\ fits kv.2.
Definition fits_scored (z : bytes * Z) : Prop :=
  fits z.1 /\ in_double z.2 /\ isfinite z.2 = true.

Lemma enc_pair_nonempty kv : enc_pair kv <> [].
Proof. intros []%app_eq_nil. by eapply record_nonempty. Qed.

Lemma enc_scored_nonempty z : enc_scored z <> [].
Proof. intros []%app_eq_nil. by eapply record_nonempty. Qed.

Lemma hash_body_ok c kv o r :
  fits_pair kv -> hash_body c (enc_pair kv ++ r) o = inr ((hash_set kv.1 kv.2 o).2, r).
Proof.
  intros []. unfold hash_body, enc_pair. rewrite <-app_assoc.
  by rewrite !read_record_ok.
Qed.

Lemma hash_body_cut c kv o m :
  fits_pair kv -> (m < length (enc_pair kv))%nat ->
  exists e, hash_body c (take m (enc_pair kv)) o = inl e.
Proof.
  intros [] Hm. unfold hash_body, enc_pair.
  destruct (record2_cut kv.1 kv.2 m) as [-> |(m' & -> & ->)]; eauto.
Qed.

Lemma set_body_ok c x o r : fits x -> set_body c (record x ++ r) o = inr ((set_add x o).2, r).
Proof. intros. unfold set_body. by rewrite read_record_ok. Qed.

Lemma set_body_cut c x o m :
  fits x -> (m < length (record x))%nat -> exists e, set_body c (take m (record x)) o = inl e.
Proof. intros. unfold set_body. rewrite read_record_cut by done. eauto. Qed.

Lemma fits_fmt s : fits (fmt_17g s).
Proof. pose proof (fmt_17g_length s). unfold fits, zlen, uint64_max. lia. Qed.

Lemma read_score_fmt s :
  in_double s -> isfinite s = true -> read_score (fmt_17g s) = Some s.
Proof.
  intros Hd Hs. unfold read_score. rewrite from_chars_fmt by done.
  unfold isfinite, isnan, isinf in *.
  rewrite (proj2 (Z.ltb_ge _ _)), (proj2 (Z.eqb_neq _ _)) by blia. done.
Qed.

Lemma zset_body_ok c z o r :
  fits_scored z -> zset_body c (enc_scored z ++ r) o = inr ((zset_add z.1 z.2 o).2, r).
Proof.
  intros (? & ? & ?). unfold zset_body, enc_scored. rewrite <-app_assoc.
  rewrite !read_record_ok by (done || apply fits_fmt). by rewrite read_score_fmt.
Qed.

Lemma zset_body_cut c z o m :
  fits_scored z -> (m < length (enc_scored z))%nat ->
  exists e, zset_body c (take m (enc_scored z)) o = inl e.
Proof.
  intros (? & ? & ?) Hm. unfold zset_body, enc_scored.
  destruct (record2_cut z.1 (fmt_17g z.2) m) as [-> |(m' & -> & ->)];
    [done|apply fits_fmt|done|eauto..].
Qed.
End containers.

(** ** Objects rebuilt from their items *)

Definition hash_object (h : gmap bytes bytes) : CacheObject := mkObject HASH [] [] h ∅ [].
Definition set_object (s : gset bytes) : CacheObject := mkObject SET [] [] ∅ s [].
Definition zset_object (l : list (bytes * Z)) : CacheObject := mkObject ZSET [] [] ∅ ∅ l.

Lemma rebuild_list l :
  l <> [] -> foldl (fun o e => (list_push e false o).2) new_object l = object_of_list l.
Proof.
  assert (forall acc l, foldl (fun o e => (list_push e false o).2) (object_of_list acc) l =
    object_of_list (acc ++ l)) as Hgen.
  { intros acc k; revert acc; induction k as [|x k IH]; intros acc; cbn [foldl].
    - by rewrite app_nil_r.
    - change (list_push x false (object_of_list acc)).2 with (object_of_list (acc ++ [x])).
      rewrite IH. by rewrite <-app_assoc. }
  destruct l as [|x l]; [done|]. intros _. cbn [foldl].
  change (list_push x false new_object).2 with (object_of_list [x]). apply Hgen.
Qed.

Lemma rebuild_hash l :
  l <> [] -> foldl (fun o kv => (hash_set kv.1 kv.2 o).2) new_object l =
  hash_object (foldl (fun m kv => <[kv.1 := kv.2]> m) ∅ l).
Proof.
  assert (forall m l, foldl (fun o kv => (hash_set kv.1 kv.2 o).2) (hash_object m) l =
    hash_object (foldl (fun m kv => <[kv.1 := kv.2]> m) m l)) as Hgen.
  { intros m k; revert m; induction k as [|x k IH]; intros m; simpl; [done|]. apply IH. }
  destruct l as [|x l]; [done|]. intros _. simpl. apply Hgen.
Qed.

Lemma rebuild_set l :
  l <> [] -> foldl (fun o x => (set_add x o).2) new_object l =
  set_object (foldl (fun s x => {[x]} ∪ s) ∅ l).
Proof.
  assert (forall s l, foldl (fun o x => (set_add x o).2) (set_object s) l =
    set_object (foldl (fun s x => {[x]} ∪ s) s l)) as Hgen.
  { intros s k; revert s; induction k as [|x k IH]; intros s; simpl; [done|]. apply IH. }
  destruct l as [|x l]; [done|]. intros _. simpl. apply Hgen.
Qed.

Lemma zset_add_zset_object m s l :
  (zset_add m s (zset_object l)).2 = zset_object (zadd m s l).2.
Proof. rewrite zset_add_eq by by left. done. Qed.

Lemma rebuild_zset l :
  l <> [] -> foldl (fun o z => (zset_add z.1 z.2 o).2) new_object l =
  zset_object (foldl (fun l z => (zadd z.1 z.2 l).2) [] l).
Proof.
  assert (forall k l, foldl (fun o z => (zset_add z.1 z.2 o).2) (zset_object k) l =
    zset_object (foldl (fun l z => (zadd z.1 z.2 l).2) k l)) as Hgen.
  { intros k l'; revert k; induction l' as [|x l' IH]; intros k; cbn [foldl]; [done|].
    rewrite zset_add_zset_object. apply IH. }
  destruct l as [|x l]; [done|]. intros _. cbn [foldl].
  change (zset_add x.1 x.2 new_object).2 with (zset_object (zadd x.1 x.2 []).2). apply Hgen.
Qed.

(** What reading back the payload of [o] gives: the value of its type alone.
    A container without items comes back as an empty string. *)
Definition restored (o : CacheObject) : CacheObject :=
  match type_ o with
  | STRING => object_of_string (string_val_ o)
  | LIST => if bool_decide (list_val_ o = []) then new_object else object_of_list (list_val_ o)
  | HASH => if bool_decide (hash_val_ o = ∅) then new_object else hash_object (hash_val_ o)
  | SET => if bool_decide (set_val_ o = ∅) then new_object else set_object (set_val_ o)
  | ZSET => if bool_decide (zset_val_ o = []) then new_object else zset_object (zset_val_ o)
  end.

(** The contents fit the 64-bit prefixes, a vector can hold the list, and the
    scores are finite, as ZADD requires. *)
Definition payload_fits (o : CacheObject) : Prop :=
  match type_ o with
  | STRING => fits (string_val_ o)
  | LIST => zlen (list_val_ o) <= vector_max_size /\ Forall fits (list_val_ o)
  | HASH => hash_size o <= uint64_max /\ map_Forall (fun k v => fits k /\ fits v) (hash_val_ o)
  | SET => set_size o <= uint64_max /\ set_Forall fits (set_val_ o)
  | ZSET => zset_size o <= uint64_max /\ Forall fits_scored (zset_val_ o)
  end.

Section roundtrip.
Context `{DoubleText} `{HashOrder}.

Lemma map_items_nodup h : NoDup (map_items h).*1.
Proof. rewrite map_items_perm. apply NoDup_fst_map_to_list. Qed.

Lemma map_items_map h : list_to_map (map_items h) = h.
Proof.
  rewrite (list_to_map_proper _ (map_to_list h)); [apply list_to_map_to_list|..].
  - apply map_items_nodup.
  - apply map_items_perm.
Qed.

Lemma set_items_set s : list_to_set (set_items s) = s.
Proof. rewrite set_items_perm. apply list_to_set_elements_L. Qed.

Lemma map_items_size h : zlen (map_items h) = Z.of_nat (size h).
Proof. unfold zlen. rewrite map_items_perm. by rewrite length_map_to_list. Qed.

Lemma set_items_size s : zlen (set_items s) = Z.of_nat (size s).
Proof. unfold zlen. by rewrite set_items_perm. Qed.

(** The payload by type: the tag, a newline, the contents. *)
Lemma serialize_eq o :
  serialize o =
  match type_ o with
  | STRING => lit "STRING" ++ LF :: record (string_val_ o)
  | LIST => lit "LIST" ++ LF :: counted record (list_val_ o)
  | HASH => lit "HASH" ++ LF :: counted enc_pair (map_items (hash_val_ o))
  | SET => lit "SET" ++ LF :: counted record (set_items (set_val_ o))
  | ZSET => lit "ZSET" ++ LF :: counted enc_scored (zset_val_ o)
  end.
Proof.
  unfold serialize, counted, hash_size, set_size, zset_size.
  rewrite map_items_size, set_items_size. destruct (type_ o).
  - done.
  - rewrite foldl_append_record. unfold append_record, record. by rewrite <-!app_assoc.
  - rewrite foldl_append_record2. unfold append_record, record. by rewrite <-!app_assoc.
  - rewrite foldl_append_record. unfold append_record, record. by rewrite <-!app_assoc.
  - rewrite (foldl_append_record2 fst (fun z => fmt_17g z.2)).
    unfold append_record, record. by rewrite <-!app_assoc.
Qed.
Lemma list_body_ok c x l r : fits x -> list_body c (record x ++ r) l = inr (l ++ [x], r).
Proof. intros. unfold list_body. by rewrite read_record_ok. Qed.

Lemma list_body_cut c x l m :
  fits x -> (m < length (record x))%nat -> exists e, list_body c (take m (record x)) l = inl e.
Proof. intros. unfold list_body. rewrite read_record_cut by done. eauto. Qed.

(** The LIST branch of [deserialize]. *)
Definition read_list (rest : bytes) (o : CacheObject) : outcome :=
  match read_count rest with
  | None => DErr (lit "bad LIST element count") o
  | Some (count, rest) =>
      if vector_max_size <? count then DThrow o
      else
        match read_loop (list_body count) (S (length rest)) count rest [] with
        | None => DOutOfFuel
        | Some (inl (err, _)) => DErr err o
        | Some (inr (elems, rest)) =>
            match finish (lit "LIST") rest o with
            | DOk o => DOk (foldl (fun o e => (list_push e false o).2) o elems)
            | r => r
            end
        end
  end.

Lemma foldl_snoc_id {A} (l acc : list A) : foldl (fun l x => l ++ [x]) acc l = acc ++ l.
Proof.
  revert acc; induction l as [|x l IH]; intros acc; simpl; [by rewrite app_nil_r|].
  rewrite IH. by rewrite <-app_assoc.
Qed.

Lemma vector_max_u64 n : n <= vector_max_size -> n <= uint64_max.
Proof. intros. transitivity vector_max_size; [done|]. by vm_compute. Qed.

Lemma read_list_ok l r o :
  Forall fits l -> zlen l <= vector_max_size ->
  read_list (counted record l ++ r) o =
  match finish (lit "LIST") r o with
  | DOk o => DOk (foldl (fun o e => (list_push e false o).2) o l)
  | x => x
  end.
Proof.
  intros Hf Hn. pose proof (zlen_nonneg l). pose proof (vector_max_u64 _ Hn).
  unfold read_list, counted. rewrite <-app_assoc, read_count_ok by done.
  rewrite (proj2 (Z.ltb_ge _ _)) by done.
  rewrite (read_loop_ok _ record (fun l x => l ++ [x]) fits) by (first [done
    | intros; by apply list_body_ok
    | pose proof (encs_length record record_nonempty l); rewrite length_app; lia]).
  by rewrite foldl_snoc_id.
Qed.

Lemma read_list_cut l m o :
  Forall fits l -> zlen l <= vector_max_size -> (m < length (counted record l))%nat ->
  exists e o', read_list (take m (counted record l)) o = DErr e o'.
Proof.
  intros Hf Hn Hm. pose proof (zlen_nonneg l). pose proof (vector_max_u64 _ Hn).
  unfold read_list, counted in *. rewrite length_app in Hm.
  destruct (decide (m < length (record (to_string (zlen l))))%nat).
  { rewrite take_app_le, read_count_cut by (done || lia). eauto. }
  rewrite take_app_ge, read_count_ok by (done || lia). rewrite (proj2 (Z.ltb_ge _ _)) by done.
  destruct (read_loop_cut (list_body (zlen l)) record (fun l x => l ++ [x]) fits record_nonempty
    (fun x s r => list_body_ok _ x s r) (fun x s m => list_body_cut _ x s m)
    l (m - length (record (to_string (zlen l)))) (S (length (take
      (m - length (record (to_string (zlen l)))) (concat (map record l))))) [])
    as [[e l'] ->]; [done|lia|rewrite length_take; lia|eauto].
Qed.

(** [deserialize] goes by the tag. *)
Definition by_type (t : ObjectType) (rest : bytes) (o : CacheObject) : outcome :=
  match t with
  | STRING =>
      match read_record rest with
      | None => DErr (lit "truncated STRING payload") o
      | Some (value, rest) => finish (lit "STRING") rest (set_string value o)
      end
  | LIST => read_list rest o
  | HASH => read_container (lit "HASH") hash_body (lit "bad HASH field count") rest o
  | SET => read_container (lit "SET") set_body (lit "bad SET member count") rest o
  | ZSET => read_container (lit "ZSET") zset_body (lit "bad ZSET member count") rest o
  end.

Definition tag (t : ObjectType) : bytes :=
  match t with
  | STRING => lit "STRING" | LIST => lit "LIST" | HASH => lit "HASH"
  | SET => lit "SET" | ZSET => lit "ZSET"
  end.

Lemma tag_no_lf t : no_lf (tag t).
Proof. destruct t; repeat constructor. Qed.

Lemma deserialize_tag t rest o : deserialize (tag t ++ LF :: rest) o = by_type t rest o.
Proof.
  unfold deserialize. rewrite split_line_text by apply tag_no_lf. by destruct t.
Qed.

(** The contents of an object after its tag. *)
Definition contents (o : CacheObject) : bytes :=
  match type_ o with
  | STRING => record (string_val_ o)
  | LIST => counted record (list_val_ o)
  | HASH => counted enc_pair (map_items (hash_val_ o))
  | SET => counted record (set_items (set_val_ o))
  | ZSET => counted enc_scored (zset_val_ o)
  end.

Lemma serialize_contents o : serialize o = tag (type_ o) ++ LF :: contents o.
Proof. rewrite serialize_eq. unfold contents, tag. by destruct (type_ o). Qed.

Lemma hash_items_fit h :
  map_Forall (fun k v => fits k /\ fits v) h -> Forall fits_pair (map_items h).
Proof.
  intros Hh. rewrite map_items_perm. apply map_Forall_to_list in Hh.
  eapply Forall_impl; [exact Hh|]. by intros [k v].
Qed.

Lemma set_items_fit s : set_Forall fits s -> Forall fits (set_items s).
Proof. intros Hs. rewrite set_items_perm. by apply set_Forall_elements. Qed.

(** Reading the contents back, whatever the order of the containers. *)
Lemma by_type_ok o :
  obj_wf o -> payload_fits o -> by_type (type_ o) (contents o) new_object = DOk (restored o).
Proof.
  intros Hwf. rewrite <-(app_nil_r (contents o)).
  unfold payload_fits, contents, by_type, restored. destruct (type_ o).
  - intros Hf. by rewrite read_record_ok.
  - intros [Hn Hf]. rewrite read_list_ok by done. simpl. case_bool_decide as E.
    + by rewrite E.
    + by rewrite rebuild_list.
  - intros [Hn Hf]. rewrite (read_container_ok _ hash_body enc_pair
      (fun o kv => (hash_set kv.1 kv.2 o).2) fits_pair enc_pair_nonempty hash_body_ok)
      by (first [by apply hash_items_fit | by rewrite map_items_size]). simpl.
    case_bool_decide as E.
    + rewrite E. assert (map_items (∅ : gmap bytes bytes) = []) as ->; [|done].
      apply Permutation_nil. by rewrite map_items_perm, map_to_list_empty.
    + rewrite rebuild_hash.
      2: { intros Hnil. apply E. rewrite <-(map_items_map (hash_val_ o)). by rewrite Hnil. }
      rewrite foldl_insert_map, (right_id_L ∅ (∪)), map_items_map; [done|..].
      * apply map_items_nodup.
      * apply Forall_forall. intros. apply lookup_empty.
  - intros [Hn Hf]. rewrite (read_container_ok _ set_body record
      (fun o x => (set_add x o).2) fits record_nonempty set_body_ok)
      by (first [by apply set_items_fit | by rewrite set_items_size]). simpl.
    case_bool_decide as E.
    + rewrite E. assert (set_items (∅ : gset bytes) = []) as ->; [|done].
      apply Permutation_nil. by rewrite set_items_perm, elements_empty.
    + rewrite rebuild_set.
      2: { intros Hnil. apply E. rewrite <-(set_items_set (set_val_ o)). by rewrite Hnil. }
      by rewrite foldl_insert_set, (right_id_L ∅ (∪)), set_items_set.
  - intros [Hn Hf]. rewrite (read_container_ok _ zset_body enc_scored
      (fun o z => (zset_add z.1 z.2 o).2) fits_scored enc_scored_nonempty zset_body_ok)
      by done. simpl. case_bool_decide as E.
    + by rewrite E.
    + rewrite rebuild_zset, foldl_zadd by (try done; apply Hwf). done.
Qed.
(** The contents cut short are refused. *)
Lemma by_type_cut o m :
  payload_fits o -> (m < length (contents o))%nat ->
  exists e o', by_type (type_ o) (take m (contents o)) new_object = DErr e o'.
Proof.
  unfold payload_fits, contents, by_type. destruct (type_ o).
  - intros Hf Hm. rewrite read_record_cut by done. eauto.
  - intros [Hn Hf] Hm. by apply read_list_cut.
  - intros [Hn Hf] Hm. apply (read_container_cut _ hash_body enc_pair
      (fun o kv => (hash_set kv.1 kv.2 o).2) fits_pair enc_pair_nonempty hash_body_ok hash_body_cut);
      [by apply hash_items_fit|by rewrite map_items_size|done].
  - intros [Hn Hf] Hm. apply (read_container_cut _ set_body record
      (fun o x => (set_add x o).2) fits record_nonempty set_body_ok set_body_cut);
      [by apply set_items_fit|by rewrite set_items_size|done].
  - intros [Hn Hf] Hm. by apply (read_container_cut _ zset_body enc_scored
      (fun o z => (zset_add z.1 z.2 o).2) fits_scored enc_scored_nonempty zset_body_ok zset_body_cut).
Qed.

Lemma finish_tail what r o : r <> [] -> exists e, finish what r o = DErr e o.
Proof. intros. unfold finish. rewrite bool_decide_eq_false_2 by done. eauto. Qed.

(** Bytes after the contents are refused. *)
Lemma by_type_tail o r :
  payload_fits o -> r <> [] ->
  exists e o', by_type (type_ o) (contents o ++ r) new_object = DErr e o'.
Proof.
  intros Hp Hr. unfold payload_fits, contents, by_type in *. destruct (type_ o).
  - rewrite read_record_ok by done. destruct (finish_tail (lit "STRING") r
      (set_string (string_val_ o) new_object) Hr) as [e ->]. eauto.
  - destruct Hp as [Hn Hf]. rewrite read_list_ok by done.
    destruct (finish_tail (lit "LIST") r new_object Hr) as [e ->]. eauto.
  - destruct Hp as [Hn Hf]. rewrite (read_container_ok _ hash_body enc_pair
      (fun o kv => (hash_set kv.1 kv.2 o).2) fits_pair enc_pair_nonempty hash_body_ok)
      by (first [by apply hash_items_fit | by rewrite map_items_size]).
    edestruct finish_tail as [e ->]; [done|eauto].
  - destruct Hp as [Hn Hf]. rewrite (read_container_ok _ set_body record
      (fun o x => (set_add x o).2) fits record_nonempty set_body_ok)
      by (first [by apply set_items_fit | by rewrite set_items_size]).
    edestruct finish_tail as [e ->]; [done|eauto].
  - destruct Hp as [Hn Hf]. rewrite (read_container_ok _ zset_body enc_scored
      (fun o z => (zset_add z.1 z.2 o).2) fits_scored enc_scored_nonempty zset_body_ok) by done.
    edestruct finish_tail as [e ->]; [done|eauto].
Qed.
End roundtrip.

(** ** The properties of the payload *)

(** An order and a text form for the witnesses: the order of the model's own
    containers, and the decimal digits of the bit pattern. *)
Definition plain_order : HashOrder := {|
  map_items := map_to_list;
  set_items := elements;
  map_items_perm := fun _ => Permutation_refl _;
  set_items_perm := fun _ => Permutation_refl _
|}.

Definition bits_fmt (x : Z) : bytes :=
  if (0 <=? x) && (x <=? uint64_max) then to_string x else [].

Lemma bits_fmt_reads x :
  in_double x -> isfinite x = true -> parse_u64 (bits_fmt x) = Some x.
Proof.
  unfold in_double, bits_fmt. intros Hx _.
  rewrite (proj2 (Z.leb_le 0 x)), (proj2 (Z.leb_le x uint64_max)) by lia.
  by apply parse_u64_to_string.
Qed.

Lemma bits_fmt_length x : (length (bits_fmt x) <= 24)%nat.
Proof.
  unfold bits_fmt. destruct (_ && _) eqn:E; [|simpl; lia].
  pose proof (to_string_length x ltac:(blia)). lia.
Qed.

Definition bits_text : DoubleText := {|
  fmt_17g := bits_fmt;
  from_chars_double := parse_u64;
  from_chars_fmt := bits_fmt_reads;
  fmt_17g_length := bits_fmt_length
|}.

(** An object of three fields for the witnesses. *)
Definition sample_hash : CacheObject :=
  hash_object {[lit "f" := lit "1"; lit "g" := lit "2"]}.

Lemma sample_hash_wf : obj_wf sample_hash.
Proof. split; [done|apply zset_wf_nil]. Qed.

Lemma sample_hash_fits : payload_fits sample_hash.
Proof.
  split; [by vm_compute|]. apply map_Forall_insert_2; [done|].
  apply map_Forall_singleton. done.
Qed.

(** [deserialize] inverts [serialize]: the payload of an object, read into a
    fresh object, gives the value of its type back, whatever order its hash or
    set was iterated in. *)
Theorem payload_roundtrip `{DoubleText} `{HashOrder} o :
  obj_wf o -> payload_fits o -> deserialize (serialize o) new_object = DOk (restored o).
Proof.
  intros Hwf Hf. rewrite serialize_contents, deserialize_tag. by apply by_type_ok.
Qed.

Lemma payload_roundtrip_witness :
  let ord := plain_order in let txt := bits_text in
  deserialize (serialize sample_hash) new_object = DOk (restored sample_hash).
Proof.
  exact (@payload_roundtrip bits_text plain_order sample_hash sample_hash_wf sample_hash_fits).
Defined.

(** A payload is accepted whole or not at all: every proper prefix of one is
    refused with a message, and so is one with bytes after it. *)
Theorem payload_strict `{DoubleText} `{HashOrder} o :
  payload_fits o ->
  (forall m, (m < length (serialize o))%nat ->
     exists e o', deserialize (take m (serialize o)) new_object = DErr e o') /\
  (forall r, r <> [] -> exists e o', deserialize (serialize o ++ r) new_object = DErr e o').
Proof.
  intros Hf. rewrite serialize_contents. split.
  - intros m Hm. rewrite length_app in Hm. cbn [length] in Hm.
    destruct (decide (m <= length (tag (type_ o)))%nat).
    + unfold deserialize. rewrite split_line_cut by (try apply tag_no_lf; done). eauto.
    + rewrite take_app_ge by lia.
      destruct (m - length (tag (type_ o)))%nat as [|j] eqn:Hj; [lia|]. cbn [take].
      rewrite deserialize_tag. apply by_type_cut; [done|lia].
  - intros r Hr. rewrite <-app_assoc. cbn [app]. rewrite deserialize_tag.
    by apply by_type_tail.
Qed.

Lemma payload_strict_witness :
  let ord := plain_order in let txt := bits_text in
  (forall m, (m < length (serialize sample_hash))%nat ->
     exists e o', deserialize (take m (serialize sample_hash)) new_object = DErr e o') /\
  (forall r, r <> [] ->
     exists e o', deserialize (serialize sample_hash ++ r) new_object = DErr e o').
Proof.
  exact (@payload_strict bits_text plain_order sample_hash sample_hash_fits).
Defined.

(** [deserialize] always returns or throws; the loops over a declared count
    (up to [2^64 - 1]) end with the bytes of the payload. *)
Theorem deserialize_terminates `{DoubleText} payload o :
  deserialize payload o <> DOutOfFuel.
Proof.
  unfold deserialize. destruct (split_line payload) as [[type rest]|]; [|done].
  assert (forall what r o, finish what r o <> DOutOfFuel) as Hfin
    by (intros; unfold finish; by case_bool_decide).
  assert (forall what count r body o,
    (forall rest s s' rest', body rest s = inr (s', rest') -> (length rest' < length rest)%nat) ->
    run_records what count r body o <> DOutOfFuel) as Hrun.
  { intros what count r body o' Hb. unfold run_records.
    pose proof (read_loop_total body (S (length r)) count r o' Hb ltac:(lia)).
    destruct (read_loop _ _ _ _ _) as [[[]|[]]|]; done. }
  repeat case_bool_decide.
  - destruct (read_record rest) as [[]|]; done.
  - destruct (read_count rest) as [[count r]|]; [|done]. destruct (_ <? _); [done|].
    pose proof (read_loop_total (list_body count) (S (length r)) count r []) as Hl.
    destruct (read_loop _ _ _ _ _) as [[[]|[elems tail]]|].
    + done.
    + specialize (Hfin (lit "LIST") tail o). by destruct (finish _ _ _).
    + intros _. apply Hl; [|lia|done]. apply list_body_shrinks.
  - destruct (read_count rest) as [[]|]; [|done]. apply Hrun, hash_body_shrinks.
  - destruct (read_count rest) as [[]|]; [|done]. apply Hrun, set_body_shrinks.
  - destruct (read_count rest) as [[]|]; [|done]. apply Hrun, zset_body_shrinks.
  - done.
Qed.

(** The failures [deserialize] does not report. A LIST payload that declares
    more elements than a vector can hold leaves by an exception at [reserve],
    before a single element was read; and a container that was emptied comes
    back from its own payload as an empty string. *)
Theorem deserialize_edges `{DoubleText} `{HashOrder} o :
  let huge := lit "LIST" ++ LF :: record (to_string uint64_max) in
  deserialize huge o = DThrow o /\
  deserialize (serialize (object_of_list [])) new_object = DOk (object_of_string []).
Proof. by vm_compute. Qed.

End PayloadSpec.
