(* ===== verification/ExpireDict.v ===== *)
(** * [cache/expire_dict.h], [cache/expire_dict.cpp]: expiration times

    The dictionary from keys to absolute expiration times in milliseconds.
    Every operation takes its lock once, so each is one step; the clock value
    it reads is the argument [now]. The assertions on arguments are those of
    debug builds and are not part of the model. *)

From S2P Require Import Prelude.
From stdpp Require Import options.

(** A source of random draws: the [n]-th draw. *)
Abbreviation rng := (nat -> nat).

Module ExpireDict.

Abbreviation ExpireDict := (gmap bytes Z).

(** [int64_t] arithmetic as two's complement. *)
Definition wrap64 (z : Z) : Z :=
  (z + 9223372036854775808) mod 18446744073709551616 - 9223372036854775808.

(** [now + ms], saturated at the largest [int64_t]. *)
Definition sat_add (now ms : Z) : Z := if int64_max - now <? ms then int64_max else now + ms.

Definition set (now : Z) (key : bytes) (expire_ms : Z) (d : ExpireDict) : ExpireDict :=
  <[key := sat_add now expire_ms]> d.

Definition set_expire_time (key : bytes) (expire_time_ms : Z) (d : ExpireDict) : ExpireDict :=
  <[key := expire_time_ms]> d.

Definition get_ttl (now : Z) (key : bytes) (d : ExpireDict) : Z :=
  match d !! key with
  | None => -2
  | Some t =>
      let remaining := wrap64 (t - now) in
      if remaining <=? 0 then -2 else remaining
  end.

Definition get_expire_time (key : bytes) (d : ExpireDict) : Z :=
  match d !! key with None => -1 | Some t => t end.

Definition persist (key : bytes) (d : ExpireDict) : bool * ExpireDict :=
  match d !! key with
  | None => (false, d)
  | Some _ => (true, delete key d)
  end.

Definition remove (key : bytes) (d : ExpireDict) : ExpireDict := delete key d.

Definition is_expired (now : Z) (key : bytes) (d : ExpireDict) : bool :=
  match d !! key with None => false | Some t => t <=? now end.

Definition contains (key : bytes) (d : ExpireDict) : bool := bool_decide (is_Some (d !! key)).

(** The sampling loop of [get_candidates]: [want] draws from [0 .. total-1],
    made monotone by [last]; [keys] are the keys in iteration order. *)
Fixpoint sample (want : nat) (draw : rng) (k last : nat) (keys : list bytes) : list bytes :=
  match want with
  | O => []
  | S want =>
      let target := draw k in
      let target := if (target <? last)%nat then last else target in
      match keys !! target with
      | Some key => key :: sample want draw (S k) target keys
      | None => []
      end
  end.

(** [get_candidates]: [keys] is the order of this iteration, a draw is reduced
    to the range of the distribution. *)
Definition get_candidates (n : nat) (draw : rng) (keys : list bytes) : list bytes :=
  let total := length keys in
  if (total =? 0)%nat then []
  else
    let want := Nat.min n total in
    if (total <=? want * 4)%nat then take want keys
    else sample want (fun k => draw k mod total)%nat 0 0 keys.

Definition delete_expired (now : Z) (d : ExpireDict) : nat * ExpireDict :=
  let d' := filter (fun kv => ~ kv.2 <= now) d in
  (size d - size d', d')%nat.

(** [stats]: the number of entries still alive and their mean remaining time;
    the sum is an [int64_t], the order of the iteration does not matter to it. *)
Definition stats (now : Z) (d : ExpireDict) : Z * Z :=
  let live := List.filter (fun t => now <? t) (snd <$> map_to_list d) in
  let sum := foldl (fun sum t => wrap64 (sum + (t - now))) 0 live in
  (zlen live, if 0 <? zlen live then Z.quot sum (zlen live) else 0).

Definition clear_all (d : ExpireDict) : ExpireDict := ∅.

(** ** Lemmas *)

Lemma sat_add_bounds now ms :
  0 <= now <= int64_max -> 0 < ms -> now < sat_add now ms \/ now = int64_max.
Proof. unfold sat_add. intros. destruct (Z.ltb_spec (int64_max - now) ms); lia. Qed.

Lemma wrap64_id z : in_i64 z -> wrap64 z = z.
Proof.
  unfold in_i64, int64_min, int64_max, wrap64. intros. rewrite Z.mod_small by lia. lia.
Qed.

(** Times after the epoch leave no room for overflow in the subtraction. *)
Lemma get_ttl_spec now key d :
  0 <= now <= int64_max -> map_Forall (fun _ t => 0 < t <= int64_max) d ->
  get_ttl now key d =
  match d !! key with
  | Some t => if is_expired now key d then -2 else t - now
  | None => -2
  end.
Proof.
  intros Hnow Hd. unfold get_ttl, is_expired. destruct (d !! key) as [t|] eqn:Hk; [|done].
  apply Hd in Hk. simpl in Hk. rewrite wrap64_id by (unfold in_i64, int64_min, int64_max in *; lia).
  destruct (Z.leb_spec (t - now) 0), (Z.leb_spec t now); lia.
Qed.

Lemma sample_spec want (draw : rng) k last (keys : list bytes) :
  (forall i : nat, (draw i < length keys)%nat) -> (last < length keys)%nat ->
  length (sample want draw k last keys) = want /\
  Forall (fun key => key ∈ keys) (sample want draw k last keys).
Proof.
  intros Hdraw. revert k last. induction want as [|want IH]; intros k last Hl; simpl; [done|].
  set (target := if (draw k <? last)%nat then last else draw k).
  assert (target < length keys)%nat as Ht by (unfold target; case_ifs; [done|apply Hdraw]).
  destruct (lookup_lt_is_Some_2 keys target Ht) as [key Hk]. rewrite Hk.
  destruct (IH (S k) target Ht) as [Hlen Hall]. simpl. rewrite Hlen. split; [done|].
  constructor; [by eapply list_elem_of_lookup_2|done].
Qed.

(** ** Properties *)

(** The candidates of the periodic deletion are keys of the dictionary, and
    as many as asked for while there are that many. *)
Theorem get_candidates_spec (n : nat) (draw : rng) (d : ExpireDict) (keys : list bytes) :
  keys ≡ₚ (map_to_list d).*1 ->
  length (get_candidates n draw keys) = Nat.min n (size d) /\
  Forall (fun key => is_Some (d !! key)) (get_candidates n draw keys).
Proof.
  intros Hp.
  assert (length keys = size d) as Hlen
    by (rewrite Hp, length_fmap; apply length_map_to_list).
  assert (forall l, Forall (fun key => key ∈ keys) l -> Forall (fun key => is_Some (d !! key)) l)
    as Hin.
  { intros l Hl. eapply Forall_impl; [exact Hl|]. intros key Hk. cbv beta in Hk.
    rewrite Hp in Hk. apply list_elem_of_fmap in Hk as ([k t] & -> & Hk).
    apply elem_of_map_to_list in Hk. by exists t. }
  unfold get_candidates. rewrite Hlen.
  destruct (Nat.eqb_spec (size d) 0) as [E|E]; [rewrite E, Nat.min_0_r; done|].
  destruct (_ <=? _)%nat.
  - rewrite length_take, Hlen. split; [lia|]. apply Hin, Forall_take, Forall_forall. done.
  - destruct (sample_spec (Nat.min n (size d)) (fun k => draw k mod size d)%nat 0 0 keys)
      as [Hl Hall]; [|lia|by auto].
    intros i. rewrite Hlen. apply Nat.mod_upper_bound. done.
Qed.

Lemma get_candidates_spec_witness :
  let d : ExpireDict := {[lit "a" := 5; lit "b" := 7]} in
  let keys := (map_to_list d).*1 in
  length (get_candidates 20 (fun k => k) keys) = Nat.min 20 (size d) /\
  Forall (fun key => is_Some (d !! key)) (get_candidates 20 (fun k => k) keys).
Proof. apply (get_candidates_spec 20 (fun k => k)). done. Defined.

End ExpireDict.
