(* ===== verification/Storage.v ===== *)
(** * [cache/storage.h], [cache/storage.cpp]: the sharded store

    [GlobalStorage]: 64 maps behind one lock each, the dictionary of
    expiration times and the counter of unsaved writes. An operation runs under
    the lock of its key's shard and is one step of the model; [get] is two, the
    lookup under the shared lock and the deletion of an expired key after it
    was released. The clock value an operation reads is [now]; [draw] is its
    source of random numbers. *)

From S2P Require Import Prelude Base Object ExpireDict.
From stdpp Require Import options.

(** [std::hash<std::string>]. *)
Class StringHash := string_hash : bytes -> Z.

Module Storage.
Import Text Object.

(** ** Data *)

Inductive SetCondition := kNone | kOnlyIfAbsent | kOnlyIfExists.
Inductive StoreOp := kNoop | kWrite | kErase.
Inductive StringPromotion := kAllow | kReject.

Record CacheEntry := mkEntry {
  value : CacheObject;
  last_access_time_ms : Z
}.

Record Storage := mkStorage {
  stores_ : list (gmap bytes CacheEntry);
  expire_dict_ : gmap bytes Z;
  dirty_counter_ : Z;
  max_entries_ : Z
}.

Record KVWithTTL := mkKV {
  kv_key : bytes;
  kv_value : CacheObject;
  kv_expire_time_ms : Z
}.

(** The order of one iteration over a shard. *)
Class StoreOrder := {
  store_items : gmap bytes CacheEntry -> list (bytes * CacheEntry);
  store_items_perm m : store_items m ≡ₚ map_to_list m
}.

Definition kDefaultShards : Z := 64.
Definition num_shards : nat := 64.
Definition kMaxEntries : Z := 2000000.

Definition new_storage : Storage := mkStorage (replicate num_shards ∅) ∅ 0 kMaxEntries.

Definition set_max_entries (n : Z) (s : Storage) : Storage :=
  mkStorage (stores_ s) (expire_dict_ s) (dirty_counter_ s) n.

(** [stores_[i]]. *)
Definition store_at (i : nat) (s : Storage) : gmap bytes CacheEntry := default ∅ (stores_ s !! i).

Definition with_store (i : nat) (m : gmap bytes CacheEntry) (s : Storage) : Storage :=
  mkStorage (<[i := m]> (stores_ s)) (expire_dict_ s) (dirty_counter_ s) (max_entries_ s).

Definition with_expire (d : gmap bytes Z) (s : Storage) : Storage :=
  mkStorage (stores_ s) d (dirty_counter_ s) (max_entries_ s).

(** [dirty_counter_.fetch_add(1)]. *)
Definition increment_dirty (s : Storage) : Storage :=
  mkStorage (stores_ s) (expire_dict_ s) ((dirty_counter_ s + 1) mod (uint64_max + 1))
    (max_entries_ s).

Definition reset_dirty_count (s : Storage) : Storage :=
  mkStorage (stores_ s) (expire_dict_ s) 0 (max_entries_ s).

(** One successful round of the compare-and-exchange. *)
Definition consume_dirty_count (saved_count : Z) (s : Storage) : Storage :=
  let current := dirty_counter_ s in
  let next := if saved_count <? current then current - saved_count else 0 in
  mkStorage (stores_ s) (expire_dict_ s) next (max_entries_ s).

(** ** Sizes and thresholds *)

Definition size_ (s : Storage) : Z :=
  foldl (fun total i => total + Z.of_nat (size (store_at i s))) 0 (seq 0 num_shards).

(** A product of a [double] and a constant [m * 2^-53], rounded to 53 bits,
    ties to even, and truncated: [static_cast<size_t>(double(n) * c)]. *)
Definition round53 (p : Z) : Z * Z :=
  let s := Z.log2 p + 1 - 53 in
  if s <=? 0 then (p, 0)
  else
    let q := Z.shiftr p s in
    let r := p - Z.shiftl q s in
    let half := Z.shiftl 1 (s - 1) in
    let up := (half <? r) || ((r =? half) && Z.odd q) in
    ((if up then q + 1 else q), s).

Definition scale (n m : Z) : Z :=
  let '(q1, s1) := round53 n in
  let '(q, s) := round53 (q1 * m) in
  Z.shiftr (Z.shiftl q (s + s1)) 53.

(** [kEvictThreshold] and [kEvictTargetRatio]: the doubles 0.9 and 0.6. *)
Definition kEvictThreshold : Z := 8106479329266893.
Definition kEvictTargetRatio : Z := 5404319552844595.

Definition threshold (s : Storage) : Z := scale (max_entries_ s) kEvictThreshold.
Definition target_size (s : Storage) : Z := scale (max_entries_ s) kEvictTargetRatio.

Section storage.
Context `{StringHash} `{StoreOrder}.

Definition get_shard_index (key : bytes) : nat := Z.to_nat (string_hash key mod kDefaultShards).

Definition shard_of (key : bytes) (s : Storage) : gmap bytes CacheEntry :=
  store_at (get_shard_index key) s.

Definition insert_entry (key : bytes) (e : CacheEntry) (s : Storage) : Storage :=
  with_store (get_shard_index key) (<[key := e]> (shard_of key s)) s.

Definition erase_entry (key : bytes) (s : Storage) : Storage :=
  with_store (get_shard_index key) (delete key (shard_of key s)) s.

Definition remove_expire (key : bytes) (s : Storage) : Storage :=
  with_expire (ExpireDict.remove key (expire_dict_ s)) s.

Definition is_expired (now : Z) (key : bytes) (s : Storage) : bool :=
  ExpireDict.is_expired now key (expire_dict_ s).

(** ** Eviction *)

(** The scan of one shard: the first expired key met, else the key with the
    smallest access time. *)
Fixpoint scan_victim (now : Z) (d : gmap bytes Z) (items : list (bytes * CacheEntry))
    (oldest_time : Z) (oldest : option bytes) : option bytes :=
  match items with
  | [] => oldest
  | (key, e) :: items =>
      let expire_at := ExpireDict.get_expire_time key d in
      if (0 <? expire_at) && (expire_at <=? now) then Some key
      else if last_access_time_ms e <? oldest_time
      then scan_victim now d items (last_access_time_ms e) (Some key)
      else scan_victim now d items oldest_time oldest
  end.

(** [evict_one]: [attempts] tries, each with the next draw from [k] on. The
    result is the victim, the number of draws used, the new state. *)
Fixpoint evict_tries (attempts : nat) (now : Z) (draw : rng) (k : nat) (s : Storage)
    : bytes * nat * Storage :=
  match attempts with
  | O => ([], k, s)
  | S attempts =>
      let shard := (draw k mod num_shards)%nat in
      let store := store_at shard s in
      match scan_victim now (expire_dict_ s) (store_items store) int64_max None with
      | None => evict_tries attempts now draw (S k) s
      | Some victim_key =>
          (victim_key, S k,
           remove_expire victim_key (with_store shard (delete victim_key store) s))
      end
  end.

Definition evict_one (now : Z) (draw : rng) (k : nat) (s : Storage) : bytes * nat * Storage :=
  evict_tries 8 now draw k s.

(** The eviction loop with [fuel] rounds left of [kMaxEvictPerCycle]. *)
Fixpoint evict_loop (fuel : nat) (now : Z) (draw : rng) (k : nat) (evicted_count target : Z)
    (s : Storage) : Storage :=
  match fuel with
  | O => s
  | S fuel =>
      let '(victim, k, s) := evict_one now draw k s in
      if bool_decide (victim = []) then s
      else
        let evicted_count := evicted_count + 1 in
        if (evicted_count mod 64 =? 0) && (size_ s <=? target) then s
        else evict_loop fuel now draw k evicted_count target s
  end.

Definition kMaxEvictPerCycle : nat := 1024.

Definition evict_if_needed (now : Z) (draw : rng) (s : Storage) : Storage :=
  if size_ s <? threshold s then s
  else evict_loop kMaxEvictPerCycle now draw 0 0 (target_size s) s.

(** ** Operations on a key *)

Definition del (key : bytes) (s : Storage) : bool * Storage :=
  let s := remove_expire key s in
  let erased := bool_decide (is_Some (shard_of key s !! key)) in
  let s := erase_entry key s in
  (erased, if erased : bool then increment_dirty s else s).

(** What [get] finds under the shared lock. *)
Inductive lookup_result := NotFound | Expired | Found (v : CacheObject).

Definition get_lookup (now : Z) (key : bytes) (s : Storage) : lookup_result * Storage :=
  match shard_of key s !! key with
  | None => (NotFound, s)
  | Some e =>
      if is_expired now key s then (Expired, s)
      else (Found (value e), insert_entry key (mkEntry (value e) now) s)
  end.

Definition get (now : Z) (key : bytes) (s : Storage) : option CacheObject * Storage :=
  match get_lookup now key s with
  | (NotFound, s) => (None, s)
  | (Expired, s) => (None, (del key s).2)
  | (Found v, s) => (Some v, s)
  end.

(** The writing operations check for eviction before they take the lock of
    the shard; what each does under the lock is its [_locked] part. *)
Definition set_locked (now : Z) (key : bytes) (v : CacheObject) (s : Storage) : Storage :=
  let s := remove_expire key s in
  increment_dirty (insert_entry key (mkEntry v now) s).

Definition set (now : Z) (draw : rng) (key : bytes) (v : CacheObject) (s : Storage) : Storage :=
  set_locked now key v (evict_if_needed now draw s).

(** An expired entry counts as absent and is erased on the spot. *)
Definition drop_expired (now : Z) (key : bytes) (s : Storage) : Storage :=
  match shard_of key s !! key with
  | Some _ => if is_expired now key s then remove_expire key (erase_entry key s) else s
  | None => s
  end.

(** [mutate]: [fn] gives what it asks the store to do, the object it modified
    and the result its caller captures. [None] is the return value false. *)
Definition mutate_locked {R} (now : Z) (key : bytes) (want_type : ObjectType)
    (fn : CacheObject -> StoreOp * CacheObject * R) (promote : StringPromotion) (s : Storage)
    : option R * Storage :=
  let s := drop_expired now key s in
  let it := shard_of key s !! key in
  let run (existed : bool) (obj : CacheObject) :=
    let '(op, obj, r) := fn obj in
    match op with
    | kNoop => (Some r, s)
    | kErase =>
        (Some r, if existed then increment_dirty (remove_expire key (erase_entry key s)) else s)
    | kWrite => (Some r, increment_dirty (insert_entry key (mkEntry obj now) s))
    end in
  match it with
  | Some e =>
      let current_type := type_ (value e) in
      let promotable :=
        bool_decide (current_type = STRING) &&
        (match promote with kAllow => true | kReject => false end) in
      if negb (bool_decide (current_type = want_type)) && negb promotable then (None, s)
      else run true (value e)
  | None => run false new_object
  end.

Definition mutate {R} (now : Z) (draw : rng) (key : bytes) (want_type : ObjectType)
    (fn : CacheObject -> StoreOp * CacheObject * R) (promote : StringPromotion) (s : Storage)
    : option R * Storage :=
  mutate_locked now key want_type fn promote (evict_if_needed now draw s).

Definition exist (now : Z) (key : bytes) (s : Storage) : bool :=
  if negb (bool_decide (is_Some (shard_of key s !! key))) then false
  else if is_expired now key s then false else true.

Definition clear (s : Storage) : Storage :=
  with_expire (ExpireDict.clear_all (expire_dict_ s))
    (foldl (fun s i => with_store i ∅ s) s (seq 0 num_shards)).

Definition get_all_objects (now : Z) (s : Storage) : list (bytes * CacheObject) :=
  seq 0 num_shards ≫= fun i =>
    (fun kv : bytes * CacheEntry => (kv.1, value kv.2)) <$>
      List.filter (fun kv => negb (is_expired now kv.1 s)) (store_items (store_at i s)).

Definition get_all_objects_with_ttl (now : Z) (s : Storage) : list KVWithTTL :=
  seq 0 num_shards ≫= fun i =>
    omap (fun kv : bytes * CacheEntry =>
      let expire_time_ms := ExpireDict.get_expire_time kv.1 (expire_dict_ s) in
      if (0 <? expire_time_ms) && (expire_time_ms <=? now) then None
      else Some (mkKV kv.1 (value kv.2) expire_time_ms)) (store_items (store_at i s)).

Definition set_expire (now : Z) (key : bytes) (ttl_ms : Z) (s : Storage) : Storage :=
  if bool_decide (key = []) || (ttl_ms <=? 0) then s
  else increment_dirty (with_expire (ExpireDict.set now key ttl_ms (expire_dict_ s)) s).

(** [set_conditional]: whether it wrote, and the value that was there. *)
Definition set_conditional_locked (now : Z) (key : bytes) (v : CacheObject)
    (condition : SetCondition) (ttl_ms : Z) (keep_ttl : bool) (s : Storage)
    : bool * option CacheObject * Storage :=
  let s := drop_expired now key s in
  let previous := value <$> shard_of key s !! key in
  let present := bool_decide (is_Some previous) in
  match condition, present with
  | kOnlyIfAbsent, true => (false, previous, s)
  | kOnlyIfExists, false => (false, previous, s)
  | _, _ =>
      let kept_expire_at :=
        if keep_ttl then ExpireDict.get_expire_time key (expire_dict_ s) else -1 in
      let s := increment_dirty (insert_entry key (mkEntry v now) s) in
      let s :=
        if keep_ttl then
          if 0 <? kept_expire_at
          then with_expire (ExpireDict.set_expire_time key kept_expire_at (expire_dict_ s)) s
          else remove_expire key s
        else if 0 <? ttl_ms
        then with_expire
               (ExpireDict.set_expire_time key (ExpireDict.sat_add now ttl_ms) (expire_dict_ s)) s
        else remove_expire key s in
      (true, previous, s)
  end.

Definition set_conditional (now : Z) (draw : rng) (key : bytes) (v : CacheObject)
    (condition : SetCondition) (ttl_ms : Z) (keep_ttl : bool) (s : Storage)
    : bool * option CacheObject * Storage :=
  set_conditional_locked now key v condition ttl_ms keep_ttl (evict_if_needed now draw s).

Definition set_with_expire_locked (now : Z) (key : bytes) (v : CacheObject) (ttl_ms : Z)
    (s : Storage) : Storage :=
  let s :=
    if 0 <? ttl_ms
    then with_expire
           (ExpireDict.set_expire_time key (ExpireDict.sat_add now ttl_ms) (expire_dict_ s)) s
    else remove_expire key s in
  increment_dirty (insert_entry key (mkEntry v now) s).

Definition set_with_expire (now : Z) (draw : rng) (key : bytes) (v : CacheObject) (ttl_ms : Z)
    (s : Storage) : Storage :=
  set_with_expire_locked now key v ttl_ms (evict_if_needed now draw s).

(** [incrby]: the new value, or [None] for [nullopt]. *)
Definition incrby_locked (now : Z) (key : bytes) (delta : Z) (s : Storage)
    : option Z * Storage :=
  let s := if is_expired now key s then remove_expire key (erase_entry key s) else s in
  let add (val : Z) :=
    if ((0 <? delta) && (int64_max - delta <? val)) ||
       ((delta <? 0) && (val <? int64_min - delta))
    then (None, s)
    else
      let val := val + delta in
      (Some val,
       increment_dirty (insert_entry key (mkEntry (object_of_string (to_string val)) now) s)) in
  match shard_of key s !! key with
  | None => add 0
  | Some e =>
      match get_string (value e) with
      | None => (None, s)
      | Some str_val =>
          match IntParse.parse_ll_strict str_val with
          | None => (None, s)
          | Some parsed => add parsed
          end
      end
  end.

Definition incrby (now : Z) (draw : rng) (key : bytes) (delta : Z) (s : Storage)
    : option Z * Storage :=
  incrby_locked now key delta (evict_if_needed now draw s).

End storage.

End Storage.
