(* ===== verification/StorageSpec.v ===== *)
(** * What the store guarantees

    [live now s] is the abstract state: the keys a client can see at time
    [now], with their values and deadlines. Every operation is an update of it;
    the shards, the lazy deletion and the access times do not show. *)

From S2P Require Import Prelude Base Object ExpireDict Storage.
From stdpp Require Import options.

Module StorageSpec.
Import Text Object Storage.

Section spec.
Context `{StringHash} `{StoreOrder}.

(** ** The state by key *)

Definition entry (s : Storage) (k : bytes) : option CacheEntry := shard_of k s !! k.
Definition deadline (s : Storage) (k : bytes) : option Z := expire_dict_ s !! k.

Record storage_wf (s : Storage) : Prop := {
  swf_length : length (stores_ s) = num_shards;
  (** Every key is in the shard its hash selects. *)
  swf_shard i m k e : stores_ s !! i = Some m -> m !! k = Some e -> i = get_shard_index k;
  (** Only keys of the store have a deadline, and it is after the epoch. *)
  swf_deadline k t : deadline s k = Some t -> is_Some (entry s k) /\ 0 < t <= int64_max
}.

Lemma get_shard_index_lt k : (get_shard_index k < num_shards)%nat.
Proof.
  unfold get_shard_index, kDefaultShards, num_shards.
  pose proof (Z.mod_pos_bound (string_hash k) 64). lia.
Qed.

Lemma stores_shard s k :
  length (stores_ s) = num_shards -> stores_ s !! get_shard_index k = Some (shard_of k s).
Proof.
  intros Hl. unfold shard_of, store_at.
  destruct (lookup_lt_is_Some_2 (stores_ s) (get_shard_index k)) as [m Hm].
  { rewrite Hl. apply get_shard_index_lt. }
  by rewrite Hm.
Qed.

Lemma store_at_with_store i j m s :
  length (stores_ s) = num_shards -> (i < num_shards)%nat ->
  store_at j (with_store i m s) = if decide (j = i) then m else store_at j s.
Proof.
  intros Hl Hi. unfold store_at, with_store. cbn [stores_]. case_decide as E; subst.
  - by rewrite list_lookup_insert_eq by lia.
  - by rewrite list_lookup_insert_ne by done.
Qed.

(** ** How the primitive updates act by key *)

Lemma entry_with_store_shard k m k' s :
  length (stores_ s) = num_shards ->
  entry (with_store (get_shard_index k) m s) k' =
  if decide (get_shard_index k' = get_shard_index k) then m !! k' else entry s k'.
Proof.
  intros Hl. unfold entry, shard_of.
  rewrite store_at_with_store by (done || apply get_shard_index_lt). by case_decide.
Qed.

Lemma entry_insert k e s k' :
  length (stores_ s) = num_shards ->
  entry (insert_entry k e s) k' = if decide (k' = k) then Some e else entry s k'.
Proof.
  intros Hl. unfold insert_entry. rewrite entry_with_store_shard by done.
  destruct (decide (k' = k)) as [->|Hne].
  - by rewrite decide_True, lookup_insert_eq by done.
  - case_decide as E; [|done]. rewrite lookup_insert_ne by done. unfold entry, shard_of.
    by rewrite E.
Qed.

Lemma entry_erase k s k' :
  length (stores_ s) = num_shards ->
  entry (erase_entry k s) k' = if decide (k' = k) then None else entry s k'.
Proof.
  intros Hl. unfold erase_entry. rewrite entry_with_store_shard by done.
  destruct (decide (k' = k)) as [->|Hne].
  - by rewrite decide_True, lookup_delete_eq by done.
  - case_decide as E; [|done]. rewrite lookup_delete_ne by done. unfold entry, shard_of.
    by rewrite E.
Qed.

Lemma entry_remove_expire k s k' : entry (remove_expire k s) k' = entry s k'.
Proof. done. Qed.

Lemma entry_increment_dirty s k : entry (increment_dirty s) k = entry s k.
Proof. done. Qed.

Lemma entry_with_expire d s k : entry (with_expire d s) k = entry s k.
Proof. done. Qed.

Lemma deadline_remove_expire k s k' :
  deadline (remove_expire k s) k' = if decide (k' = k) then None else deadline s k'.
Proof.
  unfold deadline, remove_expire, ExpireDict.remove. cbn [expire_dict_ with_expire].
  case_decide; subst; [by rewrite lookup_delete_eq|by rewrite lookup_delete_ne].
Qed.

Lemma deadline_set_time k t s k' :
  deadline (with_expire (ExpireDict.set_expire_time k t (expire_dict_ s)) s) k' =
  if decide (k' = k) then Some t else deadline s k'.
Proof.
  unfold deadline, ExpireDict.set_expire_time. cbn [expire_dict_ with_expire].
  case_decide; subst; [by rewrite lookup_insert_eq|by rewrite lookup_insert_ne].
Qed.

Lemma deadline_insert k e s k' : deadline (insert_entry k e s) k' = deadline s k'.
Proof. done. Qed.

Lemma deadline_erase k s k' : deadline (erase_entry k s) k' = deadline s k'.
Proof. done. Qed.

Lemma deadline_increment_dirty s k : deadline (increment_dirty s) k = deadline s k.
Proof. done. Qed.

Lemma length_with_store i m s : length (stores_ (with_store i m s)) = length (stores_ s).
Proof. apply length_insert. Qed.

(** ** Preservation of the invariant *)

Lemma wf_with_store s i m :
  storage_wf s -> (i < num_shards)%nat ->
  (forall k e, m !! k = Some e -> i = get_shard_index k) ->
  (forall k t, deadline s k = Some t -> is_Some (entry (with_store i m s) k)) ->
  storage_wf (with_store i m s).
Proof.
  intros Hwf Hi Hm Hd. split.
  - rewrite length_with_store. apply Hwf.
  - intros j m' k e Hj Hk. cbn [stores_ with_store] in Hj.
    destruct (decide (j = i)) as [->|].
    + rewrite list_lookup_insert_eq in Hj by (rewrite (swf_length s Hwf); done).
      simplify_eq. by apply Hm in Hk.
    + rewrite list_lookup_insert_ne in Hj by done. by eapply swf_shard.
  - intros k t Hk. split; [by eapply Hd|]. by eapply swf_deadline.
Qed.

Lemma wf_insert k e s : storage_wf s -> storage_wf (insert_entry k e s).
Proof.
  intros Hwf. pose proof (swf_length s Hwf) as Hl.
  apply wf_with_store; [done|apply get_shard_index_lt|..].
  - intros k' e' Hk. destruct (decide (k' = k)) as [->|]; [done|].
    rewrite lookup_insert_ne in Hk by done.
    eapply (swf_shard s Hwf); [by apply stores_shard|done].
  - intros k' t Hk. fold (insert_entry k e s). rewrite entry_insert by done.
    case_decide; [done|]. by eapply swf_deadline.
Qed.

Lemma wf_erase k s : storage_wf s -> deadline s k = None -> storage_wf (erase_entry k s).
Proof.
  intros Hwf Hd. pose proof (swf_length s Hwf) as Hl.
  apply wf_with_store; [done|apply get_shard_index_lt|..].
  - intros k' e' [_ Hk]%lookup_delete_Some.
    eapply (swf_shard s Hwf); [by apply stores_shard|done].
  - intros k' t Hk. fold (erase_entry k s). rewrite entry_erase by done.
    case_decide; [congruence|]. by eapply swf_deadline.
Qed.

Lemma wf_remove_expire k s : storage_wf s -> storage_wf (remove_expire k s).
Proof.
  intros Hwf. split; [apply Hwf|apply Hwf|].
  intros k' t. rewrite deadline_remove_expire. case_decide; [done|]. apply Hwf.
Qed.

Lemma wf_increment_dirty s : storage_wf s -> storage_wf (increment_dirty s).
Proof. intros Hwf. split; apply Hwf. Qed.

Lemma wf_set_time k t s :
  storage_wf s -> is_Some (entry s k) -> 0 < t <= int64_max ->
  storage_wf (with_expire (ExpireDict.set_expire_time k t (expire_dict_ s)) s).
Proof.
  intros Hwf Hk Ht. split; [apply Hwf|apply Hwf|].
  intros k' t'. rewrite deadline_set_time. case_decide; subst; [by intros [= <-]|apply Hwf].
Qed.

Lemma remove_erase_comm k s : remove_expire k (erase_entry k s) = erase_entry k (remove_expire k s).
Proof. done. Qed.

(** Erasing a key with its deadline. *)
Lemma wf_drop k s : storage_wf s -> storage_wf (remove_expire k (erase_entry k s)).
Proof.
  intros Hwf. rewrite remove_erase_comm. apply wf_erase; [by apply wf_remove_expire|].
  rewrite deadline_remove_expire. by rewrite decide_True.
Qed.
#[local] Hint Resolve wf_insert wf_remove_expire wf_increment_dirty wf_drop : cc_db.

(** ** The abstract state *)

Definition live (now : Z) (s : Storage) (k : bytes) : option (CacheObject * option Z) :=
  match entry s k with
  | Some e => if is_expired now k s then None else Some (value e, deadline s k)
  | None => None
  end.

Lemma is_expired_deadline now k s :
  is_expired now k s = match deadline s k with Some t => t <=? now | None => false end.
Proof. done. Qed.

(** [live] depends on the entry and the deadline of the key only. *)
Lemma live_cong now s s' k :
  entry s' k = entry s k -> deadline s' k = deadline s k -> live now s' k = live now s k.
Proof. unfold live. rewrite !is_expired_deadline. by intros -> ->. Qed.

Lemma live_present now s k e :
  entry s k = Some e -> is_expired now k s = false -> live now s k = Some (value e, deadline s k).
Proof. unfold live. by intros -> ->. Qed.

Lemma live_absent now s k : entry s k = None -> live now s k = None.
Proof. unfold live. by intros ->. Qed.

(** ** Eviction *)

Definition expired_at (now : Z) (d : gmap bytes Z) (key : bytes) : bool :=
  (0 <? ExpireDict.get_expire_time key d) && (ExpireDict.get_expire_time key d <=? now).

(** The scan returns an expired key, or, when it meets none, the least recently
    used of the entries it saw and of the candidate it started with. *)
Lemma scan_victim_spec now d items ot o k :
  scan_victim now d items ot o = Some k ->
  (exists e, (k, e) ∈ items /\ expired_at now d k = true) \/
  (Forall (fun kv => expired_at now d kv.1 = false) items /\
   ((o = Some k /\ Forall (fun kv => ot <= last_access_time_ms kv.2) items) \/
    exists e, (k, e) ∈ items /\ last_access_time_ms e < ot /\
      Forall (fun kv => last_access_time_ms e <= last_access_time_ms kv.2) items)).
Proof.
  revert ot o; induction items as [|[k0 e0] items IH]; intros ot o; cbn [scan_victim].
  { intros ->. right. split; [done|]. by left. }
  fold (expired_at now d k0). destruct (expired_at now d k0) eqn:He.
  { intros [= <-]. left. exists e0. split; [left|done]. }
  destruct (Z.ltb_spec (last_access_time_ms e0) ot) as [Hlt|Hge]; intros Hs%IH.
  - destruct Hs as [(e & ? & ?)|(Hn & [[[= <-] Hall]|(e & ? & ? & Hall)])].
    + left. exists e. split; [by right|done].
    + right. split; [by constructor|]. right. exists e0.
      split_and!; [left|done|by constructor].
    + right. split; [by constructor|]. right. exists e.
      split_and!; [by right|lia|]. constructor; [simpl; lia|done].
  - destruct Hs as [(e & ? & ?)|(Hn & [[-> Hall]|(e & ? & ? & Hall)])].
    + left. exists e. split; [by right|done].
    + right. split; [by constructor|]. left. split; [done|by constructor].
    + right. split; [by constructor|]. right. exists e.
      split_and!; [by right|done|]. constructor; [simpl; lia|done].
Qed.

Lemma scan_victim_in now d items k :
  scan_victim now d items int64_max None = Some k -> exists e, (k, e) ∈ items.
Proof.
  intros [(e & ? & _)|(_ & [[? _]|(e & ? & _)])]%scan_victim_spec; [by exists e|done|by exists e].
Qed.

(** What eviction may do: remove keys together with their deadlines. *)
Definition evicts (s s' : Storage) : Prop :=
  max_entries_ s' = max_entries_ s /\ dirty_counter_ s' = dirty_counter_ s /\
  forall k, (entry s' k = entry s k /\ deadline s' k = deadline s k) \/
            (entry s' k = None /\ deadline s' k = None).

#[global] Instance evicts_refl : Reflexive evicts.
Proof. intros s. split_and!; [done..|]. by left. Qed.

#[global] Instance evicts_trans : Transitive evicts.
Proof.
  intros s1 s2 s3 (Hm1 & Hd1 & H1) (Hm2 & Hd2 & H2). split_and!; [congruence..|].
  intros k. destruct (H2 k) as [[-> ->]|]; [apply H1|by right].
Qed.

Lemma evicts_drop k s : storage_wf s -> evicts s (remove_expire k (erase_entry k s)).
Proof.
  intros Hwf. split_and!; [done..|]. intros k'.
  rewrite entry_remove_expire, entry_erase, deadline_remove_expire, deadline_erase by apply Hwf.
  case_decide; [by right|by left].
Qed.

Lemma evict_tries_spec n now draw k s :
  storage_wf s -> let '(_, _, s') := evict_tries n now draw k s in storage_wf s' /\ evicts s s'.
Proof.
  intros Hwf. revert k. induction n as [|n IH]; intros k; cbn [evict_tries]; [done|].
  destruct (scan_victim _ _ _ _ _) as [v|] eqn:Hv; [|apply IH].
  set (i := (draw k mod num_shards)%nat) in *.
  assert (i < num_shards)%nat as Hi by (apply Nat.mod_upper_bound; done).
  apply scan_victim_in in Hv as [e He]. rewrite store_items_perm in He.
  apply elem_of_map_to_list in He.
  assert (i = get_shard_index v) as ->.
  { eapply (swf_shard s Hwf); [|exact He]. unfold store_at.
    destruct (lookup_lt_is_Some_2 (stores_ s) i) as [m Hm]; [by rewrite (swf_length s Hwf)|].
    by rewrite Hm. }
  split; [by apply wf_drop|by apply evicts_drop].
Qed.

Lemma evict_loop_spec fuel now draw k c t s :
  storage_wf s -> storage_wf (evict_loop fuel now draw k c t s) /\
                  evicts s (evict_loop fuel now draw k c t s).
Proof.
  revert k c s; induction fuel as [|fuel IH]; intros k c s Hwf; cbn [evict_loop]; [done|].
  unfold evict_one. pose proof (evict_tries_spec 8 now draw k s Hwf) as Ht.
  destruct (evict_tries 8 now draw k s) as [[v k'] s']. destruct Ht as [Hwf' He].
  case_bool_decide; [done|]. destruct (_ && _); [done|].
  destruct (IH k' (c + 1) s' Hwf') as [? ?]. split; [done|]. by transitivity s'.
Qed.

Lemma evict_if_needed_spec now draw s :
  storage_wf s -> storage_wf (evict_if_needed now draw s) /\ evicts s (evict_if_needed now draw s).
Proof.
  intros Hwf. unfold evict_if_needed. destruct (_ <? _); [done|]. by apply evict_loop_spec.
Qed.

Lemma evict_below_threshold now draw s :
  size_ s < threshold s -> evict_if_needed now draw s = s.
Proof. intros Hs. unfold evict_if_needed. by rewrite (proj2 (Z.ltb_lt _ _) Hs). Qed.

Lemma evict_length now draw s :
  storage_wf s -> length (stores_ (evict_if_needed now draw s)) = num_shards.
Proof. intros Hwf. by apply evict_if_needed_spec. Qed.
(** ** The operations on the abstract state *)

Definition cell : Type := option (CacheObject * option Z).

Definition upd (f : bytes -> cell) (k : bytes) (x : cell) (k' : bytes) : cell :=
  if decide (k' = k) then x else f k'.

Lemma upd_same f k x : upd f k x k = x.
Proof. unfold upd. by rewrite decide_True. Qed.

Lemma upd_id now s k k' : upd (live now s) k (live now s k) k' = live now s k'.
Proof. unfold upd. case_decide; by subst. Qed.

(** An operation of key [k] that leaves [k] with entry [eo] and deadline [dl]
    and touches no other key acts on the abstract state as an update. *)
Lemma live_upd now s s' k x :
  (forall k', k' <> k -> entry s' k' = entry s k' /\ deadline s' k' = deadline s k') ->
  live now s' k = x -> forall k', live now s' k' = upd (live now s) k x k'.
Proof.
  intros Ho Hk k'. unfold upd. case_decide as E; [by subst|].
  destruct (Ho k' E) as [? ?]. by apply live_cong.
Qed.

Ltac by_key :=
  repeat (rewrite ?entry_increment_dirty, ?entry_with_expire, ?entry_remove_expire,
    ?deadline_increment_dirty, ?deadline_insert, ?deadline_erase, ?deadline_remove_expire,
    ?deadline_set_time, ?decide_True, ?decide_False by done);
  rewrite ?entry_insert, ?entry_erase by (assumption || (simpl; assumption)).

(** After [drop_expired] a key has an entry exactly when it is visible, and a
    key without entry has no deadline. *)
Lemma drop_expired_spec now k s :
  storage_wf s ->
  storage_wf (drop_expired now k s) /\
  (forall k', live now (drop_expired now k s) k' = live now s k') /\
  (forall k', k' <> k -> entry (drop_expired now k s) k' = entry s k' /\
                         deadline (drop_expired now k s) k' = deadline s k') /\
  match live now s k with
  | Some (o, dl) =>
      (exists t, entry (drop_expired now k s) k = Some (mkEntry o t)) /\
      deadline (drop_expired now k s) k = dl /\ is_expired now k (drop_expired now k s) = false
  | None => entry (drop_expired now k s) k = None /\ deadline (drop_expired now k s) k = None
  end.
Proof.
  intros Hwf. pose proof (swf_length s Hwf) as Hl. unfold drop_expired.
  fold (entry s k). unfold live. destruct (entry s k) as [e|] eqn:He.
  - destruct (is_expired now k s) eqn:Hx.
    + split; [by apply wf_drop|]. split_and!.
      * intros k'. rewrite entry_remove_expire, entry_erase by done.
        rewrite is_expired_deadline, deadline_remove_expire, deadline_erase.
        case_decide; subst; [by rewrite He, Hx|]. by rewrite <-is_expired_deadline.
      * intros k' Hne. rewrite entry_remove_expire, entry_erase, deadline_remove_expire by done.
        by rewrite !decide_False.
      * rewrite entry_remove_expire, entry_erase by done. by rewrite decide_True.
      * rewrite deadline_remove_expire. by rewrite decide_True.
    + split_and!; [done..| |done|done]. destruct e as [v t]. by exists t.
  - split_and!; [done..|]. destruct (deadline s k) as [t|] eqn:Hd; [|done].
    apply (swf_deadline s Hwf) in Hd as [[e Hc] _]. congruence.
Qed.

Lemma set_live now k v s :
  storage_wf s ->
  storage_wf (set_locked now k v s) /\
  forall k', live now (set_locked now k v s) k' = upd (live now s) k (Some (v, None)) k'.
Proof.
  intros Hwf. pose proof (swf_length _ Hwf) as Hl. unfold set_locked. split; [auto with cc_db|].
  apply live_upd.
  - intros k' Hne. rewrite entry_increment_dirty, entry_insert, decide_False by done.
    rewrite deadline_increment_dirty, deadline_insert, deadline_remove_expire. by rewrite decide_False.
  - unfold live. rewrite is_expired_deadline, entry_increment_dirty, entry_insert by done.
    rewrite deadline_increment_dirty, deadline_insert, deadline_remove_expire.
    by rewrite !decide_True.
Qed.

Lemma del_live now k s :
  storage_wf s ->
  storage_wf (del k s).2 /\
  (del k s).1 = bool_decide (is_Some (entry s k)) /\
  forall k', live now (del k s).2 k' = upd (live now s) k None k'.
Proof.
  intros Hwf. pose proof (swf_length _ Hwf) as Hl. unfold del. cbn [fst snd].
  fold (entry (remove_expire k s) k). rewrite entry_remove_expire, <-remove_erase_comm.
  assert (storage_wf (remove_expire k (erase_entry k s))) by auto with cc_db.
  split; [case_bool_decide; auto with cc_db|]. split; [done|].
  assert (forall k', live now (remove_expire k (erase_entry k s)) k' = upd (live now s) k None k') as Hu.
  { apply live_upd.
    - intros k' Hne. rewrite entry_remove_expire, entry_erase, deadline_remove_expire by done.
      by rewrite !decide_False.
    - apply live_absent. rewrite entry_remove_expire, entry_erase by done.
      by rewrite decide_True. }
  case_bool_decide; apply Hu.
Qed.

Lemma get_live now k s :
  storage_wf s ->
  storage_wf (get now k s).2 /\
  (get now k s).1 = fst <$> live now s k /\
  forall k', live now (get now k s).2 k' = live now s k'.
Proof.
  intros Hwf. pose proof (swf_length _ Hwf) as Hl. unfold get, get_lookup. fold (entry s k).
  destruct (entry s k) as [e|] eqn:He.
  - destruct (is_expired now k s) eqn:Hx; cbn [fst snd].
    + destruct (del_live now k s Hwf) as (? & _ & Hd). split; [done|].
      assert (live now s k = None) as Hn by (unfold live; by rewrite He, Hx).
      rewrite Hn. split; [done|]. intros k'. rewrite Hd, <-Hn. apply upd_id.
    + split; [auto with cc_db|]. rewrite (live_present now s k e) by done. split; [done|].
      intros k'. unfold live. rewrite entry_insert by done. case_decide; [subst|done].
      rewrite He. by rewrite is_expired_deadline, deadline_insert, <-is_expired_deadline, Hx.
  - cbn [fst snd]. by rewrite (live_absent now s k He).
Qed.

Lemma exist_live now k s : exist now k s = bool_decide (is_Some (live now s k)).
Proof.
  unfold exist, live. fold (entry s k). destruct (entry s k) as [e|]; [|done].
  rewrite bool_decide_eq_true_2 by done. simpl. by destruct (is_expired now k s).
Qed.
(** Writing an entry over a key that is not expired keeps its deadline. *)
Lemma write_live now k e s :
  storage_wf s -> is_expired now k s = false ->
  forall k', live now (increment_dirty (insert_entry k e s)) k' =
             upd (live now s) k (Some (value e, deadline s k)) k'.
Proof.
  intros Hwf Hx. pose proof (swf_length _ Hwf) as Hl. apply live_upd.
  - intros k' Hne. by rewrite entry_increment_dirty, entry_insert, decide_False.
  - rewrite (live_present now _ k e); [done|..].
    + by rewrite entry_increment_dirty, entry_insert, decide_True.
    + exact Hx.
Qed.

Lemma drop_live now k s :
  storage_wf s -> forall k', live now (remove_expire k (erase_entry k s)) k' = upd (live now s) k None k'.
Proof.
  intros Hwf. pose proof (swf_length _ Hwf) as Hl. apply live_upd.
  - intros k' Hne. rewrite entry_remove_expire, entry_erase, deadline_remove_expire by done.
    by rewrite !decide_False.
  - apply live_absent. by rewrite entry_remove_expire, entry_erase, decide_True.
Qed.

Lemma not_expired_absent now k s : deadline s k = None -> is_expired now k s = false.
Proof. rewrite is_expired_deadline. by intros ->. Qed.

(** [mutate] on one cell: a wrong type is refused; otherwise the function runs
    on the value (a fresh object for an absent key) and its wish is carried out.
    The deadline stays with the key. *)
Definition a_mutate {R} (want : ObjectType) (promote : StringPromotion)
    (fn : CacheObject -> StoreOp * CacheObject * R) (c : cell) : option R * cell :=
  match c with
  | Some (o, dl) =>
      let promotable := match promote with kAllow => bool_decide (type_ o = STRING) | kReject => false end in
      if negb (bool_decide (type_ o = want)) && negb promotable then (None, c)
      else
        let '(op, o', r) := fn o in
        (Some r, match op with kNoop => c | kErase => None | kWrite => Some (o', dl) end)
  | None =>
      let '(op, o', r) := fn new_object in
      (Some r, match op with kWrite => Some (o', None) | _ => None end)
  end.

Lemma mutate_live {R} now k want (fn : CacheObject -> StoreOp * CacheObject * R) promote s :
  storage_wf s ->
  let r := mutate_locked now k want fn promote s in
  storage_wf r.2 /\ r.1 = (a_mutate want promote fn (live now s k)).1 /\
  forall k', live now r.2 k' = upd (live now s) k (a_mutate want promote fn (live now s k)).2 k'.
Proof.
  intros Hwf. unfold mutate_locked.
  destruct (drop_expired_spec now k s Hwf) as (Hwf1 & Hlive & _ & Hk).
  set (s1 := drop_expired now k s) in *. clearbody s1. fold (entry s1 k).
  assert (forall f k', upd (live now s1) k f k' = upd (live now s) k f k') as Hu
    by (intros; unfold upd; case_decide; auto).
  unfold a_mutate. destruct (live now s k) as [[o dl]|] eqn:Ho.
  - destruct Hk as ([t Hent] & Hdl & Hx). rewrite Hent. cbn [value].
    assert (bool_decide (type_ o = STRING) && (match promote with kAllow => true | kReject => false end)
      = match promote with kAllow => bool_decide (type_ o = STRING) | kReject => false end) as ->
      by (destruct promote; by rewrite ?andb_true_r, ?andb_false_r).
    destruct (negb _ && negb _).
    { cbn [fst snd]. split_and!; [done..|]. intros k'. rewrite Hlive, <-Ho. by rewrite upd_id. }
    destruct (fn o) as [[op o'] r]. destruct op; cbn [fst snd].
    + split_and!; [done..|]. intros k'. rewrite Hlive, <-Ho. by rewrite upd_id.
    + split_and!; [auto with cc_db|done|]. intros k'. rewrite write_live by done.
      by rewrite Hdl, Hu.
    + split_and!; [auto with cc_db|done|]. intros k'. rewrite <-Hu. by apply drop_live.
  - destruct Hk as [Hent Hdl]. rewrite Hent.
    assert (forall k', live now s1 k' = upd (live now s) k None k') as Hsame.
    { intros k'. rewrite <-Ho. by rewrite upd_id. }
    destruct (fn new_object) as [[op o'] r]. destruct op; cbn [fst snd]; [done| |done].
    split_and!; [auto with cc_db|done|]. intros k'.
    rewrite write_live by (done || by apply not_expired_absent). by rewrite Hdl, Hu.
Qed.

(** The deadline a relative time in milliseconds gives. *)
Definition deadline_of (now ttl_ms : Z) : option Z :=
  if 0 <? ttl_ms then Some (ExpireDict.sat_add now ttl_ms) else None.

Definition a_set_conditional (now : Z) (v : CacheObject) (condition : SetCondition)
    (ttl_ms : Z) (keep_ttl : bool) (c : cell) : bool * option CacheObject * cell :=
  let previous := fst <$> c in
  match condition, c with
  | kOnlyIfAbsent, Some _ => (false, previous, c)
  | kOnlyIfExists, None => (false, previous, c)
  | _, _ =>
      (true, previous,
       Some (v, if keep_ttl then c ≫= snd else deadline_of now ttl_ms))
  end.

Lemma sat_add_ok now ms :
  0 <= now < int64_max -> 0 < ms ->
  0 < ExpireDict.sat_add now ms <= int64_max /\ (ExpireDict.sat_add now ms <=? now) = false.
Proof. unfold ExpireDict.sat_add. intros. destruct (Z.ltb_spec (int64_max - now) ms); lia. Qed.

(** A write with a new deadline. *)
Lemma write_deadline_live now k v ms s :
  storage_wf s -> 0 <= now < int64_max ->
  let s1 := increment_dirty (insert_entry k (mkEntry v now) s) in
  let s2 := if 0 <? ms
            then with_expire (ExpireDict.set_expire_time k (ExpireDict.sat_add now ms) (expire_dict_ s1)) s1
            else remove_expire k s1 in
  storage_wf s2 /\
  forall k', live now s2 k' = upd (live now s) k (Some (v, deadline_of now ms)) k'.
Proof.
  intros Hwf Hnow s1. pose proof (swf_length _ Hwf) as Hl.
  assert (storage_wf s1) as Hwf1 by (unfold s1; auto with cc_db).
  assert (forall k', entry s1 k' = if decide (k' = k) then Some (mkEntry v now) else entry s k') as He
    by (intros; by apply entry_insert).
  unfold deadline_of. destruct (Z.ltb_spec 0 ms).
  - destruct (sat_add_ok now ms) as [Hb Hx]; [done..|]. split.
    + apply wf_set_time; [done| |done]. rewrite He. by rewrite decide_True.
    + apply live_upd.
      * intros k' Hne. rewrite entry_with_expire, He, deadline_set_time.
        by rewrite !decide_False.
      * rewrite (live_present now _ k (mkEntry v now)).
        -- rewrite deadline_set_time. by rewrite decide_True.
        -- rewrite entry_with_expire, He. by rewrite decide_True.
        -- rewrite is_expired_deadline, deadline_set_time. by rewrite decide_True.
  - split; [auto with cc_db|]. apply live_upd.
    + intros k' Hne. rewrite entry_remove_expire, He, deadline_remove_expire.
      by rewrite !decide_False.
    + rewrite (live_present now _ k (mkEntry v now)).
      * rewrite deadline_remove_expire. by rewrite decide_True.
      * rewrite entry_remove_expire, He. by rewrite decide_True.
      * rewrite is_expired_deadline, deadline_remove_expire. by rewrite decide_True.
Qed.

Lemma set_with_expire_live now k v ms s :
  storage_wf s -> 0 <= now < int64_max ->
  storage_wf (set_with_expire_locked now k v ms s) /\
  forall k', live now (set_with_expire_locked now k v ms s) k' =
             upd (live now s) k (Some (v, deadline_of now ms)) k'.
Proof.
  intros Hwf Hnow. pose proof (write_deadline_live now k v ms s Hwf Hnow) as Hw.
  unfold set_with_expire_locked. destruct (0 <? ms); exact Hw.
Qed.

(** Keeping the deadline. *)
Lemma write_keep_live now k v s :
  storage_wf s -> is_expired now k s = false ->
  let kept := ExpireDict.get_expire_time k (expire_dict_ s) in
  let s1 := increment_dirty (insert_entry k (mkEntry v now) s) in
  let s2 := if 0 <? kept
            then with_expire (ExpireDict.set_expire_time k kept (expire_dict_ s1)) s1
            else remove_expire k s1 in
  storage_wf s2 /\
  forall k', live now s2 k' = upd (live now s) k (Some (v, deadline s k)) k'.
Proof.
  intros Hwf Hx kept s1. pose proof (swf_length _ Hwf) as Hl.
  assert (storage_wf s1) as Hwf1 by (unfold s1; auto with cc_db).
  assert (is_Some (entry s1 k)) as He1
    by (unfold s1; rewrite entry_increment_dirty, entry_insert, decide_True by done; done).
  assert (forall s2, (forall k', entry s2 k' = entry s1 k' /\ deadline s2 k' = deadline s k') ->
    forall k', live now s2 k' = upd (live now s) k (Some (v, deadline s k)) k') as Hs2.
  { intros s2 H2 k'. rewrite <-(write_live now k (mkEntry v now) s Hwf Hx).
    by apply live_cong; apply H2. }
  unfold kept, ExpireDict.get_expire_time. fold (deadline s k).
  destruct (deadline s k) as [t|] eqn:Hd.
  - pose proof (proj2 (swf_deadline s Hwf k t Hd)) as Ht.
    rewrite (proj2 (Z.ltb_lt 0 t)) by lia. split; [by apply wf_set_time|].
    apply Hs2. intros k'. split; [done|]. rewrite deadline_set_time.
    case_decide; [by subst|done].
  - cbn. split; [auto with cc_db|]. apply Hs2. intros k'. split; [done|].
    rewrite deadline_remove_expire. case_decide; [by subst|done].
Qed.
Lemma set_conditional_live now k v c ms keep s :
  storage_wf s -> 0 <= now < int64_max ->
  let r := set_conditional_locked now k v c ms keep s in
  let a := a_set_conditional now v c ms keep (live now s k) in
  storage_wf r.2 /\ r.1 = a.1 /\ forall k', live now r.2 k' = upd (live now s) k a.2 k'.
Proof.
  intros Hwf Hnow. unfold set_conditional_locked, a_set_conditional.
  destruct (drop_expired_spec now k s Hwf) as (Hwf1 & Hlive & _ & Hk).
  set (s1 := drop_expired now k s) in *. clearbody s1. fold (entry s1 k).
  assert (forall f k', upd (live now s1) k f k' = upd (live now s) k f k') as Hu
    by (intros; unfold upd; case_decide; auto).
  assert (forall k', live now s1 k' = upd (live now s) k (live now s k) k') as Hsame
    by (intros; by rewrite upd_id).
  pose proof (write_deadline_live now k v ms s1 Hwf1 Hnow) as Hw.
  destruct (live now s k) as [[o dl]|] eqn:Ho.
  - destruct Hk as ([t Hent] & Hdl & Hx). rewrite Hent. cbn [value fmap option_fmap option_map fst].
    pose proof (write_keep_live now k v s1 Hwf1 Hx) as Hkeep. rewrite Hdl in Hkeep.
    destruct c; cbn [bool_decide decide fst snd]; [|split_and!; done|];
      (destruct keep; cbn [mbind option_bind snd];
        [destruct Hkeep as [? Hf]|destruct Hw as [? Hf]];
        (split; [done|]); (split; [done|]); intros k'; by rewrite Hf, Hu).
  - destruct Hk as [Hent Hdl]. rewrite Hent. cbn [fmap option_fmap option_map].
    pose proof (write_keep_live now k v s1 Hwf1 (not_expired_absent _ _ _ Hdl)) as Hkeep.
    rewrite Hdl in Hkeep.
    destruct c; cbn [bool_decide decide fst snd]; [| |split_and!; done];
      (destruct keep; cbn [mbind option_bind snd];
        [destruct Hkeep as [? Hf]|destruct Hw as [? Hf]];
        (split; [done|]); (split; [done|]); intros k'; by rewrite Hf, Hu).
Qed.

(** INCRBY on one cell. *)
Definition a_incrby (delta : Z) (c : cell) : option Z * cell :=
  let add (val : Z) (dl : option Z) :=
    if in_i64b (val + delta)
    then (Some (val + delta), Some (object_of_string (to_string (val + delta)), dl))
    else (None, c) in
  match c with
  | None => add 0 None
  | Some (o, dl) =>
      match get_string o ≫= IntParse.parse_ll_strict with
      | None => (None, c)
      | Some val => add val dl
      end
  end.

(** The overflow test of the code is exact. *)
Lemma incr_overflow val delta :
  in_i64 val -> in_i64 delta ->
  ((0 <? delta) && (int64_max - delta <? val)) || ((delta <? 0) && (val <? int64_min - delta)) =
  negb (in_i64b (val + delta)).
Proof.
  unfold in_i64, in_i64b. intros Hv Hd.
  destruct (Z.ltb_spec 0 delta), (Z.ltb_spec delta 0), (Z.ltb_spec (int64_max - delta) val),
    (Z.ltb_spec val (int64_min - delta)), (Z.leb_spec int64_min (val + delta)),
    (Z.leb_spec (val + delta) int64_max); simpl; try done; lia.
Qed.

(** The lazy deletion of [incrby] is that of the other operations. *)
Lemma incrby_drop now k s :
  storage_wf s ->
  (if is_expired now k s then remove_expire k (erase_entry k s) else s) = drop_expired now k s.
Proof.
  intros Hwf. unfold drop_expired. fold (entry s k).
  destruct (entry s k) eqn:He; [done|].
  rewrite not_expired_absent; [done|]. destruct (deadline s k) as [t|] eqn:Hd; [|done].
  apply (swf_deadline s Hwf) in Hd as [[e Hc] _]. congruence.
Qed.

Lemma incrby_live now k delta s :
  storage_wf s -> in_i64 delta ->
  let r := incrby_locked now k delta s in
  storage_wf r.2 /\ r.1 = (a_incrby delta (live now s k)).1 /\
  forall k', live now r.2 k' = upd (live now s) k (a_incrby delta (live now s k)).2 k'.
Proof.
  intros Hwf Hdelta. unfold incrby_locked, a_incrby. rewrite incrby_drop by done.
  destruct (drop_expired_spec now k s Hwf) as (Hwf1 & Hlive & _ & Hk).
  set (s1 := drop_expired now k s) in *. clearbody s1. fold (entry s1 k).
  assert (forall f k', upd (live now s1) k f k' = upd (live now s) k f k') as Hu
    by (intros; unfold upd; case_decide; auto).
  assert (forall k', live now s1 k' = upd (live now s) k (live now s k) k') as Hsame
    by (intros; by rewrite upd_id).
  assert (in_i64 0) by done.
  destruct (live now s k) as [[o dl]|] eqn:Ho.
  - destruct Hk as ([t Hent] & Hdl & Hx). rewrite Hent. cbn [value].
    destruct (get_string o) as [str|]; cbn [mbind option_bind]; [|by split_and!].
    destruct (IntParse.parse_ll_strict str) as [val|] eqn:Hval; [|by split_and!].
    apply IntParse.parse_ll_strict_range in Hval. rewrite incr_overflow by done.
    destruct (in_i64b (val + delta)); cbn [negb fst snd]; [|by split_and!].
    split_and!; [auto with cc_db|done|]. intros k'. rewrite write_live by done.
    by rewrite Hdl, Hu.
  - destruct Hk as [Hent Hdl]. rewrite Hent. rewrite incr_overflow by done.
    destruct (in_i64b (0 + delta)); cbn [negb fst snd]; [|by split_and!].
    split_and!; [auto with cc_db|done|]. intros k'.
    rewrite write_live by (done || by apply not_expired_absent). by rewrite Hdl, Hu.
Qed.

(** Setting a deadline on a key that exists. *)
Lemma set_expire_live now k ms s :
  storage_wf s -> is_Some (live now s k) -> 0 <= now < int64_max -> k <> [] -> 0 < ms ->
  storage_wf (set_expire now k ms s) /\
  forall k', live now (set_expire now k ms s) k' =
    upd (live now s) k ((fun c => (c.1, Some (ExpireDict.sat_add now ms))) <$> live now s k) k'.
Proof.
  intros Hwf Hl Hnow Hk Hms. unfold set_expire.
  rewrite bool_decide_eq_false_2, (proj2 (Z.leb_gt ms 0)) by done. cbn [orb].
  change (ExpireDict.set now k ms (expire_dict_ s)) with
    (ExpireDict.set_expire_time k (ExpireDict.sat_add now ms) (expire_dict_ s)).
  destruct (sat_add_ok now ms) as [Hb Hx]; [done..|].
  unfold live in Hl. destruct (entry s k) as [e|] eqn:He; [|by destruct Hl].
  destruct (is_expired now k s) eqn:Hxs; [by destruct Hl|]. split.
  - apply wf_increment_dirty, wf_set_time; [done|by rewrite He|done].
  - apply live_upd.
    + intros k' Hne. rewrite entry_increment_dirty, entry_with_expire, deadline_increment_dirty,
        deadline_set_time. by rewrite decide_False.
    + rewrite (live_present now s k e) by done.
      rewrite (live_present now _ k e); [|done|].
      * cbn [fmap option_fmap option_map fst]. rewrite deadline_increment_dirty, deadline_set_time.
        by rewrite decide_True.
      * rewrite is_expired_deadline, deadline_increment_dirty, deadline_set_time.
        by rewrite decide_True.
Qed.

(** [clear] leaves nothing. *)
Lemma clear_stores s :
  length (stores_ s) = num_shards -> stores_ (clear s) = replicate num_shards ∅.
Proof.
  intros Hl. unfold clear. cbn [stores_ with_expire].
  destruct s as [st d dc me]. cbn [stores_] in Hl.
  do 64 (destruct st as [|? st]; [done|]). destruct st; [|done]. reflexivity.
Qed.

Lemma clear_live now s : storage_wf s -> storage_wf (clear s) /\ forall k, live now (clear s) k = None.
Proof.
  intros Hwf. pose proof (clear_stores s (swf_length s Hwf)) as Hs.
  assert (forall k, entry (clear s) k = None) as He.
  { intros k. unfold entry, shard_of, store_at. rewrite Hs.
    rewrite lookup_replicate_2 by apply get_shard_index_lt. simpl. by rewrite lookup_empty. }
  split; [split|].
  - by rewrite Hs.
  - intros i m k e. rewrite Hs. intros [-> _]%lookup_replicate. by rewrite lookup_empty.
  - intros k t Hk. exfalso. revert Hk. unfold deadline, clear. cbn [expire_dict_ with_expire].
    unfold ExpireDict.clear_all. by rewrite lookup_empty.
  - intros k. by apply live_absent.
Qed.

Lemma new_storage_wf : storage_wf new_storage.
Proof.
  split.
  - done.
  - intros i m k e. cbn [new_storage stores_]. intros [-> _]%lookup_replicate.
    by rewrite lookup_empty.
  - intros k t. unfold deadline. cbn [new_storage expire_dict_]. by rewrite lookup_empty.
Qed.
End spec.

#[export] Hint Resolve wf_insert wf_remove_expire wf_increment_dirty wf_drop : cc_db.

End StorageSpec.
