(* ===== verification/StorageProps.v ===== *)
(** * The properties of the store

    The refinement of the abstract state by every operation, the invariant of
    reachable stores, eviction, snapshots, and the race of the lazy deletion. *)

From S2P Require Import Prelude Base Object ExpireDict Storage StorageSpec.
From stdpp Require Import options.

Module StorageProps.
Import Text Object Storage StorageSpec.

(** ** Operations as data *)

Inductive st_op :=
  | OGet (k : bytes)
  | OExist (k : bytes)
  | OSet (k : bytes) (v : CacheObject)
  | OSetWithExpire (k : bytes) (v : CacheObject) (ttl_ms : Z)
  | OSetConditional (k : bytes) (v : CacheObject) (c : SetCondition) (ttl_ms : Z) (keep : bool)
  | OMutate (k : bytes) (want : ObjectType) (promote : StringPromotion)
      (fn : CacheObject -> StoreOp * CacheObject * Z)
  | OIncrby (k : bytes) (delta : Z)
  | OExpire (k : bytes) (ttl_ms : Z)
  | ODel (k : bytes)
  | OClear.

Inductive st_res :=
  | RObject (o : option CacheObject)
  | RBool (b : bool)
  | RCond (written : bool) (previous : option CacheObject)
  | RInt (n : option Z)
  | RUnit.

Section props.
Context `{StringHash} `{StoreOrder}.

(** One operation; [OExpire] sets a deadline on a key that exists, the way the
    EXPIRE commands and the snapshot loader do. *)
Definition exec (now : Z) (draw : rng) (op : st_op) (s : Storage) : st_res * Storage :=
  match op with
  | OGet k => let '(r, s) := get now k s in (RObject r, s)
  | OExist k => (RBool (exist now k s), s)
  | OSet k v => (RUnit, set now draw k v s)
  | OSetWithExpire k v ms => (RUnit, set_with_expire now draw k v ms s)
  | OSetConditional k v c ms keep =>
      let '(w, p, s) := set_conditional now draw k v c ms keep s in (RCond w p, s)
  | OMutate k want promote fn =>
      let '(r, s) := mutate now draw k want fn promote s in (RInt r, s)
  | OIncrby k delta => let '(r, s) := incrby now draw k delta s in (RInt r, s)
  | OExpire k ms =>
      if exist now k s then (RBool true, set_expire now k ms s) else (RBool false, s)
  | ODel k => let '(b, s) := del k s in (RBool b, s)
  | OClear => (RUnit, clear s)
  end.

(** The operations that check for eviction first. *)
Definition writes (op : st_op) : bool :=
  match op with
  | OSet _ _ | OSetWithExpire _ _ _ | OSetConditional _ _ _ _ _ | OMutate _ _ _ _ | OIncrby _ _ => true
  | _ => false
  end.

Definition before (now : Z) (draw : rng) (op : st_op) (s : Storage) : Storage :=
  if writes op then evict_if_needed now draw s else s.

Definition op_ok (op : st_op) : Prop :=
  match op with
  | OIncrby _ delta => in_i64 delta
  | OExpire k ms => k <> [] /\ 0 < ms
  | _ => True
  end.

(** The same operation on the abstract state: a result and a new state. *)
Definition a_exec (now : Z) (op : st_op) (f : bytes -> cell) : st_res * (bytes -> cell) :=
  match op with
  | OGet k => (RObject (fst <$> f k), f)
  | OExist k => (RBool (bool_decide (is_Some (f k))), f)
  | OSet k v => (RUnit, upd f k (Some (v, None)))
  | OSetWithExpire k v ms => (RUnit, upd f k (Some (v, deadline_of now ms)))
  | OSetConditional k v c ms keep =>
      let '(w, p, x) := a_set_conditional now v c ms keep (f k) in (RCond w p, upd f k x)
  | OMutate k want promote fn =>
      let '(r, x) := a_mutate want promote fn (f k) in (RInt r, upd f k x)
  | OIncrby k delta => let '(r, x) := a_incrby delta (f k) in (RInt r, upd f k x)
  | OExpire k ms =>
      (RBool (bool_decide (is_Some (f k))),
       upd f k ((fun c => (c.1, Some (ExpireDict.sat_add now ms))) <$> f k))
  | ODel k => (RBool (bool_decide (is_Some (f k))), upd f k None)
  | OClear => (RUnit, fun _ => None)
  end.

(** [del] also counts a key that has expired and was not deleted yet; every
    other result is that of the abstract state. *)
Definition res_ok (op : st_op) (r r' : st_res) : Prop :=
  match op with
  | ODel _ => r' = RBool true -> r = RBool true
  | _ => r = r'
  end.

Lemma exec_refines now draw op s :
  storage_wf s -> 0 <= now < int64_max -> op_ok op ->
  storage_wf (exec now draw op s).2 /\
  res_ok op (exec now draw op s).1 (a_exec now op (live now (before now draw op s))).1 /\
  forall k, live now (exec now draw op s).2 k =
            (a_exec now op (live now (before now draw op s))).2 k.
Proof.
  intros Hwf Hnow Hop. destruct (evict_if_needed_spec now draw s Hwf) as [Hwf1 _].
  unfold before. destruct op; cbn [exec writes a_exec res_ok].
  - destruct (get_live now k s Hwf) as (? & Hr & Hl). destruct (get now k s). simpl in *.
    split_and!; [done|by rewrite Hr|done].
  - split_and!; [done| |done]. cbn [fst]. by rewrite exist_live.
  - unfold set. destruct (set_live now k v _ Hwf1) as [? Hl]. by split_and!.
  - unfold set_with_expire.
    destruct (set_with_expire_live now k v ttl_ms _ Hwf1 Hnow) as [? Hl]. by split_and!.
  - unfold set_conditional.
    destruct (set_conditional_live now k v c ttl_ms keep _ Hwf1 Hnow) as (? & Hr & Hl).
    destruct (set_conditional_locked _ _ _ _ _ _ _) as [[w p] s'].
    destruct (a_set_conditional _ _ _ _ _ _) as [[w' p'] x]. simpl in *.
    split_and!; [done|congruence|done].
  - unfold mutate. destruct (mutate_live now k want fn promote _ Hwf1) as (? & Hr & Hl).
    destruct (mutate_locked _ _ _ _ _ _). destruct (a_mutate _ _ _ _). simpl in *.
    split_and!; [done|congruence|done].
  - unfold incrby. destruct (incrby_live now k delta _ Hwf1 Hop) as (? & Hr & Hl).
    destruct (incrby_locked _ _ _ _). destruct (a_incrby _ _). simpl in *.
    split_and!; [done|congruence|done].
  - rewrite exist_live. destruct Hop as [Hk Hms]. case_bool_decide as E; cbn [fst snd].
    + destruct (set_expire_live now k ttl_ms s) as [? Hl]; [done..|]. by split_and!.
    + split_and!; [done..|]. intros k'. assert (live now s k = None) as Hn
        by (destruct (live now s k); [by destruct E|done]).
      rewrite Hn. cbn [fmap option_fmap option_map]. rewrite <-Hn. by rewrite upd_id.
  - destruct (del_live now k s Hwf) as (? & Hr & Hl). destruct (del k s) as [b s']. simpl in *.
    split_and!; [done| |done]. intros [= Hl']. rewrite Hr. f_equal.
    apply bool_decide_eq_true in Hl' as [x Hx]. apply bool_decide_eq_true. unfold live in Hx.
    destruct (entry s k); [done|congruence].
  - destruct (clear_live now s Hwf) as [? Hl]. by split_and!.
Qed.

(** ** Reachable stores *)

(** Time does not run backwards between operations. *)
Inductive reachable : Z -> Storage -> Prop :=
  | reach_new now : 0 <= now < int64_max -> reachable now new_storage
  | reach_limit now n s : reachable now s -> reachable now (set_max_entries n s)
  | reach_tick now now' s : reachable now s -> now <= now' < int64_max -> reachable now' s
  | reach_exec now draw op s :
      reachable now s -> op_ok op -> reachable now (exec now draw op s).2.

Lemma reachable_inv now s : reachable now s -> storage_wf s /\ 0 <= now < int64_max.
Proof.
  induction 1 as [now Hn|now n s _ [IH ?]|now now' s _ [IH ?] Hle|now draw op s _ [IH ?] Hop].
  - split; [apply new_storage_wf|done].
  - split; [|done]. split; apply IH.
  - split; [done|lia].
  - split; [|done]. by apply exec_refines.
Qed.

(** ** Snapshots *)

Lemma NoDup_omap_inj {A B} (f : A -> option B) (l : list A) :
  (forall x y z, x ∈ l -> y ∈ l -> f x = Some z -> f y = Some z -> x = y) ->
  NoDup l -> NoDup (omap f l).
Proof.
  intros Hinj Hd. induction Hd as [|x l Hx Hd IH]; csimpl; [constructor|].
  destruct (f x) as [z|] eqn:Hz; [|apply IH; intros; eapply Hinj; [by right|by right|done|done]].
  constructor.
  - intros (y & Hy & Hfy)%list_elem_of_omap. apply Hx.
    by rewrite (Hinj x y z ltac:(left) ltac:(by right) Hz Hfy).
  - apply IH. intros. eapply Hinj; [by right|by right|done|done].
Qed.

Lemma store_at_entry s i k e :
  storage_wf s -> (i < num_shards)%nat ->
  (k, e) ∈ store_items (store_at i s) <-> i = get_shard_index k /\ entry s k = Some e.
Proof.
  intros Hwf Hi. rewrite store_items_perm, elem_of_map_to_list. split.
  - intros Hk. assert (i = get_shard_index k) as ->; [|done].
    eapply (swf_shard s Hwf); [|exact Hk]. unfold store_at.
    destruct (lookup_lt_is_Some_2 (stores_ s) i) as [m Hm]; [by rewrite (swf_length s Hwf)|].
    by rewrite Hm.
  - intros [-> Hk]. done.
Qed.

Lemma expire_check now s k :
  storage_wf s ->
  (0 <? ExpireDict.get_expire_time k (expire_dict_ s)) &&
  (ExpireDict.get_expire_time k (expire_dict_ s) <=? now) = is_expired now k s.
Proof.
  intros Hwf. rewrite is_expired_deadline. unfold ExpireDict.get_expire_time.
  fold (deadline s k). destruct (deadline s k) as [t|] eqn:Hd; [|done].
  apply (swf_deadline s Hwf) in Hd as [_ Ht]. by rewrite (proj2 (Z.ltb_lt 0 t)) by lia.
Qed.

Lemma snapshot_elem now s x :
  storage_wf s ->
  x ∈ get_all_objects_with_ttl now s <->
  exists dl, live now s (kv_key x) = Some (kv_value x, dl) /\ kv_expire_time_ms x = default (-1) dl.
Proof.
  intros Hwf. unfold get_all_objects_with_ttl. rewrite list_elem_of_bind.
  assert (forall k, ExpireDict.get_expire_time k (expire_dict_ s) = default (-1) (deadline s k)) as Hg
    by (intros; unfold ExpireDict.get_expire_time; fold (deadline s k); by destruct (deadline s k)).
  split.
  - intros (i & ([k e] & Hin & Hf)%list_elem_of_omap & Hi). cbn [fst snd] in Hf.
    apply elem_of_seq in Hi. rewrite expire_check in Hf by done.
    apply store_at_entry in Hin as [_ He]; [|done|lia].
    destruct (is_expired now k s) eqn:Hx; simplify_eq. cbn [kv_key kv_value kv_expire_time_ms].
    exists (deadline s k). split; [by apply live_present|apply Hg].
  - intros (dl & Hl & Ht). destruct x as [k v t]. cbn [kv_key kv_value kv_expire_time_ms] in *.
    unfold live in Hl. destruct (entry s k) as [e|] eqn:He; [|done].
    destruct (is_expired now k s) eqn:Hx; simplify_eq.
    exists (get_shard_index k). split.
    + apply list_elem_of_omap. exists (k, e). split.
      * apply store_at_entry; [done|apply get_shard_index_lt|done].
      * cbn [fst snd]. rewrite expire_check, Hx by done. by rewrite Hg.
    + apply elem_of_seq. pose proof (get_shard_index_lt k). lia.
Qed.

Lemma snapshot_nodup now s :
  storage_wf s -> NoDup (kv_key <$> get_all_objects_with_ttl now s).
Proof.
  intros Hwf. apply NoDup_fmap_2_strong.
  { intros [k v t] [k' v' t'] (dl & Hl & Ht)%snapshot_elem (dl' & Hl' & Ht')%snapshot_elem Hk;
      [|done..]. cbn [kv_key kv_value kv_expire_time_ms] in *. subst. congruence. }
  unfold get_all_objects_with_ttl. apply NoDup_bind.
  - intros i j x Hi Hj ([k e] & Hin & Hf)%list_elem_of_omap ([k' e'] & Hin' & Hf')%list_elem_of_omap.
    apply elem_of_seq in Hi, Hj. apply store_at_entry in Hin as [-> _]; [|done|lia].
    apply store_at_entry in Hin' as [-> _]; [|done|lia]. cbn [fst snd] in *.
    repeat case_match; simplify_eq. done.
  - intros i Hi. apply NoDup_omap_inj.
    + intros [k e] [k' e'] x Hin Hin'. cbn [fst snd]. intros Hf Hf'.
      rewrite store_items_perm, elem_of_map_to_list in Hin, Hin'.
      repeat case_match; simplify_eq. done.
    + rewrite store_items_perm. apply NoDup_map_to_list.
  - apply NoDup_seq.
Qed.
End props.

(** ** The properties *)

(** A hash and an order for the witnesses. *)
Definition sum_hash : StringHash := fun k => foldr (fun c a => byte_val c + a) 0 k.

Definition plain_store_order : StoreOrder := {|
  store_items := map_to_list;
  store_items_perm := fun _ => Permutation_refl _
|}.

(** C3: every operation of the store refines the abstract state of visible keys:
    the result is the one computed from the key's visible value and deadline, the
    key changes as specified (an expired value counts as absent; writes by
    [mutate] and INCRBY keep the deadline), no other key changes, and the
    sharding invariant holds afterwards. Before a write, keys may be evicted. *)
Theorem storage_refines `{StringHash} `{StoreOrder} now draw op s :
  storage_wf s -> 0 <= now < int64_max -> op_ok op ->
  let '(r, s') := exec now draw op s in
  let '(r0, f) := a_exec now op (live now (before now draw op s)) in
  storage_wf s' /\ res_ok op r r0 /\ (forall k, live now s' k = f k) /\
  evicts s (before now draw op s) /\
  (size_ s < threshold s -> before now draw op s = s).
Proof.
  intros Hwf Hnow Hop. pose proof (exec_refines now draw op s Hwf Hnow Hop) as (? & ? & ?).
  destruct (exec now draw op s), (a_exec now op _). split_and!; [done..| |].
  - unfold before. destruct (writes op); [by apply evict_if_needed_spec|done].
  - intros Hsz. unfold before. destruct (writes op); [by apply evict_below_threshold|done].
Qed.

Lemma storage_refines_witness :
  let h := sum_hash in let o := plain_store_order in
  let op := OIncrby (lit "n") 5 in
  let '(r, s') := exec 1000 (fun n => n) op new_storage in
  let '(r0, f) := a_exec 1000 op (live 1000 (before 1000 (fun n => n) op new_storage)) in
  storage_wf s' /\ res_ok op r r0 /\ (forall k, live 1000 s' k = f k) /\
  evicts new_storage (before 1000 (fun n => n) op new_storage) /\
  (size_ new_storage < threshold new_storage -> before 1000 (fun n => n) op new_storage = new_storage).
Proof.
  apply (@storage_refines sum_hash plain_store_order 1000 (fun n => n) (OIncrby (lit "n") 5) new_storage).
  - apply new_storage_wf.
  - done.
  - done.
Defined.

(** In every reachable store, at every time, each key is in the shard its hash
    selects and only keys of the store have a deadline, which lies after the
    epoch. *)
Theorem storage_invariant `{StringHash} `{StoreOrder} now s :
  reachable now s ->
  length (stores_ s) = num_shards /\
  (forall i m k e, stores_ s !! i = Some m -> m !! k = Some e -> i = get_shard_index k) /\
  (forall k t, expire_dict_ s !! k = Some t -> is_Some (shard_of k s !! k) /\ 0 < t <= int64_max).
Proof. intros [[Hl Hs Hd] _]%reachable_inv. by split_and!. Qed.

Lemma storage_invariant_witness :
  let h := sum_hash in let o := plain_store_order in
  length (stores_ (exec 7 (fun n => n) (OSetWithExpire (lit "k") (object_of_string []) 10) new_storage).2)
  = num_shards.
Proof.
  refine (proj1 (@storage_invariant sum_hash plain_store_order 7 _ _)).
  apply (@reach_exec sum_hash plain_store_order); [|done]. by apply reach_new.
Defined.

(** The snapshot for persistence is exact: it lists every visible key once,
    with its value and its deadline ([-1] for none), and nothing else. *)
Theorem snapshot_exact `{StringHash} `{StoreOrder} now s :
  storage_wf s ->
  NoDup (kv_key <$> get_all_objects_with_ttl now s) /\
  forall x, x ∈ get_all_objects_with_ttl now s <->
    exists dl, live now s (kv_key x) = Some (kv_value x, dl) /\
               kv_expire_time_ms x = default (-1) dl.
Proof.
  intros Hwf. split; [by apply snapshot_nodup|]. intros x. by apply snapshot_elem.
Qed.

Lemma snapshot_exact_witness :
  let h := sum_hash in let o := plain_store_order in
  NoDup (kv_key <$> get_all_objects_with_ttl 5 new_storage).
Proof.
  exact (proj1 (@snapshot_exact sum_hash plain_store_order 5 new_storage (@new_storage_wf sum_hash))).
Defined.

(** A victim of eviction comes from one shard: it is an expired key, or no key
    of the shard is expired and it is one least recently used; it is removed with
    its deadline and nothing else changes. *)
Theorem evict_one_victim `{StringHash} `{StoreOrder} now draw k s v k' s' :
  storage_wf s -> evict_one now draw k s = (v, k', s') -> v <> [] ->
  (forall key, entry s' key = (if decide (key = v) then None else entry s key) /\
               deadline s' key = (if decide (key = v) then None else deadline s key)) /\
  exists e, entry s v = Some e /\
    (is_expired now v s = true \/
     forall key e', get_shard_index key = get_shard_index v -> entry s key = Some e' ->
       is_expired now key s = false /\ last_access_time_ms e <= last_access_time_ms e').
Proof.
  intros Hwf. unfold evict_one. generalize 8%nat as n. revert k.
  intros k n. revert k. induction n as [|n IH]; intros k; cbn [evict_tries].
  { by intros [= <- _ _]. }
  assert (draw k mod num_shards < num_shards)%nat as Hi by (apply Nat.mod_upper_bound; done).
  revert Hi. generalize (draw k mod num_shards)%nat as i. intros i Hi.
  destruct (scan_victim _ _ _ _ _) as [v0|] eqn:Hv; [|apply IH].
  intros Heq Hne. injection Heq as -> _ <-.
  assert (forall key e, (key, e) ∈ store_items (store_at i s) <-> i = get_shard_index key /\ entry s key = Some e)
    as Hel by (intros; by apply store_at_entry).
  pose proof (scan_victim_in _ _ _ _ Hv) as [e0 He0]. apply Hel in He0 as [Hi0 He0].
  split.
  { intros key. rewrite entry_remove_expire, deadline_remove_expire.
    rewrite Hi0. change (with_store (get_shard_index v) (delete v (store_at (get_shard_index v) s)) s)
      with (erase_entry v s). rewrite entry_erase by apply Hwf. done. }
  exists e0. split; [done|].
  apply scan_victim_spec in Hv as [(e & _ & Hx)|(Hn & [[? _]|(e & He & _ & Hmin)])]; [|done|].
  - left. unfold expired_at in Hx. by rewrite expire_check in Hx.
  - right. intros key e' Hs He'. rewrite Forall_forall in Hn, Hmin.
    assert ((key, e') ∈ store_items (store_at i s)) as Hin by (apply Hel; split; congruence).
    apply Hel in He as [_ He]. rewrite He0 in He. injection He as ->.
    pose proof (Hn _ Hin) as Hn'. unfold expired_at in Hn'. rewrite expire_check in Hn' by done.
    split; [exact Hn'|]. exact (Hmin _ Hin).
Qed.

Lemma evict_one_victim_witness :
  let h := sum_hash in let o := plain_store_order in
  let s := set_locked 3 (lit "a") (object_of_string []) new_storage in
  entry (evict_one 9 (fun _ => 33%nat) 0 s).2 (lit "b") =
  (if decide (lit "b" = lit "a") then None else entry s (lit "b")).
Proof.
  refine (proj1 (proj1 (@evict_one_victim sum_hash plain_store_order 9 (fun _ => 33%nat) 0
    (@set_locked sum_hash 3 (lit "a") (object_of_string []) new_storage)
    (lit "a") 1%nat _ _ _ _) (lit "b"))).
  - apply (@set_live sum_hash), (@new_storage_wf sum_hash).
  - vm_compute. done.
  - done.
Defined.

(** The lazy deletion of GET can destroy a newer value. [get] releases the
    shard lock between finding the key expired and deleting it; a SET that runs
    in between is acknowledged, is visible, and is then deleted by the GET. *)
Theorem lazy_delete_race `{StringHash} `{StoreOrder} now draw k v s :
  storage_wf s -> is_Some (entry s k) -> is_expired now k s = true ->
  let '(r, s1) := get_lookup now k s in
  let s2 := set now draw k v s1 in
  r = Expired /\ live now s2 k = Some (v, None) /\ live now (del k s2).2 k = None.
Proof.
  intros Hwf [e He] Hx. unfold get_lookup. fold (entry s k). rewrite He, Hx.
  destruct (evict_if_needed_spec now draw s Hwf) as [Hwf1 _]. unfold set.
  destruct (set_live now k v _ Hwf1) as [Hwf2 Hl]. split_and!; [done|..].
  - rewrite Hl. by rewrite upd_same.
  - destruct (del_live now k _ Hwf2) as (_ & _ & Hd). rewrite Hd. by rewrite upd_same.
Qed.

Lemma lazy_delete_race_witness :
  let h := sum_hash in let o := plain_store_order in
  let s := set_with_expire_locked 10 (lit "k") (object_of_string (lit "old")) 5 new_storage in
  live 20 (del (lit "k") (set 20 (fun n => n) (lit "k") (object_of_string (lit "new"))
    (get_lookup 20 (lit "k") s).2)).2 (lit "k") = None.
Proof.
  refine (proj2 (proj2 (@lazy_delete_race sum_hash plain_store_order 20 (fun n => n) (lit "k")
    (object_of_string (lit "new"))
    (@set_with_expire_locked sum_hash 10 (lit "k") (object_of_string (lit "old")) 5 new_storage) _ _ _))).
  - apply (@set_with_expire_live sum_hash); [apply new_storage_wf|done].
  - vm_compute. eauto.
  - vm_compute. done.
Defined.

End StorageProps.
