(* ===== verification/Commands.v ===== *)
(** * [command/]: the commands on keys and values

    [string_cmd.h], [expire_cmd.h], [restore_cmd.cpp] and the lookup of
    [command_factory.cpp]. A command is a function of the store that gives its
    reply in a state monad; [args] is the vector the parser hands over, with
    the name of the command first. One execution sees one clock value [now],
    one source of random draws, and one order of the unordered containers. *)

From S2P Require Import Prelude Base Resp Object Payload ExpireDict Storage.
From stdpp Require Import options.

(** What the commands use of the floating-point library: [std::stod] with the
    number of bytes it consumed ([None] where it throws), [snprintf("%.*f")],
    [strtod], whether [modf] leaves no fraction, and [floor(log10(fabs(x)))]. *)
Class DoubleLib := {
  stod : bytes -> option (Z * nat);
  fmt_fixed : Z -> Z -> bytes;
  strtod : bytes -> Z;
  no_fraction : Z -> bool;
  floor_log10 : Z -> Z
}.

Module Commands.
Import Text Double Resp Object Payload Storage.

(** ** The state monad of commands *)

Definition cmd (A : Type) : Type := Storage -> A * Storage.

#[global] Instance cmd_ret : MRet cmd := fun _ a s => (a, s).
#[global] Instance cmd_fmap : FMap cmd :=
  fun _ _ f m s => let '(a, s) := m s in (f a, s).
#[global] Instance cmd_bind : MBind cmd :=
  fun _ _ f m s => let '(a, s) := m s in f a s.

(** ** Replies *)

Definition wrongtype : bytes :=
  encode_error (lit "WRONGTYPE Operation against a key holding the wrong kind of value").

Definition wrong_args (name : bytes) : bytes :=
  encode_error (lit "ERR wrong number of arguments for '" ++ name ++ lit "' command").

Definition not_an_integer : bytes :=
  encode_error (lit "ERR value is not an integer or out of range").

Definition syntax_error : bytes := encode_error (lit "ERR syntax error").

(** [RespEncoder::format_double]. *)
Fixpoint shortest_digits `{DoubleLib} (fuel : nat) (digits max_digits value : Z) : bytes :=
  match fuel with
  | O => fmt_fixed max_digits value
  | S fuel =>
      if digits <? max_digits then
        let buf := fmt_fixed digits value in
        if deq (strtod buf) value then buf
        else shortest_digits fuel (digits + 1) max_digits value
      else fmt_fixed max_digits value
  end.

Definition format_double `{DoubleLib} (value : Z) : bytes :=
  if isnan value then lit "nan"
  else if isinf value then (if dlt value 0 then lit "-inf" else lit "inf")
  else if no_fraction value then fmt_fixed 0 value
  else
    let exponent := floor_log10 value in
    let max_digits := Z.max 1 (Z.min 341 (17 - exponent)) in
    shortest_digits 341 1 max_digits value.

(** [args[i]]. *)
Definition arg (i : nat) (args : list bytes) : bytes := nth i args [].

(** [std::toupper] and [std::tolower] of the C locale on every byte. *)
Definition upper_char (c : ascii) : ascii :=
  if (97 <=? byte_val c) && (byte_val c <=? 122) then ascii_of_N (Z.to_N (byte_val c - 32)) else c.

Definition lower_char (c : ascii) : ascii :=
  if (65 <=? byte_val c) && (byte_val c <=? 90) then ascii_of_N (Z.to_N (byte_val c + 32)) else c.

Definition to_upper (s : bytes) : bytes := upper_char <$> s.
Definition to_lower (s : bytes) : bytes := lower_char <$> s.

(** ** Options of SET *)

Inductive ExpMode := mNone | mEx | mPx | mExat | mPxat.

Record set_opts := mkOpts {
  so_mode : ExpMode;
  so_raw : Z;
  so_nx : bool;
  so_xx : bool;
  so_get : bool;
  so_keep_ttl : bool
}.

Definition no_opts : set_opts := mkOpts mNone 0 false false false false.

Definition mode_none (m : ExpMode) : bool := match m with mNone => true | _ => false end.

Definition mode_of (opt : bytes) : option ExpMode :=
  if bool_decide (opt = lit "EX") then Some mEx
  else if bool_decide (opt = lit "PX") then Some mPx
  else if bool_decide (opt = lit "EXAT") then Some mExat
  else if bool_decide (opt = lit "PXAT") then Some mPxat
  else None.

(** [SetCommand::parse_ll]. *)
Definition parse_ll (s : bytes) : option Z := from_chars_all true int64_min int64_max s.

(** The loop over the options: the error reply, or what they ask for. *)
Fixpoint parse_set_opts (l : list bytes) (o : set_opts) : bytes + set_opts :=
  match l with
  | [] => inr o
  | a :: l =>
      let opt := to_upper a in
      match mode_of opt with
      | Some m =>
          if negb (mode_none (so_mode o)) || so_keep_ttl o then inl syntax_error
          else
            match l with
            | [] => inl syntax_error
            | b :: l =>
                match parse_ll b with
                | None => inl not_an_integer
                | Some raw =>
                    parse_set_opts l (mkOpts m raw (so_nx o) (so_xx o) (so_get o) (so_keep_ttl o))
                end
            end
      | None =>
          if bool_decide (opt = lit "NX") then
            if so_xx o || so_nx o then inl syntax_error
            else parse_set_opts l
                   (mkOpts (so_mode o) (so_raw o) true (so_xx o) (so_get o) (so_keep_ttl o))
          else if bool_decide (opt = lit "XX") then
            if so_xx o || so_nx o then inl syntax_error
            else parse_set_opts l
                   (mkOpts (so_mode o) (so_raw o) (so_nx o) true (so_get o) (so_keep_ttl o))
          else if bool_decide (opt = lit "GET") then
            parse_set_opts l
              (mkOpts (so_mode o) (so_raw o) (so_nx o) (so_xx o) true (so_keep_ttl o))
          else if bool_decide (opt = lit "KEEPTTL") then
            if negb (mode_none (so_mode o)) || so_keep_ttl o then inl syntax_error
            else parse_set_opts l
                   (mkOpts (so_mode o) (so_raw o) (so_nx o) (so_xx o) (so_get o) true)
          else inl syntax_error
      end
  end.

(** The relative time to live the options ask for: an error reply, or the
    milliseconds with whether the absolute time has passed. *)
Definition set_ttl (now : Z) (o : set_opts) : bytes + Z * bool :=
  let invalid := encode_error (lit "ERR invalid expire time in 'set' command") in
  let kMax := int64_max in
  let raw := so_raw o in
  match so_mode o with
  | mNone => inr (0, false)
  | mEx =>
      if raw <=? 0 then inl invalid
      else if kMax / 1000 <? raw then inl invalid
      else inr (raw * 1000, false)
  | mPx => if raw <=? 0 then inl invalid else inr (raw, false)
  | mExat =>
      if raw <? 0 then inl invalid
      else
        let abs_ms := if kMax / 1000 <? raw then kMax else raw * 1000 in
        if abs_ms <=? now then inr (0, true) else inr (abs_ms - now, false)
  | mPxat =>
      if raw <? 0 then inl invalid
      else if raw <=? now then inr (0, true) else inr (raw - now, false)
  end.

Definition ttl_seconds_to_ms (seconds : Z) : Z :=
  if int64_max / 1000 <? seconds then int64_max else seconds * 1000.

Section commands.
Context `{StringHash} `{StoreOrder} `{HashOrder} `{DoubleText} `{DoubleLib}.
Context (now : Z) (draw : rng) (spop_draw : nat).

(** The store's operations in the monad. *)
Definition store_get (key : bytes) : cmd (option CacheObject) := get now key.
Definition store_del (key : bytes) : cmd bool := del key.
Definition store_exist (key : bytes) : cmd bool := fun s => (exist now key s, s).
Definition store_set (key : bytes) (v : CacheObject) : cmd unit :=
  fun s => (tt, set now draw key v s).
Definition store_set_with_expire (key : bytes) (v : CacheObject) (ttl_ms : Z) : cmd unit :=
  fun s => (tt, set_with_expire now draw key v ttl_ms s).
Definition store_set_conditional (key : bytes) (v : CacheObject) (c : SetCondition) (ttl_ms : Z)
    (keep_ttl : bool) : cmd (bool * option CacheObject) :=
  set_conditional now draw key v c ttl_ms keep_ttl.
Definition store_mutate {R} (key : bytes) (want : ObjectType)
    (fn : CacheObject -> StoreOp * CacheObject * R) (promote : StringPromotion) : cmd (option R) :=
  mutate now draw key want fn promote.
Definition store_incrby (key : bytes) (delta : Z) : cmd (option Z) := incrby now draw key delta.

(** ** Strings *)

Definition ping (args : list bytes) : cmd bytes :=
  if (length args =? 1)%nat then mret (encode_simple_string (lit "PONG"))
  else mret (encode_bulk_string (arg 1 args)).

Definition get_cmd (args : list bytes) : cmd bytes :=
  if negb (length args =? 2)%nat then mret (wrong_args (lit "get"))
  else
    result ← store_get (arg 1 args);
    match result with
    | None => mret encode_nil
    | Some o =>
        match get_string o with
        | None => mret wrongtype
        | Some str => mret (encode_bulk_string str)
        end
    end.

Definition is_non_string (key : bytes) : cmd bool :=
  cur ← store_get key;
  mret (match cur with
        | Some o => match get_string o with Some _ => false | None => true end
        | None => false
        end).

Definition string_or_empty (o : CacheObject) : bytes := default [] (get_string o).

(** SET once the options are read. *)
Definition set_with_opts (key value : bytes) (o : set_opts) (ttl_ms : Z) (already_expired : bool)
    : cmd bytes :=
  wrong_type ← (if so_get o then is_non_string key else mret false);
  if wrong_type : bool then mret wrongtype
  else if already_expired then
    cur ← store_get key;
    let present := match cur with Some _ => true | None => false end in
    if (so_nx o && present) || (so_xx o && negb present) then mret encode_nil
    else
      _ ← store_del key;
      if so_get o then
        match cur with
        | None => mret encode_nil
        | Some c => mret (encode_bulk_string (string_or_empty c))
        end
      else mret encode_ok
  else
    let condition := if so_nx o then kOnlyIfAbsent else if so_xx o then kOnlyIfExists else kNone in
    applied_previous ← store_set_conditional key (object_of_string value) condition
      (if so_keep_ttl o then 0 else ttl_ms) (so_keep_ttl o);
    let '(applied, previous) := applied_previous : bool * option CacheObject in
    if so_get o then
      match applied, previous with
      | true, Some p => mret (encode_bulk_string (string_or_empty p))
      | _, _ => mret encode_nil
      end
    else mret (if applied then encode_ok else encode_nil).

Definition set_cmd (args : list bytes) : cmd bytes :=
  if (length args <? 3)%nat then mret (wrong_args (lit "set"))
  else
    match parse_set_opts (drop 3 args) no_opts with
    | inl err => mret err
    | inr o =>
        if so_nx o && so_get o then mret syntax_error
        else
          match set_ttl now o with
          | inl err => mret err
          | inr (ttl_ms, already_expired) =>
              set_with_opts (arg 1 args) (arg 2 args) o ttl_ms already_expired
          end
    end.

Definition apply_incrby (key : bytes) (delta : Z) : cmd bytes :=
  result ← store_incrby key delta;
  match result with
  | Some v => mret (encode_integer v)
  | None =>
      opt ← store_get key;
      match opt ≫= get_string with
      | Some str =>
          match IntParse.parse_ll_strict str with
          | None => mret (encode_error (lit "ERR value is not an integer"))
          | Some _ => mret (encode_error (lit "ERR increment or decrement would overflow"))
          end
      | None => mret wrongtype
      end
  end.

Definition incr_cmd (args : list bytes) : cmd bytes :=
  if negb (length args =? 2)%nat then mret (wrong_args (lit "incr"))
  else apply_incrby (arg 1 args) 1.

Definition decr_cmd (args : list bytes) : cmd bytes :=
  if negb (length args =? 2)%nat then mret (wrong_args (lit "decr"))
  else apply_incrby (arg 1 args) (-1).

Definition incrby_cmd (args : list bytes) : cmd bytes :=
  if negb (length args =? 3)%nat then mret (wrong_args (lit "incrby"))
  else
    match IntParse.parse_ll_strict (arg 2 args) with
    | None => mret not_an_integer
    | Some delta => apply_incrby (arg 1 args) delta
    end.

Definition decrby_cmd (args : list bytes) : cmd bytes :=
  if negb (length args =? 3)%nat then mret (wrong_args (lit "decrby"))
  else
    match IntParse.parse_ll_strict (arg 2 args) with
    | None => mret not_an_integer
    | Some delta =>
        if delta =? int64_min then mret not_an_integer
        else apply_incrby (arg 1 args) (- delta)
    end.

(** The loop of DEL: [deleted] keys so far. *)
Fixpoint del_keys (keys : list bytes) (deleted : Z) : cmd Z :=
  match keys with
  | [] => mret deleted
  | key :: keys =>
      b ← store_del key;
      del_keys keys (if b : bool then deleted + 1 else deleted)
  end.

Definition del_cmd (args : list bytes) : cmd bytes :=
  if (length args <? 2)%nat then mret (wrong_args (lit "del"))
  else
    deleted ← del_keys (drop 1 args) 0;
    mret (encode_integer deleted).

Definition exists_cmd (args : list bytes) : cmd bytes :=
  if negb (length args =? 2)%nat then mret (wrong_args (lit "exists"))
  else
    b ← store_exist (arg 1 args);
    mret (encode_integer (if b : bool then 1 else 0)).

(** ** Lists *)

(** The reply of a [mutate] that failed the type test, or the reply to its
    result. *)
Definition or_wrongtype {R} (reply : R -> bytes) (r : option R) : bytes :=
  match r with None => wrongtype | Some x => reply x end.

Definition push_fn (vals : list bytes) (front : bool) (obj : CacheObject)
    : StoreOp * CacheObject * Z :=
  let obj := foldl (fun o v => (list_push v front o).2) obj vals in
  (kWrite, obj, list_size obj).

Definition lpush_cmd (args : list bytes) : cmd bytes :=
  if (length args <? 3)%nat then mret (wrong_args (lit "lpush"))
  else
    r ← store_mutate (arg 1 args) LIST (push_fn (drop 2 args) true) kAllow;
    mret (or_wrongtype encode_integer r).

Definition rpush_cmd (args : list bytes) : cmd bytes :=
  if (length args <? 3)%nat then mret (wrong_args (lit "rpush"))
  else
    r ← store_mutate (arg 1 args) LIST (push_fn (drop 2 args) false) kAllow;
    mret (or_wrongtype encode_integer r).

Definition pop_fn (front : bool) (obj : CacheObject) : StoreOp * CacheObject * option bytes :=
  match list_pop front obj with
  | (None, obj) => (kNoop, obj, None)
  | (Some v, obj) => ((if list_size obj =? 0 then kErase else kWrite), obj, Some v)
  end.

Definition bulk_or_nil (o : option bytes) : bytes :=
  match o with None => encode_nil | Some v => encode_bulk_string v end.

Definition lpop_cmd (args : list bytes) : cmd bytes :=
  if negb (length args =? 2)%nat then mret (wrong_args (lit "lpop"))
  else
    r ← store_mutate (arg 1 args) LIST (pop_fn true) kReject;
    mret (or_wrongtype bulk_or_nil r).

Definition rpop_cmd (args : list bytes) : cmd bytes :=
  if negb (length args =? 2)%nat then mret (wrong_args (lit "rpop"))
  else
    r ← store_mutate (arg 1 args) LIST (pop_fn false) kReject;
    mret (or_wrongtype bulk_or_nil r).

(** The commands that read one container: a reply for an absent key, the type
    test, a reply computed from the object. *)
Definition read_typed (key : bytes) (want : ObjectType) (absent : bytes)
    (reply : CacheObject -> bytes) : cmd bytes :=
  result ← store_get key;
  mret (match result with
        | None => absent
        | Some o => if negb (is_type want o) then wrongtype else reply o
        end).

Definition llen_cmd (args : list bytes) : cmd bytes :=
  if negb (length args =? 2)%nat then mret (wrong_args (lit "llen"))
  else read_typed (arg 1 args) LIST (encode_integer 0) (fun o => encode_integer (list_size o)).

Definition lrange_cmd (args : list bytes) : cmd bytes :=
  if negb (length args =? 4)%nat then mret (wrong_args (lit "lrange"))
  else
    match IntParse.parse_ll_strict (arg 2 args), IntParse.parse_ll_strict (arg 3 args) with
    | Some start, Some stop =>
        read_typed (arg 1 args) LIST (encode_array [])
          (fun o => encode_array (list_range start stop o))
    | _, _ => mret not_an_integer
    end.

(** ** Hashes *)

Definition hset_fn (field value : bytes) (obj : CacheObject) : StoreOp * CacheObject * Z :=
  let added := if hash_exists field obj then 0 else 1 in
  (kWrite, (hash_set field value obj).2, added).

Definition hset_cmd (args : list bytes) : cmd bytes :=
  if negb (length args =? 4)%nat then mret (wrong_args (lit "hset"))
  else
    r ← store_mutate (arg 1 args) HASH (hset_fn (arg 2 args) (arg 3 args)) kAllow;
    mret (or_wrongtype encode_integer r).

Definition hget_cmd (args : list bytes) : cmd bytes :=
  if negb (length args =? 3)%nat then mret (wrong_args (lit "hget"))
  else read_typed (arg 1 args) HASH encode_nil (fun o => bulk_or_nil (hash_get (arg 2 args) o)).

(** A loop that applies a counted operation to every argument. *)
Definition count_ops {A} (f : A -> CacheObject -> bool * CacheObject) (l : list A)
    (obj : CacheObject) : Z * CacheObject :=
  foldl (fun '(n, o) x => let '(b, o) := f x o in ((if b : bool then n + 1 else n), o)) (0, obj) l.

Definition hdel_fn (fields : list bytes) (obj : CacheObject) : StoreOp * CacheObject * Z :=
  let '(deleted, obj) := count_ops hash_del fields obj in
  if deleted =? 0 then (kNoop, obj, deleted)
  else ((if hash_size obj =? 0 then kErase else kWrite), obj, deleted).

Definition hdel_cmd (args : list bytes) : cmd bytes :=
  if (length args <? 3)%nat then mret (wrong_args (lit "hdel"))
  else
    r ← store_mutate (arg 1 args) HASH (hdel_fn (drop 2 args)) kReject;
    mret (or_wrongtype encode_integer r).

Definition hlen_cmd (args : list bytes) : cmd bytes :=
  if negb (length args =? 2)%nat then mret (wrong_args (lit "hlen"))
  else read_typed (arg 1 args) HASH (encode_integer 0) (fun o => encode_integer (hash_size o)).

Definition hgetall_cmd (args : list bytes) : cmd bytes :=
  if negb (length args =? 2)%nat then mret (wrong_args (lit "hgetall"))
  else read_typed (arg 1 args) HASH (encode_array [])
         (fun o => encode_array (foldl (fun r kv => r ++ [kv.1; kv.2]) [] (hash_items o))).

(** ** Sets *)

Definition sadd_fn (members : list bytes) (obj : CacheObject) : StoreOp * CacheObject * Z :=
  let '(added, obj) := count_ops set_add members obj in
  ((if added =? 0 then kNoop else kWrite), obj, added).

Definition sadd_cmd (args : list bytes) : cmd bytes :=
  if (length args <? 3)%nat then mret (wrong_args (lit "sadd"))
  else
    r ← store_mutate (arg 1 args) SET (sadd_fn (drop 2 args)) kAllow;
    mret (or_wrongtype encode_integer r).

(** SPOP takes the member at a random position of the iteration. *)
Definition spop_fn (pick : nat) (obj : CacheObject) : StoreOp * CacheObject * option bytes :=
  let members := set_members obj in
  match members !! (pick mod length members)%nat with
  | None => (kNoop, obj, None)
  | Some member =>
      let obj := (set_remove member obj).2 in
      ((if set_size obj =? 0 then kErase else kWrite), obj, Some member)
  end.

Definition spop_cmd (args : list bytes) : cmd bytes :=
  if negb (length args =? 2)%nat then mret (wrong_args (lit "spop"))
  else
    r ← store_mutate (arg 1 args) SET (spop_fn spop_draw) kReject;
    mret (or_wrongtype bulk_or_nil r).

Definition scard_cmd (args : list bytes) : cmd bytes :=
  if negb (length args =? 2)%nat then mret (wrong_args (lit "scard"))
  else read_typed (arg 1 args) SET (encode_integer 0) (fun o => encode_integer (set_size o)).

Definition sismember_cmd (args : list bytes) : cmd bytes :=
  if negb (length args =? 3)%nat then mret (wrong_args (lit "sismember"))
  else read_typed (arg 1 args) SET (encode_integer 0)
         (fun o => encode_integer (if set_contains (arg 2 args) o then 1 else 0)).

Definition smembers_cmd (args : list bytes) : cmd bytes :=
  if negb (length args =? 2)%nat then mret (wrong_args (lit "smembers"))
  else read_typed (arg 1 args) SET (encode_array []) (fun o => encode_array (set_members o)).

(** ** Sorted sets *)

(** The scores are all read before the store is touched. *)
Fixpoint parse_scores (l : list bytes) : bytes + list (bytes * Z) :=
  match l with
  | score_text :: member :: l =>
      match stod score_text with
      | None => inl (encode_error (lit "ERR value is not a valid float"))
      | Some (score, consumed) =>
          if negb (consumed =? length score_text)%nat
          then inl (encode_error (lit "ERR value is not a valid float"))
          else if isnan score || isinf score
          then inl (encode_error (lit "ERR value is NaN or Infinity"))
          else
            match parse_scores l with
            | inl err => inl err
            | inr entries => inr ((member, score) :: entries)
            end
      end
  | _ => inr []
  end.

Definition zadd_fn (entries : list (bytes * Z)) (obj : CacheObject) : StoreOp * CacheObject * Z :=
  let '(added, obj) := count_ops (fun e => zset_add e.1 e.2) entries obj in
  ((if added =? 0 then kNoop else kWrite), obj, added).

Definition zadd_cmd (args : list bytes) : cmd bytes :=
  if (length args <? 4)%nat || negb ((length args - 2) mod 2 =? 0)%nat
  then mret (wrong_args (lit "zadd"))
  else
    match parse_scores (drop 2 args) with
    | inl err => mret err
    | inr entries =>
        r ← store_mutate (arg 1 args) ZSET (zadd_fn entries) kAllow;
        mret (or_wrongtype encode_integer r)
    end.

Definition zscore_cmd (args : list bytes) : cmd bytes :=
  if negb (length args =? 3)%nat then mret (wrong_args (lit "zscore"))
  else read_typed (arg 1 args) ZSET encode_nil
         (fun o => bulk_or_nil (format_double <$> zset_score (arg 2 args) o)).

Definition zcard_cmd (args : list bytes) : cmd bytes :=
  if negb (length args =? 2)%nat then mret (wrong_args (lit "zcard"))
  else read_typed (arg 1 args) ZSET (encode_integer 0) (fun o => encode_integer (zset_size o)).

Definition zrange_cmd (args : list bytes) : cmd bytes :=
  if negb (length args =? 4)%nat && negb (length args =? 5)%nat
  then mret (wrong_args (lit "zrange"))
  else
    match IntParse.parse_ll_strict (arg 2 args), IntParse.parse_ll_strict (arg 3 args) with
    | Some start, Some stop =>
        let with_scores := (length args =? 5)%nat && bool_decide (arg 4 args = lit "WITHSCORES") in
        read_typed (arg 1 args) ZSET (encode_array [])
          (fun o => encode_array
             (foldl (fun r z => r ++ z.1 :: (if with_scores then [format_double z.2] else [])) []
                (zset_range_by_index start stop o)))
    | _, _ => mret not_an_integer
    end.

(** ** The whole database *)

Definition dbsize_cmd (args : list bytes) : cmd bytes :=
  fun s => (encode_integer (size_ s), s).

Definition flushdb_cmd (args : list bytes) : cmd bytes :=
  fun s => (encode_simple_string (lit "OK"), clear s).

Definition type_name (t : ObjectType) : bytes :=
  match t with
  | STRING => lit "string" | LIST => lit "list" | HASH => lit "hash"
  | SET => lit "set" | ZSET => lit "zset"
  end.

Definition debug_cmd (args : list bytes) : cmd bytes :=
  if (length args <? 2)%nat then mret (wrong_args (lit "debug"))
  else if bool_decide (arg 1 args = lit "sleep")
  then mret (encode_error (lit "ERR DEBUG SLEEP is not supported"))
  else if bool_decide (arg 1 args = lit "object") then
    if (length args <? 3)%nat
    then mret (encode_error (lit "ERR wrong number of arguments for 'debug object'"))
    else
      result ← store_get (arg 2 args);
      mret (match result with
            | None => encode_error (lit "ERR no such key")
            | Some o => encode_bulk_string (lit "Type: " ++ type_name (type_ o))
            end)
  else mret (encode_error (lit "ERR Unknown DEBUG subcommand")).

(** ** Expiration *)

Definition invalid_key : bytes := encode_error (lit "ERR invalid key").

Definition expire_cmd (args : list bytes) : cmd bytes :=
  if negb (length args =? 3)%nat then mret (wrong_args (lit "expire"))
  else
    let key := arg 1 args in
    if bool_decide (key = []) then mret invalid_key
    else
      match stoll (arg 2 args) with
      | None => mret (encode_error (lit "ERR value is not an integer"))
      | Some (seconds, _) =>
          present ← store_exist key;
          if negb present then mret (encode_integer 0)
          else if seconds <=? 0 then
            _ ← store_del key;
            mret (encode_integer 1)
          else
            fun s =>
              (encode_integer 1,
               increment_dirty
                 (with_expire (ExpireDict.set now key (ttl_seconds_to_ms seconds) (expire_dict_ s)) s))
      end.

(** The part that TTL and PTTL share: [None] for an absent key, [Some None]
    for one without deadline, else the remaining milliseconds. *)
Definition remaining (key : bytes) (s : Storage) : option (option Z) :=
  if negb (exist now key s) then None
  else if negb (ExpireDict.contains key (expire_dict_ s)) then Some None
  else Some (Some (ExpireDict.get_ttl now key (expire_dict_ s))).

Definition ttl_cmd (args : list bytes) : cmd bytes :=
  if negb (length args =? 2)%nat then mret (wrong_args (lit "ttl"))
  else if bool_decide (arg 1 args = []) then mret invalid_key
  else
    fun s =>
      (encode_integer
         (match remaining (arg 1 args) s with
          | None => -2
          | Some None => -1
          | Some (Some ttl_ms) => if ttl_ms <=? 0 then -2 else Z.quot ttl_ms 1000
          end), s).

Definition pttl_cmd (args : list bytes) : cmd bytes :=
  if negb (length args =? 2)%nat then mret (wrong_args (lit "pttl"))
  else if bool_decide (arg 1 args = []) then mret invalid_key
  else
    fun s =>
      (encode_integer
         (match remaining (arg 1 args) s with
          | None => -2
          | Some None => -1
          | Some (Some ttl_ms) =>
              if ttl_ms =? -2 then -2 else if ttl_ms <=? 0 then -2 else ttl_ms
          end), s).

Definition persist_cmd (args : list bytes) : cmd bytes :=
  if negb (length args =? 2)%nat then mret (wrong_args (lit "persist"))
  else
    let key := arg 1 args in
    if bool_decide (key = []) then mret invalid_key
    else
      fun s =>
        if negb (exist now key s) then (encode_integer 0, s)
        else
          let '(success, d) := ExpireDict.persist key (expire_dict_ s) in
          let s := with_expire d s in
          (encode_integer (if success : bool then 1 else 0),
           if success then increment_dirty s else s).

Definition setex_cmd (args : list bytes) : cmd bytes :=
  if negb (length args =? 4)%nat then mret (wrong_args (lit "setex"))
  else
    let key := arg 1 args in
    if bool_decide (key = []) then mret invalid_key
    else if bool_decide (arg 2 args = [])
    then mret (encode_error (lit "ERR value is not an integer"))
    else
      match stoll (arg 2 args) with
      | None => mret (encode_error (lit "ERR value is not an integer"))
      | Some (seconds, _) =>
          if seconds <=? 0 then mret (encode_error (lit "ERR invalid expire time"))
          else
            _ ← store_set_with_expire key (object_of_string (arg 3 args)) (ttl_seconds_to_ms seconds);
            mret encode_ok
      end.

(** ** RESTORE: [None] where the exception of [deserialize] leaves the command. *)

Definition restore_cmd (args : list bytes) : cmd (option bytes) :=
  if (length args <? 4)%nat then mret (Some (wrong_args (lit "restore")))
  else
    let key := arg 1 args in
    match stoll (arg 2 args) with
    | None => mret (Some (encode_error (lit "ERR invalid TTL")))
    | Some (ttl_ms, _) =>
        let replace := (4 <? length args)%nat && bool_decide (arg 4 args = lit "REPLACE") in
        busy ← (if replace then mret false else store_exist key);
        if busy : bool
        then mret (Some (encode_error (lit "BUSYKEY Target key name already exists")))
        else
          match deserialize (arg 3 args) new_object with
          | DOk obj =>
              _ ← (if 0 <? ttl_ms then store_set_with_expire key obj ttl_ms else store_set key obj);
              mret (Some (encode_simple_string (lit "OK")))
          | DErr _ _ =>
              mret (Some (encode_error (lit "ERR Invalid or malformed serialized payload")))
          | DThrow _ | DOutOfFuel => mret None
          end
    end.

(** ** The command table *)

Inductive Command :=
  | CGet | CSet | CDel | CIncr | CDecr | CIncrby | CDecrby | CExists | CPing
  | CExpire | CTtl | CPttl | CPersist | CSetex
  | CLpush | CRpush | CLpop | CRpop | CLlen | CLrange
  | CHset | CHget | CHdel | CHlen | CHgetall
  | CSadd | CSpop | CScard | CSismember | CSmembers
  | CZadd | CZscore | CZcard | CZrange
  | CSave | CBgsave | CLastsave | CDbsize | CFlushdb
  | CInfo | CDebug | CCluster | CRestore | CPsync | CSync | CReplconf.

(** [execute]; [None] for the commands of persistence, cluster, replication
    and INFO, which are in Admin.v and ClusterCmd.v. *)
Definition execute (c : Command) (args : list bytes) : option (cmd (option bytes)) :=
  let plain (m : cmd bytes) : option (cmd (option bytes)) := Some (Some <$> m) in
  match c with
  | CGet => plain (get_cmd args) | CSet => plain (set_cmd args) | CDel => plain (del_cmd args)
  | CIncr => plain (incr_cmd args) | CDecr => plain (decr_cmd args)
  | CIncrby => plain (incrby_cmd args) | CDecrby => plain (decrby_cmd args)
  | CExists => plain (exists_cmd args) | CPing => plain (ping args)
  | CExpire => plain (expire_cmd args) | CTtl => plain (ttl_cmd args)
  | CPttl => plain (pttl_cmd args) | CPersist => plain (persist_cmd args)
  | CSetex => plain (setex_cmd args)
  | CLpush => plain (lpush_cmd args) | CRpush => plain (rpush_cmd args)
  | CLpop => plain (lpop_cmd args) | CRpop => plain (rpop_cmd args)
  | CLlen => plain (llen_cmd args) | CLrange => plain (lrange_cmd args)
  | CHset => plain (hset_cmd args) | CHget => plain (hget_cmd args)
  | CHdel => plain (hdel_cmd args) | CHlen => plain (hlen_cmd args)
  | CHgetall => plain (hgetall_cmd args)
  | CSadd => plain (sadd_cmd args) | CSpop => plain (spop_cmd args)
  | CScard => plain (scard_cmd args) | CSismember => plain (sismember_cmd args)
  | CSmembers => plain (smembers_cmd args)
  | CZadd => plain (zadd_cmd args) | CZscore => plain (zscore_cmd args)
  | CZcard => plain (zcard_cmd args) | CZrange => plain (zrange_cmd args)
  | CDbsize => plain (dbsize_cmd args) | CFlushdb => plain (flushdb_cmd args)
  | CDebug => plain (debug_cmd args)
  | CRestore => Some (restore_cmd args)
  | CSave | CBgsave | CLastsave | CInfo | CCluster | CPsync | CSync | CReplconf => None
  end.
End commands.

(** [CommandFactory::CommandFactory]: the registered names. *)
Definition commands_ : list (bytes * Command) := [
  (lit "get", CGet); (lit "set", CSet); (lit "del", CDel); (lit "incr", CIncr);
  (lit "decr", CDecr); (lit "incrby", CIncrby); (lit "decrby", CDecrby);
  (lit "exists", CExists); (lit "ping", CPing); (lit "expire", CExpire); (lit "ttl", CTtl);
  (lit "pttl", CPttl); (lit "persist", CPersist); (lit "setex", CSetex);
  (lit "lpush", CLpush); (lit "rpush", CRpush); (lit "lpop", CLpop); (lit "rpop", CRpop);
  (lit "llen", CLlen); (lit "lrange", CLrange);
  (lit "hset", CHset); (lit "hget", CHget); (lit "hdel", CHdel); (lit "hlen", CHlen);
  (lit "hgetall", CHgetall);
  (lit "sadd", CSadd); (lit "spop", CSpop); (lit "scard", CScard);
  (lit "sismember", CSismember); (lit "smembers", CSmembers);
  (lit "zadd", CZadd); (lit "zscore", CZscore); (lit "zcard", CZcard); (lit "zrange", CZrange);
  (lit "save", CSave); (lit "bgsave", CBgsave); (lit "lastsave", CLastsave);
  (lit "dbsize", CDbsize); (lit "flushdb", CFlushdb);
  (lit "info", CInfo); (lit "debug", CDebug); (lit "cluster", CCluster);
  (lit "restore", CRestore); (lit "psync", CPsync); (lit "sync", CSync);
  (lit "replconf", CReplconf)
].

(** [commands_.find(name)]. *)
Definition find_command (name : bytes) : option Command :=
  (list_to_map commands_ : gmap bytes Command) !! name.

(** [CommandFactory::create]: the name as it is, then in lower case. *)
Definition create (name : bytes) : option Command :=
  match find_command name with
  | Some c => Some c
  | None => find_command (to_lower name)
  end.

End Commands.
