(* ===== verification/CommandsSpec.v ===== *)
(** * What the commands guarantee

    Every command keeps the store well-formed, with no empty container left in
    it, and answers with exactly one RESP value; the effect of the commands on
    the keys and values a client sees. *)

From S2P Require Import Prelude Base Buffer Resp RespSpec Object ObjectSpec Payload PayloadSpec.
From S2P Require Import ExpireDict Storage StorageSpec Commands.
From stdpp Require Import options.

Module CommandsSpec.
Import Text Double Resp RespSpec Object ObjectSpec Payload PayloadSpec Storage StorageSpec Commands.

(** ** Objects the commands store *)

(** The container of the object's type has elements. *)
Definition nonempty (o : CacheObject) : Prop :=
  match type_ o with
  | STRING => True
  | LIST => list_val_ o <> []
  | HASH => hash_val_ o <> ∅
  | SET => set_val_ o <> ∅
  | ZSET => zset_val_ o <> []
  end.

(** A well-formed object whose other containers are unused. *)
Record obj_shape (o : CacheObject) : Prop := {
  osh_wf : obj_wf o;
  osh_list : type_ o <> LIST -> list_val_ o = [];
  osh_hash : type_ o <> HASH -> hash_val_ o = ∅;
  osh_set : type_ o <> SET -> set_val_ o = ∅;
  osh_zset : type_ o <> ZSET -> zset_val_ o = []
}.

Definition obj_ok (o : CacheObject) : Prop := obj_shape o /\ nonempty o.

Lemma string_object_ok s : obj_ok (object_of_string s).
Proof. split; [|done]. split; try done. split; [done|apply zset_wf_nil]. Qed.

Lemma new_object_ok : obj_ok new_object.
Proof. apply string_object_ok. Qed.

(** The objects of each type, written out. *)
Ltac solve_shape :=
  intros [[Hs _] Hl Hh He Hz] Ht;
  match type of Ht with type_ ?o = _ => destruct o as [t sv lv hv ev zv] end;
  cbn in *; subst; rewrite ?Hs, ?Hl, ?Hh, ?He, ?Hz by done; done.

Lemma shape_string o : obj_shape o -> type_ o = STRING -> o = object_of_string (string_val_ o).
Proof. solve_shape. Qed.

Lemma shape_list o : obj_shape o -> type_ o = LIST -> o = object_of_list (list_val_ o).
Proof. solve_shape. Qed.

Lemma shape_hash o : obj_shape o -> type_ o = HASH -> o = hash_object (hash_val_ o).
Proof. solve_shape. Qed.

Lemma shape_set o : obj_shape o -> type_ o = SET -> o = set_object (set_val_ o).
Proof. solve_shape. Qed.

Lemma shape_zset o : obj_shape o -> type_ o = ZSET -> o = zset_object (zset_val_ o).
Proof. solve_shape. Qed.

Lemma list_object_ok l : l <> [] -> obj_ok (object_of_list l).
Proof. split; [|done]. split; try done. split; [done|apply zset_wf_nil]. Qed.

Lemma hash_object_ok h : h <> ∅ -> obj_ok (hash_object h).
Proof. split; [|done]. split; try done. split; [done|apply zset_wf_nil]. Qed.

Lemma set_object_ok s : s <> ∅ -> obj_ok (set_object s).
Proof. split; [|done]. split; try done. split; [done|apply zset_wf_nil]. Qed.

Lemma zset_object_ok l : zset_wf l -> l <> [] -> obj_ok (zset_object l).
Proof. split; [|done]. by split. Qed.

(** ** The object operations on objects the commands store *)

Lemma list_push_list v front l :
  list_push v front (object_of_list l) = (true, object_of_list (if front then v :: l else l ++ [v])).
Proof. done. Qed.

(** A string that becomes a list is its first element, unless it is empty. *)
Definition promoted (s : bytes) : list bytes := if bool_decide (s = []) then [] else [s].

Lemma list_push_string v front s :
  list_push v front (object_of_string s) =
  (true, object_of_list (if front then v :: promoted s else promoted s ++ [v])).
Proof. unfold list_push, promoted. simpl. by case_bool_decide. Qed.

Lemma hash_set_hash f v h : hash_set f v (hash_object h) = (true, hash_object (<[f := v]> h)).
Proof. done. Qed.

Lemma hash_set_string f v s : hash_set f v (object_of_string s) = (true, hash_object {[f := v]}).
Proof. done. Qed.

Lemma set_add_set x e :
  set_add x (set_object e) = (bool_decide (x ∉ e), set_object ({[x]} ∪ e)).
Proof. done. Qed.

Lemma set_add_string x s : set_add x (object_of_string s) = (true, set_object {[x]}).
Proof.
  unfold set_add, set_object. simpl. rewrite bool_decide_eq_true_2 by set_solver.
  unfold with_set, with_type, discard_string_payload, with_string. simpl.
  by rewrite (right_id_L ∅ (∪)).
Qed.

Lemma zset_add_zset m s l :
  zset_add m s (zset_object l) = ((zadd m s l).1, zset_object (zadd m s l).2).
Proof. rewrite zset_add_eq by by left. done. Qed.

Lemma zset_add_string m s str :
  zset_add m s (object_of_string str) = (true, zset_object [(m, s)]).
Proof. done. Qed.

Lemma zadd_nonempty m s l : zset_wf l -> isnan s = false -> (zadd m s l).2 <> [].
Proof.
  intros Hl Hs. destruct (zadd_spec m s l Hl Hs) as [_ Hz].
  destruct (zmap l !! m) as [s0|] eqn:Hm.
  - destruct (dkey s0 =? dkey s).
    + rewrite Hz. cbn [snd]. by intros ->.
    + destruct Hz as [_ Hz]. intros He. rewrite He in Hz.
      apply (f_equal (lookup m)) in Hz. by rewrite lookup_insert_eq in Hz.
  - destruct Hz as [_ Hz]. intros He. rewrite He in Hz.
    apply (f_equal (lookup m)) in Hz. by rewrite lookup_insert_eq in Hz.
Qed.

(** An operation for one type leaves an object of a third type alone. *)
Lemma type_guard t o : type_ o <> t -> type_ o <> STRING ->
  negb (is_type t o) && negb (is_type STRING o) = true.
Proof. intros H1%is_type_false H2%is_type_false. by rewrite H1, H2. Qed.

(** Replace an object of a known type by its written-out form. *)
Ltac typed_cases t H :=
  let o := match type of H with obj_ok ?o => o end in
  destruct (decide (type_ o = t));
    [|destruct (decide (type_ o = STRING))].

Lemma list_push_ok v front o : obj_ok o -> obj_ok (list_push v front o).2.
Proof.
  intros Ho. typed_cases LIST Ho.
  - rewrite (shape_list o) by (done || apply Ho). rewrite list_push_list.
    apply list_object_ok. destruct front; [done|by destruct (list_val_ o)].
  - rewrite (shape_string o) by (done || apply Ho). rewrite list_push_string.
    apply list_object_ok. destruct front; [done|by destruct (promoted _)].
  - unfold list_push. by rewrite type_guard.
Qed.

Lemma hash_set_ok f v o : obj_ok o -> obj_ok (hash_set f v o).2.
Proof.
  intros Ho. typed_cases HASH Ho.
  - rewrite (shape_hash o) by (done || apply Ho). rewrite hash_set_hash.
    apply hash_object_ok. apply insert_non_empty.
  - rewrite (shape_string o) by (done || apply Ho). rewrite hash_set_string.
    apply hash_object_ok. apply insert_non_empty.
  - unfold hash_set. by rewrite type_guard.
Qed.

Lemma set_add_ok x o : obj_ok o -> obj_ok (set_add x o).2.
Proof.
  intros Ho. typed_cases SET Ho.
  - rewrite (shape_set o) by (done || apply Ho). rewrite set_add_set.
    apply set_object_ok. set_solver.
  - rewrite (shape_string o) by (done || apply Ho). rewrite set_add_string.
    apply set_object_ok. set_solver.
  - unfold set_add. by rewrite type_guard.
Qed.

Lemma zset_add_ok m s o : isnan s = false -> obj_ok o -> obj_ok (zset_add m s o).2.
Proof.
  intros Hs Ho. pose proof (owf_zset o (osh_wf o (proj1 Ho))) as Hwf. typed_cases ZSET Ho.
  - rewrite (shape_zset o) by (done || apply Ho). rewrite zset_add_zset.
    apply zset_object_ok; [by apply zadd_spec|by apply zadd_nonempty].
  - rewrite (shape_string o) by (done || apply Ho). rewrite zset_add_string.
    apply zset_object_ok; [|done]. apply (zadd_spec m s []); [apply zset_wf_nil|done].
  - unfold zset_add. by rewrite type_guard.
Qed.

(** A loop of operations that keep a property keeps it. *)
Lemma foldl_keeps {A} (P : CacheObject -> Prop) (f : CacheObject -> A -> CacheObject) l o :
  (forall o x, x ∈ l -> P o -> P (f o x)) -> P o -> P (foldl f o l).
Proof.
  revert o; induction l as [|x l IH]; intros o Hf Ho; simpl; [done|].
  apply IH; [|apply Hf; [left|done]]. intros. apply Hf; [by right|done].
Qed.

(** [count_ops] applies the operations in order. *)
Lemma count_ops_snd {A} (f : A -> CacheObject -> bool * CacheObject) l o :
  (count_ops f l o).2 = foldl (fun o x => (f x o).2) o l.
Proof.
  unfold count_ops. generalize 0 at 1. revert o.
  induction l as [|x l IH]; intros o n; simpl; [done|].
  destruct (f x o) as [b o']. apply IH.
Qed.

(** ** Replies *)

(** The values a command answers with. *)
Inductive reply_value : RespValue -> Prop :=
  | rv_simple s : no_cr s -> reply_value (mkValue SIMPLE_STRING (DString s))
  | rv_error s : no_cr s -> reply_value (mkValue ERROR (DString s))
  | rv_integer n : reply_value (mkValue INTEGER (DInt n))
  | rv_bulk s : reply_value (mkValue BULK_STRING (DString s))
  | rv_array l : reply_value (command_value l).

(** A reply is nil or the wire format of one value. *)
Inductive is_reply : bytes -> Prop :=
  | reply_nil : is_reply encode_nil
  | reply_wire v : reply_value v -> is_reply (wire v).

(** Sizes and integers within the 64 bits of the wire format. *)
Definition sized (v : RespValue) : Prop :=
  match v with
  | mkValue INTEGER (DInt n) => in_i64 n
  | mkValue BULK_STRING (DString s) => in_i64 (zlen s)
  | mkValue ARRAY (DArray l) =>
      in_i64 (zlen l) /\ Forall (fun x => in_i64 (zlen (as_string x))) l
  | _ => True
  end.

Lemma reply_value_wire_ok v : reply_value v -> sized v -> wire_ok 1 v.
Proof.
  destruct 1; simpl; try done. intros [Hl Hs]. split; [done|].
  rewrite Forall_fmap in Hs |- *. exact Hs.
Qed.

Lemma reply_integer n : is_reply (encode_integer n).
Proof. exact (reply_wire _ (rv_integer n)). Qed.

Lemma reply_bulk s : is_reply (encode_bulk_string s).
Proof. exact (reply_wire _ (rv_bulk s)). Qed.

Lemma reply_array l : is_reply (encode_array l).
Proof. rewrite <-wire_command. apply reply_wire, rv_array. Qed.

Lemma reply_simple s : no_cr s -> is_reply (encode_simple_string s).
Proof. intros Hs. exact (reply_wire _ (rv_simple s Hs)). Qed.

Lemma reply_ok : is_reply encode_ok.
Proof. apply (reply_simple (lit "OK")). by repeat constructor. Qed.

(** An error text without line ends makes one error value. *)
Lemma reply_error e : no_cr e -> is_reply (encode_error e).
Proof.
  intros He. unfold encode_error. destruct (_ || _).
  - exact (reply_wire _ (rv_error e He)).
  - change (lit "-ERR " ++ e ++ crlf) with (wire (mkValue ERROR (DString (lit "ERR " ++ e)))).
    apply reply_wire, rv_error. by repeat constructor.
Qed.

Lemma reply_wrong_args name : no_cr name -> is_reply (wrong_args name).
Proof.
  intros Hn. apply reply_error. apply Forall_app. split; [by repeat constructor|].
  apply Forall_app. split; [done|by repeat constructor].
Qed.

Lemma reply_bulk_or_nil o : is_reply (bulk_or_nil o).
Proof. destruct o; [apply reply_bulk|constructor]. Qed.

Lemma reply_wrongtype : is_reply wrongtype.
Proof. apply reply_error. by repeat constructor. Qed.

Lemma reply_or_wrongtype {R} (f : R -> bytes) r :
  (forall x, is_reply (f x)) -> is_reply (or_wrongtype f r).
Proof. intros Hf. destruct r; [apply Hf|apply reply_wrongtype]. Qed.

(** The fixed replies. *)
Ltac literal_reply :=
  first [ apply reply_wrong_args | apply reply_simple | apply reply_error ]; by repeat constructor.

Create HintDb reply_db.
#[local] Hint Constructors is_reply : reply_db.
#[local] Hint Resolve reply_integer reply_bulk reply_array reply_ok reply_bulk_or_nil
  reply_wrongtype reply_or_wrongtype : reply_db.
#[local] Hint Extern 2 (is_reply _) => literal_reply : reply_db.

Section spec.
Context `{StringHash} `{StoreOrder} `{HashOrder} `{DoubleText} `{DoubleLib}.

Definition store_ok (s : Storage) : Prop :=
  storage_wf s /\ forall k e, entry s k = Some e -> obj_ok (value e).

Lemma new_storage_ok : store_ok new_storage.
Proof.
  split; [apply new_storage_wf|]. intros k e. unfold entry, shard_of, store_at.
  cbn [new_storage stores_]. rewrite lookup_replicate_2 by apply get_shard_index_lt.
  simpl. by rewrite lookup_empty.
Qed.

Lemma store_ok_insert k e s : store_ok s -> obj_ok (value e) -> store_ok (insert_entry k e s).
Proof.
  intros [Hwf Ho] He. split; [by apply wf_insert|]. intros k' e'.
  rewrite entry_insert by apply Hwf. case_decide; [by intros [= <-]|apply Ho].
Qed.

Lemma store_ok_dirty s : store_ok s -> store_ok (increment_dirty s).
Proof. intros [Hwf Ho]. split; [by apply wf_increment_dirty|done]. Qed.

Lemma store_ok_remove k s : store_ok s -> store_ok (remove_expire k s).
Proof. intros [Hwf Ho]. split; [by apply wf_remove_expire|done]. Qed.

Lemma store_ok_drop k s : store_ok s -> store_ok (remove_expire k (erase_entry k s)).
Proof.
  intros [Hwf Ho]. split; [by apply wf_drop|]. intros k' e'.
  rewrite entry_remove_expire, entry_erase by apply Hwf. case_decide; [done|apply Ho].
Qed.

Lemma store_ok_time k t s :
  store_ok s -> is_Some (entry s k) -> 0 < t <= int64_max ->
  store_ok (with_expire (ExpireDict.set_expire_time k t (expire_dict_ s)) s).
Proof. intros [Hwf Ho] ? ?. split; [by apply wf_set_time|done]. Qed.

Lemma store_ok_evict now draw s : store_ok s -> store_ok (evict_if_needed now draw s).
Proof.
  intros [Hwf Ho]. destruct (evict_if_needed_spec now draw s Hwf) as (Hwf' & _ & _ & He).
  split; [done|]. intros k e Hk. destruct (He k) as [[Hs _]|[Hs _]]; [|congruence].
  rewrite Hs in Hk. by eapply Ho.
Qed.

Lemma store_ok_drop_expired now k s : store_ok s -> store_ok (drop_expired now k s).
Proof.
  intros Hs. unfold drop_expired. destruct (shard_of k s !! k); [|done].
  destruct (is_expired now k s); [by apply store_ok_drop|done].
Qed.

#[local] Hint Resolve store_ok_insert store_ok_dirty store_ok_remove store_ok_drop store_ok_evict
  store_ok_drop_expired string_object_ok new_object_ok : cc_db.

(** ** A program logic for the invariant *)

(** [m] keeps the store well-formed and its result satisfies [P]. *)
Definition keeps {A} (m : cmd A) (P : A -> Prop) : Prop :=
  forall s, store_ok s -> store_ok (m s).2 /\ P (m s).1.

Lemma keeps_ret {A} (a : A) (P : A -> Prop) : P a -> keeps (mret a) P.
Proof. intros Ha s Hs. by split. Qed.

Lemma keeps_bind {A B} (m : cmd A) (f : A -> cmd B) (P : A -> Prop) (Q : B -> Prop) :
  keeps m P -> (forall a, P a -> keeps (f a) Q) -> keeps (m ≫= f) Q.
Proof.
  intros Hm Hf s Hs. destruct (Hm s Hs) as [Hs1 Ha].
  unfold mbind, cmd_bind. destruct (m s) as [a s1]. by apply Hf.
Qed.

Lemma keeps_fmap {A B} (m : cmd A) (g : A -> B) (P : A -> Prop) (Q : B -> Prop) :
  keeps m P -> (forall a, P a -> Q (g a)) -> keeps (g <$> m) Q.
Proof.
  intros Hm Hg s Hs. destruct (Hm s Hs) as [Hs1 Ha].
  unfold fmap, cmd_fmap. destruct (m s) as [a s1]. cbn [fst snd] in *. split; [done|by apply Hg].
Qed.

Lemma keeps_weaken {A} (m : cmd A) (P Q : A -> Prop) :
  keeps m P -> (forall a, P a -> Q a) -> keeps m Q.
Proof. intros Hm HPQ s Hs. destruct (Hm s Hs). split; [done|by apply HPQ]. Qed.

Context (now : Z) (draw : rng) (spop_draw : nat).
Hypothesis Hnow : 0 <= now < int64_max.

Lemma keeps_get k : keeps (store_get now k) (fun r => forall o, r = Some o -> obj_ok o).
Proof.
  intros s Hs. pose proof Hs as [Hwf Ho]. unfold store_get, get, get_lookup. fold (entry s k).
  destruct (entry s k) as [e|] eqn:He; [|by split].
  destruct (is_expired now k s).
  - split; [|done]. unfold del. rewrite <-remove_erase_comm. cbn [fst snd].
    case_bool_decide; auto with cc_db.
  - cbn [fst snd]. split.
    + apply store_ok_insert; [done|]. exact (Ho k e He).
    + intros o [= <-]. exact (Ho k e He).
Qed.

Lemma keeps_del k : keeps (store_del k) (fun _ => True).
Proof.
  intros s Hs. split; [|done]. unfold store_del, del. rewrite <-remove_erase_comm. cbn [fst snd].
  case_bool_decide; auto with cc_db.
Qed.

Lemma keeps_exist k : keeps (store_exist now k) (fun _ => True).
Proof. intros s Hs. by split. Qed.

Lemma keeps_set k v : obj_ok v -> keeps (store_set now draw k v) (fun _ => True).
Proof.
  intros Hv s Hs. split; [|done]. unfold store_set, set, set_locked. cbn [snd]. auto with cc_db.
Qed.

Lemma store_ok_set_with_expire k v ms s :
  store_ok s -> obj_ok v -> store_ok (set_with_expire_locked now k v ms s).
Proof using Hnow.
  intros [Hwf Ho] Hv. split; [by apply set_with_expire_live|]. intros k' e'.
  unfold set_with_expire_locked. rewrite entry_increment_dirty, entry_insert
    by (destruct (0 <? ms); apply Hwf).
  case_decide; [by intros [= <-]|]. destruct (0 <? ms); apply Ho.
Qed.

Lemma keeps_set_with_expire k v ms :
  obj_ok v -> keeps (store_set_with_expire now draw k v ms) (fun _ => True).
Proof using Hnow.
  intros Hv s Hs. split; [|done]. unfold store_set_with_expire, set_with_expire. cbn [snd].
  apply store_ok_set_with_expire; [by apply store_ok_evict|done].
Qed.

(** The value in a store is one of its objects. *)
Lemma store_ok_value k s o : store_ok s -> value <$> entry s k = Some o -> obj_ok o.
Proof. intros [_ Ho]. destruct (entry s k) eqn:He; [|done]. intros [= <-]. exact (Ho k _ He). Qed.

Lemma store_ok_set_conditional k v c ms keep s :
  store_ok s -> obj_ok v ->
  let r := set_conditional_locked now k v c ms keep s in
  store_ok r.2 /\ forall o, r.1.2 = Some o -> obj_ok o.
Proof using Hnow.
  intros Hs Hv. destruct (set_conditional_live now k v c ms keep s (proj1 Hs) Hnow) as (Hwf3 & _ & _).
  revert Hwf3. unfold set_conditional_locked.
  pose proof (store_ok_drop_expired now k s Hs) as Hs2.
  generalize dependent (drop_expired now k s). intros s2 Hs2 Hwf3. fold (entry s2 k) in *.
  pose proof (fun o => store_ok_value k s2 o Hs2) as Hprev. destruct Hs2 as [Hwf2 Ho2].
  assert (forall s3, (forall k', entry s3 k' = if decide (k' = k) then Some (mkEntry v now) else entry s2 k') ->
    forall k' e, entry s3 k' = Some e -> obj_ok (value e)) as Hnew.
  { intros s3 Hs3 k' e. rewrite Hs3. case_decide; [by intros [= <-]|apply Ho2]. }
  destruct c, (bool_decide (is_Some (value <$> entry s2 k))); cbn [fst snd] in *;
    (split; [split; [exact Hwf3 || exact Hwf2|]|exact Hprev]); try exact Ho2;
    apply Hnew; intros k'; destruct keep; (destruct (0 <? _);
    exact (entry_insert k _ s2 k' (swf_length s2 Hwf2))).
Qed.

Lemma keeps_set_conditional k v c ms keep :
  obj_ok v ->
  keeps (store_set_conditional now draw k v c ms keep)
    (fun r => forall o, r.2 = Some o -> obj_ok o).
Proof using Hnow.
  intros Hv s Hs. unfold store_set_conditional, set_conditional.
  apply store_ok_set_conditional; [by apply store_ok_evict|done].
Qed.

(** A function for [mutate] that writes good objects and gives a good result. *)
Definition fn_ok {R} (fn : CacheObject -> StoreOp * CacheObject * R) (P : R -> Prop) : Prop :=
  forall o, obj_ok o -> let '(op, o', r) := fn o in (op = kWrite -> obj_ok o') /\ P r.

Lemma store_ok_mutate {R} k want (fn : CacheObject -> StoreOp * CacheObject * R) promote P s :
  store_ok s -> fn_ok fn P ->
  let r := mutate_locked now k want fn promote s in
  store_ok r.2 /\ forall x, r.1 = Some x -> P x.
Proof.
  intros Hs Hfn. unfold mutate_locked.
  pose proof (store_ok_drop_expired now k s Hs) as Hs2.
  generalize dependent (drop_expired now k s). intros s2 Hs2. fold (entry s2 k) in *.
  destruct (entry s2 k) as [e|] eqn:He.
  - destruct (negb _ && negb _); [done|].
    pose proof (Hfn (value e) (proj2 Hs2 k e He)) as Hf. destruct (fn (value e)) as [[op o'] r].
    destruct Hf as [Hw Hr].
    destruct op; cbn [fst snd]; (split; [auto with cc_db|by intros x [= <-]]).
  - pose proof (Hfn _ new_object_ok) as Hf. destruct (fn new_object) as [[op o'] r].
    destruct Hf as [Hw Hr].
    destruct op; cbn [fst snd]; (split; [auto with cc_db|by intros x [= <-]]).
Qed.

Lemma keeps_mutate {R} k want (fn : CacheObject -> StoreOp * CacheObject * R) promote P :
  fn_ok fn P ->
  keeps (store_mutate now draw k want fn promote) (fun r => forall x, r = Some x -> P x).
Proof.
  intros Hfn s Hs. unfold store_mutate, mutate. apply store_ok_mutate; [by apply store_ok_evict|done].
Qed.

Lemma store_ok_write_string k str s :
  store_ok s -> store_ok (increment_dirty (insert_entry k (mkEntry (object_of_string str) now) s)).
Proof. intros Hs. apply store_ok_dirty, store_ok_insert; [done|]. apply string_object_ok. Qed.

Lemma store_ok_incrby k delta s : store_ok s -> store_ok (incrby_locked now k delta s).2.
Proof.
  intros Hs. unfold incrby_locked. rewrite incrby_drop by apply Hs.
  pose proof (store_ok_drop_expired now k s Hs) as Hs2.
  generalize dependent (drop_expired now k s). intros s2 Hs2. fold (entry s2 k) in *.
  destruct (entry s2 k) as [e|].
  - destruct (get_string _); [|done]. destruct (IntParse.parse_ll_strict _); [|done].
    case_ifs; cbn [snd]; auto using store_ok_write_string.
  - case_ifs; cbn [snd]; auto using store_ok_write_string.
Qed.

Lemma keeps_incrby k delta : keeps (store_incrby now draw k delta) (fun _ => True).
Proof.
  intros s Hs. unfold store_incrby, incrby. split; [|done].
  apply store_ok_incrby. by apply store_ok_evict.
Qed.

(** ** The functions the commands pass to [mutate] *)

Lemma push_fn_ok vals front : fn_ok (push_fn vals front) (fun _ => True).
Proof.
  intros o Ho. unfold push_fn. split; [|done]. intros _.
  apply foldl_keeps; [|done]. intros. by apply list_push_ok.
Qed.

Lemma pop_fn_ok front : fn_ok (pop_fn front) (fun _ => True).
Proof.
  intros o Ho. unfold pop_fn. destruct (list_pop front o) as [[v|] o'] eqn:Hp; [|done].
  split; [|done]. destruct (Z.eqb_spec (list_size o') 0) as [|Hsz]; [done|]. intros _.
  unfold list_pop in Hp. destruct (is_type LIST o) eqn:Ht; [|done]. apply is_type_true in Ht.
  rewrite (shape_list o) in Hp by (done || apply Ho). cbn [negb list_val_ object_of_list] in Hp.
  unfold list_size, zlen in Hsz.
  destruct (list_val_ o) as [|x l]; [done|]. destruct front; simplify_eq;
    cbn [list_val_ with_list] in Hsz;
    apply list_object_ok; intros Hn; apply Hsz; by rewrite Hn.
Qed.

Lemma hset_fn_ok field v : fn_ok (hset_fn field v) (fun _ => True).
Proof. intros o Ho. split; [|done]. intros _. by apply hash_set_ok. Qed.

Lemma sadd_fn_ok members : fn_ok (sadd_fn members) (fun _ => True).
Proof.
  intros o Ho. unfold sadd_fn. pose proof (count_ops_snd set_add members o) as Hc.
  destruct (count_ops set_add members o) as [n o']. simpl in Hc. subst o'. split; [|done].
  intros _. apply foldl_keeps; [|done]. intros. by apply set_add_ok.
Qed.

Lemma zadd_fn_ok entries :
  Forall (fun e => isnan e.2 = false) entries -> fn_ok (zadd_fn entries) (fun _ => True).
Proof.
  intros He o Ho. unfold zadd_fn.
  pose proof (count_ops_snd (fun e => zset_add e.1 e.2) entries o) as Hc.
  destruct (count_ops _ entries o) as [n o']. simpl in Hc. subst o'. split; [|done].
  intros _. apply foldl_keeps; [|done]. rewrite Forall_forall in He.
  intros o1 x Hx. apply zset_add_ok. by apply He.
Qed.

(** A shape, with elements unless the object is a hash. *)
Definition hash_shape (o : CacheObject) : Prop := obj_shape o /\ (type_ o <> HASH -> nonempty o).

Lemma hash_del_shape f o : hash_shape o -> hash_shape (hash_del f o).2.
Proof.
  intros [Hs Hn]. unfold hash_del. destruct (is_type HASH o) eqn:Ht; [|done].
  apply is_type_true in Ht. cbn [negb snd]. rewrite (shape_hash o Hs Ht). split; [|done].
  split; try done. split; [done|apply zset_wf_nil].
Qed.

Lemma hdel_fn_ok fields : fn_ok (hdel_fn fields) (fun _ => True).
Proof.
  intros o Ho. unfold hdel_fn. pose proof (count_ops_snd hash_del fields o) as Hc.
  destruct (count_ops hash_del fields o) as [n o']. simpl in Hc.
  destruct (n =? 0); [done|]. split; [|done].
  destruct (Z.eqb_spec (hash_size o') 0) as [|Hsz]; [done|]. intros _.
  assert (hash_shape o') as [Hs Hn].
  { subst o'. apply foldl_keeps; [intros; by apply hash_del_shape|]. split; [apply Ho|intros; apply Ho]. }
  split; [done|]. destruct (decide (type_ o' = HASH)) as [Ht|Ht]; [|auto].
  unfold nonempty. rewrite Ht. intros He. unfold hash_size in Hsz. by rewrite He, map_size_empty in Hsz.
Qed.

Lemma spop_fn_ok pick : fn_ok (spop_fn pick) (fun _ => True).
Proof.
  intros o Ho. unfold spop_fn. destruct (_ !! _) as [x|] eqn:Hx; [|done]. split; [|done].
  destruct (Z.eqb_spec (set_size (set_remove x o).2) 0) as [|Hsz]; [done|]. intros _.
  unfold set_members in Hx. destruct (is_type SET o) eqn:Ht; [|done]. apply is_type_true in Ht.
  rewrite (shape_set o) in Hsz |- * by (done || apply Ho).
  apply set_object_ok. intros He. apply Hsz. unfold set_size.
  change (set_val_ (set_remove x (set_object (set_val_ o))).2) with (set_val_ o ∖ {[x]}).
  change (set_val_ o ∖ {[x]} = ∅) in He. rewrite He. by rewrite size_empty.
Qed.

(** ** The objects RESTORE reads *)

Lemma read_loop_inv {S} (P : S -> Prop) body fuel count rest (x : S) y r :
  (forall rest x x' r, P x -> body rest x = inr (x', r) -> P x') -> P x ->
  read_loop body fuel count rest x = Some (inr (y, r)) -> P y.
Proof.
  intros Hb. revert count rest x. induction fuel as [|fuel IH]; intros count rest x Hx; cbn [read_loop].
  { destruct (count <=? 0); [|done]. by intros [= <- <-]. }
  destruct (count <=? 0); [by intros [= <- <-]|].
  destruct (body rest x) as [|[x' rest']] eqn:Hbody; [done|]. apply IH. by eapply Hb.
Qed.

Lemma finish_obj what rest o o' : finish what rest o = DOk o' -> o' = o.
Proof. unfold finish. case_bool_decide; [by intros [= <-]|done]. Qed.

Lemma run_records_ok what count rest body o o' :
  (forall rest o o' r, obj_ok o -> body rest o = inr (o', r) -> obj_ok o') -> obj_ok o ->
  run_records what count rest body o = DOk o' -> obj_ok o'.
Proof.
  intros Hb Ho. unfold run_records. destruct (read_loop _ _ _ _ _) as [[[]|[o1 r]]|] eqn:Hr; [done| |done].
  intros ->%finish_obj. by eapply (read_loop_inv obj_ok).
Qed.

Lemma read_score_num text s : read_score text = Some s -> isnan s = false.
Proof.
  unfold read_score. destruct (from_chars_double text) as [x|]; [|done].
  destruct (isnan x) eqn:Hn; [done|]. destruct (isinf x); [done|]. by intros [= <-].
Qed.

Lemma deserialize_obj_ok payload o : deserialize payload new_object = DOk o -> obj_ok o.
Proof.
  unfold deserialize. destruct (split_line payload) as [[type rest]|]; [|done].
  case_bool_decide.
  { destruct (read_record rest) as [[v r]|]; [|done]. intros ->%finish_obj. apply string_object_ok. }
  case_bool_decide.
  { destruct (read_count rest) as [[count r]|]; [|done]. destruct (_ <? _); [done|].
    destruct (read_loop _ _ _ _ _) as [[[]|[elems r']]|]; [done| |done].
    destruct (finish _ _ _) as [o1| | |] eqn:Hf; [|done..]. apply finish_obj in Hf as ->.
    intros [= <-]. apply foldl_keeps; [|apply new_object_ok]. intros. by apply list_push_ok. }
  case_bool_decide.
  { destruct (read_count rest) as [[count r]|]; [|done]. apply run_records_ok; [|apply new_object_ok].
    intros rest' o1 o2 r2 Ho1. unfold hash_body.
    destruct (read_record rest') as [[f r3]|]; [|done]. destruct (read_record r3) as [[v r4]|]; [|done].
    intros [= <- _]. by apply hash_set_ok. }
  case_bool_decide.
  { destruct (read_count rest) as [[count r]|]; [|done]. apply run_records_ok; [|apply new_object_ok].
    intros rest' o1 o2 r2 Ho1. unfold set_body.
    destruct (read_record rest') as [[m r3]|]; [|done]. intros [= <- _]. by apply set_add_ok. }
  case_bool_decide; [|done].
  destruct (read_count rest) as [[count r]|]; [|done]. apply run_records_ok; [|apply new_object_ok].
  intros rest' o1 o2 r2 Ho1. unfold zset_body.
  destruct (read_record rest') as [[m r3]|]; [|done]. destruct (read_record r3) as [[st r4]|]; [|done].
  destruct (read_score st) as [sc|] eqn:Hsc; [|done]. intros [= <- _].
  apply zset_add_ok; [|done]. by eapply read_score_num.
Qed.

(** ** Every command *)

Create HintDb keeps_db.
#[local] Hint Resolve push_fn_ok pop_fn_ok hset_fn_ok hdel_fn_ok sadd_fn_ok spop_fn_ok zadd_fn_ok
  keeps_get keeps_del keeps_exist keeps_set keeps_set_with_expire keeps_set_conditional
  keeps_mutate keeps_incrby string_object_ok deserialize_obj_ok : keeps_db.

(** One step through the text of a command. *)
Ltac cmd_step :=
  lazymatch goal with
  | |- keeps (mret _) _ => apply keeps_ret; eauto with reply_db
  | |- keeps (_ ≫= _) _ => eapply keeps_bind; [eauto with keeps_db|intros ? ?]
  | |- keeps (if ?b then _ else _) _ => destruct b eqn:?
  | |- keeps (match ?x with _ => _ end) _ => destruct x eqn:?
  | |- keeps (let _ := _ in _) _ => cbv zeta
  | |- is_reply (if ?b then _ else _) => destruct b
  | |- is_reply (match ?x with _ => _ end) => destruct x
  | |- is_reply _ => solve [eauto with reply_db]
  end.

(** A command keeps the store and answers with one reply. *)
Abbreviation answers m := (keeps m is_reply).

Lemma read_typed_answers key want absent reply :
  is_reply absent -> (forall o, is_reply (reply o)) -> answers (read_typed now key want absent reply).
Proof. intros Ha Hr. unfold read_typed. repeat cmd_step; auto with reply_db. Qed.

Lemma parse_set_opts_error l o err : parse_set_opts l o = inl err -> is_reply err.
Proof.
  revert o. induction l as [l IH] using (induction_ltof1 _ length). unfold ltof in IH.
  intros o. destruct l as [|a l]; [done|]. cbn [parse_set_opts].
  repeat match goal with
  | |- inl _ = inl _ -> _ => intros [= <-]; auto with reply_db
  | |- inr _ = inl _ -> _ => done
  | |- parse_set_opts _ _ = inl _ -> _ => apply IH; simpl; lia
  | |- (if ?b then _ else _) = _ -> _ => destruct b
  | |- match ?x with _ => _ end = _ -> _ => destruct x
  end.
Qed.

Lemma set_ttl_error o err : set_ttl now o = inl err -> is_reply err.
Proof.
  unfold set_ttl. destruct (so_mode o); case_ifs; intros [= <-]; auto with reply_db.
Qed.

Lemma parse_scores_error l err : parse_scores l = inl err -> is_reply err.
Proof.
  induction l as [l IH] using (induction_ltof1 _ length). unfold ltof in IH.
  destruct l as [|a [|m l]]; [done..|]. cbn [parse_scores].
  destruct (stod a) as [[score consumed]|]; [|intros [= <-]; auto with reply_db].
  case_ifs; [intros [= <-]; auto with reply_db..|].
  destruct (parse_scores l) eqn:Hl; [|done]. intros [= <-]. apply (IH l); [simpl; lia|done].
Qed.

Lemma parse_scores_num l es : parse_scores l = inr es -> Forall (fun e => isnan e.2 = false) es.
Proof.
  revert es. induction l as [l IH] using (induction_ltof1 _ length). unfold ltof in IH. intros es.
  destruct l as [|a [|m l]]; [by intros [= <-]..|]. cbn [parse_scores].
  destruct (stod a) as [[score consumed]|]; [|done]. destruct (negb _); [done|].
  destruct (isnan score || isinf score) eqn:Hn; [done|]. apply orb_false_iff in Hn as [Hn _].
  destruct (parse_scores l) eqn:Hl; [done|]. intros [= <-].
  constructor; [done|]. by apply (IH l); [simpl; lia|].
Qed.

#[local] Hint Resolve parse_set_opts_error set_ttl_error parse_scores_error : reply_db.
#[local] Hint Resolve parse_scores_num read_typed_answers : keeps_db.

Lemma is_non_string_keeps key : keeps (is_non_string now key) (fun _ => True).
Proof. unfold is_non_string. repeat cmd_step; done. Qed.

Lemma set_with_opts_answers key v o ms past :
  answers (set_with_opts now draw key v o ms past).
Proof using Hnow.
  unfold set_with_opts.
  apply (keeps_bind _ _ (fun _ => True)).
  { destruct (so_get o); [apply is_non_string_keeps|by apply keeps_ret]. }
  intros b _. repeat cmd_step.
Qed.

Lemma apply_incrby_answers key delta : answers (apply_incrby now draw key delta).
Proof. unfold apply_incrby. repeat cmd_step. Qed.

Lemma del_keys_keeps keys n : keeps (del_keys keys n) (fun _ => True).
Proof.
  revert n; induction keys as [|k keys IH]; intros n; cbn [del_keys]; [by apply keeps_ret|].
  cmd_step. apply IH.
Qed.

#[local] Hint Resolve set_with_opts_answers apply_incrby_answers del_keys_keeps : keeps_db.

Lemma expire_answers args : answers (expire_cmd now args).
Proof using Hnow.
  unfold expire_cmd. cmd_step; [cmd_step|]. cbv zeta. cmd_step; [cmd_step|]. destruct (stoll _) as [[z ?]|]; [|cmd_step].
  - intros s Hs. unfold store_exist. unfold mbind, cmd_bind.
    destruct (exist now (arg 1 args) s) eqn:Hx; cbn [negb];
      [|exact (keeps_ret _ _ (reply_integer 0) s Hs)].
    destruct (Z.leb_spec z 0) as [|Hz].
    { destruct (keeps_del (arg 1 args) s Hs) as [Hd _]. unfold store_del in *.
      destruct (del (arg 1 args) s). exact (keeps_ret _ _ (reply_integer 1) _ Hd). }
    cbn [fst snd]. split; [|auto with reply_db].
    apply store_ok_dirty, store_ok_time; [done| |].
    + rewrite exist_live in Hx. apply bool_decide_eq_true in Hx. unfold live in Hx.
      destruct (entry s (arg 1 args)); [done|by destruct Hx].
    + apply sat_add_ok; [done|]. unfold ttl_seconds_to_ms. case_ifs; [done|lia].
Qed.

Lemma persist_answers args : answers (persist_cmd now args).
Proof.
  unfold persist_cmd. repeat cmd_step. intros s Hs.
  destruct (negb (exist _ _ _)); [exact (keeps_ret _ _ (reply_integer 0) s Hs)|].
  unfold ExpireDict.persist. destruct (_ !! _); cbn [fst snd]; (split; [|auto with reply_db]).
  - apply store_ok_dirty. exact (store_ok_remove (arg 1 args) s Hs).
  - by destruct s.
Qed.

Lemma flushdb_answers args : answers (flushdb_cmd args).
Proof.
  intros s Hs. split; [|auto with reply_db]. cbn [flushdb_cmd snd].
  destruct (clear_live 0 s (proj1 Hs)) as [Hwf _]. split; [done|]. intros k e.
  unfold entry, shard_of, store_at. rewrite clear_stores by apply Hs.
  rewrite lookup_replicate_2 by apply get_shard_index_lt. simpl. by rewrite lookup_empty.
Qed.

(** RESTORE may leave by the exception of [vector::reserve]. *)
Lemma restore_answers args :
  keeps (restore_cmd now draw args) (fun r => forall b, r = Some b -> is_reply b).
Proof using Hnow.
  unfold restore_cmd. destruct (_ <? _)%nat; [apply keeps_ret; intros ? [= <-]; auto with reply_db|].
  destruct (stoll _) as [[ms ?]|]; [|apply keeps_ret; intros ? [= <-]; auto with reply_db].
  apply (keeps_bind _ _ (fun _ => True)).
  { destruct (_ && _); [by apply keeps_ret|apply keeps_exist]. }
  intros busy _. destruct busy; [apply keeps_ret; intros ? [= <-]; auto with reply_db|].
  destruct (deserialize _ _) as [o| | |] eqn:Hd;
    [|apply keeps_ret; intros ? [= <-]; auto with reply_db|by apply keeps_ret..].
  apply (keeps_bind _ _ (fun _ => True)).
  { destruct (0 <? ms); [apply keeps_set_with_expire|apply keeps_set]; by eapply deserialize_obj_ok. }
  intros _ _. apply keeps_ret. intros ? [= <-]. auto with reply_db.
Qed.

#[local] Hint Resolve expire_answers persist_answers flushdb_answers : keeps_db.

Lemma plain_answers (m : cmd bytes) :
  answers m -> keeps (Some <$> m) (fun r => forall b, r = Some b -> is_reply b).
Proof. intros Hm. eapply keeps_fmap; [exact Hm|]. by intros a Ha b [= <-]. Qed.

Lemma pure_answers (f : Storage -> bytes) : (forall s, is_reply (f s)) -> answers (fun s => (f s, s)).
Proof. intros Hf s Hs. split; [exact Hs|apply Hf]. Qed.

Lemma execute_answers c args m :
  execute now draw spop_draw c args = Some m ->
  keeps m (fun r => forall b, r = Some b -> is_reply b).
Proof using Hnow.
  destruct c; cbn [execute]; intros [= <-]; first [apply restore_answers|apply plain_answers];
    first [solve [eauto with keeps_db] | unfold get_cmd, set_cmd, del_cmd, incr_cmd, decr_cmd,
      incrby_cmd, decrby_cmd, exists_cmd, ping, ttl_cmd, pttl_cmd, setex_cmd, lpush_cmd, rpush_cmd,
      lpop_cmd, rpop_cmd, llen_cmd, lrange_cmd, hset_cmd, hget_cmd, hdel_cmd, hlen_cmd, hgetall_cmd,
      sadd_cmd, spop_cmd, scard_cmd, sismember_cmd, smembers_cmd, zadd_cmd, zscore_cmd, zcard_cmd,
      zrange_cmd, dbsize_cmd, debug_cmd, invalid_key, syntax_error, not_an_integer].
  all: repeat cmd_step; eauto with keeps_db reply_db.
  all: try (apply pure_answers; auto with reply_db).
Qed.
End spec.

End CommandsSpec.
