(* ===== verification/CommandsEffect.v ===== *)
(** * The effect of the commands

    The reply and the effect of each command, by type of value, on the abstract
    state of visible keys. A write may evict keys first: it acts on
    [live now (evict_if_needed now draw s)], which is [live now s] below the
    threshold of eviction. *)

From S2P Require Import Prelude Base Buffer Resp RespSpec Object ObjectSpec Payload PayloadSpec.
From S2P Require Import ExpireDict Storage StorageSpec Commands CommandsSpec.
From stdpp Require Import options.

Module CommandsEffect.
Import Text Double Resp RespSpec Object ObjectSpec Payload PayloadSpec Storage StorageSpec Commands
  CommandsSpec.

#[local] Opaque evict_if_needed.

(** ** Loops of object operations *)

Definition pushed (front : bool) (vals l : list bytes) : list bytes :=
  if front then rev vals ++ l else l ++ vals.

Lemma push_fold front vals l :
  foldl (fun o v => (list_push v front o).2) (object_of_list l) vals =
  object_of_list (pushed front vals l).
Proof.
  revert l; induction vals as [|v vals IH]; intros l; cbn [foldl].
  { unfold pushed. destruct front; [done|by rewrite app_nil_r]. }
  rewrite list_push_list. cbn [snd]. rewrite IH. f_equal. unfold pushed. destruct front; simpl; by rewrite <-app_assoc.
Qed.

Lemma push_fold_string front vals s :
  vals <> [] ->
  foldl (fun o v => (list_push v front o).2) (object_of_string s) vals =
  object_of_list (pushed front vals (promoted s)).
Proof.
  destruct vals as [|v vals]; [done|]. intros _. cbn [foldl]. rewrite list_push_string. cbn [snd].
  rewrite push_fold. f_equal. unfold pushed. destruct front; simpl; by rewrite <-app_assoc.
Qed.

Lemma list_pop_list (front : bool) (l : list bytes) :
  l <> [] ->
  exists x l', l = (if front then x :: l' else l' ++ [x]) /\
    list_pop front (object_of_list l) = (Some x, object_of_list l').
Proof.
  intros Hl. unfold list_pop. change (is_type LIST (object_of_list l)) with true.
  cbn [negb list_val_ object_of_list]. destruct front.
  - destruct l as [|x l]; [done|]. by exists x, l.
  - destruct l as [|y l]; [done|]. destruct (exists_last Hl) as (l' & x & He). rewrite He.
    exists x, l'. split; [done|]. by rewrite last_snoc, removelast_last.
Qed.

Lemma count_ops_cons {A} (f : A -> CacheObject -> bool * CacheObject) x l o :
  count_ops f (x :: l) o =
  ((if (f x o).1 then 1 else 0) + (count_ops f l (f x o).2).1, (count_ops f l (f x o).2).2).
Proof.
  unfold count_ops. cbn [foldl]. destruct (f x o) as [b o1]. cbn [fst snd].
  assert (forall n, foldl (fun '(n, o) x => let '(b, o) := f x o in ((if b : bool then n + 1 else n), o))
    (n, o1) l = (n + (foldl (fun '(n, o) x => let '(b, o) := f x o in ((if b : bool then n + 1 else n), o))
    (0, o1) l).1, (foldl (fun '(n, o) x => let '(b, o) := f x o in ((if b : bool then n + 1 else n), o))
    (0, o1) l).2)) as Hacc; [|destruct b; by rewrite Hacc].
  revert o1. induction l as [|y l IH]; intros o1 n; cbn [foldl fst snd]; [f_equal; lia|].
  destruct (f y o1) as [c o2]. rewrite IH. rewrite (IH o2 (if c then 0 + 1 else 0)). cbn [fst snd].
  f_equal. destruct c; lia.
Qed.

Definition deleted (fields : list bytes) (h : gmap bytes bytes) : gmap bytes bytes :=
  foldl (fun h f => delete f h) h fields.

Lemma hash_del_hash f h :
  hash_del f (hash_object h) = (bool_decide (is_Some (h !! f)), hash_object (delete f h)).
Proof. done. Qed.

Lemma size_delete (f : bytes) (h : gmap bytes bytes) :
  Z.of_nat (size h) = (if bool_decide (is_Some (h !! f)) then 1 else 0) + Z.of_nat (size (delete f h)).
Proof.
  case_bool_decide as E.
  - destruct E as [v Hv]. rewrite map_size_delete_Some by done.
    assert (size h <> 0)%nat; [|lia]. intros Hn%map_size_empty_inv. by rewrite Hn in Hv.
  - rewrite delete_id; [lia|]. by apply eq_None_not_Some.
Qed.

Lemma hdel_count fields h :
  count_ops hash_del fields (hash_object h) =
  (Z.of_nat (size h) - Z.of_nat (size (deleted fields h)), hash_object (deleted fields h)).
Proof.
  revert h; induction fields as [|f fields IH]; intros h.
  { unfold count_ops, deleted. simpl. f_equal. lia. }
  rewrite count_ops_cons, hash_del_hash. cbn [fst snd]. rewrite IH. cbn [fst snd].
  rewrite (size_delete f h). unfold deleted. cbn [foldl]. f_equal. lia.
Qed.

Lemma hdel_string fields : count_ops hash_del fields new_object = (0, new_object).
Proof.
  induction fields as [|f fields IH]; [done|]. rewrite count_ops_cons.
  change (hash_del f new_object) with (false, new_object). cbn [fst snd]. by rewrite IH.
Qed.

Lemma deleted_subseteq fields h : deleted fields h ⊆ h.
Proof.
  revert h; induction fields as [|f fields IH]; intros h; [done|]. unfold deleted. cbn [foldl].
  etrans; [apply IH|]. apply delete_subseteq.
Qed.

(** No field deleted, no change. *)
Lemma deleted_same fields h :
  Z.of_nat (size h) = Z.of_nat (size (deleted fields h)) -> deleted fields h = h.
Proof.
  intros Hsz. pose proof (deleted_subseteq fields h) as Hsub.
  apply map_subseteq_size_eq; [done|lia].
Qed.

Lemma size_add (x : bytes) (e : gset bytes) :
  Z.of_nat (size ({[x]} ∪ e)) = (if bool_decide (x ∉ e) then 1 else 0) + Z.of_nat (size e).
Proof.
  case_bool_decide as E.
  - rewrite size_union, size_singleton by set_solver. lia.
  - assert ({[x]} ∪ e = e) as -> by set_solver. lia.
Qed.

Lemma sadd_count members e :
  count_ops set_add members (set_object e) =
  (Z.of_nat (size (list_to_set members ∪ e)) - Z.of_nat (size e),
   set_object (list_to_set members ∪ e)).
Proof.
  revert e; induction members as [|x members IH]; intros e.
  { cbn [list_to_set]. rewrite (left_id_L ∅ (∪)). unfold count_ops. simpl. f_equal. lia. }
  rewrite count_ops_cons, set_add_set. cbn [fst snd]. rewrite IH. cbn [fst snd list_to_set].
  assert (list_to_set members ∪ ({[x]} ∪ e) = {[x]} ∪ list_to_set members ∪ e) as -> by set_solver.
  pose proof (size_add x e). f_equal. lia.
Qed.

Lemma sadd_count_string members s :
  members <> [] ->
  count_ops set_add members (object_of_string s) =
  (Z.of_nat (size (list_to_set members : gset bytes)), set_object (list_to_set members)).
Proof.
  destruct members as [|x members]; [done|]. intros _.
  rewrite count_ops_cons, set_add_string. cbn [fst snd]. rewrite sadd_count. cbn [fst snd list_to_set].
  rewrite size_singleton, (comm_L (∪) (list_to_set members)). f_equal. lia.
Qed.

Lemma sadd_count_pos members s :
  members <> [] -> ((count_ops set_add members (object_of_string s)).1 =? 0) = false.
Proof.
  intros Hm. rewrite sadd_count_string by done. apply Z.eqb_neq. cbn [fst].
  destruct members as [|x l]; [done|]. cbn [list_to_set].
  intros Hsz. assert (size ({[x]} ∪ list_to_set l : gset bytes) = 0%nat) as He by lia.
  apply size_empty_inv in He. set_solver.
Qed.

(** No member added, no change. *)
Lemma added_same (e x : gset bytes) :
  Z.of_nat (size (x ∪ e)) - Z.of_nat (size e) = 0 -> x ∪ e = e.
Proof. intros Hsz. symmetry. apply set_subseteq_size_eq; [set_solver|lia]. Qed.

(** ZADD on the map of scores: how many members are new or get another score,
    and the new map. *)
Fixpoint score_all (entries : list (bytes * Z)) (m : gmap bytes Z) : Z * gmap bytes Z :=
  match entries with
  | [] => (0, m)
  | (x, s) :: entries =>
      let same := from_option (fun s0 => dkey s0 =? dkey s) false (m !! x) in
      let '(n, m') := score_all entries (if same then m else <[x := s]> m) in
      ((if same then 0 else 1) + n, m')
  end.

Lemma score_all_nonneg entries m : 0 <= (score_all entries m).1.
Proof.
  revert m; induction entries as [|[x s] entries IH]; intros m; cbn [score_all]; [done|].
  case_ifs; match goal with |- context [score_all entries ?m] => specialize (IH m) end;
    destruct (score_all entries _); simpl in *; lia.
Qed.

(** No member is given a score other than the one it has or gets elsewhere. *)
Definition keeps_scores (entries : list (bytes * Z)) (m : gmap bytes Z) : Prop :=
  forall x s s', (x, s) ∈ entries -> (x, s') ∈ entries \/ m !! x = Some s' -> dkey s' = dkey s.

(** Then what is counted is the new members. *)
Lemma score_all_new entries m :
  keeps_scores entries m ->
  (score_all entries m).1 = Z.of_nat (size (score_all entries m).2) - Z.of_nat (size m).
Proof.
  revert m; induction entries as [|[x s] entries IH]; intros m Hk; cbn [score_all fst snd]; [lia|].
  assert (keeps_scores entries m) as Hm.
  { intros y a b Ha Hb. apply (Hk y a b); [by right|]. rewrite elem_of_cons. tauto. }
  destruct (m !! x) as [s0|] eqn:Hx; cbn [from_option].
  - rewrite (Hk x s s0 (list_elem_of_here _ _) (or_intror Hx)), Z.eqb_refl.
    specialize (IH m Hm). by destruct (score_all entries m).
  - assert (keeps_scores entries (<[x := s]> m)) as Hi.
    { intros y a b Ha [Hb|Hb]; [apply (Hm y a b Ha); by left|].
      apply lookup_insert_Some in Hb as [[<- <-]|[_ Hb]]; [|apply (Hm y a b Ha); by right].
      apply (Hk x a s); [by right|]. left. apply list_elem_of_here. }
    specialize (IH _ Hi). rewrite map_size_insert_None in IH by done.
    destruct (score_all entries (<[x := s]> m)). simpl in *. lia.
Qed.

Lemma zadd_count entries l :
  zset_wf l -> Forall (fun e => isnan e.2 = false) entries ->
  exists l', count_ops (fun e => zset_add e.1 e.2) entries (zset_object l) =
      ((score_all entries (zmap l)).1, zset_object l') /\
    zset_wf l' /\ zmap l' = (score_all entries (zmap l)).2 /\
    ((score_all entries (zmap l)).1 = 0 -> l' = l).
Proof.
  intros Hl He. revert l Hl. induction He as [|[x s] entries Hs _ IH]; intros l Hl; [by exists l|].
  rewrite count_ops_cons, zset_add_zset. cbn [fst snd score_all] in *.
  destruct (zadd_spec x s l Hl Hs) as [Hwf Hz].
  destruct (IH _ Hwf) as (l' & -> & Hwf' & Hm & Hsame). cbn [fst snd]. exists l'.
  pose proof (score_all_nonneg entries (<[x := s]> (zmap l))) as Hpos.
  destruct (zmap l !! x) as [s0|] eqn:Hx; cbn [from_option];
    [destruct (dkey s0 =? dkey s)|].
  - rewrite Hz in *. cbn [fst snd] in *. destruct (score_all entries (zmap l)). by split_and!.
  - destruct Hz as [-> Hz]. rewrite Hz in *. destruct (score_all entries _).
    split_and!; [done..|]. simpl in *. lia.
  - destruct Hz as [-> Hz]. rewrite Hz in *. destruct (score_all entries _).
    split_and!; [done..|]. simpl in *. lia.
Qed.

Lemma zadd_count_string entries str :
  entries <> [] ->
  count_ops (fun e => zset_add e.1 e.2) entries (object_of_string str) =
  count_ops (fun e => zset_add e.1 e.2) entries (zset_object []).
Proof. destruct entries as [|[x s] entries]; [done|]. intros _. by rewrite !count_ops_cons. Qed.

(** Counting the keys of a list that satisfy [P], one key at a time. *)
Lemma size_filter_cons (P P' : bytes -> Prop) `{HP : forall k, Decision (P k), HP' : forall k, Decision (P' k)}
    k (keys : list bytes) :
  (forall k', P' k' <-> k' <> k /\ P k') ->
  Z.of_nat (size (filter P (list_to_set (k :: keys) : gset bytes))) =
  (if bool_decide (P k) then 1 else 0) + Z.of_nat (size (filter P' (list_to_set keys : gset bytes))).
Proof.
  intros HPP.
  assert (filter P (list_to_set (k :: keys) : gset bytes) =
    (if bool_decide (P k) then {[k]} else ∅) ∪ filter P' (list_to_set keys)) as ->.
  { apply set_eq. intros x. rewrite elem_of_union, !elem_of_filter, HPP. cbn [list_to_set].
    rewrite elem_of_union, elem_of_singleton.
    destruct (decide (x = k)) as [->|]; case_bool_decide;
      rewrite ?elem_of_singleton, ?elem_of_empty; naive_solver. }
  rewrite size_union.
  - case_bool_decide; [rewrite size_singleton|rewrite size_empty]; lia.
  - intros x. rewrite elem_of_filter, HPP. case_bool_decide;
      rewrite ?elem_of_singleton, ?elem_of_empty; naive_solver.
Qed.

Lemma size_filter_nil (P : bytes -> Prop) `{HP : forall k, Decision (P k)} :
  size (filter P (∅ : gset bytes)) = 0%nat.
Proof. apply size_empty_iff. set_solver. Qed.

(** The value that a command of type [t] works on, with its deadline: the empty one
    for an absent key, and none for a key of another type. *)
Definition typed {A} (t : ObjectType) (val : CacheObject -> A) (empty : A) (c : cell) : option (A * option Z) :=
  match c with
  | None => Some (empty, None)
  | Some (o, dl) => if decide (type_ o = t) then Some (val o, dl) else None
  end.

Definition holds_string (c : cell) : bool :=
  match c with Some (o, _) => bool_decide (type_ o = STRING) | None => false end.

Section effects.
Context `{StringHash} `{StoreOrder} `{HashOrder} `{DoubleText} `{DoubleLib}.
Context (now : Z) (draw : rng).
Hypothesis Hnow : 0 <= now < int64_max.

(** [m] run on [s] answers [r] and makes [f] the abstract state. *)
Definition effect {A} (m : cmd A) (s : Storage) (r : A) (f : bytes -> cell) : Prop :=
  (m s).1 = r /\ forall k, live now (m s).2 k = f k.

(** The abstract state a write starts from. *)
Definition kept (s : Storage) : bytes -> cell := live now (evict_if_needed now draw s).

(** Objects that a client can see are objects of the store. *)
Lemma live_ok s k o dl : store_ok s -> live now s k = Some (o, dl) -> obj_ok o.
Proof.
  intros Hs. unfold live. destruct (entry s k) as [e|] eqn:He; [|done].
  destruct (is_expired now k s); [done|]. intros [= <- _]. exact (proj2 Hs k e He).
Qed.

Lemma kept_ok s k o dl : store_ok s -> kept s k = Some (o, dl) -> obj_ok o.
Proof. intros Hs. unfold kept. apply live_ok. by apply store_ok_evict. Qed.

(** ** Reads *)

Lemma get_effect k s : store_ok s -> effect (store_get now k) s (fst <$> live now s k) (live now s).
Proof. intros [Hwf _]. unfold effect, store_get. by destruct (get_live now k s Hwf) as (_ & ? & ?). Qed.

Lemma effect_fmap {A B} (m : cmd A) (g : A -> cmd B) (h : A -> B) s r f :
  (forall a s, g a s = (h a, s)) -> effect m s r f -> effect (m ≫= g) s (h r) f.
Proof.
  intros Hg [Hr Hf]. unfold effect, mbind, cmd_bind. destruct (m s) as [a s']. simpl in *. subst.
  by rewrite Hg.
Qed.

Lemma read_effect k want absent reply s :
  store_ok s ->
  effect (read_typed now k want absent reply) s
    (match live now s k with
     | None => absent
     | Some (o, _) => if decide (type_ o = want) then reply o else wrongtype
     end) (live now s).
Proof.
  intros Hs. unfold read_typed.
  set (h := fun r : option CacheObject => match r with
            | None => absent | Some o => if negb (is_type want o) then wrongtype else reply o end).
  assert (match live now s k with None => absent
    | Some (o, _) => if decide (type_ o = want) then reply o else wrongtype end =
    h (fst <$> live now s k)) as ->.
  { destruct (live now s k) as [[o dl]|]; [|done]. simpl. unfold is_type.
    case_bool_decide; by case_decide. }
  eapply effect_fmap; [done|by apply get_effect].
Qed.

(** SPOP always finds a member of a set that is not empty. *)
Lemma spop_pick (pick : nat) (e : gset bytes) :
  e <> ∅ -> exists x, set_items e !! (pick mod length (set_items e))%nat = Some x /\ x ∈ e.
Proof.
  intros He. assert (length (set_items e) <> 0)%nat as Hl.
  { pose proof (set_items_size e) as Hsz. unfold zlen in Hsz. intros Hn. apply He.
    apply leibniz_equiv, size_empty_inv. lia. }
  destruct (lookup_lt_is_Some_2 (set_items e) (pick mod length (set_items e))) as [x Hx].
  { by apply Nat.mod_upper_bound. }
  exists x. split; [done|]. apply list_elem_of_lookup_2 in Hx.
  rewrite set_items_perm in Hx. by apply elem_of_elements.
Qed.

(** ** Writes *)

Lemma mutate_effect {R} k want (fn : CacheObject -> StoreOp * CacheObject * R) promote s
    (reply : R -> bytes) :
  store_ok s ->
  effect (r ← store_mutate now draw k want fn promote; mret (or_wrongtype reply r)) s
    (or_wrongtype reply (a_mutate want promote fn (kept s k)).1)
    (upd (kept s) k (a_mutate want promote fn (kept s k)).2).
Proof.
  intros Hs. apply effect_fmap; [done|]. unfold effect, store_mutate, mutate, kept.
  pose proof (store_ok_evict now draw s Hs) as [Hwf _].
  destruct (mutate_live now k want fn promote _ Hwf) as (_ & ? & ?). done.
Qed.

(** Change the state an effect ends in by an extensionally equal one. *)
Lemma effect_eq {A} (m : cmd A) s r r' f f' :
  effect m s r f -> r = r' -> (forall k, f k = f' k) -> effect m s r' f'.
Proof. intros [Hr Hf] -> Hff. split; [done|]. intros k. by rewrite Hf. Qed.

Lemma a_mutate_wrong {R} want promote (fn : CacheObject -> StoreOp * CacheObject * R) o dl :
  type_ o <> want -> (promote = kAllow -> type_ o <> STRING) ->
  a_mutate want promote fn (Some (o, dl)) = (None, Some (o, dl)).
Proof.
  intros Hw Hp. unfold a_mutate. rewrite bool_decide_eq_false_2 by done.
  destruct promote; [rewrite bool_decide_eq_false_2 by auto|]; done.
Qed.

Lemma a_mutate_run {R} want promote (fn : CacheObject -> StoreOp * CacheObject * R) o dl :
  type_ o = want \/ (promote = kAllow /\ type_ o = STRING) ->
  a_mutate want promote fn (Some (o, dl)) =
  let '(op, o', r) := fn o in
  (Some r, match op with kNoop => Some (o, dl) | kErase => None | kWrite => Some (o', dl) end).
Proof.
  intros Hw. unfold a_mutate. destruct Hw as [Hw|[-> Hw]].
  - by rewrite (bool_decide_eq_true_2 (type_ o = want)).
  - rewrite (bool_decide_eq_true_2 (type_ o = STRING)) by done. by rewrite andb_false_r.
Qed.

Lemma upd_same_cell (f : bytes -> cell) k k' : upd f k (f k) k' = f k'.
Proof. unfold upd. case_decide; by subst. Qed.

(** A key of the wrong type is left alone. *)
Lemma mutate_wrong {R} k want (fn : CacheObject -> StoreOp * CacheObject * R) promote s
    (reply : R -> bytes) o dl :
  store_ok s -> kept s k = Some (o, dl) ->
  type_ o <> want -> (promote = kAllow -> type_ o <> STRING) ->
  effect (r ← store_mutate now draw k want fn promote; mret (or_wrongtype reply r)) s
    wrongtype (kept s).
Proof.
  intros Hs Hk Hw Hp. eapply effect_eq; [by apply mutate_effect|..]; rewrite Hk, a_mutate_wrong by done;
    [done|]. intros k'. rewrite <-Hk. apply upd_same_cell.
Qed.

(** ** Lists *)

(** The list a push finds under a key, with its deadline: [None] for a key of
    another type. A string becomes the first element. *)
Definition list_cell (c : cell) : option (list bytes * option Z) :=
  match c with
  | None => Some ([], None)
  | Some (o, dl) =>
      match type_ o with
      | LIST => Some (list_val_ o, dl)
      | STRING => Some (promoted (string_val_ o), dl)
      | _ => None
      end
  end.

Lemma push_effect front vals k s :
  store_ok s -> vals <> [] ->
  let m := r ← store_mutate now draw k LIST (push_fn vals front) kAllow;
           mret (or_wrongtype encode_integer r) in
  match list_cell (kept s k) with
  | None => effect m s wrongtype (kept s)
  | Some (l, dl) =>
      effect m s (encode_integer (zlen (pushed front vals l)))
        (upd (kept s) k (Some (object_of_list (pushed front vals l), dl)))
  end.
Proof.
  intros Hs Hv m. pose proof (mutate_effect k LIST (push_fn vals front) kAllow s encode_integer Hs) as Hm.
  fold m in Hm. unfold list_cell. destruct (kept s k) as [[o dl]|] eqn:Hk.
  - pose proof (proj1 (kept_ok _ _ _ _ Hs Hk)) as Ho.
    destruct (type_ o) eqn:Ht; try (eapply mutate_wrong; [done..|congruence|congruence]);
      rewrite a_mutate_run in Hm by auto; unfold push_fn in Hm.
    + rewrite (shape_string o Ho Ht), push_fold_string in Hm by done. exact Hm.
    + rewrite (shape_list o Ho Ht), push_fold in Hm. exact Hm.
  - unfold a_mutate, push_fn in Hm. change new_object with (object_of_string []) in Hm.
    rewrite push_fold_string in Hm by done. exact Hm.
Qed.

(** The cell of a key after its list became [l]. *)
Definition list_left (l : list bytes) (dl : option Z) : cell :=
  if decide (l = []) then None else Some (object_of_list l, dl).

Lemma pop_effect front k s :
  store_ok s ->
  let m := r ← store_mutate now draw k LIST (pop_fn front) kReject;
           mret (or_wrongtype bulk_or_nil r) in
  match kept s k with
  | None => effect m s encode_nil (kept s)
  | Some (o, dl) =>
      if decide (type_ o = LIST) then
        exists x l, list_val_ o = (if front then x :: l else l ++ [x]) /\
          effect m s (encode_bulk_string x) (upd (kept s) k (list_left l dl))
      else effect m s wrongtype (kept s)
  end.
Proof.
  intros Hs m. pose proof (mutate_effect k LIST (pop_fn front) kReject s bulk_or_nil Hs) as Hm.
  fold m in Hm. destruct (kept s k) as [[o dl]|] eqn:Hk.
  - case_decide as Ht; [|by eapply mutate_wrong]. rewrite a_mutate_run in Hm by auto.
    pose proof (kept_ok _ _ _ _ Hs Hk) as [Ho Hn]. unfold nonempty in Hn. rewrite Ht in Hn.
    destruct (list_pop_list front (list_val_ o) Hn) as (x & l & Hl & Hp). exists x, l.
    split; [done|]. unfold pop_fn in Hm. rewrite (shape_list o Ho Ht), Hp in Hm.
    eapply effect_eq; [exact Hm|done|]. intros k'. f_equal. unfold list_left.
    change (list_size (object_of_list l)) with (zlen l). case_decide as E; [by subst|].
    destruct (Z.eqb_spec (zlen l) 0); [|done]. destruct l; [done|]. unfold zlen in *. simpl in *. lia.
  - eapply effect_eq; [exact Hm|done|]. intros k'. cbn [a_mutate pop_fn list_pop snd].
    rewrite <-Hk. apply upd_same_cell.
Qed.

(** ** Hashes *)

(** The hash a write finds under a key: a string is discarded. *)
Definition hash_cell (c : cell) : option (gmap bytes bytes * option Z) :=
  match c with
  | None => Some (∅, None)
  | Some (o, dl) =>
      match type_ o with HASH => Some (hash_val_ o, dl) | STRING => Some (∅, dl) | _ => None end
  end.

Lemma hash_cell_typed c : holds_string c = false -> hash_cell c = typed HASH hash_val_ ∅ c.
Proof. destruct c as [[o dl]|]; [|done]. cbn. by destruct (type_ o). Qed.

Lemma hset_effect f v k s :
  store_ok s ->
  let m := r ← store_mutate now draw k HASH (hset_fn f v) kAllow;
           mret (or_wrongtype encode_integer r) in
  match hash_cell (kept s k) with
  | None => effect m s wrongtype (kept s)
  | Some (h, dl) =>
      effect m s (encode_integer (if bool_decide (is_Some (h !! f)) then 0 else 1))
        (upd (kept s) k (Some (hash_object (<[f := v]> h), dl)))
  end.
Proof.
  intros Hs m. pose proof (mutate_effect k HASH (hset_fn f v) kAllow s encode_integer Hs) as Hm.
  fold m in Hm. unfold hash_cell. destruct (kept s k) as [[o dl]|] eqn:Hk; [|exact Hm].
  pose proof (proj1 (kept_ok _ _ _ _ Hs Hk)) as Ho.
  destruct (type_ o) eqn:Ht; try (eapply mutate_wrong; [done..|congruence|congruence]);
    rewrite a_mutate_run in Hm by auto; unfold hset_fn in Hm.
  - rewrite (shape_string o Ho Ht) in Hm. exact Hm.
  - rewrite (shape_hash o Ho Ht) in Hm. exact Hm.
Qed.

Lemma hdel_effect fields k s :
  store_ok s ->
  let m := r ← store_mutate now draw k HASH (hdel_fn fields) kReject;
           mret (or_wrongtype encode_integer r) in
  match kept s k with
  | None => effect m s (encode_integer 0) (kept s)
  | Some (o, dl) =>
      if decide (type_ o = HASH) then
        let h := hash_val_ o in
        let h' := deleted fields h in
        effect m s (encode_integer (Z.of_nat (size h) - Z.of_nat (size h')))
          (upd (kept s) k (if decide (h' = ∅) then None else Some (hash_object h', dl)))
      else effect m s wrongtype (kept s)
  end.
Proof.
  intros Hs m. pose proof (mutate_effect k HASH (hdel_fn fields) kReject s encode_integer Hs) as Hm.
  fold m in Hm. destruct (kept s k) as [[o dl]|] eqn:Hk.
  - case_decide as Ht; [|by eapply mutate_wrong]. rewrite a_mutate_run in Hm by auto.
    pose proof (kept_ok _ _ _ _ Hs Hk) as [Ho Hn]. unfold nonempty in Hn. rewrite Ht in Hn.
    unfold hdel_fn in Hm. rewrite (shape_hash o Ho Ht), hdel_count in Hm.
    change (hash_size (hash_object ?x)) with (Z.of_nat (size x)) in Hm.
    cbv zeta. set (h' := deleted fields (hash_val_ o)) in *.
    destruct (Z.eqb_spec (Z.of_nat (size (hash_val_ o)) - Z.of_nat (size h')) 0) as [E|E].
    + assert (h' = hash_val_ o) as -> by (apply deleted_same; fold h'; lia). rewrite decide_False by done.
      exact Hm.
    + eapply effect_eq; [exact Hm|done|]. intros k'. f_equal.
      destruct (Z.eqb_spec (Z.of_nat (size h')) 0) as [E'|E'].
      * rewrite decide_True; [done|]. apply map_size_empty_inv. lia.
      * rewrite decide_False; [done|]. intros He. by rewrite He, map_size_empty in E'.
  - unfold a_mutate, hdel_fn in Hm. rewrite hdel_string in Hm.
    eapply effect_eq; [exact Hm|done|]. intros k'. rewrite <-Hk. apply upd_same_cell.
Qed.

(** ** Sets *)

Definition set_cell (c : cell) : option (gset bytes * option Z) :=
  match c with
  | None => Some (∅, None)
  | Some (o, dl) =>
      match type_ o with SET => Some (set_val_ o, dl) | STRING => Some (∅, dl) | _ => None end
  end.

Lemma set_cell_typed c : holds_string c = false -> set_cell c = typed SET set_val_ ∅ c.
Proof. destruct c as [[o dl]|]; [|done]. cbn. by destruct (type_ o). Qed.

(** What SADD leaves: nothing is written when every member was there. *)
Lemma sadd_effect members k s :
  store_ok s -> members <> [] ->
  let m := r ← store_mutate now draw k SET (sadd_fn members) kAllow;
           mret (or_wrongtype encode_integer r) in
  match set_cell (kept s k) with
  | None => effect m s wrongtype (kept s)
  | Some (e, dl) =>
      let e' := list_to_set members ∪ e in
      effect m s (encode_integer (Z.of_nat (size e') - Z.of_nat (size e)))
        (upd (kept s) k (Some (set_object e', dl)))
  end.
Proof.
  intros Hs Hne m. pose proof (mutate_effect k SET (sadd_fn members) kAllow s encode_integer Hs) as Hm.
  fold m in Hm. cbv zeta.
  assert (forall dl str, effect m s (or_wrongtype encode_integer (Some (count_ops set_add members (object_of_string str)).1))
    (upd (kept s) k (Some ((count_ops set_add members (object_of_string str)).2, dl))) ->
    effect m s (encode_integer (Z.of_nat (size (list_to_set members ∪ ∅ : gset bytes)) - Z.of_nat (size (∅ : gset bytes))))
    (upd (kept s) k (Some (set_object (list_to_set members ∪ ∅), dl)))) as Hstr.
  { intros dl str. rewrite sadd_count_string by done. rewrite (right_id_L ∅ (∪)), size_empty.
    cbn [fst snd or_wrongtype]. by rewrite Z.sub_0_r. }
  pose proof (fun str => sadd_count_pos members str Hne) as Hpos.
  unfold set_cell. destruct (kept s k) as [[o dl]|] eqn:Hk.
  - pose proof (proj1 (kept_ok _ _ _ _ Hs Hk)) as Ho.
    destruct (type_ o) eqn:Ht; try (eapply mutate_wrong; [done..|congruence|congruence]);
      rewrite a_mutate_run in Hm by auto; unfold sadd_fn in Hm.
    + rewrite (shape_string o Ho Ht) in Hm. specialize (Hpos (string_val_ o)).
      specialize (Hstr dl (string_val_ o)).
      destruct (count_ops _ _ _) as [n o']. cbn [fst snd] in *. rewrite Hpos in Hm. by apply Hstr.
    + rewrite (shape_set o Ho Ht), sadd_count in Hm.
      destruct (Z.eqb_spec (Z.of_nat (size (list_to_set members ∪ set_val_ o)) -
        Z.of_nat (size (set_val_ o))) 0) as [E|E]; [|exact Hm].
      rewrite (added_same _ _ E) in Hm |- *. exact Hm.
  - unfold a_mutate, sadd_fn in Hm. change new_object with (object_of_string []) in Hm.
    specialize (Hpos []). specialize (Hstr None []).
    destruct (count_ops _ _ _) as [n o']. cbn [fst snd] in *. rewrite Hpos in Hm. by apply Hstr.
Qed.

Lemma spop_effect pick k s :
  store_ok s ->
  let m := r ← store_mutate now draw k SET (spop_fn pick) kReject;
           mret (or_wrongtype bulk_or_nil r) in
  match kept s k with
  | None => effect m s encode_nil (kept s)
  | Some (o, dl) =>
      if decide (type_ o = SET) then
        exists x, x ∈ set_val_ o /\
          let e' := set_val_ o ∖ {[x]} in
          effect m s (encode_bulk_string x)
            (upd (kept s) k (if decide (e' = ∅) then None else Some (set_object e', dl)))
      else effect m s wrongtype (kept s)
  end.
Proof.
  intros Hs m. pose proof (mutate_effect k SET (spop_fn pick) kReject s bulk_or_nil Hs) as Hm.
  fold m in Hm. destruct (kept s k) as [[o dl]|] eqn:Hk.
  - case_decide as Ht; [|by eapply mutate_wrong]. rewrite a_mutate_run in Hm by auto.
    pose proof (kept_ok _ _ _ _ Hs Hk) as [Ho Hn]. unfold nonempty in Hn. rewrite Ht in Hn.
    unfold spop_fn in Hm. rewrite (shape_set o Ho Ht) in Hm.
    change (set_members (set_object (set_val_ o))) with (set_items (set_val_ o)) in Hm.
    destruct (spop_pick pick (set_val_ o) Hn) as (x & Hx & Hin). rewrite Hx in Hm. exists x.
    split; [done|]. eapply effect_eq; [exact Hm|done|]. intros k'. cbv zeta. cbn [snd].
    change (set_size (set_remove x (set_object (set_val_ o))).2) with
      (Z.of_nat (size (set_val_ o ∖ {[x]}))). f_equal.
    destruct (Z.eqb_spec (Z.of_nat (size (set_val_ o ∖ {[x]}))) 0) as [E|E].
    + rewrite decide_True; [done|]. apply leibniz_equiv, size_empty_inv. lia.
    + rewrite decide_False; [done|]. intros He. by rewrite He, size_empty in E.
  - unfold a_mutate, spop_fn in Hm. cbn in Hm. eapply effect_eq; [exact Hm|done|].
    intros k'. rewrite <-Hk. apply upd_same_cell.
Qed.

(** ** Sorted sets *)

Definition zset_cell (c : cell) : option (list (bytes * Z) * option Z) :=
  match c with
  | None => Some ([], None)
  | Some (o, dl) =>
      match type_ o with ZSET => Some (zset_val_ o, dl) | STRING => Some ([], dl) | _ => None end
  end.

Lemma zset_cell_typed c : holds_string c = false -> zset_cell c = typed ZSET zset_val_ [] c.
Proof. destruct c as [[o dl]|]; [|done]. cbn. by destruct (type_ o). Qed.

Lemma zadd_effect entries k s :
  store_ok s -> entries <> [] -> Forall (fun e => isnan e.2 = false) entries ->
  let m := r ← store_mutate now draw k ZSET (zadd_fn entries) kAllow;
           mret (or_wrongtype encode_integer r) in
  match zset_cell (kept s k) with
  | None => effect m s wrongtype (kept s)
  | Some (l, dl) =>
      exists l', zset_wf l' /\ zmap l' = (score_all entries (zmap l)).2 /\
        effect m s (encode_integer (score_all entries (zmap l)).1)
          (upd (kept s) k (Some (zset_object l', dl)))
  end.
Proof.
  intros Hs Hne He m.
  pose proof (mutate_effect k ZSET (zadd_fn entries) kAllow s encode_integer Hs) as Hm.
  fold m in Hm. unfold zadd_fn in Hm.
  destruct (zadd_count entries [] zset_wf_nil He) as (l0 & Hc0 & Hwf0 & Hz0 & _).
  assert (((score_all entries (zmap [])).1 =? 0) = false) as Hpos.
  { destruct entries as [|[x sc] entries]; [done|]. cbn [score_all].
    change (zmap [] !! x) with (None : option Z). cbn [from_option].
    pose proof (score_all_nonneg entries (<[x := sc]> (zmap []))) as Hn.
    destruct (score_all entries _). simpl in *. apply Z.eqb_neq. lia. }
  unfold zset_cell. destruct (kept s k) as [[o dl]|] eqn:Hk.
  - pose proof (proj1 (kept_ok _ _ _ _ Hs Hk)) as Ho.
    destruct (type_ o) eqn:Ht; try (eapply mutate_wrong; [done..|congruence|congruence]);
      rewrite a_mutate_run in Hm by auto.
    + rewrite (shape_string o Ho Ht), zadd_count_string, Hc0, Hpos in Hm by done. by exists l0.
    + destruct (zadd_count entries (zset_val_ o)) as (l' & Hc & Hwf & Hz & Hsame);
        [apply Ho|done|]. exists l'. split_and!; [done..|].
      rewrite (shape_zset o Ho Ht), Hc in Hm.
      destruct (Z.eqb_spec (score_all entries (zmap (zset_val_ o))).1 0) as [E|E]; [|exact Hm].
      rewrite (Hsame E). exact Hm.
  - unfold a_mutate in Hm. change new_object with (object_of_string []) in Hm.
    rewrite zadd_count_string, Hc0, Hpos in Hm by done. by exists l0.
Qed.

(** ** Strings *)

(** The reply of GET to a cell. *)
Definition get_reply (c : cell) : bytes :=
  match c with
  | None => encode_nil
  | Some (o, _) => if decide (type_ o = STRING) then encode_bulk_string (string_val_ o) else wrongtype
  end.

Lemma get_string_eq o : get_string o = if decide (type_ o = STRING) then Some (string_val_ o) else None.
Proof. unfold get_string, is_type. case_bool_decide; by case_decide. Qed.

Lemma get_cmd_effect name k s :
  store_ok s -> effect (get_cmd now [name; k]) s (get_reply (live now s k)) (live now s).
Proof.
  intros Hs. unfold get_cmd. cbn [length Nat.eqb negb arg nth].
  set (h := fun r : option CacheObject => match r with
    | None => encode_nil | Some o => match get_string o with None => wrongtype | Some x => encode_bulk_string x end end).
  assert (get_reply (live now s k) = h (fst <$> live now s k)) as ->.
  { destruct (live now s k) as [[o dl]|]; [|done]. unfold h. simpl. rewrite get_string_eq. by case_decide. }
  eapply effect_fmap; [|by apply get_effect]. intros [o|] s'; [|done]. unfold h. by destruct (get_string o).
Qed.

(** INCRBY on a cell: the reply and what it leaves. *)
Definition incr_spec (delta : Z) (c : cell) : bytes * cell :=
  let add n dl :=
    if in_i64b (n + delta)
    then (encode_integer (n + delta), Some (object_of_string (to_string (n + delta)), dl))
    else (encode_error (lit "ERR increment or decrement would overflow"), c) in
  match c with
  | None => add 0 None
  | Some (o, dl) =>
      if decide (type_ o = STRING) then
        match IntParse.parse_ll_strict (string_val_ o) with
        | Some n => add n dl
        | None => (encode_error (lit "ERR value is not an integer"), c)
        end
      else (wrongtype, c)
  end.

(** The error reply of INCRBY, from the cell it read again. *)
Definition incr_error (c : cell) : bytes :=
  match c with
  | Some (o, _) =>
      if decide (type_ o = STRING) then
        match IntParse.parse_ll_strict (string_val_ o) with
        | None => encode_error (lit "ERR value is not an integer")
        | Some _ => encode_error (lit "ERR increment or decrement would overflow")
        end
      else wrongtype
  | None => wrongtype
  end.

Lemma incr_spec_eq delta c :
  in_i64 delta ->
  incr_spec delta c =
  match a_incrby delta c with
  | (Some v, c') => (encode_integer v, c')
  | (None, _) => (incr_error c, c)
  end.
Proof.
  intros Hd. unfold incr_spec, a_incrby, incr_error. destruct c as [[o dl]|].
  - rewrite get_string_eq. case_decide; [|done]. cbn [mbind option_bind].
    destruct (IntParse.parse_ll_strict _); [|done]. by destruct (in_i64b _).
  - rewrite Z.add_0_l. replace (in_i64b delta) with true; [done|].
    symmetry. unfold in_i64b, in_i64 in *. apply andb_true_iff. lia.
Qed.

Lemma a_incrby_None delta c : (a_incrby delta c).1 = None -> (a_incrby delta c).2 = c.
Proof.
  unfold a_incrby. destruct c as [[o dl]|].
  - destruct (_ ≫= _); [|done]. by destruct (in_i64b _).
  - by destruct (in_i64b _).
Qed.

(** Effects compose. *)
Lemma effect_bind {A B} (m : cmd A) (g : A -> cmd B) P s a b f f' :
  store_ok s -> keeps m P -> effect m s a f ->
  (forall s', store_ok s' -> (forall k, live now s' k = f k) -> effect (g a) s' b f') ->
  effect (m ≫= g) s b f'.
Proof.
  intros Hs Hk [Ha Hf] Hg. destruct (Hk s Hs) as [Hs' _]. unfold effect, mbind, cmd_bind.
  destruct (m s) as [a' s']. cbn [fst snd] in *. subst a'. by apply Hg.
Qed.

Lemma effect_ret {A} (a : A) s f : (forall k, live now s k = f k) -> effect (mret a) s a f.
Proof. done. Qed.

Lemma incrby_effect k delta s :
  store_ok s -> in_i64 delta ->
  effect (store_incrby now draw k delta) s (a_incrby delta (kept s k)).1
    (upd (kept s) k (a_incrby delta (kept s k)).2).
Proof.
  intros Hs Hd. destruct (store_ok_evict now draw s Hs) as [Hwf _].
  by destruct (incrby_live now k delta _ Hwf Hd) as (_ & ? & ?).
Qed.

Lemma incr_effect k delta s :
  store_ok s -> in_i64 delta ->
  effect (apply_incrby now draw k delta) s (incr_spec delta (kept s k)).1
    (upd (kept s) k (incr_spec delta (kept s k)).2).
Proof.
  intros Hs Hd. unfold apply_incrby. rewrite incr_spec_eq by done.
  eapply effect_bind; [done|apply keeps_incrby|by apply incrby_effect|]. intros s' Hs' Hl.
  pose proof (a_incrby_None delta (kept s k)) as Hn.
  destruct (a_incrby delta (kept s k)) as [[v|] c]; cbn [fst snd] in *; [by apply effect_ret|].
  rewrite (Hn eq_refl) in Hl.
  set (h := fun r : option CacheObject => match r ≫= get_string with
    | Some str => match IntParse.parse_ll_strict str with
        | None => encode_error (lit "ERR value is not an integer")
        | Some _ => encode_error (lit "ERR increment or decrement would overflow") end
    | None => wrongtype end).
  assert (incr_error (kept s k) = h (fst <$> live now s' k)) as ->.
  { rewrite Hl, upd_same. destruct (kept s k) as [[o dl]|]; [|done].
    unfold h. simpl. rewrite get_string_eq. by case_decide. }
  eapply effect_eq; [|done|exact Hl]. eapply effect_fmap; [|by apply get_effect].
  intros [o|] s0; [|done]. unfold h. simpl. destruct (get_string o); [|done].
  by destruct (IntParse.parse_ll_strict _).
Qed.

(** NX and XX exclude each other. *)
Lemma parse_set_opts_excl l o o' :
  parse_set_opts l o = inr o' -> so_nx o && so_xx o = false -> so_nx o' && so_xx o' = false.
Proof.
  revert o. induction l as [l IH] using (induction_ltof1 _ length). unfold ltof in IH.
  intros o. destruct l as [|a l]; [by intros [= ->]|]. cbn [parse_set_opts].
  repeat match goal with
  | |- inl _ = inr _ -> _ => done
  | |- parse_set_opts _ _ = inr _ -> _ =>
      let Hx := fresh in intros Hx ?; eapply IH; [|exact Hx|]; [simpl; lia|]; simpl;
      first [assumption|bsplit; destruct (so_nx o), (so_xx o); done]
  | |- (if ?b then _ else _) = _ -> _ => destruct b eqn:?
  | |- match ?x with _ => _ end = _ -> _ => destruct x eqn:?
  end.
Qed.

(** The absolute deadline the options of SET name, and whether they name a
    valid one: relative times are positive (and seconds count in milliseconds
    within 64 bits), absolute ones not negative. *)
Definition expiry_at (o : set_opts) : option Z :=
  match so_mode o with
  | mNone => None
  | mEx => Some (Z.min int64_max (now + 1000 * so_raw o))
  | mPx => Some (Z.min int64_max (now + so_raw o))
  | mExat => Some (Z.min int64_max (1000 * so_raw o))
  | mPxat => Some (Z.min int64_max (so_raw o))
  end.

Definition expiry_valid (o : set_opts) : bool :=
  match so_mode o with
  | mNone => true
  | mEx => (0 <? so_raw o) && (1000 * so_raw o <=? int64_max)
  | mPx => 0 <? so_raw o
  | mExat | mPxat => 0 <=? so_raw o
  end.

Definition expiry_past (o : set_opts) : bool :=
  match expiry_at o with Some t => t <=? now | None => false end.

Lemma sat_add_min ms : 0 <= ms -> ExpireDict.sat_add now ms = Z.min int64_max (now + ms).
Proof. intros. unfold ExpireDict.sat_add. destruct (Z.ltb_spec (int64_max - now) ms); lia. Qed.

(** Seconds to a deadline: the two saturations together are one. *)
Lemma seconds_deadline sec :
  0 < sec -> ExpireDict.sat_add now (ttl_seconds_to_ms sec) = Z.min int64_max (now + 1000 * sec).
Proof using Hnow.
  intros Hs. unfold ttl_seconds_to_ms. pose proof (Z.div_mod int64_max 1000 ltac:(done)) as Hdm.
  pose proof (Z.mod_pos_bound int64_max 1000 ltac:(done)) as Hmb.
  destruct (Z.ltb_spec (int64_max / 1000) sec); rewrite sat_add_min by (done || lia); lia.
Qed.

Lemma set_ttl_spec o :
  if expiry_valid o then
    exists ms, set_ttl now o = inr (ms, expiry_past o) /\
      (expiry_past o = false -> deadline_of now ms = expiry_at o)
  else set_ttl now o = inl (encode_error (lit "ERR invalid expire time in 'set' command")).
Proof using Hnow.
  pose proof (Z.div_mod int64_max 1000 ltac:(done)) as Hdm.
  pose proof (Z.mod_pos_bound int64_max 1000 ltac:(done)) as Hmb.
  unfold expiry_valid, expiry_past, expiry_at, set_ttl, deadline_of.
  destruct (so_mode o); set (raw := so_raw o) in *.
  - by exists 0.
  - destruct (Z.ltb_spec 0 raw), (Z.leb_spec (1000 * raw) int64_max), (Z.leb_spec raw 0); cbn [andb]; try lia;
      destruct (Z.ltb_spec (int64_max / 1000) raw); try lia; try done.
    exists (raw * 1000). rewrite (proj2 (Z.leb_gt _ now)) by lia. split; [done|]. intros _.
    rewrite (proj2 (Z.ltb_lt 0 (raw * 1000))) by lia. rewrite sat_add_min by lia. f_equal. lia.
  - destruct (Z.ltb_spec 0 raw), (Z.leb_spec raw 0); try lia; [|done].
    exists raw. rewrite (proj2 (Z.leb_gt _ now)) by lia. split; [done|]. intros _.
    rewrite (proj2 (Z.ltb_lt 0 raw)) by lia. by rewrite sat_add_min by lia.
  - destruct (Z.leb_spec 0 raw), (Z.ltb_spec raw 0); try lia; [|done]. cbv zeta.
    assert ((if int64_max / 1000 <? raw then int64_max else raw * 1000) = Z.min int64_max (1000 * raw)) as ->
      by (destruct (Z.ltb_spec (int64_max / 1000) raw); lia).
    destruct (Z.leb_spec (Z.min int64_max (1000 * raw)) now); [by exists 0|]. eexists. split; [done|].
    intros _. rewrite (proj2 (Z.ltb_lt 0 _)) by lia. rewrite sat_add_min by lia. f_equal. lia.
  - destruct (Z.leb_spec 0 raw), (Z.ltb_spec raw 0); try lia; [|done].
    destruct (Z.leb_spec raw now), (Z.leb_spec (Z.min int64_max raw) now); try lia; [by exists 0|].
    eexists. split; [done|].
    intros _. rewrite (proj2 (Z.ltb_lt 0 _)) by lia. rewrite sat_add_min by lia. f_equal. lia.
Qed.

(** SET with a deadline to come, on a cell. *)
Definition set_spec (o : set_opts) (v : bytes) (dl : option Z) (c : cell) : bytes * cell :=
  let present := bool_decide (is_Some c) in
  if (so_nx o && present) || (so_xx o && negb present) then (encode_nil, c)
  else
    (if so_get o then bulk_or_nil ((fun x => string_or_empty x.1) <$> c) else encode_ok,
     Some (object_of_string v, if so_keep_ttl o then c ≫= snd else dl)).

(** SET with an absolute time in the past deletes the key. *)
Definition set_past_spec (o : set_opts) (c : cell) : bytes * cell :=
  let present := bool_decide (is_Some c) in
  if (so_nx o && present) || (so_xx o && negb present) then (encode_nil, c)
  else
    (if so_get o then bulk_or_nil ((fun x => string_or_empty x.1) <$> c) else encode_ok, None).

Definition non_string (c : cell) : bool :=
  match c with Some (o, _) => negb (bool_decide (type_ o = STRING)) | None => false end.

Lemma is_non_string_effect k s :
  store_ok s -> effect (is_non_string now k) s (non_string (live now s k)) (live now s).
Proof.
  intros Hs. unfold is_non_string.
  set (h := fun r : option CacheObject => match r with
    | Some o => match get_string o with Some _ => false | None => true end | None => false end).
  assert (non_string (live now s k) = h (fst <$> live now s k)) as ->.
  { destruct (live now s k) as [[o dl]|]; [|done]. unfold h. simpl. rewrite get_string_eq.
    case_bool_decide; by case_decide. }
  eapply effect_fmap; [done|by apply get_effect].
Qed.

(** The type test of SET with GET. *)
Lemma guard_effect k (tail : cmd bytes) s r f :
  store_ok s ->
  (non_string (live now s k) = false -> effect tail (is_non_string now k s).2 r f) ->
  let m := b ← is_non_string now k; if b : bool then mret wrongtype else tail in
  if non_string (live now s k) then effect m s wrongtype (live now s) else effect m s r f.
Proof.
  intros Hs Ht m. destruct (is_non_string_effect k s Hs) as [Hn Hl].
  assert (m s = (if (is_non_string now k s).1 then mret wrongtype else tail) (is_non_string now k s).2) as Hm.
  { unfold m, mbind, cmd_bind. by destruct (is_non_string now k s). }
  unfold effect. rewrite Hm, Hn. destruct (non_string _); [done|]. by apply Ht.
Qed.

Lemma del_effect k s : store_ok s -> exists b, effect (store_del k) s b (upd (live now s) k None).
Proof.
  intros [Hwf _]. destruct (del_live now k s Hwf) as (_ & _ & Hl). by exists (del k s).1.
Qed.

Lemma set_conditional_effect k v c ms keep s :
  store_ok s ->
  effect (store_set_conditional now draw k v c ms keep) s
    (a_set_conditional now v c ms keep (kept s k)).1
    (upd (kept s) k (a_set_conditional now v c ms keep (kept s k)).2).
Proof using Hnow.
  intros Hs. destruct (store_ok_evict now draw s Hs) as [Hwf _].
  by destruct (set_conditional_live now k v c ms keep _ Hwf Hnow) as (_ & ? & ?).
Qed.

Lemma set_tail_effect k v o ms s :
  store_ok s -> so_nx o && so_xx o = false ->
  effect
    (applied_previous ← store_set_conditional now draw k (object_of_string v)
       (if so_nx o then kOnlyIfAbsent else if so_xx o then kOnlyIfExists else kNone) ms (so_keep_ttl o);
     let '(applied, previous) := applied_previous : bool * option CacheObject in
     if so_get o then
       match applied, previous with
       | true, Some p => mret (encode_bulk_string (string_or_empty p))
       | _, _ => mret encode_nil
       end
     else mret (if applied then encode_ok else encode_nil)) s
    (set_spec o v (deadline_of now ms) (kept s k)).1
    (upd (kept s) k (set_spec o v (deadline_of now ms) (kept s k)).2).
Proof using Hnow.
  intros Hs Hex. eapply effect_bind; [done|apply keeps_set_conditional; [done|apply string_object_ok]
    |by apply set_conditional_effect|]. intros s' Hs' Hl.
  unfold set_spec, a_set_conditional in *.
  destruct (kept s k) as [[p dl]|], (so_nx o), (so_xx o); try done; cbn [fmap option_fmap option_map fst] in *;
    try (rewrite bool_decide_eq_true_2 by done); try (rewrite bool_decide_eq_false_2 by by intros []);
    destruct (so_get o); cbn in Hl |- *; by apply effect_ret.
Qed.

(** SET with a deadline to come: with GET the key is read first, which counts
    as an access. *)
Lemma set_write_effect k v o ms s :
  store_ok s -> so_nx o && so_xx o = false ->
  let s1 := if so_get o then (is_non_string now k s).2 else s in
  if so_get o && non_string (live now s k)
  then effect (set_with_opts now draw k v o ms false) s wrongtype (live now s)
  else
    effect (set_with_opts now draw k v o ms false) s
      (set_spec o v (deadline_of now ms) (kept s1 k)).1
      (upd (kept s1) k (set_spec o v (deadline_of now ms) (kept s1 k)).2).
Proof using Hnow.
  intros Hs Hex s1. unfold set_with_opts. subst s1.
  assert (forall c, set_spec o v (deadline_of now (if so_keep_ttl o then 0 else ms)) c =
    set_spec o v (deadline_of now ms) c) as Hkeep by (intros; unfold set_spec; by destruct (so_keep_ttl o)).
  destruct (so_get o) eqn:Hg; cbn [andb].
  - apply guard_effect; [done|]. intros _. destruct (is_non_string_keeps now k s Hs) as [Hs1 _].
    pose proof (set_tail_effect k v o (if so_keep_ttl o then 0 else ms) _ Hs1 Hex) as Ht.
    rewrite Hg, !Hkeep in Ht. exact Ht.
  - pose proof (set_tail_effect k v o (if so_keep_ttl o then 0 else ms) s Hs Hex) as Ht.
    rewrite Hg, !Hkeep in Ht. exact Ht.
Qed.

Lemma set_past_effect k v o ms s :
  store_ok s ->
  if so_get o && non_string (live now s k)
  then effect (set_with_opts now draw k v o ms true) s wrongtype (live now s)
  else
    effect (set_with_opts now draw k v o ms true) s
      (set_past_spec o (live now s k)).1 (upd (live now s) k (set_past_spec o (live now s k)).2).
Proof.
  intros Hs. unfold set_with_opts.
  assert (forall s1, store_ok s1 -> (forall k', live now s1 k' = live now s k') ->
    effect (cur ← store_get now k;
      let present := match cur with Some _ => true | None => false end in
      if (so_nx o && present) || (so_xx o && negb present) then mret encode_nil
      else _ ← store_del k;
           if so_get o then match cur with
             | None => mret encode_nil
             | Some c => mret (encode_bulk_string (string_or_empty c)) end
           else mret encode_ok) s1
      (set_past_spec o (live now s k)).1 (upd (live now s) k (set_past_spec o (live now s k)).2)) as Htail.
  { intros s1 Hs1 Hl1. eapply effect_bind; [done|apply keeps_get|by apply get_effect|].
    intros s2 Hs2 Hl2. rewrite Hl1.
    destruct (del_effect k s2 Hs2) as [b Hb].
    assert (forall k', live now s2 k' = live now s k') as Hl by (intros; by rewrite Hl2, Hl1).
    assert (forall k', upd (live now s2) k None k' = upd (live now s) k None k') as Hu
      by (intros; unfold upd; by rewrite Hl).
    unfold set_past_spec. destruct (live now s k) as [[p dl]|] eqn:Hc.
    - rewrite bool_decide_eq_true_2 by done. cbn [fmap option_fmap option_map fst].
      destruct (_ || _).
      { apply effect_ret. intros k'. rewrite <-Hc, upd_same_cell. apply Hl. }
      eapply effect_bind; [done|apply keeps_del|exact Hb|]. intros s3 _ Hl3.
      destruct (so_get o); apply effect_ret; intros k'; by rewrite Hl3.
    - rewrite bool_decide_eq_false_2 by by intros []. cbn [fmap option_fmap option_map fst].
      destruct (_ || _).
      { apply effect_ret. intros k'. rewrite <-Hc, upd_same_cell. apply Hl. }
      eapply effect_bind; [done|apply keeps_del|exact Hb|]. intros s3 _ Hl3.
      destruct (so_get o); apply effect_ret; intros k'; by rewrite Hl3. }
  destruct (so_get o) eqn:Hg; cbn [andb]; [|by apply Htail].
  apply guard_effect; [done|]. intros _. destruct (is_non_string_effect k s Hs) as [_ Hl].
  destruct (is_non_string_keeps now k s Hs) as [Hs1 _]. by apply Htail.
Qed.

(** ** Keys *)

(** The keys of a list that have an entry, expired or not. *)
Definition present_keys (keys : list bytes) (s : Storage) : gset bytes :=
  filter (fun k => is_Some (entry s k)) (list_to_set keys).

Lemma present_keys_cons k keys s s' :
  (forall k', entry s' k' = if decide (k' = k) then None else entry s k') ->
  Z.of_nat (size (present_keys (k :: keys) s)) =
  (if bool_decide (is_Some (entry s k)) then 1 else 0) + Z.of_nat (size (present_keys keys s')).
Proof.
  intros He. apply size_filter_cons. intros k'. rewrite He. case_decide; subst; split.
  - by intros [].
  - by intros [].
  - done.
  - by intros [].
Qed.

Lemma entry_del k s k' :
  storage_wf s -> entry (del k s).2 k' = if decide (k' = k) then None else entry s k'.
Proof.
  intros Hwf. unfold del. cbn [fst snd]. rewrite <-(entry_remove_expire k s k').
  destruct (bool_decide _); rewrite ?entry_increment_dirty; by apply entry_erase, Hwf.
Qed.

Lemma del_keys_effect keys n s :
  store_ok s ->
  effect (del_keys keys n) s (n + Z.of_nat (size (present_keys keys s)))
    (fun k => if decide (k ∈ keys) then None else live now s k).
Proof.
  revert n s; induction keys as [|k keys IH]; intros n s Hs.
  { unfold present_keys, effect. cbn [del_keys list_to_set]. split; [|done].
    change (n = n + Z.of_nat (size (filter (fun k => is_Some (entry s k)) (∅ : gset bytes)))).
    rewrite size_filter_nil. lia. }
  cbn [del_keys]. destruct (del_live now k s (proj1 Hs)) as (Hwf & Hb & Hl).
  destruct (keeps_del k s Hs) as [Hs' _]. unfold effect, mbind, cmd_bind, store_del in *.
  pose proof (present_keys_cons k keys s (del k s).2) as Hc.
  destruct (del k s) as [b s'] eqn:Hd. cbn [fst snd] in *.
  destruct (IH (if b then n + 1 else n) s' Hs') as [Hr Hf]. split.
  - rewrite Hr, Hc; [subst b; case_bool_decide; lia|]. intros k'.
    rewrite <-entry_del by apply Hs. by rewrite Hd.
  - intros k'. rewrite Hf, Hl. unfold upd.
    destruct (decide (k' ∈ k :: keys)) as [Hin|Hin]; rewrite elem_of_cons in Hin;
      destruct (decide (k' ∈ keys)) as [Hi|Hi], (decide (k' = k)) as [He|He];
      clear - Hin Hi He; tauto.
Qed.

Lemma del_cmd_effect name keys s :
  store_ok s -> keys <> [] ->
  effect (del_cmd (name :: keys)) s (encode_integer (Z.of_nat (size (present_keys keys s))))
    (fun k => if decide (k ∈ keys) then None else live now s k).
Proof.
  intros Hs Hne. destruct keys as [|k keys]; [done|]. unfold del_cmd. cbn [length Nat.ltb Nat.leb].
  apply (effect_fmap _ _ encode_integer); [done|]. exact (del_keys_effect (k :: keys) 0 s Hs).
Qed.

(** Without a key that is stored past its deadline, the keys with an entry are the
    visible ones. *)
Lemma present_visible keys s :
  (forall k, k ∈ keys -> live now s k = None -> entry s k = None) ->
  present_keys keys s = filter (fun k => is_Some (live now s k)) (list_to_set keys).
Proof.
  intros Hv. apply set_eq. intros k. unfold present_keys. rewrite !elem_of_filter, elem_of_list_to_set.
  split; intros [Hs Hk]; split; try done.
  - destruct (live now s k) eqn:E; [done|]. rewrite (Hv k Hk E) in Hs. by destruct Hs.
  - unfold live in Hs. destruct (entry s k); [done|by destruct Hs].
Qed.

(** ** Expiration *)

Lemma expire_effect name k sec text n s :
  store_ok s -> k <> [] -> stoll text = Some (sec, n) ->
  let m := expire_cmd now [name; k; text] in
  match live now s k with
  | None => effect m s (encode_integer 0) (live now s)
  | Some (o, _) =>
      effect m s (encode_integer 1)
        (upd (live now s) k
          (if sec <=? 0 then None
           else Some (o, Some (ExpireDict.sat_add now (ttl_seconds_to_ms sec)))))
  end.
Proof using Hnow.
  intros Hs Hk Ht m. unfold m, expire_cmd. cbn [length Nat.eqb negb arg nth].
  rewrite bool_decide_eq_false_2, Ht by done.
  unfold effect, mbind, cmd_bind, store_exist. rewrite exist_live.
  destruct (live now s k) as [[o dl]|] eqn:Hl.
  - rewrite bool_decide_eq_true_2 by done. cbn [negb]. destruct (Z.leb_spec sec 0) as [|Hz].
    + destruct (del_live now k s (proj1 Hs)) as (_ & _ & Hd). unfold store_del.
      destruct (del k s) as [b s']. exact (conj eq_refl Hd).
    + cbn [fst snd]. split; [done|].
      assert (0 < ttl_seconds_to_ms sec) as Hms by (unfold ttl_seconds_to_ms; case_ifs; [done|lia]).
      destruct (set_expire_live now k (ttl_seconds_to_ms sec) s (proj1 Hs)) as [_ Hx];
        [by rewrite Hl|done..|].
      intros k'. rewrite Hl in Hx. cbn [fmap option_fmap option_map fst] in Hx. rewrite <-Hx.
      unfold set_expire. rewrite bool_decide_eq_false_2 by done.
      by rewrite (proj2 (Z.leb_gt _ 0) Hms).
  - rewrite bool_decide_eq_false_2 by by intros []. done.
Qed.

(** The milliseconds TTL and PTTL find. *)
Lemma remaining_spec k s :
  store_ok s ->
  remaining now k s =
  match live now s k with
  | None => None
  | Some (_, None) => Some None
  | Some (_, Some t) => Some (Some (t - now))
  end /\
  (forall o t, live now s k = Some (o, Some t) -> 0 < t - now).
Proof using Hnow.
  intros [Hwf _]. unfold remaining. rewrite exist_live.
  unfold ExpireDict.contains, ExpireDict.get_ttl. fold (deadline s k).
  unfold live. rewrite is_expired_deadline. destruct (entry s k) as [e|] eqn:He; [|done].
  destruct (deadline s k) as [t|] eqn:Hd; [|done].
  apply (swf_deadline s Hwf) in Hd as [_ Ht]. destruct (Z.leb_spec t now); [done|].
  assert (ExpireDict.wrap64 (t - now) = t - now) as ->.
  { unfold ExpireDict.wrap64, int64_max in *. rewrite Z.mod_small; lia. }
  rewrite bool_decide_eq_true_2 by done. cbn [negb].
  rewrite bool_decide_eq_true_2 by done. cbn [negb]. rewrite (proj2 (Z.leb_gt _ _)) by lia.
  split; [done|]. intros o t' [= _ <-]. lia.
Qed.

(** What TTL and PTTL report, in milliseconds. *)
Definition ttl_spec (unit : Z) (c : cell) : Z :=
  match c with
  | None => -2
  | Some (_, None) => -1
  | Some (_, Some t) => Z.quot (t - now) unit
  end.

Lemma ttl_effect name k s :
  store_ok s -> k <> [] ->
  effect (ttl_cmd now [name; k]) s (encode_integer (ttl_spec 1000 (live now s k))) (live now s).
Proof using Hnow.
  intros Hs Hk. destruct (remaining_spec k s Hs) as [Hr Hpos]. unfold effect, ttl_cmd.
  cbn [length Nat.eqb negb arg nth]. rewrite bool_decide_eq_false_2 by done. cbn [fst snd].
  split; [|done]. f_equal. rewrite Hr. destruct (live now s k) as [[o [t|]]|]; [|done..].
  specialize (Hpos o t eq_refl). by rewrite (proj2 (Z.leb_gt _ _)) by lia.
Qed.

Lemma pttl_effect name k s :
  store_ok s -> k <> [] ->
  effect (pttl_cmd now [name; k]) s (encode_integer (ttl_spec 1 (live now s k))) (live now s).
Proof using Hnow.
  intros Hs Hk. destruct (remaining_spec k s Hs) as [Hr Hpos]. unfold effect, pttl_cmd.
  cbn [length Nat.eqb negb arg nth]. rewrite bool_decide_eq_false_2 by done. cbn [fst snd].
  split; [|done]. f_equal. rewrite Hr. destruct (live now s k) as [[o [t|]]|]; [|done..].
  specialize (Hpos o t eq_refl). cbn [ttl_spec].
  rewrite (proj2 (Z.eqb_neq _ _)), (proj2 (Z.leb_gt _ _)) by lia. by rewrite Z.quot_1_r.
Qed.

Lemma persist_effect name k s :
  store_ok s -> k <> [] ->
  let m := persist_cmd now [name; k] in
  match live now s k with
  | Some (o, Some _) => effect m s (encode_integer 1) (upd (live now s) k (Some (o, None)))
  | _ => effect m s (encode_integer 0) (live now s)
  end.
Proof.
  intros Hs Hk m. unfold effect, m, persist_cmd. cbn [length Nat.eqb negb arg nth].
  rewrite bool_decide_eq_false_2 by done. rewrite exist_live.
  unfold ExpireDict.persist. fold (deadline s k).
  destruct (live now s k) as [[o dl]|] eqn:Hl; [|by rewrite bool_decide_eq_false_2 by by intros []].
  rewrite bool_decide_eq_true_2 by done. cbn [negb].
  unfold live in Hl. destruct (entry s k) as [e|] eqn:He; [|done].
  destruct (is_expired now k s); simplify_eq. destruct (deadline s k) as [t|] eqn:Hd; cbn [fst snd].
  - split; [done|]. change (with_expire (delete k (expire_dict_ s)) s) with (remove_expire k s).
    apply live_upd.
    + intros k' Hne. rewrite entry_increment_dirty, deadline_increment_dirty, deadline_remove_expire.
      by rewrite decide_False.
    + rewrite (live_present now _ k e); [|done|].
      * rewrite deadline_increment_dirty, deadline_remove_expire. by rewrite decide_True.
      * rewrite is_expired_deadline, deadline_increment_dirty, deadline_remove_expire.
        by rewrite decide_True.
  - split; [done|]. intros k'. by apply live_cong.
Qed.

Lemma setex_effect name k text sec n v s :
  store_ok s -> k <> [] -> stoll text = Some (sec, n) -> 0 < sec ->
  effect (setex_cmd now draw [name; k; text; v]) s encode_ok
    (upd (kept s) k (Some (object_of_string v,
      Some (ExpireDict.sat_add now (ttl_seconds_to_ms sec))))).
Proof using Hnow.
  intros Hs Hk Ht Hsec. unfold setex_cmd. cbn [length Nat.eqb negb arg nth].
  rewrite bool_decide_eq_false_2 by done. rewrite bool_decide_eq_false_2 by by intros ->.
  rewrite Ht, (proj2 (Z.leb_gt _ _)) by lia.
  pose proof (store_ok_evict now draw s Hs) as [Hwf _].
  destruct (set_with_expire_live now k (object_of_string v) (ttl_seconds_to_ms sec) _ Hwf Hnow) as [_ Hl].
  split; [done|]. intros k'. unfold mbind, cmd_bind, store_set_with_expire, set_with_expire.
  cbn [snd mret cmd_ret]. rewrite Hl. unfold deadline_of.
  rewrite (proj2 (Z.ltb_lt _ _)); [done|]. unfold ttl_seconds_to_ms. case_ifs; [done|lia].
Qed.

(** The write of RESTORE. *)
Lemma restore_write_effect {A} k v ms (a : A) s :
  store_ok s ->
  effect (_ ← (if 0 <? ms then store_set_with_expire now draw k v ms else store_set now draw k v);
          mret a) s a (upd (kept s) k (Some (v, deadline_of now ms))).
Proof using Hnow.
  intros Hs. destruct (store_ok_evict now draw s Hs) as [Hwf _]. unfold deadline_of.
  destruct (Z.ltb_spec 0 ms) as [Hms|Hms].
  - destruct (set_with_expire_live now k v ms _ Hwf Hnow) as [_ Hl].
    unfold deadline_of in Hl. rewrite (proj2 (Z.ltb_lt 0 ms) Hms) in Hl. exact (conj eq_refl Hl).
  - destruct (set_live now k v _ Hwf) as [_ Hl]. exact (conj eq_refl Hl).
Qed.
End effects.

(** A stored object comes back from its payload as it is. *)
Lemma restored_ok o : obj_ok o -> restored o = o.
Proof.
  intros [Ho Hn]. unfold restored, nonempty in *. destruct (type_ o) eqn:Ht.
  - symmetry. by apply shape_string.
  - rewrite bool_decide_eq_false_2 by done. symmetry. by apply shape_list.
  - rewrite bool_decide_eq_false_2 by done. symmetry. by apply shape_hash.
  - rewrite bool_decide_eq_false_2 by done. symmetry. by apply shape_set.
  - rewrite bool_decide_eq_false_2 by done. symmetry. by apply shape_zset.
Qed.

(** The arguments of ZADD are pairs of a number, which [stod] reads to its end
    and finds finite, and a member. *)
Fixpoint reads_scores `{DoubleLib} (args : list bytes) (entries : list (bytes * Z)) : Prop :=
  match args, entries with
  | [], [] => True
  | a :: x :: args, (x', score) :: entries =>
      x' = x /\ stod a = Some (score, length a) /\ isnan score = false /\ isinf score = false /\
      reads_scores args entries
  | _, _ => False
  end.

Lemma parse_scores_iff `{DoubleLib} args entries :
  (length args mod 2 = 0)%nat -> parse_scores args = inr entries <-> reads_scores args entries.
Proof.
  revert entries. induction args as [args IH] using (induction_ltof1 _ length). unfold ltof in IH.
  intros entries Hev. destruct args as [|a [|x args]]; [destruct entries; split; done|done|].
  assert (length args mod 2 = 0)%nat as Hev'.
  { cbn [length] in Hev. replace (S (S (length args))) with (length args + 1 * 2)%nat in Hev by lia.
    by rewrite Nat.Div0.mod_add in Hev. }
  cbn [parse_scores]. destruct entries as [|[x' score] entries]; cbn [reads_scores].
  { split; [|done]. repeat case_match; done. }
  specialize (IH args ltac:(simpl; lia)).
  destruct (stod a) as [[sc n]|]; [|split; [done|by intros (_ & ? & _)]].
  destruct (Nat.eqb_spec n (length a)) as [->|Hn]; cbn [negb];
    [|split; [done|intros (_ & [= _ ->] & _); done]].
  destruct (isnan sc) eqn:Hnan; [split; [done|intros (_ & [= ->] & ? & _); congruence]|].
  destruct (isinf sc) eqn:Hinf; [split; [done|intros (_ & [= ->] & _ & ? & _); congruence]|].
  cbn [orb]. destruct (parse_scores args) as [err|es] eqn:Hp.
  - split; [done|]. intros (_ & _ & _ & _ & Hr). by apply IH in Hr.
  - split.
    + intros [= -> -> ->]. split_and!; [done..|]. by apply IH.
    + intros (-> & [= ->] & _ & _ & Hr). apply IH in Hr; [|done]. by injection Hr as ->.
Qed.

End CommandsEffect.
