(* ===== verification/CommandsProps.v ===== *)
(** * The properties of the commands

    Every command keeps the invariant of the store and answers with one RESP
    value; what the commands of each type do to the keys a client sees; the
    transfer of a key by its payload; the lookup of commands by name. *)

From S2P Require Import Prelude Base Buffer Resp RespSpec Object ObjectSpec Payload PayloadSpec.
From S2P Require Import ExpireDict Storage StorageSpec StorageProps Commands CommandsSpec CommandsEffect.
From stdpp Require Import options.

Module CommandsProps.
Import Text Double Resp RespSpec Object ObjectSpec Payload PayloadSpec Storage StorageSpec Commands
  CommandsSpec CommandsEffect.

#[local] Opaque evict_if_needed.

(** The text of a [double] for the witnesses: its bits as a number. *)
Definition bits_lib : DoubleLib := {|
  stod := fun s => (fun v => (v, length s)) <$> parse_u64 s;
  fmt_fixed := fun _ x => to_string x;
  strtod := fun s => default 0 (parse_u64 s);
  no_fraction := fun _ => true;
  floor_log10 := fun _ => 0
|}.

(** The instances of the witnesses. *)
Abbreviation shash := StorageProps.sum_hash.
Abbreviation sord := StorageProps.plain_store_order.

(** A store with one key. *)
Lemma one_key_ok `{StringHash} k v : obj_ok v -> store_ok (set_locked 3 k v new_storage).
Proof.
  intros Hv. unfold set_locked. apply store_ok_dirty, store_ok_insert; [|done].
  apply store_ok_remove, new_storage_ok.
Qed.

(** The loop of HGETALL that collects fields and values. *)
Lemma flatten_pairs (l : list (bytes * bytes)) :
  foldl (fun r kv => r ++ [kv.1; kv.2]) [] l = l ≫= fun x => [x.1; x.2].
Proof.
  assert (forall acc, foldl (fun r (kv : bytes * bytes) => r ++ [kv.1; kv.2]) acc l =
    acc ++ (l ≫= fun x => [x.1; x.2])) as Hacc; [|apply Hacc].
  induction l as [|x l IH]; intros acc; cbn [foldl mbind list_bind]; [by rewrite app_nil_r|].
  rewrite IH. by rewrite <-app_assoc.
Qed.

(** The registered names are in lower case. *)
Lemma registered_lower name c : find_command name = Some c -> to_lower name = name.
Proof.
  unfold find_command. intros Hf%elem_of_list_to_map_2.
  assert (Forall (fun kv => to_lower kv.1 = kv.1) commands_) as Hall
    by (apply (bool_decide_unpack _); by vm_compute).
  rewrite Forall_forall in Hall. by apply (Hall (name, c)).
Qed.

(** C4: every command keeps the invariant (keys in their shards, deadlines only
    on keys, objects well-formed and never an empty container) and answers with
    nil or with the wire format of exactly one value, which the parser of the
    server reads back, leaving the bytes after it. Only RESTORE can leave
    without a reply, by an exception. *)
Theorem commands_invariant `{StringHash} `{StoreOrder} `{HashOrder} `{DoubleText} `{DoubleLib}
    now draw pick c args m s :
  store_ok s -> 0 <= now < int64_max -> execute now draw pick c args = Some m ->
  let '(r, s') := m s in
  store_ok s' /\ (c <> CRestore -> is_Some r) /\
  forall b, r = Some b ->
    b = encode_nil \/
    exists v, b = wire v /\
      (sized v -> forall rest, exists st,
         parse_one parse_fuel (mkPst new_parser (b ++ rest)) = Done (Some v) st /\
         ps_parser st = new_parser /\ peeked st = rest).
Proof.
  intros Hs Hnow Hc. destruct (execute_answers now draw pick Hnow c args m Hc s Hs) as [Hs' Hr].
  assert (c <> CRestore -> is_Some (m s).1) as Hsome.
  { intros Hne. destruct c; try done; cbn [execute] in Hc; injection Hc as <-;
      unfold fmap, cmd_fmap; by case_match. }
  destruct (m s) as [r s']. cbn [fst snd] in *. split_and!; [done..|].
  intros b Hb. destruct (Hr b Hb) as [|v Hv]; [by left|]. right. exists v. split; [done|].
  intros Hsz rest. pose proof (reply_value_wire_ok v Hv Hsz) as Hok.
  destruct (parse_one_reads 1 parse_fuel (mkPst new_parser (wire v ++ rest)) v rest)
    as (st & ? & ? & _ & ?); [done|unfold parse_fuel; lia|done|done|done|]. by exists st.
Qed.

Lemma commands_invariant_witness :
  store_ok (H := shash)
    (@lpush_cmd shash sord 5 (fun n => n)
      [lit "lpush"; lit "k"; lit "x"] new_storage).2.
Proof.
  pose proof (@commands_invariant shash sord plain_order
    bits_text bits_lib 5 (fun n => n) 0%nat CLpush [lit "lpush"; lit "k"; lit "x"] _ new_storage
    (@new_storage_ok shash) ltac:(done) eq_refl) as Hw.
  unfold fmap, cmd_fmap in Hw. destruct (lpush_cmd _ _ _ _) as [r s]. exact (proj1 Hw).
Defined.

(** C5: the string commands. GET reads the visible string; SET with any accepted
    options writes exactly the cells that NX, XX, GET, KEEPTTL and the expiry
    options describe ([set_spec], or the deletion of [set_past_spec] for an
    absolute time that has passed) with the deadline they name ([expiry_at]), and
    refuses an invalid time; INCRBY and DECRBY compute within 64 bits, keep the
    deadline, and otherwise report why they did not. No other key changes. *)
Theorem strings_refine `{StringHash} `{StoreOrder} now draw name k v opts o s :
  store_ok s -> 0 <= now < int64_max ->
  parse_set_opts opts no_opts = inr o -> so_nx o && so_get o = false ->
  let f := live now s in
  let s1 := if so_get o then (is_non_string now k s).2 else s in
  let f1 := kept now draw s1 in
  let set := set_cmd now draw (name :: k :: v :: opts) in
  effect now (get_cmd now [name; k]) s (get_reply (f k)) f /\
  (if negb (expiry_valid o)
   then effect now set s (encode_error (lit "ERR invalid expire time in 'set' command")) f
   else if so_get o && non_string (f k) then effect now set s wrongtype f
   else if expiry_past now o then
     effect now set s (set_past_spec o (f k)).1 (upd f k (set_past_spec o (f k)).2)
   else
     let '(reply, c) := set_spec o v (expiry_at now o) (f1 k) in
     effect now set s reply (upd f1 k c)) /\
  (forall text delta, IntParse.parse_ll_strict text = Some delta ->
     let g := kept now draw s in
     effect now (incrby_cmd now draw [name; k; text]) s (incr_spec delta (g k)).1
       (upd g k (incr_spec delta (g k)).2) /\
     (delta <> int64_min ->
      effect now (decrby_cmd now draw [name; k; text]) s (incr_spec (- delta) (g k)).1
        (upd g k (incr_spec (- delta) (g k)).2))).
Proof.
  intros Hs Hnow Ho Hng f s1 f1 set. split_and!.
  - by apply get_cmd_effect.
  - unfold set, set_cmd. cbn [length Nat.ltb Nat.leb arg nth drop]. rewrite drop_0, Ho, Hng.
    pose proof (parse_set_opts_excl opts no_opts o Ho eq_refl) as Hex.
    pose proof (set_ttl_spec now Hnow o) as Ht. destruct (expiry_valid o); cbn [negb].
    + destruct Ht as (ms & -> & Hdl). destruct (expiry_past now o).
      * by apply set_past_effect.
      * pose proof (set_write_effect now draw Hnow k v o ms s Hs Hex) as Hw.
        rewrite (Hdl eq_refl) in Hw. cbv zeta in Hw. fold s1 in Hw. fold f1 in Hw. destruct (so_get o && _); [exact Hw|].
        destruct (set_spec _ _ _ _). exact Hw.
    + by rewrite Ht.
  - intros text delta Hp g. pose proof (IntParse.parse_ll_strict_range _ _ Hp) as Hr.
    unfold incrby_cmd, decrby_cmd. cbn [length Nat.eqb negb arg nth]. rewrite Hp. split.
    + by apply incr_effect.
    + intros Hmin. rewrite (proj2 (Z.eqb_neq _ _)) by done. apply incr_effect; [done|].
      unfold in_i64, int64_min, int64_max in *. lia.
Qed.

Lemma strings_refine_witness :
  effect (H := shash) 5 (@set_cmd shash sord 5 (fun n => n) [lit "set"; lit "k"; lit "v"; lit "px"; lit "70"])
    new_storage encode_ok
    (upd (@kept shash sord 5 (fun n => n) new_storage) (lit "k")
      (Some (object_of_string (lit "v"), Some 75))).
Proof.
  pose proof (proj1 (proj2 (@strings_refine shash sord 5 (fun n => n) (lit "set") (lit "k") (lit "v")
    [lit "px"; lit "70"] (mkOpts mPx 70 false false false false) new_storage
    (@new_storage_ok shash) ltac:(done) ltac:(by vm_compute) eq_refl))) as Hw.
  exact Hw.
Defined.

(** C6: the list commands. A push adds its values at its end of the list (LPUSH
    reverses them), on an absent key or a string included, which becomes the first
    element unless it is empty, and answers the new length; a pop takes the element
    at its end and deletes the key with its last element; LLEN reads the length.
    LRANGE answers the elements that its indices select, counted from the end when
    they are negative, for indices that are in range, above it, or below twice the
    length. (For the others, from twice the length below the end to just below the
    start, the code counts from the end twice: [range_normalised_twice].) The
    deadline stays, no other key changes, a key of another type is refused. *)
Theorem lists_refine `{StringHash} `{StoreOrder} now draw name k s :
  store_ok s -> 0 <= now < int64_max ->
  let f := kept now draw s in
  (forall (front : bool) vals, vals <> [] ->
     let push := (if front then lpush_cmd else rpush_cmd) now draw (name :: k :: vals) in
     match list_cell (f k) with
     | None => effect now push s wrongtype f
     | Some (l, dl) =>
         effect now push s (encode_integer (zlen (pushed front vals l)))
           (upd f k (Some (object_of_list (pushed front vals l), dl)))
     end) /\
  (forall front : bool,
     let pop := (if front then lpop_cmd else rpop_cmd) now draw [name; k] in
     match f k with
     | None => effect now pop s encode_nil f
     | Some (o, dl) =>
         if decide (type_ o = LIST) then
           exists x l, list_val_ o = (if front then x :: l else l ++ [x]) /\
             effect now pop s (encode_bulk_string x) (upd f k (list_left l dl))
         else effect now pop s wrongtype f
     end) /\
  effect now (llen_cmd now [name; k]) s
    (match live now s k with
     | None => encode_integer 0
     | Some (o, _) => if decide (type_ o = LIST) then encode_integer (zlen (list_val_ o)) else wrongtype
     end) (live now s) /\
  (forall a b start stop,
     IntParse.parse_ll_strict a = Some start -> IntParse.parse_ll_strict b = Some stop ->
     let lrange := lrange_cmd now [name; k; a; b] in
     match typed LIST list_val_ [] (live now s k) with
     | None => effect now lrange s wrongtype (live now s)
     | Some (l, _) =>
         settled (zlen l) start -> settled (zlen l) stop ->
         exists r, range_of l start stop r /\ effect now lrange s (encode_array r) (live now s)
     end).
Proof.
  intros Hs Hnow f. split_and!.
  - intros front [|v vals] Hv; [done|]. pose proof (push_effect now draw front (v :: vals) k s Hs Hv) as He.
    destruct front; exact He.
  - intros front. pose proof (pop_effect now draw front k s Hs) as He. destruct front; exact He.
  - by apply read_effect.
  - intros a b start stop Ha Hb. unfold lrange_cmd. cbn [length Nat.eqb negb arg nth]. rewrite Ha, Hb.
    pose proof (read_effect now k LIST (encode_array []) (fun o => encode_array (list_range start stop o)) s Hs) as Hr.
    unfold typed. destruct (live now s k) as [[o dl]|].
    + case_decide as Ht; [|exact Hr]. intros Hstart Hstop. exists (list_range start stop o).
      split; [|exact Hr]. by apply (proj1 (ranges_select start stop o)).
    + intros _ _. exists []. split; [|exact Hr]. intros i j. case_decide as Hd; [|done].
      destruct Hd as [Hd _]. unfold zlen in Hd. simpl in Hd. lia.
Qed.

(** Indices 0 to -2 of a stored list of three elements, and a push to it. *)
Lemma lists_refine_witness :
  let l := [lit "a"; lit "b"; lit "c"] in
  let s := @set_locked shash 3 (lit "k") (object_of_list l) new_storage in
  (exists r, range_of l 0 (-2) r /\
     effect (H := shash) 5 (@lrange_cmd shash 5 [lit "x"; lit "k"; lit "0"; lit "-2"]) s (encode_array r)
       (@live shash 5 s)) /\
  effect (H := shash) 5 (@rpush_cmd shash sord 5 (fun n => n) [lit "x"; lit "k"; lit "d"]) s (encode_integer 4)
    (upd (@kept shash sord 5 (fun n => n) s) (lit "k") (Some (object_of_list (l ++ [lit "d"]), None))).
Proof.
  intros l s.
  assert (store_ok (H := shash) s) as Hs by (by apply one_key_ok, list_object_ok).
  destruct (@lists_refine shash sord 5 (fun n => n) (lit "x") (lit "k") s Hs ltac:(done)) as (Hpush & _ & _ & Hrange).
  split.
  - specialize (Hrange (lit "0") (lit "-2") 0 (-2) eq_refl eq_refl). vm_compute (live 5 s _) in Hrange.
    apply Hrange; by left.
  - specialize (Hpush false [lit "d"] ltac:(done)).
    vm_compute (kept 5 _ s (lit "k")) in Hpush. exact Hpush.
Defined.

(** C7: the hash commands refine a map from fields to values. HSET on a key that
    is absent or a hash sets a field and tells whether it is new; HGET looks one up;
    HDEL removes fields, counts the ones that were there and deletes the key with
    its last field; HLEN counts; HGETALL lists every field with its value once. A
    key of another type is refused, where HSET on a string is left out (it replaces
    the string, against the documentation: [writes_replace_strings]). *)
Theorem hashes_refine `{StringHash} `{StoreOrder} `{HashOrder} now draw name k s :
  store_ok s -> 0 <= now < int64_max ->
  let f := kept now draw s in
  (forall fld v, holds_string (f k) = false ->
     let m := hset_cmd now draw [name; k; fld; v] in
     match typed HASH hash_val_ ∅ (f k) with
     | None => effect now m s wrongtype f
     | Some (h, dl) =>
         effect now m s (encode_integer (if bool_decide (is_Some (h !! fld)) then 0 else 1))
           (upd f k (Some (hash_object (<[fld := v]> h), dl)))
     end) /\
  (forall fields, fields <> [] ->
     let m := hdel_cmd now draw (name :: k :: fields) in
     match f k with
     | None => effect now m s (encode_integer 0) f
     | Some (o, dl) =>
         if decide (type_ o = HASH) then
           let h := hash_val_ o in
           let h' := deleted fields h in
           effect now m s (encode_integer (Z.of_nat (size h) - Z.of_nat (size h')))
             (upd f k (if decide (h' = ∅) then None else Some (hash_object h', dl)))
         else effect now m s wrongtype f
     end) /\
  match live now s k with
  | Some (o, _) =>
      let ok := decide (type_ o = HASH) in
      (forall fld, effect now (hget_cmd now [name; k; fld]) s
         (if ok then bulk_or_nil (hash_val_ o !! fld) else wrongtype) (live now s)) /\
      effect now (hlen_cmd now [name; k]) s
        (if ok then encode_integer (Z.of_nat (size (hash_val_ o))) else wrongtype) (live now s) /\
      exists items, items ≡ₚ map_to_list (hash_val_ o) /\
        effect now (hgetall_cmd now [name; k]) s
          (if ok then encode_array (items ≫= fun x => [x.1; x.2]) else wrongtype) (live now s)
  | None =>
      (forall fld, effect now (hget_cmd now [name; k; fld]) s encode_nil (live now s)) /\
      effect now (hlen_cmd now [name; k]) s (encode_integer 0) (live now s) /\
      effect now (hgetall_cmd now [name; k]) s (encode_array []) (live now s)
  end.
Proof.
  intros Hs Hnow f. split_and!.
  - intros fld v Hns. rewrite <-hash_cell_typed by done. exact (hset_effect now draw fld v k s Hs).
  - intros [|x fields] Hne; [done|]. exact (hdel_effect now draw (x :: fields) k s Hs).
  - pose proof (fun absent reply => read_effect now k HASH absent reply s Hs) as Hr.
    destruct (live now s k) as [[o dl]|] eqn:Hl; [|split_and!; [intros fld|..]; apply Hr].
    cbv zeta. split_and!.
    + intros fld. eapply effect_eq; [apply Hr| |done]. case_decide as Ht; [|done].
      unfold hash_get. by rewrite (proj2 (is_type_true HASH o) Ht).
    + apply Hr.
    + exists (map_items (hash_val_ o)). split; [apply map_items_perm|].
      eapply effect_eq; [apply Hr| |done]. case_decide as Ht; [|done].
      unfold hash_items. rewrite (proj2 (is_type_true HASH o) Ht). cbn [negb].
      f_equal. by rewrite flatten_pairs.
Qed.

(** A field is set and another deleted in a stored hash. *)
Lemma hashes_refine_witness :
  let h : gmap bytes bytes := {[ lit "f" := lit "1" ]} in
  let s := @set_locked shash 3 (lit "k") (hash_object h) new_storage in
  effect (H := shash) 5 (@hset_cmd shash sord 5 (fun n => n) [lit "x"; lit "k"; lit "f"; lit "2"]) s
    (encode_integer 0)
    (upd (@kept shash sord 5 (fun n => n) s) (lit "k") (Some (hash_object (<[lit "f" := lit "2"]> h), None))) /\
  effect (H := shash) 5 (@hdel_cmd shash sord 5 (fun n => n) [lit "x"; lit "k"; lit "f"]) s (encode_integer 1)
    (upd (@kept shash sord 5 (fun n => n) s) (lit "k") None).
Proof.
  intros h s.
  assert (store_ok (H := shash) s) as Hs by (by apply one_key_ok, hash_object_ok).
  destruct (@hashes_refine shash sord plain_order 5 (fun n => n) (lit "x") (lit "k") s Hs ltac:(done)) as (Hset & Hdel & _).
  split.
  - specialize (Hset (lit "f") (lit "2")). vm_compute (kept 5 _ s (lit "k")) in Hset. exact (Hset eq_refl).
  - specialize (Hdel [lit "f"] ltac:(done)). vm_compute (kept 5 _ s (lit "k")) in Hdel. exact Hdel.
Defined.

(** C8: the set commands refine a finite set. SADD on a key that is absent or a set
    adds members and counts the new ones; SPOP takes some member and deletes the key
    with the last one; SCARD, SISMEMBER and SMEMBERS read the cardinality, membership
    and every member once. A key of another type is refused, where SADD on a string
    is left out (it replaces the string, against the documentation:
    [writes_replace_strings]). *)
Theorem sets_refine `{StringHash} `{StoreOrder} `{HashOrder} now draw pick name k s :
  store_ok s -> 0 <= now < int64_max ->
  let f := kept now draw s in
  (forall members, members <> [] -> holds_string (f k) = false ->
     let m := sadd_cmd now draw (name :: k :: members) in
     match typed SET set_val_ ∅ (f k) with
     | None => effect now m s wrongtype f
     | Some (e, dl) =>
         let e' := list_to_set members ∪ e in
         effect now m s (encode_integer (Z.of_nat (size e') - Z.of_nat (size e)))
           (upd f k (Some (set_object e', dl)))
     end) /\
  (let m := spop_cmd now draw pick [name; k] in
   match f k with
   | None => effect now m s encode_nil f
   | Some (o, dl) =>
       if decide (type_ o = SET) then
         exists x, x ∈ set_val_ o /\
           let e' := set_val_ o ∖ {[x]} in
           effect now m s (encode_bulk_string x)
             (upd f k (if decide (e' = ∅) then None else Some (set_object e', dl)))
       else effect now m s wrongtype f
   end) /\
  match live now s k with
  | Some (o, _) =>
      let ok := decide (type_ o = SET) in
      (forall x, effect now (sismember_cmd now [name; k; x]) s
         (if ok then encode_integer (if decide (x ∈ set_val_ o) then 1 else 0) else wrongtype)
         (live now s)) /\
      effect now (scard_cmd now [name; k]) s
        (if ok then encode_integer (Z.of_nat (size (set_val_ o))) else wrongtype) (live now s) /\
      exists members, members ≡ₚ elements (set_val_ o) /\
        effect now (smembers_cmd now [name; k]) s
          (if ok then encode_array members else wrongtype) (live now s)
  | None =>
      (forall x, effect now (sismember_cmd now [name; k; x]) s (encode_integer 0) (live now s)) /\
      effect now (scard_cmd now [name; k]) s (encode_integer 0) (live now s) /\
      effect now (smembers_cmd now [name; k]) s (encode_array []) (live now s)
  end.
Proof.
  intros Hs Hnow f. split_and!.
  - intros [|x members] Hne Hns; [done|]. rewrite <-set_cell_typed by done.
    by apply (sadd_effect now draw (x :: members) k s Hs).
  - exact (spop_effect now draw pick k s Hs).
  - pose proof (fun absent reply => read_effect now k SET absent reply s Hs) as Hr.
    destruct (live now s k) as [[o dl]|] eqn:Hl; [|split_and!; [intros x|..]; apply Hr].
    cbv zeta. split_and!.
    + intros x. eapply effect_eq; [apply Hr| |done]. case_decide as Ht; [|done].
      unfold set_contains. rewrite (proj2 (is_type_true SET o) Ht). cbn [negb].
      case_bool_decide; by case_decide.
    + apply Hr.
    + exists (set_items (set_val_ o)). split; [apply set_items_perm|].
      eapply effect_eq; [apply Hr| |done]. case_decide as Ht; [|done].
      unfold set_members. by rewrite (proj2 (is_type_true SET o) Ht).
Qed.

(** Two members, one of them new, are added to a stored set. *)
Lemma sets_refine_witness :
  let e : gset bytes := {[ lit "a" ]} in
  let s := @set_locked shash 3 (lit "k") (set_object e) new_storage in
  effect (H := shash) 5 (@sadd_cmd shash sord 5 (fun n => n) [lit "x"; lit "k"; lit "a"; lit "b"]) s
    (encode_integer 1)
    (upd (@kept shash sord 5 (fun n => n) s) (lit "k")
      (Some (set_object (list_to_set [lit "a"; lit "b"] ∪ e), None))).
Proof.
  intros e s.
  assert (store_ok (H := shash) s) as Hs by (by apply one_key_ok, set_object_ok).
  destruct (@sets_refine shash sord plain_order 5 (fun n => n) 0%nat (lit "x") (lit "k") s Hs ltac:(done)) as (Hadd & _).
  specialize (Hadd [lit "a"; lit "b"] ltac:(done)). vm_compute (kept 5 _ s (lit "k")) in Hadd. exact (Hadd eq_refl).
Defined.

(** C9: the sorted-set commands refine a map from members to scores. ZADD reads
    all scores before it touches the store (a bad one leaves everything as it
    was), gives every member its score and keeps the order by score and member; it
    answers how many members are new, when none of the members it names changes its
    score (when one does, the code counts it as well: [zadd_counts_updates]). ZSCORE
    and ZCARD read the map. A key of another type is refused, where ZADD on a string
    is left out (it replaces the string, against the documentation:
    [writes_replace_strings]). *)
Theorem zsets_refine `{StringHash} `{StoreOrder} `{DoubleLib} now draw name k rest s :
  store_ok s -> 0 <= now < int64_max -> rest <> [] -> (length rest mod 2 = 0)%nat ->
  let f := kept now draw s in
  let m := zadd_cmd now draw (name :: k :: rest) in
  (forall entries, reads_scores rest entries -> holds_string (f k) = false ->
     match typed ZSET zset_val_ [] (f k) with
     | None => effect now m s wrongtype f
     | Some (l, dl) =>
         exists l' n, zset_wf l' /\ zmap l' = (score_all entries (zmap l)).2 /\
           (keeps_scores entries (zmap l) -> n = Z.of_nat (size (zmap l')) - Z.of_nat (size (zmap l))) /\
           effect now m s (encode_integer n) (upd f k (Some (zset_object l', dl)))
     end) /\
  ((forall entries, ~ reads_scores rest entries) ->
     exists err, is_reply err /\ effect now m s err (live now s)) /\
  (forall x, effect now (zscore_cmd now [name; k; x]) s
     (match live now s k with
      | None => encode_nil
      | Some (o, _) =>
          if decide (type_ o = ZSET)
          then bulk_or_nil (format_double <$> zmap (zset_val_ o) !! x) else wrongtype
      end) (live now s)) /\
  effect now (zcard_cmd now [name; k]) s
    (match live now s k with
     | None => encode_integer 0
     | Some (o, _) =>
         if decide (type_ o = ZSET)
         then encode_integer (Z.of_nat (size (zmap (zset_val_ o)))) else wrongtype
     end) (live now s).
Proof.
  intros Hs Hnow Hne Hev f m.
  assert (m = match parse_scores rest with
    | inl err => mret err
    | inr entries => r ← store_mutate now draw k ZSET (zadd_fn entries) kAllow;
                     mret (or_wrongtype encode_integer r) end) as Hm.
  { unfold m, zadd_cmd. destruct rest as [|a [|b rest]]; [done..|].
    cbn [length Nat.ltb Nat.leb Nat.sub arg nth drop] in *. by rewrite Hev. }
  split_and!.
  - intros entries He Hns. apply parse_scores_iff in He as Hp; [|done]. rewrite Hm, Hp.
    pose proof (zadd_effect now draw entries k s Hs) as Hz. rewrite zset_cell_typed in Hz by done.
    fold f in Hz. destruct (typed _ _ _ (f k)) as [[l dl]|].
    + destruct Hz as (l' & Hwf & Hl & Hz); [|by eapply parse_scores_num|].
      { intros ->. by destruct rest as [|? []]. }
      exists l', (score_all entries (zmap l)).1. split_and!; [done..|rewrite Hl; apply score_all_new|exact Hz].
    + apply Hz; [|by eapply parse_scores_num]. intros ->. by destruct rest as [|? []].
  - intros Hno. rewrite Hm. destruct (parse_scores rest) as [err|entries] eqn:Hp.
    + exists err. split; [by eapply parse_scores_error|done].
    + apply parse_scores_iff in Hp; [|done]. by apply Hno in Hp.
  - intros x. eapply effect_eq; [exact (read_effect now k ZSET _ _ s Hs)| |done].
    destruct (live now s k) as [[o dl]|] eqn:Hl; [|done]. case_decide as Ht; [|done].
    rewrite zset_score_eq; [done|done|]. apply (live_ok now s k o dl Hs Hl).
  - eapply effect_eq; [exact (read_effect now k ZSET _ _ s Hs)| |done].
    destruct (live now s k) as [[o dl]|] eqn:Hl; [|done]. case_decide as Ht; [|done].
    f_equal. unfold zset_size, zlen, zmap. rewrite map_size_list_to_map; [done|].
    apply (live_ok now s k o dl Hs Hl).
Qed.

(** A new member, and one that keeps its score, are added to a stored sorted set; a
    bad score changes nothing. *)
Lemma zsets_refine_witness :
  let s := @set_locked shash 3 (lit "k") (zset_object [(lit "m", 8)]) new_storage in
  (exists l', zset_wf l' /\ zmap l' = {[ lit "m" := 8; lit "n" := 9 ]} /\
     effect (H := shash) 5 (@zadd_cmd shash sord bits_lib 5 (fun n => n)
       [lit "zadd"; lit "k"; lit "8"; lit "m"; lit "9"; lit "n"]) s (encode_integer 1)
       (upd (@kept shash sord 5 (fun n => n) s) (lit "k") (Some (zset_object l', None)))) /\
  exists err, is_reply err /\
    effect (H := shash) 5 (@zadd_cmd shash sord bits_lib 5 (fun n => n)
      [lit "zadd"; lit "k"; lit "1.5x"; lit "m"]) s err (@live shash 5 s).
Proof.
  intros s.
  assert (store_ok (H := shash) s) as Hs
    by (apply one_key_ok, (zset_add_ok (lit "m") 8 new_object); [done|apply new_object_ok]).
  split.
  - destruct (@zsets_refine shash sord bits_lib 5 (fun n => n) (lit "zadd") (lit "k")
      [lit "8"; lit "m"; lit "9"; lit "n"] s Hs ltac:(done) ltac:(done) eq_refl) as (Hadd & _).
    assert (@reads_scores bits_lib [lit "8"; lit "m"; lit "9"; lit "n"] [(lit "m", 8); (lit "n", 9)]) as Hr
      by (cbn [reads_scores]; split_and!; vm_compute; reflexivity || exact I).
    specialize (Hadd [(lit "m", 8); (lit "n", 9)] Hr).
    vm_compute (kept 5 _ s (lit "k")) in Hadd. destruct (Hadd eq_refl) as (l' & n & Hwf & Hm & Hn & He).
    exists l'. assert (zmap l' = {[ lit "m" := 8; lit "n" := 9 ]}) as Hl by (rewrite Hm; by vm_compute).
    split; [exact Hwf|]. split; [exact Hl|]. rewrite Hn, Hl in He; [exact He|].
    intros x a b Ha Hb. rewrite !elem_of_cons in Ha, Hb.
    destruct Ha as [[= -> ->]|[[= -> ->]|Ha%elem_of_nil]], Hb as [[[=]|[[=]|Hb%elem_of_nil]]|Hb]; subst; try done;
      vm_compute in Hb; congruence.
  - refine (proj1 (proj2 (@zsets_refine shash sord bits_lib 5 (fun n => n) (lit "zadd") (lit "k")
      [lit "1.5x"; lit "m"] s Hs _ _ _)) _); [done..|].
    intros [|[x sc] es]; [by intros []|]. intros (_ & Hr & _). by vm_compute in Hr.
Defined.

(** C10: the commands on keys and deadlines. DEL removes the given keys and answers
    how many of them a client could see, when none of them is past its deadline and
    still stored (such a key is counted too: [del_counts_expired]); EXISTS tests
    visibility; EXPIRE and SETEX with a decimal number set the deadline of so many
    seconds, saturated at the end of time (for a time that is not positive EXPIRE
    deletes the key and SETEX refuses); TTL and PTTL report what is left until the
    deadline, [-1] without one, [-2] for an absent key; PERSIST removes the
    deadline. *)
Theorem keys_refine `{StringHash} `{StoreOrder} now draw name k text sec v s :
  store_ok s -> 0 <= now < int64_max -> k <> [] -> IntParse.parse_ll_strict text = Some sec ->
  let f := live now s in
  let due := Some (Z.min int64_max (now + 1000 * sec)) in
  (forall keys, keys <> [] -> exists n,
     effect now (del_cmd (name :: keys)) s (encode_integer n)
       (fun k => if decide (k ∈ keys) then None else f k) /\
     ((forall k, k ∈ keys -> f k = None -> entry s k = None) ->
      n = Z.of_nat (size (filter (fun k => is_Some (f k)) (list_to_set keys : gset bytes))))) /\
  effect now (exists_cmd now [name; k]) s
    (encode_integer (if bool_decide (is_Some (f k)) then 1 else 0)) f /\
  (match f k with
   | None => effect now (expire_cmd now [name; k; text]) s (encode_integer 0) f
   | Some (o, _) =>
       effect now (expire_cmd now [name; k; text]) s (encode_integer 1)
         (upd f k (if sec <=? 0 then None else Some (o, due)))
   end) /\
  (if sec <=? 0
   then effect now (setex_cmd now draw [name; k; text; v]) s
          (encode_error (lit "ERR invalid expire time")) f
   else effect now (setex_cmd now draw [name; k; text; v]) s encode_ok
          (upd (kept now draw s) k (Some (object_of_string v, due)))) /\
  effect now (ttl_cmd now [name; k]) s (encode_integer (ttl_spec now 1000 (f k))) f /\
  effect now (pttl_cmd now [name; k]) s (encode_integer (ttl_spec now 1 (f k))) f /\
  (match f k with
   | Some (o, Some _) =>
       effect now (persist_cmd now [name; k]) s (encode_integer 1) (upd f k (Some (o, None)))
   | _ => effect now (persist_cmd now [name; k]) s (encode_integer 0) f
   end).
Proof.
  intros Hs Hnow Hk Ht%IntParse.parse_ll_strict_stoll f due. split_and!.
  - intros keys Hne. exists (Z.of_nat (size (present_keys keys s))).
    split; [by apply del_cmd_effect|]. intros Hvis. by rewrite (present_visible now keys s Hvis).
  - unfold effect, exists_cmd, mbind, cmd_bind, store_exist. cbn [length Nat.eqb negb arg nth].
    by rewrite exist_live.
  - pose proof (expire_effect now Hnow name k sec text _ s Hs Hk Ht) as He.
    unfold due, f. destruct (live now s k) as [[o dl]|]; [|exact He].
    destruct (Z.leb_spec sec 0); [exact He|]. rewrite <-seconds_deadline by done. exact He.
  - destruct (Z.leb_spec sec 0) as [Hz|Hz].
    + unfold setex_cmd. cbn [length Nat.eqb negb arg nth]. rewrite bool_decide_eq_false_2 by done.
      rewrite bool_decide_eq_false_2 by by intros ->. by rewrite Ht, (proj2 (Z.leb_le _ _) Hz).
    + unfold due. rewrite <-seconds_deadline by done. by eapply setex_effect.
  - by apply ttl_effect.
  - by apply pttl_effect.
  - exact (persist_effect now name k s Hs Hk).
Qed.

(** On a store with one key: DEL of it and of an absent one, and a deadline. *)
Lemma keys_refine_witness :
  let s := @set_locked shash 3 (lit "k") (object_of_string (lit "1")) new_storage in
  effect (H := shash) 5 (@del_cmd shash [lit "x"; lit "k"; lit "l"]) s (encode_integer 1)
    (fun k => if decide (k ∈ [lit "k"; lit "l"]) then None else @live shash 5 s k) /\
  effect (H := shash) 5 (@expire_cmd shash 5 [lit "x"; lit "k"; lit "9"]) s (encode_integer 1)
    (upd (@live shash 5 s) (lit "k") (Some (object_of_string (lit "1"), Some 9005))).
Proof.
  intros s.
  assert (store_ok (H := shash) s) as Hs by (apply one_key_ok, string_object_ok).
  destruct (@keys_refine shash sord 5 (fun n => n) (lit "x") (lit "k") (lit "9") 9 (lit "v") s Hs
    ltac:(done) ltac:(done) eq_refl) as (Hdel & _ & Hexp & _).
  split.
  - destruct (Hdel [lit "k"; lit "l"] ltac:(done)) as (n & He & Hn). rewrite Hn in He; [exact He|].
    intros k [->|[->|[]%elem_of_nil]%elem_of_cons]%elem_of_cons; by vm_compute.
  - vm_compute (live 5 s (lit "k")) in Hexp. exact Hexp.
Defined.

Lemma deserialize_serialize `{HashOrder} `{DoubleText} o :
  obj_ok o -> payload_fits o -> deserialize (serialize o) new_object = DOk o.
Proof.
  intros Ho Hf. rewrite serialize_contents, deserialize_tag, by_type_ok by (done || apply Ho).
  f_equal. by apply restored_ok.
Qed.

(** RESTORE with and without REPLACE. *)
Lemma restore_effect `{StringHash} `{StoreOrder} `{HashOrder} `{DoubleText}
    now draw name k text ms n o s :
  store_ok s -> 0 <= now < int64_max -> obj_ok o -> payload_fits o -> stoll text = Some (ms, n) ->
  let args := [name; k; text; serialize o] in
  let ok := Some (encode_simple_string (lit "OK")) in
  let f' := upd (kept now draw s) k (Some (o, deadline_of now ms)) in
  effect now (restore_cmd now draw (args ++ [lit "REPLACE"])) s ok f' /\
  (if decide (is_Some (live now s k))
   then effect now (restore_cmd now draw args) s
          (Some (encode_error (lit "BUSYKEY Target key name already exists"))) (live now s)
   else effect now (restore_cmd now draw args) s ok f').
Proof.
  intros Hs Hnow Ho Hf Ht args ok f'.
  pose proof (deserialize_serialize o Ho Hf) as Hd.
  pose proof (restore_write_effect now draw Hnow k o ms ok s Hs) as Hw. fold f' in Hw.
  unfold restore_cmd, args. cbn [length app Nat.ltb Nat.leb arg nth]. rewrite Ht, Hd.
  rewrite (bool_decide_eq_true_2 (lit "REPLACE" = lit "REPLACE")) by done. split.
  - exact Hw.
  - assert (forall (g : bool -> cmd (option bytes)) r f,
      effect now (g (exist now k s)) s r f -> effect now (store_exist now k ≫= g) s r f) as Hx by done.
    case_decide as E; apply Hx; rewrite exist_live;
      [rewrite bool_decide_eq_true_2 by done|rewrite bool_decide_eq_false_2 by done].
    + done.
    + exact Hw.
Qed.

(** RESTORE of a payload recreates the key: the object that [serialize] wrote,
    of any type, comes back whole under the key, with the time to live as its
    deadline; without REPLACE a key that exists is refused and nothing changes. *)
Theorem restore_transfers `{StringHash} `{StoreOrder} `{HashOrder} `{DoubleText}
    now draw name k text ms n o s :
  store_ok s -> 0 <= now < int64_max -> obj_ok o -> payload_fits o -> stoll text = Some (ms, n) ->
  let args := [name; k; text; serialize o] in
  let ok := Some (encode_simple_string (lit "OK")) in
  let f' := upd (kept now draw s) k (Some (o, deadline_of now ms)) in
  effect now (restore_cmd now draw (args ++ [lit "REPLACE"])) s ok f' /\
  (if decide (is_Some (live now s k))
   then effect now (restore_cmd now draw args) s
          (Some (encode_error (lit "BUSYKEY Target key name already exists"))) (live now s)
   else effect now (restore_cmd now draw args) s ok f').
Proof. intros. by eapply restore_effect. Qed.

Lemma restore_transfers_witness :
  effect (H := shash) 5 (@restore_cmd shash sord bits_text 5 (fun n => n)
      [lit "restore"; lit "k"; lit "30"; @serialize bits_text plain_order sample_hash; lit "REPLACE"])
    new_storage (Some (encode_simple_string (lit "OK")))
    (upd (@kept shash sord 5 (fun n => n) new_storage) (lit "k")
      (Some (sample_hash, deadline_of 5 30))).
Proof.
  exact (proj1 (@restore_transfers shash sord plain_order bits_text 5 (fun n => n) (lit "restore")
    (lit "k") (lit "30") 30 2%nat sample_hash new_storage (@new_storage_ok shash) ltac:(done)
    (hash_object_ok _ (insert_non_empty _ _ _)) sample_hash_fits ltac:(by vm_compute))).
Defined.

(** Command names are matched without regard to case. *)
Theorem create_case_insensitive name1 name2 :
  to_lower name1 = to_lower name2 -> create name1 = create name2.
Proof.
  assert (forall name, create name = find_command (to_lower name)) as Hc.
  { intros name. unfold create. destruct (find_command name) as [c|] eqn:Hf; [|done].
    rewrite <-Hf. f_equal. symmetry. by eapply registered_lower. }
  intros He. by rewrite !Hc, He.
Qed.

Lemma create_case_insensitive_witness : create (lit "HGetAll") = create (lit "hgetALL").
Proof. apply (create_case_insensitive (lit "HGetAll") (lit "hgetALL")). by vm_compute. Defined.

(** ZADD of a member that is there counts it when its score changes: the
    reply is not the number of new members. *)
Theorem zadd_counts_updates `{StringHash} `{StoreOrder} `{DoubleLib} now draw k x a old new n o dl s :
  store_ok s -> 0 <= now < int64_max ->
  kept now draw s k = Some (o, dl) -> type_ o = ZSET -> zmap (zset_val_ o) !! x = Some old ->
  stod a = Some (new, n) -> n = length a -> isfinite new = true -> dkey old <> dkey new ->
  exists l, effect now (zadd_cmd now draw [lit "zadd"; k; a; x]) s (encode_integer 1)
    (upd (kept now draw s) k (Some (zset_object l, dl))) /\
    dom (zmap l) = dom (zmap (zset_val_ o)).
Proof.
  intros Hs Hnow Hk Ht Hx Ha -> Hfin Hne. unfold zadd_cmd. cbn [length Nat.ltb Nat.leb arg nth drop].
  pose proof (isfinite_not_nan new Hfin) as Hnan.
  assert (isinf new = false) as Hinf by (unfold isfinite, isinf in *; blia).
  cbn [parse_scores]. rewrite Ha, (Nat.eqb_refl (length a)), Hnan, Hinf. cbn [negb orb].
  pose proof (zadd_effect now draw [(x, new)] k s Hs ltac:(done) ltac:(by repeat constructor)) as He.
  unfold zset_cell in He. rewrite Hk, Ht in He. destruct He as (l & _ & Hz & He).
  cbn [score_all] in Hz, He. rewrite Hx in Hz, He. cbn [from_option] in Hz, He.
  rewrite (proj2 (Z.eqb_neq _ _) Hne) in Hz, He. cbn [fst snd] in Hz, He.
  exists l. split; [exact He|]. rewrite Hz, dom_insert_lookup_L; [done|by rewrite Hx].
Qed.

Lemma zadd_counts_updates_witness :
  let s := @set_locked shash 3 (lit "k") (zset_object [(lit "m", 0)]) new_storage in
  exists l, effect (H := shash) 5 (@zadd_cmd shash sord bits_lib 5 (fun n => n)
      [lit "zadd"; lit "k"; lit "8"; lit "m"]) s (encode_integer 1)
    (upd (@kept shash sord 5 (fun n => n) s) (lit "k") (Some (zset_object l, None))) /\
    dom (zmap l) = dom (zmap [(lit "m", 0)]).
Proof.
  apply (@zadd_counts_updates shash sord bits_lib 5 (fun n => n) (lit "k") (lit "m") (lit "8") 0 8 1%nat
    (zset_object [(lit "m", 0)]) None
    (@set_locked shash 3 (lit "k") (zset_object [(lit "m", 0)]) new_storage)).
  - apply one_key_ok, (zset_add_ok (lit "m") 0 new_object); [done|apply new_object_ok].
  - done.
  - by vm_compute.
  - done.
  - done.
  - by vm_compute.
  - done.
  - done.
  - by vm_compute.
Defined.

(** HSET, SADD and ZADD on a string replace it by a container of their own type, and
    keep its deadline; the documentation has them answer WRONGTYPE. *)
Theorem writes_replace_strings `{StringHash} `{StoreOrder} `{HashOrder} `{DoubleLib} now draw name k fld v members entries rest o dl s :
  store_ok s -> 0 <= now < int64_max -> kept now draw s k = Some (o, dl) -> type_ o = STRING ->
  members <> [] -> rest <> [] -> (length rest mod 2 = 0)%nat -> reads_scores rest entries ->
  let f := kept now draw s in
  effect now (hset_cmd now draw [name; k; fld; v]) s (encode_integer 1)
    (upd f k (Some (hash_object {[fld := v]}, dl))) /\
  effect now (sadd_cmd now draw (name :: k :: members)) s
    (encode_integer (Z.of_nat (size (list_to_set members : gset bytes))))
    (upd f k (Some (set_object (list_to_set members), dl))) /\
  exists l, zmap l = (score_all entries ∅).2 /\
    effect now (zadd_cmd now draw (name :: k :: rest)) s (encode_integer (score_all entries ∅).1)
      (upd f k (Some (zset_object l, dl))).
Proof.
  intros Hs Hnow Hk Ht Hm Hne Hev He f.
  assert (hash_cell (f k) = Some (∅, dl) /\ set_cell (f k) = Some (∅, dl) /\ zset_cell (f k) = Some ([], dl))
    as (Ch & Cs & Cz) by (unfold f, hash_cell, set_cell, zset_cell; by rewrite Hk, Ht).
  split_and!.
  - pose proof (hset_effect now draw fld v k s Hs) as Hh. fold f in Hh. by rewrite Ch in Hh.
  - pose proof (sadd_effect now draw members k s Hs Hm) as Hh. fold f in Hh. rewrite Cs in Hh.
    cbv zeta in Hh. rewrite (right_id_L ∅ (∪)), size_empty, Z.sub_0_r in Hh. by destruct members.
  - apply parse_scores_iff in He as Hp; [|done].
    pose proof (zadd_effect now draw entries k s Hs) as Hz. fold f in Hz. rewrite Cz in Hz.
    destruct Hz as (l & _ & Hl & Hz); [intros ->; by destruct rest as [|? []]|by eapply parse_scores_num|].
    exists l. split; [done|]. unfold zadd_cmd. destruct rest as [|a [|b rest]]; [done..|].
    cbn [length Nat.ltb Nat.leb Nat.sub arg nth drop] in *. by rewrite Hev, Hp.
Qed.

Lemma writes_replace_strings_witness :
  let s := @set_locked shash 3 (lit "k") (object_of_string (lit "1")) new_storage in
  effect (H := shash) 5 (@hset_cmd shash sord 5 (fun n => n) [lit "x"; lit "k"; lit "f"; lit "2"]) s
    (encode_integer 1)
    (upd (@kept shash sord 5 (fun n => n) s) (lit "k") (Some (hash_object {[lit "f" := lit "2"]}, None))).
Proof.
  refine (proj1 (@writes_replace_strings shash sord plain_order bits_lib 5 (fun n => n) (lit "x") (lit "k")
    (lit "f") (lit "2") [lit "m"] [(lit "m", 8)] [lit "8"; lit "m"] (object_of_string (lit "1")) None
    (@set_locked shash 3 (lit "k") (object_of_string (lit "1")) new_storage) _ _ _ _ _ _ _ _));
    try done; [apply one_key_ok, string_object_ok|by vm_compute..].
Defined.

(** DEL counts a key whose deadline has passed and that is still stored, although
    no client sees it. *)
Theorem del_counts_expired `{StringHash} now name k s :
  store_ok s -> is_Some (entry s k) -> live now s k = None ->
  effect now (exists_cmd now [name; k]) s (encode_integer 0) (live now s) /\
  effect now (del_cmd [name; k]) s (encode_integer 1) (live now s).
Proof.
  intros Hs He Hl. split.
  - unfold effect, exists_cmd, mbind, cmd_bind, store_exist. cbn [length Nat.eqb negb arg nth].
    by rewrite exist_live, Hl.
  - eapply effect_eq; [by apply del_cmd_effect| |].
    + by rewrite (present_keys_cons k [] s (del k s).2), bool_decide_eq_true_2
        by (done || intros k'; by apply entry_del, Hs).
    + intros k'. cbn beta. destruct (decide (k' ∈ [k])) as [->%list_elem_of_singleton|]; done.
Qed.

Example del_expired_key :
  let s := (@setex_cmd shash sord 5 (fun n => n) [lit "setex"; lit "k"; lit "1"; lit "v"] new_storage).2 in
  (@exists_cmd shash 2000 [lit "exists"; lit "k"] s).1 = encode_integer 0 /\
  (@del_cmd shash [lit "del"; lit "k"] s).1 = encode_integer 1.
Proof. by vm_compute. Qed.

(** EXPIRE, SETEX and RESTORE read the number at the start of their argument
    and ignore what follows it, where INCRBY refuses it: [10abc] is ten seconds
    to EXPIRE. *)
Theorem lenient_ttl `{StringHash} `{StoreOrder} now draw k v o dl s :
  store_ok s -> 0 <= now < int64_max -> k <> [] -> live now s k = Some (o, dl) ->
  let text := lit "10abc" in
  let due := Some (Z.min int64_max (now + 10000)) in
  effect now (expire_cmd now [lit "expire"; k; text]) s (encode_integer 1)
    (upd (live now s) k (Some (o, due))) /\
  effect now (setex_cmd now draw [lit "setex"; k; text; v]) s encode_ok
    (upd (kept now draw s) k (Some (object_of_string v, due))) /\
  effect now (incrby_cmd now draw [lit "incrby"; k; text]) s not_an_integer (live now s).
Proof.
  intros Hs Hnow Hk Hl text due. assert (stoll text = Some (10, 2%nat)) as Ht by by vm_compute.
  split_and!.
  - pose proof (expire_effect now Hnow (lit "expire") k 10 text 2 s Hs Hk Ht) as He.
    unfold due. rewrite Hl, seconds_deadline in He by done. exact He.
  - unfold due. change (now + 10000) with (now + 1000 * 10).
    rewrite <-(seconds_deadline now Hnow 10) by done. by apply (setex_effect now draw Hnow (lit "setex") k text 10 2 v s).
  - done.
Qed.

Lemma lenient_ttl_witness :
  let s := @set_locked shash 3 (lit "k") (object_of_string (lit "1")) new_storage in
  effect (H := shash) 5 (@expire_cmd shash 5 [lit "expire"; lit "k"; lit "10abc"]) s
    (encode_integer 1)
    (upd (@live shash 5 s) (lit "k") (Some (object_of_string (lit "1"), Some 10005))).
Proof.
  refine (proj1 (@lenient_ttl shash sord 5 (fun n => n) (lit "k") (lit "v")
    (object_of_string (lit "1")) None
    (@set_locked shash 3 (lit "k") (object_of_string (lit "1")) new_storage) _ _ _ _)).
  - apply one_key_ok, string_object_ok.
  - done.
  - done.
  - by vm_compute.
Defined.

End CommandsProps.
