(* ===== verification/Rdb.v ===== *)
(** * [persistence/rdb.h], [persistence/rdb.cpp]: the snapshot file

    The writer as the bytes it appends, the reader over the bytes that follow
    the file position (the position is the size of the file less their number),
    [load] on the store, the steps by which [save] replaces the file, and the
    state of background saves. An exception of the reader is [RThrow]. *)

From S2P Require Import Prelude Base Object ExpireDict Storage.
From stdpp Require Import options.

(** What zlib gives: [crc32(0, Z_NULL, 0)] and [crc32(crc, buf, len)], 32-bit
    values. *)
Class Crc32 := {
  crc32_init : Z;
  crc32 : Z -> bytes -> Z;
  crc32_init_range : 0 <= crc32_init < 4294967296;
  crc32_range c b : 0 <= crc32 c b < 4294967296
}.

Module Rdb.
Import Text Object Storage.

(** ** Integers in network byte order *)

Definition byte_of (z : Z) : ascii := ascii_of_N (Z.to_N (Z.land z 255)).

(** The [n] low bytes of [v], the highest first. *)
Fixpoint be (n : nat) (v : Z) : bytes :=
  match n with
  | O => []
  | S n => byte_of (Z.shiftr v (8 * Z.of_nat n)) :: be n v
  end.

Definition be_val (l : bytes) : Z := foldl (fun a c => a * 256 + byte_val c) 0 l.

Definition write_uint32 (val : Z) : bytes := be 4 val.
Definition write_uint64 (val : Z) : bytes := be 8 val.
Definition write_uint8 (val : Z) : bytes := be 1 val.

Definition write_string (val : bytes) : bytes := write_uint32 (zlen val) ++ val.

(** ** Writing *)

Definition kRdbMagic : Z := 1128485444. (* 0x43435244 *)
Definition kRdbVersion : bytes := lit "0002".
Definition KV_WITH_TTL : Z := 254.
Definition EOF_MARKER : Z := 255.

Definition RdbValueType (t : ObjectType) : Z := type_code t.

Definition serialize_list (o : CacheObject) : bytes :=
  let items := list_range 0 (-1) o in
  foldl (fun out item => out ++ write_string item) (write_uint32 (zlen items)) items.

Section write.
Context `{HashOrder}.

Definition serialize_hash (o : CacheObject) : bytes :=
  let items := hash_items o in
  foldl (fun out kv => out ++ write_string kv.1 ++ write_string kv.2) (write_uint32 (zlen items)) items.

Definition serialize_set (o : CacheObject) : bytes :=
  let members := set_members o in
  foldl (fun out member => out ++ write_string member) (write_uint32 (zlen members)) members.

Definition serialize_zset (o : CacheObject) : bytes :=
  let members := zset_all o in
  foldl (fun out z => out ++ write_string z.1 ++ write_uint64 z.2) (write_uint32 (zlen members)) members.

Definition write_kv_pair (key : bytes) (v : CacheObject) (expire_time_ms : Z) : bytes :=
  let has_ttl := 0 <? expire_time_ms in
  (if has_ttl then write_uint8 KV_WITH_TTL ++ write_uint64 expire_time_ms else []) ++
  write_string key ++
  write_uint8 (RdbValueType (type_ v)) ++
  match type_ v with
  | STRING => write_string (default [] (get_string v))
  | LIST => serialize_list v
  | HASH => serialize_hash v
  | SET => serialize_set v
  | ZSET => serialize_zset v
  end.

(** The loop of [calculate_crc32_for_range] over chunks of 4096 bytes; [rest]
    is what follows the position. *)
Fixpoint crc_loop `{Crc32} (fuel : nat) (crc : Z) (rest : bytes) (crc_len : Z) : Z :=
  match fuel with
  | O => crc
  | S fuel =>
      if crc_len <=? 0 then crc
      else
        let buf := take (Z.to_nat (Z.min crc_len 4096)) rest in
        if (length buf =? 0)%nat then crc
        else crc_loop fuel (crc32 crc buf) (drop (length buf) rest) (crc_len - zlen buf)
  end.

Definition calculate_crc32_for_range `{Crc32} (file : bytes) (end_pos : Z) : Z :=
  crc_loop (S (length file)) crc32_init file end_pos.

(** The bytes of the file [save] writes for a snapshot. *)
Definition rdb_body (all_kvs : list KVWithTTL) : bytes :=
  write_uint32 kRdbMagic ++ kRdbVersion ++ write_uint32 1 ++ write_uint32 (zlen all_kvs) ++
  concat ((fun kv => write_kv_pair (kv_key kv) (kv_value kv) (kv_expire_time_ms kv)) <$> all_kvs) ++
  write_uint8 EOF_MARKER.

Definition rdb_file `{Crc32} (all_kvs : list KVWithTTL) : bytes :=
  let body := rdb_body all_kvs in
  body ++ write_uint32 (calculate_crc32_for_range body (zlen body)).
End write.

(** ** Reading *)

Inductive rres (A : Type) := ROk (a : A) (rest : bytes) | RThrow | RFuel.
Arguments ROk {A}.
Arguments RThrow {A}.
Arguments RFuel {A}.

Definition rd (A : Type) : Type := bytes -> rres A.

#[global] Instance rd_ret : MRet rd := fun _ a rest => ROk a rest.
#[global] Instance rd_bind : MBind rd :=
  fun _ _ f m rest =>
    match m rest with ROk a rest => f a rest | RThrow => RThrow | RFuel => RFuel end.

(** [fread] of [n] bytes. *)
Definition read_bytes (n : nat) : rd bytes :=
  fun rest => if (length rest <? n)%nat then RThrow else ROk (take n rest) (drop n rest).

Definition read_uint32 : rd Z := l ← read_bytes 4; mret (be_val l).
Definition read_uint64 : rd Z := l ← read_bytes 8; mret (be_val l).
Definition read_uint8 : rd Z := l ← read_bytes 1; mret (be_val l).

(** The length is compared with what is left of the body, which ends four
    bytes before the file. *)
Definition read_string : rd bytes :=
  len ← read_uint32;
  if len =? 0 then mret []
  else
    fun rest =>
      let remaining := zlen rest - 4 in
      if (remaining <? 0) || (remaining <? len) then RThrow
      else read_bytes (Z.to_nat len) rest.

(** [for (i = 0; i < count; ++i)] over a reading body. [fuel] bounds the bytes
    that are left. *)
Fixpoint repeat_read {S} (body : S -> rd S) (fuel : nat) (count : Z) (s : S) : rd S :=
  fun rest =>
    if count <=? 0 then ROk s rest
    else
      match fuel with
      | O => RFuel
      | S fuel =>
          match body s rest with
          | ROk s rest => repeat_read body fuel (count - 1) s rest
          | RThrow => RThrow
          | RFuel => RFuel
          end
      end.

(** A count, then that many items. *)
Definition read_items (body : CacheObject -> rd CacheObject) (o : CacheObject) : rd CacheObject :=
  count ← read_uint32;
  (fun rest => repeat_read body (S (length rest)) count o rest) : rd CacheObject.

Definition deserialize_string : rd CacheObject :=
  val ← read_string; mret (object_of_string val).

Definition deserialize_list (o : CacheObject) : rd CacheObject :=
  read_items (fun o => item ← read_string; mret (list_push item false o).2) o.

Definition deserialize_hash (o : CacheObject) : rd CacheObject :=
  read_items (fun o => field ← read_string; v ← read_string; mret (hash_set field v o).2) o.

Definition deserialize_set (o : CacheObject) : rd CacheObject :=
  read_items (fun o => member ← read_string; mret (set_add member o).2) o.

Definition deserialize_zset (o : CacheObject) : rd CacheObject :=
  read_items (fun o => member ← read_string; score_bits ← read_uint64;
                       mret (zset_add member score_bits o).2) o.

(** The switch over the type byte. *)
Definition read_value (type_val : Z) : rd CacheObject :=
  if type_val =? RdbValueType STRING then deserialize_string
  else if type_val =? RdbValueType LIST then deserialize_list new_object
  else if type_val =? RdbValueType HASH then deserialize_hash new_object
  else if type_val =? RdbValueType SET then deserialize_set new_object
  else if type_val =? RdbValueType ZSET then deserialize_zset new_object
  else fun _ => RThrow.

(** [static_cast<int64_t>(uint64_t)]. *)
Definition to_int64 (v : Z) : Z := if int64_max <? v then v - 18446744073709551616 else v.

(** A record; [None] for the return value false, a record to skip. *)
Definition read_kv_pair : rd (option KVWithTTL) :=
  expire_time_ms ← (fun rest =>
    match read_uint8 rest with
    | ROk marker rest' =>
        if marker =? KV_WITH_TTL
        then (expire ← read_uint64; mret (to_int64 expire)) rest'
        else ROk (-1) rest
    | RThrow => RThrow
    | RFuel => RFuel
    end);
  key ← read_string;
  type_val ← read_uint8;
  v ← read_value type_val;
  mret (if bool_decide (key = []) then None else Some (mkKV key v expire_time_ms)).

Section load.
Context `{StringHash} `{StoreOrder}.
Context (now : Z) (draw : rng).

(** What [load] does with one record. *)
Definition load_kv (kv : KVWithTTL) (s : Storage) : Storage :=
  if 0 <? kv_expire_time_ms kv then
    let ttl_ms := kv_expire_time_ms kv - now in
    if 0 <? ttl_ms then set_with_expire now draw (kv_key kv) (kv_value kv) ttl_ms s else s
  else set now draw (kv_key kv) (kv_value kv) s.

(** The loops of [load]; the store is modified before an exception leaves them. *)
Fixpoint load_kvs (fuel : nat) (count : Z) (rest : bytes) (s : Storage) : rres unit * Storage :=
  if count <=? 0 then (ROk tt rest, s)
  else
    match fuel with
    | O => (RFuel, s)
    | S fuel =>
        match read_kv_pair rest with
        | ROk o rest =>
            load_kvs fuel (count - 1) rest (match o with Some kv => load_kv kv s | None => s end)
        | RThrow => (RThrow, s)
        | RFuel => (RFuel, s)
        end
    end.

Fixpoint load_dbs (fuel : nat) (db_count : Z) (rest : bytes) (s : Storage) : rres unit * Storage :=
  if db_count <=? 0 then (ROk tt rest, s)
  else
    match fuel with
    | O => (RFuel, s)
    | S fuel =>
        match read_uint32 rest with
        | ROk kv_count rest =>
            match load_kvs (S (length rest)) kv_count rest s with
            | (ROk _ rest, s) => load_dbs fuel (db_count - 1) rest s
            | r => r
            end
        | RThrow => (RThrow, s)
        | RFuel => (RFuel, s)
        end
    end.

(** [load] of a file that could be opened; [None] is running out of fuel. *)
Definition load `{Crc32} (file : bytes) (s : Storage) : option bool * Storage :=
  if bool_decide (file = []) then (Some true, s)
  else
    match read_uint32 file with
    | ROk magic rest =>
        if negb (magic =? kRdbMagic) then (Some false, s)
        else
          match read_bytes 4 rest with
          | ROk version rest =>
              if negb (bool_decide (version = kRdbVersion)) then (Some false, s)
              else
                let file_size := zlen file in
                if file_size <? 4 then (Some false, s)
                else
                  let data_len := file_size - 4 in
                  match read_uint32 (drop (Z.to_nat data_len) file) with
                  | ROk stored_crc _ =>
                      if negb (stored_crc =? calculate_crc32_for_range file data_len)
                      then (Some false, s)
                      else
                        match read_uint32 rest with
                        | ROk db_count rest =>
                            match load_dbs (S (length rest)) db_count rest s with
                            | (ROk _ rest, s) =>
                                let body_end := file_size - zlen rest in
                                if negb (body_end =? data_len - 1) then (Some false, s)
                                else
                                  match read_uint8 rest with
                                  | ROk eof _ => (Some (eof =? EOF_MARKER), s)
                                  | RThrow => (Some false, s)
                                  | RFuel => (None, s)
                                  end
                            | (RThrow, s) => (Some false, s)
                            | (RFuel, s) => (None, s)
                            end
                        | RThrow => (Some false, s)
                        | RFuel => (None, s)
                        end
                  | RThrow => (Some false, s)
                  | RFuel => (None, s)
                  end
          | RThrow => (Some false, s)
          | RFuel => (None, s)
          end
    | RThrow => (Some false, s)
    | RFuel => (None, s)
    end.
End load.

(** ** Replacing the file *)

(** The files of the directory. *)
Abbreviation fs := (gmap bytes bytes).

(** The calls of stdio that [save] makes after [fopen]; [checked] says whether it
    looks at the result. The seeks with which [calculate_crc32_for_range] reads the
    file back flush what is buffered. *)
Inductive stdio_call :=
  | Fwrite (bs : bytes) (checked : bool)
  | Fflush (checked : bool)
  | Fsync.

(** The calls for a file of these bytes: magic and version, counts and keys, the end
    marker and the checksum. *)
Definition save_calls (data : bytes) : list stdio_call :=
  let rest := drop 8 data in
  let body := (length rest - 5)%nat in
  [Fwrite (take 4 data) true; Fwrite (take 4 (drop 4 data)) false; Fwrite (take body rest) true; Fflush false;
   Fwrite (take 1 (drop body rest)) true; Fflush false; Fwrite (drop 1 (drop body rest)) true; Fflush false;
   Fflush true; Fsync].

(** [lost]: bytes that [save] handed over will not reach the file. *)
Inductive save_pc :=
  | SOpen                                                              (** before [fopen] *)
  | SWriting (todo : list stdio_call) (pending : bytes) (lost : bool)  (** [pending] is in the buffer *)
  | SSynced (lost : bool)                                              (** after [fsync] *)
  | SDone (ok : bool) (lost : bool).                                   (** returned *)

Definition tmp_path (filepath : bytes) : bytes := filepath ++ lit ".tmp".

(** [std::remove], which can fail. *)
Definition remove_tmp (filepath : bytes) (removed : bool) (f : fs) : fs :=
  if removed then delete (tmp_path filepath) f else f.

(** The temporary file with [x] after its contents. *)
Definition append_tmp (filepath x : bytes) (f : fs) : fs :=
  <[tmp_path filepath := default [] (f !! tmp_path filepath) ++ x]> f.

(** The steps of [save] for the bytes [data]. The buffer reaches the file in any
    portions, and every call can fail. A write that fails takes a part of its bytes,
    and a failure while the buffer is written out leaves the rest of the buffer in it
    or drops it; [save] goes on after a failure that it does not look at. Once bytes
    are lost, the checksum is that of another file. *)
Inductive save_step (filepath data : bytes) : save_pc * fs -> save_pc * fs -> Prop :=
  | step_open_failed f : save_step filepath data (SOpen, f) (SDone false false, f)
  | step_open f :
      save_step filepath data (SOpen, f) (SWriting (save_calls data) [] false, <[tmp_path filepath := []]> f)
  | step_spill todo x y lost f :
      save_step filepath data (SWriting todo (x ++ y) lost, f) (SWriting todo y lost, append_tmp filepath x f)
  | step_write bs bs' checked todo pending lost f :
      length bs' = length bs -> (lost = false -> bs' = bs) ->
      save_step filepath data (SWriting (Fwrite bs checked :: todo) pending lost, f)
        (SWriting todo (pending ++ bs') lost, f)
  | step_write_ignored u v (kept : bool) todo pending lost f :
      save_step filepath data (SWriting (Fwrite (u ++ v) false :: todo) pending lost, f)
        (SWriting todo ((if kept then pending else []) ++ u) true, f)
  | step_flush checked todo pending lost f :
      save_step filepath data (SWriting (Fflush checked :: todo) pending lost, f)
        (SWriting todo [] lost, append_tmp filepath pending f)
  | step_flush_ignored (kept : bool) todo pending lost f :
      save_step filepath data (SWriting (Fflush false :: todo) pending lost, f)
        (SWriting todo (if kept then pending else []) (lost || negb kept), f)
  | step_failed call todo pending lost f removed :
      call <> Fflush false -> (forall bs, call <> Fwrite bs false) ->
      save_step filepath data (SWriting (call :: todo) pending lost, f)
        (SDone false lost, remove_tmp filepath removed f)
  | step_sync pending lost f :
      save_step filepath data (SWriting [Fsync] pending lost, f) (SSynced lost, f)
  | step_rename f lost d :
      f !! tmp_path filepath = Some d ->
      save_step filepath data (SSynced lost, f)
        (SDone true lost, <[filepath := d]> (delete (tmp_path filepath) f))
  | step_rename_failed f lost removed :
      save_step filepath data (SSynced lost, f) (SDone false lost, remove_tmp filepath removed f).

(** ** Background saves *)

Inductive BgsaveStatus := IDLE | IN_PROGRESS | SUCCESS | FAILED.

Record RdbStats := mkStats {
  last_bgsave_time_sec : Z;
  last_bgsave_status : BgsaveStatus;
  last_bgsave_keys : Z;
  total_bgsave_calls : Z;
  total_rdb_saved_keys : Z;
  bgsave_in_progress_ : bool
}.

Definition new_stats : RdbStats := mkStats 0 IDLE 0 0 0 false.

Definition record_save_result (time_sec : Z) (status : BgsaveStatus) (keys : Z) (st : RdbStats)
    : RdbStats :=
  match status with
  | SUCCESS =>
      mkStats time_sec status keys (total_bgsave_calls st) (total_rdb_saved_keys st + keys)
        (bgsave_in_progress_ st)
  | _ =>
      mkStats (last_bgsave_time_sec st) status (last_bgsave_keys st) (total_bgsave_calls st)
        (total_rdb_saved_keys st) (bgsave_in_progress_ st)
  end.

(** How a [save] ends. *)
Inductive save_end := OpenFailed | SaveFailed | Saved (keys : Z).

(** The statistics [save] leaves: none for a file that could not be opened. *)
Definition save_stats (time_sec : Z) (e : save_end) (st : RdbStats) : RdbStats :=
  match e with
  | OpenFailed => st
  | SaveFailed => record_save_result time_sec FAILED 0 st
  | Saved keys => record_save_result time_sec SUCCESS keys st
  end.

Definition set_status (status : BgsaveStatus) (st : RdbStats) : RdbStats :=
  mkStats (last_bgsave_time_sec st) status (last_bgsave_keys st) (total_bgsave_calls st)
    (total_rdb_saved_keys st) (bgsave_in_progress_ st).

Definition set_in_progress (b : bool) (st : RdbStats) : RdbStats :=
  mkStats (last_bgsave_time_sec st) (last_bgsave_status st) (last_bgsave_keys st)
    (total_bgsave_calls st) (total_rdb_saved_keys st) b.

(** The [compare_exchange_strong] at the start of [save_in_background]; false
    for a call that returns at once. *)
Definition claim_bgsave (st : RdbStats) : bool * RdbStats :=
  if bgsave_in_progress_ st then (false, st) else (true, set_in_progress true st).

(** What the call stores before it starts the thread. *)
Definition begin_bgsave (st : RdbStats) : RdbStats :=
  mkStats (last_bgsave_time_sec st) IN_PROGRESS (last_bgsave_keys st)
    (total_bgsave_calls st + 1) (total_rdb_saved_keys st) (bgsave_in_progress_ st).

Definition saved_ok (e : save_end) : bool := match e with Saved _ => true | _ => false end.

(** Where a background save is: the call holds the flag, the thread is in
    [save], it has the result, it has stored the status. *)
Inductive bg_pc := Claimed | Saving | Returned (success : bool) | Stored.

(** The statistics, the background saves under way, and the saves that
    succeeded so far as time and number of keys, the last one first. *)
Record bg_state := mkBg {
  bg_stats : RdbStats;
  bg_threads : list bg_pc;
  bg_saves : list (Z * Z)
}.

Definition note_save (t : Z) (e : save_end) (l : list (Z * Z)) : list (Z * Z) :=
  match e with Saved keys => (t, keys) :: l | _ => l end.

(** The atomic steps of any number of callers of BGSAVE and SAVE and of the
    snapshot threads. The statistics of one [save] are recorded under
    [save_mutex_] and so in one step. *)
Inductive bg_step : bg_state -> bg_state -> Prop :=
  | bg_claim st st' ths l :
      claim_bgsave st = (true, st') -> bg_step (mkBg st ths l) (mkBg st' (ths ++ [Claimed]) l)
  | bg_refused st st' ths l :
      claim_bgsave st = (false, st') -> bg_step (mkBg st ths l) (mkBg st' ths l)
  | bg_begin st ths l i :
      ths !! i = Some Claimed ->
      bg_step (mkBg st ths l) (mkBg (begin_bgsave st) (<[i := Saving]> ths) l)
  | bg_saved st ths l i t e :
      ths !! i = Some Saving ->
      bg_step (mkBg st ths l)
        (mkBg (save_stats t e st) (<[i := Returned (saved_ok e)]> ths) (note_save t e l))
  | bg_status st ths l i success :
      ths !! i = Some (Returned success) ->
      bg_step (mkBg st ths l)
        (mkBg (set_status (if success then SUCCESS else FAILED) st) (<[i := Stored]> ths) l)
  | bg_clear st ths l i :
      ths !! i = Some Stored ->
      bg_step (mkBg st ths l) (mkBg (set_in_progress false st) (delete i ths) l)
  | bg_save st ths l t e :
      bg_step (mkBg st ths l) (mkBg (save_stats t e st) ths (note_save t e l)).

End Rdb.
