(* ===== verification/RdbSpec.v ===== *)
(** * What the snapshot guarantees

    Reading inverts writing for integers, strings, values and records; loading
    the file of a snapshot rebuilds the visible state. *)

From S2P Require Import Prelude Base Object ObjectSpec Payload PayloadSpec.
From S2P Require Import ExpireDict Storage StorageSpec StorageProps Commands CommandsSpec Rdb.
From stdpp Require Import options.

Module RdbSpec.
Import Text Double Object ObjectSpec PayloadSpec Storage StorageSpec CommandsSpec Rdb.

(** ** Integers *)

Lemma byte_val_of z : byte_val (byte_of z) = z mod 256.
Proof.
  unfold byte_val, byte_of. change 255 with (Z.ones 8). rewrite Z.land_ones by lia.
  change (2 ^ 8) with 256. pose proof (Z.mod_pos_bound z 256 ltac:(lia)).
  rewrite N_ascii_embedding by lia. lia.
Qed.

Lemma be_val_acc n v a :
  foldl (fun a c => a * 256 + byte_val c) a (be n v) = a * 256 ^ Z.of_nat n + v mod 256 ^ Z.of_nat n.
Proof.
  revert a; induction n as [|n IH]; intros a; cbn [be foldl].
  { change (256 ^ Z.of_nat 0) with 1. rewrite Z.mod_1_r. lia. }
  rewrite IH, byte_val_of, Z.shiftr_div_pow2 by lia.
  replace (2 ^ (8 * Z.of_nat n)) with (256 ^ Z.of_nat n) by (rewrite Z.pow_mul_r by lia; done).
  rewrite Nat2Z.inj_succ, Z.pow_succ_r by lia. rewrite (Z.mul_comm 256 (256 ^ Z.of_nat n)).
  rewrite (Z.rem_mul_r v (256 ^ Z.of_nat n) 256) by lia. ring.
Qed.

Lemma be_length n v : length (be n v) = n.
Proof. induction n as [|n IH]; simpl; [done|]. by rewrite IH. Qed.

Lemma be_val_be n v : 0 <= v < 256 ^ Z.of_nat n -> be_val (be n v) = v.
Proof. intros Hv. unfold be_val. rewrite be_val_acc. by rewrite Z.mod_small. Qed.

(** ** Readers *)

(** [r] reads [x] off the bytes [w], in front of the trailer. *)
Definition reads {A} (r : rd A) (w : bytes) (x : A) : Prop :=
  forall rest, (4 <= length rest)%nat -> r (w ++ rest) = ROk x rest.

Lemma reads_ret {A} (x : A) : reads (mret x) [] x.
Proof. done. Qed.

Lemma reads_bind {A B} (r : rd A) (g : A -> rd B) w w' x y :
  reads r w x -> reads (g x) w' y -> reads (r ≫= g) (w ++ w') y.
Proof.
  intros Hr Hg rest Hl. unfold mbind, rd_bind. rewrite <-app_assoc, Hr; [by apply Hg|].
  rewrite length_app. lia.
Qed.

Lemma reads_fmap {A B} (r : rd A) (h : A -> B) w x :
  reads r w x -> reads (a ← r; mret (h a)) w (h x).
Proof. intros Hr. rewrite <-(app_nil_r w). by eapply reads_bind; [exact Hr|]. Qed.

Lemma reads_be n v (r : rd Z) :
  r = (l ← read_bytes n; mret (be_val l)) -> 0 <= v < 256 ^ Z.of_nat n -> reads r (be n v) v.
Proof.
  intros -> Hv rest _. unfold mbind, rd_bind, read_bytes. rewrite length_app, be_length.
  rewrite (proj2 (Nat.ltb_ge _ _)) by lia.
  rewrite take_app_length', drop_app_length' by (symmetry; apply be_length). by rewrite be_val_be.
Qed.

Definition fits32 {A} (l : list A) : Prop := zlen l < 4294967296.

Lemma reads_uint32 v : 0 <= v < 4294967296 -> reads read_uint32 (write_uint32 v) v.
Proof. intros. by apply reads_be. Qed.

Lemma reads_uint64 v : 0 <= v < 18446744073709551616 -> reads read_uint64 (write_uint64 v) v.
Proof. intros. by apply reads_be. Qed.

Lemma reads_uint8 v : 0 <= v < 256 -> reads read_uint8 (write_uint8 v) v.
Proof. intros. by apply reads_be. Qed.

Lemma reads_string v : fits32 v -> reads read_string (write_string v) v.
Proof.
  intros Hf rest Hl. pose proof (zlen_nonneg v). unfold read_string, write_string, mbind, rd_bind.
  rewrite <-app_assoc, reads_uint32 by (try done; rewrite length_app; lia).
  destruct (Z.eqb_spec (zlen v) 0) as [E|E].
  { destruct v; [done|]. unfold zlen in E. simpl in E. lia. }
  rewrite zlen_app. unfold zlen in *.
  rewrite (proj2 (Z.ltb_ge _ 0)), (proj2 (Z.ltb_ge _ _)) by lia. cbn [orb].
  unfold read_bytes. rewrite Nat2Z.id, length_app, (proj2 (Nat.ltb_ge _ _)) by lia.
  by rewrite take_app_length, drop_app_length.
Qed.

(** A counted loop reads its items in order. *)
Lemma repeat_reads {A} (body : CacheObject -> rd CacheObject) (enc : A -> bytes)
    (upd : CacheObject -> A -> CacheObject) (good : A -> Prop) fuel xs o rest :
  (forall x o, good x -> reads (body o) (enc x) (upd o x)) ->
  Forall good xs -> (length xs <= fuel)%nat -> (4 <= length rest)%nat ->
  repeat_read body fuel (zlen xs) o (concat (enc <$> xs) ++ rest) = ROk (foldl upd o xs) rest.
Proof.
  intros Hb Hg. revert fuel o. induction Hg as [|x xs Hx Hg IH]; intros fuel o Hf Hl.
  { by destruct fuel. }
  destruct fuel as [|fuel]; [simpl in Hf; lia|]. cbn [repeat_read fmap list_fmap concat foldl].
  rewrite zlen_cons, (proj2 (Z.leb_gt _ _)) by (pose proof (zlen_nonneg xs); lia).
  rewrite <-app_assoc, Hb by (try done; rewrite length_app; lia).
  replace (1 + zlen xs - 1) with (zlen xs) by lia. apply IH; [simpl in Hf; lia|done].
Qed.

Lemma encoded_length {A} (enc : A -> bytes) (xs : list A) :
  (forall x, enc x <> []) -> (length xs <= length (concat (enc <$> xs)))%nat.
Proof.
  intros Hne. induction xs as [|x xs IH]; cbn [fmap list_fmap concat]; [done|].
  rewrite length_app. pose proof (Hne x). destruct (enc x); [done|]. simpl. lia.
Qed.

Lemma reads_items {A} (body : CacheObject -> rd CacheObject) (enc : A -> bytes)
    (upd : CacheObject -> A -> CacheObject) (good : A -> Prop) xs o :
  (forall x o, good x -> reads (body o) (enc x) (upd o x)) -> (forall x, enc x <> []) ->
  Forall good xs -> fits32 xs ->
  reads (read_items body o) (write_uint32 (zlen xs) ++ concat (enc <$> xs)) (foldl upd o xs).
Proof.
  intros Hb Hne Hg Hf. eapply reads_bind.
  { apply reads_uint32. pose proof (zlen_nonneg xs). unfold fits32 in Hf. lia. }
  intros rest Hl. eapply repeat_reads; [done..| |done].
  rewrite length_app. pose proof (encoded_length enc xs Hne). lia.
Qed.

(** The writers put their items one after the other. *)
Lemma foldl_concat {A} (enc : A -> bytes) w xs :
  foldl (fun out x => out ++ enc x) w xs = w ++ concat (enc <$> xs).
Proof.
  revert w; induction xs as [|x xs IH]; intros w; cbn [foldl fmap list_fmap concat].
  - by rewrite app_nil_r.
  - rewrite IH. by rewrite <-app_assoc.
Qed.

Lemma write_string_nonempty v : write_string v <> [].
Proof. done. Qed.

(** ** Values *)

(** Sizes within the 32-bit fields of the file. *)
Definition rdb_fits (o : CacheObject) : Prop :=
  match type_ o with
  | STRING => fits32 (string_val_ o)
  | LIST => fits32 (list_val_ o) /\ Forall fits32 (list_val_ o)
  | HASH => hash_size o < 4294967296 /\ map_Forall (fun k v => fits32 k /\ fits32 v) (hash_val_ o)
  | SET => set_size o < 4294967296 /\ set_Forall fits32 (set_val_ o)
  | ZSET => fits32 (zset_val_ o) /\ Forall (fun z => fits32 z.1 /\ in_double z.2) (zset_val_ o)
  end.

(** The whole range is the whole list. *)
Lemma list_range_all l : list_range 0 (-1) (object_of_list l) = l.
Proof.
  unfold list_range. change (is_type LIST (object_of_list l)) with true. cbn [negb list_val_ object_of_list].
  destruct l as [|x l]; [done|]. unfold normalized_clip, RangeClip.clip_range.
  rewrite zlen_cons. pose proof (zlen_nonneg l). set (n := zlen l) in *.
  rewrite (proj2 (Z.eqb_neq _ _)) by lia. cbn [Z.ltb Z.compare].
  replace (1 + n + -1) with n by lia.
  rewrite (proj2 (Z.ltb_ge n 0)) by lia. cbv zeta. rewrite (proj2 (Z.ltb_ge n 0)) by lia.
  rewrite !Z.geb_leb, Z.gtb_ltb, !(proj2 (Z.leb_gt _ _)), (proj2 (Z.ltb_ge _ _)) by lia.
  unfold slice. rewrite Z.sub_0_r. cbn [Z.to_nat drop]. apply take_ge. unfold n, zlen. simpl. lia.
Qed.

Section values.
Context `{HashOrder}.

(** The body of a record after its type byte. *)
Definition value_bytes (v : CacheObject) : bytes :=
  match type_ v with
  | STRING => write_string (default [] (get_string v))
  | LIST => serialize_list v
  | HASH => serialize_hash v
  | SET => serialize_set v
  | ZSET => serialize_zset v
  end.

Lemma reads_list l :
  l <> [] -> fits32 l -> Forall fits32 l ->
  reads (deserialize_list new_object) (serialize_list (object_of_list l)) (object_of_list l).
Proof.
  intros Hne Hn Hf. unfold serialize_list. rewrite list_range_all, foldl_concat.
  rewrite <-(rebuild_list l) by done.
  eapply reads_items; [|apply write_string_nonempty|exact Hf|done].
  intros x o Hx. by apply (reads_fmap read_string (fun item => (list_push item false o).2)), reads_string.
Qed.

Lemma reads_hash h :
  h <> ∅ -> Z.of_nat (size h) < 4294967296 -> map_Forall (fun k v => fits32 k /\ fits32 v) h ->
  reads (deserialize_hash new_object) (serialize_hash (hash_object h)) (hash_object h).
Proof.
  intros Hne Hn Hf. unfold serialize_hash.
  change (hash_items (hash_object h)) with (map_items h). rewrite foldl_concat.
  assert (map_items h <> []) as Hi.
  { intros E. apply Hne. rewrite <-(map_items_map h). by rewrite E. }
  assert (hash_object h = foldl (fun o kv => (hash_set kv.1 kv.2 o).2) new_object (map_items h)) as Hh.
  { rewrite rebuild_hash by done. rewrite foldl_insert_map, (right_id_L ∅ (∪)), map_items_map; [done|..].
    - apply map_items_nodup.
    - apply Forall_forall. intros. apply lookup_empty. }
  rewrite Hh. eapply (reads_items _ _ _ (fun kv => fits32 kv.1 /\ fits32 kv.2)).
  - intros x o [H1 H2]. eapply reads_bind; [by apply reads_string|].
    by apply (reads_fmap read_string (fun v => (hash_set x.1 v o).2)), reads_string.
  - intros x Hx. by apply app_eq_nil in Hx as [].
  - rewrite map_items_perm. apply map_Forall_to_list in Hf.
    eapply Forall_impl; [exact Hf|]. by intros [].
  - unfold fits32. by rewrite map_items_size.
Qed.

Lemma reads_set e :
  e <> ∅ -> Z.of_nat (size e) < 4294967296 -> set_Forall fits32 e ->
  reads (deserialize_set new_object) (serialize_set (set_object e)) (set_object e).
Proof.
  intros Hne Hn Hf. unfold serialize_set.
  change (set_members (set_object e)) with (set_items e). rewrite foldl_concat.
  assert (set_items e <> []) as Hi.
  { intros E. apply Hne. rewrite <-(set_items_set e). by rewrite E. }
  assert (set_object e = foldl (fun o x => (set_add x o).2) new_object (set_items e)) as He.
  { rewrite rebuild_set by done. by rewrite foldl_insert_set, (right_id_L ∅ (∪)), set_items_set. }
  rewrite He. eapply (reads_items _ _ _ fits32).
  - intros x o Hx. by apply (reads_fmap read_string (fun x => (set_add x o).2)), reads_string.
  - apply write_string_nonempty.
  - rewrite set_items_perm. by apply set_Forall_elements.
  - unfold fits32. by rewrite set_items_size.
Qed.

Lemma reads_zset l :
  l <> [] -> zset_wf l -> fits32 l -> Forall (fun z => fits32 z.1 /\ in_double z.2) l ->
  reads (deserialize_zset new_object) (serialize_zset (zset_object l)) (zset_object l).
Proof.
  intros Hne Hwf Hn Hf. unfold serialize_zset.
  change (zset_all (zset_object l)) with l. rewrite foldl_concat.
  assert (zset_object l = foldl (fun o z => (zset_add z.1 z.2 o).2) new_object l) as Hz.
  { rewrite rebuild_zset by done. by rewrite foldl_zadd. }
  rewrite Hz. eapply (reads_items _ _ _ (fun z => fits32 z.1 /\ in_double z.2)); [|..|done|done].
  - intros x o [H1 H2]. eapply reads_bind; [by apply reads_string|].
    apply (reads_fmap read_uint64 (fun b => (zset_add x.1 b o).2)), reads_uint64.
    unfold in_double, uint64_max in H2. lia.
  - intros x Hx. by apply app_eq_nil in Hx as [].
Qed.

(** A value comes back by its type byte. *)
Lemma reads_value o :
  obj_ok o -> rdb_fits o -> reads (read_value (RdbValueType (type_ o))) (value_bytes o) o.
Proof.
  intros [Ho Hn] Hf. unfold rdb_fits, value_bytes, nonempty in *. destruct (type_ o) eqn:Ht.
  - rewrite (shape_string o Ho Ht). by apply (reads_fmap read_string object_of_string), reads_string.
  - rewrite (shape_list o Ho Ht). destruct Hf. by apply reads_list.
  - rewrite (shape_hash o Ho Ht). destruct Hf. by apply reads_hash.
  - rewrite (shape_set o Ho Ht). destruct Hf. by apply reads_set.
  - rewrite (shape_zset o Ho Ht). apply reads_zset; [done|apply Ho|apply Hf|apply Hf].
Qed.

(** ** Records *)

(** A record the file can carry: the high byte of the length of a key is below
    the marker of a deadline. *)
Record kv_ok (kv : KVWithTTL) : Prop := {
  kv_key_nonempty : kv_key kv <> [];
  kv_key_fits : zlen (kv_key kv) < 4261412864;
  kv_value_ok : obj_ok (kv_value kv);
  kv_value_fits : rdb_fits (kv_value kv);
  kv_expire_ok : kv_expire_time_ms kv = -1 \/ 0 < kv_expire_time_ms kv <= int64_max
}.

Lemma write_kv_pair_eq k v e :
  write_kv_pair k v e =
  (if 0 <? e then write_uint8 KV_WITH_TTL ++ write_uint64 e else []) ++
  write_string k ++ write_uint8 (RdbValueType (type_ v)) ++ value_bytes v.
Proof. done. Qed.

(** The marker step: a deadline, or nothing and the position as before. *)
Definition read_expire : rd Z := fun rest =>
  match read_uint8 rest with
  | ROk marker rest' =>
      if marker =? KV_WITH_TTL
      then (expire ← read_uint64; mret (to_int64 expire)) rest'
      else ROk (-1) rest
  | RThrow => RThrow
  | RFuel => RFuel
  end.

Lemma reads_deadline e :
  0 < e <= int64_max -> reads read_expire (write_uint8 KV_WITH_TTL ++ write_uint64 e) e.
Proof.
  intros He rest Hl. unfold read_expire. rewrite <-app_assoc.
  rewrite reads_uint8 by (try done; rewrite length_app; unfold write_uint64; rewrite be_length; lia).
  change (KV_WITH_TTL =? KV_WITH_TTL) with true. cbv iota.
  pose proof (reads_fmap read_uint64 to_int64 (write_uint64 e) e) as Hm. rewrite Hm; [|..|done].
  - unfold to_int64. by rewrite (proj2 (Z.ltb_ge _ _)) by lia.
  - apply reads_uint64. unfold int64_max in He. lia.
Qed.

Lemma no_deadline k w :
  zlen k < 4261412864 -> read_expire (write_string k ++ w) = ROk (-1) (write_string k ++ w).
Proof.
  intros Hk. unfold read_expire, write_string, write_uint32. cbn [be app].
  unfold read_uint8, mbind, rd_bind, read_bytes. cbn [length Nat.ltb Nat.leb take drop].
  unfold be_val, mret, rd_ret. cbn [foldl]. rewrite byte_val_of, Z.shiftr_div_pow2 by lia.
  pose proof (zlen_nonneg k). change (2 ^ (8 * Z.of_nat 3)) with 16777216.
  assert (zlen k / 16777216 < 254) as Hlt by (apply Z.div_lt_upper_bound; lia).
  assert (0 <= zlen k / 16777216) by (apply Z.div_pos; lia).
  rewrite Z.mod_small by lia. unfold KV_WITH_TTL. by rewrite (proj2 (Z.eqb_neq _ _)) by lia.
Qed.

Lemma reads_kv kv :
  kv_ok kv ->
  reads read_kv_pair (write_kv_pair (kv_key kv) (kv_value kv) (kv_expire_time_ms kv)) (Some kv).
Proof.
  intros [Hne Hk Hv Hf He]. destruct kv as [k v e]. cbn [kv_key kv_value kv_expire_time_ms] in *.
  rewrite write_kv_pair_eq.
  assert (reads (key ← read_string; type_val ← read_uint8; v ← read_value type_val;
    mret (if bool_decide (key = []) then None else Some (mkKV key v e)))
    (write_string k ++ write_uint8 (RdbValueType (type_ v)) ++ value_bytes v) (Some (mkKV k v e))) as Htail.
  { eapply reads_bind; [apply reads_string; unfold fits32; lia|].
    eapply reads_bind; [apply reads_uint8; by destruct (type_ v)|].
    pose proof (reads_fmap (read_value (RdbValueType (type_ v)))
      (fun v => if bool_decide (k = []) then None else Some (mkKV k v e)) (value_bytes v) v) as Hm.
    cbn beta in Hm. rewrite (bool_decide_eq_false_2 _ Hne) in Hm |- *. by apply Hm, reads_value. }
  change read_kv_pair with (expire_time_ms ← read_expire; key ← read_string; type_val ← read_uint8;
    v ← read_value type_val;
    mret (if bool_decide (key = []) then None else Some (mkKV key v expire_time_ms))).
  destruct He as [->|He].
  - cbn [Z.ltb Z.compare app]. intros rest Hl. unfold mbind at 1, rd_bind at 1.
    rewrite <-app_assoc, no_deadline, app_assoc by done. by apply Htail.
  - rewrite (proj2 (Z.ltb_lt _ _)) by lia. eapply reads_bind; [by apply reads_deadline|exact Htail].
Qed.

Lemma write_kv_pair_nonempty k v e : write_kv_pair k v e <> [].
Proof. unfold write_kv_pair. by destruct (0 <? e). Qed.
End values.

(** ** The size of the store *)

Lemma foldl_sum_acc (g : nat -> Z) l a :
  foldl (fun total i => total + g i) a l = a + foldl (fun total i => total + g i) 0 l.
Proof.
  revert a; induction l as [|i l IH]; intros a; cbn [foldl]; [lia|].
  rewrite IH, (IH (0 + g i)). lia.
Qed.

Lemma foldl_sum_le (g h : nat -> Z) l d i :
  NoDup l -> (forall j, j <> i -> h j = g j) -> h i <= g i + d -> 0 <= d ->
  foldl (fun total i => total + h i) 0 l <= foldl (fun total i => total + g i) 0 l + d.
Proof.
  intros Hl Hne Hi Hd.
  assert (forall l, i ∉ l -> foldl (fun total i => total + h i) 0 l = foldl (fun total i => total + g i) 0 l) as Heq.
  { induction l0 as [|j l0 IH]; intros Hj; [done|]. cbn [foldl].
    rewrite not_elem_of_cons in Hj. rewrite (foldl_sum_acc h), (foldl_sum_acc g), IH, Hne by naive_solver. done. }
  induction Hl as [|j l Hj Hl IH]; cbn [foldl]; [lia|].
  rewrite (foldl_sum_acc h), (foldl_sum_acc g). destruct (decide (j = i)) as [->|].
  - rewrite Heq by done. lia.
  - rewrite Hne by done. lia.
Qed.

Lemma size_stores s s' : stores_ s = stores_ s' -> size_ s = size_ s'.
Proof. intros Hs. unfold size_, store_at. by rewrite Hs. Qed.

(** The checksum is a 32-bit value, and that of the first bytes of a file does
    not depend on the others. *)
Lemma crc_loop_range `{Crc32} fuel crc rest n :
  0 <= crc < 4294967296 -> 0 <= crc_loop fuel crc rest n < 4294967296.
Proof.
  revert crc rest n; induction fuel as [|fuel IH]; intros crc rest n Hc; cbn [crc_loop]; [done|].
  destruct (n <=? 0); [done|]. destruct (_ =? _)%nat; [done|]. apply IH. apply crc32_range.
Qed.

Lemma crc_range `{Crc32} file n : 0 <= calculate_crc32_for_range file n < 4294967296.
Proof. apply crc_loop_range, crc32_init_range. Qed.

Lemma crc_loop_prefix `{Crc32} f1 f2 crc rest tail :
  (length rest < f1)%nat -> (length rest < f2)%nat ->
  crc_loop f1 crc (rest ++ tail) (zlen rest) = crc_loop f2 crc rest (zlen rest).
Proof.
  revert f2 crc rest; induction f1 as [|f1 IH]; intros f2 crc rest H1 H2; [lia|].
  destruct f2 as [|f2]; [lia|]. cbn [crc_loop]. destruct (Z.leb_spec (zlen rest) 0); [done|].
  set (n := Z.to_nat (Z.min (zlen rest) 4096)).
  assert (n <= length rest)%nat as Hn by (unfold n, zlen; lia).
  rewrite take_app_le by done. rewrite length_take, Nat.min_l by done.
  destruct (Nat.eqb_spec n 0); [unfold n, zlen in *; lia|].
  rewrite drop_app_le by done.
  replace (zlen rest - zlen (take n rest)) with (zlen (drop n rest))
    by (unfold zlen; rewrite length_take, length_drop; lia).
  apply IH; rewrite length_drop; lia.
Qed.

Lemma crc_prefix `{Crc32} body tail :
  calculate_crc32_for_range (body ++ tail) (zlen body) = calculate_crc32_for_range body (zlen body).
Proof. unfold calculate_crc32_for_range. apply crc_loop_prefix; rewrite ?length_app; lia. Qed.

Section load.
Context `{StringHash} `{StoreOrder} `{HashOrder} `{Crc32}.

Lemma size_insert_entry k e s :
  storage_wf s -> size_ (insert_entry k e s) <= size_ s + 1.
Proof.
  intros Hwf. unfold size_.
  apply (foldl_sum_le (fun i => Z.of_nat (size (store_at i s)))
    (fun i => Z.of_nat (size (store_at i (insert_entry k e s)))) _ 1 (get_shard_index k)).
  - apply NoDup_seq.
  - intros j Hj. unfold insert_entry.
    rewrite store_at_with_store by (apply Hwf || apply get_shard_index_lt). by rewrite decide_False.
  - unfold insert_entry.
    rewrite store_at_with_store by (apply Hwf || apply get_shard_index_lt). rewrite decide_True by done.
    unfold shard_of. destruct (store_at (get_shard_index k) s !! k) eqn:Hk.
    + rewrite map_size_insert_Some by done. lia.
    + rewrite map_size_insert_None by done. lia.
  - lia.
Qed.

Context (now : Z) (draw : rng).
Hypothesis Hnow : 0 <= now < int64_max.

(** The visible state after a record was loaded. *)
Definition loaded (f : bytes -> cell) (kv : KVWithTTL) : bytes -> cell :=
  if 0 <? kv_expire_time_ms kv then
    if now <? kv_expire_time_ms kv
    then upd f (kv_key kv) (Some (kv_value kv, Some (kv_expire_time_ms kv)))
    else f
  else upd f (kv_key kv) (Some (kv_value kv, None)).

Lemma load_kv_live kv s :
  storage_wf s -> size_ s < threshold s -> kv_expire_time_ms kv <= int64_max ->
  let s' := load_kv now draw kv s in
  storage_wf s' /\ max_entries_ s' = max_entries_ s /\ size_ s' <= size_ s + 1 /\
  forall k, live now s' k = loaded (live now s) kv k.
Proof using Hnow.
  intros Hwf Hsz He. unfold load_kv, loaded. destruct (Z.ltb_spec 0 (kv_expire_time_ms kv)).
  - destruct (Z.ltb_spec now (kv_expire_time_ms kv)) as [Hlt|Hlt].
    + rewrite (proj2 (Z.ltb_lt _ _)) by lia. unfold set_with_expire. rewrite evict_below_threshold by done.
      destruct (set_with_expire_live now (kv_key kv) (kv_value kv) (kv_expire_time_ms kv - now) s Hwf Hnow)
        as [Hwf' Hl]. unfold deadline_of in Hl. rewrite (proj2 (Z.ltb_lt 0 _)) in Hl by lia.
      replace (ExpireDict.sat_add now (kv_expire_time_ms kv - now)) with (kv_expire_time_ms kv) in Hl
        by (unfold ExpireDict.sat_add; rewrite (proj2 (Z.ltb_ge _ _)) by lia; lia).
      split; [exact Hwf'|]. split; [unfold set_with_expire_locked; destruct (0 <? _); reflexivity|].
      split; [|exact Hl].
      unfold set_with_expire_locked. rewrite (proj2 (Z.ltb_lt 0 _)) by lia.
      rewrite (size_stores _ (insert_entry (kv_key kv) (mkEntry (kv_value kv) now) s)) by reflexivity.
      by apply size_insert_entry.
    + rewrite (proj2 (Z.ltb_ge _ _)) by lia. split_and!; [done..|lia|done].
  - unfold set. rewrite evict_below_threshold by done.
    destruct (set_live now (kv_key kv) (kv_value kv) s Hwf) as [Hwf' Hl].
    split; [exact Hwf'|]. split; [reflexivity|]. split; [|exact Hl].
    rewrite (size_stores _ (insert_entry (kv_key kv) (mkEntry (kv_value kv) now) s)) by reflexivity.
    by apply size_insert_entry.
Qed.

Lemma loaded_ext kvs f g k :
  (forall k, f k = g k) -> foldl loaded f kvs k = foldl loaded g kvs k.
Proof.
  revert f g. induction kvs as [|x kvs IH]; intros f g Hfg; cbn [foldl]; [done|].
  apply IH. intros k'. unfold loaded, upd. case_ifs; try done; by case_decide.
Qed.

Lemma load_all_live kvs s :
  storage_wf s -> size_ s + zlen kvs <= threshold s ->
  Forall (fun kv => kv_expire_time_ms kv <= int64_max) kvs ->
  let s' := foldl (fun s kv => load_kv now draw kv s) s kvs in
  storage_wf s' /\ forall k, live now s' k = foldl loaded (live now s) kvs k.
Proof using Hnow.
  intros Hwf Hsz Hkv. revert s Hwf Hsz. induction Hkv as [|kv kvs He Hkv IH]; intros s Hwf Hsz; cbn [foldl].
  { done. }
  rewrite zlen_cons in Hsz. pose proof (zlen_nonneg kvs).
  destruct (load_kv_live kv s Hwf ltac:(lia) He) as (Hwf' & Hm & Hsz' & Hl).
  assert (threshold (load_kv now draw kv s) = threshold s) as Ht by (unfold threshold; by rewrite Hm).
  destruct (IH _ Hwf' ltac:(lia)) as [Hwf'' Hl'']. split; [done|]. intros k. rewrite Hl''.
  clear -Hl. revert Hl. generalize (live now (load_kv now draw kv s)) (loaded (live now s) kv).
  intros f g Hfg. by apply loaded_ext.
Qed.

Lemma live_new_storage t k : live t new_storage k = None.
Proof.
  apply live_absent. unfold entry, shard_of, store_at. cbn [new_storage stores_].
  rewrite lookup_replicate_2 by apply get_shard_index_lt. simpl. by rewrite lookup_empty.
Qed.

(** Records loaded into a store without visible keys, fewer than make it evict. *)
Lemma load_all_empty kvs e k :
  storage_wf e -> (forall k, live now e k = None) -> size_ e = 0 -> zlen kvs <= threshold e ->
  Forall (fun kv => kv_expire_time_ms kv <= int64_max) kvs ->
  live now (foldl (fun s kv => load_kv now draw kv s) e kvs) k = foldl loaded (fun _ => None) kvs k.
Proof using Hnow.
  intros Hwf He Hz Hn Hkv. destruct (load_all_live kvs e) as [_ Hl]; [done|lia|done|].
  rewrite Hl. by apply loaded_ext.
Qed.

Lemma load_all_new kvs k :
  zlen kvs <= threshold new_storage -> Forall (fun kv => kv_expire_time_ms kv <= int64_max) kvs ->
  live now (foldl (fun s kv => load_kv now draw kv s) new_storage kvs) k =
    foldl loaded (fun _ => None) kvs k.
Proof using Hnow.
  apply load_all_empty; [apply new_storage_wf|apply live_new_storage|by vm_compute].
Qed.

(** ** Reading the file of a snapshot *)

Definition record_bytes (kv : KVWithTTL) : bytes :=
  write_kv_pair (kv_key kv) (kv_value kv) (kv_expire_time_ms kv).

Lemma load_kvs_reads fuel kvs rest s :
  Forall kv_ok kvs -> (length kvs <= fuel)%nat -> (4 <= length rest)%nat ->
  load_kvs now draw fuel (zlen kvs) (concat (record_bytes <$> kvs) ++ rest) s =
  (ROk tt rest, foldl (fun s kv => load_kv now draw kv s) s kvs).
Proof.
  intros Hkv. revert fuel s. induction Hkv as [|kv kvs Hk Hkv IH]; intros fuel s Hf Hl.
  { by destruct fuel. }
  destruct fuel as [|fuel]; [simpl in Hf; lia|]. cbn [load_kvs fmap list_fmap concat foldl].
  rewrite zlen_cons, (proj2 (Z.leb_gt _ _)) by (pose proof (zlen_nonneg kvs); lia).
  rewrite <-app_assoc. unfold record_bytes at 1.
  rewrite (reads_kv kv Hk) by (rewrite length_app; lia).
  replace (1 + zlen kvs - 1) with (zlen kvs) by lia. apply IH; [simpl in Hf; lia|done].
Qed.

Lemma load_dbs_zero fuel n rest s : n <= 0 -> load_dbs now draw fuel n rest s = (ROk tt rest, s).
Proof. intros Hn. destruct fuel; cbn [load_dbs]; by rewrite (proj2 (Z.leb_le _ _)) by lia. Qed.

Lemma load_file kvs s :
  Forall kv_ok kvs -> fits32 kvs ->
  load now draw (rdb_file kvs) s = (Some true, foldl (fun s kv => load_kv now draw kv s) s kvs).
Proof.
  intros Hkv Hf. unfold rdb_file. set (body := rdb_body kvs).
  assert (exists crc, crc = calculate_crc32_for_range body (zlen body) /\ 0 <= crc < 4294967296)
    as (crc & Hcrc & Hrange) by (eexists; split; [done|apply crc_range]).
  rewrite <-Hcrc.
  assert (body = write_uint32 kRdbMagic ++ kRdbVersion ++ write_uint32 1 ++ write_uint32 (zlen kvs) ++
    concat (record_bytes <$> kvs) ++ write_uint8 EOF_MARKER) as Hbody by done.
  assert (length (write_uint32 crc) = 4%nat) as Hl4 by done.
  assert (zlen (body ++ write_uint32 crc) - 4 = zlen body) as Hlen
    by (rewrite zlen_app; unfold zlen; rewrite Hl4; lia).
  set (recs := concat (record_bytes <$> kvs)) in *.
  set (rest := write_uint32 1 ++ write_uint32 (zlen kvs) ++ recs ++ write_uint8 EOF_MARKER ++ write_uint32 crc).
  assert (body ++ write_uint32 crc = write_uint32 kRdbMagic ++ kRdbVersion ++ rest) as Hfile
    by (rewrite Hbody; unfold rest; by rewrite <-!app_assoc).
  unfold load. rewrite bool_decide_eq_false_2 by (rewrite Hfile; done).
  assert (read_uint32 (body ++ write_uint32 crc) = ROk kRdbMagic (kRdbVersion ++ rest)) as ->
    by (rewrite Hfile; apply reads_uint32; [done|simpl; lia]).
  change (kRdbMagic =? kRdbMagic) with true. cbn [negb].
  change (read_bytes 4 (kRdbVersion ++ rest)) with (ROk kRdbVersion rest). cbv beta iota.
  rewrite bool_decide_eq_true_2 by done. cbn [negb].
  rewrite (proj2 (Z.ltb_ge _ _)) by (pose proof (zlen_nonneg body); lia). cbv zeta. rewrite Hlen.
  unfold zlen at 1. rewrite Nat2Z.id, drop_app_length.
  assert (read_uint32 (write_uint32 crc) = ROk crc []) as ->.
  { unfold read_uint32, mbind, rd_bind. change (read_bytes 4 (write_uint32 crc)) with (ROk (write_uint32 crc) []).
    unfold mret, rd_ret. f_equal. by apply (be_val_be 4). }
  rewrite crc_prefix, <-Hcrc, Z.eqb_refl. cbn [negb]. unfold rest.
  rewrite reads_uint32 by (done || (simpl; lia)). cbn [load_dbs Z.leb Z.compare].
  pose proof (zlen_nonneg kvs). unfold fits32 in Hf.
  assert ((4 <= length (recs ++ write_uint8 EOF_MARKER ++ write_uint32 crc))%nat) as Hl
    by (rewrite !length_app, Hl4; lia).
  rewrite reads_uint32 by (done || lia).
  rewrite load_kvs_reads; [|done| |rewrite length_app, Hl4; lia].
  2: { rewrite length_app.
       pose proof (encoded_length record_bytes kvs (fun kv => write_kv_pair_nonempty _ _ _)). unfold recs. lia. }
  rewrite load_dbs_zero by lia.
  assert (zlen (write_uint8 EOF_MARKER ++ write_uint32 crc) = 5) as -> by done.
  rewrite (proj2 (Z.eqb_eq _ _)) by lia. cbn [negb].
  rewrite reads_uint8 by done. done.
Qed.

(** ** The visible state after a load *)

(** The cell a record leaves under its key. *)
Definition loaded_cell (c : cell) (kv : KVWithTTL) : cell :=
  if 0 <? kv_expire_time_ms kv then
    if now <? kv_expire_time_ms kv then Some (kv_value kv, Some (kv_expire_time_ms kv)) else c
  else Some (kv_value kv, None).

Lemma loaded_same f kv : loaded f kv (kv_key kv) = loaded_cell (f (kv_key kv)) kv.
Proof. unfold loaded, loaded_cell. case_ifs; by rewrite ?upd_same. Qed.

Lemma loaded_other f kv k : k <> kv_key kv -> loaded f kv k = f k.
Proof. intros Hk. unfold loaded. case_ifs; try done; unfold upd; by rewrite decide_False. Qed.

Lemma loaded_absent kvs f k : k ∉ kv_key <$> kvs -> foldl loaded f kvs k = f k.
Proof.
  revert f; induction kvs as [|kv kvs IH]; intros f Hk; [done|]. cbn [foldl].
  cbn [fmap list_fmap] in Hk. apply not_elem_of_cons in Hk as [Hne Hk].
  rewrite IH by done. by apply loaded_other.
Qed.

Lemma loaded_present kvs f kv :
  NoDup (kv_key <$> kvs) -> kv ∈ kvs ->
  foldl loaded f kvs (kv_key kv) = loaded_cell (f (kv_key kv)) kv.
Proof.
  revert f; induction kvs as [|x kvs IH]; intros f Hd Hin; [by apply not_elem_of_nil in Hin|].
  cbn [foldl]. cbn [fmap list_fmap] in Hd. apply NoDup_cons in Hd as [Hx Hd].
  apply elem_of_cons in Hin as [->|Hin].
  - rewrite loaded_absent by done. apply loaded_same.
  - rewrite IH by done. f_equal. apply loaded_other. intros He. apply Hx. rewrite <-He.
    by apply list_elem_of_fmap_2.
Qed.

(** Visibility at a later time. *)
Lemma live_later now0 s k :
  now0 <= now ->
  live now s k =
  match live now0 s k with
  | Some (o, Some t) => if now <? t then Some (o, Some t) else None
  | c => c
  end.
Proof.
  intros Hle. unfold live. destruct (entry s k) as [e|]; [|done]. rewrite !is_expired_deadline.
  destruct (deadline s k) as [t|]; [|done].
  destruct (Z.leb_spec t now), (Z.leb_spec t now0); try lia; try done;
    destruct (Z.ltb_spec now t); try lia; done.
Qed.

Lemma snapshot_loaded now0 s k :
  storage_wf s -> now0 <= now ->
  foldl loaded (fun _ => None) (get_all_objects_with_ttl now0 s) k = live now s k.
Proof.
  intros Hwf Hle. rewrite (live_later now0) by done.
  destruct (live now0 s k) as [[o dl]|] eqn:Hl.
  - set (kv := mkKV k o (default (-1) dl)).
    assert (kv ∈ get_all_objects_with_ttl now0 s) as Hin
      by (apply StorageProps.snapshot_elem; [done|]; by exists dl).
    change k with (kv_key kv). rewrite (loaded_present _ _ kv); [|by apply StorageProps.snapshot_nodup|done].
    unfold loaded_cell, kv. cbn [kv_expire_time_ms kv_value]. destruct dl as [t|]; [|done].
    cbn [from_option id]. assert (0 < t) as Ht.
    { unfold live in Hl. destruct (entry s k); [|done]. destruct (is_expired now0 k s); simplify_eq.
      by eapply (swf_deadline s Hwf). }
    by rewrite (proj2 (Z.ltb_lt _ _) Ht).
  - apply loaded_absent. intros (kv & -> & Hin)%list_elem_of_fmap.
    apply StorageProps.snapshot_elem in Hin as (dl & Hc & _); [congruence|done].
Qed.

(** ** The readers end *)

(** A reader never runs out of fuel; what it leaves is shorter by [n]. *)
Definition total {A} (n : nat) (r : rd A) : Prop :=
  forall rest, match r rest with
               | ROk _ rest' => (length rest' + n <= length rest)%nat
               | RThrow => True
               | RFuel => False
               end.

Lemma total_ret {A} (a : A) : total 0 (mret a).
Proof. intros rest. cbn. lia. Qed.

Lemma total_bind {A B} n m (r : rd A) (g : A -> rd B) :
  total n r -> (forall a, total m (g a)) -> total (n + m) (r ≫= g).
Proof.
  intros Hr Hg rest. unfold mbind, rd_bind. specialize (Hr rest). destruct (r rest) as [a rest'| |]; [|done..].
  specialize (Hg a rest'). destruct (g a rest'); [lia|done..].
Qed.

Lemma total_weaken {A} n m (r : rd A) : (m <= n)%nat -> total n r -> total m r.
Proof. intros Hle Hr rest. specialize (Hr rest). destruct (r rest); [lia|done..]. Qed.

Lemma total_bytes n : total n (read_bytes n).
Proof.
  intros rest. unfold read_bytes. destruct (Nat.ltb_spec (length rest) n); [done|].
  rewrite length_drop. lia.
Qed.

Lemma total_uint n : total n (l ← read_bytes n; mret (be_val l)).
Proof. rewrite <-(Nat.add_0_r n) at 1. apply total_bind; [apply total_bytes|intros; apply total_ret]. Qed.

Lemma total_string : total 4 read_string.
Proof.
  change 4%nat with (4 + 0)%nat. apply total_bind; [apply total_uint|]. intros len.
  destruct (len =? 0); [apply total_ret|]. intros rest. cbv beta zeta. destruct (_ || _); [done|].
  pose proof (total_bytes (Z.to_nat len) rest) as Ht. destruct (read_bytes _ rest); [lia|done..].
Qed.

Lemma total_repeat {S} (body : S -> rd S) fuel count s rest :
  (forall s, total 1 (body s)) -> (length rest < fuel)%nat ->
  match repeat_read body fuel count s rest with
  | ROk _ rest' => (length rest' <= length rest)%nat
  | RThrow => True
  | RFuel => False
  end.
Proof.
  intros Hb. revert count s rest; induction fuel as [|fuel IH]; intros count s rest Hf; [lia|].
  cbn [repeat_read]. destruct (count <=? 0); [lia|]. specialize (Hb s rest).
  destruct (body s rest) as [s' rest'| |]; [|done..]. specialize (IH (count - 1) s' rest' ltac:(lia)).
  destruct (repeat_read _ _ _ _ _); [lia|done..].
Qed.

Lemma total_items body o : (forall o, total 1 (body o)) -> total 4 (read_items body o).
Proof.
  intros Hb. change 4%nat with (4 + 0)%nat. apply total_bind; [apply total_uint|]. intros count rest.
  pose proof (total_repeat body (S (length rest)) count o rest Hb ltac:(lia)) as Ht.
  destruct (repeat_read _ _ _ _ _); [lia|done..].
Qed.

Lemma total_value t : total 0 (read_value t).
Proof.
  assert (forall (A : Type) n (r : rd A), total n r -> total 0 r) as Hw
    by (intros A n r Hr; eapply total_weaken; [|exact Hr]; lia).
  assert (forall g : bytes -> CacheObject, total 1 (item ← read_string; mret (g item))) as Hone.
  { intros g. eapply (total_weaken (4 + 0)); [lia|]. apply total_bind; [apply total_string|intros; apply total_ret]. }
  unfold read_value. case_ifs; [..|done].
  - eapply Hw, (total_bind 4 0); [apply total_string|intros; apply total_ret].
  - eapply Hw, total_items. intros o. apply Hone.
  - eapply Hw, total_items. intros o. eapply (total_weaken (4 + (4 + 0))); [lia|].
    apply total_bind; [apply total_string|]. intros. apply total_bind; [apply total_string|intros; apply total_ret].
  - eapply Hw, total_items. intros o. apply Hone.
  - eapply Hw, total_items. intros o. eapply (total_weaken (4 + (8 + 0))); [lia|].
    apply total_bind; [apply total_string|]. intros. apply total_bind; [apply total_uint|intros; apply total_ret].
Qed.

Lemma total_kv : total 1 read_kv_pair.
Proof.
  eapply (total_weaken (0 + (4 + (1 + (0 + 0))))); [lia|]. apply (total_bind 0).
  - intros rest. pose proof (total_uint 1 rest) as Hm. fold read_uint8 in Hm.
    destruct (read_uint8 rest) as [marker rest'| |]; [|done..]. destruct (_ =? _); [|lia].
    pose proof (total_bind 8 0 read_uint64 (fun e => mret (to_int64 e)) (total_uint 8)
      (fun e => total_ret _) rest') as He.
    destruct ((expire ← read_uint64; mret (to_int64 expire)) rest'); [lia|done..].
  - intros e. apply total_bind; [apply total_string|]. intros key.
    apply total_bind; [apply total_uint|]. intros t. apply total_bind; [apply total_value|].
    intros v. apply total_ret.
Qed.
End load.

End RdbSpec.
