(* ===== verification/RdbProps.v ===== *)
(** * The properties of the snapshot

    A snapshot that is written and loaded gives the visible state back; loading
    ends on every file and refuses damaged ones before it touches the store;
    saving replaces the file atomically; one background save at a time. *)

From S2P Require Import Prelude Base Object ObjectSpec Payload PayloadSpec.
From S2P Require Import ExpireDict Storage StorageSpec StorageProps Commands CommandsSpec Rdb RdbSpec.
From stdpp Require Import options.

Module RdbProps.
Import Text Object PayloadSpec Storage StorageSpec CommandsSpec Rdb RdbSpec.

Section load.
Context `{StringHash} `{StoreOrder} `{Crc32} (now : Z) (draw : rng).

Lemma load_kvs_total fuel count rest s :
  (length rest < fuel)%nat ->
  match (load_kvs now draw fuel count rest s).1 with
  | ROk _ rest' => (length rest' <= length rest)%nat
  | RThrow => True
  | RFuel => False
  end.
Proof.
  revert count rest s; induction fuel as [|fuel IH]; intros count rest s Hf; [lia|].
  cbn [load_kvs]. destruct (count <=? 0); [cbn; lia|]. pose proof (total_kv rest) as Ht.
  destruct (read_kv_pair rest) as [o rest'| |]; [|done..].
  specialize (IH (count - 1) rest' (match o with Some kv => load_kv now draw kv s | None => s end) ltac:(lia)).
  destruct (load_kvs _ _ _ _ _ _) as [[] ?]; cbn [fst] in *; [lia|done..].
Qed.

Lemma load_dbs_total fuel count rest s :
  (length rest < fuel)%nat ->
  match (load_dbs now draw fuel count rest s).1 with
  | ROk _ rest' => (length rest' <= length rest)%nat
  | RThrow => True
  | RFuel => False
  end.
Proof.
  revert count rest s; induction fuel as [|fuel IH]; intros count rest s Hf; [lia|].
  cbn [load_dbs]. destruct (count <=? 0); [cbn; lia|]. pose proof (total_uint 4 rest) as Ht.
  fold read_uint32 in Ht. destruct (read_uint32 rest) as [n rest'| |]; [|done..].
  pose proof (load_kvs_total (S (length rest')) n rest' s ltac:(lia)) as Hk.
  destruct (load_kvs _ _ _ _ _ _) as [[u rest''| |] s']; cbn [fst] in Hk; [|done..].
  specialize (IH (count - 1) rest'' s' ltac:(lia)).
  destruct (load_dbs _ _ _ _ _ _) as [[] ?]; cbn [fst] in *; [lia|done..].
Qed.

Lemma uint_not_fuel n rest : (l ← read_bytes n; mret (be_val l)) rest <> RFuel.
Proof. pose proof (total_uint n rest) as Ht. intros E. by rewrite E in Ht. Qed.
End load.

(** A checksum for the witnesses. *)
Definition sum_crc (c : Z) (b : bytes) : Z :=
  foldl (fun a x => (a + byte_val x) mod 4294967296) (c mod 4294967296) b.

Lemma sum_crc_range c b : 0 <= sum_crc c b < 4294967296.
Proof.
  unfold sum_crc. assert (0 <= c mod 4294967296 < 4294967296) as Hc by (apply Z.mod_pos_bound; lia).
  revert Hc. generalize (c mod 4294967296). induction b as [|x b IH]; intros a Ha; cbn [foldl]; [done|].
  apply IH. apply Z.mod_pos_bound. lia.
Qed.

Lemma zero_range : 0 <= 0 < 4294967296.
Proof. lia. Qed.

Definition plain_crc : Crc32 := {|
  crc32_init := 0;
  crc32 := sum_crc;
  crc32_init_range := zero_range;
  crc32_range := sum_crc_range
|}.

Abbreviation shash := StorageProps.sum_hash.
Abbreviation sord := StorageProps.plain_store_order.

(** Loading ends: whatever the bytes of the file, [load] returns. *)
Theorem load_terminates `{StringHash} `{StoreOrder} `{Crc32} now draw file s :
  is_Some (load now draw file s).1.
Proof.
  unfold load. case_bool_decide; [by eexists|].
  pose proof (uint_not_fuel 4 file) as Hn1. fold read_uint32 in Hn1.
  destruct (read_uint32 file) as [magic rest| |]; [|by eexists|done].
  destruct (negb _); [by eexists|].
  destruct (read_bytes 4 rest) as [version rest2| |] eqn:Hb; [|by eexists|].
  2: { pose proof (total_bytes 4 rest) as Ht. by rewrite Hb in Ht. }
  destruct (negb _); [by eexists|]. cbv zeta. destruct (_ <? _); [by eexists|].
  pose proof (uint_not_fuel 4 (drop (Z.to_nat (zlen file - 4)) file)) as Hn2. fold read_uint32 in Hn2.
  destruct (read_uint32 (drop _ _)) as [crc ?| |]; [|by eexists|done].
  destruct (negb _); [by eexists|].
  pose proof (uint_not_fuel 4 rest2) as Hn3. fold read_uint32 in Hn3.
  destruct (read_uint32 rest2) as [n rest3| |]; [|by eexists|done].
  pose proof (load_dbs_total now draw (S (length rest3)) n rest3 s ltac:(lia)) as Hd.
  destruct (load_dbs _ _ _ _ _ _) as [[u rest4| |] s']; cbn [fst] in Hd; [|by eexists|done].
  destruct (negb _); [by eexists|]. pose proof (uint_not_fuel 1 rest4) as Hn4. fold read_uint8 in Hn4.
  destruct (read_uint8 rest4); [by eexists..|done].
Qed.

(** The records of a snapshot fit the file. *)
Lemma snapshot_kv_ok `{StringHash} `{StoreOrder} now0 s :
  store_ok s ->
  (forall k o dl, live now0 s k = Some (o, dl) -> k <> [] /\ zlen k < 4261412864 /\ rdb_fits o) ->
  Forall kv_ok (get_all_objects_with_ttl now0 s).
Proof.
  intros Hs Hfit. apply Forall_forall. intros kv (dl & Hl & He)%StorageProps.snapshot_elem; [|apply Hs].
  destruct (Hfit _ _ _ Hl) as (? & ? & ?). split; [done|done| |done|].
  - unfold live in Hl. destruct (entry s (kv_key kv)) as [e|] eqn:Hent; [|done].
    destruct (is_expired _ _ _); [done|]. injection Hl as <- _. exact (proj2 Hs _ _ Hent).
  - rewrite He. destruct dl as [t|]; [right|by left]. unfold live in Hl.
    destruct (entry s (kv_key kv)); [|done]. destruct (is_expired _ _ _); simplify_eq.
    by eapply (swf_deadline s (proj1 Hs)).
Qed.

Lemma load_kv_ok `{StringHash} `{StoreOrder} now draw kv s :
  0 <= now < int64_max -> store_ok s -> obj_ok (kv_value kv) -> store_ok (load_kv now draw kv s).
Proof.
  intros Hnow Hs Hv. unfold load_kv. destruct (0 <? kv_expire_time_ms kv).
  - destruct (0 <? _); [|done]. by apply (keeps_set_with_expire now draw Hnow).
  - by apply (keeps_set now draw).
Qed.

Lemma load_all_ok `{StringHash} `{StoreOrder} now draw kvs s :
  0 <= now < int64_max -> store_ok s -> Forall kv_ok kvs -> store_ok (foldl (fun s kv => load_kv now draw kv s) s kvs).
Proof.
  intros Hnow Hs Hkv. revert s Hs. induction Hkv as [|kv kvs Hk _ IH]; intros s Hs; [done|].
  cbn [foldl]. apply IH, load_kv_ok; [done..|]. by apply kv_value_ok.
Qed.

(** A snapshot loaded into a store without visible keys. *)
Lemma load_snapshot `{StringHash} `{StoreOrder} `{HashOrder} `{Crc32} now0 now draw s e :
  store_ok s -> 0 <= now0 <= now -> now < int64_max ->
  (forall k o dl, live now0 s k = Some (o, dl) -> k <> [] /\ zlen k < 4261412864 /\ rdb_fits o) ->
  store_ok e -> (forall k, live now e k = None) -> size_ e = 0 ->
  zlen (get_all_objects_with_ttl now0 s) <= threshold e -> zlen (get_all_objects_with_ttl now0 s) < 4294967296 ->
  exists s', load now draw (rdb_file (get_all_objects_with_ttl now0 s)) e = (Some true, s') /\
    store_ok s' /\ forall k, live now s' k = live now s k.
Proof.
  intros Hs Hle Hnow Hfit Hwf Hemp Hz Hn H32. pose proof (snapshot_kv_ok now0 s Hs Hfit) as Hkv.
  eexists. split; [by apply load_file|]. split; [by apply load_all_ok; [lia|..]|]. intros k.
  rewrite (load_all_empty now draw ltac:(lia) _ e k (proj1 Hwf) Hemp Hz Hn); [apply snapshot_loaded; [apply Hs|lia]|].
  eapply Forall_impl; [exact Hkv|]. intros kv Hk. destruct (kv_expire_ok kv Hk); unfold int64_max in *; lia.
Qed.

(** C11: a snapshot that is saved at one time and loaded into an empty store at the
    same or a later time gives back exactly the keys that are visible then, with
    their values and deadlines, as long as they are fewer than the threshold of
    eviction and fit the 32-bit fields of the file. *)
Theorem rdb_roundtrip `{StringHash} `{StoreOrder} `{HashOrder} `{Crc32} now0 now draw s :
  store_ok s -> 0 <= now0 <= now -> now < int64_max ->
  (forall k o dl, live now0 s k = Some (o, dl) -> k <> [] /\ zlen k < 4261412864 /\ rdb_fits o) ->
  zlen (get_all_objects_with_ttl now0 s) <= threshold new_storage ->
  let '(r, s') := load now draw (rdb_file (get_all_objects_with_ttl now0 s)) new_storage in
  r = Some true /\ forall k, live now s' k = live now s k.
Proof.
  intros Hs Hle Hnow Hfit Hn.
  assert (threshold new_storage = 1800000) as Hth by by vm_compute.
  destruct (load_snapshot now0 now draw s new_storage Hs Hle Hnow Hfit) as (s' & -> & _ & Hl);
    [apply new_storage_ok|apply live_new_storage|by vm_compute|done|lia|done].
Qed.

Lemma rdb_roundtrip_witness :
  let s := @set_locked shash 5 (lit "k") (object_of_string (lit "v")) new_storage in
  let '(r, s') := @load shash sord 9 (fun n => n) plain_crc
    (@rdb_file plain_order plain_crc (@get_all_objects_with_ttl sord 5 s)) new_storage in
  r = Some true /\ forall k, @live shash 9 s' k = @live shash 9 s k.
Proof.
  apply (@rdb_roundtrip shash sord plain_order plain_crc 5 9 (fun n => n)).
  - unfold set_locked. apply store_ok_dirty, store_ok_insert; [|apply string_object_ok].
    apply store_ok_remove, new_storage_ok.
  - done.
  - done.
  - intros k o dl. destruct (@set_live shash 5 (lit "k") (object_of_string (lit "v")) new_storage) as [_ Hl];
      [apply new_storage_wf|]. rewrite Hl. unfold upd. case_decide as E.
    + intros [= <- <-]. subst k. done.
    + by rewrite live_new_storage.
  - by vm_compute.
Defined.

(** A file with a wrong magic number, version or checksum is refused, and the
    store is as it was. *)
Theorem load_refuses_damage `{StringHash} `{StoreOrder} `{Crc32} now draw file s :
  file <> [] ->
  be_val (take 4 file) <> kRdbMagic \/ take 4 (drop 4 file) <> kRdbVersion \/
  be_val (drop (length file - 4) file) <> calculate_crc32_for_range file (zlen file - 4) ->
  load now draw file s = (Some false, s).
Proof.
  intros Hne Hbad. unfold load. rewrite bool_decide_eq_false_2 by done.
  assert (forall l, (l ← read_bytes 4; mret (be_val l)) l =
    if (length l <? 4)%nat then RThrow else ROk (be_val (take 4 l)) (drop 4 l)) as Hr.
  { intros l. unfold mbind, rd_bind, read_bytes. by destruct (_ <? _)%nat. }
  fold read_uint32 in Hr. rewrite !Hr. destruct (Nat.ltb_spec (length file) 4); [done|].
  destruct (Z.eqb_spec (be_val (take 4 file)) kRdbMagic) as [Hm|]; [|done]. cbn [negb].
  unfold read_bytes at 1. destruct (_ <? _)%nat; [done|]. case_bool_decide as Hv; [|done]. cbn [negb].
  rewrite (proj2 (Z.ltb_ge _ _)) by (unfold zlen; lia). cbv zeta.
  assert (Z.to_nat (zlen file - 4) = length file - 4)%nat as -> by (unfold zlen; lia).
  rewrite Hr, length_drop, (proj2 (Nat.ltb_ge _ _)) by lia.
  rewrite (take_ge (drop _ _)) by (rewrite length_drop; lia).
  destruct Hbad as [|[|Hcrc]]; [done..|]. by rewrite (proj2 (Z.eqb_neq _ _) Hcrc).
Qed.

Lemma load_refuses_damage_witness :
  @load shash sord 9 (fun n => n) plain_crc (lit "REDIS0011") new_storage = (Some false, new_storage).
Proof.
  apply (@load_refuses_damage shash sord plain_crc 9 (fun n => n) (lit "REDIS0011") new_storage); [done|].
  left. by vm_compute.
Defined.

(** ** Saving *)

Lemma tmp_path_ne filepath : filepath <> tmp_path filepath.
Proof.
  unfold tmp_path. intros E. apply (f_equal length) in E. rewrite length_app in E. simpl in E. lia.
Qed.

(** The bytes of the writes among these calls. *)
Definition writes (calls : list stdio_call) : bytes :=
  calls ≫= fun c => match c with Fwrite bs _ => bs | _ => [] end.

Lemma save_calls_data data : writes (save_calls data) = data.
Proof.
  unfold writes, save_calls. cbn [mbind list_bind]. rewrite ?app_nil_l, ?app_nil_r, !take_drop.
  rewrite app_assoc. change 8%nat with (4 + 4)%nat. by rewrite <-drop_drop, <-app_assoc, !take_drop.
Qed.

(** As long as nothing is lost, what is in the file, in the buffer and still to be
    written is all of [data], and nothing is in the buffer after the checked flush. *)
Definition writing_inv (filepath data : bytes) (todo : list stdio_call) (pending : bytes) (f : fs) : Prop :=
  exists done c, save_calls data = done ++ todo /\ f !! tmp_path filepath = Some c /\
    c ++ pending ++ writes todo = data /\
    (last done = Some (Fflush true) -> pending = []).

(** What holds of the files at every step. *)
Definition save_inv (filepath data : bytes) (f0 : fs) (st : save_pc * fs) : Prop :=
  (forall p, p <> filepath -> p <> tmp_path filepath -> st.2 !! p = f0 !! p) /\
  match st.1 with
  | SDone true lost => lost = false -> st.2 !! filepath = Some data
  | SOpen | SDone false _ => st.2 !! filepath = f0 !! filepath
  | SWriting todo pending lost =>
      st.2 !! filepath = f0 !! filepath /\ (lost = false -> writing_inv filepath data todo pending st.2)
  | SSynced lost =>
      st.2 !! filepath = f0 !! filepath /\ (lost = false -> st.2 !! tmp_path filepath = Some data)
  end.

Lemma spill_inv filepath data todo x y f :
  writing_inv filepath data todo (x ++ y) f -> writing_inv filepath data todo y (append_tmp filepath x f).
Proof.
  intros (dn & c & Hd & Hc & Hall & Hfl). exists dn, (c ++ x). unfold append_tmp. rewrite Hc, lookup_insert_eq.
  split_and!; [done..| |]; [by rewrite <-Hall, <-!app_assoc|].
  intros Hl. specialize (Hfl Hl). by destruct x.
Qed.

Lemma write_inv filepath data bs checked todo pending f :
  writing_inv filepath data (Fwrite bs checked :: todo) pending f -> writing_inv filepath data todo (pending ++ bs) f.
Proof.
  intros (dn & c & Hd & Hc & Hall & _). exists (dn ++ [Fwrite bs checked]), c.
  split_and!; [by rewrite <-app_assoc|done| |by rewrite last_snoc]. cbn in Hall. by rewrite <-app_assoc.
Qed.

Lemma flush_inv filepath data checked todo pending f :
  writing_inv filepath data (Fflush checked :: todo) pending f ->
  writing_inv filepath data todo [] (append_tmp filepath pending f).
Proof.
  intros (dn & c & Hd & Hc & Hall & _). exists (dn ++ [Fflush checked]), (c ++ pending).
  unfold append_tmp. rewrite Hc, lookup_insert_eq.
  split_and!; [by rewrite <-app_assoc|done| |done]. cbn in Hall. by rewrite <-app_assoc.
Qed.

(** The last call before [fsync] is a flush that succeeded. *)
Lemma sync_inv filepath data pending f :
  writing_inv filepath data [Fsync] pending f -> f !! tmp_path filepath = Some data.
Proof.
  intros (dn & c & Hd & -> & Hall & Hfl). change (save_calls data) with (removelast (save_calls data) ++ [Fsync]) in Hd.
  apply app_inj_tail in Hd as [<- _]. rewrite (Hfl eq_refl) in Hall. cbn in Hall. by rewrite app_nil_r in Hall; subst.
Qed.

(** A flush that fails and leaves the buffer as it is loses nothing. *)
Lemma kept_inv filepath data todo pending f :
  writing_inv filepath data (Fflush false :: todo) pending f -> writing_inv filepath data todo pending f.
Proof.
  intros (dn & c & Hd & Hc & Hall & _). exists (dn ++ [Fflush false]), c.
  split_and!; [by rewrite <-app_assoc|done|done|by rewrite last_snoc].
Qed.

Lemma save_step_inv filepath data f0 st st' :
  save_step filepath data st st' -> save_inv filepath data f0 st -> save_inv filepath data f0 st'.
Proof.
  intros Hstep [Ho Hp]. pose proof (tmp_path_ne filepath).
  assert (forall r f p, p <> tmp_path filepath -> remove_tmp filepath r f !! p = f !! p) as Hrm.
  { intros [] f p ?; [by apply lookup_delete_ne|done]. }
  assert (forall x f p, p <> tmp_path filepath -> append_tmp filepath x f !! p = f !! p) as Hap.
  { intros x f p ?. by apply lookup_insert_ne. }
  destruct Hstep as [|f|todo x y lost f|bs bs' chk todo pending lost f Hlen Hbs|u v kept todo pending lost f
    |chk todo pending lost f|kept todo pending lost f|call todo pending lost f removed|pending lost f|f lost d Hd|f lost removed];
    cbn [fst snd] in *; (split; cbn [fst snd];
    [intros p Hp1 Hp2; rewrite ?Hrm, ?Hap, ?lookup_insert_ne, ?lookup_delete_ne by done; by apply Ho|]).
  - done.
  - rewrite lookup_insert_ne by done. split; [done|]. intros _. exists [], [].
    rewrite lookup_insert_eq. split_and!; try done. apply save_calls_data.
  - destruct Hp as [Hp Hw]. rewrite Hap by done. split; [done|]. intros Hl. by apply spill_inv, Hw.
  - destruct Hp as [Hp Hw]. split; [done|]. intros Hl. rewrite (Hbs Hl). by eapply write_inv, Hw.
  - by destruct Hp.
  - destruct Hp as [Hp Hw]. rewrite Hap by done. split; [done|]. intros Hl. by eapply flush_inv, Hw.
  - destruct Hp as [Hp Hw]. split; [done|]. intros [Hl Hk]%orb_false_iff. destruct kept; [|done]. by apply kept_inv, Hw.
  - rewrite Hrm by done. by destruct Hp.
  - destruct Hp as [Hp Hw]. split; [done|]. intros Hl. by eapply sync_inv, Hw.
  - intros Hl. rewrite lookup_insert_eq. destruct Hp as [_ Hp]. specialize (Hp Hl). congruence.
  - rewrite Hrm by done. by destruct Hp.
Qed.

(** Every moment of a [save] keeps the invariant. *)
Lemma save_trace_inv filepath data f0 st :
  rtc (save_step filepath data) (SOpen, f0) st -> save_inv filepath data f0 st.
Proof.
  intros Hr. apply (rtc_ind_r (R := save_step filepath data) (save_inv filepath data f0) (SOpen, f0)); [done| |done].
  intros st1 st2 _. apply save_step_inv.
Qed.

Lemma save_done filepath data f0 f :
  rtc (save_step filepath data) (SOpen, f0) (SDone true false, f) -> f !! filepath = Some data.
Proof. intros [_ Hf]%save_trace_inv. exact (Hf eq_refl). Qed.

(** A [save] in which no call fails. *)
Lemma save_succeeds filepath data f0 :
  rtc (save_step filepath data) (SOpen, f0)
    (SDone true false, <[filepath := data]> (delete (tmp_path filepath) f0)).
Proof.
  pose proof (save_calls_data data) as Hall. unfold save_calls in Hall. cbn [writes mbind list_bind] in Hall.
  eapply rtc_l; [apply step_open|]. unfold save_calls.
  do 3 (eapply rtc_l; [by apply step_write|]). eapply rtc_l; [apply step_flush|].
  eapply rtc_l; [by apply step_write|]. eapply rtc_l; [apply step_flush|].
  eapply rtc_l; [by apply step_write|]. do 2 (eapply rtc_l; [apply step_flush|]). eapply rtc_l; [apply step_sync|].
  eapply rtc_l; [apply step_rename|].
  { unfold append_tmp. rewrite !lookup_insert_eq. cbn [default id]. reflexivity. }
  unfold append_tmp. rewrite !insert_insert_eq, delete_insert_eq. cbn [app].
  rewrite ?app_nil_r, <-!app_assoc. rewrite ?app_nil_l, ?app_nil_r in Hall. rewrite Hall. apply rtc_refl.
Qed.

(** C12: saving is atomic. At every moment of [save], and so when the process dies at
    any moment, the target holds its old contents until [save] returns true; a save
    that fails, at whatever call, leaves it alone, and no other file than the temporary
    one is touched. When [save] has returned true the target holds all the new bytes,
    unless an earlier call lost bytes whose result the code does not look at: the
    [fwrite] of the version, the [fflush] after the keys or after the checksum, or the
    seeks of the checksum. (With such a loss a file that is cut off replaces the good
    one: [ignored_flush_truncates].) *)
Theorem save_atomic filepath data f0 pc f :
  rtc (save_step filepath data) (SOpen, f0) (pc, f) ->
  (forall p, p <> filepath -> p <> tmp_path filepath -> f !! p = f0 !! p) /\
  match pc with
  | SDone true lost => lost = false -> f !! filepath = Some data
  | _ => f !! filepath = f0 !! filepath
  end.
Proof.
  intros [Ho Hp]%save_trace_inv.
  split; [done|]. destruct pc as [|todo pending lost|lost|[] lost]; cbn [fst snd] in Hp; first [exact Hp|exact (proj1 Hp)].
Qed.

Lemma save_atomic_witness :
  let f0 := {[lit "dump.rdb" := lit "old"]} in
  (<[lit "dump.rdb" := lit "new"]> (delete (tmp_path (lit "dump.rdb")) f0) : fs) !! lit "dump.rdb" = Some (lit "new").
Proof.
  intros f0.
  exact (proj2 (save_atomic (lit "dump.rdb") (lit "new") f0 (SDone true false)
    (<[lit "dump.rdb" := lit "new"]> (delete (tmp_path (lit "dump.rdb")) f0))
    (save_succeeds (lit "dump.rdb") (lit "new") f0)) eq_refl).
Defined.

(** The flush after the keys fails and its result is not looked at: [save] returns true,
    and the file that replaces the old one lacks what was in the buffer, which can be
    all but the end marker and the checksum (of the few bytes that are there). *)
Theorem ignored_flush_truncates filepath data crc f0 :
  length crc = length (drop 1 (drop (length (drop 8 data) - 5) (drop 8 data))) ->
  rtc (save_step filepath data) (SOpen, f0)
    (SDone true true,
     <[filepath := take 1 (drop (length (drop 8 data) - 5) (drop 8 data)) ++ crc]>
       (delete (tmp_path filepath) f0)).
Proof.
  intros Hcrc. set (eof := take 1 _).
  eapply rtc_l; [apply step_open|]. unfold save_calls.
  do 3 (eapply rtc_l; [by apply step_write|]). eapply rtc_l; [apply (step_flush_ignored _ _ false)|].
  eapply rtc_l; [by apply (step_write _ _ _ eof)|]. eapply rtc_l; [apply step_flush|].
  eapply rtc_l; [by apply (step_write _ _ _ crc)|]. do 2 (eapply rtc_l; [apply step_flush|]).
  eapply rtc_l; [apply step_sync|]. eapply rtc_l; [apply step_rename|].
  { unfold append_tmp. rewrite !lookup_insert_eq. cbn [default id]. reflexivity. }
  unfold append_tmp. rewrite !insert_insert_eq, delete_insert_eq. cbn [app].
  rewrite ?app_nil_r. apply rtc_refl.
Qed.

(** ** Background saves *)

(** What holds at every step: the flag counts the background saves, and the
    status is IN_PROGRESS only while one is between its two status stores. *)
Definition bg_inv (b : bg_state) : Prop :=
  (bg_threads b = [] /\ bgsave_in_progress_ (bg_stats b) = false \/
   exists p, bg_threads b = [p] /\ bgsave_in_progress_ (bg_stats b) = true) /\
  (last_bgsave_status (bg_stats b) = IN_PROGRESS ->
   bg_threads b = [Saving] \/ exists r, bg_threads b = [Returned r]) /\
  last_bgsave_time_sec (bg_stats b) = default 0 (fst <$> head (bg_saves b)) /\
  last_bgsave_keys (bg_stats b) = default 0 (snd <$> head (bg_saves b)) /\
  total_rdb_saved_keys (bg_stats b) = sum_sizes (bg_saves b).*2.

Lemma bg_inv_single st ths l i p :
  bg_inv (mkBg st ths l) -> ths !! i = Some p -> ths = [p] /\ i = 0%nat /\ bgsave_in_progress_ st = true.
Proof.
  intros (Hc & _) Hi. cbn in Hc. destruct Hc as [[-> _]|(q & -> & Hf)]; [by destruct i|].
  by destruct i as [|[]]; simplify_eq/=.
Qed.

Lemma save_stats_fields t e st :
  bgsave_in_progress_ (save_stats t e st) = bgsave_in_progress_ st /\
  (last_bgsave_status (save_stats t e st) = IN_PROGRESS -> last_bgsave_status st = IN_PROGRESS).
Proof. by destruct e. Qed.

Lemma save_stats_counts t e st l :
  last_bgsave_time_sec st = default 0 (fst <$> head l) ->
  last_bgsave_keys st = default 0 (snd <$> head l) ->
  total_rdb_saved_keys st = sum_sizes l.*2 ->
  last_bgsave_time_sec (save_stats t e st) = default 0 (fst <$> head (note_save t e l)) /\
  last_bgsave_keys (save_stats t e st) = default 0 (snd <$> head (note_save t e l)) /\
  total_rdb_saved_keys (save_stats t e st) = sum_sizes (note_save t e l).*2.
Proof.
  intros Ht Hk Hs. destruct e; [done|done|]. cbn in *. split_and!; [done..|]. unfold sum_sizes in *. lia.
Qed.

Lemma bg_step_inv b b' : bg_step b b' -> bg_inv b -> bg_inv b'.
Proof.
  intros Hstep Hi.
  destruct Hstep as [st st' ths l Hst|st st' ths l Hst|st ths l i Hp|st ths l i t e Hp
    |st ths l i r Hp|st ths l i Hp|st ths l t e];
    try (destruct (bg_inv_single _ _ _ _ _ Hi Hp) as (-> & -> & Hf));
    pose proof Hi as (Hc & Hstat & Ht & Hk & Hs); cbn [bg_stats bg_threads bg_saves] in *.
  - unfold claim_bgsave in Hst. destruct (bgsave_in_progress_ st) eqn:Hf; simplify_eq.
    destruct Hc as [[-> _]|(? & ? & ?)]; [|done]. split; [right; by exists Claimed|]. split; [|done].
    intros E. destruct (Hstat E) as [|[]]; done.
  - unfold claim_bgsave in Hst. by destruct (bgsave_in_progress_ st); simplify_eq.
  - split; [right; by exists Saving|]. split; [by left|]. done.
  - destruct (save_stats_fields t e st) as [Hf' Hst].
    split; [right; eexists; split; [done|by rewrite <-Hf]|]. split; [intros; right; by eexists|].
    by apply save_stats_counts.
  - split; [right; by exists Stored|]. split; [by destruct r|done].
  - split; [by left|]. split; [|done]. intros E. destruct (Hstat E) as [|[]]; done.
  - destruct (save_stats_fields t e st) as [Hf' Hst]. unfold bg_inv. cbn [bg_stats bg_threads bg_saves].
    rewrite Hf'. split; [done|]. split; [by intros ?%Hst%Hstat|]. by apply save_stats_counts.
Qed.

(** C25: however the steps of BGSAVE, SAVE and the snapshot threads interleave, at
    most one background save is under way and the flag says whether one is, so
    that a SAVE in between does not clear it; BGSAVE is refused exactly then; the
    status is IN_PROGRESS only while a background save is under way; LASTSAVE and
    the counts of keys are those of the saves that succeeded. *)
Theorem bgsave_consistent b :
  rtc bg_step (mkBg new_stats [] []) b ->
  (length (bg_threads b) = if bgsave_in_progress_ (bg_stats b) then 1 else 0)%nat /\
  (fst (claim_bgsave (bg_stats b)) = false <-> bg_threads b <> []) /\
  (last_bgsave_status (bg_stats b) = IN_PROGRESS -> bg_threads b <> []) /\
  last_bgsave_time_sec (bg_stats b) = default 0 (fst <$> head (bg_saves b)) /\
  last_bgsave_keys (bg_stats b) = default 0 (snd <$> head (bg_saves b)) /\
  total_rdb_saved_keys (bg_stats b) = sum_sizes (bg_saves b).*2.
Proof.
  intros Hr. assert (bg_inv b) as (Hc & Hstat & Ht & Hk & Hs).
  { apply (rtc_ind_r (R := bg_step) bg_inv (mkBg new_stats [] [])); [| |done].
    - split; [by left|done].
    - intros b1 b2 _. apply bg_step_inv. }
  unfold claim_bgsave. split_and!; try done.
  - by destruct Hc as [[-> ->]|(p & -> & ->)].
  - by destruct Hc as [[-> ->]|(p & -> & ->)].
  - intros E. destruct (Hstat E) as [->|[? ->]]; done.
Qed.

Lemma bgsave_consistent_witness :
  let st := save_stats 7 (Saved 3) (begin_bgsave (claim_bgsave new_stats).2) in
  fst (claim_bgsave st) = false.
Proof.
  refine (proj2 (proj1 (proj2 (bgsave_consistent
    (mkBg (save_stats 7 (Saved 3) (begin_bgsave (claim_bgsave new_stats).2)) [Saving] [(7, 3)]) _))) _);
    [|done].
  eapply rtc_l; [by apply bg_claim|]. eapply rtc_l; [by apply (bg_begin _ _ _ 0)|].
  apply rtc_once, (bg_save _ [Saving] [] 7 (Saved 3)).
Defined.
End RdbProps.
