(* ===== verification/Slots.v ===== *)
(** * Slots of keys: [crc16] and [ClusterServer::keyToSlot] of cluster/cluster_server.cpp

    The table and the loops as they are, a bitwise CRC-16 to compare them with,
    and what the slot of a key is. *)

From S2P Require Import Prelude.
From stdpp Require Import options.

Module Slots.

Definition crc16_table : list Z := [
  0; 4129; 8258; 12387; 16516; 20645; 24774; 28903; 33032; 37161; 41290; 45419;
  49548; 53677; 57806; 61935; 4657; 528; 12915; 8786; 21173; 17044; 29431; 25302;
  37689; 33560; 45947; 41818; 54205; 50076; 62463; 58334; 9314; 13379; 1056; 5121;
  25830; 29895; 17572; 21637; 42346; 46411; 34088; 38153; 58862; 62927; 50604; 54669;
  13907; 9842; 5649; 1584; 30423; 26358; 22165; 18100; 46939; 42874; 38681; 34616;
  63455; 59390; 55197; 51132; 18628; 22757; 26758; 30887; 2112; 6241; 10242; 14371;
  51660; 55789; 59790; 63919; 35144; 39273; 43274; 47403; 23285; 19156; 31415; 27286;
  6769; 2640; 14899; 10770; 56317; 52188; 64447; 60318; 39801; 35672; 47931; 43802;
  27814; 31879; 19684; 23749; 11298; 15363; 3168; 7233; 60846; 64911; 52716; 56781;
  44330; 48395; 36200; 40265; 32407; 28342; 24277; 20212; 15891; 11826; 7761; 3696;
  65439; 61374; 57309; 53244; 48923; 44858; 40793; 36728; 37256; 33193; 45514; 41451;
  53516; 49453; 61774; 57711; 4224; 161; 12482; 8419; 20484; 16421; 28742; 24679;
  33721; 37784; 41979; 46042; 49981; 54044; 58239; 62302; 689; 4752; 8947; 13010;
  16949; 21012; 25207; 29270; 46570; 42443; 38312; 34185; 62830; 58703; 54572; 50445;
  13538; 9411; 5280; 1153; 29798; 25671; 21540; 17413; 42971; 47098; 34713; 38840;
  59231; 63358; 50973; 55100; 9939; 14066; 1681; 5808; 26199; 30326; 17941; 22068;
  55628; 51565; 63758; 59695; 39368; 35305; 47498; 43435; 22596; 18533; 30726; 26663;
  6336; 2273; 14466; 10403; 52093; 56156; 60223; 64286; 35833; 39896; 43963; 48026;
  19061; 23124; 27191; 31254; 2801; 6864; 10931; 14994; 64814; 60687; 56684; 52557;
  48554; 44427; 40424; 36297; 31782; 27655; 23652; 19525; 15522; 11395; 7392; 3265;
  61215; 65342; 53085; 57212; 44955; 49082; 36825; 40952; 28183; 32310; 20053; 24180;
  11923; 16050; 3793; 7920
].

(** [char] may be signed; only its low eight bits reach the index. *)
Definition crc16_byte (crc : Z) (c : ascii) : Z :=
  Z.land (Z.lxor (Z.shiftl crc 8)
    (nth (Z.to_nat (Z.land (Z.lxor crc (byte_val c)) 255)) crc16_table 0)) 65535.

Definition crc16 (buf : bytes) : Z := foldl crc16_byte 0 buf.

(** The loop of [keyToSlot] over the characters from position [i], with
    [start] and [end] (-1: not found). *)
Fixpoint find_tag (l : bytes) (i start : Z) : Z * Z :=
  match l with
  | [] => (start, -1)
  | c :: l =>
      if bool_decide (c = "{"%char) then find_tag l (i + 1) (i + 1)
      else if bool_decide (c = "}"%char) && negb (start =? -1) then (start, i)
      else find_tag l (i + 1) start
  end.

Definition keyToSlot (key : bytes) : Z :=
  if bool_decide (key = []) then 0
  else
    let '(start, fin) := find_tag key 0 (-1) in
    if negb (start =? -1) && negb (fin =? -1) && (start <? fin)
    then Z.land (crc16 (take (Z.to_nat (fin - start)) (drop (Z.to_nat start) key))) 16383
    else Z.land (crc16 key) 16383.

(** ** CRC-16/XMODEM, bit by bit *)

Definition crc_bit (x : Z) : Z :=
  let y := Z.land (Z.shiftl x 1) 65535 in
  if Z.testbit x 15 then Z.lxor y 4129 else y.

(** The polynomial of a byte: what [crc16_table] should hold. *)
Definition crc_poly (b : Z) : Z := Nat.iter 8 crc_bit (Z.shiftl b 8).

Definition xmodem (buf : bytes) : Z :=
  foldl (fun crc c => Nat.iter 8 crc_bit (Z.lxor crc (Z.shiftl (byte_val c) 8))) 0 buf.

(** ** Lemmas *)

Lemma table_is_crc : crc16_table = crc_poly <$> seqZ 0 256.
Proof. by vm_compute. Qed.

Lemma crc16_snoc l c : crc16 (l ++ [c]) = crc16_byte (crc16 l) c.
Proof. unfold crc16. by rewrite foldl_app. Qed.

(** Only the low byte of the state reaches the next one. *)
Lemma crc16_byte_low a b c :
  Z.land a 255 = Z.land b 255 -> crc16_byte a c = crc16_byte b c.
Proof.
  intros E. unfold crc16_byte.
  assert (Z.land (Z.lxor a (byte_val c)) 255 = Z.land (Z.lxor b (byte_val c)) 255) as ->.
  { apply Z.bits_inj'. intros n Hn. apply (f_equal (fun z => Z.testbit z n)) in E.
    rewrite !Z.land_spec, !Z.lxor_spec in *. destruct (Z.testbit 255 n); [|by rewrite !andb_false_r].
    rewrite !andb_true_r in *. by rewrite E. }
  apply Z.bits_inj'. intros n Hn. rewrite !Z.land_spec, !Z.lxor_spec, !Z.shiftl_spec by done.
  destruct (Z.testbit 65535 n) eqn:Hb; [|by rewrite !andb_false_r]. f_equal. f_equal.
  assert (n < 16). { destruct (Z.lt_ge_cases n 16); [done|].
    rewrite (Z.bits_above_log2 65535 n) in Hb; [done|lia|]. apply (Z.lt_le_trans _ 16); [done|lia]. }
  destruct (Z.lt_ge_cases (n - 8) 0); [by rewrite !Z.testbit_neg_r|].
  apply (f_equal (fun z => Z.testbit z (n - 8))) in E. rewrite !Z.land_spec in E.
  assert (Z.testbit 255 (n - 8) = true) as Ht.
  { assert (exists k, n - 8 = Z.of_nat k /\ (k < 8)%nat) as (k & -> & Hk).
    { exists (Z.to_nat (n - 8)). lia. } do 8 (destruct k as [|k]; [done|]). lia. }
  by rewrite Ht, !andb_true_r in E.
Qed.

Lemma crc16_prefix l1 l2 m :
  m <> [] -> Z.land (crc16 l1) 255 = Z.land (crc16 l2) 255 -> crc16 (l1 ++ m) = crc16 (l2 ++ m).
Proof.
  destruct m as [|c m]; [done|]. intros _ E. unfold crc16 at 1 2. rewrite !foldl_app. cbn [foldl].
  fold (crc16 l1) (crc16 l2). by rewrite (crc16_byte_low _ _ c E).
Qed.

Lemma land_range a n : 0 <= Z.land a (Z.ones n) < 2 ^ n \/ n < 0.
Proof.
  destruct (Z.lt_ge_cases n 0); [by right|]. left. rewrite Z.land_ones by done.
  apply Z.mod_pos_bound, Z.pow_pos_nonneg; lia.
Qed.

Lemma slot_range a : 0 <= Z.land a 16383 <= 16383.
Proof. destruct (land_range a 14) as [Hr|]; [|done]. change (Z.ones 14) with 16383 in Hr. lia. Qed.

(** ** Tags *)

Definition no_brace (c : ascii) (l : bytes) : Prop := Forall (fun d => d <> c) l.

Lemma find_tag_open pre l i :
  no_brace "{" pre -> find_tag (pre ++ l) i (-1) = find_tag l (i + zlen pre) (-1).
Proof.
  intros Hp. revert i. induction Hp as [|c pre Hc Hp IH]; intros i; cbn [app find_tag].
  - f_equal. unfold zlen. cbn. lia.
  - rewrite bool_decide_eq_false_2 by done. cbn [Z.eqb negb]. rewrite andb_false_r, IH.
    f_equal. rewrite zlen_cons. lia.
Qed.

Lemma find_tag_close tag l i start :
  no_brace "{" tag -> no_brace "}" tag ->
  find_tag (tag ++ "}"%char :: l) i start =
    if start =? -1 then find_tag l (i + zlen tag + 1) start else (start, i + zlen tag).
Proof.
  intros Ho. revert i. induction Ho as [|c tag Hc Ho IH]; intros i Hcl; cbn [app find_tag].
  - rewrite bool_decide_eq_false_2 by done. rewrite bool_decide_eq_true_2 by done. cbn [andb].
    unfold zlen. cbn [length]. rewrite !Z.add_0_r. by destruct (start =? -1).
  - inversion Hcl; subst. rewrite !bool_decide_eq_false_2 by done. cbn [andb].
    rewrite IH, zlen_cons by done. destruct (start =? -1); f_equal; lia.
Qed.

Lemma find_tag_none l i : no_brace "{" l -> find_tag l i (-1) = (-1, -1).
Proof.
  intros Hl. rewrite <-(app_nil_r l). by rewrite find_tag_open.
Qed.

Lemma keyToSlot_whole key : no_brace "{" key -> key <> [] -> keyToSlot key = Z.land (crc16 key) 16383.
Proof.
  intros Hk Hne. unfold keyToSlot. rewrite bool_decide_eq_false_2 by done.
  by rewrite find_tag_none.
Qed.

Lemma keyToSlot_tag pre tag post :
  no_brace "{" pre -> no_brace "{" tag -> no_brace "}" tag -> tag <> [] ->
  keyToSlot (pre ++ "{"%char :: tag ++ "}"%char :: post) = Z.land (crc16 tag) 16383.
Proof.
  intros Hp Ho Hc Hne. unfold keyToSlot. rewrite bool_decide_eq_false_2 by (by destruct pre).
  rewrite find_tag_open by done. cbn [find_tag]. rewrite bool_decide_eq_true_2 by done.
  pose proof (zlen_nonneg pre). assert (0 < zlen tag) by (destruct tag; [done|rewrite zlen_cons; pose proof (zlen_nonneg tag); lia]).
  rewrite find_tag_close by done. rewrite (proj2 (Z.eqb_neq _ _)) by lia. cbn [negb andb].
  rewrite !(proj2 (Z.eqb_neq _ _)) by lia. rewrite (proj2 (Z.ltb_lt _ _)) by lia. cbn [negb andb].
  do 2 f_equal. replace (Z.to_nat (0 + zlen pre + 1)) with (length (pre ++ ["{"%char]))
    by (rewrite length_app; unfold zlen; simpl; lia).
  replace (pre ++ "{"%char :: tag ++ "}"%char :: post) with
    ((pre ++ ["{"%char]) ++ tag ++ "}"%char :: post) by (by rewrite <-app_assoc).
  rewrite drop_app_length.
  replace (Z.to_nat _) with (length tag) by (unfold zlen; lia). apply take_app_length.
Qed.

(** ** Every slot is reached *)

(** The position of each value among the low bytes of the table. *)
Definition low_inverse : list Z :=
  Eval vm_compute in
    ((fun v => default 0 (Z.of_nat ∘ fst <$> list_find (fun x => Z.land x 255 = v) crc16_table))
      <$> seqZ 0 256).

Definition low_index (v : Z) : Z := nth (Z.to_nat v) low_inverse 0.

(** A key of two bytes in the slot. *)
Definition slot_key (slot : Z) : bytes :=
  let t := low_index (Z.land slot 255) in
  let lo := Z.lxor (Z.shiftr slot 8) (Z.shiftr (nth (Z.to_nat t) crc16_table 0) 8) in
  [ascii_of_N (Z.to_N (low_index lo)); ascii_of_N (Z.to_N (Z.lxor lo t))].

Lemma slot_keys slot : 0 <= slot <= 16383 -> keyToSlot (slot_key slot) = slot.
Proof.
  intros Hs. assert (slot = 256 * (slot / 256) + slot mod 256) as Hd by (apply Z.div_mod; lia).
  assert (0 <= slot mod 256 < 256) by (apply Z.mod_pos_bound; lia).
  assert (0 <= slot / 256 < 64) by lia.
  assert (forallb (fun hi => forallb (fun lo => keyToSlot (slot_key (hi * 256 + lo)) =? hi * 256 + lo)
            (seqZ 0 256)) (seqZ 0 64) = true) as E by by vm_compute.
  rewrite forallb_forall in E. specialize (E (slot / 256)). rewrite forallb_forall in E.
  specialize (E ltac:(apply list_elem_of_In, elem_of_seqZ; lia) (slot mod 256)).
  replace (slot / 256 * 256 + slot mod 256) with slot in E by lia. apply Z.eqb_eq, E. apply list_elem_of_In, elem_of_seqZ. lia.
Qed.

(** C38: the slot of a key is one of the 16384 slots, each slot has keys, and the
    slot is that of the key's tag alone when it has one, so that keys with the
    same tag are in the same slot; otherwise all bytes of the key count. *)
Theorem slot_of_key key pre tag post slot :
  key <> [] -> no_brace "{" key ->
  no_brace "{" pre -> no_brace "{" tag -> no_brace "}" tag -> tag <> [] -> 0 <= slot <= 16383 ->
  0 <= keyToSlot key <= 16383 /\
  (exists k, length k = 2%nat /\ keyToSlot k = slot) /\
  keyToSlot (pre ++ lit "{" ++ tag ++ lit "}" ++ post) = keyToSlot tag /\
  keyToSlot key = Z.land (crc16 key) 16383.
Proof.
  intros Hne Hk Hp Ho Hc Ht Hs. rewrite (keyToSlot_whole key), (keyToSlot_whole tag) by done.
  split; [apply slot_range|]. split; [|split; [by apply keyToSlot_tag|done]].
  exists (slot_key slot). split; [done|]. by apply slot_keys.
Qed.

Lemma slot_of_key_witness :
  keyToSlot (lit "user:{42}.name") = keyToSlot (lit "42").
Proof.
  refine (proj1 (proj2 (proj2 (slot_of_key (lit "k") (lit "user:") (lit "42") (lit ".name") 7
    _ _ _ _ _ _ _)))); try (by repeat constructor); done.
Defined.

(** [crc16] is not the CRC-16 of Redis although its table is: the loop takes
    the index from the low byte of the state instead of the high one. Only eight
    bits of what was read count for what follows: two prefixes with the same low
    byte give the same slot whatever comes after them. *)
Theorem crc16_not_redis l1 l2 m :
  m <> [] -> Z.land (crc16 l1) 255 = Z.land (crc16 l2) 255 ->
  crc16 (l1 ++ m) = crc16 (l2 ++ m) /\
  crc16_table = crc_poly <$> seqZ 0 256 /\
  xmodem (lit "123456789") = 12739 /\ crc16 (lit "123456789") = 11890 /\
  Z.land (xmodem (lit "foo")) 16383 = 12182 /\ keyToSlot (lit "foo") = 16008.
Proof. intros Hm E. split; [by apply crc16_prefix|]. split; [apply table_is_crc|]. by vm_compute. Qed.

Lemma crc16_not_redis_witness : crc16 (lit "ai" ++ lit ":1") = crc16 (lit "ia" ++ lit ":1").
Proof. apply (crc16_not_redis (lit "ai") (lit "ia") (lit ":1")); done. Defined.

End Slots.
