(* ===== verification/Cluster.v ===== *)
(** * The cluster node: cluster/cluster_node.h, cluster_state.cpp and cluster_server.cpp

    [ClusterNode] objects are shared through [shared_ptr]: they live in a heap
    and the maps of [ClusterState] hold their addresses. Every update of a node
    goes through the heap, so a slot map and the table of names see it alike.
    [my_node_] is null exactly as long as the cluster is not enabled. What a
    node broadcasts is appended to [outbox]. *)

From S2P Require Import Prelude Base Resp Slots.
From stdpp Require Import options.

Module Cluster.
Import Text Resp Slots.

(** ** cluster_common.h *)

Inductive NodeRole := kMaster | kReplica | kNodeUnknown.
Inductive ReplicationState := rNone | rConnect | rHandshake | rSync | rConnected.
Inductive SlotMigrationStatus := mgNone | mgMigrating | mgImporting.
Inductive FailoverState :=
  | kNoFailover | kWaitStart | kWaitAuth | kFailoverInProgress | kFailoverCompleted
  | kFailoverTimeout.

#[global] Instance NodeRole_eq : EqDecision NodeRole.
Proof. solve_decision. Defined.
#[global] Instance FailoverState_eq : EqDecision FailoverState.
Proof. solve_decision. Defined.
#[global] Instance SlotMigrationStatus_eq : EqDecision SlotMigrationStatus.
Proof. solve_decision. Defined.

(** [NodeFlags::kFail], [NodeFlags::kPfail]. *)
Definition kFail : Z := 1.
Definition kPfail : Z := 2.

Record SlotMigrationInfo := mkMig {
  mg_slot : Z;
  mg_status : SlotMigrationStatus;
  mg_source : bytes;
  mg_target : bytes
}.

Definition no_migration : SlotMigrationInfo := mkMig (-1) mgNone [] [].

Record VoteInfo := mkVote { vote_node : bytes; vote_epoch : Z; vote_offset : Z }.

(** The address of a node. *)
Abbreviation nid := nat.

(** [NodeInfo] and the fields of [ClusterNode]; the times of the heartbeat are
    left out. *)
Record NodeInfo := mkInfo {
  name : bytes;
  ip : bytes;
  port : Z;
  replicaof_ip : bytes;
  replicaof_port : Z;
  role : NodeRole;
  flags : Z;
  config_epoch : Z
}.

Record ClusterNode := mkNode {
  info_ : NodeInfo;
  slots_ : list Z;
  connected_ : bool;
  replication_state_ : ReplicationState;
  master_node_ : option nid;      (** [weak_ptr] *)
  master_repl_offset_ : Z;
  failure_count_ : Z;
  first_pfail_time_ : Z;
  fail_time_ : Z;
  failover_state_ : FailoverState;
  failover_epoch_ : Z;
  votes_ : list VoteInfo;
  failover_start_time_ : Z
}.

(** ** cluster_node.h, cluster_node.cpp *)

Definition new_node (nm i : bytes) (p : Z) (r : NodeRole) : ClusterNode :=
  mkNode (mkInfo nm i p [] 0 r 0 0) [] false rNone None 0 0 0 0 kNoFailover 0 [] 0.

Definition getName (n : ClusterNode) : bytes := name (info_ n).
Definition getConfigEpoch (n : ClusterNode) : Z := config_epoch (info_ n).
Definition isMaster (n : ClusterNode) : bool := bool_decide (role (info_ n) = kMaster).
Definition node_isReplica (n : ClusterNode) : bool := bool_decide (role (info_ n) = kReplica).
Definition hasFlags (f : Z) (n : ClusterNode) : bool := negb (Z.land (flags (info_ n)) f =? 0).
Definition isFailed (n : ClusterNode) : bool := hasFlags kFail n.
Definition isPfailed (n : ClusterNode) : bool := hasFlags kPfail n.
Definition getVoteCount (n : ClusterNode) : Z := zlen (votes_ n).

Definition set_info (f : NodeInfo -> NodeInfo) (n : ClusterNode) : ClusterNode :=
  mkNode (f (info_ n)) (slots_ n) (connected_ n) (replication_state_ n) (master_node_ n)
    (master_repl_offset_ n) (failure_count_ n) (first_pfail_time_ n) (fail_time_ n)
    (failover_state_ n) (failover_epoch_ n) (votes_ n) (failover_start_time_ n).

Definition setRole (r : NodeRole) : ClusterNode -> ClusterNode :=
  set_info (fun i => mkInfo (name i) (ip i) (port i) (replicaof_ip i) (replicaof_port i) r
                       (flags i) (config_epoch i)).

Definition setFlags (f : Z) : ClusterNode -> ClusterNode :=
  set_info (fun i => mkInfo (name i) (ip i) (port i) (replicaof_ip i) (replicaof_port i)
                       (role i) f (config_epoch i)).

Definition addFlags (f : Z) (n : ClusterNode) : ClusterNode :=
  setFlags (Z.lor (flags (info_ n)) f) n.

Definition clearFlags (f : Z) (n : ClusterNode) : ClusterNode :=
  setFlags (Z.ldiff (flags (info_ n)) f) n.

Definition setConfigEpoch (e : Z) : ClusterNode -> ClusterNode :=
  set_info (fun i => mkInfo (name i) (ip i) (port i) (replicaof_ip i) (replicaof_port i)
                       (role i) (flags i) e).

(** [setMaster] also makes the node a replica. *)
Definition setMaster (i0 : bytes) (p : Z) : ClusterNode -> ClusterNode :=
  set_info (fun i => mkInfo (name i) (ip i) (port i) i0 p kReplica (flags i) (config_epoch i)).

(** [replicaof_ip.clear(); replicaof_port = 0]. *)
Definition clear_replicaof : ClusterNode -> ClusterNode :=
  set_info (fun i => mkInfo (name i) (ip i) (port i) [] 0 (role i) (flags i) (config_epoch i)).

Definition set_slots (l : list Z) (n : ClusterNode) : ClusterNode :=
  mkNode (info_ n) l (connected_ n) (replication_state_ n) (master_node_ n)
    (master_repl_offset_ n) (failure_count_ n) (first_pfail_time_ n) (fail_time_ n)
    (failover_state_ n) (failover_epoch_ n) (votes_ n) (failover_start_time_ n).

Definition addSlot (slot : Z) (n : ClusterNode) : ClusterNode :=
  if bool_decide (slot ∈ slots_ n) then n else set_slots (slots_ n ++ [slot]) n.

Definition node_delSlot (slot : Z) (n : ClusterNode) : ClusterNode :=
  set_slots (filter (fun x => x <> slot) (slots_ n)) n.

Definition hasSlot (slot : Z) (n : ClusterNode) : bool := bool_decide (slot ∈ slots_ n).

Definition setReplication (st : ReplicationState) (m : option nid) (n : ClusterNode) : ClusterNode :=
  mkNode (info_ n) (slots_ n) (connected_ n) st m
    (master_repl_offset_ n) (failure_count_ n) (first_pfail_time_ n) (fail_time_ n)
    (failover_state_ n) (failover_epoch_ n) (votes_ n) (failover_start_time_ n).

Definition setReplicationState (st : ReplicationState) (n : ClusterNode) : ClusterNode :=
  setReplication st (master_node_ n) n.

Definition setMasterNode (m : option nid) (n : ClusterNode) : ClusterNode :=
  setReplication (replication_state_ n) m n.

Definition set_detection (count first fail : Z) (n : ClusterNode) : ClusterNode :=
  mkNode (info_ n) (slots_ n) (connected_ n) (replication_state_ n) (master_node_ n)
    (master_repl_offset_ n) count first fail
    (failover_state_ n) (failover_epoch_ n) (votes_ n) (failover_start_time_ n).

Definition incrementFailureCount (n : ClusterNode) : ClusterNode :=
  set_detection (failure_count_ n + 1) (first_pfail_time_ n) (fail_time_ n) n.

Definition resetFailureCount (n : ClusterNode) : ClusterNode :=
  set_detection 0 (first_pfail_time_ n) (fail_time_ n) n.

Definition setFailFlag (now : Z) (fail : bool) (n : ClusterNode) : ClusterNode :=
  if fail
  then let n := addFlags kFail n in set_detection (failure_count_ n) (first_pfail_time_ n) now n
  else let n := clearFlags kFail n in set_detection (failure_count_ n) (first_pfail_time_ n) 0 n.

Definition setPfailFlag (now : Z) (pfail : bool) (n : ClusterNode) : ClusterNode :=
  if pfail
  then
    let n := addFlags kPfail n in
    if first_pfail_time_ n =? 0 then set_detection (failure_count_ n) now (fail_time_ n) n else n
  else let n := clearFlags kPfail n in set_detection 0 0 (fail_time_ n) n.

Definition set_failover (st : FailoverState) (epoch : Z) (vs : list VoteInfo) (start : Z)
    (n : ClusterNode) : ClusterNode :=
  mkNode (info_ n) (slots_ n) (connected_ n) (replication_state_ n) (master_node_ n)
    (master_repl_offset_ n) (failure_count_ n) (first_pfail_time_ n) (fail_time_ n)
    st epoch vs start.

Definition setFailoverState (st : FailoverState) (n : ClusterNode) : ClusterNode :=
  set_failover st (failover_epoch_ n) (votes_ n) (failover_start_time_ n) n.

Definition setFailoverEpoch (e : Z) (n : ClusterNode) : ClusterNode :=
  set_failover (failover_state_ n) e (votes_ n) (failover_start_time_ n) n.

Definition addVote (v : bytes) (epoch offset : Z) (n : ClusterNode) : ClusterNode :=
  set_failover (failover_state_ n) (failover_epoch_ n) (votes_ n ++ [mkVote v epoch offset])
    (failover_start_time_ n) n.

Definition clearVotes (n : ClusterNode) : ClusterNode :=
  set_failover (failover_state_ n) (failover_epoch_ n) [] (failover_start_time_ n) n.

Definition setFailoverStartTime (t : Z) (n : ClusterNode) : ClusterNode :=
  set_failover (failover_state_ n) (failover_epoch_ n) (votes_ n) t n.

(** ** Messages of the gossip (cluster_gossip.h) *)

Inductive GossipType :=
  | gPing | gPong | gMeet | gFail | gFailoverAuthReq | gFailoverAuthAck | gPush | gPull.

Record GossipNodeInfo := mkGInfo {
  g_name : bytes;
  g_ip : bytes;
  g_port : Z;
  g_flags : Z;
  g_epoch : Z;
  g_role : Z;
  g_used_slot : list Z;
  g_failover_offset : Z
}.

Record GossipMsg := mkGMsg {
  g_type : GossipType;
  g_sender_epoch : Z;
  g_sender_name : bytes;
  g_nodes : list GossipNodeInfo
}.

Definition u16 (z : Z) : Z := z mod 65536.
Definition u64 (z : Z) : Z := z mod 18446744073709551616.
Definition i64 (z : Z) : Z := if int64_max <? z then z - 18446744073709551616 else z.

Definition role_byte (n : ClusterNode) : Z := if isMaster n then 0 else 1.

(** [ClusterNode::updateNodeInfo]. *)
Definition updateNodeInfo (now : Z) (g : GossipNodeInfo) (n : ClusterNode) : ClusterNode :=
  let n := if negb (Z.land (g_flags g) kFail =? 0) then setFailFlag now true n
           else clearFlags kFail n in
  let n := if negb (Z.land (g_flags g) kPfail =? 0) then setPfailFlag now true n
           else clearFlags kPfail n in
  let n := setRole (if g_role g =? 0 then kMaster else kReplica) n in
  set_slots (g_used_slot g) (setConfigEpoch (i64 (g_epoch g)) n).

(** ** cluster_state.h, cluster_state.cpp *)

Record ClusterState := mkState {
  heap : gmap nid ClusterNode;
  my_node_name_ : bytes;
  nodes_ : gmap bytes nid;
  slot_map : gmap Z nid;                     (** [slots_] *)
  migrating_slots_ : gmap Z SlotMigrationInfo;
  importing_slots_ : gmap Z SlotMigrationInfo;
  replicas_ : gmap bytes (list nid);
  pfailing_reports_ : gmap bytes (gset bytes)
}.

Definition empty_state : ClusterState := mkState ∅ [] ∅ ∅ ∅ ∅ ∅ ∅.

(** A member function of a node, through its address. *)
Definition on_node (i : nid) (f : ClusterNode -> ClusterNode) (s : ClusterState) : ClusterState :=
  mkState (alter f i (heap s)) (my_node_name_ s) (nodes_ s) (slot_map s) (migrating_slots_ s)
    (importing_slots_ s) (replicas_ s) (pfailing_reports_ s).

Definition with_nodes (m : gmap bytes nid) (s : ClusterState) : ClusterState :=
  mkState (heap s) (my_node_name_ s) m (slot_map s) (migrating_slots_ s)
    (importing_slots_ s) (replicas_ s) (pfailing_reports_ s).

Definition with_slots (m : gmap Z nid) (s : ClusterState) : ClusterState :=
  mkState (heap s) (my_node_name_ s) (nodes_ s) m (migrating_slots_ s)
    (importing_slots_ s) (replicas_ s) (pfailing_reports_ s).

Definition with_migration (mig imp : gmap Z SlotMigrationInfo) (s : ClusterState) : ClusterState :=
  mkState (heap s) (my_node_name_ s) (nodes_ s) (slot_map s) mig imp (replicas_ s)
    (pfailing_reports_ s).

Definition with_replicas (m : gmap bytes (list nid)) (s : ClusterState) : ClusterState :=
  mkState (heap s) (my_node_name_ s) (nodes_ s) (slot_map s) (migrating_slots_ s)
    (importing_slots_ s) m (pfailing_reports_ s).

Definition with_reports (m : gmap bytes (gset bytes)) (s : ClusterState) : ClusterState :=
  mkState (heap s) (my_node_name_ s) (nodes_ s) (slot_map s) (migrating_slots_ s)
    (importing_slots_ s) (replicas_ s) m.

(** [addNode] of a node that is in the heap. *)
Definition addNode (i : nid) (s : ClusterState) : ClusterState :=
  match heap s !! i with
  | None => s
  | Some n =>
      match nodes_ s !! getName n with
      | Some _ => s
      | None => with_nodes (<[getName n := i]> (nodes_ s)) s
      end
  end.

Definition getNode (nm : bytes) (s : ClusterState) : option nid := nodes_ s !! nm.

(** Removes the slot of a list where it is mapped to this very node. *)
Definition erase_slots (i : nid) (l : list Z) (m : gmap Z nid) : gmap Z nid :=
  foldl (fun m slot => if bool_decide (m !! slot = Some i) then delete slot m else m) m l.

Definition delNode (nm : bytes) (s : ClusterState) : ClusterState :=
  match nodes_ s !! nm with
  | None => s
  | Some i =>
      let slots_to_remove := default [] (slots_ <$> heap s !! i) in
      let s := with_slots (erase_slots i slots_to_remove (slot_map s)) s in
      let s := with_replicas (delete nm (replicas_ s)) s in
      with_nodes (delete nm (nodes_ s)) s
  end.

Definition setNodeForSlot (slot : Z) (i : nid) (s : ClusterState) : ClusterState :=
  with_slots (<[slot := i]> (slot_map s)) s.

Definition delSlot (slot : Z) (s : ClusterState) : ClusterState :=
  with_migration (delete slot (migrating_slots_ s)) (delete slot (importing_slots_ s))
    (with_slots (delete slot (slot_map s)) s).

Definition getNodeForSlot (slot : Z) (s : ClusterState) : option nid := slot_map s !! slot.

Definition getSlotOwnerCount (s : ClusterState) : Z := Z.of_nat (size (slot_map s)).

Definition state_setSlotMigrating (slot : Z) (target : bytes) (s : ClusterState) : ClusterState :=
  with_migration (<[slot := mkMig slot mgMigrating [] target]> (migrating_slots_ s))
    (importing_slots_ s) s.

Definition state_setSlotImporting (slot : Z) (source : bytes) (s : ClusterState) : ClusterState :=
  with_migration (migrating_slots_ s)
    (<[slot := mkMig slot mgImporting source []]> (importing_slots_ s)) s.

Definition clearSlotMigration (slot : Z) (s : ClusterState) : ClusterState :=
  with_migration (delete slot (migrating_slots_ s)) (delete slot (importing_slots_ s)) s.

Definition getSlotMigrationInfo (slot : Z) (s : ClusterState) : SlotMigrationInfo :=
  match migrating_slots_ s !! slot with
  | Some m => m
  | None => default no_migration (importing_slots_ s !! slot)
  end.

Definition isSlotMigrating (slot : Z) (s : ClusterState) : bool :=
  bool_decide (is_Some (migrating_slots_ s !! slot)).

Definition isSlotImporting (slot : Z) (s : ClusterState) : bool :=
  bool_decide (is_Some (importing_slots_ s !! slot)).

Definition addReplica (master : bytes) (i : nid) (s : ClusterState) : ClusterState :=
  with_replicas (<[master := default [] (replicas_ s !! master) ++ [i]]> (replicas_ s)) s.

(** Erases the first replica of that name. *)
Fixpoint erase_named (h : gmap nid ClusterNode) (nm : bytes) (l : list nid) : list nid :=
  match l with
  | [] => []
  | i :: l =>
      if bool_decide ((getName <$> h !! i) = Some nm) then l else i :: erase_named h nm l
  end.

Definition removeReplica (master nm : bytes) (s : ClusterState) : ClusterState :=
  match replicas_ s !! master with
  | None => s
  | Some l =>
      let l := erase_named (heap s) nm l in
      with_replicas (if bool_decide (l = []) then delete master (replicas_ s)
                     else <[master := l]> (replicas_ s)) s
  end.

(** A change of the node of that name, if there is one. *)
Definition on_named (nm : bytes) (f : ClusterNode -> ClusterNode) (s : ClusterState)
    : ClusterState :=
  match nodes_ s !! nm with Some i => on_node i f s | None => s end.

Definition markNodeAsPfail (now : Z) (nm : bytes) : ClusterState -> ClusterState :=
  on_named nm (fun n => incrementFailureCount (setPfailFlag now true n)).

Definition state_markNodeAsFail (now : Z) (nm : bytes) : ClusterState -> ClusterState :=
  on_named nm (setFailFlag now true).

Definition clearNodePfail (now : Z) (nm : bytes) : ClusterState -> ClusterState :=
  on_named nm (setPfailFlag now false).

Definition clearNodeFail (now : Z) (nm : bytes) : ClusterState -> ClusterState :=
  on_named nm (setFailFlag now false).

Definition addPfailReport (nm reporter : bytes) (s : ClusterState) : ClusterState :=
  with_reports (<[nm := {[reporter]} ∪ default ∅ (pfailing_reports_ s !! nm)]>
    (pfailing_reports_ s)) s.

Definition getPfailReportCount (nm : bytes) (s : ClusterState) : Z :=
  match pfailing_reports_ s !! nm with Some r => Z.of_nat (size r) | None => 0 end.

Definition clearPfailReports (nm : bytes) (s : ClusterState) : ClusterState :=
  with_reports (delete nm (pfailing_reports_ s)) s.

(** The nodes of [getAllNodes]; the callers count them. *)
Definition getAllNodes (s : ClusterState) : list ClusterNode :=
  omap (fun i => heap s !! i) (map_to_list (nodes_ s)).*2.

Definition count_nodes (P : ClusterNode -> bool) (s : ClusterState) : Z :=
  zlen (filter (fun n => P n = true) (getAllNodes s)).

(** ** cluster_server.h, cluster_server.cpp *)

Record ClusterServer := mkServer {
  enabled_ : bool;
  running_ : bool;
  my_node_ : option nid;
  state_ : ClusterState;
  outbox : list GossipMsg
}.

Definition with_state (st : ClusterState) (s : ClusterServer) : ClusterServer :=
  mkServer (enabled_ s) (running_ s) (my_node_ s) st (outbox s).

Definition on_state (f : ClusterState -> ClusterState) (s : ClusterServer) : ClusterServer :=
  with_state (f (state_ s)) s.

(** [connection_.broadcast_gossip]. *)
Definition broadcast (m : GossipMsg) (s : ClusterServer) : ClusterServer :=
  mkServer (enabled_ s) (running_ s) (my_node_ s) (state_ s) (outbox s ++ [m]).

Definition node_at (i : nid) (s : ClusterServer) : option ClusterNode := heap (state_ s) !! i.
Definition my_node (s : ClusterServer) : option ClusterNode := i ← my_node_ s; node_at i s.

Definition on_my_node (f : ClusterNode -> ClusterNode) (s : ClusterServer) : ClusterServer :=
  match my_node_ s with Some i => on_state (on_node i f) s | None => s end.

(** [init] with the cluster enabled: the node itself, a master. *)
Definition init (my_ip : bytes) (my_port : Z) : ClusterServer :=
  let my_name := my_ip ++ lit ":" ++ to_string my_port in
  let n := new_node my_name my_ip my_port kMaster in
  let st := mkState {[0%nat := n]} my_name ∅ ∅ ∅ ∅ ∅ ∅ in
  mkServer true false (Some 0%nat) (addNode 0 st) [].

(** [std::make_shared<ClusterNode>] followed by [addNode]. *)
Definition make_node (n : ClusterNode) (st : ClusterState) : ClusterState :=
  let i := fresh (dom (heap st)) in
  addNode i (mkState (<[i := n]> (heap st)) (my_node_name_ st) (nodes_ st) (slot_map st)
    (migrating_slots_ st) (importing_slots_ st) (replicas_ st) (pfailing_reports_ st)).

(** The callback for a MEET from another node. *)
Definition meet (ip0 : bytes) (port0 : Z) (s : ClusterServer) : ClusterServer :=
  let nm := ip0 ++ lit ":" ++ to_string port0 in
  match getNode nm (state_ s) with
  | Some i =>
      match node_at i s with
      | Some n =>
          if negb (isMaster n) && negb (node_isReplica n)
          then on_state (on_node i (setRole kMaster)) s else s
      | None => s
      end
  | None => on_state (make_node (new_node nm ip0 port0 kMaster)) s
  end.

Definition getMyNodeName (s : ClusterServer) : bytes := default [] (getName <$> my_node s).

Definition setSlotMigrating (slot : Z) (target : bytes) (s : ClusterServer) : ClusterServer :=
  on_state (fun st => state_setSlotMigrating slot target (clearSlotMigration slot st)) s.

Definition setSlotImporting (slot : Z) (source : bytes) (s : ClusterServer) : ClusterServer :=
  on_state (fun st => state_setSlotImporting slot source (clearSlotMigration slot st)) s.

Definition setSlotOwner (slot : Z) (nm : bytes) (s : ClusterServer) : ClusterServer :=
  match getNode nm (state_ s) with
  | None => s
  | Some i =>
      on_state (fun st => on_node i (addSlot slot)
                            (setNodeForSlot slot i (clearSlotMigration slot st))) s
  end.

(** [ip:port] of a node. *)
Definition address (n : ClusterNode) : bytes :=
  ip (info_ n) ++ lit ":" ++ to_string (port (info_ n)).

Definition checkRedirect (key : bytes) (s : ClusterServer) : bytes :=
  let slot := keyToSlot key in
  let st := state_ s in
  let ask :=
    if isSlotMigrating slot st
    then getNode (mg_target (getSlotMigrationInfo slot st)) st ≫= fun i => node_at i s
    else None in
  match ask with
  | Some target => encode_error (lit "ASK " ++ to_string slot ++ lit " " ++ address target)
  | None =>
      match getNodeForSlot slot st ≫= fun i => node_at i s with
      | None => []
      | Some owner =>
          if bool_decide (getName owner = getMyNodeName s) then []
          else encode_error (lit "MOVED " ++ to_string slot ++ lit " " ++ address owner)
      end
  end.

Definition isReplica (s : ClusterServer) : bool :=
  match my_node s with Some n => node_isReplica n | None => false end.

Definition setReplicaOf (master : bytes) (s : ClusterServer) : bool * ClusterServer :=
  if negb (enabled_ s) then (false, s)
  else
    match getNode master (state_ s) with
    | None => (false, s)
    | Some m =>
        match node_at m s with
        | Some mn =>
            if negb (isMaster mn) then (false, s)
            else
              let s := on_my_node (fun n =>
                setMasterNode (Some m) (setMaster (ip (info_ mn)) (port (info_ mn))
                  (setReplicationState rConnect (setRole kReplica n)))) s in
              (true, match my_node_ s with Some i => on_state (addReplica master i) s | None => s end)
        | None => (false, s)
        end
    end.

(** Is there a [shared_ptr] to the node? A [weak_ptr] locks exactly then. *)
Definition alive (i : nid) (s : ClusterServer) : bool :=
  bool_decide (my_node_ s = Some i) ||
  bool_decide (i ∈ (map_to_list (nodes_ (state_ s))).*2) ||
  bool_decide (i ∈ (map_to_list (slot_map (state_ s))).*2) ||
  bool_decide (i ∈ concat (map_to_list (replicas_ (state_ s))).*2).

Definition getMyMaster (s : ClusterServer) : option nid :=
  n ← my_node s; i ← master_node_ n; if alive i s then Some i else None.

Definition clearReplicaOf (s : ClusterServer) : ClusterServer :=
  if negb (isReplica s) then s
  else
    let s :=
      match getMyMaster s ≫= fun i => node_at i s with
      | Some m => on_state (removeReplica (getName m) (getMyNodeName s)) s
      | None => s
      end in
    on_my_node (fun n => clear_replicaof (setMasterNode None
      (setReplicationState rNone (setRole kMaster n)))) s.

(** *** Failure detection *)

Definition handleNodeTimeout (now : Z) (nm : bytes) (s : ClusterServer) : ClusterServer :=
  if negb (enabled_ s) || negb (running_ s) || bool_decide (nm = []) then s
  else
    match getNode nm (state_ s) with
    | None => s
    | Some i =>
        match node_at i s with
        | None => s
        | Some n =>
            if isFailed n then s
            else
              let s := on_state (on_node i incrementFailureCount) s in
              if 3 <=? failure_count_ n + 1 then on_state (markNodeAsPfail now nm) s else s
        end
    end.

Definition handleNodeRecovery (now : Z) (nm : bytes) (s : ClusterServer) : ClusterServer :=
  if negb (enabled_ s) || bool_decide (nm = []) then s
  else
    match getNode nm (state_ s) with
    | None => s
    | Some i =>
        let s := on_state (on_node i resetFailureCount) s in
        let s := if default false (isPfailed <$> node_at i s)
                 then on_state (clearNodePfail now nm) s else s in
        if default false (isFailed <$> node_at i s) then on_state (clearNodeFail now nm) s else s
    end.

Definition checkFailQuorum (nm : bytes) (s : ClusterServer) : bool :=
  if negb (enabled_ s) || bool_decide (nm = []) then false
  else
    match getNode nm (state_ s) ≫= fun i => node_at i s with
    | None => false
    | Some n =>
        if negb (isPfailed n) then false
        else
          let live_master_count :=
            count_nodes (fun n => isMaster n && connected_ n && negb (isFailed n)) (state_ s) in
          let quorum := Z.max 2 (live_master_count / 2 + 1) in
          quorum <=? getPfailReportCount nm (state_ s)
    end.

(** What a message says of a node. *)
Definition gossip_info (n : ClusterNode) : GossipNodeInfo :=
  mkGInfo (getName n) (ip (info_ n)) (u16 (port (info_ n))) (u16 (flags (info_ n))) 0
    (role_byte n) [] 0.

Definition markNodeAsFail (now : Z) (nm : bytes) (s : ClusterServer) : ClusterServer :=
  if negb (enabled_ s) || bool_decide (nm = []) then s
  else
    match getNode nm (state_ s) with
    | None => s
    | Some i =>
        let s := on_state (state_markNodeAsFail now nm) s in
        match node_at i s, my_node s with
        | Some n, Some me =>
            broadcast (mkGMsg gFail (u64 (getConfigEpoch me)) (getMyNodeName s) [gossip_info n]) s
        | _, _ => s
        end
    end.

(** *** Failover *)

Definition isFailoverTimeout (now : Z) (n : ClusterNode) : bool :=
  if failover_start_time_ n =? 0 then false else 30000 <? now - failover_start_time_ n.

Definition startFailover (now : Z) (master : bytes) (s : ClusterServer) : bool * ClusterServer :=
  if negb (enabled_ s) || negb (isReplica s) then (false, s)
  else
    match getNode master (state_ s) ≫= fun i => node_at i s with
    | None => (false, s)
    | Some m =>
        if negb (isFailed m) then (false, s)
        else if negb (bool_decide ((failover_state_ <$> my_node s) = Some kNoFailover))
        then (false, s)
        else
          let new_epoch := getConfigEpoch m + 1 in
          (true, on_my_node (fun n => setFailoverStartTime now (setFailoverState kWaitStart
                   (setConfigEpoch new_epoch (setFailoverEpoch new_epoch n)))) s)
    end.

Definition shouldStartFailover (s : ClusterServer) : bool :=
  if negb (enabled_ s) || negb (isReplica s) then false
  else
    match getMyMaster s ≫= fun i => node_at i s with
    | None => false
    | Some m =>
        isFailed m && bool_decide ((failover_state_ <$> my_node s) = Some kNoFailover)
    end.

(** A master's answer to a request for its vote. [master_offset] is the offset
    of replication and [max_lag] the configured timeout times the validity
    factor. *)
Definition handleFailoverAuthRequest (master_offset max_lag : Z) (replica : bytes)
    (epoch offset : Z) (s : ClusterServer) : bool * ClusterServer :=
  if negb (enabled_ s) then (false, s)
  else
    match my_node s with
    | None => (false, s)
    | Some me =>
        if negb (isMaster me) then (false, s)
        else
          match getNode replica (state_ s) with
          | None => (false, s)
          | Some _ =>
              if epoch <=? failover_epoch_ me then (false, s)
              else if offset <? master_offset - max_lag then (false, s)
              else (true, on_my_node (fun n =>
                     setFailoverEpoch epoch (addVote replica epoch offset n)) s)
          end
    end.

Definition handleFailoverAuthAck (nm : bytes) (s : ClusterServer) : ClusterServer :=
  on_my_node (fun n => addVote nm (failover_epoch_ n) (master_repl_offset_ n) n) s.

(** [gossip_.broadcast_failover_auth_req]. *)
Definition broadcast_failover_auth_req (replica : bytes) (epoch offset : Z) (s : ClusterServer)
    : ClusterServer :=
  match getNode (my_node_name_ (state_ s)) (state_ s) ≫= fun i => node_at i s with
  | None => s
  | Some me =>
      broadcast (mkGMsg gFailoverAuthReq (u64 epoch) (getName me)
        [mkGInfo replica [] 0 0 (u64 epoch) 0 [] offset]) s
  end.

(** [gossip_.broadcast_failover_auth_ack]. *)
Definition broadcast_failover_auth_ack (replica : bytes) (epoch : Z) (s : ClusterServer)
    : ClusterServer :=
  match getNode (my_node_name_ (state_ s)) (state_ s) ≫= fun i => node_at i s with
  | None => s
  | Some me =>
      broadcast (mkGMsg gFailoverAuthAck (u64 epoch) (getName me)
        [mkGInfo replica [] 0 0 0 0 [] 0]) s
  end.

Definition broadcastFailoverUpdate (s : ClusterServer) : ClusterServer :=
  if negb (enabled_ s) then s
  else
    match my_node s with
    | None => s
    | Some me =>
        let g := mkGInfo (getName me) (ip (info_ me)) (u16 (port (info_ me)))
                   (u16 (flags (info_ me))) (u64 (getConfigEpoch me)) (role_byte me)
                   (u16 <$> take (Z.to_nat 16384) (slots_ me)) 0 in
        broadcast (mkGMsg gPush (u64 (getConfigEpoch me)) (getMyNodeName s) [g]) s
    end.

Definition completeFailover (s : ClusterServer) : ClusterServer :=
  if negb (enabled_ s) || negb (isReplica s) then s
  else
    match getMyMaster s with
    | None => s
    | Some m =>
        let master_slots := default [] (slots_ <$> node_at m s) in
        let s := foldl (fun s slot => on_state (on_node m (node_delSlot slot)) s) s master_slots in
        let s := foldl (fun s slot => setSlotOwner slot (getMyNodeName s) s) s master_slots in
        let s := clearReplicaOf s in
        on_my_node (fun n => setFailoverState kFailoverCompleted
          (setConfigEpoch (getConfigEpoch n + 1) n)) s
    end.

Definition executeFailover (now : Z) (s : ClusterServer) : ClusterServer :=
  if negb (enabled_ s) || negb (isReplica s) then s
  else
    match getMyMaster s ≫= fun i => node_at i s, my_node s with
    | Some master, Some me =>
        match failover_state_ me with
        | kNoFailover =>
            if shouldStartFailover s then (startFailover now (getName master) s).2 else s
        | kWaitStart =>
            let s := on_my_node (setFailoverState kWaitAuth) s in
            broadcast_failover_auth_req (getMyNodeName s) (failover_epoch_ me)
              (master_repl_offset_ me) s
        | kWaitAuth =>
            if isFailoverTimeout now me then on_my_node (setFailoverState kFailoverTimeout) s
            else
              let master_count :=
                count_nodes (fun n => isMaster n && negb (isFailed n)) (state_ s) in
              let needed_votes := master_count / 2 + 1 in
              if needed_votes <=? getVoteCount me
              then on_my_node (setFailoverState kFailoverInProgress) s
              else s
        | kFailoverInProgress => completeFailover s
        | kFailoverCompleted =>
            on_my_node (fun n => clearVotes (setFailoverState kNoFailover n))
              (broadcastFailoverUpdate s)
        | kFailoverTimeout =>
            on_my_node (fun n => setFailoverStartTime 0 (clearVotes (setFailoverState kNoFailover n))) s
        end
    | _, _ => s
    end.

End Cluster.
