(* ===== verification/ClusterProps.v ===== *)
(** * Properties of the cluster node: routing, failure detection and failover *)

From S2P Require Import Prelude Base Resp Slots Cluster.
From stdpp Require Import options.

Module ClusterProps.
Import Text Resp Slots Cluster.

(** What of a node never changes: its name and its address. *)
Definition static (n : ClusterNode) : bytes * bytes * Z :=
  (getName n, ip (info_ n), port (info_ n)).

Definition static_at (i : nid) (s : ClusterServer) : option (bytes * bytes * Z) :=
  static <$> node_at i s.

(** The tables name nodes of the heap by their names, and this node is one of
    them. *)
Record cluster_ok (s : ClusterServer) (me : nid) : Prop := {
  ok_me : my_node_ s = Some me;
  ok_name : forall nm i, nodes_ (state_ s) !! nm = Some i ->
    exists n, node_at i s = Some n /\ getName n = nm;
  ok_listed : getNode (getMyNodeName s) (state_ s) = Some me;
  ok_slots : forall slot i, slot_map (state_ s) !! slot = Some i -> is_Some (node_at i s)
}.

(** ** Updates of one node *)

Lemma node_at_on_node i f s j :
  node_at j (on_state (on_node i f) s) = if decide (i = j) then f <$> node_at j s else node_at j s.
Proof.
  unfold node_at. cbn. destruct (decide (i = j)) as [->|]; [apply lookup_alter_eq|by apply lookup_alter_ne].
Qed.

Lemma static_on_node i f s j :
  (forall n, static (f n) = static n) -> static_at j (on_state (on_node i f) s) = static_at j s.
Proof.
  intros Hf. unfold static_at. rewrite node_at_on_node. case_decide; [|done].
  destruct (node_at j s); cbn; [by rewrite Hf|done].
Qed.

Lemma static_setFailFlag t b n : static (setFailFlag t b n) = static n.
Proof. by destruct b. Qed.

Lemma static_setPfailFlag t b n : static (setPfailFlag t b n) = static n.
Proof. destruct b; [|done]. unfold setPfailFlag. by destruct (_ =? 0). Qed.

Lemma static_updateNodeInfo t g n : static (updateNodeInfo t g n) = static n.
Proof.
  unfold updateNodeInfo. cbv zeta.
  change (static (if negb (Z.land (g_flags g) kPfail =? 0)
    then setPfailFlag t true (if negb (Z.land (g_flags g) kFail =? 0) then setFailFlag t true n
                              else clearFlags kFail n)
    else clearFlags kPfail (if negb (Z.land (g_flags g) kFail =? 0) then setFailFlag t true n
                            else clearFlags kFail n)) = static n).
  destruct (negb (Z.land (g_flags g) kPfail =? 0)); [rewrite static_setPfailFlag|];
    by destruct (negb (Z.land (g_flags g) kFail =? 0)).
Qed.

Lemma static_addSlot slot n : static (addSlot slot n) = static n.
Proof. unfold addSlot. by case_bool_decide. Qed.

(** ** Routing depends on names and addresses only *)

Record same_routes (s s' : ClusterServer) : Prop := {
  sr_me : my_node_ s' = my_node_ s;
  sr_nodes : nodes_ (state_ s') = nodes_ (state_ s);
  sr_static : forall i, static_at i s' = static_at i s
}.

Lemma getMyNodeName_same s s' : same_routes s s' -> getMyNodeName s' = getMyNodeName s.
Proof.
  intros [Hm _ Hst]. unfold getMyNodeName, my_node. rewrite Hm. destruct (my_node_ s) as [i|]; [|done].
  cbn. specialize (Hst i). unfold static_at in Hst.
  destruct (node_at i s'), (node_at i s); cbn in *; try done. unfold static in Hst. congruence.
Qed.

(** The reply that sends a client to a node. *)
Definition redirect_to (kind : bytes) (slot : Z) (st : option (bytes * bytes * Z)) : bytes :=
  match st with
  | Some (_, i, p) => encode_error (kind ++ to_string slot ++ lit " " ++ i ++ lit ":" ++ to_string p)
  | None => []
  end.

Lemma encode_error_moved x : encode_error (lit "MOVED " ++ x) = lit "-ERR MOVED " ++ x ++ crlf.
Proof. unfold encode_error, starts_with. rewrite !bool_decide_eq_false_2 by done. done. Qed.

Lemma encode_error_ask x : encode_error (lit "ASK " ++ x) = lit "-ERR ASK " ++ x ++ crlf.
Proof. unfold encode_error, starts_with. rewrite !bool_decide_eq_false_2 by done. done. Qed.

(** [checkRedirect] in terms of names and addresses. *)
Lemma checkRedirect_eq key s :
  checkRedirect key s =
    let slot := keyToSlot key in
    let ask := if isSlotMigrating slot (state_ s)
               then getNode (mg_target (getSlotMigrationInfo slot (state_ s))) (state_ s)
                      ≫= fun i => static_at i s
               else None in
    match ask with
    | Some _ => redirect_to (lit "ASK ") slot ask
    | None =>
        match getNodeForSlot slot (state_ s) ≫= fun i => static_at i s with
        | None => []
        | Some st =>
            if bool_decide (st.1.1 = getMyNodeName s) then []
            else redirect_to (lit "MOVED ") slot (Some st)
        end
    end.
Proof.
  unfold checkRedirect, static_at. cbv zeta.
  set (own := match getNodeForSlot _ _ ≫= _ with None => [] | Some owner => _ end).
  set (own' := match getNodeForSlot _ _ ≫= _ with None => [] | Some st => _ end).
  assert (own = own') as ->.
  { unfold own, own'. destruct (getNodeForSlot _ _) as [i|]; [|done]. cbn. by destruct (node_at i s). }
  destruct (isSlotMigrating _ _); [|done]. destruct (getNode _ _) as [i|]; [|done]. cbn.
  by destruct (node_at i s).
Qed.

Lemma checkRedirect_same key s s' :
  same_routes s s' ->
  let slot := keyToSlot key in
  slot_map (state_ s') !! slot = slot_map (state_ s) !! slot ->
  migrating_slots_ (state_ s') !! slot = migrating_slots_ (state_ s) !! slot ->
  checkRedirect key s' = checkRedirect key s.
Proof.
  intros Hr slot Hs Hm. rewrite !checkRedirect_eq. cbv zeta.
  rewrite (getMyNodeName_same _ _ Hr). destruct Hr as [_ Hn Hst].
  unfold isSlotMigrating, getSlotMigrationInfo, getNode, getNodeForSlot. fold slot.
  rewrite Hs, Hm, Hn.
  assert (forall o : option nid, (o ≫= fun i => static_at i s') = (o ≫= fun i => static_at i s)) as Ho
    by (intros [i|]; [apply Hst|done]).
  destruct (migrating_slots_ (state_ s) !! slot) as [mi|];
    [rewrite !(bool_decide_eq_true_2 (is_Some (Some mi))) by done|]; by rewrite !Ho.
Qed.

(** ** The operations of a node *)

(** A slot that does not migrate: its keys go to the owner. *)
Lemma owner_redirect key s i n :
  isSlotMigrating (keyToSlot key) (state_ s) = false ->
  slot_map (state_ s) !! keyToSlot key = Some i -> static_at i s = Some (static n) ->
  checkRedirect key s =
    if decide (getName n = getMyNodeName s) then []
    else lit "-ERR MOVED " ++ to_string (keyToSlot key) ++ lit " " ++ address n ++ crlf.
Proof.
  intros Hm Hs Hst. rewrite checkRedirect_eq. cbv zeta. rewrite Hm. unfold getNodeForSlot. rewrite Hs.
  cbn [mbind option_bind]. rewrite Hst. cbn [static fst].
  destruct (decide (getName n = getMyNodeName s)); [by rewrite bool_decide_eq_true_2|].
  rewrite bool_decide_eq_false_2 by done. unfold redirect_to, static.
  rewrite encode_error_moved. unfold address. by rewrite <-!app_assoc.
Qed.

(** Operations from commands, the bus and the timer, in the order they come. *)
Inductive cl_op :=
  | OMeet (ip0 : bytes) (port0 : Z)
  | OOwner (slot : Z) (nm : bytes)
  | OMigrating (slot : Z) (nm : bytes)
  | OImporting (slot : Z) (nm : bytes)
  | OClear (slot : Z)
  | OReplicaOf (nm : bytes)
  | OClearReplica
  | OTimeout (now : Z) (nm : bytes)
  | ORecovery (now : Z) (nm : bytes)
  | OMarkFail (now : Z) (nm : bytes)
  | OReport (nm reporter : bytes)
  | OUpdate (now : Z) (nm : bytes) (g : GossipNodeInfo)
  | OAuthReq (master_offset max_lag : Z) (nm : bytes) (epoch offset : Z)
  | OAck (nm : bytes)
  | OTick (now : Z).

Definition run (s : ClusterServer) (o : cl_op) : ClusterServer :=
  match o with
  | OMeet i p => meet i p s
  | OOwner slot nm => setSlotOwner slot nm s
  | OMigrating slot nm => setSlotMigrating slot nm s
  | OImporting slot nm => setSlotImporting slot nm s
  | OClear slot => on_state (clearSlotMigration slot) s
  | OReplicaOf nm => (setReplicaOf nm s).2
  | OClearReplica => clearReplicaOf s
  | OTimeout now nm => handleNodeTimeout now nm s
  | ORecovery now nm => handleNodeRecovery now nm s
  | OMarkFail now nm => markNodeAsFail now nm s
  | OReport nm r => on_state (addPfailReport nm r) s
  | OUpdate now nm g => on_state (on_named nm (updateNodeInfo now g)) s
  | OAuthReq mo ml nm e off => (handleFailoverAuthRequest mo ml nm e off s).2
  | OAck nm => handleFailoverAuthAck nm s
  | OTick now => executeFailover now s
  end.

(** Names and addresses stay, and slots are mapped to listed nodes or as they
    were. *)
Definition keeps (s s' : ClusterServer) : Prop :=
  same_routes s s' /\
  forall slot i, slot_map (state_ s') !! slot = Some i ->
    slot_map (state_ s) !! slot = Some i \/ exists nm, nodes_ (state_ s) !! nm = Some i.

#[global] Instance keeps_po : PreOrder keeps.
Proof.
  split.
  - intros s. split; [done|]. intros slot i. by left.
  - intros s1 s2 s3 [[Hm1 Hn1 Hs1] Hk1] [[Hm2 Hn2 Hs2] Hk2]. split.
    + split; [congruence..|]. intros i. by rewrite Hs2.
    + intros slot i [Hi|[nm Hi]]%Hk2; [by apply Hk1|]. right. exists nm. congruence.
Qed.

Lemma keeps_on_node i f s : (forall n, static (f n) = static n) -> keeps s (on_state (on_node i f) s).
Proof. intros Hf. split; [split; [done..|]|by left]. intros j. by apply static_on_node. Qed.

Lemma keeps_my_node f s : (forall n, static (f n) = static n) -> keeps s (on_my_node f s).
Proof. intros Hf. unfold on_my_node. destruct (my_node_ s); [by apply keeps_on_node|done]. Qed.

Lemma keeps_named nm f s :
  (forall n, static (f n) = static n) -> keeps s (on_state (on_named nm f) s).
Proof.
  intros Hf. unfold on_named, on_state. destruct (nodes_ (state_ s) !! nm) as [i|] eqn:E.
  - exact (keeps_on_node i f s Hf).
  - by destruct s.
Qed.

Lemma keeps_owner slot nm s : keeps s (setSlotOwner slot nm s).
Proof.
  unfold setSlotOwner, getNode. destruct (nodes_ (state_ s) !! nm) as [i|] eqn:E; [|done].
  trans (on_state (fun st => setNodeForSlot slot i (clearSlotMigration slot st)) s).
  - split; [done|]. intros sl j. cbn. destruct (decide (sl = slot)) as [->|].
    + rewrite lookup_insert_eq. intros [= <-]. right. by exists nm.
    + rewrite lookup_insert_ne by done. by left.
  - apply (keeps_on_node i (addSlot slot)
      (on_state (fun st => setNodeForSlot slot i (clearSlotMigration slot st)) s)), static_addSlot.
Qed.

Lemma keeps_foldl {A} (f : ClusterServer -> A -> ClusterServer) l s :
  (forall s a, keeps s (f s a)) -> keeps s (foldl f s l).
Proof. intros Hf. revert s. induction l as [|a l IH]; intros s; cbn; [done|]. by etrans; [apply Hf|]. Qed.

(** Updates of the other tables. *)
Lemma keeps_state f s :
  heap (f (state_ s)) = heap (state_ s) -> nodes_ (f (state_ s)) = nodes_ (state_ s) ->
  slot_map (f (state_ s)) = slot_map (state_ s) -> keeps s (on_state f s).
Proof.
  intros Hh Hn Hs. split; [split; [done|done|]|].
  - intros i. unfold static_at, node_at. cbn. by rewrite Hh.
  - intros slot i. cbn. rewrite Hs. by left.
Qed.

Lemma removeReplica_tables a b st :
  heap (removeReplica a b st) = heap st /\ nodes_ (removeReplica a b st) = nodes_ st /\
  slot_map (removeReplica a b st) = slot_map st.
Proof. unfold removeReplica. by destruct (replicas_ st !! a). Qed.

Lemma keeps_broadcast m s : keeps s (broadcast m s).
Proof. split; [done|]. by left. Qed.

Lemma keeps_clearReplicaOf s : keeps s (clearReplicaOf s).
Proof.
  unfold clearReplicaOf. destruct (negb _); [done|]. etrans; [|by apply keeps_my_node].
  destruct (_ ≫= _) as [m|]; [|done]. apply keeps_state; apply removeReplica_tables.
Qed.

Lemma keeps_completeFailover s : keeps s (completeFailover s).
Proof.
  unfold completeFailover. destruct (_ || _); [done|]. destruct (getMyMaster s) as [m|]; [|done].
  cbv zeta. etrans; [|by apply keeps_my_node]. etrans; [|apply keeps_clearReplicaOf].
  etrans; [|apply keeps_foldl; intros; apply keeps_owner].
  apply keeps_foldl. intros. by apply keeps_on_node.
Qed.

Lemma keeps_startFailover t nm s : keeps s (startFailover t nm s).2.
Proof.
  unfold startFailover. repeat case_match; try done. by apply keeps_my_node.
Qed.

Lemma keeps_update s : keeps s (broadcastFailoverUpdate s).
Proof. unfold broadcastFailoverUpdate. repeat case_match; try done. apply keeps_broadcast. Qed.

Lemma keeps_auth_req nm e o s : keeps s (broadcast_failover_auth_req nm e o s).
Proof. unfold broadcast_failover_auth_req. case_match; [apply keeps_broadcast|done]. Qed.

Lemma keeps_executeFailover t s : keeps s (executeFailover t s).
Proof.
  unfold executeFailover. destruct (_ || _); [done|].
  destruct (getMyMaster s ≫= _) as [m|]; [|done]. destruct (my_node s) as [me|]; [|done].
  destruct (failover_state_ me).
  - destruct (shouldStartFailover s); [apply keeps_startFailover|done].
  - cbv zeta. etrans; [|apply keeps_auth_req]. by apply keeps_my_node.
  - destruct (isFailoverTimeout t me); [by apply keeps_my_node|]. cbv zeta.
    destruct (_ <=? _); [by apply keeps_my_node|done].
  - apply keeps_completeFailover.
  - etrans; [apply keeps_update|]. by apply keeps_my_node.
  - by apply keeps_my_node.
Qed.

Lemma keeps_setReplicaOf nm s : keeps s (setReplicaOf nm s).2.
Proof.
  unfold setReplicaOf. destruct (negb _); [done|]. destruct (getNode _ _) as [m|]; [|done].
  destruct (node_at m s) as [mn|]; [|done]. destruct (negb _); [done|]. cbn [snd].
  etrans; [by apply (keeps_my_node (fun n => setMasterNode (Some m) (setMaster (ip (info_ mn))
    (port (info_ mn)) (setReplicationState rConnect (setRole kReplica n)))))|].
  case_match; [by apply keeps_state|done].
Qed.

Lemma keeps_timeout t nm s : keeps s (handleNodeTimeout t nm s).
Proof.
  unfold handleNodeTimeout. destruct (_ || _ || _); [done|]. destruct (getNode _ _) as [i|]; [|done].
  destruct (node_at i s) as [n|]; [|done]. destruct (isFailed n); [done|]. cbv zeta.
  etrans; [by apply (keeps_on_node i incrementFailureCount)|]. destruct (_ <=? _); [|done].
  apply keeps_named. intros m. apply (static_setPfailFlag t true).
Qed.

Lemma keeps_recovery t nm s : keeps s (handleNodeRecovery t nm s).
Proof.
  unfold handleNodeRecovery. destruct (_ || _); [done|]. destruct (getNode _ _) as [i|]; [|done].
  cbv zeta. etrans; [by apply (keeps_on_node i resetFailureCount)|].
  set (s1 := on_state _ s). etrans; [|case_match; [apply keeps_named; intros; apply static_setFailFlag|done]].
  case_match; [apply keeps_named; intros; apply static_setPfailFlag|done].
Qed.

Lemma keeps_markFail t nm s : keeps s (markNodeAsFail t nm s).
Proof.
  unfold markNodeAsFail. destruct (_ || _); [done|]. destruct (getNode _ _) as [i|]; [|done].
  cbv zeta. etrans; [apply (keeps_named nm (setFailFlag t true)); intros; apply static_setFailFlag|].
  repeat case_match; try done. apply keeps_broadcast.
Qed.

Lemma keeps_auth mo ml nm e o s : keeps s (handleFailoverAuthRequest mo ml nm e o s).2.
Proof.
  unfold handleFailoverAuthRequest. repeat case_match; try done. by apply keeps_my_node.
Qed.

Lemma keeps_run s o : (forall i p, o <> OMeet i p) -> keeps s (run s o).
Proof.
  intros Ho. destruct o; cbn [run]; try (by apply keeps_state); try (by destruct (Ho ip0 port0)).
  - apply keeps_owner.
  - apply keeps_setReplicaOf.
  - apply keeps_clearReplicaOf.
  - apply keeps_timeout.
  - apply keeps_recovery.
  - apply keeps_markFail.
  - apply keeps_named. intros. apply static_updateNodeInfo.
  - apply keeps_auth.
  - by apply keeps_my_node.
  - apply keeps_executeFailover.
Qed.

(** The replies byte by byte. A slot that is assigned to a node sends its keys there with
    MOVED unless that node is this one, which serves them; a slot that migrates sends them
    to the target with ASK; keys of other slots are routed as before. The reply starts with
    -ERR, which the encoder adds to the codes, where the documentation has -MOVED and
    -ASK. *)
Lemma redirect_replies s me key key' x i n :
  cluster_ok s me -> nodes_ (state_ s) !! x = Some i -> node_at i s = Some n ->
  keyToSlot key' <> keyToSlot key ->
  let slot := keyToSlot key in
  let owned := setSlotOwner slot x s in
  let moving := setSlotMigrating slot x s in
  checkRedirect key owned =
    (if decide (x = getMyNodeName s) then []
     else lit "-ERR MOVED " ++ to_string slot ++ lit " " ++ address n ++ crlf) /\
  checkRedirect key moving =
    lit "-ERR ASK " ++ to_string slot ++ lit " " ++ address n ++ crlf /\
  checkRedirect key' owned = checkRedirect key' s /\
  checkRedirect key' moving = checkRedirect key' s.
Proof.
  intros Hok Hx Hn Hne slot owned moving.
  destruct (ok_name _ _ Hok x i Hx) as (n' & Hn' & Hname). rewrite Hn in Hn'. injection Hn' as <-. subst x.
  assert (same_routes s owned) as Ho.
  { unfold owned, setSlotOwner, getNode. rewrite Hx. split; [done..|]. intros j. cbn.
    change (static_at j (on_state (on_node i (addSlot slot))
      (on_state (fun st => setNodeForSlot slot i (clearSlotMigration slot st)) s)) = static_at j s).
    by rewrite static_on_node by apply static_addSlot. }
  assert (same_routes s moving) as Hm by (split; done).
  assert (static_at i s = Some (static n)) as Hst by (unfold static_at; by rewrite Hn).
  assert (slot_map (state_ owned) = <[slot := i]> (slot_map (state_ s)) /\
          migrating_slots_ (state_ owned) = delete slot (migrating_slots_ (state_ s))) as [Hos Hom].
  { unfold owned, setSlotOwner, getNode. by rewrite Hx. }
  assert (migrating_slots_ (state_ moving) !! slot = Some (mkMig slot mgMigrating [] (getName n))) as Hmm.
  { cbn. by rewrite lookup_insert_eq. }
  split; [|split; [|split]].
  - rewrite <-(getMyNodeName_same _ _ Ho). apply (owner_redirect key owned i n).
    + unfold isSlotMigrating. rewrite Hom, lookup_delete_eq. by apply bool_decide_eq_false_2; intros [].
    + rewrite Hos. apply lookup_insert_eq.
    + by rewrite (sr_static _ _ Ho).
  - rewrite checkRedirect_eq. cbv zeta. fold slot. unfold isSlotMigrating, getSlotMigrationInfo.
    rewrite Hmm. rewrite bool_decide_eq_true_2 by done. cbn [mg_target].
    change (getNode (getName n) (state_ moving)) with (nodes_ (state_ s) !! getName n). rewrite Hx.
    cbn [mbind option_bind]. rewrite (sr_static _ _ Hm), Hst. unfold redirect_to, static.
    rewrite encode_error_ask. unfold address. by rewrite <-!app_assoc.
  - apply checkRedirect_same; [done|rewrite Hos; by apply lookup_insert_ne|rewrite Hom; by apply lookup_delete_ne].
  - apply checkRedirect_same; [done|done|]. cbn.
    by rewrite lookup_insert_ne, lookup_delete_ne.
Qed.

(** An error reply that ends with this code, slot and address; nothing is said of what
    stands before the code. *)
Definition announces (code : bytes) (slot : Z) (addr : bytes) (reply : bytes) : Prop :=
  exists prefix, reply = lit "-" ++ prefix ++ code ++ lit " " ++ to_string slot ++ lit " " ++ addr ++ crlf.


(** Two nodes that know each other. *)
Definition pair_cluster : ClusterServer := meet (lit "10.0.0.2") 7000 (init (lit "10.0.0.1") 7000).

Lemma keeps_ok s s' me : keeps s s' -> cluster_ok s me -> cluster_ok s' me.
Proof.
  intros [Hr Hk] Hok. pose proof (getMyNodeName_same _ _ Hr) as Hname.
  destruct Hr as [Hm Hn Hst].
  assert (forall i, is_Some (node_at i s) -> is_Some (node_at i s')) as Hsome.
  { intros i [n Hi]. specialize (Hst i). unfold static_at in Hst. rewrite Hi in Hst.
    destruct (node_at i s'); [by eexists|done]. }
  split.
  - rewrite Hm. apply Hok.
  - intros nm i. rewrite Hn. intros (n & Hi & <-)%(ok_name _ _ Hok). specialize (Hst i).
    unfold static_at in Hst. rewrite Hi in Hst. destruct (node_at i s') as [n'|]; [|done].
    exists n'. split; [done|]. cbn in Hst. unfold static in Hst. congruence.
  - rewrite Hname. unfold getNode. rewrite Hn. apply Hok.
  - intros slot i [Hi|[nm Hi]]%Hk; apply Hsome.
    + by eapply ok_slots.
    + destruct (ok_name _ _ Hok _ _ Hi) as (n & -> & _). by eexists.
Qed.

Lemma make_node_ok n s me :
  getNode (getName n) (state_ s) = None -> cluster_ok s me -> cluster_ok (on_state (make_node n) s) me.
Proof.
  intros Hnew Hok. set (i := fresh (dom (heap (state_ s)))).
  assert (heap (state_ s) !! i = None) as Hfresh by (apply not_elem_of_dom, is_fresh).
  assert (state_ (on_state (make_node n) s) = mkState (<[i := n]> (heap (state_ s)))
    (my_node_name_ (state_ s)) (<[getName n := i]> (nodes_ (state_ s))) (slot_map (state_ s))
    (migrating_slots_ (state_ s)) (importing_slots_ (state_ s)) (replicas_ (state_ s))
    (pfailing_reports_ (state_ s))) as Hst.
  { cbn. unfold make_node, addNode. cbn [heap nodes_]. fold i. rewrite lookup_insert_eq.
    unfold getNode in Hnew. by rewrite Hnew. }
  assert (forall j m, node_at j s = Some m -> node_at j (on_state (make_node n) s) = Some m) as Hold.
  { intros j m Hj. unfold node_at in *. rewrite Hst. cbn. rewrite lookup_insert_ne; [done|congruence]. }
  destruct (ok_name _ _ Hok _ _ (ok_listed _ _ Hok)) as (m & Hm & Hmn).
  assert (getMyNodeName (on_state (make_node n) s) = getMyNodeName s) as Hname.
  { unfold getMyNodeName at 1, my_node. change (my_node_ (on_state (make_node n) s)) with (my_node_ s).
    rewrite (ok_me _ _ Hok). cbn [mbind option_bind]. by rewrite (Hold _ _ Hm). }
  split.
  - apply Hok.
  - intros nm j. rewrite Hst. cbn. destruct (decide (nm = getName n)) as [->|].
    + rewrite lookup_insert_eq. intros [= <-]. exists n. split; [|done]. unfold node_at.
      rewrite Hst. apply lookup_insert_eq.
    + rewrite lookup_insert_ne by done. intros (m' & Hj & Hn)%(ok_name _ _ Hok).
      exists m'. by rewrite (Hold _ _ Hj).
  - rewrite Hname. unfold getNode in *. rewrite Hst. cbn. rewrite lookup_insert_ne; [apply Hok|].
    intros E. pose proof (ok_listed _ _ Hok) as Hl. unfold getNode in Hl. congruence.
  - intros slot j Hj. rewrite Hst in Hj. cbn in Hj. destruct (ok_slots _ _ Hok _ _ Hj) as [m' Hm'].
    exists m'. by apply Hold.
Qed.

Lemma run_ok s o me : cluster_ok s me -> cluster_ok (run s o) me.
Proof.
  intros Hok.
  assert ((exists i p, o = OMeet i p) \/ forall i p, o <> OMeet i p) as [(i & p & ->)|Hn]
    by (destruct o; (by left; eauto) || (by right)).
  - cbn [run]. unfold meet. destruct (getNode _ _) as [j|] eqn:Hg.
    + destruct (node_at j s) as [n|]; [|done]. destruct (_ && _); [|done].
      eapply keeps_ok; [by apply keeps_on_node|done].
    + by apply make_node_ok.
  - eapply keeps_ok; [by apply keeps_run|done].
Qed.

Lemma init_ok i p : cluster_ok (init i p) 0.
Proof.
  set (nm := i ++ lit ":" ++ to_string p).
  assert (nodes_ (state_ (init i p)) = {[nm := 0%nat]}) as Hn.
  { unfold init. cbn. unfold addNode. cbn [heap]. by rewrite lookup_singleton_eq. }
  assert (node_at 0 (init i p) = Some (new_node nm i p kMaster)) as Hz.
  { unfold node_at, init. cbn. unfold addNode. cbn [heap]. rewrite lookup_singleton_eq. cbn.
    apply lookup_singleton_eq. }
  split.
  - done.
  - intros x j. rewrite Hn. intros [<- <-]%lookup_singleton_Some. by eexists.
  - assert (getMyNodeName (init i p) = nm) as ->.
    { unfold getMyNodeName, my_node. cbn [my_node_ init mbind option_bind]. by rewrite Hz. }
    unfold getNode. rewrite Hn. apply lookup_singleton_eq.
  - intros slot j. unfold init. cbn. unfold addNode. cbn [heap]. rewrite lookup_singleton_eq. by cbn.
Qed.

Lemma runs_ok ops s me : cluster_ok s me -> cluster_ok (foldl run s ops) me.
Proof. revert s. induction ops as [|o ops IH]; intros s Hok; cbn; [done|]. by apply IH, run_ok. Qed.

Lemma pair_ok : cluster_ok pair_cluster 0.
Proof. exact (run_ok (init (lit "10.0.0.1") 7000) (OMeet (lit "10.0.0.2") 7000) 0 (init_ok _ _)). Qed.


(** ** Nodes that are forgotten *)

(** A node other than this one is forgotten: it is off the list, the slots it lists are
    mapped to it no more, and nothing else is taken away. *)
Lemma delNode_spec nm s i n :
  nodes_ s !! nm = Some i -> heap s !! i = Some n ->
  nodes_ (delNode nm s) = delete nm (nodes_ s) /\ heap (delNode nm s) = heap s /\
  replicas_ (delNode nm s) = delete nm (replicas_ s) /\
  forall slot, slot_map (delNode nm s) !! slot =
    if decide (slot ∈ slots_ n /\ slot_map s !! slot = Some i) then None else slot_map s !! slot.
Proof.
  intros Hi Hn. unfold delNode. rewrite Hi, Hn. cbn. split_and!; [done..|].
  unfold erase_slots. generalize (slot_map s) as m. induction (slots_ n) as [|a l IH]; intros m slot; cbn [foldl].
  - rewrite decide_False; [done|]. intros [[]%elem_of_nil _].
  - rewrite IH. case_bool_decide as Ha; [destruct (decide (slot = a)) as [->|Hne]|].
    + rewrite (decide_True (P := a ∈ a :: l /\ _)) by (split; [left|done]).
      rewrite lookup_delete_eq. by case_decide.
    + rewrite lookup_delete_ne by done. apply decide_ext. rewrite elem_of_cons. naive_solver.
    + apply decide_ext. rewrite elem_of_cons. naive_solver.
Qed.

Lemma delNode_ok nm s me :
  cluster_ok s me -> nm <> getMyNodeName s -> cluster_ok (on_state (delNode nm) s) me.
Proof.
  intros Hok Hne. destruct (nodes_ (state_ s) !! nm) as [i|] eqn:Hi.
  2: { enough (on_state (delNode nm) s = s) as -> by done. unfold on_state, delNode. rewrite Hi. by destruct s. }
  destruct (ok_name _ _ Hok nm i Hi) as (n & Hn & _).
  destruct (delNode_spec nm (state_ s) i n Hi Hn) as (Hnodes & Hheap & _ & Hslots).
  assert (forall j, node_at j (on_state (delNode nm) s) = node_at j s) as Hat
    by (intros j; unfold node_at; cbn; by rewrite Hheap).
  assert (getMyNodeName (on_state (delNode nm) s) = getMyNodeName s) as Hname.
  { unfold getMyNodeName, my_node. cbn [my_node_ on_state with_state]. destruct (my_node_ s) as [j|]; [|done].
    cbn [mbind option_bind]. by rewrite Hat. }
  split.
  - apply Hok.
  - intros x j. cbn. rewrite Hnodes. intros [_ Hj]%lookup_delete_Some. rewrite Hat. by apply (ok_name _ _ Hok).
  - rewrite Hname. unfold getNode. cbn. rewrite Hnodes, lookup_delete_ne by done. apply (ok_listed _ _ Hok).
  - intros slot j. cbn. rewrite Hslots, Hat. case_decide; [done|]. apply (ok_slots _ _ Hok).
Qed.

(** What a node can come to: any operations, and other nodes forgotten. *)
Inductive cluster_reachable (i : bytes) (p : Z) : ClusterServer -> Prop :=
  | cr_init : cluster_reachable i p (init i p)
  | cr_run s o : cluster_reachable i p s -> cluster_reachable i p (run s o)
  | cr_forget s nm :
      cluster_reachable i p s -> nm <> getMyNodeName s -> cluster_reachable i p (on_state (delNode nm) s).

Lemma cluster_reachable_ok i p s : cluster_reachable i p s -> cluster_ok s 0.
Proof. induction 1; [apply init_ok|by apply run_ok|by apply delNode_ok]. Qed.



(** What another node says of its slots is stored with the node but not in the
    map of slots, so the routing of every key stays as it was: after a failover
    the other nodes go on sending clients to the old master. *)
Theorem gossip_keeps_routing t nm j n g key s :
  nodes_ (state_ s) !! nm = Some j -> node_at j s = Some n ->
  let s' := run s (OUpdate t nm g) in
  (slots_ <$> node_at j s') = Some (g_used_slot g) /\ checkRedirect key s' = checkRedirect key s.
Proof.
  intros Hj Hn s'. split.
  - unfold s'. cbn [run]. unfold on_named, on_state. rewrite Hj. fold (on_state (on_node j (updateNodeInfo t g)) s).
    rewrite node_at_on_node. rewrite decide_True by done. by rewrite Hn.
  - apply checkRedirect_same; [apply (keeps_run s (OUpdate t nm g)); done|..];
      unfold s'; cbn [run on_state with_state state_]; unfold on_named; by rewrite Hj.
Qed.

Lemma gossip_keeps_routing_witness :
  let s := setSlotOwner (keyToSlot (lit "k")) (lit "10.0.0.2:7000") pair_cluster in
  let g := mkGInfo (lit "10.0.0.2:7000") (lit "10.0.0.2") 7000 0 5 0 [] 0 in
  checkRedirect (lit "k") (run s (OUpdate 9 (lit "10.0.0.2:7000") g)) = checkRedirect (lit "k") s.
Proof.
  refine (proj2 (gossip_keeps_routing 9 (lit "10.0.0.2:7000") 1
    (addSlot (keyToSlot (lit "k")) (new_node (lit "10.0.0.2:7000") (lit "10.0.0.2") 7000 kMaster)) _ (lit "k") _ _ _));
    by vm_compute.
Defined.

(** ** Failure detection *)

Lemma reports_fold nm rs s :
  pfailing_reports_ (state_ (foldl (fun s r => run s (OReport nm r)) s rs)) =
    match rs with
    | [] => pfailing_reports_ (state_ s)
    | _ => <[nm := list_to_set rs ∪ default ∅ (pfailing_reports_ (state_ s) !! nm)]>
             (pfailing_reports_ (state_ s))
    end.
Proof.
  revert s. induction rs as [|r rs IH]; intros s; cbn [foldl]; [done|]. rewrite IH. cbn.
  destruct rs as [|r' rs].
  - f_equal. set_solver.
  - rewrite lookup_insert_eq, insert_insert_eq. f_equal. cbn. set_solver.
Qed.

Lemma reports_keep nm rs s :
  let s' := foldl (fun s r => run s (OReport nm r)) s rs in
  enabled_ s' = enabled_ s /\ heap (state_ s') = heap (state_ s) /\
  nodes_ (state_ s') = nodes_ (state_ s).
Proof.
  cbv zeta. revert s. induction rs as [|r rs IH]; intros s; cbn [foldl]; [done|].
  by destruct (IH (run s (OReport nm r))) as (-> & -> & ->).
Qed.

(** The quorum counts reporters, not reports: after any sequence of reports a
    suspected node is judged failed exactly when a majority of the masters that
    are connected and not failed, and at least two nodes, have reported it. *)
Theorem fail_quorum_distinct nm n rs s :
  enabled_ s = true -> nm <> [] -> pfailing_reports_ (state_ s) !! nm = None ->
  (getNode nm (state_ s) ≫= fun i => node_at i s) = Some n -> isPfailed n = true ->
  let live := count_nodes (fun n => isMaster n && connected_ n && negb (isFailed n)) (state_ s) in
  checkFailQuorum nm (foldl (fun s r => run s (OReport nm r)) s rs) = true <->
  Z.max 2 (live / 2 + 1) <= Z.of_nat (size (list_to_set rs : gset bytes)).
Proof.
  intros He Hne Hr Hn Hp live. set (s' := foldl _ s rs).
  destruct (reports_keep nm rs s) as (He' & Hh & Hnd). fold s' in He', Hh, Hnd.
  unfold checkFailQuorum. rewrite He', He, bool_decide_eq_false_2 by done. cbn [negb orb].
  unfold getNode, node_at in Hn |- *. rewrite Hnd. rewrite Hh. rewrite Hn, Hp. cbn [negb].
  assert (count_nodes (fun n => isMaster n && connected_ n && negb (isFailed n)) (state_ s') = live) as ->.
  { unfold live, count_nodes, getAllNodes. by rewrite Hh, Hnd. }
  rewrite Z.leb_le. unfold getPfailReportCount. unfold s'. rewrite reports_fold.
  destruct rs as [|r rs].
  - rewrite Hr. cbn. rewrite size_empty. done.
  - rewrite Hr, lookup_insert_eq. cbn [default]. by rewrite (right_id_L ∅ (∪)).
Qed.

Lemma fail_quorum_distinct_witness :
  let s := on_state (markNodeAsPfail 5 (lit "10.0.0.2:7000")) pair_cluster in
  checkFailQuorum (lit "10.0.0.2:7000")
    (foldl (fun s r => run s (OReport (lit "10.0.0.2:7000") r)) s [lit "a"; lit "b"; lit "a"]) = true.
Proof.
  refine (proj2 (fail_quorum_distinct (lit "10.0.0.2:7000")
    (incrementFailureCount (setPfailFlag 5 true
      (new_node (lit "10.0.0.2:7000") (lit "10.0.0.2") 7000 kMaster))) [lit "a"; lit "b"; lit "a"]
    (on_state (markNodeAsPfail 5 (lit "10.0.0.2:7000")) pair_cluster) _ _ _ _ _) _);
    by vm_compute.
Defined.

(** ** Votes *)

Record auth_request := mkReq {
  rq_master_offset : Z; rq_max_lag : Z; rq_replica : bytes; rq_epoch : Z; rq_offset : Z
}.

(** The votes a node gives to a sequence of requests. *)
Fixpoint grants (rs : list auth_request) (s : ClusterServer) : list (bytes * Z) :=
  match rs with
  | [] => []
  | r :: rs =>
      let '(ok, s') := handleFailoverAuthRequest (rq_master_offset r) (rq_max_lag r)
                         (rq_replica r) (rq_epoch r) (rq_offset r) s in
      (if ok then [(rq_replica r, rq_epoch r)] else []) ++ grants rs s'
  end.

Lemma my_node_on_my_node f s : my_node (on_my_node f s) = f <$> my_node s.
Proof.
  unfold my_node, on_my_node. destruct (my_node_ s) as [i|] eqn:E; [|by rewrite E].
  change (my_node_ (on_state (on_node i f) s)) with (my_node_ s). rewrite E. cbn [mbind option_bind].
  rewrite node_at_on_node. by rewrite decide_True.
Qed.

Lemma grants_epochs rs s n :
  my_node s = Some n ->
  StronglySorted Z.lt (grants rs s).*2 /\ Forall (fun e => failover_epoch_ n < e) (grants rs s).*2.
Proof.
  revert s n. induction rs as [|r rs IH]; intros s n Hn; cbn [grants]; [by repeat constructor|].
  destruct (handleFailoverAuthRequest _ _ _ _ _ s) as [ok s'] eqn:Hh.
  unfold handleFailoverAuthRequest in Hh. rewrite Hn in Hh.
  repeat match type of Hh with
  | (if ?b then _ else _) = _ => destruct b eqn:?
  | match getNode ?a ?b with _ => _ end = _ => destruct (getNode a b)
  end; simplify_eq; cbn [app]; try (by apply IH).
  match goal with |- context [grants rs ?s'] => destruct (IH s' (setFailoverEpoch (rq_epoch r)
    (addVote (rq_replica r) (rq_epoch r) (rq_offset r) n))) as [Hs Hf] end.
  { by rewrite my_node_on_my_node, Hn. }
  rewrite ?Z.leb_gt in *. cbn in Hf. cbn. split; [by constructor|]. constructor; [lia|].
  eapply Forall_impl; [exact Hf|]. intros e He. cbn in He |- *. lia.
Qed.

(** C36: a master never gives two votes in the same epoch: the epochs of the votes
    it gives to any sequence of requests increase, so a repeated or delayed
    request gets nothing. *)
Theorem one_vote_per_epoch rs s n :
  my_node s = Some n ->
  StronglySorted Z.lt (grants rs s).*2 /\ NoDup (grants rs s).*2 /\
  Forall (fun v => failover_epoch_ n < v.2) (grants rs s).
Proof.
  intros Hn. destruct (grants_epochs rs s n Hn) as [Hs Hf]. split; [done|]. split.
  - clear Hf. induction Hs as [|e l Hs IH Hl]; constructor; [|done].
    intros Hin. rewrite Forall_forall in Hl. specialize (Hl e Hin). lia.
  - by rewrite Forall_fmap in Hf.
Qed.

Lemma one_vote_per_epoch_witness :
  NoDup (grants [mkReq 0 0 (lit "10.0.0.2:7000") 4 0; mkReq 0 0 (lit "10.0.0.2:7000") 4 0]
    pair_cluster).*2.
Proof.
  refine (proj1 (proj2 (one_vote_per_epoch _ pair_cluster
    (new_node (lit "10.0.0.1:7000") (lit "10.0.0.1") 7000 kMaster) _))).
  by vm_compute.
Defined.

Lemma acks_votes acks s n :
  my_node s = Some n ->
  exists n', my_node (foldl (fun s nm => handleFailoverAuthAck nm s) s acks) = Some n' /\
    getVoteCount n' = getVoteCount n + zlen acks /\ failover_state_ n' = failover_state_ n /\
    failover_start_time_ n' = failover_start_time_ n /\ info_ n' = info_ n /\
    slots_ n' = slots_ n /\ master_node_ n' = master_node_ n.
Proof.
  revert s n. induction acks as [|nm acks IH]; intros s n Hn; cbn [foldl].
  - exists n. split; [done|]. split; [unfold zlen; cbn; lia|done].
  - destruct (IH (handleFailoverAuthAck nm s) (addVote nm (failover_epoch_ n) (master_repl_offset_ n) n))
      as (n' & Hn' & Hc & Hrest).
    { unfold handleFailoverAuthAck. by rewrite my_node_on_my_node, Hn. }
    exists n'. split; [done|]. split; [|done]. rewrite Hc. unfold getVoteCount. cbn.
    rewrite zlen_app, zlen_cons. unfold zlen. cbn [length]. lia.
Qed.

(** ** Failover *)

Lemma fold_on_node {A} (f : A -> ClusterNode -> ClusterNode) i l s :
  foldl (fun s a => on_state (on_node i (f a)) s) s l =
  on_state (on_node i (fun n => foldl (fun n a => f a n) n l)) s.
Proof.
  revert s. induction l as [|a l IH]; intros s; cbn [foldl].
  - unfold on_state, with_state, on_node. rewrite alter_id by done. by destruct s as [? ? ? []].
  - rewrite IH. unfold on_state, with_state, on_node. cbn. by rewrite alter_alter_eq.
Qed.

Lemma delSlots_slots l n :
  foldl (fun n slot => node_delSlot slot n) n l = set_slots (filter (fun x => x ∉ l) (slots_ n)) n.
Proof.
  revert n. induction l as [|a l IH]; intros n; cbn [foldl].
  - assert (filter (fun x => x ∉ []) (slots_ n) = slots_ n) as ->; [|by destruct n].
    induction (slots_ n) as [|x l IH]; [done|]. rewrite filter_cons_True by set_solver. by f_equal.
  - rewrite IH. cbn. rewrite list_filter_filter. unfold node_delSlot, set_slots. cbn. f_equal.
    apply list_filter_iff. intros x. set_solver.
Qed.

(** Taking over a list of slots, one by one. *)
Lemma take_slots l s me n :
  cluster_ok s me -> node_at me s = Some n ->
  let s' := foldl (fun s slot => setSlotOwner slot (getMyNodeName s) s) s l in
  cluster_ok s' me /\ outbox s' = outbox s /\ enabled_ s' = enabled_ s /\
  node_at me s' = Some (foldl (fun n slot => addSlot slot n) n l) /\
  (forall j, j <> me -> node_at j s' = node_at j s) /\
  (forall slot, slot_map (state_ s') !! slot =
    if decide (slot ∈ l) then Some me else slot_map (state_ s) !! slot) /\
  (forall slot, migrating_slots_ (state_ s') !! slot =
    if decide (slot ∈ l) then None else migrating_slots_ (state_ s) !! slot) /\
  (forall slot, importing_slots_ (state_ s') !! slot =
    if decide (slot ∈ l) then None else importing_slots_ (state_ s) !! slot) /\
  replicas_ (state_ s') = replicas_ (state_ s).
Proof.
  cbv zeta. revert s n. induction l as [|a l IH]; intros s n Hok Hn; cbn [foldl].
  - by split_and!.
  - set (s1 := setSlotOwner a (getMyNodeName s) s).
    assert (s1 = on_state (on_node me (addSlot a)) (on_state (fun st => setNodeForSlot a me
      (clearSlotMigration a st)) s)) as Hs1.
    { unfold s1, setSlotOwner. by rewrite (ok_listed _ _ Hok). }
    assert (cluster_ok s1 me) as Hok1 by (eapply keeps_ok; [apply keeps_owner|done]).
    assert (forall j, node_at j s1 = if decide (me = j) then addSlot a <$> node_at j s else node_at j s) as Hat.
    { intros j. rewrite Hs1, node_at_on_node. done. }
    destruct (IH s1 (addSlot a n)) as (Hok' & Ho & He & Hme & Hj & Hsl & Hmi & Him & Hre); [done| |].
    { rewrite Hat, decide_True by done. by rewrite Hn. }
    assert (forall {A} (x y z : A) slot, (if decide (slot ∈ l) then x else if decide (slot = a) then x else z) =
      if decide (slot ∈ a :: l) then x else z) as Hif.
    { intros A x y z slot. repeat case_decide; set_solver. }
    split_and!; [done|by rewrite Ho, Hs1|by rewrite He, Hs1|done| |..|by rewrite Hre, Hs1].
    + intros j Hne. rewrite Hj, Hat by done. by rewrite decide_False.
    + intros slot. rewrite Hsl, Hs1, <-(Hif _ _ (Some me)). cbn.
      destruct (decide (slot = a)) as [->|]; by rewrite ?lookup_insert_eq, ?lookup_insert_ne.
    + intros slot. rewrite Hmi, Hs1, <-(Hif _ _ None). cbn.
      destruct (decide (slot = a)) as [->|]; by rewrite ?lookup_delete_eq, ?lookup_delete_ne.
    + intros slot. rewrite Him, Hs1, <-(Hif _ _ None). cbn.
      destruct (decide (slot = a)) as [->|]; by rewrite ?lookup_delete_eq, ?lookup_delete_ne.
Qed.

Lemma addSlots_slots l n :
  let n' := foldl (fun n slot => addSlot slot n) n l in
  (forall x, x ∈ slots_ n' <-> x ∈ slots_ n \/ x ∈ l) /\ n' = set_slots (slots_ n') n.
Proof.
  cbv zeta. revert n. induction l as [|a l IH]; intros n; cbn [foldl].
  - split; [set_solver|by destruct n].
  - destruct (IH (addSlot a n)) as [Hx Hn]. split.
    + intros x. rewrite Hx. unfold addSlot. case_bool_decide; cbn; set_solver.
    + etrans; [exact Hn|]. unfold addSlot. by case_bool_decide.
Qed.

(** A node that is master of itself again. *)
Definition cleared (n : ClusterNode) : ClusterNode :=
  clear_replicaof (setMasterNode None (setReplicationState rNone (setRole kMaster n))).

Lemma my_node_at s me : cluster_ok s me -> my_node s = node_at me s.
Proof. intros Hok. unfold my_node. by rewrite (ok_me _ _ Hok). Qed.

Lemma on_my_node_at f s me :
  cluster_ok s me -> on_my_node f s = on_state (on_node me f) s.
Proof. intros Hok. unfold on_my_node. by rewrite (ok_me _ _ Hok). Qed.

(** The parts of a server that leaving the master does not touch. *)
Definition same_rest (s s' : ClusterServer) : Prop :=
  slot_map (state_ s') = slot_map (state_ s) /\ outbox s' = outbox s /\ enabled_ s' = enabled_ s /\
  migrating_slots_ (state_ s') = migrating_slots_ (state_ s) /\
  importing_slots_ (state_ s') = importing_slots_ (state_ s).

(** Which names the nodes have decides what is taken out of a list of replicas. *)
Lemma removeReplica_same a b st st' :
  replicas_ st' = replicas_ st -> (forall i, (getName <$> heap st' !! i) = getName <$> heap st !! i) ->
  replicas_ (removeReplica a b st') = replicas_ (removeReplica a b st).
Proof.
  intros Hr Hh. assert (forall l, erase_named (heap st') b l = erase_named (heap st) b l) as He.
  { induction l as [|i l IH]; [done|]. cbn. by rewrite Hh, IH. }
  unfold removeReplica. rewrite Hr. destruct (replicas_ st !! a); [|done]. cbn. by rewrite He.
Qed.

Lemma clearReplicaOf_spec s me n :
  cluster_ok s me -> node_at me s = Some n -> node_isReplica n = true ->
  node_at me (clearReplicaOf s) = Some (cleared n) /\
  (forall j, j <> me -> node_at j (clearReplicaOf s) = node_at j s) /\
  same_rest s (clearReplicaOf s) /\
  (forall m mn, getMyMaster s = Some m -> node_at m s = Some mn ->
     replicas_ (state_ (clearReplicaOf s)) = replicas_ (removeReplica (getName mn) (getMyNodeName s) (state_ s))).
Proof.
  intros Hok Hn Hr. unfold clearReplicaOf, isReplica. rewrite (my_node_at _ _ Hok), Hn, Hr. cbn [negb].
  set (s1 := match _ ≫= _ with Some m => _ | None => s end).
  assert (my_node_ s1 = my_node_ s /\ heap (state_ s1) = heap (state_ s) /\ same_rest s s1)
    as (Hm & Hh & Hsame).
  { unfold s1. destruct (_ ≫= _) as [x|]; [|done]. unfold same_rest. cbn.
    unfold removeReplica. by destruct (replicas_ (state_ s) !! getName x). }
  unfold on_my_node. rewrite Hm, (ok_me _ _ Hok). split; [|split; [|split; [done|]]].
  - rewrite node_at_on_node, decide_True by done. unfold node_at in *. by rewrite Hh, Hn.
  - intros j Hj. rewrite node_at_on_node, decide_False by done. unfold node_at. by rewrite Hh.
  - intros m mn Hmm Hmn. unfold s1. rewrite Hmm. cbn [mbind option_bind]. by rewrite Hmn.
Qed.

(** The state of a replica whose election is won. *)
Record elected (s : ClusterServer) (me m : nid) (n mn : ClusterNode) : Prop := {
  el_ok : cluster_ok s me;
  el_enabled : enabled_ s = true;
  el_me : node_at me s = Some n;
  el_replica : node_isReplica n = true;
  el_state : failover_state_ n = kFailoverInProgress;
  el_master : getMyMaster s = Some m;
  el_master_node : node_at m s = Some mn;
  el_listed : nodes_ (state_ s) !! getName mn = Some m;
  el_ne : m <> me
}.

Lemma executeFailover_elected t s me m n mn :
  elected s me m n mn -> executeFailover t s = completeFailover s.
Proof.
  intros [Hok He Hn Hr Hst Hm Hmn _ _]. unfold executeFailover, isReplica.
  rewrite He, (my_node_at _ _ Hok), Hn, Hr, Hm. cbn [negb orb mbind option_bind].
  by rewrite Hmn, Hst.
Qed.

Lemma takeover s me m n mn :
  elected s me m n mn ->
  let s' := completeFailover s in
  (exists n', node_at me s' = Some n' /\ isMaster n' = true /\ node_isReplica n' = false /\
     failover_state_ n' = kFailoverCompleted /\ getConfigEpoch n' = getConfigEpoch n + 1 /\
     forall slot, slot ∈ slots_ n' <-> slot ∈ slots_ n \/ slot ∈ slots_ mn) /\
  node_at m s' = Some (set_slots [] mn) /\
  (forall j, j <> me -> j <> m -> node_at j s' = node_at j s) /\
  (forall slot, slot_map (state_ s') !! slot =
     if decide (slot ∈ slots_ mn) then Some me else slot_map (state_ s) !! slot) /\
  (forall slot, migrating_slots_ (state_ s') !! slot =
     if decide (slot ∈ slots_ mn) then None else migrating_slots_ (state_ s) !! slot) /\
  (forall slot, importing_slots_ (state_ s') !! slot =
     if decide (slot ∈ slots_ mn) then None else importing_slots_ (state_ s) !! slot) /\
  replicas_ (state_ s') = replicas_ (removeReplica (getName mn) (getMyNodeName s) (state_ s)) /\
  nodes_ (state_ s') = nodes_ (state_ s) /\ outbox s' = outbox s /\ cluster_ok s' me.
Proof.
  intros [Hok He Hn Hr Hst Hm Hmn Hlisted Hne] s'.
  assert (nodes_ (state_ s') = nodes_ (state_ s)) as Hnodes
    by apply (sr_nodes _ _ (proj1 (keeps_completeFailover s))).
  assert (cluster_ok s' me) as Hok' by (eapply keeps_ok; [apply keeps_completeFailover|done]).
  unfold s', completeFailover in Hok', Hnodes |- *. unfold isReplica in Hok', Hnodes |- *.
  rewrite He, (my_node_at _ _ Hok), Hn, Hr, Hm in *. cbn [negb orb] in Hok', Hnodes |- *.
  rewrite Hmn in Hok', Hnodes |- *. cbn [default fmap option_fmap option_map] in Hok', Hnodes |- *.
  rewrite fold_on_node in Hok', Hnodes |- *. set (s1 := on_state (on_node m _) s) in *.
  assert (cluster_ok s1 me) as Hok1.
  { eapply keeps_ok; [apply keeps_on_node; intros x; by rewrite delSlots_slots|done]. }
  assert (node_at m s1 = Some (set_slots [] mn)) as Hm1.
  { unfold s1. rewrite node_at_on_node, decide_True, Hmn by done. cbn. rewrite delSlots_slots. do 2 f_equal.
    apply elem_of_nil_inv. intros x. rewrite list_elem_of_filter. tauto. }
  assert (forall j, j <> m -> node_at j s1 = node_at j s) as Hj1.
  { intros j Hj. unfold s1. by rewrite node_at_on_node, decide_False. }
  destruct (take_slots (slots_ mn) s1 me n Hok1 ltac:(by rewrite Hj1)) as (Hok2 & Ho2 & He2 & Hme2 & Hj2 & Hs2 & Hmi2 & Him2 & Hre2).
  assert (same_routes s (foldl (fun s slot => setSlotOwner slot (getMyNodeName s) s) s1 (slots_ mn))) as Hsr2.
  { refine (proj1 (_ : keeps _ _)). etrans; [|apply keeps_foldl; intros; apply keeps_owner].
    apply keeps_on_node. intros x. by rewrite delSlots_slots. }
  set (s2 := foldl _ s1 _) in *. destruct (addSlots_slots (slots_ mn) n) as [Hin Hshape].
  set (n2 := foldl _ n _) in *.
  destruct (clearReplicaOf_spec s2 me n2 Hok2 Hme2) as (Hme3 & Hj3 & (Hs3 & Ho3 & He3 & Hmi3 & Him3) & Hre3).
  { by rewrite Hshape. }
  assert (getMyMaster s2 = Some m) as Hm2.
  { unfold getMyMaster in Hm |- *. rewrite (my_node_at _ _ Hok), Hn in Hm. rewrite (my_node_at _ _ Hok2), Hme2, Hshape.
    cbn [mbind option_bind set_slots master_node_] in Hm |- *. destruct (master_node_ n) as [i|]; [|done].
    assert (i = m) as -> by (cbn [mbind option_bind] in Hm; by destruct (alive i s); [injection Hm|]).
    cbn [mbind option_bind].
    enough (alive m s2 = true) as -> by done. unfold alive. rewrite (sr_nodes _ _ Hsr2).
    rewrite (bool_decide_eq_true_2 (m ∈ (map_to_list (nodes_ (state_ s))).*2)); [by rewrite !orb_true_r|].
    apply list_elem_of_fmap. exists (getName mn, m). by rewrite elem_of_map_to_list. }
  specialize (Hre3 m _ Hm2 ltac:(by rewrite Hj2, Hm1)). cbn [getName set_slots info_] in Hre3.
  set (s3 := clearReplicaOf s2) in *.
  assert (cluster_ok s3 me) as Hok3 by (eapply keeps_ok; [apply keeps_clearReplicaOf|done]).
  rewrite (on_my_node_at _ _ _ Hok3) in Hnodes |- *. split_and!; [|..|by rewrite <-(on_my_node_at _ _ _ Hok3)].
  - eexists. rewrite node_at_on_node, decide_True, Hme3 by done. split; [done|].
    split; [done|]. split; [done|]. split; [done|]. split; [by rewrite Hshape|done].
  - rewrite node_at_on_node, decide_False by done. by rewrite Hj3, Hj2, Hm1.
  - intros j H1 H2. rewrite node_at_on_node, decide_False by done. by rewrite Hj3, Hj2, Hj1.
  - intros slot. change (slot_map (state_ (on_state _ s3))) with (slot_map (state_ s3)).
    by rewrite Hs3, Hs2.
  - intros slot. change (migrating_slots_ (state_ (on_state _ s3))) with (migrating_slots_ (state_ s3)).
    by rewrite Hmi3, Hmi2.
  - intros slot. change (importing_slots_ (state_ (on_state _ s3))) with (importing_slots_ (state_ s3)).
    by rewrite Him3, Him2.
  - change (replicas_ (state_ s3) = replicas_ (removeReplica (getName mn) (getMyNodeName s) (state_ s))).
    rewrite Hre3, (getMyNodeName_same _ _ Hsr2). apply removeReplica_same; [by rewrite Hre2|].
    intros i. pose proof (sr_static _ _ Hsr2 i) as Hi. unfold static_at, node_at in Hi.
    destruct (heap (state_ s2) !! i), (heap (state_ s) !! i); cbn in Hi |- *; try done. unfold static in Hi. congruence.
  - exact Hnodes.
  - change (outbox s3 = outbox s). by rewrite Ho3, Ho2.
Qed.

(** A replica whose master failed and that got a vote. *)
Definition elected_ops : list cl_op :=
  [OOwner 5 (lit "10.0.0.2:7000"); OReplicaOf (lit "10.0.0.2:7000");
   OMarkFail 5 (lit "10.0.0.2:7000"); OTick 10; OTick 11; OAck (lit "c"); OTick 12].

Definition elected_cluster : ClusterServer := foldl run pair_cluster elected_ops.

Definition sample_node (i : nid) (s : ClusterServer) : ClusterNode :=
  default (new_node [] [] 0 kMaster) (node_at i s).

Lemma elected_sample :
  elected elected_cluster 0 1 (sample_node 0 elected_cluster) (sample_node 1 elected_cluster).
Proof. split; [apply runs_ok, pair_ok|by vm_compute..|done]. Qed.

(** The takeover is never announced and never finished: once the replica is a
    master the timer leaves it at the first test, so the state stays at
    kFailoverCompleted, the update is not broadcast, and the votes are kept. *)
Theorem failover_never_announced t s me m n mn times :
  elected s me m n mn ->
  let s' := executeFailover t s in
  foldl (fun s t => executeFailover t s) s' times = s' /\ outbox s' = outbox s /\
  (failover_state_ <$> my_node s') = Some kFailoverCompleted.
Proof.
  intros He. rewrite (executeFailover_elected t _ _ _ _ _ He). cbv zeta.
  destruct (takeover s me m n mn He) as ((n' & Hn & _ & Hr & Hst & _) & _ & _ & _ & _ & _ & _ & _ & Ho & Hok).
  set (s' := completeFailover s) in *. split_and!; [|done|by rewrite (my_node_at _ _ Hok), Hn, <-Hst].
  induction times as [|x times IH]; [done|]. cbn [foldl].
  assert (executeFailover x s' = s') as ->; [|done].
  unfold executeFailover, isReplica. rewrite (my_node_at _ _ Hok), Hn, Hr. by rewrite orb_true_r.
Qed.

Lemma failover_never_announced_witness :
  outbox (executeFailover 13 elected_cluster) = outbox elected_cluster.
Proof. exact (proj1 (proj2 (failover_never_announced 13 _ _ _ _ _ [14; 15] elected_sample))). Defined.

(** ** The tally *)

Lemma lookup_alter_if {A} (f : A -> A) i j (h : gmap nid A) :
  alter f i h !! j = if decide (i = j) then f <$> h !! j else h !! j.
Proof. destruct (decide (i = j)) as [->|]; [apply lookup_alter_eq|by apply lookup_alter_ne]. Qed.

Lemma count_on_node P i f st :
  (forall n, P (f n) = P n) -> count_nodes P (on_node i f st) = count_nodes P st.
Proof.
  intros Hf. unfold count_nodes, getAllNodes, zlen. f_equal.
  change (nodes_ (on_node i f st)) with (nodes_ st).
  change (heap (on_node i f st)) with (alter f i (heap st)).
  induction ((map_to_list (nodes_ st)).*2) as [|j l IH]; [done|].
  simpl. rewrite lookup_alter_if. destruct (heap st !! j) as [n|]; case_decide; simpl; try done;
    rewrite !filter_cons, ?Hf; case_decide; simpl; first [exact IH|f_equal; exact IH].
Qed.

Lemma acks_frame acks s me :
  cluster_ok s me ->
  let s' := foldl (fun s nm => handleFailoverAuthAck nm s) s acks in
  cluster_ok s' me /\ enabled_ s' = enabled_ s /\ (forall i, alive i s' = alive i s) /\
  (forall j, j <> me -> node_at j s' = node_at j s) /\
  count_nodes (fun n => isMaster n && negb (isFailed n)) (state_ s') =
    count_nodes (fun n => isMaster n && negb (isFailed n)) (state_ s).
Proof.
  cbv zeta. revert s. induction acks as [|nm acks IH]; intros s Hok; cbn [foldl]; [done|].
  set (s1 := handleFailoverAuthAck nm s).
  assert (exists f, s1 = on_state (on_node me f) s /\ (forall n, static (f n) = static n) /\
    forall n, isMaster (f n) && negb (isFailed (f n)) = isMaster n && negb (isFailed n)) as (f & Hs1 & Hst & HP).
  { eexists. split; [unfold s1, handleFailoverAuthAck; by apply on_my_node_at|done]. }
  destruct (IH s1) as (Hok' & He & Ha & Hj & Hc).
  { rewrite Hs1. eapply keeps_ok; [by apply keeps_on_node|done]. }
  split_and!; [done|by rewrite He, Hs1|intros i; by rewrite Ha, Hs1| |].
  - intros j Hne. rewrite Hj, Hs1, node_at_on_node by done. by rewrite decide_False.
  - rewrite Hc, Hs1. by apply (count_on_node (fun n => isMaster n && negb (isFailed n))).
Qed.

(** A replica whose election is running and that has no vote yet. *)
Record awaiting (s : ClusterServer) (me m : nid) (n mn : ClusterNode) : Prop := {
  aw_ok : cluster_ok s me;
  aw_enabled : enabled_ s = true;
  aw_me : node_at me s = Some n;
  aw_replica : node_isReplica n = true;
  aw_state : failover_state_ n = kWaitAuth;
  aw_master : getMyMaster s = Some m;
  aw_master_node : node_at m s = Some mn;
  aw_ne : m <> me
}.

(** The masters that count, of which a majority has to agree. *)
Definition live_masters (s : ClusterServer) : Z :=
  count_nodes (fun n => isMaster n && negb (isFailed n)) (state_ s).

(** What the replica is after the acknowledgements. *)
Lemma acks_awaiting acks s me m n mn :
  awaiting s me m n mn ->
  let s' := foldl (fun s nm => handleFailoverAuthAck nm s) s acks in
  exists n', awaiting s' me m n' mn /\ getVoteCount n' = getVoteCount n + zlen acks /\
    failover_start_time_ n' = failover_start_time_ n /\ info_ n' = info_ n /\ slots_ n' = slots_ n /\
    live_masters s' = live_masters s /\ same_routes s s' /\
    (forall j, j <> me -> node_at j s' = node_at j s) /\
    exists h, s' = on_state (fun st => mkState h (my_node_name_ st) (nodes_ st) (slot_map st)
      (migrating_slots_ st) (importing_slots_ st) (replicas_ st) (pfailing_reports_ st)) s.
Proof.
  intros [Hok He Hn Hr Hst Hm Hmn Hne] s'.
  destruct (acks_frame acks s me Hok) as (Hok' & He' & Ha & Hj & Hc). fold s' in Hok', He', Ha, Hj, Hc.
  destruct (acks_votes acks s n) as (n' & Hn' & Hv & Hst' & Htm & Hi & Hsl & Hmst).
  { by rewrite (my_node_at _ _ Hok). }
  fold s' in Hn'. exists n'. split_and!; try done.
  - split; try done.
    + by rewrite He'.
    + by rewrite <-(my_node_at _ _ Hok').
    + unfold node_isReplica in *. by rewrite Hi.
    + by rewrite Hst'.
    + unfold getMyMaster in *. rewrite (my_node_at _ _ Hok), Hn in Hm. rewrite Hn'. cbn in *.
      rewrite Hmst. destruct (master_node_ n) as [i|]; [|done]. cbn in *. by rewrite Ha.
    + by rewrite Hj.
  - apply (keeps_foldl _ acks s). intros. by apply keeps_my_node.
  - clear. unfold s'. clear s'. revert s. induction acks as [|nm acks IH]; intros s; cbn [foldl].
    + exists (heap (state_ s)). by destruct s as [? ? ? []].
    + destruct (IH (handleFailoverAuthAck nm s)) as [h ->]. exists h. unfold handleFailoverAuthAck, on_my_node.
      by destruct (my_node_ s).
Qed.

(** The replica counts what it has got. *)
Lemma count_votes t s me m n mn :
  awaiting s me m n mn -> isFailoverTimeout t n = false ->
  executeFailover t s =
    if live_masters s / 2 + 1 <=? getVoteCount n then on_my_node (setFailoverState kFailoverInProgress) s else s.
Proof.
  intros [Hok He Hn Hr Hst Hm Hmn Hne] Ht. unfold executeFailover, isReplica.
  rewrite He, (my_node_at _ _ Hok), Hn, Hr, Hm. cbn [negb orb mbind option_bind]. by rewrite Hmn, Hst, Ht.
Qed.

(** The tally of an election counts acknowledgements, not masters: after any
    acknowledgements, repeated ones of one node included, the replica proceeds
    exactly when they are as many as a majority of the masters. *)
Theorem election_tally acks t s me m n mn :
  awaiting s me m n mn -> isFailoverTimeout t n = false ->
  let s' := foldl (fun s nm => handleFailoverAuthAck nm s) s acks in
  (failover_state_ <$> my_node (executeFailover t s')) =
    Some (if live_masters s / 2 + 1 <=? getVoteCount n + zlen acks then kFailoverInProgress else kWaitAuth).
Proof.
  intros Ha Ht s'. destruct (acks_awaiting acks s me m n mn Ha) as (n' & Ha' & Hv & Htm & _ & _ & Hc & _).
  fold s' in Ha', Hc. rewrite (count_votes t s' me m n' mn Ha') by (unfold isFailoverTimeout in *; by rewrite Htm).
  rewrite Hc, Hv. pose proof (my_node_at _ _ (aw_ok _ _ _ _ _ Ha')) as Hme. rewrite (aw_me _ _ _ _ _ Ha') in Hme.
  destruct (_ <=? _).
  - by rewrite my_node_on_my_node, Hme.
  - rewrite Hme. cbn. by rewrite (aw_state _ _ _ _ _ Ha').
Qed.

Lemma election_tally_witness :
  let s := foldl run pair_cluster (take 5 elected_ops) in
  (failover_state_ <$> my_node (executeFailover 12 (foldl (fun s nm => handleFailoverAuthAck nm s) s
    [lit "c"; lit "c"]))) = Some kFailoverInProgress.
Proof.
  intros s. refine (election_tally [lit "c"; lit "c"] 12 s 0 1 (sample_node 0 s) (sample_node 1 s) _ _);
    [split; [apply runs_ok, pair_ok|by vm_compute..|done]|by vm_compute].
Defined.

(** A master of the cluster that is not marked as failed. *)
Definition live_master (s : ClusterServer) (nm : bytes) : Prop :=
  exists j x, nodes_ (state_ s) !! nm = Some j /\ node_at j s = Some x /\ isMaster x = true /\ isFailed x = false.


(** Three nodes: a replica whose master has failed gets the vote of the third. *)
Definition trio_ops : list cl_op :=
  [OMeet (lit "10.0.0.3") 7000; OOwner 5 (lit "10.0.0.2:7000"); OReplicaOf (lit "10.0.0.2:7000");
   OMarkFail 5 (lit "10.0.0.2:7000"); OTick 10; OTick 11].

End ClusterProps.
