(* ===== verification/Link.v ===== *)
(** * The cluster bus: cluster/cluster_link.h, cluster_link.cpp

    The frames of the bus: the header as it lies in memory on a little-endian
    host, the two codecs of the argument area, and the link that cuts the
    received bytes into messages. The buffers of a link are any [ByteQueue].
    What the message callback gets is the list of messages; the calls of the
    disconnect callback are counted. *)

From S2P Require Import Prelude Base Buffer Payload.
From stdpp Require Import options.

Module Link.
Import Text Payload.

(** ** The header *)

(** The [n] low bytes of [v], the lowest first. *)
Fixpoint le (n : nat) (v : Z) : bytes :=
  match n with
  | O => []
  | S n => ascii_of_N (Z.to_N (Z.land v 255)) :: le n (Z.shiftr v 8)
  end.

Definition le_val (l : bytes) : Z := foldr (fun c v => byte_val c + 256 * v) 0 l.

Definition NUL : ascii := "000"%char.

Record ClusterMsgHeader := mkHeader {
  h_magic : Z;
  h_version : Z;
  h_type : Z;
  h_length : Z;
  h_sender_epoch : Z;
  h_sender_name : bytes;     (** 40 bytes *)
  h_flags : Z;
  h_port : Z;
  h_state : Z;
  h_slot_map : bytes         (** 2048 bytes *)
}.

Definition kMsgMagic : Z := 67.
Definition kBusFramingVersion : Z := 2.
Definition kBusFramingLegacyVersion : Z := 1.
Definition kHeaderSize : nat := Z.to_nat 2120.
Definition kMaxPacketBytes : Z := 268435456.

(** The object representation; four bytes of padding precede the epoch. *)
Definition header_bytes (h : ClusterMsgHeader) : bytes :=
  le 4 (h_magic h) ++ le 2 (h_version h) ++ le 2 (h_type h) ++ le 4 (h_length h) ++
  replicate 4 NUL ++ le 8 (h_sender_epoch h) ++ h_sender_name h ++ le 2 (h_flags h) ++
  le 2 (h_port h) ++ le 4 (h_state h) ++ h_slot_map h.

(** [memcpy] of a field of the header. *)
Definition field (off n : nat) (d : bytes) : bytes := take n (drop off d).

Definition header_of (d : bytes) : ClusterMsgHeader :=
  mkHeader (le_val (field 0 4 d)) (le_val (field 4 2 d)) (le_val (field 6 2 d))
    (le_val (field 8 4 d)) (le_val (field 16 8 d)) (field 24 40 d) (le_val (field 64 2 d))
    (le_val (field 66 2 d)) (le_val (field 68 4 d)) (field 72 (Z.to_nat 2048) d).

Record ClusterMsg := mkMsg { m_header : ClusterMsgHeader; m_args : list bytes }.

Definition new_msg : ClusterMsg :=
  mkMsg (mkHeader kMsgMagic kBusFramingVersion 0 0 0 (replicate 40 NUL) 0 0 0
          (replicate (Z.to_nat 2048) NUL)) [].

(** ** The argument area *)

Fixpoint digits_loop (fuel : nat) (v n : Z) : Z :=
  match fuel with
  | O => n
  | S fuel => if v <? 10 then n else digits_loop fuel (v / 10) (n + 1)
  end.

Definition decimal_digits (v : Z) : Z := digits_loop (S (Z.to_nat (Z.log2 v))) v 1.

Definition kMaxArgsPerFrame : Z := 1048576.

Definition bus_args_frame_bytes (args : list bytes) : Z :=
  foldl (fun b arg => b + (decimal_digits (zlen arg) + 1 + zlen arg))
    (decimal_digits (zlen args) + 1) args.

Definition bus_args_encode (args : list bytes) (out : bytes) : bytes :=
  foldl (fun out arg => out ++ to_string (zlen arg) ++ [LF] ++ arg)
    (out ++ to_string (zlen args) ++ [LF]) args.

(** [read_field] on what follows the position: the value and the new rest. *)
Definition read_field (rest : bytes) : option (Z * bytes) :=
  match split_line rest with
  | None => None
  | Some (text, rest) =>
      if (zlen text =? 0) || (10 <? zlen text) then None
      else if forallb is_digit text then Some (digits_val text, rest) else None
  end.

Fixpoint read_args (n : nat) (rest : bytes) : option (list bytes * bytes) :=
  match n with
  | O => Some ([], rest)
  | S n =>
      match read_field rest with
      | None => None
      | Some (arg_len, rest) =>
          if zlen rest <? arg_len then None
          else
            match read_args n (drop (Z.to_nat arg_len) rest) with
            | None => None
            | Some (args, rest') => Some (take (Z.to_nat arg_len) rest :: args, rest')
            end
      end
  end.

Definition bus_args_decode (data : bytes) : option (list bytes) :=
  match read_field data with
  | None => None
  | Some (count, rest) =>
      if (kMaxArgsPerFrame <? count) || (zlen data <? count) then None
      else
        match read_args (Z.to_nat count) rest with
        | Some (args, []) => Some args
        | _ => None
        end
  end.

Definition C0 : ascii := "192"%char.

Fixpoint legacy_loop (data cur : bytes) : list bytes :=
  match data with
  | [] => match cur with [] => [] | _ => [cur] end
  | c :: data =>
      if bool_decide (c = C0) then cur :: legacy_loop data [] else legacy_loop data (cur ++ [c])
  end.

Definition bus_args_decode_legacy (data : bytes) : list bytes := legacy_loop data [].

(** ** The link *)

Section link.
Context {B : Type} `{!ByteQueue B}.

Record ClusterLink := mkLink {
  node_name_ : bytes;
  connected_ : bool;
  send_buffer_ : B;
  recv_buffer_ : B;
  frame_invalid_ : bool;
  partial_frame_since_ms_ : Z;
  partial_frame_bytes_ : Z;
  partial_frame_declared_ : Z;
  last_recv_time_ : Z;
  notified : nat              (** calls of [disconnect_callback_] *)
}.

Definition with_recv (b : B) (l : ClusterLink) : ClusterLink :=
  mkLink (node_name_ l) (connected_ l) (send_buffer_ l) b (frame_invalid_ l)
    (partial_frame_since_ms_ l) (partial_frame_bytes_ l) (partial_frame_declared_ l)
    (last_recv_time_ l) (notified l).

Definition with_send (b : B) (l : ClusterLink) : ClusterLink :=
  mkLink (node_name_ l) (connected_ l) b (recv_buffer_ l) (frame_invalid_ l)
    (partial_frame_since_ms_ l) (partial_frame_bytes_ l) (partial_frame_declared_ l)
    (last_recv_time_ l) (notified l).

Definition set_invalid (l : ClusterLink) : ClusterLink :=
  mkLink (node_name_ l) (connected_ l) (send_buffer_ l) (recv_buffer_ l) true
    (partial_frame_since_ms_ l) (partial_frame_bytes_ l) (partial_frame_declared_ l)
    (last_recv_time_ l) (notified l).

Definition set_partial (since bytes0 declared : Z) (l : ClusterLink) : ClusterLink :=
  mkLink (node_name_ l) (connected_ l) (send_buffer_ l) (recv_buffer_ l) (frame_invalid_ l)
    since bytes0 declared (last_recv_time_ l) (notified l).

Definition update_last_recv_time (now : Z) (l : ClusterLink) : ClusterLink :=
  mkLink (node_name_ l) (connected_ l) (send_buffer_ l) (recv_buffer_ l) (frame_invalid_ l)
    (partial_frame_since_ms_ l) (partial_frame_bytes_ l) (partial_frame_declared_ l) now
    (notified l).

Definition disconnect (l : ClusterLink) : ClusterLink :=
  mkLink (node_name_ l) false (send_buffer_ l) (recv_buffer_ l) (frame_invalid_ l)
    (partial_frame_since_ms_ l) (partial_frame_bytes_ l) (partial_frame_declared_ l)
    (last_recv_time_ l) (notified l).

Definition disconnect_and_notify (l : ClusterLink) : ClusterLink :=
  if negb (connected_ l) then l
  else
    mkLink (node_name_ l) false (send_buffer_ l) (recv_buffer_ l) (frame_invalid_ l)
      (partial_frame_since_ms_ l) (partial_frame_bytes_ l) (partial_frame_declared_ l)
      (last_recv_time_ l) (S (notified l)).

(** The text of a C string. *)
Fixpoint c_str (s : bytes) : bytes :=
  match s with
  | [] => []
  | c :: s => if bool_decide (c = NUL) then [] else c :: c_str s
  end.

(** [snprintf(name, 40, "%s", s)]. *)
Definition put_name (s old : bytes) : bytes :=
  let t := take 39 (c_str s) in t ++ [NUL] ++ drop (length t + 1) old.

(** The frame of a message of the node [my_name], [None] for one over the
    limit. *)
Definition frame_of (my_name : bytes) (m : ClusterMsg) : option bytes :=
  let h := m_header m in
  let name :=
    if bool_decide (head (h_sender_name h) = Some NUL) && negb (bool_decide (my_name = []))
    then put_name my_name (h_sender_name h) else h_sender_name h in
  let frame_bytes := Z.of_nat kHeaderSize + bus_args_frame_bytes (m_args m) in
  if kMaxPacketBytes <? frame_bytes then None
  else
    let h := mkHeader (h_magic h) kBusFramingVersion (h_type h) frame_bytes (h_sender_epoch h)
               name (h_flags h) (h_port h) (h_state h) (h_slot_map h) in
    Some (header_bytes h ++ bus_args_encode (m_args m) []).

Definition send_msg (my_name : bytes) (m : ClusterMsg) (l : ClusterLink) : bool * ClusterLink :=
  if negb (connected_ l) then (false, l)
  else
    match frame_of my_name m with
    | None => (false, l)
    | Some f => (true, with_send (bq_append f (send_buffer_ l)) l)
    end.

Definition with_type (t : Z) (args : list bytes) (m : ClusterMsg) : ClusterMsg :=
  let h := m_header m in
  mkMsg (mkHeader (h_magic h) (h_version h) t (h_length h) (h_sender_epoch h) (h_sender_name h)
          (h_flags h) (h_port h) (h_state h) (h_slot_map h)) args.

Definition send_ping (my_name : bytes) : ClusterLink -> bool * ClusterLink :=
  send_msg my_name (with_type 1 [] new_msg).
Definition send_pong (my_name : bytes) : ClusterLink -> bool * ClusterLink :=
  send_msg my_name (with_type 2 [] new_msg).
Definition send_meet (my_name my_ip : bytes) (my_port : Z) : ClusterLink -> bool * ClusterLink :=
  send_msg my_name (with_type 3 [my_ip; to_string my_port] new_msg).

Definition send_raw (data : bytes) (l : ClusterLink) : bool * ClusterLink :=
  if negb (connected_ l) then (false, l)
  else (true, with_send (bq_append data (send_buffer_ l)) l).

(** The loop of [read_complete] over bytes that do not start with the magic
    number: how many to skip. *)
Fixpoint skip_junk (d : bytes) : nat :=
  match d with
  | [] => 0
  | c :: d' =>
      if (byte_val c =? 67) && (kHeaderSize <=? length d)%nat && (le_val (take 4 d) =? kMsgMagic)
      then 0 else S (skip_junk d')
  end.

Definition read_complete (l : ClusterLink) : bool * ClusterLink :=
  let data := bq_peek (recv_buffer_ l) in
  if (length data <? kHeaderSize)%nat then (false, l)
  else if negb (le_val (take 4 data) =? kMsgMagic)
  then (false, with_recv (bq_retrieve (skip_junk data) (recv_buffer_ l)) l)
  else
    let msg_len := le_val (field 8 4 data) in
    if msg_len <? Z.of_nat kHeaderSize then (false, set_invalid l)
    else if kMaxPacketBytes <? msg_len then (false, set_invalid l)
    else (msg_len <=? zlen data, l).

(** The message, or [None] for a frame that must end the link. *)
Definition decode_msg (l : ClusterLink) : option ClusterMsg * ClusterLink :=
  let data := bq_peek (recv_buffer_ l) in
  let '(ok, l) := read_complete l in
  if negb ok then (None, l)
  else
    let h := header_of data in
    if h_length h <? Z.of_nat kHeaderSize then (None, l)
    else
      let args_size := (Z.to_nat (h_length h) - kHeaderSize)%nat in
      let area := take args_size (drop kHeaderSize data) in
      let args :=
        if h_version h =? kBusFramingVersion then bus_args_decode area
        else if h_version h =? kBusFramingLegacyVersion
        then Some (bus_args_decode_legacy area)
        else None in
      match args with
      | None => (None, l)
      | Some args =>
          (Some (mkMsg h args), with_recv (bq_retrieve (Z.to_nat (h_length h)) (recv_buffer_ l)) l)
      end.

(** The loop of [handle_read]: the messages, and whether a frame failed to
    decode. [None] is running out of fuel. *)
Fixpoint drain (fuel : nat) (l : ClusterLink) : option (list ClusterMsg * bool * ClusterLink) :=
  if frame_invalid_ l then Some ([], false, l)
  else
    match fuel with
    | O => None
    | S fuel =>
        let '(ok, l) := read_complete l in
        if negb ok then Some ([], false, l)
        else
          match decode_msg l with
          | (None, l) => Some ([], true, l)
          | (Some m, l) =>
              match drain fuel l with
              | Some (ms, failed, l) => Some (m :: ms, failed, l)
              | None => None
              end
          end
    end.

Definition kPartialFrameGraceMs : Z := 10000.
Definition kPartialFrameMinBytesPerSec : Z := 1048576.

Definition partial_frame_expired (declared_len buffered now_ms : Z) (l : ClusterLink)
    : bool * ClusterLink :=
  if declared_len =? 0 then (false, set_partial 0 0 0 l)
  else if (partial_frame_since_ms_ l =? 0) || negb (declared_len =? partial_frame_declared_ l)
          || (buffered <? partial_frame_bytes_ l)
  then (false, set_partial now_ms buffered declared_len l)
  else
    let l := set_partial (partial_frame_since_ms_ l) buffered (partial_frame_declared_ l) l in
    let limit_ms := kPartialFrameGraceMs + declared_len / kPartialFrameMinBytesPerSec * 1000 in
    (limit_ms <=? now_ms - partial_frame_since_ms_ l, l).

(** What [recv] gives. *)
Inductive recv_result := Got (data : bytes) | Eof | Again | RecvError.

(** The length the frame at the head of the buffer declares; 0 when none is
    pending. *)
Definition pending_declared (data : bytes) : Z :=
  if (kHeaderSize <=? length data)%nat then
    if le_val (take 4 data) =? kMsgMagic
    then let declared := le_val (field 8 4 data) in
         if zlen data <? declared then declared else 0
    else 0
  else if (0 <? length data)%nat then Z.of_nat kHeaderSize
  else 0.

Definition handle_read (now : Z) (r : recv_result) (l : ClusterLink)
    : option (list ClusterMsg * ClusterLink) :=
  if negb (connected_ l) then Some ([], l)
  else
    match r with
    | Got data =>
        let l := update_last_recv_time now (with_recv (bq_append data (recv_buffer_ l)) l) in
        match drain (S (length (bq_peek (recv_buffer_ l)))) l with
        | None => None
        | Some (ms, failed, l) =>
            if failed then Some (ms, disconnect_and_notify l)
            else if frame_invalid_ l then Some (ms, disconnect_and_notify l)
            else
              let pending := bq_peek (recv_buffer_ l) in
              if kMaxPacketBytes <? zlen pending then Some (ms, disconnect_and_notify l)
              else
                let '(expired, l) :=
                  partial_frame_expired (pending_declared pending) (zlen pending) now l in
                Some (ms, if expired then disconnect_and_notify l else l)
        end
    | Eof => Some ([], disconnect_and_notify l)
    | Again => Some ([], l)
    | RecvError => Some ([], disconnect_and_notify l)
    end.

(** What the calls of [send] give, in order; a list that ends stands for
    [EAGAIN]. *)
Inductive send_result := Sent (n : nat) | SendZero | SendError.

Fixpoint send_loop (rs : list send_result) (b : B) : bytes * bool * B :=
  match bq_peek b with
  | [] => ([], false, b)
  | _ =>
      match rs with
      | [] => ([], false, b)
      | Sent n :: rs =>
          let '(out, need, b') := send_loop rs (bq_retrieve n b) in
          (take n (bq_peek b) ++ out, need, b')
      | _ => ([], true, b)
      end
  end.

Definition handle_write (rs : list send_result) (l : ClusterLink) : bytes * ClusterLink :=
  if negb (connected_ l) then ([], l)
  else
    let '(out, need_disconnect, b) := send_loop rs (send_buffer_ l) in
    let l := with_send b l in
    (out, if need_disconnect then disconnect_and_notify l else l).
End link.
Arguments ClusterLink B : clear implicits.
End Link.
