(* ===== verification/LinkProps.v ===== *)
(** * Properties of the cluster bus: codecs, framing, and the link *)

From S2P Require Import Prelude Base Buffer Payload PayloadSpec Resp Link.
From stdpp Require Import options.

Module LinkProps.
Import Text Payload PayloadSpec Resp Link.

(** ** Integers of the header *)

Lemma le_length n v : length (le n v) = n.
Proof. revert v. induction n as [|n IH]; intros v; cbn; [done|]. by rewrite IH. Qed.

Lemma le_val_le n v : 0 <= v < 256 ^ Z.of_nat n -> le_val (le n v) = v.
Proof.
  revert v. induction n as [|n IH]; intros v Hv; cbn [le le_val foldr].
  - change (256 ^ Z.of_nat 0) with 1 in Hv. lia.
  - fold (le_val (le n (Z.shiftr v 8))). rewrite Nat2Z.inj_succ, Z.pow_succ_r in Hv by lia.
    change 255 with (Z.ones 8). rewrite Z.land_ones, Z.shiftr_div_pow2 by lia. change (2 ^ 8) with 256.
    pose proof (Z.mod_pos_bound v 256 ltac:(lia)). pose proof (Z.div_mod v 256 ltac:(lia)).
    rewrite IH by (split; [apply Z.div_pos; lia|apply Z.div_lt_upper_bound; lia]).
    unfold byte_val. rewrite N_ascii_embedding by lia. lia.
Qed.

Lemma field_skip a b off n :
  (length a <= off)%nat -> field off n (a ++ b) = field (off - length a) n b.
Proof. intros Ha. unfold field. by rewrite drop_app_ge. Qed.

Lemma field_here a b n : length a = n -> field 0 n (a ++ b) = a.
Proof. intros <-. unfold field. cbn. apply take_app_length. Qed.

(** What fits the fields of a header. *)
Record header_ok (h : ClusterMsgHeader) : Prop := {
  hk_magic : h_magic h = kMsgMagic;
  hk_version : 0 <= h_version h < 65536;
  hk_type : 0 <= h_type h < 65536;
  hk_length : 0 <= h_length h < 4294967296;
  hk_epoch : 0 <= h_sender_epoch h <= uint64_max;
  hk_name : length (h_sender_name h) = 40%nat;
  hk_flags : 0 <= h_flags h < 65536;
  hk_port : 0 <= h_port h < 65536;
  hk_state : 0 <= h_state h < 4294967296;
  hk_map : length (h_slot_map h) = Z.to_nat 2048
}.

Lemma header_length h : header_ok h -> length (header_bytes h) = kHeaderSize.
Proof.
  intros Hh. unfold header_bytes, kHeaderSize. rewrite !length_app, !le_length, length_replicate.
  rewrite (hk_name _ Hh), (hk_map _ Hh). lia.
Qed.

#[local] Arguments le : simpl never.

(** Steps over the fields before the one that is read. *)
Ltac to_field Hn Hm :=
  rewrite <-?app_assoc;
  repeat (rewrite field_skip by (rewrite ?le_length, ?length_replicate, ?Hn, ?Hm; lia);
          rewrite ?le_length, ?length_replicate, ?Hn, ?Hm; cbn [Nat.sub]);
  rewrite field_here by (rewrite ?le_length, ?Hn, ?Hm; done).

Lemma header_of_bytes h r : header_ok h -> header_of (header_bytes h ++ r) = h.
Proof.
  intros Hh. unfold header_of, header_bytes.
  assert (256 ^ Z.of_nat 2 = 65536 /\ 256 ^ Z.of_nat 4 = 4294967296 /\
          256 ^ Z.of_nat 8 = uint64_max + 1) as (H2 & H4 & H8) by done.
  destruct h as [mg v t len ep nm fl po st mp].
  cbn [h_magic h_version h_type h_length h_sender_epoch h_sender_name h_flags h_port h_state h_slot_map].
  pose proof Hh as [Hmg Hv Ht Hl He Hn Hf Hp Hs Hm].
  cbn [h_magic h_version h_type h_length h_sender_epoch h_sender_name h_flags h_port h_state h_slot_map]
    in Hmg, Hv, Ht, Hl, He, Hn, Hf, Hp, Hs, Hm.
  unfold kMsgMagic in Hmg. f_equal; to_field Hn Hm; rewrite ?le_val_le; rewrite ?H2, ?H4, ?H8; lia || done.
Qed.

(** ** The argument area *)

Lemma digits_loop_S f v n :
  digits_loop (S f) v n = if v <? 10 then n else digits_loop f (v / 10) (n + 1).
Proof. done. Qed.

Lemma digits_loop_length f v n :
  0 <= v < 2 ^ Z.of_nat (S f) -> digits_loop (S f) v n = n - 1 + zlen (dec_digits (S f) v).
Proof.
  revert v n. induction f as [|f IH]; intros v n Hv; rewrite dec_digits_S, digits_loop_S;
    destruct (Z.ltb_spec v 10); try (unfold zlen; cbn [length]; lia).
  - rewrite IH.
    + rewrite zlen_app. unfold zlen. cbn [length]. lia.
    + rewrite (Nat2Z.inj_succ (S f)), Z.pow_succ_r in Hv by lia.
      split; [apply Z.div_pos; lia|apply Z.div_lt_upper_bound; lia].
Qed.

Lemma decimal_digits_length v : 0 <= v -> decimal_digits v = zlen (to_string v).
Proof.
  intros Hv. unfold decimal_digits, to_string, show_unsigned. rewrite (proj2 (Z.ltb_ge v 0)) by done.
  rewrite digits_loop_length; [lia|]. split; [done|].
  destruct (decide (v = 0)) as [->|]; [done|].
  rewrite Nat2Z.inj_succ, Z2Nat.id by apply Z.log2_nonneg. apply Z.log2_spec. lia.
Qed.

(** One argument as it is written. *)
Definition arg_bytes (arg : bytes) : bytes := to_string (zlen arg) ++ LF :: arg.

Lemma bus_args_encode_eq args out :
  bus_args_encode args out = out ++ to_string (zlen args) ++ LF :: mjoin (arg_bytes <$> args).
Proof.
  unfold bus_args_encode. rewrite (foldl_app_concat arg_bytes). by rewrite <-!app_assoc.
Qed.

Lemma bus_args_frame_bytes_eq args : bus_args_frame_bytes args = zlen (bus_args_encode args []).
Proof.
  rewrite bus_args_encode_eq. cbn [app]. unfold bus_args_frame_bytes.
  rewrite decimal_digits_length by apply zlen_nonneg. rewrite zlen_app, zlen_cons.
  set (c := zlen (to_string (zlen args))). clearbody c.
  assert (forall l a, foldl (fun b arg => b + (decimal_digits (zlen arg) + 1 + zlen arg)) a l =
    a + zlen (mjoin (arg_bytes <$> l))) as Hf.
  { induction l as [|x l IH]; intros a; csimpl; [unfold zlen; cbn; lia|].
    rewrite IH, decimal_digits_length, zlen_app by apply zlen_nonneg. unfold arg_bytes at 2.
    rewrite zlen_app, zlen_cons. rewrite !Z.add_assoc. lia. }
  rewrite Hf. lia.
Qed.

Lemma to_string_digits n :
  0 <= n -> forallb is_digit (to_string n) = true /\ digits_val (to_string n) = n /\ to_string n <> [].
Proof.
  intros Hn. unfold to_string. rewrite (proj2 (Z.ltb_ge n 0)) by done.
  destruct (show_unsigned_spec n Hn) as (Hne & Hd & Hv). split; [|done].
  apply forallb_forall. intros x Hx. rewrite Forall_forall in Hd. by apply Hd, list_elem_of_In.
Qed.

Lemma read_field_text n r : 0 <= n < 10000000000 -> read_field (to_string n ++ LF :: r) = Some (n, r).
Proof.
  intros Hn. destruct (to_string_digits n ltac:(lia)) as (Hd & Hv & Hne). unfold read_field.
  rewrite split_line_text by (apply to_string_nat_no_lf; lia).
  assert ((length (to_string n) <= 10)%nat) as Hl.
  { unfold to_string. rewrite (proj2 (Z.ltb_ge n 0)) by lia. by apply (dec_digits_length _ 9). }
  rewrite (proj2 (Z.eqb_neq _ _)), (proj2 (Z.ltb_ge _ _)) by (destruct (to_string n); [done|unfold zlen in *; cbn in *; lia]).
  cbn [orb]. by rewrite Hd, Hv.
Qed.

(** An argument whose length fits ten digits. *)
Definition arg_ok (arg : bytes) : Prop := zlen arg < 10000000000.

Lemma read_args_encode args r :
  Forall arg_ok args -> read_args (length args) (mjoin (arg_bytes <$> args) ++ r) = Some (args, r).
Proof.
  induction 1 as [|x l Hx _ IH]; [done|]. csimpl.
  unfold arg_bytes at 1. rewrite <-!app_assoc. cbn [app].
  rewrite read_field_text by (pose proof (zlen_nonneg x); unfold arg_ok in Hx; lia).
  rewrite (proj2 (Z.ltb_ge _ _)) by (unfold zlen; rewrite length_app; lia).
  rewrite zlen_to_nat, drop_app_length, take_app_length. by rewrite IH.
Qed.

Lemma args_count_le args : zlen args <= zlen (mjoin (arg_bytes <$> args)).
Proof.
  induction args as [|x l IH]; [done|]. csimpl.
  rewrite zlen_app, zlen_cons. unfold arg_bytes at 1. unfold zlen in *. rewrite length_app. cbn [length]. lia.
Qed.

Lemma bus_args_decode_encode args :
  Forall arg_ok args -> zlen args <= kMaxArgsPerFrame -> bus_args_decode (bus_args_encode args []) = Some args.
Proof.
  intros Ha Hc. rewrite bus_args_encode_eq. cbn [app]. unfold bus_args_decode.
  rewrite read_field_text by (pose proof (zlen_nonneg args); unfold kMaxArgsPerFrame in Hc; lia).
  rewrite (proj2 (Z.ltb_ge _ _)) by done. cbn [orb].
  pose proof (args_count_le args). pose proof (zlen_nonneg (to_string (zlen args))).
  rewrite (proj2 (Z.ltb_ge _ _)) by (rewrite zlen_app, zlen_cons; lia).
  rewrite zlen_to_nat. rewrite <-(app_nil_r (mjoin _)), read_args_encode by done. done.
Qed.

(** ** Frames *)

(** The header of the frame of a message, and the message as the peer gets it. *)
Definition sent_name (my_name old : bytes) : bytes :=
  if bool_decide (head old = Some NUL) && negb (bool_decide (my_name = []))
  then put_name my_name old else old.

Definition sent_header (my_name : bytes) (m : ClusterMsg) : ClusterMsgHeader :=
  let h := m_header m in
  mkHeader (h_magic h) kBusFramingVersion (h_type h)
    (Z.of_nat kHeaderSize + bus_args_frame_bytes (m_args m)) (h_sender_epoch h)
    (sent_name my_name (h_sender_name h)) (h_flags h) (h_port h) (h_state h) (h_slot_map h).

Definition sent (my_name : bytes) (m : ClusterMsg) : ClusterMsg :=
  mkMsg (sent_header my_name m) (m_args m).

(** A message whose fields fit the header and whose arguments fit a frame. *)
Definition msg_ok (m : ClusterMsg) : Prop :=
  header_ok (m_header m) /\ zlen (m_args m) <= kMaxArgsPerFrame.

Lemma put_name_length s old : length old = 40%nat -> length (put_name s old) = 40%nat.
Proof.
  intros Ho. unfold put_name. rewrite !length_app, length_drop. cbn [length].
  pose proof (firstn_le_length 39 (c_str s)). lia.
Qed.

Lemma sent_name_length nm old : length old = 40%nat -> length (sent_name nm old) = 40%nat.
Proof. intros Ho. unfold sent_name. case_match; [by apply put_name_length|done]. Qed.

(** What [frame_of] gives for a message that fits. *)
Record frame_shape (my_name : bytes) (m : ClusterMsg) (f : bytes) : Prop := {
  fs_eq : f = header_bytes (sent_header my_name m) ++ bus_args_encode (m_args m) [];
  fs_ok : header_ok (sent_header my_name m);
  fs_length : h_length (sent_header my_name m) = zlen f;
  fs_min : (kHeaderSize <= length f)%nat;
  fs_max : zlen f <= kMaxPacketBytes
}.

Lemma frame_of_shape my_name m f :
  msg_ok m -> frame_of my_name m = Some f -> frame_shape my_name m f.
Proof.
  intros [[Hmg Hv Ht Hl He Hnm Hfl Hp Hs Hmp] Hn] Hf. unfold frame_of in Hf.
  set (n := Z.of_nat kHeaderSize + bus_args_frame_bytes (m_args m)) in *.
  destruct (Z.ltb_spec kMaxPacketBytes n) as [|Hmax]; [discriminate|].
  apply Some_inj in Hf. subst f.
  pose proof (bus_args_frame_bytes_eq (m_args m)) as Hb.
  pose proof (zlen_nonneg (bus_args_encode (m_args m) [])).
  assert (header_ok (sent_header my_name m)) as Hok.
  { unfold sent_header, kBusFramingVersion, kMaxPacketBytes in *. fold n.
    constructor; cbn [h_magic h_version h_type h_length h_sender_epoch h_sender_name h_flags
      h_port h_state h_slot_map];
      first [assumption | lia | by apply sent_name_length]. }
  fold (sent_name my_name (h_sender_name (m_header m))).
  change (mkHeader _ _ _ n _ _ _ _ _ _) with (sent_header my_name m).
  pose proof (header_length _ Hok) as Hlen.
  assert (n = zlen (header_bytes (sent_header my_name m) ++ bus_args_encode (m_args m) [])) as Hz
    by (unfold n; rewrite Hb, zlen_app; unfold zlen; lia).
  constructor; [done..|rewrite length_app; lia|lia].
Qed.

Lemma arg_le_area x l : x ∈ l -> zlen x <= zlen (mjoin (arg_bytes <$> l)).
Proof.
  induction 1 as [x l|x y l _ IH]; csimpl; rewrite zlen_app.
  - pose proof (zlen_nonneg (mjoin (arg_bytes <$> l))).
    unfold arg_bytes at 1. rewrite zlen_app, zlen_cons. pose proof (zlen_nonneg (to_string (zlen x))). lia.
  - pose proof (zlen_nonneg (arg_bytes y)). lia.
Qed.

Lemma frame_args_ok my_name m f : frame_shape my_name m f -> Forall arg_ok (m_args m).
Proof.
  intros [-> _ _ _ Hmax]. apply Forall_forall. intros x Hx. unfold arg_ok.
  pose proof (arg_le_area x _ Hx). rewrite bus_args_encode_eq, zlen_app in Hmax. cbn [app] in Hmax.
  rewrite zlen_app, zlen_cons in Hmax. unfold kMaxPacketBytes in Hmax.
  pose proof (zlen_nonneg (header_bytes (sent_header my_name m))).
  pose proof (zlen_nonneg (to_string (zlen (m_args m)))). lia.
Qed.

(** An initial part of a frame that is not all of it. *)
Definition part_of (f t : bytes) : Prop := (length t < length f)%nat /\ t `prefix_of` f.

Lemma header_of_part my_name m f t :
  frame_shape my_name m f -> t `prefix_of` f -> (kHeaderSize <= length t)%nat ->
  header_of t = sent_header my_name m.
Proof.
  intros Hs [r Hr] Hlen. pose proof (header_length _ (fs_ok _ _ _ Hs)) as Hh.
  assert (take kHeaderSize t = header_bytes (sent_header my_name m)) as Ht.
  { apply (f_equal (take kHeaderSize)) in Hr. rewrite (fs_eq _ _ _ Hs) in Hr.
    rewrite <-Hh in Hr at 1. rewrite take_app_length in Hr. by rewrite take_app_le in Hr. }
  rewrite <-(take_drop kHeaderSize t), Ht. apply header_of_bytes, Hs.
Qed.

Lemma header_of_frame my_name m f r :
  frame_shape my_name m f -> header_of (f ++ r) = sent_header my_name m.
Proof.
  intros Hs. rewrite (fs_eq _ _ _ Hs), <-app_assoc. apply header_of_bytes, Hs.
Qed.

Lemma magic_of d : le_val (take 4 d) = h_magic (header_of d).
Proof. reflexivity. Qed.

Lemma length_of d : le_val (field 8 4 d) = h_length (header_of d).
Proof. reflexivity. Qed.

Lemma zlen_ge_header (d : bytes) : (kHeaderSize <= length d)%nat -> Z.of_nat kHeaderSize <= zlen d.
Proof. unfold zlen. lia. Qed.

Section receiver.
Context {B : Type} `{!ByteQueue B}.
Implicit Types l : ClusterLink B.

Abbreviation pending l := (bq_peek (recv_buffer_ l)).

Lemma with_recv_id l : with_recv (recv_buffer_ l) l = l.
Proof. by destruct l. Qed.

Lemma read_complete_at l h :
  (kHeaderSize <= length (pending l))%nat -> header_of (pending l) = h -> header_ok h ->
  Z.of_nat kHeaderSize <= h_length h <= kMaxPacketBytes ->
  read_complete l = (h_length h <=? zlen (pending l), l).
Proof.
  intros Hl <- Hh Hn. unfold read_complete.
  rewrite (proj2 (Nat.ltb_ge _ _)), magic_of, length_of, (hk_magic _ Hh) by done.
  change (kMsgMagic =? kMsgMagic) with true. cbn [negb].
  by rewrite !(proj2 (Z.ltb_ge _ _)) by lia.
Qed.

Lemma shape_bounds my_name m f :
  frame_shape my_name m f ->
  Z.of_nat kHeaderSize <= h_length (sent_header my_name m) <= kMaxPacketBytes.
Proof.
  intros [_ _ Hl Hmin Hmax]. rewrite Hl. split; [by apply zlen_ge_header|done].
Qed.

Lemma read_complete_frame my_name m f r l :
  frame_shape my_name m f -> pending l = f ++ r -> read_complete l = (true, l).
Proof.
  intros Hs Hp. pose proof (fs_min _ _ _ Hs) as Hmin.
  rewrite (read_complete_at l (sent_header my_name m)).
  - f_equal. apply Z.leb_le. rewrite (fs_length _ _ _ Hs), Hp. unfold zlen. rewrite length_app. lia.
  - rewrite Hp, length_app. lia.
  - rewrite Hp. by apply (header_of_frame _ _ _ r) in Hs.
  - apply Hs.
  - by apply (shape_bounds _ _ _ Hs).
Qed.

Lemma read_complete_part my_name m f l :
  frame_shape my_name m f -> part_of f (pending l) -> read_complete l = (false, l).
Proof.
  intros Hs [Hlt Hpre].
  destruct (decide (length (pending l) < kHeaderSize)%nat) as [Hh|Hh].
  { unfold read_complete. by rewrite (proj2 (Nat.ltb_lt _ _)). }
  rewrite (read_complete_at l (sent_header my_name m)).
  - f_equal. apply Z.leb_gt. rewrite (fs_length _ _ _ Hs). unfold zlen. lia.
  - lia.
  - apply (header_of_part _ _ _ _ Hs Hpre). lia.
  - apply Hs.
  - by apply (shape_bounds _ _ _ Hs).
Qed.

Lemma decode_msg_frame my_name m f r l :
  msg_ok m -> frame_shape my_name m f -> pending l = f ++ r ->
  decode_msg l = (Some (sent my_name m), with_recv (bq_retrieve (length f) (recv_buffer_ l)) l).
Proof.
  intros Hm Hs Hp. unfold decode_msg. rewrite (read_complete_frame _ _ _ _ _ Hs Hp). cbn [negb].
  pose proof (header_of_frame _ _ _ r Hs) as Hh. rewrite Hp, Hh.
  pose proof (shape_bounds _ _ _ Hs). rewrite (proj2 (Z.ltb_ge _ _)) by lia.
  rewrite (fs_length _ _ _ Hs), zlen_to_nat.
  change (h_version (sent_header my_name m)) with kBusFramingVersion.
  change (kBusFramingVersion =? kBusFramingVersion) with true.
  pose proof (header_length _ (fs_ok _ _ _ Hs)) as Hhl. pose proof (fs_eq _ _ _ Hs) as Hf.
  assert (take (length f - kHeaderSize) (drop kHeaderSize (f ++ r)) = bus_args_encode (m_args m) [])
    as ->.
  { rewrite Hf, length_app, Hhl, <-app_assoc.
    rewrite (drop_app_length' _ _ kHeaderSize) by done.
    replace (kHeaderSize + _ - kHeaderSize)%nat with (length (bus_args_encode (m_args m) []))
      by lia. apply take_app_length. }
  rewrite bus_args_decode_encode; [done| |apply Hm]. by apply (frame_args_ok _ _ _ Hs).
Qed.

(** The frames of a sequence of messages. *)
Definition frames my_name (ms : list ClusterMsg) (fs : list bytes) : Prop :=
  Forall2 (fun m f => msg_ok m /\ frame_of my_name m = Some f) ms fs.

(** The loop takes the whole frames and leaves the rest. *)
Lemma drain_frames my_name ms fs t l fuel :
  frames my_name ms fs -> (exists m f, frame_shape my_name m f /\ part_of f t) ->
  bq_ok (recv_buffer_ l) -> pending l = mjoin fs ++ t -> frame_invalid_ l = false ->
  (length fs < fuel)%nat ->
  exists b, drain fuel l = Some (sent my_name <$> ms, false, with_recv b l) /\ bq_ok b /\ bq_peek b = t.
Proof.
  intros Hf Ht. revert l fuel.
  induction Hf as [|m f ms fs [Hm Hf] _ IH]; intros l fuel Hok Hp Hi Hn;
    (destruct fuel as [|fuel]; [lia|]); cbn [drain]; rewrite Hi.
  - destruct Ht as (m & f & Hs & Ht). exists (recv_buffer_ l).
    rewrite (read_complete_part _ _ _ l Hs) by (by rewrite Hp). by rewrite with_recv_id.
  - pose proof (frame_of_shape _ _ _ Hm Hf) as Hs. csimpl in Hp. rewrite <-app_assoc in Hp.
    rewrite (read_complete_frame _ _ _ _ _ Hs Hp). cbn [negb].
    rewrite (decode_msg_frame _ _ _ _ _ Hm Hs Hp). cbn [length] in Hn.
    set (l1 := with_recv _ l). destruct (IH l1 fuel) as (b & -> & Hb & Hpb); [| |done|lia|by exists b].
    + by apply bq_retrieve_ok.
    + cbn. rewrite bq_peek_retrieve, Hp by done. apply drop_app_length.
Qed.

Lemma le_val_nonneg d : 0 <= le_val d.
Proof. induction d as [|c d IH]; cbn [le_val foldr]; [done|]. fold (le_val d). unfold byte_val. lia. Qed.

Lemma pending_declared_nonneg d : 0 <= pending_declared d.
Proof. unfold pending_declared. pose proof (le_val_nonneg (field 8 4 d)). case_ifs; lia. Qed.

(** Less than ten seconds after the clock of the frame in progress was started. *)
Definition on_time (now : Z) (l : ClusterLink B) : Prop :=
  partial_frame_since_ms_ l = 0 \/ now < partial_frame_since_ms_ l + kPartialFrameGraceMs.

(** No frame expires then. *)
Lemma partial_frame_kept now declared buffered l :
  0 <= declared -> on_time now l ->
  exists s b d, partial_frame_expired declared buffered now l = (false, set_partial s b d l).
Proof.
  intros Hd Hnow. unfold partial_frame_expired.
  destruct (Z.eqb_spec declared 0) as [|]; [by exists 0, 0, 0|].
  destruct (_ || _) eqn:Hb; [by exists now, buffered, declared|].
  exists (partial_frame_since_ms_ l), buffered, (partial_frame_declared_ l).
  apply orb_false_iff in Hb as [Hb _]. apply orb_false_iff in Hb as [Hb _]. apply Z.eqb_neq in Hb.
  f_equal. cbn [partial_frame_since_ms_ set_partial]. apply Z.leb_gt.
  pose proof (Z.div_pos declared kPartialFrameMinBytesPerSec Hd eq_refl).
  unfold on_time, kPartialFrameGraceMs in *. lia.
Qed.

(** A link that has read whole frames and the part [t] of the next one. *)
Record reading (t : bytes) l : Prop := {
  rd_connected : connected_ l = true;
  rd_valid : frame_invalid_ l = false;
  rd_ok : bq_ok (recv_buffer_ l);
  rd_pending : pending l = t
}.

Lemma frames_length my_name ms fs :
  frames my_name ms fs -> (length fs <= length (mjoin fs))%nat.
Proof.
  induction 1 as [|m f ms fs [Hm Hf] _ IH]; [done|]. csimpl. rewrite length_app. cbn [length].
  pose proof (fs_min _ _ _ (frame_of_shape _ _ _ Hm Hf)) as Hmin. unfold kHeaderSize in Hmin. lia.
Qed.

(** A read that completes the frames [fs] and leaves [t1]. *)
Lemma handle_read_eq my_name ms fs now t1 data l :
  connected_ l = true -> frame_invalid_ l = false -> bq_ok (recv_buffer_ l) ->
  frames my_name ms fs -> (exists m f, frame_shape my_name m f /\ part_of f t1) ->
  pending l ++ data = mjoin fs ++ t1 ->
  exists b, bq_ok b /\ bq_peek b = t1 /\
    let '(expired, l') := partial_frame_expired (pending_declared t1) (zlen t1) now
                            (update_last_recv_time now (with_recv b l)) in
    handle_read now (Got data) l =
      Some (sent my_name <$> ms, if expired then disconnect_and_notify l' else l').
Proof.
  intros Hc Hv Hok Hfs Ht Heq. unfold handle_read. rewrite Hc. cbn [negb].
  set (l1 := update_last_recv_time now _).
  assert (pending l1 = mjoin fs ++ t1) as Hp1 by (cbn; rewrite bq_peek_append by done; done).
  assert (bq_ok (recv_buffer_ l1)) as Hok1 by (by apply bq_append_ok).
  destruct (drain_frames my_name ms fs t1 l1 (S (length (pending l1)))) as (b & -> & Hb & Hpb);
    [done..| |].
  { rewrite Hp1, length_app. pose proof (frames_length _ _ _ Hfs). lia. }
  change (frame_invalid_ (with_recv b l1)) with (frame_invalid_ l). rewrite Hv.
  change (recv_buffer_ (with_recv b l1)) with b. rewrite Hpb.
  change (with_recv b l1) with (update_last_recv_time now (with_recv b l)).
  destruct Ht as (m & f & Hsh & Hlt & _).
  rewrite (proj2 (Z.ltb_ge _ _)) by (pose proof (fs_max _ _ _ Hsh); unfold zlen in *; lia).
  exists b. split_and!; [done..|]. by destruct (partial_frame_expired _ _ _ _).
Qed.

Lemma handle_read_frames my_name ms fs now t t1 data l :
  reading t l -> on_time now l ->
  frames my_name ms fs -> (exists m f, frame_shape my_name m f /\ part_of f t1) ->
  t ++ data = mjoin fs ++ t1 ->
  exists l', handle_read now (Got data) l = Some (sent my_name <$> ms, l') /\ reading t1 l'.
Proof.
  intros [Hc Hv Hok Hp] Hnow Hfs Ht Heq.
  destruct (handle_read_eq my_name ms fs now t1 data l) as (b & Hb & Hpb & Hl); [done..|by rewrite Hp|].
  destruct (partial_frame_kept now (pending_declared t1) (zlen t1)
    (update_last_recv_time now (with_recv b l)))
    as (s0 & b0 & d0 & He); [apply pending_declared_nonneg|done|].
  rewrite He in Hl. eexists. split; [done|]. by constructor.
Qed.

(** Reads at the given times. *)
Fixpoint run_reads (reads : list (Z * bytes)) l : option (list ClusterMsg * ClusterLink B) :=
  match reads with
  | [] => Some ([], l)
  | (now, data) :: reads =>
      match handle_read now (Got data) l with
      | None => None
      | Some (ms, l) =>
          match run_reads reads l with
          | None => None
          | Some (ms', l) => Some (ms ++ ms', l)
          end
      end
  end.

(** Every one of these reads is on time for the frame that is then in progress. *)
Fixpoint timely (reads : list (Z * bytes)) l : Prop :=
  match reads with
  | [] => True
  | (now, data) :: reads =>
      on_time now l /\ forall ms l', handle_read now (Got data) l = Some (ms, l') -> timely reads l'
  end.

(** Some frame has the part [t]. *)
Definition some_part my_name (t : bytes) : Prop :=
  exists m f, frame_shape my_name m f /\ part_of f t.

Lemma some_part_app my_name x y : some_part my_name (x ++ y) -> some_part my_name x.
Proof.
  intros (m & f & Hs & Hl & k & Hk). rewrite length_app in Hl. exists m, f.
  split; [done|]. split; [lia|]. exists (y ++ k). by rewrite Hk, app_assoc.
Qed.

(** [t] is shorter than the next frame. *)
Definition inside (t : bytes) (fs : list bytes) : Prop :=
  match fs with [] => True | f :: _ => (length t < length f)%nat end.

Lemma run_reads_frames my_name ms fs t t' reads l :
  reading t l -> timely reads l ->
  frames my_name ms fs -> some_part my_name t' -> inside t fs ->
  t ++ mjoin (snd <$> reads) = mjoin fs ++ t' ->
  exists l', run_reads reads l = Some (sent my_name <$> ms, l') /\ reading t' l'.
Proof.
  revert ms fs t l. induction reads as [|[now data] reads IH]; intros ms fs t l Hr Hnow Hfs Ht' Hin Heq.
  - exists l. csimpl in Heq. rewrite app_nil_r in Heq. destruct Hfs as [|m f ms fs _ _].
    + cbn in Heq. by subst t.
    + cbn in Hin. csimpl in Heq. rewrite Heq, !length_app in Hin. lia.
  - csimpl in Heq. rewrite app_assoc in Heq.
    destruct (mjoin_split _ _ _ _ Heq) as (f1 & f2 & t1 & -> & Hx & Hy & Hm).
    apply Forall2_app_inv_r in Hfs as (ms1 & ms2 & Hfs1 & Hfs2 & ->).
    assert (some_part my_name t1) as Ht1.
    { destruct Hfs2 as [|m f ms2 f2 [Hmo Hf] _].
      - apply (some_part_app _ t1 (mjoin (snd <$> reads))). by rewrite Hy.
      - exists m, f. split; [by apply frame_of_shape|done]. }
    destruct Hnow as [Hn Hnow].
    destruct (handle_read_frames my_name ms1 f1 now t t1 data l) as (l1 & Hl1 & Hr1); [done..|].
    destruct (IH ms2 f2 t1 l1) as (l2 & Hl2 & Hr2); [done|by eapply Hnow|done|done| |done|].
    { destruct f2; [done|]. apply Hm. }
    exists l2. split; [|done]. cbn [run_reads]. rewrite Hl1, Hl2, fmap_app. done.
Qed.

(** *** Every read ends *)

Lemma read_complete_cases l ok l' :
  read_complete l = (ok, l') ->
  (ok = true -> l' = l /\ (kHeaderSize <= Z.to_nat (h_length (header_of (pending l))) <= length (pending l))%nat) /\
  exists b inv, l' = (if (inv : bool) then set_invalid (with_recv b l) else with_recv b l) /\
    (bq_ok (recv_buffer_ l) -> bq_ok b) /\ (b = recv_buffer_ l \/ ok = false).
Proof.
  unfold read_complete. intros H.
  assert (forall inv : bool, l' = (if inv then set_invalid l else l) ->
    exists b inv, l' = (if (inv : bool) then set_invalid (with_recv b l) else with_recv b l) /\
    (bq_ok (recv_buffer_ l) -> bq_ok b) /\ (b = recv_buffer_ l \/ ok = false)) as Hsame.
  { intros inv ->. exists (recv_buffer_ l), inv. rewrite with_recv_id. by auto. }
  destruct (Nat.ltb_spec (length (pending l)) kHeaderSize).
  { simplify_eq. split; [done|]. by apply (Hsame false). }
  destruct (negb _).
  { simplify_eq. split; [done|]. eexists _, false. split; [done|]. split; [by apply bq_retrieve_ok|by right]. }
  rewrite length_of in H. set (n := h_length (header_of (pending l))) in *.
  destruct (Z.ltb_spec n (Z.of_nat kHeaderSize)); [simplify_eq; split; [done|]; by apply (Hsame true)|].
  destruct (Z.ltb_spec kMaxPacketBytes n); [simplify_eq; split; [done|]; by apply (Hsame true)|].
  simplify_eq. split; [|by apply (Hsame false)].
  rewrite Z.leb_le. unfold zlen. intros ?. split; [done|lia].
Qed.

(** What a step of the reading loop leaves alone. *)
Record kept l l' : Prop := {
  kp_connected : connected_ l' = connected_ l;
  kp_notified : notified l' = notified l;
  kp_ok : bq_ok (recv_buffer_ l) -> bq_ok (recv_buffer_ l')
}.

Lemma kept_trans l1 l2 l3 : kept l1 l2 -> kept l2 l3 -> kept l1 l3.
Proof. intros [] []. constructor; [congruence..|auto]. Qed.

Lemma read_complete_kept l ok l' : read_complete l = (ok, l') -> kept l l'.
Proof.
  intros H. apply read_complete_cases in H as (_ & b & inv & -> & Hb & _).
  by destruct inv; constructor.
Qed.

Lemma decode_msg_kept l om l' :
  decode_msg l = (om, l') ->
  kept l l' /\ (is_Some om -> bq_ok (recv_buffer_ l) -> (length (pending l') < length (pending l))%nat).
Proof.
  unfold decode_msg. intros H. destruct (read_complete l) as [ok l1] eqn:Hrc.
  pose proof (read_complete_kept _ _ _ Hrc) as Hk. apply read_complete_cases in Hrc as [Hok _].
  destruct ok; cbn [negb] in H; [|simplify_eq; by split; [|intros []]].
  destruct (Hok eq_refl) as [-> Hn]. clear Hok.
  destruct (Z.ltb_spec (h_length (header_of (pending l))) (Z.of_nat kHeaderSize)) as [Hlt|];
    [by simplify_eq; split; [|intros []]|].
  set (args := if _ =? _ then _ else _) in H. destruct args as [args|];
    [|by simplify_eq; split; [|intros []]].
  simplify_eq. split; [constructor; try done; cbn; apply bq_retrieve_ok|].
  intros _ Hb. cbn [with_recv recv_buffer_]. rewrite bq_peek_retrieve, length_drop by done.
  unfold kHeaderSize in *. lia.
Qed.

Lemma drain_total fuel l :
  bq_ok (recv_buffer_ l) -> (length (pending l) < fuel)%nat ->
  exists ms failed l', drain fuel l = Some (ms, failed, l') /\ kept l l'.
Proof.
  revert l. induction fuel as [|fuel IH]; intros l Hb Hn; [lia|]. cbn [drain].
  destruct (frame_invalid_ l); [by eexists [], false, l|].
  destruct (read_complete l) as [ok l1] eqn:Hrc. pose proof (read_complete_kept _ _ _ Hrc) as Hk1.
  apply read_complete_cases in Hrc as [Hok _].
  destruct ok; cbn [negb]; [|by eexists [], false, l1].
  destruct (Hok eq_refl) as [-> _]. destruct (decode_msg l) as [om l2] eqn:Hd.
  apply decode_msg_kept in Hd as [Hk2 Hlt]. destruct om as [m|]; [|by eexists [], true, l2].
  specialize (Hlt ltac:(done) Hb).
  destruct (IH l2) as (ms & failed & l3 & -> & Hk3); [by apply Hk2|lia|].
  eexists (m :: ms), failed, l3. split; [done|]. by apply (kept_trans _ l2).
Qed.
End receiver.

(** ** The sender *)

Section sender.
Context {B : Type} `{!ByteQueue B}.
Implicit Types l : ClusterLink B.

Abbreviation unsent l := (bq_peek (send_buffer_ l)).

Lemma send_loop_spec rs b out need b' :
  bq_ok b -> send_loop rs b = (out, need, b') -> bq_ok b' /\ bq_peek b = out ++ bq_peek b'.
Proof.
  revert b out need b'. induction rs as [|r rs IH]; intros b out need b' Hb H; cbn [send_loop] in H;
    destruct (bq_peek b) as [|c d] eqn:Hp; try (simplify_eq; by rewrite Hp).
  destruct r as [n| |]; try (simplify_eq; by rewrite Hp).
  destruct (send_loop rs (bq_retrieve n b)) as [[o k] b1] eqn:Hl. simplify_eq.
  apply IH in Hl as [Hb1 Heq]; [|by apply bq_retrieve_ok]. split; [done|].
  rewrite bq_peek_retrieve, Hp in Heq by done. by rewrite <-app_assoc, <-Heq, take_drop.
Qed.

Lemma handle_write_spec rs l out l' :
  bq_ok (send_buffer_ l) -> handle_write rs l = (out, l') ->
  bq_ok (send_buffer_ l') /\ unsent l = out ++ unsent l'.
Proof.
  unfold handle_write. intros Hb H. destruct (connected_ l) eqn:Hc; cbn [negb] in H; [|by simplify_eq].
  destruct (send_loop rs (send_buffer_ l)) as [[o need] b] eqn:Hl.
  apply send_loop_spec in Hl as [Hb' Heq]; [|done]. simplify_eq.
  destruct need; [|done]. unfold disconnect_and_notify. by case_match.
Qed.

(** What the threads of a node do with a link. *)
Inductive send_op := DoSend (m : ClusterMsg) | DoWrite (rs : list send_result).

(** The messages that were accepted, the bytes that went out, and the link. *)
Fixpoint run_sender (my_name : bytes) (ops : list send_op) l : list ClusterMsg * bytes * ClusterLink B :=
  match ops with
  | [] => ([], [], l)
  | DoSend m :: ops =>
      let '(ok, l) := send_msg my_name m l in
      let '(ms, out, l) := run_sender my_name ops l in
      (if ok then m :: ms else ms, out, l)
  | DoWrite rs :: ops =>
      let '(out1, l) := handle_write rs l in
      let '(ms, out, l) := run_sender my_name ops l in
      (ms, out1 ++ out, l)
  end.

Definition op_ok (o : send_op) : Prop := match o with DoSend m => msg_ok m | DoWrite _ => True end.

(** What went out and what is still to be sent are the frames in order. *)
Lemma run_sender_frames my_name ops l ms w l' :
  Forall op_ok ops -> bq_ok (send_buffer_ l) -> run_sender my_name ops l = (ms, w, l') ->
  exists fs, frames my_name ms fs /\ unsent l ++ mjoin fs = w ++ unsent l'.
Proof.
  intros Ho. revert l ms w. induction Ho as [|[m|rs] ops Hm _ IH]; intros l ms w Hb H; cbn [run_sender] in H.
  - simplify_eq. exists []. split; [constructor|]. by rewrite app_nil_r.
  - unfold send_msg in H. destruct (connected_ l) eqn:Hc; cbn [negb] in H.
    2: { destruct (run_sender my_name ops l) as [[ms1 w1] l1] eqn:Hr. simplify_eq. by apply (IH l). }
    destruct (frame_of my_name m) as [f|] eqn:Hf.
    + destruct (run_sender my_name ops _) as [[ms1 w1] l1] eqn:Hr. simplify_eq.
      apply IH in Hr as (fs & Hfs & Heq); [|by apply bq_append_ok]. exists (f :: fs).
      split; [by constructor|]. cbn in Heq. rewrite bq_peek_append in Heq by done.
      by rewrite <-Heq, <-app_assoc.
    + destruct (run_sender my_name ops l) as [[ms1 w1] l1] eqn:Hr. simplify_eq. by apply (IH l).
  - destruct (handle_write rs l) as [o l1] eqn:Hw. apply handle_write_spec in Hw as [Hb1 Heq]; [|done].
    destruct (run_sender my_name ops l1) as [[ms1 w1] l2] eqn:Hr. simplify_eq.
    apply IH in Hr as (fs & Hfs & Heq2); [|done]. exists fs. split; [done|].
    by rewrite Heq, <-!app_assoc, Heq2.
Qed.
End sender.

Lemma new_msg_header_ok t : 0 <= t < 65536 -> header_ok (m_header (with_type t [] new_msg)).
Proof.
  intros Ht. unfold new_msg, with_type, kBusFramingVersion, uint64_max.
  constructor; cbn [m_header h_magic h_version h_type h_length h_sender_epoch h_sender_name h_flags
    h_port h_state h_slot_map];
    first [apply length_replicate | unfold uint64_max; lia | reflexivity].
Qed.

Lemma some_part_nil my_name : some_part my_name [].
Proof.
  assert (msg_ok (with_type 1 [] new_msg)) as Hm.
  { split; [by apply new_msg_header_ok|]. cbn. unfold zlen, kMaxArgsPerFrame. cbn. lia. }
  destruct (frame_of my_name (with_type 1 [] new_msg)) as [f|] eqn:Hf.
  - apply frame_of_shape in Hf; [|done]. exists (with_type 1 [] new_msg), f. split; [done|].
    split; [|apply prefix_nil]. pose proof (fs_min _ _ _ Hf). cbn [length]. unfold kHeaderSize in *. lia.
  - unfold frame_of in Hf. change (m_args (with_type 1 [] new_msg)) with (@nil bytes) in Hf.
    by destruct (_ <? _) eqn:Hz.
Qed.

(** ** Properties *)


(** ** Witnesses and edges *)

Definition fresh_link : ClusterLink bytes := mkLink (lit "peer") true [] [] false 0 0 0 0 0.

Lemma fresh_link_reading : reading [] fresh_link.
Proof. by constructor. Qed.

Lemma ping_ok t : 0 <= t < 65536 -> msg_ok (with_type t [] new_msg).
Proof. intros Ht. split; [by apply new_msg_header_ok|]. cbn. unfold zlen, kMaxArgsPerFrame. cbn. lia. Qed.


(** Every read ends, whatever bytes arrive, and the owner of a link learns of
    its end exactly once: the disconnect callback runs when the read takes the
    link down and never after. A link that stays up after a read holds at most
    one frame's worth of unread bytes and no malformed header. *)
Theorem link_read_total {B} `{!ByteQueue B} now rr (l : ClusterLink B) :
  bq_ok (recv_buffer_ l) ->
  exists ms l', handle_read now rr l = Some (ms, l') /\ bq_ok (recv_buffer_ l') /\
    (connected_ l' = true -> connected_ l = true) /\
    notified l' = (if connected_ l && negb (connected_ l') then S (notified l) else notified l) /\
    (connected_ l' = true -> forall data, rr = Got data ->
      frame_invalid_ l' = false /\ zlen (bq_peek (recv_buffer_ l')) <= kMaxPacketBytes).
Proof.
  intros Hb. unfold handle_read. destruct (connected_ l) eqn:Hc; cbn [negb].
  2: { exists [], l. rewrite Hc. by split_and!. }
  assert (forall l1, kept l l1 -> bq_ok (recv_buffer_ (disconnect_and_notify l1)) /\
    connected_ (disconnect_and_notify l1) = false /\
    notified (disconnect_and_notify l1) = S (notified l)) as Hdn.
  { intros l1 [Hc1 Hn1 Hk1]. unfold disconnect_and_notify. rewrite Hc1, Hc. cbn.
    split_and!; [auto|done|by rewrite Hn1]. }
  assert (kept l l) as Hkl by done.
  destruct rr as [data| | |].
  - set (l1 := update_last_recv_time now _).
    assert (kept l l1) as Hk1 by (constructor; [done..|by intros ?; apply bq_append_ok]).
    destruct (drain_total (S (length (bq_peek (recv_buffer_ l1)))) l1)
      as (ms & failed & l2 & -> & Hk2); [by apply Hk1|lia|].
    pose proof (kept_trans _ _ _ Hk1 Hk2) as Hk. destruct (Hdn l2 Hk) as (Hd1 & Hd2 & Hd3).
    destruct failed; [eexists _, _; split; [done|]; rewrite Hd2, Hd3; by split_and!|].
    destruct (frame_invalid_ l2) eqn:Hv;
      [eexists _, _; split; [done|]; rewrite Hd2, Hd3; by split_and!|].
    destruct (Z.ltb_spec kMaxPacketBytes (zlen (bq_peek (recv_buffer_ l2)))) as [|Hmax];
      [eexists _, _; split; [done|]; rewrite Hd2, Hd3; by split_and!|].
    destruct (partial_frame_expired _ _ _ _) as [e l3] eqn:He.
    assert (exists a b c, l3 = set_partial a b c l2) as (a & b & c & ->).
    { revert He. unfold partial_frame_expired. case_ifs; intros [= <- <-]; by eexists _, _, _. }
    assert (kept l (set_partial a b c l2)) as Hk3 by (destruct Hk; by constructor).
    destruct (Hdn _ Hk3) as (He1 & He2 & He3).
    destruct e; eexists _, _; (split; [done|]); [rewrite He2, He3; by split_and!|].
    destruct Hk3 as [Hkc Hkn Hko]. rewrite Hkc, Hkn, Hc. split_and!; [auto|done..|]. done.
  - destruct (Hdn l Hkl) as (Hd1 & Hd2 & Hd3). eexists _, _. split; [done|]. rewrite Hd2, Hd3. by split_and!.
  - exists [], l. rewrite Hc. by split_and!.
  - destruct (Hdn l Hkl) as (Hd1 & Hd2 & Hd3). eexists _, _. split; [done|]. rewrite Hd2, Hd3. by split_and!.
Qed.

Lemma link_read_total_witness :
  exists ms l', handle_read 7 (Got (lit "PING")) fresh_link = Some (ms, l') /\
    bq_ok (recv_buffer_ l') /\ connected_ l' = true.
Proof.
  destruct (link_read_total 7 (Got (lit "PING")) fresh_link) as (ms & l' & H & Hok & _); [done|].
  exists ms, l'. split; [done|]. split; [done|]. revert H. vm_compute. by intros [= <- <-].
Defined.

(** *** The deadline of a partial frame *)

Section deadline.
Context {B : Type} `{!ByteQueue B} (my_name : bytes) (m : ClusterMsg) (f : bytes) (k : nat) (t0 : Z).
Context (Hm : msg_ok m) (Hf : frame_of my_name m = Some f) (Hk : (0 < k < kHeaderSize)%nat) (Ht0 : 0 < t0).
Implicit Types l : ClusterLink B.

(** The link waits for the rest of a frame since [t0] and holds [k] bytes of it. *)
Record waiting l : Prop := {
  w_connected : connected_ l = true;
  w_valid : frame_invalid_ l = false;
  w_ok : bq_ok (recv_buffer_ l);
  w_pending : bq_peek (recv_buffer_ l) = take k f;
  w_since : partial_frame_since_ms_ l = t0;
  w_bytes : partial_frame_bytes_ l = Z.of_nat k;
  w_declared : partial_frame_declared_ l = Z.of_nat kHeaderSize
}.

Lemma part_k : length (take k f) = k /\ (exists m f0, frame_shape my_name m f0 /\ part_of f0 (take k f)) /\
  pending_declared (take k f) = Z.of_nat kHeaderSize.
Proof using Hm Hf Hk.
  pose proof (frame_of_shape _ _ _ Hm Hf) as Hs. pose proof (fs_min _ _ _ Hs).
  assert (length (take k f) = k) as Hl by (rewrite length_take; lia).
  split; [done|]. split.
  - exists m, f. split; [done|]. split; [lia|]. exists (drop k f). by rewrite take_drop.
  - unfold pending_declared. rewrite Hl, (proj2 (Nat.leb_gt _ _)), (proj2 (Nat.ltb_lt _ _)) by lia. done.
Qed.

Lemma first_part l :
  reading [] l -> partial_frame_since_ms_ l = 0 ->
  exists l', handle_read t0 (Got (take k f)) l = Some ([], l') /\ waiting l'.
Proof using Hm Hf Hk.
  intros [Hc Hv Hok Hp] Hs. destruct part_k as (Hl & Hpart & Hd).
  destruct (handle_read_eq my_name [] [] t0 (take k f) (take k f) l) as (b & Hb & Hpb & He);
    [done..|constructor|done|by rewrite Hp|].
  unfold partial_frame_expired in He. rewrite Hd in He.
  change (Z.of_nat kHeaderSize =? 0) with false in He.
  cbn [update_last_recv_time with_recv partial_frame_since_ms_] in He. rewrite Hs in He.
  eexists. split; [exact He|]. constructor; try done. cbn. unfold zlen. by rewrite Hl.
Qed.

Lemma next_part now l :
  waiting l -> exists l', handle_read now (Got (drop k f ++ take k f)) l = Some ([sent my_name m], l') /\
    (now < t0 + kPartialFrameGraceMs -> waiting l') /\
    (t0 + kPartialFrameGraceMs <= now -> connected_ l' = false).
Proof using Hm Hf Hk Ht0.
  intros [Hc Hv Hok Hp Hs Hb Hd]. destruct part_k as (Hl & Hpart & Hpd).
  destruct (handle_read_eq my_name [m] [f] now (take k f) (drop k f ++ take k f) l) as (b & Hbk & Hpb & He);
    [done..|by apply Forall2_cons; split; [|constructor]|done| |].
  { rewrite Hp, app_assoc, take_drop. cbv [mjoin list_join]. by rewrite app_nil_r. }
  unfold partial_frame_expired in He. rewrite Hpd in He.
  change (Z.of_nat kHeaderSize =? 0) with false in He.
  cbn [update_last_recv_time with_recv partial_frame_since_ms_ partial_frame_declared_ partial_frame_bytes_] in He.
  rewrite Hs, Hd, Hb in He. rewrite (proj2 (Z.eqb_neq t0 0)) in He by lia.
  rewrite Z.eqb_refl in He. cbn [negb orb] in He.
  rewrite (proj2 (Z.ltb_ge (zlen (take k f)) (Z.of_nat k))) in He by (unfold zlen; lia).
  change (Z.of_nat kHeaderSize / kPartialFrameMinBytesPerSec * 1000) with 0 in He. rewrite Z.add_0_r in He.
  eexists. split; [exact He|]. cbn [partial_frame_since_ms_ set_partial].
  destruct (Z.leb_spec kPartialFrameGraceMs (now - t0)); split; intros ?; try lia.
  - unfold disconnect_and_notify. cbn. by rewrite Hc.
  - constructor; try done. cbn. unfold zlen. by rewrite Hl.
Qed.

Lemma run_waiting ts l :
  waiting l -> Forall (fun t => t < t0 + kPartialFrameGraceMs) ts ->
  exists l', run_reads ((fun t => (t, drop k f ++ take k f)) <$> ts) l =
    Some (replicate (length ts) (sent my_name m), l') /\ waiting l'.
Proof using Hm Hf Hk Ht0.
  intros Hw Hts. revert l Hw. induction Hts as [|t ts Ht _ IH]; intros l Hw; [by exists l|].
  destruct (next_part t l Hw) as (l1 & H1 & Hw1 & _). destruct (IH l1 (Hw1 Ht)) as (l2 & H2 & Hw2).
  exists l2. split; [|done]. csimpl. by rewrite H1, H2.
Qed.

Lemma run_reads_app r1 r2 l ms1 l1 ms2 l2 :
  run_reads r1 l = Some (ms1, l1) -> run_reads r2 l1 = Some (ms2, l2) ->
  run_reads (r1 ++ r2) l = Some (ms1 ++ ms2, l2).
Proof.
  revert l ms1. induction r1 as [|[t d] r1 IH]; intros l ms1; cbn [run_reads app].
  - by intros [= <- <-] ->.
  - destruct (handle_read t (Got d) l) as [[m1 l3]|]; [|done].
    destruct (run_reads r1 l3) as [[m2 l4]|] eqn:Hr; [|done]. intros [= <- <-] H2.
    rewrite (IH _ _ Hr H2). by rewrite app_assoc.
Qed.
End deadline.

(** A busy link is taken for a stuck one. The clock of a partial frame is
    restarted only when the declared length changes or the unread bytes become
    fewer; a peer whose frames end so that every read leaves the same [k] bytes
    of the next frame's header is cut off ten seconds after the first read,
    although each read completes a frame. *)
Theorem busy_link_cut {B} `{!ByteQueue B} my_name m f k t0 ts t1 (l : ClusterLink B) :
  msg_ok m -> frame_of my_name m = Some f -> (0 < k < kHeaderSize)%nat -> 0 < t0 ->
  reading [] l -> partial_frame_since_ms_ l = 0 ->
  Forall (fun t => t < t0 + kPartialFrameGraceMs) ts -> t0 + kPartialFrameGraceMs <= t1 ->
  exists l', run_reads ((t0, take k f) :: ((fun t => (t, drop k f ++ take k f)) <$> (ts ++ [t1]))) l =
      Some (replicate (S (length ts)) (sent my_name m), l') /\ connected_ l' = false.
Proof.
  intros Hm Hf Hk Ht0 Hr Hs Hts Ht1.
  destruct (first_part my_name m f k t0 Hm Hf Hk l Hr Hs) as (l1 & H1 & Hw1).
  destruct (run_waiting my_name m f k t0 Hm Hf Hk Ht0 ts l1 Hw1 Hts) as (l2 & H2 & Hw2).
  destruct (next_part my_name m f k t0 Hm Hf Hk Ht0 t1 l2 Hw2) as (l3 & H3 & _ & Hc). exists l3.
  split; [|by apply Hc]. cbn [run_reads]. rewrite H1, fmap_app.
  pose proof (run_reads_app _ [(t1, drop k f ++ take k f)] l1 _ l2 [sent my_name m] l3 H2) as H4.
  csimpl. rewrite H4 by (cbn [run_reads]; by rewrite H3). cbn [app].
  f_equal. f_equal. symmetry. apply replicate_S_end.
Qed.

Lemma busy_link_cut_witness :
  exists f, frame_of (lit "a") (with_type 1 [] new_msg) = Some f /\
  exists l', run_reads ((1, take 80 f) :: ((fun t => (t, drop 80 f ++ take 80 f)) <$> ([2; 9000] ++ [10001])))
      fresh_link = Some (replicate 3 (sent (lit "a") (with_type 1 [] new_msg)), l') /\ connected_ l' = false.
Proof.
  destruct (frame_of (lit "a") (with_type 1 [] new_msg)) as [f|] eqn:Hf; [|by vm_compute in Hf].
  exists f. split; [done|].
  apply (busy_link_cut (lit "a") (with_type 1 [] new_msg) f 80 1 [2; 9000] 10001 fresh_link).
  - by apply ping_ok.
  - exact Hf.
  - unfold kHeaderSize. lia.
  - lia.
  - apply fresh_link_reading.
  - done.
  - unfold kPartialFrameGraceMs. repeat constructor; lia.
  - unfold kPartialFrameGraceMs. lia.
Defined.

(** A frame with more arguments than a receiver accepts is sent all the same,
    and cuts the link at the other end. *)
Lemma frame_bytes_empty_args n :
  bus_args_frame_bytes (replicate n []) = decimal_digits (Z.of_nat n) + 1 + 2 * Z.of_nat n.
Proof.
  unfold bus_args_frame_bytes.
  assert (zlen (replicate n ([] : bytes)) = Z.of_nat n) as -> by (unfold zlen; by rewrite length_replicate).
  set (a := decimal_digits (Z.of_nat n) + 1). clearbody a. revert a.
  induction n as [|n IH]; intros a; [cbn; lia|].
  cbn [replicate foldl]. rewrite IH. change (decimal_digits (zlen [])) with 1. unfold zlen. cbn [length]. lia.
Qed.

Lemma too_many_args_refused args :
  kMaxArgsPerFrame < zlen args -> zlen args < 10000000000 ->
  bus_args_decode (bus_args_encode args []) = None.
Proof.
  intros Hn Hx. rewrite bus_args_encode_eq. cbn [app]. unfold bus_args_decode.
  rewrite read_field_text by (pose proof (zlen_nonneg args); lia).
  by rewrite (proj2 (Z.ltb_lt _ _)).
Qed.

Theorem args_limit_asymmetric my_name h :
  exists args f, frame_of my_name (mkMsg h args) = Some f /\
    bus_args_decode (bus_args_encode args []) = None.
Proof.
  set (n := Z.to_nat 1048577). exists (replicate n []).
  assert (Z.of_nat n = 1048577) as Hn by (unfold n; lia).
  assert (zlen (replicate n ([] : bytes)) = 1048577) as Hl
    by (unfold zlen; by rewrite length_replicate).
  unfold frame_of. cbn [m_args m_header]. rewrite frame_bytes_empty_args, Hn.
  change (decimal_digits 1048577) with 7. change (Z.of_nat kHeaderSize) with 2120.
  change (kMaxPacketBytes <? 2120 + (7 + 1 + 2 * 1048577)) with false. cbn beta iota.
  eexists. split; [reflexivity|].
  apply too_many_args_refused; rewrite Hl; [done|lia].
Qed.
End LinkProps.
