(* ===== verification/Gossip.v ===== *)
(** * Gossip: cluster/cluster_gossip.cpp and the callbacks of cluster_server.cpp

    Node information travels as text in the arguments of a bus message
    ([send_gossip] of cluster_link.cpp) and is read back by the callback that
    [ClusterServer::init] installs. The state is the cluster server with the
    table [known_nodes_] of the gossip object; what is broadcast goes to the
    [outbox] of the server. [update_callback_] is the one [init] sets;
    [meet_callback_] of the gossip object is an argument, since [init] does not
    set it. *)

From S2P Require Import Prelude Base Buffer Resp Slots Cluster Link.
From stdpp Require Import options.

Module Gossip.
Import Text Cluster Link.

(** ** Node information on the wire *)

Definition COMMA : ascii := ","%char.

(** The value of [ClusterMsgType] that [send_gossip] chooses. *)
Definition msg_type (t : GossipType) : Z :=
  match t with
  | gPing => 1
  | gPong => 2
  | gMeet => 3
  | gFail => 5
  | gFailoverAuthReq => 7
  | gFailoverAuthAck => 8
  | gPush => 9
  | gPull => 4
  end.

Definition node_info (g : GossipNodeInfo) : bytes :=
  let s := g_name g ++ lit "," ++ g_ip g ++ lit "," ++ to_string (g_port g) ++ lit "," ++
           to_string (g_flags g) ++ lit "," ++ to_string (g_role g) in
  if g_failover_offset g =? 0 then s else s ++ lit "," ++ to_string (g_failover_offset g).

(** [strncpy(dst, s, 39)] into a field of 40 zero bytes. *)
Definition name_field (s : bytes) : bytes :=
  let t := take 39 (c_str s) in t ++ replicate (40 - length t) NUL.

Definition gossip_to_msg (m : GossipMsg) : ClusterMsg :=
  let h := m_header new_msg in
  mkMsg (mkHeader (h_magic h) (h_version h) (msg_type (g_type m)) (h_length h) (g_sender_epoch m)
          (name_field (g_sender_name m)) (h_flags h) (h_port h) (h_state h) (h_slot_map h))
    (node_info <$> g_nodes m).

Definition send_gossip {B} `{!ByteQueue B} (my_name : bytes) (m : GossipMsg)
    : ClusterLink B -> bool * ClusterLink B :=
  send_msg my_name (gossip_to_msg m).

(** [std::getline(ss, s, ',')] on what is left of the stream. *)
Fixpoint comma_field (s : bytes) : bytes * bytes :=
  match s with
  | [] => ([], [])
  | c :: s =>
      if bool_decide (c = COMMA) then ([], s)
      else let '(f, r) := comma_field s in (c :: f, r)
  end.

Definition getline (s : bytes) : option (bytes * bytes) :=
  match s with [] => None | _ => Some (comma_field s) end.

Definition parse_int_field (s : bytes) : option Z :=
  match s with
  | [] => None
  | _ =>
      match stoll s with
      | Some (v, idx) => if (idx =? length s)%nat then Some v else None
      | None => None
      end
  end.

Definition u8 (z : Z) : Z := z mod 256.

(** One argument; [None] where the loop continues with the next. *)
Definition parse_node (arg : bytes) : option GossipNodeInfo :=
  '(node_name, ss) ← getline arg;
  '(ip0, ss) ← getline ss;
  '(port_str, ss) ← getline ss;
  '(flags_str, ss) ← getline ss;
  '(role_str, ss) ← getline ss;
  port0 ← parse_int_field port_str;
  flags0 ← parse_int_field flags_str;
  role0 ← parse_int_field role_str;
  let offset :=
    match getline ss with
    | Some (offset_str, _) => default 0 (parse_int_field offset_str)
    | None => 0
    end in
  Some (mkGInfo node_name ip0 (u16 port0) (u16 flags0) 0 (u8 role0) [] offset).

(** ** The gossip object *)

Record GossipServer := mkGossip {
  server : ClusterServer;
  known_nodes_ : gmap bytes GossipNodeInfo
}.

Definition on_server (f : ClusterServer -> ClusterServer) (w : GossipServer) : GossipServer :=
  mkGossip (f (server w)) (known_nodes_ w).

Definition learn (g : GossipNodeInfo) (w : GossipServer) : GossipServer :=
  mkGossip (server w) (<[g_name g := g]> (known_nodes_ w)).

(** The callback [init] gives to [gossip_.set_update_callback]. *)
Definition update_callback (now : Z) (i : nid) (w : GossipServer) : GossipServer :=
  match node_at i (server w) ≫= fun n => known_nodes_ w !! getName n with
  | Some g => on_server (on_state (on_node i (updateNodeInfo now g))) w
  | None => w
  end.

(** A loop over the nodes of a message. *)
Definition for_nodes {W} (f : GossipNodeInfo -> W -> W) (m : GossipMsg) (w : W) : W :=
  foldl (fun w g => f g w) w (g_nodes m).

Definition own_node (s : ClusterServer) : option ClusterNode :=
  getNode (my_node_name_ (state_ s)) (state_ s) ≫= fun i => node_at i s.

(** The first 16384 slots of a node. *)
Definition slots_info (n : ClusterNode) (epoch : Z) : GossipNodeInfo :=
  mkGInfo (getName n) (ip (info_ n)) (u16 (port (info_ n))) (u16 (flags (info_ n))) epoch
    (role_byte n) (u16 <$> take (Z.to_nat 16384) (slots_ n)) 0.

Definition build_ping_msg (s : ClusterServer) : GossipMsg :=
  match own_node s with
  | None => mkGMsg gPing 0 [] []
  | Some n => mkGMsg gPing 0 (getName n) [slots_info n 0]
  end.

Definition build_pong_msg (s : ClusterServer) : GossipMsg :=
  match own_node s with
  | None => mkGMsg gPong 0 [] []
  | Some n => mkGMsg gPong 0 (getName n) ((fun n => slots_info n 0) <$> getAllNodes (state_ s))
  end.

Definition build_meet_msg (s : ClusterServer) : GossipMsg :=
  match own_node s with
  | None => mkGMsg gMeet 0 [] []
  | Some n => mkGMsg gMeet 0 (getName n) [gossip_info n]
  end.

Definition has_flag (f : Z) (g : GossipNodeInfo) : bool := negb (Z.land (g_flags g) f =? 0).

(** What PING and PONG do alike with one node: remember it, and note that the
    sender suspects it. *)
Definition note_node (sender : bytes) (g : GossipNodeInfo) (w : GossipServer) : GossipServer :=
  let w := learn g w in
  if has_flag kPfail g then on_server (on_state (addPfailReport (g_name g) sender)) w else w.

Definition handle_ping (now : Z) (meet_callback : option (bytes -> Z -> ClusterServer -> ClusterServer))
    (m : GossipMsg) : GossipServer -> GossipServer :=
  for_nodes (fun g w =>
    let w := note_node (g_sender_name m) g w in
    match getNode (g_name g) (state_ (server w)) with
    | None =>
        match meet_callback with
        | Some f => on_server (f (g_ip g) (g_port g)) w
        | None => w
        end
    | Some i => update_callback now i w
    end) m.

Definition handle_pong (now : Z) (m : GossipMsg) : GossipServer -> GossipServer :=
  for_nodes (fun g w =>
    let w := note_node (g_sender_name m) g w in
    match getNode (g_name g) (state_ (server w)) with
    | None => w
    | Some i => update_callback now i w
    end) m.

Definition handle_meet (meet_callback : option (bytes -> Z -> ClusterServer -> ClusterServer))
    (m : GossipMsg) (w : GossipServer) : GossipServer :=
  let w := for_nodes (fun g w =>
    match getNode (g_name g) (state_ (server w)) with
    | Some _ => w
    | None =>
        let n := new_node (g_name g) (g_ip g) (g_port g)
                   (if g_role g =? 0 then kMaster else kReplica) in
        on_server (on_state (make_node (setFlags (g_flags g) n))) w
    end) m w in
  match meet_callback, known_nodes_ w !! g_sender_name m with
  | Some f, Some g => on_server (f (g_ip g) (g_port g)) w
  | _, _ => w
  end.

Definition push_node_info (n : ClusterNode) : GossipServer -> GossipServer := learn (slots_info n 0).

Definition handle_fail (now : Z) (m : GossipMsg) : GossipServer -> GossipServer :=
  for_nodes (fun g => on_server (on_state (on_named (g_name g) (setFailFlag now true)))) m.

Definition broadcast_fail (nm : bytes) (s : ClusterServer) : ClusterServer :=
  match own_node s with
  | None => s
  | Some me =>
      broadcast (mkGMsg gFail (u64 (getConfigEpoch me)) (getName me)
        (match getNode nm (state_ s) ≫= fun i => node_at i s with
         | Some n => [gossip_info n]
         | None => []
         end)) s
  end.

Definition handle_failover_auth_req (now : Z) (m : GossipMsg) : GossipServer -> GossipServer :=
  for_nodes (fun g w =>
    match getNode (g_name g) (state_ (server w)) with
    | Some i => update_callback now i w
    | None => w
    end) m.

Definition handle_update (now : Z) (m : GossipMsg) : GossipServer -> GossipServer :=
  for_nodes (fun g w =>
    match getNode (g_name g) (state_ (server w)) with
    | Some i => update_callback now i (learn g w)
    | None => w
    end) m.

(** ** The callback for bus messages *)

(** The sender's name: the 40 bytes up to the first zero. *)
Definition sender_name_str (m : ClusterMsg) : bytes := c_str (h_sender_name (m_header m)).

(** The gossip message a bus message carries. *)
Definition gossip_of_msg (t : GossipType) (sender : bytes) (m : ClusterMsg) : GossipMsg :=
  mkGMsg t (h_sender_epoch (m_header m)) sender (omap parse_node (m_args m)).

(** A vote for every request that is granted. *)
Definition answer_request (master_offset max_lag : Z) (g : GossipNodeInfo) (s : ClusterServer)
    : ClusterServer :=
  let '(ok, s) := handleFailoverAuthRequest master_offset max_lag (g_name g) (i64 (g_epoch g))
                    (g_failover_offset g) s in
  if ok then broadcast_failover_auth_ack (g_name g) (i64 (g_epoch g)) s else s.

Definition gossip_callback (now master_offset max_lag : Z) (sender : bytes) (m : ClusterMsg)
    (w : GossipServer) : GossipServer :=
  let t := h_type (m_header m) in
  if t =? 5 then handle_fail now (gossip_of_msg gFail sender m) w
  else if t =? 7 then
    let gm := gossip_of_msg gFailoverAuthReq sender m in
    on_server (for_nodes (answer_request master_offset max_lag) gm) (handle_failover_auth_req now gm w)
  else if t =? 8 then
    let gm := gossip_of_msg gFailoverAuthAck sender m in
    on_server (for_nodes (fun g => handleFailoverAuthAck (g_name g)) gm) w
  else if (t =? 9) || (t =? 11) || (t =? 4) || (t =? 6) then
    handle_update now (gossip_of_msg gPing sender m) w
  else w.

(** The callback for a node that answered: [None] where [std::stoi] throws. *)
Definition node_connected (nm : bytes) (s : ClusterServer) : option ClusterServer :=
  match find_pos (fun c => bool_decide (c = ":"%char)) nm with
  | None => Some s
  | Some p =>
      match stoll (drop (S p) nm) with
      | Some (port0, _) =>
          if (-2147483648 <=? port0) && (port0 <=? 2147483647) then
            match getNode nm (state_ s) with
            | Some i =>
                match node_at i s with
                | Some n =>
                    if negb (isMaster n) && negb (node_isReplica n)
                    then Some (on_state (on_node i (setRole kMaster)) s) else Some s
                | None => Some s
                end
            | None => Some (on_state (make_node (new_node nm (take p nm) port0 kMaster)) s)
            end
          else None
      | None => None
      end
  end.

(** The callback for a node whose link timed out. *)
Definition ping_timeout (now : Z) (nm : bytes) (s : ClusterServer) : ClusterServer :=
  if checkFailQuorum nm s then markNodeAsFail now nm s else s.

(** What [check_connections] does with a node it has heard nothing from. *)
Definition node_timed_out (now : Z) (nm : bytes) (s : ClusterServer) : ClusterServer :=
  ping_timeout now nm (on_state (markNodeAsPfail now nm) s).
End Gossip.
