(* ===== verification/GossipProps.v ===== *)
(** * Properties of the gossip: what of a node survives the wire, and what that
    means for failure detection and failover *)

From S2P Require Import Prelude Base Buffer Payload PayloadSpec Resp Slots Cluster ClusterProps Link LinkProps Gossip.
From stdpp Require Import options.

Module GossipProps.
Import Text Cluster ClusterProps Link LinkProps Gossip.

(** ** Round trip of node information *)

Definition no_comma (s : bytes) : Prop := Forall (fun c => c <> COMMA) s.

Lemma comma_field_text f r : no_comma f -> comma_field (f ++ COMMA :: r) = (f, r).
Proof.
  induction 1 as [|c f Hc _ IH]; cbn [app comma_field].
  - by rewrite bool_decide_eq_true_2.
  - by rewrite bool_decide_eq_false_2, IH.
Qed.

Lemma comma_field_last f : no_comma f -> comma_field f = (f, []).
Proof.
  induction 1 as [|c f Hc _ IH]; cbn [comma_field]; [done|].
  by rewrite bool_decide_eq_false_2, IH.
Qed.

Lemma getline_text f r : no_comma f -> getline (f ++ COMMA :: r) = Some (f, r).
Proof. intros Hf. rewrite <-(comma_field_text f r Hf). unfold getline. by destruct f. Qed.

Lemma getline_last f : no_comma f -> f <> [] -> getline f = Some (f, []).
Proof. intros Hf Hne. rewrite <-(comma_field_last f Hf). unfold getline. by destruct f. Qed.

Lemma to_string_no_comma z : no_comma (to_string z) /\ to_string z <> [].
Proof.
  assert (forall n, 0 <= n -> no_comma (show_unsigned n) /\ show_unsigned n <> []) as H.
  { intros n Hn. destruct (show_unsigned_spec n Hn) as (Hne & Hd & _). split; [|done].
    eapply Forall_impl; [exact Hd|]. intros c Hc ->. by vm_compute in Hc. }
  unfold to_string. destruct (Z.ltb_spec z 0).
  - destruct (H (- z)) as [Hc Hne]; [lia|]. split; [|done]. by constructor.
  - apply H. lia.
Qed.

Lemma parse_int_field_text z : in_i64 z -> parse_int_field (to_string z) = Some z.
Proof.
  intros Hz. unfold parse_int_field. rewrite stoll_to_string by done. rewrite Nat.eqb_refl.
  by destruct (to_string z) eqn:E; [destruct (proj2 (to_string_no_comma z))|].
Qed.

(** Information that can be written: no comma in the texts, numbers of their
    width. *)
Record info_ok (g : GossipNodeInfo) : Prop := {
  io_name : no_comma (g_name g);
  io_ip : no_comma (g_ip g);
  io_port : 0 <= g_port g < 65536;
  io_flags : 0 <= g_flags g < 65536;
  io_role : 0 <= g_role g < 256;
  io_offset : in_i64 (g_failover_offset g)
}.

(** What arrives of it. *)
Definition received (g : GossipNodeInfo) : GossipNodeInfo :=
  mkGInfo (g_name g) (g_ip g) (g_port g) (g_flags g) 0 (g_role g) [] (g_failover_offset g).

Ltac next_field := rewrite getline_text by done; cbn [mbind option_bind].

Lemma parse_node_text g : info_ok g -> parse_node (node_info g) = Some (received g).
Proof.
  intros [Hn Hi Hp Hf Hr Ho].
  assert (forall a b, a ++ lit "," ++ b = a ++ COMMA :: b) as Hl by done.
  destruct (to_string_no_comma (g_port g)) as [Hpc _]. destruct (to_string_no_comma (g_flags g)) as [Hfc _].
  destruct (to_string_no_comma (g_role g)) as [Hrc Hrn].
  destruct (to_string_no_comma (g_failover_offset g)) as [Hoc Hon].
  assert (in_i64 (g_port g) /\ in_i64 (g_flags g) /\ in_i64 (g_role g)) as (Hp6 & Hf6 & Hr6)
    by (unfold in_i64, int64_min, int64_max; lia).
  unfold node_info, parse_node. cbv zeta. rewrite !Hl. unfold received, u16, u8.
  destruct (Z.eqb_spec (g_failover_offset g) 0) as [E|E].
  - do 4 next_field. rewrite getline_last by done.
    cbn [mbind option_bind]. rewrite !parse_int_field_text by done. cbn [mbind option_bind getline].
    by rewrite E, !Z.mod_small.
  - do 4 rewrite <-!app_assoc, <-!app_comm_cons. do 5 next_field.
    rewrite !parse_int_field_text by done. cbn [mbind option_bind].
    rewrite getline_last, parse_int_field_text by done. by rewrite !Z.mod_small.
Qed.

(** A name that fits the header. *)
Definition name_ok (s : bytes) : Prop :=
  s <> [] /\ (length s <= 39)%nat /\ Forall (fun c => c <> NUL) s.

Lemma c_str_text s r : Forall (fun c => c <> NUL) s -> c_str (s ++ NUL :: r) = s.
Proof.
  induction 1 as [|c s Hc _ IH]; cbn [app c_str].
  - by rewrite bool_decide_eq_true_2.
  - by rewrite bool_decide_eq_false_2, IH.
Qed.

Lemma c_str_id s : Forall (fun c => c <> NUL) s -> c_str s = s.
Proof. induction 1 as [|c s Hc _ IH]; cbn [c_str]; [done|]. by rewrite bool_decide_eq_false_2, IH. Qed.

Lemma name_field_text s : name_ok s -> name_field s = s ++ NUL :: replicate (39 - length s) NUL.
Proof.
  intros (Hne & Hl & Hz). unfold name_field. rewrite c_str_id, take_ge by done.
  by replace (40 - length s)%nat with (S (39 - length s)) by lia.
Qed.

Lemma sent_sender my_name m :
  name_ok (g_sender_name m) -> sender_name_str (sent my_name (gossip_to_msg m)) = g_sender_name m.
Proof.
  intros Hn. unfold sender_name_str, sent, sent_header, gossip_to_msg, sent_name.
  cbn [m_header h_sender_name]. rewrite name_field_text by done. destruct Hn as (Hne & _ & Hz).
  rewrite bool_decide_eq_false_2; [by apply c_str_text|].
  destruct Hz as [|c s Hc _]; [done|]. cbn. congruence.
Qed.

Record gossip_ok (m : GossipMsg) : Prop := {
  go_sender : name_ok (g_sender_name m);
  go_epoch : 0 <= g_sender_epoch m <= uint64_max;
  go_nodes : Forall info_ok (g_nodes m)
}.

Lemma parse_nodes ns : Forall info_ok ns -> omap parse_node (node_info <$> ns) = received <$> ns.
Proof.
  induction 1 as [|g ns Hg _ IH]; [done|]. csimpl. by rewrite parse_node_text, IH.
Qed.

(** ** Failure detection and failover by messages alone *)

Definition epochs_ok (n : ClusterNode) : Prop := 0 <= getConfigEpoch n /\ 0 <= failover_epoch_ n.

(** No failure report is stored and no vote was given. *)
Record calm (s : ClusterServer) : Prop := {
  cm_nodes : forall i n, node_at i s = Some n -> epochs_ok n;
  cm_reports : pfailing_reports_ (state_ s) = ∅;
  cm_outbox : Forall (fun m => g_type m <> gFailoverAuthAck) (outbox s)
}.

Lemma calm_on_node i f s :
  (forall n, epochs_ok n -> epochs_ok (f n)) -> calm s -> calm (on_state (on_node i f) s).
Proof.
  intros Hf [Hn Hr Ho]. split; [|done..]. intros j n. rewrite node_at_on_node. case_decide; [|apply Hn].
  destruct (node_at j s) eqn:E; cbn; [|done]. intros [= <-]. by apply Hf, (Hn j).
Qed.

Lemma calm_my_node f s : (forall n, epochs_ok n -> epochs_ok (f n)) -> calm s -> calm (on_my_node f s).
Proof. intros Hf Hs. unfold on_my_node. case_match; [by apply calm_on_node|done]. Qed.

Lemma calm_named nm f s :
  (forall n, epochs_ok n -> epochs_ok (f n)) -> calm s -> calm (on_state (on_named nm f) s).
Proof.
  intros Hf Hs. unfold on_named, on_state. destruct (nodes_ (state_ s) !! nm) as [i|].
  - exact (calm_on_node i f s Hf Hs).
  - by destruct s.
Qed.

Lemma calm_state f s :
  heap (f (state_ s)) = heap (state_ s) ->
  pfailing_reports_ (f (state_ s)) = pfailing_reports_ (state_ s) -> calm s -> calm (on_state f s).
Proof.
  intros Hh Hr [Hn Hp Ho]. split; [|by cbn; rewrite Hr|done]. intros i n. unfold node_at. cbn.
  rewrite Hh. apply Hn.
Qed.

Lemma calm_broadcast m s : g_type m <> gFailoverAuthAck -> calm s -> calm (broadcast m s).
Proof. intros Hm [Hn Hp Ho]. split; [done..|]. cbn. apply Forall_app. split; [done|]. by constructor. Qed.

Lemma calm_foldl {A} (f : ClusterServer -> A -> ClusterServer) l s :
  (forall s a, calm s -> calm (f s a)) -> calm s -> calm (foldl f s l).
Proof. intros Hf. revert s. induction l as [|a l IH]; intros s Hs; cbn; [done|]. by apply IH, Hf. Qed.

Lemma make_node_tables n st :
  heap (make_node n st) = <[fresh (dom (heap st)) := n]> (heap st) /\
  pfailing_reports_ (make_node n st) = pfailing_reports_ st.
Proof. unfold make_node, addNode. repeat case_match; done. Qed.

Lemma calm_make_node n s : epochs_ok n -> calm s -> calm (on_state (make_node n) s).
Proof.
  intros Hn [Hs Hp Ho]. destruct (make_node_tables n (state_ s)) as [Hh Hr].
  split; [|by cbn; rewrite Hr|done]. intros j m. unfold node_at. cbn. rewrite Hh.
  destruct (decide (fresh (dom (heap (state_ s))) = j)) as [<-|].
  - rewrite lookup_insert_eq. by intros [= <-].
  - rewrite lookup_insert_ne by done. apply Hs.
Qed.

Lemma epochs_setFailFlag t b n : epochs_ok n -> epochs_ok (setFailFlag t b n).
Proof. by destruct b. Qed.

Lemma epochs_setPfailFlag t b n : epochs_ok n -> epochs_ok (setPfailFlag t b n).
Proof. destruct b; [|done]. unfold setPfailFlag. by destruct (_ =? 0). Qed.

Lemma epochs_update t g n : g_epoch g = 0 -> epochs_ok n -> epochs_ok (updateNodeInfo t g n).
Proof.
  intros Hg [_ Hf]. unfold updateNodeInfo. rewrite Hg. cbv zeta. split; [done|].
  set (n1 := if negb (Z.land (g_flags g) kFail =? 0) then _ else _).
  assert (failover_epoch_ n1 = failover_epoch_ n) as H1
    by (unfold n1; by destruct (negb (Z.land (g_flags g) kFail =? 0))).
  clearbody n1. set (n2 := if negb (Z.land (g_flags g) kPfail =? 0) then _ else _).
  assert (failover_epoch_ n2 = failover_epoch_ n1) as H2.
  { unfold n2. destruct (negb (Z.land (g_flags g) kPfail =? 0)); [|done].
    unfold setPfailFlag. by destruct (_ =? 0). }
  change (0 <= failover_epoch_ n2). lia.
Qed.

Lemma calm_owner slot nm s : calm s -> calm (setSlotOwner slot nm s).
Proof.
  intros Hs. unfold setSlotOwner. case_match; [|done].
  apply (calm_on_node _ _ (on_state (fun st => setNodeForSlot slot _ (clearSlotMigration slot st)) s)).
  - intros m. unfold addSlot. by case_bool_decide.
  - by apply calm_state.
Qed.

Lemma calm_clearReplicaOf s : calm s -> calm (clearReplicaOf s).
Proof.
  intros Hs. unfold clearReplicaOf. case_match; [done|]. apply calm_my_node; [done|].
  case_match; [|done]. apply calm_state; [apply removeReplica_tables| |done].
  unfold removeReplica. by case_match.
Qed.

Lemma calm_completeFailover s : calm s -> calm (completeFailover s).
Proof.
  intros Hs. unfold completeFailover. case_match; [done|]. case_match; [|done]. cbv zeta.
  apply calm_my_node; [intros k [??]; split; cbn in *; lia|]. apply calm_clearReplicaOf.
  apply calm_foldl; [intros; by apply calm_owner|]. apply calm_foldl; [|done].
  intros s' a Hs'. by apply calm_on_node.
Qed.

Lemma calm_startFailover t nm s : calm s -> calm (startFailover t nm s).2.
Proof.
  intros Hs. unfold startFailover. destruct (_ || _); [done|].
  destruct (getNode nm (state_ s)) as [i|]; [|done]. cbn [mbind option_bind].
  destruct (node_at i s) as [m|] eqn:Hm; [|done]. destruct (negb (isFailed m)); [done|].
  destruct (negb _); [done|]. cbv zeta. cbn [snd]. apply calm_my_node; [|done]. intros n _.
  destruct (cm_nodes _ Hs _ _ Hm) as [Hc _]. split; cbn in *; lia.
Qed.

Lemma calm_executeFailover t s : calm s -> calm (executeFailover t s).
Proof.
  intros Hs. unfold executeFailover. destruct (_ || _); [done|].
  destruct (getMyMaster s ≫= _) as [m|]; [|done]. destruct (my_node s) as [me|]; [|done].
  destruct (failover_state_ me).
  - destruct (shouldStartFailover s); [by apply calm_startFailover|done].
  - cbv zeta. unfold broadcast_failover_auth_req. set (s1 := on_my_node _ s).
    assert (calm s1) as Hs1 by (by apply calm_my_node). case_match; [by apply calm_broadcast|done].
  - destruct (isFailoverTimeout t me); [by apply calm_my_node|]. cbv zeta.
    destruct (_ <=? _); [by apply calm_my_node|done].
  - by apply calm_completeFailover.
  - apply calm_my_node; [done|]. unfold broadcastFailoverUpdate. repeat case_match; try done.
    by apply calm_broadcast.
  - by apply calm_my_node.
Qed.

Lemma calm_markFail t nm s : calm s -> calm (markNodeAsFail t nm s).
Proof.
  intros Hs. unfold markNodeAsFail. destruct (_ || _); [done|]. destruct (getNode _ _) as [i|]; [|done].
  cbv zeta. assert (calm (on_state (state_markNodeAsFail t nm) s)) as Hs1
    by (apply (calm_named nm (setFailFlag t true)); [apply epochs_setFailFlag|done]).
  repeat case_match; try done. by apply calm_broadcast.
Qed.

Lemma calm_markPfail t nm s : calm s -> calm (on_state (markNodeAsPfail t nm) s).
Proof.
  apply (calm_named nm (fun n => incrementFailureCount (setPfailFlag t true n))). intros n.
  apply (epochs_setPfailFlag t true).
Qed.

Lemma calm_quorum nm s : calm s -> checkFailQuorum nm s = false.
Proof.
  intros [_ Hr _]. unfold checkFailQuorum. case_match; [done|]. case_match; [|done].
  case_match; [done|]. unfold getPfailReportCount. rewrite Hr, lookup_empty. cbv zeta.
  apply Z.leb_gt. lia.
Qed.

(** Commands and timers of a node; what comes from other nodes is a message. *)
Definition is_local (o : cl_op) : bool :=
  match o with OReport _ _ | OUpdate _ _ _ | OAuthReq _ _ _ _ _ | OAck _ => false | _ => true end.

Lemma calm_local o s : is_local o = true -> calm s -> calm (run s o).
Proof.
  intros Ho Hs. destruct o; try done; cbn [run]; try (by apply calm_state).
  - unfold meet. repeat case_match; try done; [by apply calm_on_node|by apply calm_make_node].
  - by apply calm_owner.
  - unfold setReplicaOf. destruct (negb _); [done|]. destruct (getNode _ _) as [m|]; [|done].
    destruct (node_at m s) as [mn|]; [|done]. destruct (negb _); [done|]. cbn [snd].
    set (s1 := on_my_node _ s). assert (calm s1) by (by apply calm_my_node).
    case_match; [by apply calm_state|done].
  - by apply calm_clearReplicaOf.
  - unfold handleNodeTimeout. destruct (_ || _ || _); [done|]. destruct (getNode _ _) as [i|]; [|done].
    destruct (node_at i s) as [n|]; [|done]. destruct (isFailed n); [done|]. cbv zeta.
    assert (calm (on_state (on_node i incrementFailureCount) s)) by (by apply calm_on_node).
    destruct (_ <=? _); [|done]. by apply calm_markPfail.
  - unfold handleNodeRecovery. destruct (_ || _); [done|]. destruct (getNode _ _) as [i|]; [|done].
    cbv zeta. assert (calm (on_state (on_node i resetFailureCount) s)) as H1 by (by apply calm_on_node).
    revert H1. generalize (on_state (on_node i resetFailureCount) s). intros s1 H1.
    match goal with |- calm (if default false (isFailed <$> node_at i ?x) then _ else _) => set (s2 := x) end.
    assert (calm s2) as H2.
    { unfold s2. case_match; [|done]. apply (calm_named nm (setPfailFlag now false)); [|done].
      apply epochs_setPfailFlag. }
    case_match; [|done]. apply (calm_named nm (setFailFlag now false)); [|done]. apply epochs_setFailFlag.
  - by apply calm_markFail.
  - by apply calm_executeFailover.
Qed.

(** What happens to a node: a message of the bus, an answer of another node, a
    link that is silent, a command or the timer. *)
Inductive event :=
  | EBus (now master_offset max_lag : Z) (sender : bytes) (m : ClusterMsg)
  | EConnected (nm : bytes)
  | ESilent (now : Z) (nm : bytes)
  | ELocal (o : cl_op) (Ho : is_local o = true).

Definition step (w : GossipServer) (e : event) : GossipServer :=
  match e with
  | EBus now mo ml sender m => gossip_callback now mo ml sender m w
  | EConnected nm => on_server (fun s => default s (node_connected nm s)) w
  | ESilent now nm => on_server (node_timed_out now nm) w
  | ELocal o _ => on_server (fun s => run s o) w
  end.

(** What is known of other nodes has no epoch, since none is sent. *)
Definition calm_world (w : GossipServer) : Prop :=
  calm (server w) /\ map_Forall (fun _ g => g_epoch g = 0) (known_nodes_ w).

Lemma for_nodes_ind {W} (P : W -> Prop) (Q : GossipNodeInfo -> Prop) f m w :
  Forall Q (g_nodes m) -> (forall g w, Q g -> P w -> P (f g w)) -> P w -> P (for_nodes f m w).
Proof.
  intros HQ Hf. unfold for_nodes. revert w. induction HQ as [|g l Hg _ IH]; intros w Hw; cbn; [done|].
  by apply IH, Hf.
Qed.

Lemma parsed_epochs t sender m : Forall (fun g => g_epoch g = 0) (g_nodes (gossip_of_msg t sender m)).
Proof.
  cbn. apply Forall_forall. intros g Hg. apply list_elem_of_omap in Hg as (arg & _ & Hp).
  unfold parse_node in Hp. do 5 apply bind_Some in Hp as ([? ?] & _ & Hp).
  do 3 apply bind_Some in Hp as (? & _ & Hp). by injection Hp as <-.
Qed.

Lemma calm_update_callback now i w : calm_world w -> calm_world (update_callback now i w).
Proof.
  intros [Hs Hk]. unfold update_callback. destruct (node_at i (server w)) as [n|]; [|done].
  cbn [mbind option_bind]. destruct (known_nodes_ w !! getName n) as [g|] eqn:Hg; [|done].
  split; [|done]. apply calm_on_node; [|done]. intros k. apply epochs_update, (Hk _ _ Hg).
Qed.

Lemma calm_answer mo ml g s : g_epoch g = 0 -> calm s -> calm (answer_request mo ml g s).
Proof.
  intros Hg Hs. unfold answer_request. rewrite Hg. change (i64 0) with 0.
  assert (handleFailoverAuthRequest mo ml (g_name g) 0 (g_failover_offset g) s = (false, s)) as ->; [|done].
  unfold handleFailoverAuthRequest. destruct (negb (enabled_ s)); [done|].
  unfold my_node. destruct (my_node_ s) as [i|]; [|done]. cbn [mbind option_bind].
  destruct (node_at i s) as [me|] eqn:Hme; [|done]. destruct (negb (isMaster me)); [done|].
  destruct (getNode _ _); [|done]. destruct (cm_nodes _ Hs _ _ Hme) as [_ He].
  by rewrite (proj2 (Z.leb_le _ _)).
Qed.

Lemma calm_gossip_callback now mo ml sender m w :
  calm_world w -> calm_world (gossip_callback now mo ml sender m w).
Proof.
  intros Hw. unfold gossip_callback. cbv zeta.
  destruct (_ =? 5); [|destruct (_ =? 7); [|destruct (_ =? 8); [|destruct (_ || _); [|done]]]].
  - unfold handle_fail. apply (for_nodes_ind _ _ _ _ _ (parsed_epochs _ _ _)); [|done].
    intros g w1 _ [Hs Hk]. split; [|done]. apply calm_named; [apply epochs_setFailFlag|done].
  - set (gm := gossip_of_msg _ _ _). set (w1 := handle_failover_auth_req _ _ _).
    assert (calm_world w1) as [Hs Hk].
    { apply (for_nodes_ind _ _ _ _ _ (parsed_epochs _ _ _)); [|done]. intros g w2 _ Hw2.
      case_match; [by apply calm_update_callback|done]. }
    split; [|done]. apply (for_nodes_ind calm _ _ _ _ (parsed_epochs _ _ _)); [|done].
    intros g s Hg. by apply calm_answer.
  - destruct Hw as [Hs Hk]. split; [|done].
    apply (for_nodes_ind calm _ _ _ _ (parsed_epochs _ _ _)); [|done].
    intros g s _ Hs1. by apply calm_my_node.
  - unfold handle_update. apply (for_nodes_ind _ _ _ _ _ (parsed_epochs _ _ _)); [|done].
    intros g w1 Hg [Hs Hk]. case_match; [|done]. apply calm_update_callback. split; [done|].
    by apply map_Forall_insert_2.
Qed.

Lemma calm_step w e : calm_world w -> calm_world (step w e).
Proof.
  intros Hw. destruct e as [now mo ml sender m|nm|now nm|o Ho]; cbn [step].
  - by apply calm_gossip_callback.
  - destruct Hw as [Hs Hk]. split; [|done]. cbn. unfold node_connected.
    repeat case_match; try done; [by apply calm_on_node|by apply calm_make_node].
  - destruct Hw as [Hs Hk]. split; [|done]. cbn. unfold node_timed_out, ping_timeout.
    pose proof (calm_markPfail now nm _ Hs). by rewrite calm_quorum.
  - destruct Hw as [Hs Hk]. split; [|done]. by apply calm_local.
Qed.

Lemma init_calm i p : calm_world (mkGossip (init i p) ∅).
Proof.
  split; [|apply map_Forall_empty]. split; [|done|constructor].
  intros j n Hn.
  assert (heap (state_ (init i p)) =
    {[0%nat := new_node (i ++ lit ":" ++ to_string p) i p kMaster]}) as Hh
    by (unfold init, addNode; cbn; repeat case_match; done).
  unfold node_at in Hn. cbn [server] in Hn. rewrite Hh in Hn.
  apply lookup_singleton_Some in Hn as [_ <-]. by split.
Qed.

(** ** Properties *)

(** What is known of a node survives the wire except its epoch and its
    slots: a gossip message whose texts have no comma comes out of the bus
    message with the same sender, name, address, flags, role and offset; the
    epoch is read as 0 and the slots as none. *)
Theorem gossip_roundtrip my_name m :
  gossip_ok m ->
  let m' := sent my_name (gossip_to_msg m) in
  gossip_of_msg (g_type m) (sender_name_str m') m' =
    mkGMsg (g_type m) (g_sender_epoch m) (g_sender_name m) (received <$> g_nodes m).
Proof.
  intros [Hn He Hns] m'. unfold m'. rewrite sent_sender by done. unfold gossip_of_msg. cbn.
  by rewrite parse_nodes.
Qed.

Lemma gossip_roundtrip_witness :
  let g := mkGInfo (lit "10.0.0.2:7000") (lit "10.0.0.2") 7000 2 9 1 [5; 6] 77 in
  let m := mkGMsg gPush 9 (lit "10.0.0.2:7000") [g] in
  g_nodes (gossip_of_msg gPush (lit "10.0.0.2:7000") (sent (lit "x") (gossip_to_msg m))) =
    [mkGInfo (lit "10.0.0.2:7000") (lit "10.0.0.2") 7000 2 0 1 [] 77].
Proof.
  intros g m. pose proof (gossip_roundtrip (lit "x") m) as H. cbv zeta in H.
  rewrite sent_sender in H.
  - change (g_sender_name m) with (lit "10.0.0.2:7000") in H. change (g_type m) with gPush in H. rewrite H; [done|].
    split.
    + split_and!; [done|vm_compute; lia|by repeat constructor].
    + cbn. unfold uint64_max. lia.
    + repeat constructor; cbn; unfold in_i64, int64_min, int64_max; lia || done.
  - split_and!; [done|vm_compute; lia|by repeat constructor].
Defined.

(** Failures are never agreed upon and votes never given by messages:
    whatever comes over the bus, whatever links fall silent and whatever
    commands and timers run, no node collects a report of a failure, so the
    quorum test is false for every node, and none ever sends a vote, since the
    request for it arrives with epoch 0. *)
Theorem failover_unreachable i p es :
  let w := foldl step (mkGossip (init i p) ∅) es in
  (forall nm, checkFailQuorum nm (server w) = false) /\
  Forall (fun m => g_type m <> gFailoverAuthAck) (outbox (server w)).
Proof.
  intros w. assert (calm_world w) as [Hs _].
  { unfold w. generalize (init_calm i p). generalize (mkGossip (init i p) ∅).
    induction es as [|e es IH]; intros w0 Hw; cbn; [done|]. by apply IH, calm_step. }
  split; [intros nm; by apply calm_quorum|apply Hs].
Qed.

End GossipProps.
