(* ===== verification/Connection.v ===== *)
(** * Connections: network/connection.cpp and the callback of sub_reactor.cpp

    A connection reads bytes into its input buffer, parses them, hands each
    command to a callback and queues the replies in its output buffer. The
    callback [SubReactor::register_connection] installs refuses writes on a
    replica, redirects keys of other nodes, executes the command and passes
    writes on to replication. The system calls are arguments of the handlers. *)

From S2P Require Import Prelude Base Buffer Resp Object Payload Storage Commands Slots Cluster.
From stdpp Require Import options.

Module Connection.
Import Resp.

Definition kDefaultInputBufferLimit : Z := 16777216.
Definition kDefaultOutputBufferLimit : Z := 67108864.
Definition kMinBufferLimit : Z := 1048576.

Definition normalize_buffer_limit (configured_bytes default_bytes : Z) : Z :=
  if configured_bytes =? 0 then 0
  else
    let bytes0 := if 0 <? configured_bytes then configured_bytes else default_bytes in
    if bytes0 <? kMinBufferLimit then kMinBufferLimit else bytes0.

(** What [recv] and [send] give. *)
Inductive read_result := Received (data : bytes) | PeerClosed | WouldBlock | ReadFailed.
Inductive write_result := Wrote (n : nat) | WriteBlocked | WriteFailed | WroteNothing.

Section connection.
Context {B : Type} `{!ByteQueue B} {W : Type}.

Record Connection := mkConn {
  input_buffer_ : B;
  output_buffer_ : B;
  resp_parser_ : RespParser;
  closed_ : bool;                    (** then the descriptor is -1 as well *)
  writing : bool;                    (** [EPOLLOUT] is asked for *)
  input_buffer_limit_bytes_ : Z;
  output_buffer_limit_bytes_ : Z;
  closings : nat                     (** calls of [close_callback_] *)
}.

(** A new connection, with the limits of the configuration. *)
Definition new_connection (empty : B) (query_limit output_limit : Z) : Connection :=
  mkConn empty empty new_parser false false
    (normalize_buffer_limit query_limit kDefaultInputBufferLimit)
    (normalize_buffer_limit output_limit kDefaultOutputBufferLimit) 0.

Definition with_input (b : B) (p : RespParser) (c : Connection) : Connection :=
  mkConn b (output_buffer_ c) p (closed_ c) (writing c) (input_buffer_limit_bytes_ c)
    (output_buffer_limit_bytes_ c) (closings c).

Definition with_output (b : B) (wr : bool) (c : Connection) : Connection :=
  mkConn (input_buffer_ c) b (resp_parser_ c) (closed_ c) wr (input_buffer_limit_bytes_ c)
    (output_buffer_limit_bytes_ c) (closings c).

Definition close (c : Connection) : Connection :=
  if closed_ c then c
  else
    mkConn (input_buffer_ c) (output_buffer_ c) (resp_parser_ c) true (writing c)
      (input_buffer_limit_bytes_ c) (output_buffer_limit_bytes_ c) (S (closings c)).

(** Over a limit that is set. *)
Definition over (limit : Z) (b : B) : bool := (0 <? limit) && (limit <? zlen (bq_peek b)).

Definition send_response (data : bytes) (c : Connection) : Connection :=
  match data with
  | [] => c
  | _ =>
      if closed_ c then c
      else
        let c := with_output (bq_append data (output_buffer_ c)) (writing c) c in
        if over (output_buffer_limit_bytes_ c) (output_buffer_ c) then close c
        else with_output (output_buffer_ c) true c
  end.

(** The callback: the responses it sends, in order, and what it does else. *)
Context (command_callback : RespValue -> W -> list bytes * W).

Fixpoint dispatch (cmds : list RespValue) (c : Connection) (w : W) : Connection * W :=
  match cmds with
  | [] => (c, w)
  | cmd :: cmds =>
      if closed_ c then (c, w)
      else
        let '(responses, w) := command_callback cmd w in
        dispatch cmds (foldl (fun c r => send_response r c) c responses) w
  end.

(** [None] is running out of fuel in the parser. *)
Definition handle_read (r : read_result) (c : Connection) (w : W) : option (Connection * W) :=
  if closed_ c then Some (c, w)
  else
    match r with
    | Received data =>
        let c := with_input (bq_append data (input_buffer_ c)) (resp_parser_ c) c in
        if over (input_buffer_limit_bytes_ c) (input_buffer_ c) then Some (close c, w)
        else
          let '(bad, p) := has_protocol_error (resp_parser_ c) (bq_peek (input_buffer_ c)) in
          let c := with_input (input_buffer_ c) p c in
          if bad then
            Some (close (send_response
              (encode_error (lit "ERR Protocol error: " ++ protocol_error_ p)) c), w)
          else
            match parse (mkPst p (input_buffer_ c)) with
            | Done (Some commands) st =>
                let c := with_input (ps_buf st) (ps_parser st) c in
                let c :=
                  match error_msg_ (ps_parser st) with
                  | [] => c
                  | e =>
                      let c := send_response (encode_error e) c in
                      with_input (input_buffer_ c) (reset (resp_parser_ c)) c
                  end in
                Some (dispatch commands c w)
            | _ => None
            end
    | PeerClosed | ReadFailed => Some (close c, w)
    | WouldBlock => Some (c, w)
    end.

(** The bytes that went to the socket, and the connection. *)
Definition handle_write (r : write_result) (c : Connection) : bytes * Connection :=
  if closed_ c then ([], c)
  else
    match bq_peek (output_buffer_ c) with
    | [] => ([], with_output (output_buffer_ c) false c)
    | data =>
        match r with
        | Wrote n =>
            let b := bq_retrieve n (output_buffer_ c) in
            (take n data,
             with_output b (match bq_peek b with [] => false | _ => writing c end) c)
        | WriteFailed => ([], close c)
        | WriteBlocked | WroteNothing => ([], c)
        end
    end.
End connection.
Arguments Connection B : clear implicits.
End Connection.

(** ** The command callback of [SubReactor] *)

Module Server.
Import Text Resp Object Storage Commands Cluster.

(** What one execution meets: the clock, random draws, the order of the
    unordered containers, and the text of an exception. *)
Record Env := mkEnv {
  e_now : Z;
  e_draw : nat -> nat;
  e_pick : nat;
  e_store_order : StoreOrder;
  e_hash_order : HashOrder;
  e_what : bytes
}.

Record World := mkWorld {
  store : Storage;
  cluster : ClusterServer;
  served : nat;                (** [commands_processed_] *)
  replicated : list bytes      (** calls of [replicate_command] *)
}.

Definition write_commands : list bytes :=
  [lit "set"; lit "del"; lit "incr"; lit "decr"; lit "incrby"; lit "decrby"; lit "lpush";
   lit "rpush"; lit "lpop"; lit "rpop"; lit "hset"; lit "hdel"; lit "sadd"; lit "spop";
   lit "zadd"; lit "expire"; lit "setex"; lit "persist"; lit "restore"; lit "flushdb"].

Definition key_commands : list bytes :=
  [lit "get"; lit "set"; lit "del"; lit "exists"; lit "expire"; lit "ttl"; lit "pttl";
   lit "persist"; lit "setex"; lit "incr"; lit "decr"; lit "incrby"; lit "decrby"; lit "restore";
   lit "lpush"; lit "rpush"; lit "lpop"; lit "rpop"; lit "llen"; lit "lrange"; lit "hset";
   lit "hget"; lit "hdel"; lit "hlen"; lit "hgetall"; lit "sadd"; lit "spop"; lit "scard";
   lit "sismember"; lit "smembers"; lit "zadd"; lit "zscore"; lit "zcard"; lit "zrange"].

Definition is_write_command (name : bytes) : bool := bool_decide (name ∈ write_commands).
Definition is_key_command (name : bytes) : bool := bool_decide (name ∈ key_commands).

Definition readonly : bytes :=
  encode_error (lit "READONLY You can't write against a read only replica.").

Section callback.
Context `{StringHash} `{DoubleText} `{DoubleLib} (env : nat -> Env).

(** The commands that [Commands.execute] leaves to Admin.v and ClusterCmd.v: their reply
    and effect on the store. *)
Context (execute_other : Command -> list bytes -> Storage -> option bytes * Storage).

(** [command->execute(args)]; [None] where it throws. *)
Definition run_command (e : Env) (c : Command) (args : list bytes) (s : Storage)
    : option bytes * Storage :=
  match execute (H0 := e_store_order e) (H1 := e_hash_order e) (e_now e) (e_draw e) (e_pick e)
          c args with
  | Some m => m s
  | None => execute_other c args s
  end.

(** The same inside the [try]. *)
Definition guarded_execute (e : Env) (c : Command) (args : list bytes) (s : Storage)
    : bytes * Storage :=
  let '(r, s) := run_command e c args s in
  (match r with Some response => response | None => encode_error (lit "ERR " ++ e_what e) end, s).

(** The redirection of a key command of a cluster node; empty for none. *)
Definition redirect (cmd_name : bytes) (args : list bytes) (cl : ClusterServer) : bytes :=
  if enabled_ cl && is_key_command cmd_name && negb (bool_decide (arg 1 args = []))
  then checkRedirect (arg 1 args) cl else [].

Definition command_callback (cmd : RespValue) (w : World) : list bytes * World :=
  match as_string <$> as_array cmd with
  | [] => ([], w)
  | (name :: _) as args =>
      let cmd_name := to_lower name in
      let is_write := is_write_command cmd_name in
      if enabled_ (cluster w) && isReplica (cluster w) && is_write then ([readonly], w)
      else
        match redirect cmd_name args (cluster w) with
        | (_ :: _) as r => ([r], w)
        | [] =>
            match create cmd_name with
            | None => ([encode_error (lit "unknown command '" ++ name ++ lit "'")], w)
            | Some c =>
                let '(response, s) := guarded_execute (env (served w)) c args (store w) in
                let replicate := is_write && enabled_ (cluster w) && negb (isReplica (cluster w)) in
                ([response],
                 mkWorld s (cluster w) (S (served w))
                   (replicated w ++ (if replicate then [encode_array args] else [])))
            end
        end
  end.
End callback.
End Server.
