(* ===== verification/ConnectionProps.v ===== *)
(** * Properties of connections: the server answers as if commands ran one by one *)

From S2P Require Import Prelude Base Buffer Resp RespSpec Object Payload PayloadSpec Storage StorageSpec Commands CommandsSpec CommandsEffect CommandsProps Rdb RdbSpec Slots Cluster ClusterProps Connection.
From stdpp Require Import options.

Module ConnectionProps.
Import Resp RespSpec Object Storage StorageSpec Commands CommandsSpec CommandsEffect CommandsProps
  Cluster Connection Server.

Section serving.
Context {B : Type} `{!ByteQueue B} {W : Type} (cb : RespValue -> W -> list bytes * W).
Implicit Types c : Connection B.

(** The reference: the replies of the commands, executed one after the other. *)
Fixpoint serve (cmds : list (list bytes)) (w : W) : bytes * W :=
  match cmds with
  | [] => ([], w)
  | args :: cmds =>
      let '(rs, w) := cb (command_value args) w in
      let '(out, w) := serve cmds w in (mjoin rs ++ out, w)
  end.

Lemma serve_app l1 l2 w :
  serve (l1 ++ l2) w =
  ((serve l1 w).1 ++ (serve l2 (serve l1 w).2).1, (serve l2 (serve l1 w).2).2).
Proof.
  revert w. induction l1 as [|a l1 IH]; intros w; cbn [app serve fst snd]; [by destruct (serve l2 w)|].
  destruct (cb (command_value a) w) as [rs w1]. rewrite IH. destruct (serve l1 w1) as [o1 w2].
  cbn [fst snd]. by rewrite app_assoc.
Qed.

(** What happens to a connection: bytes arrive, or the socket takes some. *)
Inductive io := IRead (data : bytes) | IWrite (r : write_result).

(** The bytes that went out, the connection, and the world. *)
Fixpoint run_io (evs : list io) c (w : W) : option (bytes * Connection B * W) :=
  match evs with
  | [] => Some ([], c, w)
  | IRead data :: evs =>
      match handle_read cb (Received data) c w with
      | None => None
      | Some (c, w) => run_io evs c w
      end
  | IWrite r :: evs =>
      let '(out, c) := handle_write r c in
      match run_io evs c w with
      | None => None
      | Some (out', c, w) => Some (out ++ out', c, w)
      end
  end.

Definition read_of (e : io) : option bytes := match e with IRead d => Some d | _ => None end.

(** A read gives at most 4095 bytes, and writes do not fail. *)
Definition io_ok (e : io) : Prop :=
  match e with IRead d => zlen d <= 4095 | IWrite r => r <> WriteFailed end.

(** Bytes that leave room for a read. *)
Definition fits (limit : Z) (x : bytes) : Prop := limit <= 0 \/ zlen x + 4095 <= limit.

(** An open connection that holds the part [t] of a command. *)
Record open_with (t : bytes) c : Prop := {
  op_open : closed_ c = false;
  op_input : bq_ok (input_buffer_ c);
  op_output : bq_ok (output_buffer_ c);
  op_part : bq_peek (input_buffer_ c) = t;
  op_parser : resp_parser_ c = new_parser
}.

Abbreviation out c := (bq_peek (output_buffer_ c)).

(** What a response leaves alone. *)
Definition same_input c c' : Prop :=
  input_buffer_ c' = input_buffer_ c /\ resp_parser_ c' = resp_parser_ c /\
  input_buffer_limit_bytes_ c' = input_buffer_limit_bytes_ c /\
  output_buffer_limit_bytes_ c' = output_buffer_limit_bytes_ c.

Definition room c (n : Z) : Prop :=
  output_buffer_limit_bytes_ c <= 0 \/ zlen (out c) + n <= output_buffer_limit_bytes_ c.

Lemma send_response_open r c :
  closed_ c = false -> bq_ok (output_buffer_ c) -> room c (zlen r) ->
  let c' := send_response r c in
  closed_ c' = false /\ bq_ok (output_buffer_ c') /\ out c' = out c ++ r /\ same_input c c'.
Proof.
  intros Hc Ho Hr. unfold send_response. destruct r as [|x r].
  { cbv zeta. by rewrite app_nil_r. }
  rewrite Hc. cbv zeta. unfold over.
  cbn [with_output output_buffer_ output_buffer_limit_bytes_].
  rewrite bq_peek_append, zlen_app by done.
  assert ((0 <? output_buffer_limit_bytes_ c) &&
    (output_buffer_limit_bytes_ c <? zlen (out c) + zlen (x :: r)) = false) as ->.
  { apply andb_false_iff. destruct Hr; [left; by apply Z.ltb_ge|right; by apply Z.ltb_ge]. }
  cbn. split_and!; [done|by apply bq_append_ok|by rewrite bq_peek_append|done].
Qed.

Lemma send_all_open rs c :
  closed_ c = false -> bq_ok (output_buffer_ c) -> room c (zlen (mjoin rs)) ->
  let c' := foldl (fun c r => send_response r c) c rs in
  closed_ c' = false /\ bq_ok (output_buffer_ c') /\ out c' = out c ++ mjoin rs /\ same_input c c'.
Proof.
  revert c. induction rs as [|r rs IH]; intros c Hc Ho Hr; cbv zeta; cbn [foldl].
  { by rewrite app_nil_r. }
  csimpl in Hr. rewrite zlen_app in Hr. pose proof (zlen_nonneg (mjoin rs)).
  destruct (send_response_open r c) as (Hc1 & Ho1 & Hout & Hs); [done..| |].
  { destruct Hr; [by left|right; lia]. }
  destruct (IH (send_response r c)) as (Hc2 & Ho2 & Hout2 & Hs2); [done..| |].
  { unfold room. rewrite Hout, zlen_app. destruct Hs as (_ & _ & _ & ->). destruct Hr; [by left|right; lia]. }
  split_and!; [done..| |].
  - rewrite Hout2, Hout. csimpl. by rewrite app_assoc.
  - unfold same_input in *. destruct Hs as (? & ? & ? & ?), Hs2 as (? & ? & ? & ?). split_and!; congruence.
Qed.

Lemma dispatch_open cmds c w :
  closed_ c = false -> bq_ok (output_buffer_ c) -> room c (zlen (serve cmds w).1) ->
  exists c', dispatch cb (command_value <$> cmds) c w = (c', (serve cmds w).2) /\
    closed_ c' = false /\ bq_ok (output_buffer_ c') /\ out c' = out c ++ (serve cmds w).1 /\ same_input c c'.
Proof.
  revert c w. induction cmds as [|a cmds IH]; intros c w Hc Ho Hr.
  { exists c. cbn. by rewrite app_nil_r. }
  csimpl. rewrite Hc. cbn [serve] in Hr |- *. destruct (cb (command_value a) w) as [rs w1].
  destruct (serve cmds w1) as [o w2] eqn:Hs. cbn [fst snd] in *. rewrite zlen_app in Hr.
  pose proof (zlen_nonneg o).
  destruct (send_all_open rs c) as (Hc1 & Ho1 & Hout & Hsame); [done..| |].
  { destruct Hr; [by left|right; lia]. }
  set (c1 := foldl _ c rs) in *.
  destruct (IH c1 w1) as (c2 & -> & Hc2 & Ho2 & Hout2 & Hs2); [done..| |].
  { rewrite Hs. cbn [fst]. unfold room. rewrite Hout, zlen_app. destruct Hsame as (_ & _ & _ & ->).
    destruct Hr; [by left|right; lia]. }
  rewrite Hs in Hout2 |- *. cbn [fst snd] in *. exists c2. split_and!; [done..| |].
  - by rewrite Hout2, Hout, app_assoc.
  - unfold same_input in *. destruct Hsame as (? & ? & ? & ?), Hs2 as (? & ? & ? & ?). split_and!; congruence.
Qed.

(** The part of a stream that is in the buffer is no protocol error. *)
Lemma stream_no_error cmds t p :
  Forall command_ok cmds -> unfinished t -> protocol_error_ p = [] ->
  has_protocol_error p (stream cmds ++ t) = (false, p).
Proof.
  intros Hc (args & m & Hok & _ & ->) Hp. destruct Hc as [|a cmds Ha _].
  - rewrite <-(app_nil_r (encode_array args)) at 1. by apply valid_no_protocol_error_aux.
  - rewrite stream_cons, <-app_assoc.
    rewrite <-(take_ge (encode_array a ++ stream cmds ++ take m (encode_array args)) _ (le_n _)).
    by apply valid_no_protocol_error_aux.
Qed.

Lemma handle_read_open data cmds t t1 c w :
  open_with t c -> zlen data <= 4095 -> fits (input_buffer_limit_bytes_ c) t ->
  Forall command_ok cmds -> unfinished t1 -> t ++ data = stream cmds ++ t1 ->
  room c (zlen (serve cmds w).1) ->
  exists c', handle_read cb (Received data) c w = Some (c', (serve cmds w).2) /\
    open_with t1 c' /\ out c' = out c ++ (serve cmds w).1 /\
    input_buffer_limit_bytes_ c' = input_buffer_limit_bytes_ c /\
    output_buffer_limit_bytes_ c' = output_buffer_limit_bytes_ c.
Proof.
  intros [Hc Hi Ho Ht Hp] Hd Hfit Hcmds Ht1 Heq Hr. unfold handle_read. rewrite Hc.
  set (c1 := with_input _ _ c).
  assert (bq_peek (input_buffer_ c1) = stream cmds ++ t1) as Hpk
    by (cbn; rewrite bq_peek_append, Ht by done; done).
  assert (over (input_buffer_limit_bytes_ c1) (input_buffer_ c1) = false) as ->.
  { unfold over. rewrite Hpk, <-Heq, zlen_app. change (input_buffer_limit_bytes_ c1) with (input_buffer_limit_bytes_ c).
    apply andb_false_iff. destruct Hfit; [left; apply Z.ltb_ge; lia|right; apply Z.ltb_ge; lia]. }
  change (resp_parser_ c1) with (resp_parser_ c). rewrite Hpk, Hp, stream_no_error by done.
  destruct (parse_stream_reads cmds t1 (mkPst new_parser (input_buffer_ c1)))
    as (st & Hparse & Hps & Hst & Hpt); [done|by apply unfinished_incomplete|by apply bq_append_ok|done..|].
  change (input_buffer_ (with_input (input_buffer_ c1) new_parser c1)) with (input_buffer_ c1).
  rewrite Hparse, Hps. cbn [ps_parser error_msg_ new_parser].
  set (c2 := with_input (ps_buf st) _ _).
  destruct (dispatch_open cmds c2 w) as (c3 & -> & Hc3 & Ho3 & Hout & Hi3 & Hp3 & Hl1 & Hl2); [done..|].
  exists c3. split; [done|]. split; [|done]. constructor; [done| |done| |].
  - by rewrite Hi3.
  - by rewrite Hi3.
  - by rewrite Hp3.
Qed.

Lemma handle_write_open r t c :
  open_with t c -> r <> WriteFailed ->
  let '(o, c') := handle_write r c in
  open_with t c' /\ out c = o ++ out c' /\
  input_buffer_limit_bytes_ c' = input_buffer_limit_bytes_ c /\
  output_buffer_limit_bytes_ c' = output_buffer_limit_bytes_ c.
Proof.
  intros [Hc Hi Ho Ht Hp] Hr. unfold handle_write. rewrite Hc.
  destruct (out c) as [|x d] eqn:Hd; [split_and!; [by constructor|cbn; by rewrite Hd|done..]|].
  destruct r as [n| | |]; try done; try (split_and!; [by constructor|by rewrite Hd|done..]).
  split; [constructor; try done; by apply bq_retrieve_ok|]. cbn [with_output output_buffer_].
  rewrite bq_peek_retrieve, Hd by done. split; [|done]. by rewrite take_drop.
Qed.

Definition before (t : bytes) (cmds : list (list bytes)) : Prop :=
  match cmds with [] => True | a :: _ => (length t < length (encode_array a))%nat end.

Lemma fits_prefix limit x y : x `prefix_of` y -> fits limit y -> fits limit x.
Proof.
  intros [k ->] [Hl|Hl]; [by left|right]. rewrite zlen_app in Hl. pose proof (zlen_nonneg k). lia.
Qed.

Lemma run_io_serve limit evs cmds t t' c w :
  input_buffer_limit_bytes_ c = limit -> open_with t c -> Forall io_ok evs ->
  Forall command_ok cmds -> unfinished t' ->
  Forall (fun args => fits limit (encode_array args)) cmds -> fits limit t' -> fits limit t ->
  before t cmds -> t ++ mjoin (omap read_of evs) = stream cmds ++ t' ->
  room c (zlen (serve cmds w).1) ->
  exists sent c', run_io evs c w = Some (sent, c', (serve cmds w).2) /\ open_with t' c' /\
    sent ++ out c' = out c ++ (serve cmds w).1.
Proof.
  intros Hlim Hopen Hevs. revert cmds t c w Hlim Hopen.
  induction Hevs as [|e evs He _ IH]; intros cmds t c w Hlim Hopen Hc Ht' Hf Hft' Hft Hb Heq Hr.
  - csimpl in Heq. rewrite app_nil_r in Heq. destruct cmds as [|a cmds].
    + exists [], c. cbn in *. subst t. by rewrite app_nil_r.
    + cbn in Hb. rewrite Heq, stream_cons, !length_app in Hb. lia.
  - destruct e as [data|r]; csimpl in Heq; cbn [run_io].
    + rewrite app_assoc in Heq.
      destruct (stream_split cmds t' (t ++ data) (mjoin (omap read_of evs)))
        as (c1 & c2 & t1 & -> & Hx & Ht1 & Hy & Hm); [done..|].
      apply Forall_app in Hc as [Hc1 Hc2]. apply Forall_app in Hf as [_ Hf2].
      rewrite serve_app in Hr |- *. cbn [fst snd] in Hr |- *. rewrite zlen_app in Hr.
      pose proof (zlen_nonneg (serve c2 (serve c1 w).2).1).
      destruct (handle_read_open data c1 t t1 c w) as (c' & -> & Hop & Hout & Hl1 & Hl2);
        [done|done|by rewrite Hlim|done..| |].
      { destruct Hr; [by left|right; lia]. }
      destruct (IH c2 t1 c' (serve c1 w).2) as (sent & c3 & -> & Hop3 & Hs); [congruence|done..| | |done| |].
      * destruct c2 as [|a c2].
        { eapply fits_prefix; [|exact Hft']. exists (mjoin (omap read_of evs)). by rewrite Hy. }
        { apply Forall_cons in Hf2 as [Ha _]. eapply fits_prefix; [|exact Ha]. apply Hm. }
      * destruct c2; [done|]. apply Hm.
      * unfold room. rewrite Hl2, Hout, zlen_app. destruct Hr; [by left|right; lia].
      * exists sent, c3. split_and!; [done..|]. by rewrite Hs, Hout, app_assoc.
    + pose proof (handle_write_open r t c Hopen He) as Hw. destruct (handle_write r c) as [o c1].
      destruct Hw as (Hop & Hout & Hl1 & Hl2).
      destruct (IH cmds t c1 w) as (sent & c3 & -> & Hop3 & Hs); [congruence|done..| |].
      * unfold room in *. rewrite Hl2. rewrite Hout, zlen_app in Hr. pose proof (zlen_nonneg o).
        destruct Hr; [by left|right; lia].
      * exists (o ++ sent), c3. split_and!; [done..|]. by rewrite <-app_assoc, Hs, Hout, app_assoc.
Qed.
End serving.
(** ** Commands that only read *)

(** The commands of the model. *)
Definition in_model (c : Command) : bool :=
  match c with
  | CSave | CBgsave | CLastsave | CInfo | CCluster | CPsync | CSync | CReplconf => false
  | _ => true
  end.

Definition reader (c : Command) : bool :=
  match c with
  | CGet | CExists | CPing | CTtl | CPttl | CLlen | CLrange | CHget | CHlen | CHgetall | CScard
  | CSismember | CSmembers | CZscore | CZcard | CZrange | CDbsize | CDebug => true
  | c => negb (in_model c)
  end.

Lemma to_lower_idem s : to_lower (to_lower s) = to_lower s.
Proof.
  unfold to_lower. rewrite <-list_fmap_compose. apply list_fmap_ext. intros _ c _.
  by destruct c as [[] [] [] [] [] [] [] []].
Qed.

Lemma not_write_reads name c :
  create (to_lower name) = Some c -> is_write_command (to_lower name) = false -> reader c = true.
Proof.
  assert (forall n c, find_command n = Some c -> is_write_command n = false -> reader c = true) as Hall.
  { intros n c'. unfold find_command. intros Hf%elem_of_list_to_map_2 Hw.
    assert (Forall (fun kv => is_write_command kv.1 = true \/ reader kv.2 = true) commands_) as Ht
      by (apply (bool_decide_unpack _); by vm_compute).
    rewrite Forall_forall in Ht. destruct (Ht _ Hf) as [E|E]; [cbn in E; congruence|done]. }
  unfold create. destruct (find_command (to_lower name)) as [c'|] eqn:Hf.
  - intros [= <-]. by apply Hall.
  - intros Hc Hw. rewrite <-(to_lower_idem name) in Hw. by apply (Hall _ _ Hc).
Qed.

Section readers.
Context `{StringHash} `{StoreOrder} `{HashOrder} `{DoubleText} `{DoubleLib}.
Context (now : Z) (draw : nat -> nat) (pick : nat) (Hnow : 0 <= now < int64_max).

(** The store is as before, or after one lookup. *)
Definition looks {A} (m : cmd A) : Prop :=
  forall s, (m s).2 = s \/ exists k, (m s).2 = (get now k s).2.

Lemma looks_ret {A} (a : A) : looks (mret a).
Proof. intros s. by left. Qed.

Lemma looks_get {A} k (g : option CacheObject -> cmd A) :
  (forall o s, (g o s).2 = s) -> looks (store_get now k ≫= g).
Proof.
  intros Hg s. right. exists k. unfold mbind, cmd_bind, store_get.
  destruct (get now k s) as [o s']. apply Hg.
Qed.

Lemma looks_fmap {A B} (f : A -> B) (m : cmd A) : looks m -> looks (f <$> m).
Proof. intros Hm s. unfold fmap, cmd_fmap. specialize (Hm s). by destruct (m s). Qed.

Lemma looks_typed k want absent reply : looks (read_typed now k want absent reply).
Proof. by apply looks_get. Qed.

Lemma reader_looks c args m : reader c = true -> execute now draw pick c args = Some m -> looks m.
Proof.
  destruct c; try done; intros _; cbn [execute]; intros [= <-]; apply looks_fmap;
    unfold get_cmd, exists_cmd, ping, ttl_cmd, pttl_cmd, llen_cmd, lrange_cmd, hget_cmd, hlen_cmd,
      hgetall_cmd, scard_cmd, sismember_cmd, smembers_cmd, zscore_cmd, zcard_cmd, zrange_cmd, debug_cmd;
    repeat first [apply looks_ret | apply looks_typed | apply looks_get; intros; by repeat case_match
      | case_match]; by (intros s; left).
Qed.

Lemma looks_live {A} (m : cmd A) s k : looks m -> store_ok s -> live now (m s).2 k = live now s k.
Proof.
  intros Hm [Hwf _]. destruct (Hm s) as [->|[k' ->]]; [done|]. by apply get_live.
Qed.
End readers.

(** ** The server *)

(** The command of the arguments is in the model, or there is none. *)
Definition plain (args : list bytes) : Prop :=
  forall name c, head args = Some name -> create (to_lower name) = Some c -> in_model c = true.

Lemma args_of_command args : as_string <$> as_array (command_value args) = args.
Proof.
  unfold command_value, as_array. cbn [value_data]. rewrite <-list_fmap_compose.
  etrans; [|apply list_fmap_id]. by apply list_fmap_ext.
Qed.

Section server.
Context `{StringHash} `{DoubleText} `{DoubleLib} (env : nat -> Env).
Context (other : Command -> list bytes -> Storage -> option bytes * Storage).
Context (T : Z) (Htime : forall n, 0 <= e_now (env n) <= T) (HT : T < int64_max).

Abbreviation cb := (command_callback env other).

Lemma in_model_execute c e args :
  in_model c = true -> exists m, execute (H0 := e_store_order e) (H1 := e_hash_order e)
    (e_now e) (e_draw e) (e_pick e) c args = Some m.
Proof. destruct c; try done; intros _; by eexists. Qed.

(** One command: the world after it. *)
Lemma callback_world args w :
  plain args -> store_ok (store w) ->
  let w' := (cb (command_value args) w).2 in
  store_ok (store w') /\ cluster w' = cluster w /\
  (enabled_ (cluster w) && isReplica (cluster w) = true ->
     replicated w' = replicated w /\ forall k, live T (store w') k = live T (store w) k).
Proof using Htime HT.
  intros Hp Hs. unfold command_callback. rewrite args_of_command.
  destruct args as [|name args]; [done|]. cbv zeta.
  assert (forall P Q : Prop, P -> Q -> store_ok (store w) /\ P /\ (true = true -> Q)) as Hsame by auto.
  set (wr := is_write_command (to_lower name)).
  destruct (enabled_ (cluster w) && isReplica (cluster w)) eqn:Hrep; cbn [andb].
  - destruct wr eqn:Hw; [done|]. destruct (redirect _ _ _); [|done].
    destruct (create (to_lower name)) as [c|] eqn:Hc; [|apply Hsame; [reflexivity|split; reflexivity]].
    pose proof (not_write_reads _ _ Hc Hw) as Hr. specialize (Hp name c eq_refl Hc).
    destruct (in_model_execute c (env (served w)) (name :: args) Hp) as [m Hm].
    unfold guarded_execute, run_command. rewrite Hm.
    assert (0 <= e_now (env (served w)) < int64_max) as Hnow by (specialize (Htime (served w)); lia).
    pose proof (execute_answers _ _ _ Hnow _ _ _ Hm _ Hs) as [Hs' _].
    pose proof (fun k => looks_live _ m (store w) k (reader_looks _ _ _ _ _ _ Hr Hm) Hs) as Hl.
    destruct (m (store w)) as [r s']. cbn [fst snd store cluster replicated] in *.
    split_and!; [done..|]. intros _. split; [by rewrite app_nil_r|]. intros k.
    rewrite !(RdbSpec.live_later T (e_now (env (served w)))) by apply Htime. by rewrite Hl.
  - destruct (redirect _ _ _); [|done].
    destruct (create (to_lower name)) as [c|] eqn:Hc;
      [|split; [exact Hs|]; split; [reflexivity|discriminate]].
    specialize (Hp name c eq_refl Hc).
    destruct (in_model_execute c (env (served w)) (name :: args) Hp) as [m Hm].
    unfold guarded_execute, run_command. rewrite Hm.
    assert (0 <= e_now (env (served w)) < int64_max) as Hnow by (specialize (Htime (served w)); lia).
    pose proof (execute_answers _ _ _ Hnow _ _ _ Hm _ Hs) as [Hs' _].
    destruct (m (store w)) as [r s']. split; [exact Hs'|]. split; [reflexivity|discriminate].
Qed.

Lemma serve_world cmds w :
  Forall plain cmds -> store_ok (store w) ->
  let w' := (serve cb cmds w).2 in
  store_ok (store w') /\ cluster w' = cluster w /\
  (enabled_ (cluster w) && isReplica (cluster w) = true ->
     replicated w' = replicated w /\ forall k, live T (store w') k = live T (store w) k).
Proof using Htime HT.
  intros Hc. revert w. induction Hc as [|a cmds Ha _ IH]; intros w Hs; cbn [serve]; [done|].
  destruct (callback_world a w Ha Hs) as (Hs1 & Hcl & Hr1).
  destruct (cb (command_value a) w) as [rs w1]. cbn [snd] in *.
  destruct (IH w1 Hs1) as (Hs2 & Hcl2 & Hr2). destruct (serve cb cmds w1) as [o w2]. cbn [snd] in *.
  split_and!; [done|congruence|]. intros Hrep. destruct (Hr1 Hrep) as [Hq1 Hl1].
  rewrite Hcl in Hr2. destruct (Hr2 Hrep) as [Hq2 Hl2]. split; [congruence|]. intros k. by rewrite Hl2.
Qed.
End server.

(** ** Properties *)

(** C1: the server answers as if the commands of a client were executed one after
    the other. However the bytes of the commands are cut into reads and
    whatever part of the replies the socket takes at a time, what was sent and
    what waits in the output buffer are together exactly the replies of the
    commands in order, the store and the rest of the world are those of the
    execution in sequence, and the connection is open and holds the part of the
    command that is not complete; provided the commands fit the input limit and
    the replies that wait fit the output limit. The store stays well-formed. *)
Theorem serve_stream `{StringHash} `{DoubleText} `{DoubleLib} {B} `{!ByteQueue B}
    env other T (empty : B) query_limit output_limit evs cmds t w :
  bq_ok empty -> bq_peek empty = [] ->
  let c := new_connection empty query_limit output_limit in
  let limit := input_buffer_limit_bytes_ c in
  let '(replies, w') := serve (command_callback env other) cmds w in
  (forall n, 0 <= e_now (env n) <= T) -> T < int64_max -> Forall plain cmds -> store_ok (store w) ->
  Forall io_ok evs -> Forall command_ok cmds -> unfinished t ->
  Forall (fun args => fits limit (encode_array args)) cmds -> fits limit t ->
  (output_buffer_limit_bytes_ c <= 0 \/ zlen replies <= output_buffer_limit_bytes_ c) ->
  mjoin (omap read_of evs) = stream cmds ++ t ->
  exists sent c', run_io (command_callback env other) evs c w = Some (sent, c', w') /\
    sent ++ bq_peek (output_buffer_ c') = replies /\
    closed_ c' = false /\ bq_peek (input_buffer_ c') = t /\ store_ok (store w').
Proof.
  intros Hok He c limit. destruct (serve _ cmds w) as [replies w'] eqn:Hserve.
  intros Htime HT Hp Hs Hevs Hc Ht Hf Hft Hout Heq.
  pose proof (serve_world env other T Htime HT cmds w Hp Hs) as (Hs' & _). rewrite Hserve in Hs'.
  destruct (run_io_serve (command_callback env other) limit evs cmds [] t c w)
    as (sent & c' & Hrun & Hop & Hsent); [done|by constructor|done..| | |done| |].
  - unfold fits. destruct (decide (limit <= 0)); [by left|right].
    unfold limit, c, new_connection, normalize_buffer_limit, kMinBufferLimit in *.
    cbn [input_buffer_limit_bytes_] in *. unfold zlen. cbn [length]. case_ifs; blia.
  - destruct Hc as [|a cmds Ha _]; [done|]. cbn. rewrite encode_array_length. lia.
  - rewrite Hserve. unfold room. cbn [fst]. unfold c at 2. cbn [new_connection output_buffer_].
    rewrite He. unfold zlen at 1. cbn [length]. by rewrite Z.add_0_l.
  - rewrite Hserve in Hrun, Hsent. cbn [fst snd] in *. exists sent, c'. split; [done|].
    split; [|split_and!; [apply Hop..|done]]. rewrite Hsent. unfold c. cbn [new_connection output_buffer_].
    by rewrite He.
Qed.

(** A replica is read-only for its clients: whatever commands of the model
    they send, what is visible in the store stays as it is, and nothing is
    passed on to replication. *)
Theorem replica_readonly `{StringHash} `{DoubleText} `{DoubleLib} env other T cmds w :
  (forall n, 0 <= e_now (env n) <= T) -> T < int64_max -> Forall plain cmds -> store_ok (store w) ->
  enabled_ (cluster w) && isReplica (cluster w) = true ->
  let w' := (serve (command_callback env other) cmds w).2 in
  replicated w' = replicated w /\ forall k, live T (store w') k = live T (store w) k.
Proof.
  intros Htime HT Hp Hs Hrep. by apply (serve_world env other T Htime HT cmds w Hp Hs).
Qed.

(** ** A connection that cannot go on *)

Section wedged.
Context {B : Type} `{!ByteQueue B} {W : Type} (cb : RespValue -> W -> list bytes * W).
Implicit Types c : Connection B.

(** The buffer starts with a line that is no integer. *)
Definition bad_integer (line d : bytes) : Prop :=
  exists k, d = ":"%char :: drop 1 d /\ (4 <= length d)%nat /\ first_line d = Some (line, k) /\
    Text.stoll line = None.

Lemma bad_integer_app line d r : bad_integer line d -> bad_integer line (d ++ r).
Proof.
  intros (k & Hd & Hl & Hf & Hs). exists k. split_and!; [|rewrite length_app; lia|by apply first_line_app|done].
  rewrite Hd. done.
Qed.

Definition integer_error (line : bytes) : bytes := encode_error (lit "Invalid integer: " ++ line).

Lemma handle_read_bad line d data c w :
  open_with d c -> bad_integer line (d ++ data) ->
  over (input_buffer_limit_bytes_ c) (bq_append data (input_buffer_ c)) = false ->
  room c (zlen (integer_error line)) ->
  exists c', handle_read cb (Received data) c w = Some (c', w) /\ open_with (d ++ data) c' /\
    bq_peek (output_buffer_ c') = bq_peek (output_buffer_ c) ++ integer_error line /\
    input_buffer_limit_bytes_ c' = input_buffer_limit_bytes_ c /\
    output_buffer_limit_bytes_ c' = output_buffer_limit_bytes_ c.
Proof.
  intros [Hc Hi Ho Ht Hp] (k & Hd & Hl & Hf & Hs) Hov Hr. unfold handle_read. rewrite Hc.
  set (c1 := with_input _ _ c).
  assert (bq_peek (input_buffer_ c1) = d ++ data) as Hpk
    by (cbn; rewrite bq_peek_append, Ht by done; done).
  change (over _ (input_buffer_ c1)) with
    (over (input_buffer_limit_bytes_ c) (bq_append data (input_buffer_ c))). rewrite Hov.
  assert (has_protocol_error (resp_parser_ c1) (bq_peek (input_buffer_ c1)) = (false, new_parser)) as ->.
  { change (resp_parser_ c1) with (resp_parser_ c). rewrite Hp, Hpk. unfold has_protocol_error.
    cbn [new_parser protocol_error_]. rewrite bool_decide_eq_true_2 by done. cbn [negb].
    destruct (d ++ data) as [|x r]; [done|]. injection Hd as ->.
    rewrite Hf, (proj2 (Nat.ltb_ge _ _)) by lia. done. }
  change (input_buffer_ (with_input (input_buffer_ c1) new_parser c1)) with (input_buffer_ c1).
  set (st := mkPst new_parser (input_buffer_ c1)).
  assert (parse st = Done (Some []) (set_error (lit "Invalid integer: " ++ line) st)) as ->.
  { unfold parse. cbn [parse_loop]. change (peeked st) with (bq_peek (input_buffer_ c1)). rewrite Hpk.
    assert (has_complete_command (d ++ data) = true) as ->.
    { unfold has_complete_command. rewrite (proj2 (Nat.ltb_ge _ _)) by lia. rewrite Hf.
      destruct (d ++ data) as [|x r]; [done|]. by injection Hd as ->. }
    assert (parse_one parse_fuel st = Done None (set_error (lit "Invalid integer: " ++ line) st)) as ->; [|done].
    change parse_fuel with (S 33). cbn [parse_one]. change (peeked st) with (bq_peek (input_buffer_ c1)).
    unfold parse_integer. change (peeked st) with (bq_peek (input_buffer_ c1)). rewrite Hpk, Hf, Hs.
    destruct (d ++ data) as [|x r]; [done|]. by injection Hd as ->. }
  cbn [set_error ps_parser error_msg_ ps_buf].
  destruct (lit "Invalid integer: " ++ line) as [|x e] eqn:Hmsg; [done|]. rewrite <-Hmsg. fold (integer_error line).
  set (c2 := with_input (ps_buf st) _ _).
  destruct (send_response_open (integer_error line) c2) as (Hc3 & Ho3 & Hout & Hi3 & Hp3 & Hl1 & Hl2); [done..|].
  cbn [dispatch]. eexists. split; [done|]. split; [constructor; cbn|].
  - done.
  - rewrite Hi3. by apply bq_append_ok.
  - done.
  - rewrite Hi3. exact Hpk.
  - by rewrite Hp3.
  - split; [exact Hout|]. cbn. by rewrite Hl1, Hl2.
Qed.
End wedged.

(** A line that is no integer stays in the buffer for ever: after it the
    connection executes nothing, and answers every read with the same error,
    until it runs over a limit. *)
Theorem bad_integer_wedges {B} `{!ByteQueue B} {W} cb line d reads (c : Connection B) (w : W) :
  open_with d c -> bad_integer line d -> input_buffer_limit_bytes_ c = 0 ->
  output_buffer_limit_bytes_ c = 0 ->
  exists c', run_io cb (IRead <$> reads) c w = Some ([], c', w) /\ open_with (d ++ mjoin reads) c' /\
    bq_peek (output_buffer_ c') =
      bq_peek (output_buffer_ c) ++ mjoin (replicate (length reads) (integer_error line)).
Proof.
  intros Ho Hd Hil Hol. revert d c Ho Hd Hil Hol.
  induction reads as [|r reads IH]; intros d c Ho Hd Hil Hol.
  { exists c. csimpl. by rewrite !app_nil_r. }
  destruct (handle_read_bad cb line d r c w) as (c1 & H1 & Ho1 & Hout & Hi1 & Ho2);
    [done|by apply bad_integer_app|unfold over; by rewrite Hil|left; lia|].
  destruct (IH (d ++ r) c1) as (c2 & H2 & Ho3 & Hout2); [done|by apply bad_integer_app|congruence..|].
  exists c2. csimpl. rewrite H1, H2. rewrite Hout2, Hout, <-app_assoc. by rewrite <-app_assoc in Ho3.
Qed.

(** The reply to a protocol error is never sent: it is queued, and the
    connection is closed before anything can be written. *)
Theorem protocol_error_unanswered {B} `{!ByteQueue B} {W} cb data p (c : Connection B) (w : W) :
  closed_ c = false -> bq_ok (input_buffer_ c) ->
  over (input_buffer_limit_bytes_ c) (bq_append data (input_buffer_ c)) = false ->
  has_protocol_error (resp_parser_ c) (bq_peek (input_buffer_ c) ++ data) = (true, p) ->
  exists c', handle_read cb (Received data) c w = Some (c', w) /\ closed_ c' = true /\
    closings c' = S (closings c) /\ forall r, handle_write r c' = ([], c').
Proof.
  intros Hc Hi Hov He. unfold handle_read. rewrite Hc. set (c1 := with_input _ _ c).
  change (over _ (input_buffer_ c1)) with
    (over (input_buffer_limit_bytes_ c) (bq_append data (input_buffer_ c))). rewrite Hov.
  assert (bq_peek (input_buffer_ c1) = bq_peek (input_buffer_ c) ++ data) as -> by by apply bq_peek_append.
  change (resp_parser_ c1) with (resp_parser_ c). rewrite He.
  set (c2 := with_input _ p c1). set (msg := encode_error _).
  assert (forall m, closed_ (close (send_response m c2)) = true /\
    closings (close (send_response m c2)) = S (closings c)) as Hcl.
  { intros m. unfold send_response. destruct m as [|x m]; [unfold close; cbn; by rewrite Hc|].
    change (closed_ c2) with (closed_ c). rewrite Hc. cbv zeta.
    unfold close. repeat (case_match; cbn in *; try done); by rewrite ?Hc in *. }
  destruct (Hcl msg) as [Hd Hn]. eexists. split; [done|]. split_and!; [done..|].
  intros r. unfold handle_write. by rewrite Hd.
Qed.

(** ** Witnesses *)

Definition env0 : Env := mkEnv 5 (fun n => n) 0 sord PayloadSpec.plain_order [].

(** A node without a cluster, and a replica. *)
Definition alone : ClusterServer := mkServer false false None empty_state [].
Definition replica_server : ClusterServer :=
  (setReplicaOf (lit "10.0.0.2:7000") ClusterProps.pair_cluster).2.

Definition world0 (cl : ClusterServer) : World := mkWorld new_storage cl 0 [].

Abbreviation cb0 := (@command_callback shash PayloadSpec.bits_text bits_lib (fun _ => env0)
  (fun _ _ s => (None, s))).

Lemma plain_set_get : Forall plain [[lit "set"; lit "k"; lit "v"]; [lit "get"; lit "k"]].
Proof. repeat constructor; intros name c [= <-]; vm_compute; by intros [= <-]. Qed.

(** SET and GET, received in two pieces, with a write in between. *)
Lemma serve_stream_witness :
  let cmds := [[lit "set"; lit "k"; lit "v"]; [lit "get"; lit "k"]] in
  let bytes0 := stream cmds in
  exists sent c' w', run_io cb0 [IRead (take 40 bytes0); IWrite (Wrote 3); IRead (drop 40 bytes0)]
      (new_connection ([] : bytes) 0 0) (world0 alone) = Some (sent, c', w') /\
    sent ++ bq_peek (output_buffer_ c') = encode_simple_string (lit "OK") ++ encode_bulk_string (lit "v").
Proof.
  intros cmds bytes0.
  pose proof (@serve_stream shash PayloadSpec.bits_text bits_lib bytes bytes_queue (fun _ => env0)
    (fun _ _ s => (None, s)) 5 [] 0 0
    [IRead (take 40 bytes0); IWrite (Wrote 3); IRead (drop 40 bytes0)] cmds [] (world0 alone)
    I eq_refl) as Hw. cbv zeta in Hw.
  assert ((serve cb0 cmds (world0 alone)).1 =
    encode_simple_string (lit "OK") ++ encode_bulk_string (lit "v")) as Hr by by vm_compute.
  destruct (serve cb0 cmds (world0 alone)) as [replies w']. cbn [fst] in Hr. subst replies.
  destruct Hw as (sent & c' & Hrun & Hs & _).
  - intros n. cbn. lia.
  - done.
  - exact plain_set_get.
  - apply new_storage_ok.
  - repeat constructor; vm_compute; congruence.
  - repeat constructor; vm_compute; congruence.
  - apply unfinished_nil.
  - repeat (constructor; [by left|]). constructor.
  - by left.
  - by left.
  - by vm_compute.
  - exists sent, c', w'. split; [exact Hrun|exact Hs].
Defined.

Lemma replica_readonly_witness :
  (serve cb0 [[lit "set"; lit "k"; lit "v"]; [lit "get"; lit "k"]] (world0 replica_server)).1 =
    lit "-ERR READONLY You can't write against a read only replica." ++ crlf ++ encode_nil /\
  replicated (serve cb0 [[lit "set"; lit "k"; lit "v"]; [lit "get"; lit "k"]]
    (world0 replica_server)).2 = [].
Proof.
  split; [by vm_compute|].
  refine (proj1 (@replica_readonly shash PayloadSpec.bits_text bits_lib (fun _ => env0)
    (fun _ _ s => (None, s)) 5 _ (world0 replica_server) _ _ plain_set_get _ _)).
  - intros n. cbn. lia.
  - done.
  - apply new_storage_ok.
  - by vm_compute.
Defined.

Lemma bad_integer_wedges_witness :
  let c := with_input (lit ":x" ++ crlf) new_parser (new_connection ([] : bytes) 0 0) in
  exists c', run_io cb0 (IRead <$> [encode_array [lit "PING"]; encode_array [lit "PING"]]) c
      (world0 alone) = Some ([], c', world0 alone) /\
    bq_peek (output_buffer_ c') = mjoin (replicate 2 (integer_error (lit "x"))).
Proof.
  intros c.
  destruct (bad_integer_wedges cb0 (lit "x") (lit ":x" ++ crlf)
    [encode_array [lit "PING"]; encode_array [lit "PING"]] c (world0 alone)) as (c' & Hrun & _ & Hout).
  - by constructor.
  - exists 2%nat. split_and!; [done|vm_compute; lia|done|done].
  - done.
  - done.
  - by exists c'.
Defined.

Lemma protocol_error_unanswered_witness :
  exists c', handle_read cb0 (Received (lit "*abc" ++ crlf)) (new_connection ([] : bytes) 0 0)
      (world0 alone) = Some (c', world0 alone) /\ forall r, handle_write r c' = ([], c').
Proof.
  destruct (protocol_error_unanswered cb0 (lit "*abc" ++ crlf)
    (mkParser [] (lit "invalid number in protocol header") 0) (new_connection ([] : bytes) 0 0)
    (world0 alone)) as (c' & Hr & _ & _ & Hw); [done..|]. by exists c'.
Defined.
End ConnectionProps.
