(* ===== verification/Replication.v ===== *)
(** * Replication: cluster/replication_mgr.cpp

    The manager keeps the replicas of a node with their state, the buffer of
    recent commands with their offsets, and sends commands over the bus; what
    [send_command_to_node] was asked to send is the list [wire]. A full
    synchronisation and the replication of a command are given in the steps
    between which other threads run, and as wholes. Replicas are looked up by
    name where the code holds a pointer. *)

From S2P Require Import Prelude Base Buffer Resp Object Payload Storage Commands Slots Cluster Connection.
From stdpp Require Import options.

Module Replication.
Import Text Resp Object Payload Storage Commands Server.

Record ReplicationBufferEntry := mkEntryR { re_command : bytes; re_offset : Z }.

Inductive SyncState := sNone | sWaiting | sSendingRdb | sSendingkv | sConnected.

#[global] Instance SyncState_eq_dec : EqDecision SyncState.
Proof. solve_decision. Defined.

Record ReplicaInfo := mkReplica {
  ri_name : bytes;
  ri_ip : bytes;
  ri_port : Z;
  ri_repl_offset : Z;
  ri_last_ack_time : Z;
  ri_sync_state : SyncState;
  ri_pending_commands : list bytes
}.

Record ReplicationMgr := mkRepl {
  rm_master_ip : bytes;
  rm_master_port : Z;
  rm_master_runid : bytes;
  rm_offset : Z;                                 (** [master_repl_offset_] *)
  rm_replicas : gmap bytes ReplicaInfo;          (** [replicas_] *)
  repl_buffer_ : list ReplicationBufferEntry;
  repl_buffer_start_offset_ : Z;
  sync_state_ : SyncState;
  rdb_send_in_progress_ : bool;
  wire : list (bytes * list bytes)
}.

Definition kReplicationBufferSize : Z := 10485760.

Definition new_repl : ReplicationMgr := mkRepl [] 0 [] 0 ∅ [] 0 sNone false [].

(** [init] with the run id it generates. *)
Definition init_repl (runid : bytes) (m : ReplicationMgr) : ReplicationMgr :=
  mkRepl (rm_master_ip m) (rm_master_port m) runid 0 (rm_replicas m) (repl_buffer_ m)
    (repl_buffer_start_offset_ m) (sync_state_ m) (rdb_send_in_progress_ m) (wire m).

Definition with_rm_replicas (r : gmap bytes ReplicaInfo) (m : ReplicationMgr) : ReplicationMgr :=
  mkRepl (rm_master_ip m) (rm_master_port m) (rm_master_runid m) (rm_offset m) r (repl_buffer_ m)
    (repl_buffer_start_offset_ m) (sync_state_ m) (rdb_send_in_progress_ m) (wire m).

Definition with_buffer (off : Z) (b : list ReplicationBufferEntry) (start : Z) (m : ReplicationMgr)
    : ReplicationMgr :=
  mkRepl (rm_master_ip m) (rm_master_port m) (rm_master_runid m) off (rm_replicas m) b start
    (sync_state_ m) (rdb_send_in_progress_ m) (wire m).

Definition with_sending (b : bool) (m : ReplicationMgr) : ReplicationMgr :=
  mkRepl (rm_master_ip m) (rm_master_port m) (rm_master_runid m) (rm_offset m) (rm_replicas m)
    (repl_buffer_ m) (repl_buffer_start_offset_ m) (sync_state_ m) b (wire m).

(** [set_master]. *)
Definition set_master (ip0 : bytes) (port0 : Z) (runid : bytes) (m : ReplicationMgr)
    : ReplicationMgr :=
  mkRepl ip0 port0 runid (rm_offset m) (rm_replicas m) (repl_buffer_ m)
    (repl_buffer_start_offset_ m) sWaiting (rdb_send_in_progress_ m) (wire m).

Definition add_replica (nm ip0 : bytes) (port0 : Z) (m : ReplicationMgr) : ReplicationMgr :=
  with_rm_replicas (<[nm := mkReplica nm ip0 port0 0 0 sWaiting []]> (rm_replicas m)) m.

Definition remove_replica (nm : bytes) (m : ReplicationMgr) : ReplicationMgr :=
  with_rm_replicas (delete nm (rm_replicas m)) m.

Definition get_all_replicas (m : ReplicationMgr) : list bytes := (map_to_list (rm_replicas m)).*1.

(** ** The buffer of recent commands *)

Definition cleanup_replication_buffer (m : ReplicationMgr) : ReplicationMgr :=
  match repl_buffer_ m with
  | [] => m
  | b =>
      let keep_count := (length b / 2)%nat in
      let rest := drop keep_count b in
      with_buffer (rm_offset m) rest (default 0 (re_offset <$> head rest)) m
  end.

Definition total_size (b : list ReplicationBufferEntry) : Z :=
  foldl (fun n e => n + zlen (re_command e)) 0 b.

Definition add_to_replication_buffer (command : bytes) (m : ReplicationMgr) : ReplicationMgr :=
  let entry := mkEntryR command (rm_offset m) in
  let m := with_buffer (re_offset entry + zlen command) (repl_buffer_ m ++ [entry])
             (repl_buffer_start_offset_ m) m in
  if kReplicationBufferSize <? total_size (repl_buffer_ m) then cleanup_replication_buffer m else m.

Definition get_replication_commands (from_offset : Z) (m : ReplicationMgr)
    : list ReplicationBufferEntry :=
  filter (fun e => from_offset <= re_offset e) (repl_buffer_ m).

(** ** Sending *)

(** [conn->send_command_to_node]. *)
Definition send_command (nm : bytes) (args : list bytes) (m : ReplicationMgr) : ReplicationMgr :=
  mkRepl (rm_master_ip m) (rm_master_port m) (rm_master_runid m) (rm_offset m) (rm_replicas m)
    (repl_buffer_ m) (repl_buffer_start_offset_ m) (sync_state_ m) (rdb_send_in_progress_ m)
    (wire m ++ [(nm, args)]).

Definition send_replication_msg (nm cmd_line : bytes) : ReplicationMgr -> ReplicationMgr :=
  send_command nm [cmd_line].

Definition send_replication_args (nm : bytes) (args : list bytes) (m : ReplicationMgr)
    : ReplicationMgr :=
  match args with [] => m | _ => send_command nm [encode_array args] m end.

Definition state_of (nm : bytes) (m : ReplicationMgr) : option SyncState :=
  ri_sync_state <$> rm_replicas m !! nm.

(** The commands of the moment are kept for replicas that get the snapshot. *)
Definition push_backlog (command : bytes) (m : ReplicationMgr) : ReplicationMgr :=
  with_rm_replicas
    ((fun r =>
        if bool_decide (ri_sync_state r = sSendingRdb)
        then mkReplica (ri_name r) (ri_ip r) (ri_port r) (ri_repl_offset r) (ri_last_ack_time r)
               (ri_sync_state r) (ri_pending_commands r ++ [command])
        else r) <$> rm_replicas m) m.

(** The loop over the replicas that were listed before. *)
Definition send_increment (command : bytes) (names : list bytes) (m : ReplicationMgr)
    : ReplicationMgr :=
  foldl (fun m nm =>
    match state_of nm m with
    | Some sSendingkv | Some sConnected => send_replication_msg nm command m
    | _ => m
    end) m names.

Definition replicate_command (command : bytes) (m : ReplicationMgr) : ReplicationMgr :=
  let m := add_to_replication_buffer command m in
  let names := get_all_replicas m in
  send_increment command names (push_backlog command m).

(** ** Full synchronisation *)

Definition set_replica (st : SyncState) (pending : list bytes) (r : ReplicaInfo) : ReplicaInfo :=
  mkReplica (ri_name r) (ri_ip r) (ri_port r) (ri_repl_offset r) (ri_last_ack_time r) st pending.

(** The first steps: claim the flag, find the replica, change its state.
    [false] where the function returns. *)
Definition sync_begin (nm : bytes) (m : ReplicationMgr) : bool * ReplicationMgr :=
  if rdb_send_in_progress_ m then (false, m)
  else
    match rm_replicas m !! nm with
    | None => (false, m)
    | Some r =>
        (true, with_rm_replicas (<[nm := set_replica sSendingRdb (ri_pending_commands r) r]>
                 (rm_replicas m)) (with_sending true m))
    end.

Section sync.
Context `{DoubleText} `{HashOrder} (now : Z).

(** The arguments of RESTORE for a key; [None] for one that has expired. *)
Definition restore_args (kv : KVWithTTL) : option (list bytes) :=
  let args ttl_ms :=
    [lit "RESTORE"; kv_key kv; to_string ttl_ms; serialize (kv_value kv); lit "REPLACE"] in
  if 0 <? kv_expire_time_ms kv then
    let ttl_ms := kv_expire_time_ms kv - now in
    if ttl_ms <=? 0 then None else Some (args ttl_ms)
  else Some (args (-1)).

Definition sync_send (nm : bytes) (kvs : list KVWithTTL) (m : ReplicationMgr) : ReplicationMgr :=
  foldl (fun m kv =>
    match restore_args kv with
    | None => m
    | Some args => send_replication_args nm args m
    end) m kvs.

(** Takes the backlog and switches to increments. *)
Definition sync_switch (nm : bytes) (m : ReplicationMgr) : list bytes * ReplicationMgr :=
  match rm_replicas m !! nm with
  | None => ([], m)
  | Some r =>
      (ri_pending_commands r,
       with_rm_replicas (<[nm := set_replica sConnected [] r]> (rm_replicas m)) m)
  end.

Definition sync_replay (nm : bytes) (backlog : list bytes) (m : ReplicationMgr) : ReplicationMgr :=
  with_sending false (foldl (fun m cmd => send_replication_msg nm cmd m) m backlog).

(** The whole, when no other thread comes in between. *)
Definition send_rdb_to_replica (nm : bytes) (kvs : list KVWithTTL) (m : ReplicationMgr)
    : bool * ReplicationMgr :=
  let '(ok, m) := sync_begin nm m in
  if negb ok then (false, m)
  else
    let '(backlog, m) := sync_switch nm (sync_send nm kvs m) in
    (true, sync_replay nm backlog m).
End sync.

(** ** Execution on a replica *)

(** [while (iss >> token)]. *)
Fixpoint words (cur : bytes) (s : bytes) : list bytes :=
  match s with
  | [] => match cur with [] => [] | _ => [cur] end
  | c :: s =>
      if is_space c then match cur with [] => words [] s | _ => cur :: words [] s end
      else words (cur ++ [c]) s
  end.

(** The arguments of a line of the bus: [inl] the reply to a malformed one;
    [None] is running out of fuel in the parser. *)
Definition line_args (cmd_line : bytes) : option (bytes + list bytes) :=
  match cmd_line with
  | "*"%char :: _ =>
      match parse (mkPst new_parser cmd_line) with
      | Done (Some values) st =>
          match error_msg_ (ps_parser st) with
          | [] =>
              match values with
              | v :: _ =>
                  match value_type v with
                  | ARRAY => Some (inr (as_string <$> as_array v))
                  | _ => Some (inr (words [] cmd_line))
                  end
              | [] => Some (inr (words [] cmd_line))
              end
          | _ => Some (inl (encode_error (lit "ERR malformed command payload")))
          end
      | _ => None
      end
  | _ => Some (inr (words [] cmd_line))
  end.

Section execution.
Context `{StringHash} `{DoubleText} `{DoubleLib}.
Context (execute_other : Command -> list bytes -> Storage -> option bytes * Storage).

(** The reply ([None] for an exception) and the store. *)
Definition execute_bus_command_line (e : Env) (cmd_line : bytes) (s : Storage)
    : option (option bytes * Storage) :=
  match line_args cmd_line with
  | None => None
  | Some (inl err) => Some (Some err, s)
  | Some (inr []) => Some (Some (encode_error (lit "ERR empty command")), s)
  | Some (inr ((name :: _) as args)) =>
      let cmd_name := to_lower name in
      match create cmd_name with
      | None => Some (Some (encode_error (lit "ERR unknown command '" ++ cmd_name ++ lit "'")), s)
      | Some c => Some (run_command execute_other e c args s)
      end
  end.

(** [handle_replication_command] drops the reply. *)
Definition handle_replication_command (e : Env) (cmd_line : bytes) (s : Storage) : option Storage :=
  snd <$> execute_bus_command_line e cmd_line s.
End execution.
End Replication.
