(* ===== verification/ReplicationProps.v ===== *)
(** * Properties of replication: full synchronisation, the order of what a replica
    gets, and the window of recent commands *)

From S2P Require Import Prelude Base Buffer Resp RespSpec Object Payload PayloadSpec Storage StorageSpec StorageProps Commands CommandsSpec CommandsEffect CommandsProps Rdb RdbSpec Slots Cluster Connection ConnectionProps Replication.
From stdpp Require Import options.

Module ReplicationProps.
Import Text Resp RespSpec Object Payload PayloadSpec Storage StorageSpec Commands CommandsSpec CommandsEffect
  CommandsProps Rdb RdbSpec Server ConnectionProps Replication.

(** ** Lines of the bus *)

Lemma line_args_array args : command_ok args -> line_args (encode_array args) = Some (inr args).
Proof.
  intros Ha.
  destruct (parse_stream_reads [args] [] (mkPst new_parser (encode_array args)))
    as (st & Hp & Hps & _ & _); [by apply Forall_singleton|done|done|done|by csimpl; rewrite !app_nil_r|].
  assert (exists r, encode_array args = "*"%char :: r) as [r Hr] by (rewrite encode_array_eq; by eexists).
  unfold line_args. rewrite Hr. rewrite <-Hr, Hp, Hps. cbn [new_parser ps_parser error_msg_].
  csimpl. change (value_type (command_value args)) with ARRAY. by rewrite args_of_command.
Qed.

Section restore.
Context `{StringHash} `{DoubleText} `{DoubleLib} `{HashOrder}.
Context (other : Command -> list bytes -> Storage -> option bytes * Storage) (e : Env) (now : Z).

(** The record as it arrives: its deadline is later by what the transfer took. *)
Definition delayed (kv : KVWithTTL) : KVWithTTL :=
  mkKV (kv_key kv) (kv_value kv)
    (if 0 <? kv_expire_time_ms kv then kv_expire_time_ms kv - now + e_now e else kv_expire_time_ms kv).

Record kv_sendable (kv : KVWithTTL) : Prop := {
  ks_value : obj_ok (kv_value kv);
  ks_fits : payload_fits (kv_value kv);
  ks_command : forall args, restore_args now kv = Some args -> command_ok args;
  ks_deadline : kv_expire_time_ms kv <= int64_max
}.

Lemma restore_line kv args s :
  0 <= now -> 0 <= e_now e -> kv_sendable kv -> restore_args now kv = Some args ->
  execute_bus_command_line other e (encode_array args) s =
    Some (Some (encode_simple_string (lit "OK")),
          load_kv (H0 := e_store_order e) (e_now e) (e_draw e) (delayed kv) s).
Proof.
  intros Hn He [Hv Hf Hc Hd] Ha. unfold execute_bus_command_line. rewrite line_args_array by by apply Hc.
  unfold restore_args in Ha. cbv zeta in Ha.
  assert (forall ttl, in_i64 ttl -> forall s,
    run_command other e CRestore
      [lit "RESTORE"; kv_key kv; to_string ttl; serialize (kv_value kv); lit "REPLACE"] s =
    (Some (encode_simple_string (lit "OK")),
     if 0 <? ttl then set_with_expire (H0 := e_store_order e) (e_now e) (e_draw e) (kv_key kv) (kv_value kv) ttl s
     else set (H0 := e_store_order e) (e_now e) (e_draw e) (kv_key kv) (kv_value kv) s)) as Hrun.
  { intros ttl Httl s0. unfold run_command. cbn [execute]. unfold restore_cmd.
    cbn [length Nat.ltb Nat.leb arg nth]. rewrite stoll_to_string by done.
    rewrite (bool_decide_eq_true_2 (lit "REPLACE" = lit "REPLACE")) by done. cbn [andb].
    rewrite deserialize_serialize by done. by destruct (0 <? ttl). }
  assert (create (to_lower (lit "RESTORE")) = Some CRestore) as Hcr by by vm_compute.
  unfold load_kv, delayed. cbn [kv_key kv_value kv_expire_time_ms].
  destruct (Z.ltb_spec 0 (kv_expire_time_ms kv)) as [Hpos|Hneg].
  - destruct (Z.leb_spec (kv_expire_time_ms kv - now) 0) as [|Httl]; [done|]. injection Ha as <-.
    rewrite Hcr, Hrun by (unfold in_i64, int64_min in *; lia).
    rewrite !(proj2 (Z.ltb_lt _ _)) by lia.
    by replace (kv_expire_time_ms kv - now + e_now e - e_now e) with (kv_expire_time_ms kv - now) by lia.
  - injection Ha as <-. rewrite Hcr, Hrun by (by vm_compute).
    by rewrite (proj2 (Z.ltb_ge 0 (kv_expire_time_ms kv))).
Qed.

(** The replica executes the lines one after the other. *)
Definition apply_line (s : option Storage) (line : bytes) : option Storage :=
  s ≫= handle_replication_command other e line.

Definition restore_lines (kvs : list KVWithTTL) : list bytes :=
  encode_array <$> omap (restore_args now) kvs.

Lemma apply_restores kvs s :
  0 <= now -> 0 <= e_now e -> Forall kv_sendable kvs ->
  foldl apply_line (Some s) (restore_lines kvs) =
    Some (foldl (fun s kv => load_kv (H0 := e_store_order e) (e_now e) (e_draw e) (delayed kv) s) s
            (filter (fun kv => is_Some (restore_args now kv)) kvs)).
Proof.
  intros Hn He Hk. revert s. induction Hk as [|kv kvs Hkv _ IH]; intros s; [done|].
  unfold restore_lines. csimpl. rewrite filter_cons. destruct (restore_args now kv) as [args|] eqn:Ha.
  - rewrite decide_True by done. csimpl.
    unfold handle_replication_command. rewrite (restore_line kv args s) by done. apply IH.
  - rewrite decide_False by (intros [? ?]; done). apply IH.
Qed.
End restore.

(** ** What the replica holds after a full synchronisation *)

(** A cell whose deadline is later by [d]. *)
Definition shift_cell (d : Z) (c : cell) : cell :=
  match c with Some (o, Some t) => Some (o, Some (t + d)) | c => c end.

Section transfer.
Context `{StringHash} `{StoreOrder} (e : Env) (now : Z) (s : Storage).
Context (Hwf : storage_wf s) (Hnow : 0 <= now) (He : 0 <= e_now e < int64_max).

Lemma snapshot_deadline kv :
  kv ∈ get_all_objects_with_ttl now s ->
  kv_expire_time_ms kv = -1 \/ now < kv_expire_time_ms kv.
Proof using Hwf.
  intros (dl & Hl & Hx)%StorageProps.snapshot_elem; [|done]. rewrite Hx.
  destruct dl as [t|]; [right|by left]. unfold live in Hl. destruct (entry s (kv_key kv)); [|done].
  rewrite is_expired_deadline in Hl. destruct (deadline s (kv_key kv)) as [u|]; [|done].
  destruct (Z.leb_spec u now); [done|]. by simplify_eq.
Qed.

Lemma delayed_key (kvs : list KVWithTTL) : (kv_key <$> (delayed e now <$> kvs)) = kv_key <$> kvs.
Proof. rewrite <-list_fmap_compose. by apply list_fmap_ext. Qed.

Lemma transferred k :
  foldl (loaded (e_now e)) (fun _ => None) (delayed e now <$> get_all_objects_with_ttl now s) k =
    shift_cell (e_now e - now) (live now s k).
Proof using Hwf Hnow He.
  set (kvs := get_all_objects_with_ttl now s).
  destruct (live now s k) as [[o dl]|] eqn:Hl.
  - set (kv := mkKV k o (default (-1) dl)).
    assert (kv ∈ kvs) as Hin by (apply StorageProps.snapshot_elem; [done|]; by exists dl).
    change k with (kv_key (delayed e now kv)). rewrite (loaded_present _ _ _ (delayed e now kv)).
    + unfold loaded_cell, delayed, kv. cbn [kv_expire_time_ms kv_value kv_key].
      destruct dl as [t|]; [|done]. cbn [default from_option id].
      destruct (snapshot_deadline kv Hin) as [Hk|Hk]; unfold kv in Hk; cbn in Hk.
      * unfold live in Hl. destruct (entry s k); [|done].
        destruct (is_expired now k s); [done|]. injection Hl as _ Hdl.
        pose proof (swf_deadline s Hwf _ _ Hdl). lia.
      * rewrite (proj2 (Z.ltb_lt 0 t)) by lia.
        rewrite (proj2 (Z.ltb_lt 0 (t - now + e_now e))), (proj2 (Z.ltb_lt (e_now e) (t - now + e_now e))) by lia.
        cbn [shift_cell]. do 3 f_equal. lia.
    + rewrite delayed_key. by apply StorageProps.snapshot_nodup.
    + by apply list_elem_of_fmap_2.
  - apply loaded_absent. rewrite delayed_key. intros (kv & -> & Hin)%list_elem_of_fmap.
    apply StorageProps.snapshot_elem in Hin as (dl & Hc & _); [congruence|done].
Qed.
End transfer.

(** ** What a synchronisation puts on the wire *)

Definition to_replica (nm : bytes) (line : bytes) : bytes * list bytes := (nm, [line]).

Section messages.
Context `{DoubleText} `{HashOrder} (now : Z).

Lemma sent_all (kvs : list KVWithTTL) :
  (forall kv, kv ∈ kvs -> kv_expire_time_ms kv = -1 \/ now < kv_expire_time_ms kv) ->
  filter (fun kv => is_Some (restore_args now kv)) kvs = kvs.
Proof.
  induction kvs as [|kv kvs IH]; intros Hk; [done|]. rewrite filter_cons_True.
  - f_equal. apply IH. intros kv' Hin. apply Hk. by right.
  - unfold restore_args. destruct (Hk kv) as [->|Hlt]; [by left|by eexists|]. cbv zeta.
    case_ifs; [lia|by eexists..].
Qed.

Lemma replay_replicas nm backlog m :
  rm_replicas (foldl (fun m cmd => send_replication_msg nm cmd m) m backlog) = rm_replicas m.
Proof. revert m. induction backlog as [|c l IH]; intros m; cbn [foldl]; [done|]. by rewrite IH. Qed.

Lemma wire_replay nm backlog m :
  wire (foldl (fun m cmd => send_replication_msg nm cmd m) m backlog) =
    wire m ++ (to_replica nm <$> backlog).
Proof.
  revert m. induction backlog as [|c backlog IH]; intros m; cbn [foldl]; csimpl; [by rewrite app_nil_r|].
  rewrite IH. cbn. by rewrite <-app_assoc.
Qed.

Lemma wire_sync_send nm kvs m :
  wire (sync_send now nm kvs m) = wire m ++ (to_replica nm <$> restore_lines now kvs) /\
  rm_replicas (sync_send now nm kvs m) = rm_replicas m.
Proof.
  unfold sync_send. revert m. induction kvs as [|kv kvs IH]; intros m; cbn [foldl].
  { split; [|done]. symmetry. apply app_nil_r. }
  destruct (IH (match restore_args now kv with
                | Some args => send_replication_args nm args m | None => m end)) as [-> ->].
  unfold restore_lines. csimpl. unfold restore_args. cbv zeta.
  case_ifs; cbn; by rewrite <-?app_assoc.
Qed.

Lemma wire_sync nm kvs m r :
  rdb_send_in_progress_ m = false -> rm_replicas m !! nm = Some r ->
  exists m', send_rdb_to_replica now nm kvs m = (true, m') /\
    wire m' = wire m ++ (to_replica nm <$> restore_lines now kvs ++ ri_pending_commands r) /\
    state_of nm m' = Some sConnected /\ rdb_send_in_progress_ m' = false.
Proof.
  intros Hp Hr. unfold send_rdb_to_replica, sync_begin. rewrite Hp, Hr. cbn [negb]. cbv beta zeta iota.
  set (m1 := with_rm_replicas _ _).
  destruct (wire_sync_send nm kvs m1) as [Hw Hs]. unfold sync_switch. rewrite Hs.
  assert (rm_replicas m1 !! nm = Some (set_replica sSendingRdb (ri_pending_commands r) r)) as ->
    by apply lookup_insert_eq.
  eexists. split; [reflexivity|]. unfold sync_replay. cbn [with_sending wire rdb_send_in_progress_].
  rewrite wire_replay. cbn [with_rm_replicas wire]. rewrite Hw, fmap_app, app_assoc. split; [done|].
  split; [|done]. unfold state_of. cbn [with_sending rm_replicas].
  rewrite replay_replicas. cbn. by rewrite lookup_insert_eq.
Qed.
End messages.

(** What of a visible key must fit for it to be transferred: its payload, the
    bulk strings of the command, and its deadline on the clock of the replica. *)
Definition transferable `{StringHash} `{HashOrder} `{DoubleText} (e : Env) (now : Z) (s : Storage) : Prop :=
  forall k o dl, live now s k = Some (o, dl) ->
    payload_fits o /\ zlen k <= max_bulk /\ zlen (serialize o) <= max_bulk /\
    forall t, dl = Some t -> t - now + e_now e <= int64_max.

Lemma transferable_kv `{StringHash} `{StoreOrder} `{HashOrder} `{DoubleText} e now s kv :
  store_ok s -> 0 <= now -> 0 <= e_now e -> transferable e now s ->
  kv ∈ get_all_objects_with_ttl now s ->
  kv_sendable now kv /\ kv_expire_time_ms (delayed e now kv) <= int64_max.
Proof.
  intros Hs Hn He Ht Hin. pose proof (snapshot_deadline now s (proj1 Hs) kv Hin) as Hdl.
  apply StorageProps.snapshot_elem in Hin as (dl & Hl & Hx); [|apply Hs].
  destruct (Ht _ _ _ Hl) as (Hf & Hk & Hv & Hd).
  assert (kv_expire_time_ms kv <= int64_max) as Hmax.
  { rewrite Hx. destruct dl as [t|]; [|by vm_compute]. unfold live in Hl.
    destruct (entry s (kv_key kv)); [|done]. destruct (is_expired _ _ _); simplify_eq.
    apply (swf_deadline s (proj1 Hs) (kv_key kv) t). by simplify_eq. }
  split; [split; [|done| |done]|].
  - unfold live in Hl. destruct (entry s (kv_key kv)) as [en|] eqn:Hent; [|done].
    destruct (is_expired _ _ _); [done|]. injection Hl as <- _. exact (proj2 Hs _ _ Hent).
  - intros args Ha. assert (forall ttl, zlen (to_string ttl) <= max_bulk ->
      command_ok [lit "RESTORE"; kv_key kv; to_string ttl; serialize (kv_value kv); lit "REPLACE"]) as Hc.
    { intros ttl Httl. split; [done|]. repeat (apply Forall_cons; split; [done|]). by apply Forall_nil. }
    unfold restore_args in Ha. cbv zeta in Ha. destruct (0 <? _); [|injection Ha as <-; by apply Hc].
    destruct (Z.leb_spec (kv_expire_time_ms kv - now) 0); [done|]. injection Ha as <-. apply Hc.
    assert (length (to_string (kv_expire_time_ms kv - now)) <= 20)%nat
      by (apply to_string_length; unfold uint64_max, int64_max in *; lia).
    unfold zlen, max_bulk. lia.
  - unfold delayed. cbn [kv_expire_time_ms]. case_ifs; [|done]. rewrite Hx in *.
    destruct dl as [t|]; [by apply Hd|]. cbn in *. lia.
Qed.

(** C2: a full synchronisation transfers the store: the lines it puts on the bus,
    executed in order by a replica that starts empty, leave the replica with
    exactly the keys that are visible on the master, with their values, and with
    deadlines that are later by the difference of the two clocks. *)
Theorem full_sync_transfers `{StringHash} `{DoubleText} `{DoubleLib} `{HashOrder} `{StoreOrder}
    other e now s m nm r :
  store_ok s -> 0 <= now -> 0 <= e_now e < int64_max -> transferable e now s ->
  zlen (get_all_objects_with_ttl now s) <= threshold new_storage ->
  rdb_send_in_progress_ m = false -> rm_replicas m !! nm = Some r -> ri_pending_commands r = [] ->
  exists m' lines s', send_rdb_to_replica now nm (get_all_objects_with_ttl now s) m = (true, m') /\
    wire m' = wire m ++ (to_replica nm <$> lines) /\
    foldl (apply_line other e) (Some new_storage) lines = Some s' /\
    forall k, live (e_now e) s' k = shift_cell (e_now e - now) (live now s k).
Proof.
  intros Hs Hn He Ht Hsz Hp Hr Hpend. set (kvs := get_all_objects_with_ttl now s) in *.
  assert (forall kv, kv ∈ kvs -> kv_sendable now kv /\ kv_expire_time_ms (delayed e now kv) <= int64_max) as Hkv.
  { intros kv Hin. apply (transferable_kv e now s); try done. lia. }
  destruct (wire_sync now nm kvs m r Hp Hr) as (m' & Hsync & Hw & _). rewrite Hpend, app_nil_r in Hw.
  eexists m', (restore_lines now kvs), _. split; [done|]. split; [done|]. split.
  { apply apply_restores; [done|lia|]. apply Forall_forall. intros kv Hin. by apply Hkv. }
  intros k. rewrite sent_all by (intros kv; by apply snapshot_deadline, Hs).
  rewrite <-(transferred e now s (proj1 Hs) Hn ltac:(lia) k). fold kvs.
  rewrite <-(load_all_new (H0 := e_store_order e) (e_now e) (e_draw e) ltac:(lia) (delayed e now <$> kvs) k).
  - by rewrite foldl_fmap.
  - unfold zlen in *. by rewrite length_fmap.
  - apply Forall_fmap, Forall_forall. intros kv Hin. by apply Hkv.
Qed.

Definition env9 : Env := mkEnv 9 (fun n => n) 0 sord PayloadSpec.plain_order [].

(** A key with a deadline on a master whose clock reads 5, a replica whose clock reads 9. *)
Lemma full_sync_transfers_witness :
  let s := @set_with_expire_locked shash 5 (lit "k") (object_of_string (lit "v")) 100 new_storage in
  let m := add_replica (lit "r") (lit "10.0.0.2") 7000 new_repl in
  exists m' lines s',
    @send_rdb_to_replica PayloadSpec.bits_text PayloadSpec.plain_order 5 (lit "r")
      (@get_all_objects_with_ttl sord 5 s) m = (true, m') /\
    wire m' = to_replica (lit "r") <$> lines /\
    foldl (@apply_line shash PayloadSpec.bits_text bits_lib (fun _ _ s => (None, s)) env9)
      (Some new_storage) lines = Some s' /\
    @live shash 9 s' (lit "k") = Some (object_of_string (lit "v"), Some 109).
Proof.
  intros s m.
  destruct (@set_with_expire_live shash 5 (lit "k") (object_of_string (lit "v")) 100 new_storage) as [Hwf Hl];
    [apply new_storage_wf|done|].
  destruct (@full_sync_transfers shash PayloadSpec.bits_text bits_lib PayloadSpec.plain_order sord
    (fun _ _ s => (None, s)) env9 5 s m (lit "r") (mkReplica (lit "r") (lit "10.0.0.2") 7000 0 0 sWaiting []))
    as (m' & lines & s' & Hm & Hw & Hr & Hk).
  - apply store_ok_set_with_expire; [done|apply new_storage_ok|apply string_object_ok].
  - done.
  - done.
  - intros k o dl. unfold s. rewrite Hl. unfold upd. case_decide.
    + intros [= <- <-]. subst k. split_and!; [by vm_compute..|]. intros t [= <-]. by vm_compute.
    + by rewrite live_new_storage.
  - by vm_compute.
  - done.
  - done.
  - done.
  - exists m', lines, s'. split_and!; [exact Hm|exact Hw|exact Hr|]. rewrite Hk. unfold s. rewrite Hl. by vm_compute.
Defined.

(** ** The order in which a replica gets commands *)

(** What was sent to a replica so far. *)
Definition messages (nm : bytes) (m : ReplicationMgr) : list (list bytes) :=
  snd <$> filter (fun x => x.1 = nm) (wire m).

Lemma messages_send nm nm' args m :
  messages nm (send_command nm' args m) = messages nm m ++ (if decide (nm' = nm) then [args] else []).
Proof.
  unfold messages. cbn [send_command wire]. rewrite filter_app, fmap_app. f_equal.
  rewrite filter_cons, filter_nil. cbn. by case_decide.
Qed.

Lemma add_to_buffer_frame c m :
  rm_replicas (add_to_replication_buffer c m) = rm_replicas m /\
  wire (add_to_replication_buffer c m) = wire m.
Proof.
  unfold add_to_replication_buffer. cbv zeta. case_ifs; [|done].
  unfold cleanup_replication_buffer. by destruct (repl_buffer_ _).
Qed.

(** Whether a replica gets a command at once. *)
Definition gets_increments (o : option SyncState) : bool :=
  match o with Some sSendingkv | Some sConnected => true | _ => false end.

Lemma increment_frame c names m : rm_replicas (send_increment c names m) = rm_replicas m.
Proof.
  unfold send_increment. revert m. induction names as [|n names IH]; intros m; cbn [foldl]; [done|].
  rewrite IH. by destruct (state_of n m) as [[]|].
Qed.

Lemma messages_increment nm c names m :
  NoDup names ->
  messages nm (send_increment c names m) =
    messages nm m ++ (if bool_decide (nm ∈ names) && gets_increments (state_of nm m) then [[c]] else []).
Proof.
  unfold send_increment. intros Hn. revert m. induction Hn as [|n names Hn _ IH]; intros m; cbn [foldl].
  { by rewrite app_nil_r. }
  rewrite IH. clear IH. match goal with |- messages nm ?x ++ _ = _ => set (m1 := x) end.
  assert (state_of nm m1 = state_of nm m) as -> by (unfold m1; by destruct (state_of n m) as [[]|]).
  assert (messages nm m1 = messages nm m ++
    (if decide (n = nm) then if gets_increments (state_of nm m) then [[c]] else [] else [])) as ->.
  { unfold m1, send_replication_msg. case_decide as E; [subst n|];
      destruct (state_of _ m) as [[]|]; cbn [gets_increments]; rewrite ?messages_send, ?app_nil_r; try done;
      case_decide; try done; by rewrite app_nil_r. }
  rewrite <-app_assoc. f_equal. case_decide as E.
  - subst n. rewrite (bool_decide_eq_false_2 (nm ∈ names)), (bool_decide_eq_true_2 (nm ∈ _ :: _)) by set_solver.
    cbn [andb]. by rewrite app_nil_r.
  - rewrite (bool_decide_ext (nm ∈ n :: names) (nm ∈ names)) by set_solver. done.
Qed.

Lemma all_replicas_spec nm m :
  NoDup (get_all_replicas m) /\ (nm ∈ get_all_replicas m <-> is_Some (rm_replicas m !! nm)).
Proof.
  unfold get_all_replicas. split; [apply NoDup_fst_map_to_list|].
  rewrite list_elem_of_fmap. split.
  - intros ([n r] & -> & Hin%elem_of_map_to_list). by eexists.
  - intros [r Hr]. exists (nm, r). by rewrite elem_of_map_to_list.
Qed.

Lemma push_backlog_lookup c nm m :
  rm_replicas (push_backlog c m) !! nm =
    (fun r => if bool_decide (ri_sync_state r = sSendingRdb)
              then set_replica sSendingRdb (ri_pending_commands r ++ [c]) r else r) <$> rm_replicas m !! nm.
Proof.
  unfold push_backlog. cbn [with_rm_replicas rm_replicas]. rewrite lookup_fmap.
  destruct (rm_replicas m !! nm) as [r|]; [|done]. cbn. f_equal. case_bool_decide as E; [|done].
  unfold set_replica. by rewrite E.
Qed.

(** A command during the transfer of the snapshot waits in the backlog of the replica. *)
Lemma replicate_waits c nm m r :
  rm_replicas m !! nm = Some r -> ri_sync_state r = sSendingRdb ->
  messages nm (replicate_command c m) = messages nm m /\
  rm_replicas (replicate_command c m) !! nm = Some (set_replica sSendingRdb (ri_pending_commands r ++ [c]) r).
Proof.
  intros Hr Hs. destruct (add_to_buffer_frame c m) as [Hf Hw]. unfold replicate_command. cbv zeta.
  rewrite increment_frame, messages_increment by apply (all_replicas_spec nm).
  unfold state_of. rewrite push_backlog_lookup, Hf, Hr. cbn [fmap option_fmap option_map].
  rewrite (bool_decide_eq_true_2 (ri_sync_state r = _)) by done. cbn. rewrite andb_false_r, app_nil_r.
  split; [|done]. unfold messages. cbn. by rewrite Hw.
Qed.

(** A command afterwards is sent at once. *)
Lemma replicate_sends c nm m r :
  rm_replicas m !! nm = Some r -> ri_sync_state r = sConnected ->
  messages nm (replicate_command c m) = messages nm m ++ [[c]] /\
  rm_replicas (replicate_command c m) !! nm = Some r.
Proof.
  intros Hr Hs. destruct (add_to_buffer_frame c m) as [Hf Hw]. unfold replicate_command. cbv zeta.
  rewrite increment_frame, messages_increment by apply (all_replicas_spec nm).
  unfold state_of. rewrite push_backlog_lookup, Hf, Hr. cbn [fmap option_fmap option_map].
  rewrite (bool_decide_eq_false_2 (ri_sync_state r = _)) by congruence.
  rewrite bool_decide_eq_true_2 by (apply all_replicas_spec; by rewrite Hf).
  cbn. rewrite Hs. split; [|done]. unfold messages. cbn. by rewrite Hw.
Qed.

Section order.
Context `{DoubleText} `{HashOrder} (now : Z) (nm : bytes).

(** During the transfer: the loop sends the next key, or another thread
    replicates a command. *)
Definition during (m : ReplicationMgr) (ev : KVWithTTL + bytes) : ReplicationMgr :=
  match ev with inl kv => sync_send now nm [kv] m | inr c => replicate_command c m end.

Definition key_sent (ev : KVWithTTL + bytes) : option KVWithTTL :=
  match ev with inl kv => Some kv | inr _ => None end.
Definition command_of (ev : KVWithTTL + bytes) : option bytes :=
  match ev with inl _ => None | inr c => Some c end.

Lemma messages_wire m m' l :
  wire m' = wire m ++ (to_replica nm <$> l) -> messages nm m' = messages nm m ++ ((fun x => [x]) <$> l).
Proof.
  unfold messages. intros ->. rewrite filter_app, fmap_app. f_equal.
  induction l as [|x l IH]; [done|]. csimpl. rewrite filter_cons_True by done. csimpl. by rewrite IH.
Qed.

Lemma during_all evs m r :
  rm_replicas m !! nm = Some r -> ri_sync_state r = sSendingRdb ->
  let m' := foldl during m evs in
  messages nm m' = messages nm m ++ ((fun x => [x]) <$> restore_lines now (omap key_sent evs)) /\
  rm_replicas m' !! nm =
    Some (set_replica sSendingRdb (ri_pending_commands r ++ omap command_of evs) r).
Proof.
  cbv zeta. revert m r. induction evs as [|[kv|c] evs IH]; intros m r Hr Hs; cbn [foldl during].
  - csimpl. rewrite !app_nil_r. split; [done|]. rewrite Hr. f_equal. destruct r; cbn in *. by subst.
  - destruct (wire_sync_send now nm [kv] m) as [Hw Hf]. destruct (IH (sync_send now nm [kv] m) r) as [-> ->];
      [by rewrite Hf|done|]. rewrite (messages_wire m _ _ Hw). split; [|done].
    rewrite <-app_assoc, <-fmap_app. do 2 f_equal. unfold restore_lines. csimpl.
    by destruct (restore_args now kv).
  - destruct (replicate_waits c nm m r Hr Hs) as [Hm Hr'].
    destruct (IH (replicate_command c m) _ Hr' eq_refl) as [-> ->]. rewrite Hm. csimpl.
    split; [done|]. by rewrite <-app_assoc.
Qed.

Lemma after_all cmds m r :
  rm_replicas m !! nm = Some r -> ri_sync_state r = sConnected ->
  messages nm (foldl (fun m c => replicate_command c m) m cmds) = messages nm m ++ ((fun x => [x]) <$> cmds).
Proof.
  revert m. induction cmds as [|c cmds IH]; intros m Hr Hs; cbn [foldl]; [by rewrite app_nil_r|].
  destruct (replicate_sends c nm m r Hr Hs) as [Hm Hr']. rewrite IH by done. rewrite Hm. csimpl.
  by rewrite <-app_assoc.
Qed.
End order.

(** Commands that other threads replicate while the snapshot is sent, and after
    the switch and the replay of the backlog, reach the replica once each and in the
    order of their execution, after the keys of the snapshot. *)
Theorem sync_exact `{DoubleText} `{HashOrder} now nm m r evs after :
  rdb_send_in_progress_ m = false -> rm_replicas m !! nm = Some r -> ri_pending_commands r = [] ->
  let '(started, m1) := sync_begin nm m in
  let '(backlog, m2) := sync_switch nm (foldl (during now nm) m1 evs) in
  let m3 := foldl (fun m c => replicate_command c m) (sync_replay nm backlog m2) after in
  started = true /\
  messages nm m3 = messages nm m ++
    ((fun x => [x]) <$> restore_lines now (omap key_sent evs) ++ omap command_of evs ++ after).
Proof.
  intros Hp Hr Hpend. unfold sync_begin. rewrite Hp, Hr. cbv beta iota zeta.
  set (m1 := with_rm_replicas _ _). set (r1 := set_replica sSendingRdb _ r) in *.
  assert (ri_pending_commands r1 = []) as Hp1 by exact Hpend.
  destruct (during_all now nm evs m1 r1) as [Hm Hr1]; [apply lookup_insert_eq|done|].
  unfold sync_switch. rewrite Hr1. rewrite Hp1. cbn [app].
  split; [done|]. cbn [ri_pending_commands set_replica]. set (m2 := with_rm_replicas _ _).
  rewrite (after_all nm after _ (set_replica sConnected [] (set_replica sSendingRdb (omap command_of evs) r1)));
    [|unfold sync_replay; cbn [with_sending rm_replicas]; rewrite replay_replicas; apply lookup_insert_eq|done].
  unfold sync_replay. rewrite !fmap_app, app_assoc, app_assoc. f_equal.
  rewrite (messages_wire nm m2 _ (omap command_of evs)) by (cbn [with_sending wire]; apply wire_replay).
  f_equal. exact Hm.
Qed.

(** The switch is not atomic with the commands of other threads. A command that
    was put in the backlog before the switch and looks at the state of the replica after
    it is sent twice; one that comes between the switch and the replay overtakes the
    commands of the backlog, which were executed before it. *)
Theorem sync_races nm m r c :
  rm_replicas m !! nm = Some r -> ri_sync_state r = sSendingRdb ->
  (let m1 := add_to_replication_buffer c m in
   let '(backlog, m2) := sync_switch nm (push_backlog c m1) in
   messages nm (send_increment c (get_all_replicas m1) (sync_replay nm backlog m2)) =
     messages nm m ++ ((fun x => [x]) <$> ri_pending_commands r ++ [c; c])) /\
  (let '(backlog, m2) := sync_switch nm m in
   messages nm (sync_replay nm backlog (replicate_command c m2)) =
     messages nm m ++ ((fun x => [x]) <$> c :: ri_pending_commands r)).
Proof.
  intros Hr Hs. destruct (add_to_buffer_frame c m) as [Hf Hw]. split; cbv zeta; unfold sync_switch.
  - rewrite push_backlog_lookup, Hf, Hr. cbn [fmap option_fmap option_map].
    rewrite (bool_decide_eq_true_2 (ri_sync_state r = _)) by done. cbn [ri_pending_commands set_replica].
    set (m2 := with_rm_replicas _ _). rewrite messages_increment by apply (all_replicas_spec nm).
    rewrite bool_decide_eq_true_2 by (apply all_replicas_spec; by rewrite Hf).
    unfold state_of, sync_replay. cbn [with_sending rm_replicas]. rewrite replay_replicas.
    rewrite (lookup_insert_eq _ nm _ : rm_replicas m2 !! nm = Some _). cbn [fmap option_fmap option_map].
    cbn [ri_sync_state set_replica gets_increments andb].
    rewrite (messages_wire nm m2 _ (ri_pending_commands r ++ [c])) by (cbn [with_sending wire]; apply wire_replay).
    unfold messages at 1. unfold m2. cbn [with_rm_replicas push_backlog wire]. rewrite Hw, <-!app_assoc. f_equal.
    rewrite !fmap_app. csimpl. by rewrite <-app_assoc.
  - rewrite Hr. set (m2 := with_rm_replicas _ _). unfold sync_replay.
    rewrite (messages_wire nm (replicate_command c m2) _ (ri_pending_commands r))
      by (cbn [with_sending wire]; apply wire_replay).
    destruct (replicate_sends c nm m2 (set_replica sConnected [] r)) as [-> _];
      [apply lookup_insert_eq|done|]. csimpl. by rewrite <-app_assoc.
Qed.

(** ** The window of recent commands *)

(** The commands of a list with the offsets they start at. *)
Fixpoint entries (off : Z) (l : list bytes) : list ReplicationBufferEntry :=
  match l with [] => [] | c :: l => mkEntryR c off :: entries (off + zlen c) l end.

Lemma entries_commands off l : re_command <$> entries off l = l.
Proof. revert off. induction l as [|c l IH]; intros off; csimpl; [done|]. by rewrite IH. Qed.

Lemma entries_app off l c : entries off (l ++ [c]) = entries off l ++ [mkEntryR c (off + zlen (mjoin l))].
Proof.
  revert off. induction l as [|x l IH]; intros off; csimpl.
  - by rewrite Z.add_0_r.
  - rewrite IH, zlen_app. do 4 f_equal. lia.
Qed.

Lemma entries_drop k off l : drop k (entries off l) = entries (off + zlen (mjoin (take k l))) (drop k l).
Proof.
  revert k off. induction l as [|x l IH]; intros [|k] off; csimpl; rewrite ?Z.add_0_r; try done.
  rewrite IH, zlen_app. f_equal. lia.
Qed.

Lemma entries_above off from l :
  from <= off -> filter (fun e => from <= re_offset e) (entries off l) = entries off l.
Proof.
  revert off. induction l as [|c l IH]; intros off Hle; [done|]. cbn [entries].
  rewrite filter_cons_True by done. f_equal. apply IH. pose proof (zlen_nonneg c). lia.
Qed.

Lemma entries_from n off l :
  Forall (fun c => c <> []) l ->
  filter (fun e => off + zlen (mjoin (take n l)) <= re_offset e) (entries off l) =
    entries (off + zlen (mjoin (take n l))) (drop n l).
Proof.
  intros Hl. revert n off. induction Hl as [|c l Hc Hl IH]; intros [|n] off; csimpl;
    rewrite ?Z.add_0_r; try done.
  - rewrite filter_cons_True by done. f_equal. apply entries_above. pose proof (zlen_nonneg c). lia.
  - rewrite zlen_app. assert (0 < zlen c) by (destruct c; [done|]; rewrite zlen_cons; pose proof (zlen_nonneg c); lia).
    pose proof (zlen_nonneg (mjoin (take n l))). rewrite filter_cons_False by (cbn; lia).
    rewrite Z.add_assoc. apply IH.
Qed.

(** The buffer after the commands [cmds]: those from the [k]th on. *)
Definition window (k : nat) (cmds : list bytes) (m : ReplicationMgr) : Prop :=
  repl_buffer_ m = entries (zlen (mjoin (take k cmds))) (drop k cmds) /\
  repl_buffer_start_offset_ m = zlen (mjoin (take k cmds)) /\ rm_offset m = zlen (mjoin cmds).

Lemma window_cleanup k cmds m :
  window k cmds m -> (k < length cmds)%nat ->
  exists k', (k' < length cmds)%nat /\ window k' cmds (cleanup_replication_buffer m).
Proof.
  intros (Hb & Hs & Ho) Hk. set (h := (length (repl_buffer_ m) / 2)%nat).
  assert (length (repl_buffer_ m) = length cmds - k)%nat as Hlen.
  { by rewrite Hb, <-(length_fmap re_command), entries_commands, length_drop. }
  assert (h < length cmds - k)%nat as Hh by (subst h; rewrite Hlen; apply Nat.div_lt; lia).
  exists (k + h)%nat. split; [lia|].
  assert (drop h (repl_buffer_ m) =
    entries (zlen (mjoin (take (k + h) cmds))) (drop (k + h) cmds)) as Hd.
  { rewrite Hb, entries_drop, drop_drop. f_equal. rewrite <-zlen_app, <-join_app. do 2 f_equal.
    by rewrite <-take_take_drop. }
  unfold cleanup_replication_buffer. destruct (repl_buffer_ m) as [|e b] eqn:E; [simpl in Hlen; lia|].
  fold h. unfold window. cbn [with_buffer repl_buffer_ repl_buffer_start_offset_ rm_offset]. rewrite Hd.
  split_and!; [done| |done].
  destruct (drop (k + h) cmds) as [|c l] eqn:Ed; [|done].
  apply (f_equal length) in Ed. rewrite length_drop in Ed. simpl in Ed. lia.
Qed.

Lemma window_replicate k cmds c m :
  window k cmds m -> (k <= length cmds)%nat ->
  exists k', (k' < length (cmds ++ [c]))%nat /\ window k' (cmds ++ [c]) (replicate_command c m).
Proof.
  intros (Hb & Hs & Ho) Hk.
  assert (forall m', window k (cmds ++ [c]) m' -> (k < length (cmds ++ [c]))%nat) as Hlt
    by (intros; rewrite length_app; simpl; lia).
  set (m1 := with_buffer (rm_offset m + zlen c) (repl_buffer_ m ++ [mkEntryR c (rm_offset m)])
               (repl_buffer_start_offset_ m) m).
  assert (window k (cmds ++ [c]) m1) as Hw.
  { unfold window, m1. cbn [with_buffer repl_buffer_ repl_buffer_start_offset_ rm_offset].
    rewrite take_app_le, drop_app_le, entries_app, Hb, Hs, Ho by done. split_and!; [|done|].
    - rewrite <-zlen_app, <-join_app, take_drop. done.
    - by rewrite join_app, zlen_app; csimpl; rewrite app_nil_r. }
  assert (exists k', (k' < length (cmds ++ [c]))%nat /\
    window k' (cmds ++ [c]) (add_to_replication_buffer c m)) as (k' & Hk' & Hw').
  { unfold add_to_replication_buffer. cbn [re_offset]. cbv zeta. fold m1. case_ifs; [|by eauto].
    apply window_cleanup with k; eauto. }
  exists k'. split; [done|]. unfold replicate_command. cbv zeta.
  assert (forall names m0, let m' := send_increment c names m0 in
    repl_buffer_ m' = repl_buffer_ m0 /\ rm_offset m' = rm_offset m0 /\
    repl_buffer_start_offset_ m' = repl_buffer_start_offset_ m0) as Hi.
  { unfold send_increment. induction names as [|n names IH]; intros m0; cbn [foldl]; [done|].
    cbv zeta in IH. destruct (IH (match state_of n m0 with
      | Some sSendingkv | Some sConnected => send_replication_msg n c m0 | _ => m0 end)) as (-> & -> & ->).
    by destruct (state_of n m0) as [[]|]. }
  unfold window. destruct (Hi (get_all_replicas (add_to_replication_buffer c m))
    (push_backlog c (add_to_replication_buffer c m))) as (-> & -> & ->). exact Hw'.
Qed.

(** The buffer of recent commands is a window onto the stream of replicated
    commands: it holds its last commands, always the last one, from the start offset
    it records, and asked for the commands from the offset of any command in the window
    it returns exactly those from that command on, in order. *)
Theorem replication_window m cmds :
  repl_buffer_ m = [] -> repl_buffer_start_offset_ m = 0 -> rm_offset m = 0 ->
  Forall (fun c => c <> []) cmds ->
  let m' := foldl (fun m c => replicate_command c m) m cmds in
  let bytes_of l := zlen (mjoin (M := list) l) in
  rm_offset m' = bytes_of cmds /\
  exists k, (k <= Nat.pred (length cmds))%nat /\
    repl_buffer_start_offset_ m' = bytes_of (take k cmds) /\
    forall n, (k <= n)%nat ->
      re_command <$> get_replication_commands (bytes_of (take n cmds)) m' = drop n cmds.
Proof.
  intros Hb Hs Ho Hne m' bytes_of.
  assert (exists k, (k <= Nat.pred (length cmds))%nat /\ window k cmds m') as (k & Hk & Hw & Hst & Hoff).
  { subst m'. clear Hne. induction cmds as [|c cmds IH] using rev_ind.
    - exists 0%nat. split; [done|]. unfold window. cbn. by rewrite Hb, Hs, Ho.
    - destruct IH as (k & Hk & Hw). rewrite foldl_snoc.
      destruct (window_replicate k cmds c _ Hw) as (k' & Hk' & Hw'); [lia|]. exists k'. split; [lia|done]. }
  split; [done|]. exists k. split_and!; [done..|]. intros n Hn. unfold get_replication_commands.
  rewrite Hw. unfold bytes_of.
  assert (zlen (mjoin (take n cmds)) = zlen (mjoin (take k cmds)) + zlen (mjoin (take (n - k) (drop k cmds)))) as ->.
  { rewrite <-zlen_app, <-join_app, take_take_drop. do 3 f_equal. lia. }
  rewrite entries_from by by apply Forall_drop. rewrite entries_commands, drop_drop. f_equal. lia.
Qed.

(** ** Witnesses *)

Definition one_replica : ReplicationMgr := add_replica (lit "r") (lit "10.0.0.2") 7000 new_repl.

(** A key is sent, a command comes in, then another key; a second command comes after. *)
Lemma sync_exact_witness :
  let kv k := mkKV k (object_of_string (lit "v")) (-1) in
  let evs := [inl (kv (lit "a")); inr (lit "SET a w"); inl (kv (lit "b"))] in
  let '(started, m1) := sync_begin (lit "r") one_replica in
  let '(backlog, m2) := sync_switch (lit "r")
    (foldl (@during PayloadSpec.bits_text PayloadSpec.plain_order 5 (lit "r")) m1 evs) in
  let m3 := foldl (fun m c => replicate_command c m) (sync_replay (lit "r") backlog m2) [lit "DEL b"] in
  started = true /\
  messages (lit "r") m3 = messages (lit "r") one_replica ++ ((fun x => [x]) <$>
    @restore_lines PayloadSpec.bits_text PayloadSpec.plain_order 5 (omap key_sent evs) ++
    [lit "SET a w"] ++ [lit "DEL b"]).
Proof.
  intros kv evs.
  exact (@sync_exact PayloadSpec.bits_text PayloadSpec.plain_order 5 (lit "r") one_replica
    (mkReplica (lit "r") (lit "10.0.0.2") 7000 0 0 sWaiting []) evs [lit "DEL b"] eq_refl eq_refl eq_refl).
Defined.

(** SET in the backlog and DEL after it: the replica executes DEL first. *)
Lemma sync_races_witness :
  let m := with_rm_replicas {[lit "r" := mkReplica (lit "r") [] 7000 0 0 sSendingRdb [lit "SET k v"]]} new_repl in
  let '(backlog, m2) := sync_switch (lit "r") m in
  messages (lit "r") (sync_replay (lit "r") backlog (replicate_command (lit "DEL k") m2)) =
    [[lit "DEL k"]; [lit "SET k v"]].
Proof.
  intros m.
  exact (proj2 (sync_races (lit "r") m (mkReplica (lit "r") [] 7000 0 0 sSendingRdb [lit "SET k v"])
    (lit "DEL k") eq_refl eq_refl)).
Defined.

Lemma replication_window_witness :
  let cmds := [lit "SET a 1"; lit "SET b 2"; lit "DEL a"] in
  let m := foldl (fun m c => replicate_command c m) one_replica cmds in
  rm_offset m = 19 /\ re_command <$> get_replication_commands 7 m = [lit "SET b 2"; lit "DEL a"].
Proof.
  intros cmds m.
  destruct (replication_window one_replica cmds) as (Ho & k & Hk & _ & Hg); [done..| |].
  - repeat (constructor; [done|]). constructor.
  - split; [exact Ho|]. by vm_compute.
Defined.
End ReplicationProps.
