(* ===== verification/Monitor.v ===== *)
(** * Monitors: one mutex, one condition variable

    The classes of base/lock.cpp keep their state under a mutex and wait on a
    condition variable. A method is what happens
    under the mutex up to the wait, the condition of the wait, what happens
    after it, and which notification follows. This file runs any number of
    threads over such a class: a step is what one thread does while it holds
    the mutex, a wake-up (spurious ones included), the end of a timed wait, or
    a notification that is given after the mutex was released. *)

From S2P Require Import Prelude.
From stdpp Require Import options.

Module Monitor.

Definition tid := nat.

(** Which notification a method gives, and whether it still holds the mutex. *)
Inductive note := Silent | NotifyOne (locked : bool) | NotifyAll (locked : bool).

(** One method of a class. *)
Record Method (S L R : Type) := mkMethod {
  (** Up to the wait: the state, and the locals of the wait or the result. *)
  m_start : tid -> S -> S * (L + R * note);
  (** The condition the wait is for. *)
  m_cond : L -> S -> bool;
  (** After the wait. *)
  m_finish : tid -> L -> S -> S * R * note;
  (** What a timed wait returns when the time is over and the condition false;
      [None] for a wait without a limit. *)
  m_expired : option R
}.
Arguments mkMethod {S L R} &. Arguments m_start {S L R}. Arguments m_cond {S L R}.
Arguments m_finish {S L R}. Arguments m_expired {S L R}.

(** A method that does not wait, and one that only waits for a condition before
    it does its work. *)
Definition immediate {S L R} (f : tid -> S -> S * R * note) : Method S L R :=
  mkMethod (fun t s => let '(s, r, n) := f t s in (s, inr (r, n))) (fun _ _ => true)
    (fun t _ s => f t s) None.

Definition after {S L R} (l : L) (c : S -> bool) (f : tid -> S -> S * R * note) (exp : option R)
    : Method S L R :=
  mkMethod (fun _ s => (s, inl l)) (fun _ => c) (fun t _ => f t) exp.

Arguments immediate {S L R} & f.
Arguments after {S L R} & l c f exp.

(** A class is its methods by name. *)
Class Monitor (S M L R : Type) := method : M -> Method S L R.

(** A thread inside a method; threads outside are not listed. *)
Inductive status (M L : Type) :=
  | Waiting (m : M) (l : L)     (** blocked in the condition variable *)
  | Woken (m : M) (l : L)       (** about to test the condition again *)
  | TimedOut (m : M) (l : L)    (** about to test it for the last time *)
  | Notifying (all : bool).     (** before the notification, the mutex released *)
Arguments Waiting {M L}. Arguments Woken {M L}. Arguments TimedOut {M L}. Arguments Notifying {M L}.

Section monitor.
Context {S M L R : Type} `{!Monitor S M L R}.

Record config := mkConfig {
  mon : S;
  threads : gmap tid (status M L);
  history : list (tid * M * R)    (** completed calls, in the order of their effects *)
}.

Definition is_waiting (st : status M L) : bool := match st with Waiting _ _ => true | _ => false end.

(** [notify_one] wakes the thread the scheduler chooses, if one waits. *)
Definition wake_one (choice : option tid) (ths : gmap tid (status M L)) : option (gmap tid (status M L)) :=
  match choice with
  | Some u => match ths !! u with Some (Waiting m l) => Some (<[u := Woken m l]> ths) | _ => None end
  | None => if decide (map_Forall (fun _ st => is_waiting st = false) ths) then Some ths else None
  end.

Definition wake (st : status M L) : status M L :=
  match st with Waiting m l => Woken m l | st => st end.

Definition wake_all (ths : gmap tid (status M L)) : gmap tid (status M L) := wake <$> ths.

(** A call that took effect: it is recorded, and its notification given now or
    after the mutex is released. *)
Definition complete (t : tid) (m : M) (r : R) (n : note) (choice : option tid) (s : S)
    (ths : gmap tid (status M L)) (h : list (tid * M * R)) : option config :=
  let h := h ++ [(t, m, r)] in
  match n with
  | Silent => Some (mkConfig s (delete t ths) h)
  | NotifyOne true => ths ← wake_one choice (delete t ths); Some (mkConfig s ths h)
  | NotifyAll true => Some (mkConfig s (wake_all (delete t ths)) h)
  | NotifyOne false => Some (mkConfig s (<[t := Notifying false]> ths) h)
  | NotifyAll false => Some (mkConfig s (<[t := Notifying true]> ths) h)
  end.

Inductive label :=
  | Call (t : tid) (m : M) (choice : option tid)
  | Spurious (t : tid)
  | Recheck (t : tid) (choice : option tid)
  | TimeOver (t : tid)
  | Notify (t : tid) (choice : option tid).

(** The loop of [cv_.wait]: the condition is tested under the mutex. *)
Definition test (t : tid) (m : M) (l : L) (choice : option tid) (otherwise : option config)
    (s : S) (ths : gmap tid (status M L)) (h : list (tid * M * R)) : option config :=
  if m_cond (method m) l s then
    let '(s, r, n) := m_finish (method m) t l s in complete t m r n choice s ths h
  else otherwise.

Definition step (a : label) (c : config) : option config :=
  let s := mon c in let ths := threads c in let h := history c in
  match a with
  | Call t m choice =>
      match ths !! t with
      | Some _ => None
      | None =>
          let '(s, o) := m_start (method m) t s in
          match o with
          | inr (r, n) => complete t m r n choice s ths h
          | inl l => test t m l choice (Some (mkConfig s (<[t := Waiting m l]> ths) h)) s ths h
          end
      end
  | Spurious t =>
      match ths !! t with
      | Some (Waiting m l) => Some (mkConfig s (<[t := Woken m l]> ths) h)
      | _ => None
      end
  | Recheck t choice =>
      match ths !! t with
      | Some (Woken m l) => test t m l choice (Some (mkConfig s (<[t := Waiting m l]> ths) h)) s ths h
      | Some (TimedOut m l) =>
          test t m l choice (r ← m_expired (method m); complete t m r Silent choice s ths h) s ths h
      | _ => None
      end
  | TimeOver t =>
      match ths !! t with
      | Some (Waiting m l) =>
          match m_expired (method m) with
          | Some _ => Some (mkConfig s (<[t := TimedOut m l]> ths) h)
          | None => None
          end
      | _ => None
      end
  | Notify t choice =>
      match ths !! t with
      | Some (Notifying true) => Some (mkConfig s (wake_all (delete t ths)) h)
      | Some (Notifying false) =>
          ths ← wake_one choice (delete t ths); Some (mkConfig s ths h)
      | _ => None
      end
  end.

Definition run (labels : list label) (c : config) : option config :=
  foldl (fun c a => c ≫= step a) (Some c) labels.

Definition initial (s : S) : config := mkConfig s ∅ [].

Definition reachable (s : S) (c : config) : Prop := exists labels, run labels (initial s) = Some c.

Lemma run_snoc labels a c : run (labels ++ [a]) c = run labels c ≫= step a.
Proof. unfold run. by rewrite foldl_snoc. Qed.

Lemma run_app l1 l2 c c' : run l1 c = Some c' -> run (l1 ++ l2) c = run l2 c'.
Proof. unfold run. by rewrite foldl_app; intros ->. Qed.

(** Invariants by induction on the run. *)
Lemma reachable_ind (I : config -> Prop) s :
  I (initial s) -> (forall a c c', I c -> step a c = Some c' -> I c') ->
  forall c, reachable s c -> I c.
Proof.
  intros H0 Hs c [labels Hr]. revert c Hr. induction labels as [|a labels IH] using rev_ind; intros c Hr.
  - by injection Hr as <-.
  - rewrite run_snoc in Hr. destruct (run labels (initial s)) as [c0|] eqn:E; [|done]. eauto.
Qed.

(** ** Counting threads *)

Definition count (P : status M L -> bool) (ths : gmap tid (status M L)) : nat :=
  size (filter (fun x => P x.2 = true) ths).

Definition b2n (b : bool) : nat := if b then 1 else 0.

Lemma count_delete P t ths :
  count P ths = (count P (delete t ths) + match ths !! t with Some st => b2n (P st) | None => 0 end)%nat.
Proof.
  unfold count. rewrite map_filter_delete. destruct (ths !! t) as [st|] eqn:E.
  - destruct (P st) eqn:HP.
    + rewrite map_size_delete_Some by (exists st; by apply map_lookup_filter_Some_2).
      assert (size (filter (fun x => P x.2 = true) ths) <> 0%nat); [|simpl; lia].
      apply map_size_ne_0_lookup. exists t. exists st. by apply map_lookup_filter_Some_2.
    + rewrite map_size_delete_None; [simpl; lia|]. apply map_lookup_filter_None. right.
      intros ? Hst ?. simpl in *. congruence.
  - rewrite map_size_delete_None; [lia|]. apply map_lookup_filter_None. by left.
Qed.

Lemma count_insert P t st ths :
  count P (<[t := st]> ths) = (count P (delete t ths) + b2n (P st))%nat.
Proof. rewrite (count_delete P t (<[t := st]> ths)), lookup_insert_eq, delete_insert_eq. done. Qed.

Lemma count_pos P ths : (0 < count P ths)%nat <-> exists t st, ths !! t = Some st /\ P st = true.
Proof.
  unfold count. split.
  - intros H. destruct (map_size_ne_0_lookup_1 (filter (fun x => P x.2 = true) ths)) as (t & st & Hl); [lia|].
    apply map_lookup_filter_Some in Hl as [? ?]. eauto.
  - intros (t & st & Hl & HP).
    assert (size (filter (fun x => P x.2 = true) ths) <> 0%nat); [|lia].
    apply map_size_ne_0_lookup. exists t, st. by apply map_lookup_filter_Some_2.
Qed.

(** Waking turns waiting threads into woken ones. *)
Lemma count_wake_all P ths :
  count P (wake_all ths) = count (fun st => P (wake st)) ths.
Proof.
  unfold wake_all. induction ths as [|t st ths Ht IH] using map_ind.
  - unfold count. by rewrite fmap_empty, !map_filter_empty.
  - rewrite fmap_insert, !count_insert, !delete_id; [by rewrite IH|done|]. by rewrite lookup_fmap, Ht.
Qed.

Lemma count_ext P Q ths : (forall st, P st = Q st) -> count P ths = count Q ths.
Proof. intros H. unfold count. f_equal. apply map_filter_ext. intros ? st _. simpl. by rewrite H. Qed.

Lemma count_none ths : count (fun _ => false) ths = 0%nat.
Proof.
  destruct (count (fun _ => false) ths) eqn:E; [done|].
  destruct (proj1 (count_pos (fun _ => false) ths)) as (? & ? & _ & ?); [lia|done].
Qed.

Lemma wake_one_spec choice ths ths' :
  wake_one choice ths = Some ths' ->
  (exists u m l, ths !! u = Some (Waiting m l) /\ ths' = <[u := Woken m l]> ths) \/
  (ths' = ths /\ forall u st, ths !! u = Some st -> is_waiting st = false).
Proof.
  unfold wake_one. destruct choice as [u|].
  - destruct (ths !! u) as [[m l|m l|m l|b]|] eqn:E; intros [= <-]. left. eauto.
  - case_decide as H; intros [= <-]. right. split; [done|]. intros u st. apply H.
Qed.

Lemma wake_one_choice ths :
  exists choice ths', wake_one choice ths = Some ths' /\
    ((0 < count is_waiting ths)%nat -> exists u m l, choice = Some u /\ ths !! u = Some (Waiting m l) /\
      ths' = <[u := Woken m l]> ths).
Proof.
  destruct (decide (map_Forall (fun _ st => is_waiting st = false) ths)) as [H|H].
  - exists None, ths. cbn. rewrite decide_True by done. split; [done|].
    intros (t & st & Hl & Hw)%count_pos. specialize (H _ _ Hl). cbn in H. congruence.
  - apply map_not_Forall in H as (u & st & Hl & Hw); [|solve_decision]. exists (Some u).
    destruct st as [m l|m l|m l|b]; try done. exists (<[u := Woken m l]> ths). cbn. rewrite Hl.
    split; [done|]. eauto 6.
Qed.
End monitor.
Arguments config S M L R : clear implicits.
Arguments label M : clear implicits.
Arguments Call {M} t%_nat_scope m choice. Arguments Spurious {M} t%_nat_scope. Arguments Recheck {M} t%_nat_scope choice.
Arguments TimeOver {M} t%_nat_scope. Arguments Notify {M} t%_nat_scope choice.
Arguments initial {S M L R} s.
End Monitor.
