(* ===== verification/Locks.v ===== *)
(** * Locks and synchronisation: base/lock.h, base/lock.cpp

    The classes that wait on a condition variable are monitors (Monitor.v): one
    [Method] per method of the source. [SpinLock] is an atomic flag and a loop;
    [RWLock] delegates to [std::shared_mutex]; the guards are the calls they make
    on the lock they hold; the sharded locks choose one of their locks. Counters
    are unbounded: they count threads, nested calls or generations. The operations
    of [AtomicPointer] are those of [AtomicInteger] on addresses. *)

From S2P Require Import Prelude Base Monitor.
From stdpp Require Import options.

Module Locks.
Import Monitor.

(** ** AtomicInteger *)

Definition i32 (z : Z) : Z := (z + 2147483648) mod 4294967296 - 2147483648.

(** Each operation is one atomic access: the value it returns and the new value.
    Atomic arithmetic wraps around. *)
Definition atomic_load (value_ : Z) : Z * Z := (value_, value_).
Definition atomic_store (val value_ : Z) : Z := val.
Definition atomic_exchange (new_val value_ : Z) : Z * Z := (value_, new_val).

(** Success, what [expected] holds afterwards, and the new value. The weak form may
    fail although the values are equal. *)
Definition compare_exchange_strong (expected desired value_ : Z) : bool * Z * Z :=
  if value_ =? expected then (true, expected, desired) else (false, value_, value_).
Definition compare_exchange (spurious : bool) (expected desired value_ : Z) : bool * Z * Z :=
  if spurious then (false, value_, value_) else compare_exchange_strong expected desired value_.

Definition fetch_add (arg value_ : Z) : Z * Z := (value_, i32 (value_ + arg)).
Definition fetch_sub (arg value_ : Z) : Z * Z := (value_, i32 (value_ - arg)).
Definition fetch_and (arg value_ : Z) : Z * Z := (value_, Z.land value_ arg).
Definition fetch_or (arg value_ : Z) : Z * Z := (value_, Z.lor value_ arg).
Definition fetch_xor (arg value_ : Z) : Z * Z := (value_, Z.lxor value_ arg).

(** Arithmetic on [int] is undefined where it overflows. *)
Definition int_result (z : Z) : option Z :=
  if (-2147483648 <=? z) && (z <=? 2147483647) then Some z else None.

Definition pre_increment (value_ : Z) : option Z * Z :=
  let '(r, v) := fetch_add 1 value_ in (int_result (r + 1), v).
Definition post_increment (value_ : Z) : Z * Z := fetch_add 1 value_.
Definition pre_decrement (value_ : Z) : option Z * Z :=
  let '(r, v) := fetch_sub 1 value_ in (int_result (r - 1), v).
Definition post_decrement (value_ : Z) : Z * Z := fetch_sub 1 value_.
Definition add_assign (arg value_ : Z) : option Z * Z :=
  let '(r, v) := fetch_add arg value_ in (int_result (r + arg), v).
Definition sub_assign (arg value_ : Z) : option Z * Z :=
  let '(r, v) := fetch_sub arg value_ in (int_result (r - arg), v).

(** ** Mutex: the state is [locked_]; functions without a result return [true] *)

Inductive mutex_call := mutex_lock | mutex_try_lock | mutex_try_lock_for | mutex_try_lock_until | mutex_unlock.

Definition Mutex_take (t : tid) (locked_ : bool) : bool * bool * note := (true, true, Silent).

Definition Mutex_lock : Method bool unit bool := after () negb Mutex_take None.

Definition Mutex_try_lock : Method bool unit bool :=
  immediate (fun _ locked_ => if locked_ then (locked_, false, Silent) else (true, true, Silent)).

Definition Mutex_try_lock_for : Method bool unit bool := after () negb Mutex_take (Some false).
Definition Mutex_try_lock_until : Method bool unit bool := after () negb Mutex_take (Some false).

Definition Mutex_unlock : Method bool unit bool := immediate (fun _ _ => (false, true, NotifyOne false)).

#[global] Instance Mutex : Monitor bool mutex_call unit bool := fun m =>
  match m with
  | mutex_lock => Mutex_lock
  | mutex_try_lock => Mutex_try_lock
  | mutex_try_lock_for => Mutex_try_lock_for
  | mutex_try_lock_until => Mutex_try_lock_until
  | mutex_unlock => Mutex_unlock
  end.

(** ** SpinLock *)

Definition max_spins_before_yield : Z := 64.

(** [test_and_set]: the old value is what tells. *)
Definition SpinLock_try_lock (flag_ : bool) : bool * bool := (negb flag_, true).
Definition SpinLock_unlock (_ : bool) : bool := false.

(** The back-off after a failed attempt: the next number of pauses, and whether the
    thread yields first. *)
Definition spin_next (spin_count : Z) : Z * bool :=
  let spin_count := Z.min (spin_count * 2) max_spins_before_yield in
  if max_spins_before_yield <=? spin_count then (1, true) else (spin_count, false).

(** Threads in [lock] by the number of pauses before their next attempt; what
    each thread did. *)
Inductive spin_event := spun_lock | spun_fail | spun_unlock.

Record SpinLock := mkSpin {
  flag_ : bool;
  spinning : gmap tid Z;
  spin_history : list (tid * spin_event)
}.

Inductive spin_label := SpinLock_call (t : tid) | SpinTry_call (t : tid) | SpinUnlock_call (t : tid) | SpinAgain (t : tid).

Arguments SpinLock_call t%_nat_scope. Arguments SpinTry_call t%_nat_scope.
Arguments SpinUnlock_call t%_nat_scope. Arguments SpinAgain t%_nat_scope.

Definition spin_step (a : spin_label) (c : SpinLock) : option SpinLock :=
  let '(got, f) := SpinLock_try_lock (flag_ c) in
  match a with
  | SpinLock_call t =>
      match spinning c !! t with
      | Some _ => None
      | None =>
          Some (if got then mkSpin f (spinning c) (spin_history c ++ [(t, spun_lock)])
                else mkSpin f (<[t := 1]> (spinning c)) (spin_history c))
      end
  | SpinAgain t =>
      match spinning c !! t with
      | None => None
      | Some n =>
          Some (if got then mkSpin f (delete t (spinning c)) (spin_history c ++ [(t, spun_lock)])
                else mkSpin f (<[t := (spin_next n).1]> (spinning c)) (spin_history c))
      end
  | SpinTry_call t =>
      match spinning c !! t with
      | Some _ => None
      | None => Some (mkSpin f (spinning c) (spin_history c ++ [(t, if got then spun_lock else spun_fail)]))
      end
  | SpinUnlock_call t =>
      match spinning c !! t with
      | Some _ => None
      | None => Some (mkSpin (SpinLock_unlock (flag_ c)) (spinning c) (spin_history c ++ [(t, spun_unlock)]))
      end
  end.

(** ** RecursiveMutex *)

Record RecursiveMutex := mkRecursive { owner_thread_ : option tid; rec_count_ : Z }.

Inductive recursive_call := rec_lock | rec_try_lock | rec_unlock.

Definition RecursiveMutex_lock : Method RecursiveMutex unit bool :=
  mkMethod
    (fun t s =>
      if bool_decide (owner_thread_ s = Some t)
      then (mkRecursive (owner_thread_ s) (rec_count_ s + 1), inr (true, Silent))
      else (s, inl ()))
    (fun _ s => bool_decide (owner_thread_ s = None))
    (fun t _ _ => (mkRecursive (Some t) 1, true, Silent))
    None.

Definition RecursiveMutex_try_lock : Method RecursiveMutex unit bool :=
  immediate (fun t s =>
    if bool_decide (owner_thread_ s = Some t)
    then (mkRecursive (owner_thread_ s) (rec_count_ s + 1), true, Silent)
    else
      match owner_thread_ s with
      | Some _ => (s, false, Silent)
      | None => (mkRecursive (Some t) 1, true, Silent)
      end).

Definition RecursiveMutex_unlock : Method RecursiveMutex unit bool :=
  immediate (fun t s =>
    if negb (bool_decide (owner_thread_ s = Some t)) then (s, true, Silent)
    else
      let count := rec_count_ s - 1 in
      if count =? 0 then (mkRecursive None count, true, NotifyOne true)
      else (mkRecursive (owner_thread_ s) count, true, Silent)).

#[global] Instance Recursive : Monitor RecursiveMutex recursive_call unit bool := fun m =>
  match m with
  | rec_lock => RecursiveMutex_lock
  | rec_try_lock => RecursiveMutex_try_lock
  | rec_unlock => RecursiveMutex_unlock
  end.

(** ** RWLock: [std::shared_mutex] with its holders *)

Record shared_mutex := mkShared { sm_readers : Z; sm_writer : bool }.

Definition try_read_lock (s : shared_mutex) : bool * shared_mutex :=
  if sm_writer s then (false, s) else (true, mkShared (sm_readers s + 1) false).
Definition try_write_lock (s : shared_mutex) : bool * shared_mutex :=
  if sm_writer s || (0 <? sm_readers s) then (false, s) else (true, mkShared 0 true).

(** The timed forms: at each turn the clock is read, then the lock tried, then the
    thread yields; the list is what the clock shows and how the lock is at each turn.
    [None] where the list ends before the loop. *)
Fixpoint try_until (deadline : Z) (attempts : list (Z * bool)) : option bool :=
  match attempts with
  | [] => None
  | (now, free) :: attempts =>
      if now <? deadline then if free then Some true else try_until deadline attempts else Some false
  end.

Definition try_read_lock_for (now0 duration : Z) (turns : list (Z * shared_mutex)) : option bool :=
  try_until (now0 + duration) ((fun x => (x.1, (try_read_lock x.2).1)) <$> turns).
Definition try_write_lock_for (now0 duration : Z) (turns : list (Z * shared_mutex)) : option bool :=
  try_until (now0 + duration) ((fun x => (x.1, (try_write_lock x.2).1)) <$> turns).

(** ** RWLock2 *)

Record RWLock2 := mkRW { readers_ : Z; writers_waiting_ : Z; writer_active_ : bool }.

Definition new_rwlock2 : RWLock2 := mkRW 0 0 false.

Inductive rw_call := rw_read_lock | rw_read_unlock | rw_write_lock | rw_write_unlock | rw_try_read | rw_try_write.

Definition RWLock2_read_lock : Method RWLock2 unit bool :=
  after () (fun s => negb (writer_active_ s) && (writers_waiting_ s =? 0))
    (fun _ s => (mkRW (readers_ s + 1) (writers_waiting_ s) (writer_active_ s), true, Silent)) None.

Definition RWLock2_read_unlock : Method RWLock2 unit bool :=
  immediate (fun _ s =>
    let readers := readers_ s - 1 in
    (mkRW readers (writers_waiting_ s) (writer_active_ s), true,
     if readers =? 0 then NotifyAll true else Silent)).

Definition RWLock2_write_lock : Method RWLock2 unit bool :=
  mkMethod
    (fun _ s => (mkRW (readers_ s) (writers_waiting_ s + 1) (writer_active_ s), inl ()))
    (fun _ s => negb (writer_active_ s) && (readers_ s =? 0))
    (fun _ _ s => (mkRW (readers_ s) (writers_waiting_ s - 1) true, true, Silent))
    None.

Definition RWLock2_write_unlock : Method RWLock2 unit bool :=
  immediate (fun _ s => (mkRW (readers_ s) (writers_waiting_ s) false, true, NotifyAll true)).

Definition RWLock2_try_read_lock : Method RWLock2 unit bool :=
  immediate (fun _ s =>
    if negb (writer_active_ s) && (writers_waiting_ s =? 0)
    then (mkRW (readers_ s + 1) (writers_waiting_ s) (writer_active_ s), true, Silent)
    else (s, false, Silent)).

Definition RWLock2_try_write_lock : Method RWLock2 unit bool :=
  immediate (fun _ s =>
    if negb (writer_active_ s) && (readers_ s =? 0)
    then (mkRW (readers_ s) (writers_waiting_ s + 1 - 1) true, true, Silent)
    else (s, false, Silent)).

#[global] Instance RW2 : Monitor RWLock2 rw_call unit bool := fun m =>
  match m with
  | rw_read_lock => RWLock2_read_lock
  | rw_read_unlock => RWLock2_read_unlock
  | rw_write_lock => RWLock2_write_lock
  | rw_write_unlock => RWLock2_write_unlock
  | rw_try_read => RWLock2_try_read_lock
  | rw_try_write => RWLock2_try_write_lock
  end.

(** ** Guards: [owned_] and the calls made on the lock *)

Inductive guard_call := g_acquire | g_try | g_release.

(** [LockGuard]; [ReadLockGuard] and [WriteLockGuard] differ in the names of the
    methods they call. *)
Definition LockGuard_new : bool * list guard_call := (true, [g_acquire]).
Definition LockGuard_unlock (_ : bool) : bool * list guard_call := (false, [g_release]).
Definition LockGuard_drop (owned_ : bool) : list guard_call := if owned_ then [g_release] else [].

Definition TryLockGuard_new (try_lock : bool) : bool * list guard_call := (try_lock, [g_try]).
Definition TryLockGuard_unlock (owned_ : bool) : bool * list guard_call :=
  if owned_ then (false, [g_release]) else (owned_, []).
Definition TryLockGuard_drop (owned_ : bool) : list guard_call := if owned_ then [g_release] else [].

(** ** Semaphore: the state is [count_] *)

Definition max_count_ : Z := 2147483647.

Inductive sem_call := sem_wait | sem_try_wait | sem_wait_for | sem_post | sem_post_all.

Definition Semaphore_take (t : tid) (count_ : Z) : Z * bool * note := (count_ - 1, true, Silent).

Definition Semaphore_wait : Method Z unit bool := after () (fun count_ => 0 <? count_) Semaphore_take None.

Definition Semaphore_try_wait : Method Z unit bool :=
  immediate (fun t count_ => if 0 <? count_ then Semaphore_take t count_ else (count_, false, Silent)).

Definition Semaphore_wait_for : Method Z unit bool :=
  after () (fun count_ => 0 <? count_) Semaphore_take (Some false).

Definition Semaphore_post : Method Z unit bool :=
  immediate (fun _ count_ => (if count_ <? max_count_ then count_ + 1 else count_, true, NotifyOne false)).

Definition Semaphore_post_all : Method Z unit bool :=
  immediate (fun _ _ => (max_count_, true, NotifyAll false)).

#[global] Instance Semaphore : Monitor Z sem_call unit bool := fun m =>
  match m with
  | sem_wait => Semaphore_wait
  | sem_try_wait => Semaphore_try_wait
  | sem_wait_for => Semaphore_wait_for
  | sem_post => Semaphore_post
  | sem_post_all => Semaphore_post_all
  end.

(** ** CountDownLatch: the state is [count_]; methods of its own type of names *)

Inductive latch_call := latch_wait | latch_wait_for | latch_count_down.

Definition CountDownLatch_wait : Method Z unit bool :=
  after () (fun count_ => count_ =? 0) (fun _ count_ => (count_, true, Silent)) None.
Definition CountDownLatch_wait_for : Method Z unit bool :=
  after () (fun count_ => count_ =? 0) (fun _ count_ => (count_, true, Silent)) (Some false).

Definition CountDownLatch_count_down : Method Z unit bool :=
  immediate (fun _ count_ =>
    let count_ := if 0 <? count_ then count_ - 1 else count_ in
    (count_, true, if count_ =? 0 then NotifyAll false else Silent)).

#[global] Instance CountDownLatch : Monitor Z latch_call unit bool := fun m =>
  match m with
  | latch_wait => CountDownLatch_wait
  | latch_wait_for => CountDownLatch_wait_for
  | latch_count_down => CountDownLatch_count_down
  end.

(** ** CyclicBarrier: the wait keeps the generation it began in and its index *)

Record CyclicBarrier := mkBarrier { parties_ : Z; bar_count_ : Z; generation_ : Z }.

Definition new_barrier (parties : Z) : CyclicBarrier :=
  let p := if parties <? 1 then 1 else parties in mkBarrier p p 0.

Inductive barrier_call := bar_wait | bar_reset.

Definition CyclicBarrier_wait : Method CyclicBarrier (Z * Z) Z :=
  mkMethod
    (fun _ s =>
      let gen := generation_ s in
      let index := bar_count_ s - 1 in
      if index =? 0
      then (mkBarrier (parties_ s) (parties_ s) (gen + 1), inr (index, NotifyAll true))
      else (mkBarrier (parties_ s) index gen, inl (gen, index)))
    (fun l s => negb (l.1 =? generation_ s))
    (fun _ l s => (s, l.2, Silent))
    None.

Definition CyclicBarrier_reset : Method CyclicBarrier (Z * Z) Z :=
  immediate (fun _ s => (mkBarrier (parties_ s) (parties_ s) (generation_ s + 1), 0, NotifyAll true)).

Definition barrier_waiting (s : CyclicBarrier) : Z := parties_ s - bar_count_ s.

#[global] Instance Barrier : Monitor CyclicBarrier barrier_call (Z * Z) Z := fun m =>
  match m with bar_wait => CyclicBarrier_wait | bar_reset => CyclicBarrier_reset end.

(** ** Sharded locks: the index of the lock of a hash value *)

Definition shard_count (num_shards : Z) : Z := if num_shards =? 0 then 1 else num_shards.
Definition get_shard (num_shards hash : Z) : Z := hash mod shard_count num_shards.
End Locks.
