(* ===== verification/LocksProps.v ===== *)
(** * Properties of the locks: exclusion, no lost wake-up, and what the
    synchronisation classes count *)

From S2P Require Import Prelude Base Monitor Locks.
From stdpp Require Import options.

Module LocksProps.
Import Monitor Locks.

(** ** Replaying a history on an abstract lock *)

(** A history can be legal, be spoiled by a caller that releases what it does not
    hold, or show the lock to be broken. *)
Inductive verdict (A : Type) := Fine (a : A) | Misused | Broken.
Arguments Fine {A}. Arguments Misused {A}. Arguments Broken {A}.

Definition replay {A E} (spec : E -> A -> verdict A) (a : A) (h : list E) : verdict A :=
  foldl (fun v e => match v with Fine a => spec e a | v => v end) (Fine a) h.

Lemma replay_snoc {A E} (spec : E -> A -> verdict A) a h e :
  replay spec a (h ++ [e]) = match replay spec a h with Fine a => spec e a | v => v end.
Proof. unfold replay. rewrite foldl_snoc. by destruct (foldl _ _ _). Qed.

(** What a verdict says of the state of the lock. *)
Definition agrees {A} (P : A -> Prop) (v : verdict A) : Prop :=
  match v with Fine a => P a | Misused => True | Broken => False end.

(** The abstract lock: the thread that holds it. *)
Inductive lock_event := Acquired | Refused | Released.

Definition lock_spec (e : tid * lock_event) (holder : option tid) : verdict (option tid) :=
  match e.2, holder with
  | Acquired, None => Fine (Some e.1)
  | Acquired, Some _ => Broken
  | Refused, Some u => Fine (Some u)
  | Refused, None => Broken
  | Released, Some u => if decide (u = e.1) then Fine None else Misused
  | Released, None => Misused
  end.

Definition held (holder : option tid) : bool := match holder with Some _ => true | None => false end.

(** ** Steps of a monitor *)

Section steps.
Context {S M L R : Type} `{!Monitor S M L R}.

Definition active (st : status M L) : bool := negb (is_waiting st).

(** A call of thread [t] takes effect: it never had to wait, or it tests the
    condition and finds it true. *)
Definition took (c : config S M L R) (t : tid) (m : M) (r : R) (n : note) (s : S) : Prop :=
  match threads c !! t with
  | None =>
      m_start (method m) t (mon c) = (s, inr (r, n)) \/
      exists s0 l, m_start (method m) t (mon c) = (s0, inl l) /\ m_cond (method m) l s0 = true /\
        m_finish (method m) t l s0 = (s, r, n)
  | Some (Woken m' l) | Some (TimedOut m' l) =>
      m' = m /\ m_cond (method m) l (mon c) = true /\ m_finish (method m) t l (mon c) = (s, r, n)
  | _ => False
  end.

(** A call of thread [t] goes to wait, or goes back to it. *)
Definition blocks (c : config S M L R) (t : tid) (m : M) (l : L) (s : S) : Prop :=
  match threads c !! t with
  | None => m_start (method m) t (mon c) = (s, inl l)
  | Some (Woken m' l') => m' = m /\ l' = l /\ s = mon c
  | _ => False
  end.

(** The ways a step can go: a call takes effect, a thread gives up or blocks, a
    thread is woken without a notification, or a notification is given. *)
Inductive outcome (c : config S M L R) : config S M L R -> Prop :=
  | Effect t m r n choice s c' :
      took c t m r n s -> complete t m r n choice s (threads c) (history c) = Some c' -> outcome c c'
  | Expired t m l r :
      threads c !! t = Some (TimedOut m l) -> m_cond (method m) l (mon c) = false ->
      m_expired (method m) = Some r ->
      outcome c (mkConfig (mon c) (delete t (threads c)) (history c ++ [(t, m, r)]))
  | Blocks t m l s :
      blocks c t m l s -> m_cond (method m) l s = false ->
      outcome c (mkConfig s (<[t := Waiting m l]> (threads c)) (history c))
  | Wakes t m l st :
      threads c !! t = Some (Waiting m l) -> st = Woken m l \/ (st = TimedOut m l /\ is_Some (m_expired (method m))) ->
      outcome c (mkConfig (mon c) (<[t := st]> (threads c)) (history c))
  | NotifiesAll t :
      threads c !! t = Some (Notifying true) ->
      outcome c (mkConfig (mon c) (wake_all (delete t (threads c))) (history c))
  | NotifiesOne t choice ths' :
      threads c !! t = Some (Notifying false) -> wake_one choice (delete t (threads c)) = Some ths' ->
      outcome c (mkConfig (mon c) ths' (history c)).

Lemma step_outcome a c c' : step a c = Some c' -> outcome c c'.
Proof.
  assert (forall t m l choice other s0,
    test t m l choice other s0 (threads c) (history c) = Some c' ->
    (m_cond (method m) l s0 = true /\ exists s r n, m_finish (method m) t l s0 = (s, r, n) /\
      complete t m r n choice s (threads c) (history c) = Some c') \/
    (m_cond (method m) l s0 = false /\ other = Some c')) as Htest.
  { intros t m l choice other s0. unfold test. destruct (m_cond _ _ _); [|by right].
    destruct (m_finish _ _ _ _) as [[s r] n] eqn:E. left. eauto 6. }
  destruct a as [t m choice|t|t choice|t|t choice]; cbn [step];
    destruct (threads c !! t) as [[m' l'|m' l'|m' l'|b]|] eqn:Ht; try done.
  - destruct (m_start (method m) t (mon c)) as [s [l|[r n]]] eqn:E.
    + intros [(Hc & s1 & r & n & Hf & H)|[Hc [= <-]]]%Htest.
      * eapply (Effect c t m r n choice s1); [|done]. unfold took. rewrite Ht. right. eauto.
      * apply (Blocks c t m l s); [|done]. unfold took, blocks. by rewrite Ht.
    + intros H. eapply (Effect c t m r n choice s); [|done]. unfold took. rewrite Ht. by left.
  - intros [= <-]. eapply Wakes; [done|by left].
  - intros [(Hc & s1 & r & n & Hf & H)|[Hc [= <-]]]%Htest.
    + eapply (Effect c t m' r n choice s1); [|done]. unfold took, blocks. by rewrite Ht.
    + apply (Blocks c t m' l' (mon c)); [|done]. unfold took, blocks. by rewrite Ht.
  - intros [(Hc & s1 & r & n & Hf & H)|[Hc H]]%Htest.
    + eapply (Effect c t m' r n choice s1); [|done]. unfold took, blocks. by rewrite Ht.
    + destruct (m_expired (method m')) as [r|] eqn:E; [|done]. injection H as <-. by eapply Expired.
  - destruct (m_expired (method m')) eqn:E; [|done]. intros [= <-]. eapply Wakes; [done|right; by rewrite E].
  - destruct b.
    + intros [= <-]. by apply NotifiesAll.
    + intros H. destruct (wake_one choice (delete t (threads c))) eqn:E; [|done]. injection H as <-.
      by eapply NotifiesOne.
Qed.

(** A call that took effect: the thread is outside or about to notify, others may
    have been woken, and the call is recorded. *)
Lemma complete_spec t m r n choice s ths h (c' : config S M L R) :
  complete t m r n choice s ths h = Some c' ->
  mon c' = s /\ history c' = h ++ [(t, m, r)] /\
  match n with
  | Silent => threads c' = delete t ths
  | NotifyAll true => threads c' = wake_all (delete t ths)
  | NotifyOne true => wake_one choice (delete t ths) = Some (threads c')
  | NotifyOne false => threads c' = <[t := Notifying false]> ths
  | NotifyAll false => threads c' = <[t := Notifying true]> ths
  end.
Proof.
  unfold complete. destruct n as [|[]|[]].
  1,3,4,5: by intros [= <-].
  destruct (wake_one choice (delete t ths)) eqn:E; [|done]. by intros [= <-].
Qed.

(** How waking changes the numbers of waiting and active threads. *)
Lemma count_wake_one choice (ths ths' : gmap tid (status M L)) :
  wake_one choice ths = Some ths' ->
  ((0 < count is_waiting ths)%nat -> count is_waiting ths = Datatypes.S (count is_waiting ths') /\
     count active ths' = Datatypes.S (count active ths)) /\
  (count is_waiting ths = 0%nat -> count is_waiting ths' = 0%nat /\ count active ths' = count active ths).
Proof.
  intros [(u & m & l & Hu & ->)|[-> Hn]]%wake_one_spec.
  - rewrite !count_insert. rewrite (count_delete is_waiting u ths), (count_delete active u ths), Hu. cbn.
    split; intros; lia.
  - split; [|done]. intros (u & st & Hu & Hw)%count_pos. rewrite (Hn u st Hu) in Hw. done.
Qed.

Lemma count_wake_everyone (ths : gmap tid (status M L)) :
  count is_waiting (wake_all ths) = 0%nat /\
  count active (wake_all ths) = (count is_waiting ths + count active ths)%nat.
Proof.
  rewrite !count_wake_all. split.
  - rewrite <-(count_none ths). apply count_ext. by intros [].
  - induction ths as [|t st ths Ht IH] using map_ind; [done|].
    rewrite !count_insert, !delete_id by done. rewrite IH. destruct st; cbn; lia.
Qed.

(** The numbers of waiting and of active threads after a step that is not the effect
    of a call. *)
Abbreviation W c := (count is_waiting (threads c)).
Abbreviation A c := (count active (threads c)).

Lemma counts_leave (ths : gmap tid (status M L)) t st :
  ths !! t = Some st -> active st = true ->
  count is_waiting (delete t ths) = count is_waiting ths /\
  count active ths = Datatypes.S (count active (delete t ths)).
Proof.
  intros Ht Ha. pose proof (count_delete is_waiting t ths) as Hw. pose proof (count_delete active t ths) as Hac.
  rewrite Ht in *. rewrite Ha in Hac. destruct st; cbn in *; try done; lia.
Qed.

Lemma counts_block (c : config S M L R) t m l s :
  blocks c t m l s ->
  count is_waiting (<[t := Waiting m l]> (threads c)) = Datatypes.S (W c) /\
  (count active (<[t := Waiting m l]> (threads c)) <= A c)%nat.
Proof.
  unfold blocks. intros Hb. rewrite !count_insert.
  pose proof (count_delete is_waiting t (threads c)). pose proof (count_delete active t (threads c)).
  destruct (threads c !! t) as [[]|]; cbn in *; try done; lia.
Qed.

Lemma counts_wake (c : config S M L R) t m l st :
  threads c !! t = Some (Waiting m l) ->
  st = Woken m l \/ (st = TimedOut m l /\ is_Some (m_expired (method m))) ->
  W c = Datatypes.S (count is_waiting (<[t := st]> (threads c))) /\
  count active (<[t := st]> (threads c)) = Datatypes.S (A c).
Proof.
  intros Ht Hst. rewrite !count_insert.
  pose proof (count_delete is_waiting t (threads c)). pose proof (count_delete active t (threads c)).
  rewrite Ht in *. destruct Hst as [->|[-> _]]; cbn in *; lia.
Qed.

Lemma counts_notify_one (c : config S M L R) t choice ths' :
  threads c !! t = Some (Notifying false) -> wake_one choice (delete t (threads c)) = Some ths' ->
  ((0 < W c)%nat -> W c = Datatypes.S (count is_waiting ths') /\ count active ths' = A c) /\
  (W c = 0%nat -> count is_waiting ths' = 0%nat).
Proof.
  intros Ht Hw. destruct (counts_leave _ _ _ Ht eq_refl) as [H1 H2].
  apply count_wake_one in Hw as [Hp Hz]. rewrite H1 in *. split; intros H; [|by apply Hz].
  destruct (Hp H). lia.
Qed.

(** The method a thread is inside of, with its locals. *)
Definition inside (st : status M L) : option (M * L) :=
  match st with Waiting m l | Woken m l | TimedOut m l => Some (m, l) | Notifying _ => None end.

Lemma inside_wake st : inside (wake st) = inside st.
Proof. by destruct st. Qed.

Lemma wake_all_inside (ths : gmap tid (status M L)) u st x :
  wake_all ths !! u = Some st -> inside st = x -> exists st0, ths !! u = Some st0 /\ inside st0 = x.
Proof.
  unfold wake_all. rewrite lookup_fmap. destruct (ths !! u) as [st0|]; [|done].
  intros [= <-] <-. exists st0. by rewrite inside_wake.
Qed.

Lemma wake_one_inside choice (ths ths' : gmap tid (status M L)) u st x :
  wake_one choice ths = Some ths' -> ths' !! u = Some st -> inside st = x ->
  exists st0, ths !! u = Some st0 /\ inside st0 = x.
Proof.
  intros [(v & m & l & Hv & ->)|[-> _]]%wake_one_spec; [|by eauto].
  destruct (decide (u = v)) as [->|]; [|rewrite lookup_insert_ne by done; by eauto].
  rewrite lookup_insert_eq. intros [= <-] <-. by exists (Waiting m l).
Qed.

(** A thread inside was inside before with the same locals, or has just come in. *)
Lemma step_inside a (c c' : config S M L R) u st x :
  step a c = Some c' -> threads c' !! u = Some st -> inside st = Some x ->
  (exists st0, threads c !! u = Some st0 /\ inside st0 = Some x) \/
  (threads c !! u = None /\ exists s, m_start (method x.1) u (mon c) = (s, inl x.2)).
Proof.
  intros Hs%step_outcome. destruct Hs as [t m r n choice s c' _ Hc|t m l r Ht _ _|t m l s Hb _|t m l st' Ht Hst|t Ht|t choice ths' Ht Hw];
    cbn [threads].
  - apply complete_spec in Hc as (_ & _ & Hth). intros Hu Hx. left.
    assert ((exists st0, delete t (threads c) !! u = Some st0 /\ inside st0 = Some x) ->
      exists st0, threads c !! u = Some st0 /\ inside st0 = Some x) as Hdel
      by (intros (st0 & [_ ?]%lookup_delete_Some & ?); eauto).
    assert (forall b, <[t := Notifying b]> (threads c) !! u = Some st ->
      exists st0, threads c !! u = Some st0 /\ inside st0 = Some x) as Hins.
    { intros b. destruct (decide (u = t)) as [->|]; [rewrite lookup_insert_eq; intros [= <-]; done|].
      rewrite lookup_insert_ne by done. eauto. }
    destruct n as [|[]|[]]; rewrite ?Hth in Hu; eauto.
    + apply Hdel. by eapply wake_one_inside.
    + apply Hdel. by eapply wake_all_inside.
  - intros [_ ?]%lookup_delete_Some ?. eauto.
  - destruct (decide (u = t)) as [->|]; [|rewrite lookup_insert_ne by done; eauto].
    rewrite lookup_insert_eq. intros [= <-] [= <-]. unfold blocks in Hb. cbn.
    destruct (threads c !! t) as [[]|]; try done; [|right; eauto]. destruct Hb as (-> & -> & _). left. eauto.
  - destruct (decide (u = t)) as [->|]; [|rewrite lookup_insert_ne by done; eauto].
    rewrite lookup_insert_eq. intros [= <-] Hx. left. exists (Waiting m l).
    split; [done|]. by destruct Hst as [->|[-> _]].
  - intros Hu Hx. destruct (wake_all_inside _ _ _ _ Hu Hx) as (st0 & [_ ?]%lookup_delete_Some & ?). eauto.
  - intros Hu Hx. destruct (wake_one_inside _ _ _ _ _ _ Hw Hu Hx) as (st0 & [_ ?]%lookup_delete_Some & ?). eauto.
Qed.

(** Only methods that wait are inside. *)
Definition waits (x : M * L) : Prop := exists t s s', m_start (method x.1) t s = (s', inl x.2).

Definition all_wait (c : config S M L R) : Prop :=
  forall u st x, threads c !! u = Some st -> inside st = Some x -> waits x.

Lemma all_wait_step a c c' : all_wait c -> step a c = Some c' -> all_wait c'.
Proof.
  intros Hi Hs u st x Hu Hx. destruct (step_inside _ _ _ _ _ _ Hs Hu Hx) as [(st0 & ? & ?)|(_ & s & ?)]; [eauto|].
  by exists u, (mon c), s.
Qed.

(** A step that a thread inside a method takes on its own. *)
Definition own_step (a : label M) : bool :=
  match a with Recheck _ _ | Notify _ _ => true | _ => false end.

(** A call of a thread inside takes effect after at most two such steps. *)
Definition moves_on (c : config S M L R) : Prop :=
  exists labels c' t m l s r n, (length labels <= 2)%nat /\ Forall (fun a => own_step a = true) labels /\
    run labels c = Some c' /\ m_finish (method m) t l (mon c) = (s, r, n) /\
    mon c' = s /\ history c' = history c ++ [(t, m, r)].

Lemma recheck_effect (c : config S M L R) t m l :
  threads c !! t = Some (Woken m l) \/ threads c !! t = Some (TimedOut m l) ->
  m_cond (method m) l (mon c) = true ->
  exists choice c' s r n, step (Recheck t choice) c = Some c' /\ m_finish (method m) t l (mon c) = (s, r, n) /\
    mon c' = s /\ history c' = history c ++ [(t, m, r)].
Proof.
  intros Ht Hc. destruct (m_finish (method m) t l (mon c)) as [[s r] n] eqn:E.
  destruct (wake_one_choice (delete t (threads c))) as (choice & ths' & Hw & _). exists choice.
  assert (exists c', complete t m r n choice s (threads c) (history c) = Some c') as [c' Hc'].
  { unfold complete. destruct n as [|[]|[]]; rewrite ?Hw; cbn; eauto. }
  destruct (complete_spec _ _ _ _ _ _ _ _ _ Hc') as (? & ? & _). exists c', s, r, n. split; [|done].
  cbn [step]. destruct Ht as [->| ->]; unfold test; by rewrite Hc, E.
Qed.

Lemma progress (c : config S M L R) :
  (forall u m l, threads c !! u = Some (Waiting m l) \/ threads c !! u = Some (Woken m l) \/
     threads c !! u = Some (TimedOut m l) -> m_cond (method m) l (mon c) = true) ->
  (0 < W c)%nat -> (0 < A c)%nat -> moves_on c.
Proof.
  intros Hall Hw (u & st & Hu & Ha)%count_pos. unfold moves_on.
  assert (forall m l, threads c !! u = Some (Woken m l) \/ threads c !! u = Some (TimedOut m l) -> moves_on c) as H1.
  { intros m l Ht. destruct (recheck_effect c u m l Ht) as (choice & c' & s & r & n & Hs & ? & ? & ?).
    { apply (Hall u). tauto. }
    exists [Recheck u choice], c', u, m, l, s, r, n. split_and!; try done; [cbn; lia|].
    by constructor. }
  destruct (counts_leave _ _ _ Hu Ha) as [Hw' _].
  assert (forall ths v m l a, v <> u -> threads c !! v = Some (Waiting m l) -> ths !! v = Some (Woken m l) ->
    own_step a = true -> step a c = Some (mkConfig (mon c) ths (history c)) -> moves_on c) as H2.
  { intros ths v m l a Hv Hcv Hth Hown Hstep.
    destruct (recheck_effect (mkConfig (mon c) ths (history c)) v m l) as (choice & c' & s & r & n & Hs & ? & ? & ?).
    { by left. }
    { apply (Hall v). by left. }
    exists [a; Recheck v choice], c', v, m, l, s, r, n. split_and!; try done.
    - by repeat constructor.
    - unfold run. cbn. by rewrite Hstep. }
  destruct st as [m l|m l|m l|[]]; [done|apply (H1 m l); by left|apply (H1 m l); by right|..].
  - destruct (proj1 (count_pos is_waiting (delete u (threads c)))) as (v & [m l|m l|m l|b] & Hv & Hst); [lia|..]; try done.
    apply lookup_delete_Some in Hv as [Hne Hv].
    eapply (H2 (wake_all (delete u (threads c))) v m l (Notify u None)); try done.
    + unfold wake_all. rewrite lookup_fmap, lookup_delete_ne, Hv by done. done.
    + cbn [step]. by rewrite Hu.
  - destruct (wake_one_choice (delete u (threads c))) as (choice & ths' & Hch & Hsome).
    destruct Hsome as (v & m & l & -> & Hv & ->); [lia|]. apply lookup_delete_Some in Hv as [Hne Hv].
    eapply (H2 _ v m l (Notify u (Some v))); try done.
    + apply lookup_insert_eq.
    + cbn [step]. by rewrite Hu, Hch.
Qed.
End steps.

(** ** Mutex *)

Definition mutex_event (e : tid * mutex_call * bool) : tid * lock_event :=
  (e.1.1, match e.1.2 with mutex_unlock => Released | _ => if e.2 then Acquired else Refused end).

Lemma mutex_took c t m r n s :
  took c t m r n s ->
  match (mutex_event (t, m, r)).2 with
  | Acquired => mon c = false /\ s = true /\ n = Silent
  | Refused => mon c = true /\ s = true /\ n = Silent
  | Released => s = false /\ n = NotifyOne false
  end.
Proof.
  unfold took. destruct c as [lk ths h]. cbn [threads mon].
  destruct (ths !! t) as [[m' []|m' []|m' []|b]|]; try done.
  1,2: intros (-> & Hc & Hf); destruct m, lk; cbn in *; unfold Mutex_take in *; by simplify_eq.
  destruct m, lk; cbn; intros [H|(s0 & [] & H & Hc & Hf)]; cbn in *; unfold Mutex_take in *; by simplify_eq.
Qed.

Definition mutex_inv (c : config bool mutex_call unit bool) : Prop :=
  agrees (fun holder => mon c = held holder)
    (replay lock_spec None (mutex_event <$> history c)) /\
  (mon c = false -> (0 < count is_waiting (threads c))%nat -> (0 < count active (threads c))%nat).

Lemma mutex_effect c t m r n choice s c' :
  mutex_inv c -> took c t m r n s -> complete t m r n choice s (threads c) (history c) = Some c' ->
  mutex_inv c'.
Proof.
  intros [Hh Hw] Hm%mutex_took Hc. apply complete_spec in Hc as (Hs & Hhist & Hth).
  unfold mutex_inv. rewrite Hhist, fmap_app. csimpl. rewrite replay_snoc, Hs.
  destruct (mutex_event (t, m, r)) as [t' e] eqn:Ee. cbn [snd] in Hm.
  assert (t' = t) as -> by (by injection Ee). split.
  - destruct (replay lock_spec None _) as [a| |]; [|done..]. cbn [agrees] in Hh.
    destruct e, a as [u|]; cbn in *; destruct_and!; simplify_eq; try congruence; try done.
    by case_decide.
  - destruct e; destruct_and!; subst s n; try done. intros _ _. rewrite Hth, count_insert. cbn. lia.
Qed.

Lemma mutex_inv_step a c c' : mutex_inv c -> step a c = Some c' -> mutex_inv c'.
Proof.
  intros Hi Hs%step_outcome. destruct Hs as [?????? c' Htook Hc|t m l r Ht Hcond Hex|t m l s Hb Hcond|t m l st Ht Hst|t Ht|t choice ths' Ht Hw].
  - by eapply mutex_effect.
  - destruct Hi as [Hh Hw].
    assert (mon c = true /\ (mutex_event (t, m, r)) = (t, Refused)) as [Hlk He].
    { destruct m, (mon c); cbn in *; simplify_eq; done. }
    split; cbn [mon history]; [|by rewrite Hlk]. rewrite fmap_app. csimpl. rewrite replay_snoc, He.
    destruct (replay lock_spec None (mutex_event <$> history c)) as [[u|]| |]; cbn in *; congruence.
  - destruct Hi as [Hh Hw].
    assert (s = mon c /\ mon c = true) as [-> Hlk].
    { unfold blocks in Hb. destruct (threads c !! t) as [[]|]; try done.
      - destruct Hb as (-> & -> & ->). by destruct m, (mon c).
      - by destruct m, (mon c); cbn in *; simplify_eq. }
    split; cbn [mon history]; [done|by rewrite Hlk].
  - destruct (counts_wake _ _ _ _ _ Ht Hst). split; cbn [mon history threads]; [apply Hi|]. lia.
  - split; cbn [mon history threads]; [apply Hi|].
    destruct (count_wake_everyone (delete t (threads c))) as [-> _]. lia.
  - destruct (counts_notify_one _ _ _ _ Ht Hw) as [H1 H2]. split; cbn [mon history threads]; [apply Hi|].
    destruct Hi as [_ Hi]. intros Hlk ?. destruct (count is_waiting (threads c)) eqn:E; [rewrite H2 in *; lia|].
    destruct H1; [lia|]. specialize (Hi Hlk). lia.
Qed.

(** Every wait of a mutex is for the same condition. *)
Lemma mutex_cond_free m l : m_cond (method (Monitor := Mutex) m) l false = true.
Proof. by destruct m, l. Qed.

(** C27: a mutex excludes and does not forget: in every interleaving of any threads,
    with spurious wake-ups and timed waits, no two threads hold it at a time and only a
    held lock is refused, unless a thread releases what it does not hold; and when it is
    free while threads wait for it, one of them has it after at most two steps of
    threads that are already inside. *)
Theorem mutex_correct c :
  reachable (Monitor0 := Mutex) false c ->
  agrees (fun holder => mon c = held holder) (replay lock_spec None (mutex_event <$> history c)) /\
  (mon c = false -> (0 < count is_waiting (threads c))%nat -> moves_on c).
Proof.
  intros Hr. assert (mutex_inv c) as [Hh Hw].
  { revert c Hr. apply reachable_ind; [|by intros ???; apply mutex_inv_step]. split; [done|]. cbn.
    unfold count. rewrite map_filter_empty, map_size_empty. lia. }
  split; [done|]. intros Hf HW. apply progress; [|done|by apply Hw].
  intros u m l _. rewrite Hf. apply mutex_cond_free.
Qed.

(** ** RecursiveMutex *)

Definition rec_event (e : tid * recursive_call * bool) : tid * lock_event :=
  (e.1.1, match e.1.2 with rec_unlock => Released | _ => if e.2 then Acquired else Refused end).

(** The holder and how often it holds the lock; releasing what one does not hold
    has no effect. *)
Definition rec_spec (e : tid * lock_event) (holder : option (tid * Z)) : verdict (option (tid * Z)) :=
  match e.2, holder with
  | Acquired, None => Fine (Some (e.1, 1))
  | Acquired, Some (u, n) => if decide (u = e.1) then Fine (Some (u, n + 1)) else Broken
  | Refused, Some (u, n) => if decide (u = e.1) then Broken else Fine holder
  | Refused, None => Broken
  | Released, Some (u, n) =>
      if decide (u = e.1) then Fine (if n =? 1 then None else Some (u, n - 1)) else Fine holder
  | Released, None => Fine None
  end.

Definition rec_held (s : RecursiveMutex) (holder : option (tid * Z)) : Prop :=
  match holder with
  | None => s = mkRecursive None 0
  | Some (u, n) => s = mkRecursive (Some u) n /\ 1 <= n
  end.

Definition rec_inv (c : config RecursiveMutex recursive_call unit bool) : Prop :=
  (exists a, replay rec_spec None (rec_event <$> history c) = Fine a /\ rec_held (mon c) a) /\
  (owner_thread_ (mon c) = None -> (0 < count is_waiting (threads c))%nat -> (0 < count active (threads c))%nat).


Lemma rec_waits x : waits (Monitor0 := Recursive) x -> x = (rec_lock, ()).
Proof. destruct x as [[] []]; [done|..]; intros (t & s & s' & H); cbn in H; repeat case_match; by simplify_eq. Qed.

(** A call takes effect as the specification says; the lock becomes free only with
    a notification. *)
Lemma rec_took c t m r n s a :
  all_wait c -> took c t m r n s -> rec_held (mon c) a ->
  exists a', rec_spec (rec_event (t, m, r)) a = Fine a' /\ rec_held s a' /\
    (owner_thread_ s = None -> n = NotifyOne true \/ (s = mon c /\ n = Silent /\ threads c !! t = None)) /\
    (owner_thread_ s <> None -> n = Silent).
Proof.
  unfold took. intros Hall Ht Ha.
  assert ((exists u, threads c !! u = Some (Woken m ()) \/ threads c !! u = Some (TimedOut m ())) -> m = rec_lock) as Hm.
  { intros (u & [Hu|Hu]); specialize (Hall u _ (m, ()) Hu eq_refl); apply rec_waits in Hall; congruence. }
  destruct c as [st ths h]. cbn [threads mon] in *.
  destruct (ths !! t) as [[m' []|m' []|m' []|b]|] eqn:E; try done.
  1,2: destruct Ht as (-> & Hc & Hf); rewrite Hm in * by eauto; cbn in *; case_bool_decide as Ho; [|done];
    destruct a as [[u q]|]; cbn in Ha; [destruct Ha as [-> _]; done|subst st];
    injection Hf as <- <- <-; exists (Some (t, 1)); by split_and!.
  destruct a as [[u q]|]; cbn in Ha.
  - destruct Ha as [-> Hq]. destruct (decide (u = t)) as [->|Hne].
    + destruct m; cbn in Ht; rewrite ?bool_decide_eq_true_2 in Ht by done; cbn in Ht;
        destruct Ht as [Ht|(? & ? & Ht & _)]; simplify_eq.
      * exists (Some (t, q + 1)). cbn. rewrite decide_True by done. split_and!; try done. lia.
      * exists (Some (t, q + 1)). cbn. rewrite decide_True by done. split_and!; try done. lia.
      * cbn. rewrite decide_True by done. destruct (Z.eqb_spec (q - 1) 0), (Z.eqb_spec q 1); try lia; simplify_eq.
        -- exists None. split_and!; try done. by left.
        -- exists (Some (t, q - 1)). split_and!; try done. split; [done|lia].
      * by destruct (q - 1 =? 0).
    + destruct m; cbn in Ht; rewrite ?bool_decide_eq_false_2 in Ht by congruence; cbn in Ht.
      * destruct Ht as [Ht|(s0 & [] & Ht & Hc & Hf)]; simplify_eq.
      * destruct Ht as [Ht|(s0 & [] & Ht & Hc & Hf)]; simplify_eq. exists (Some (u, q)). cbn.
        rewrite decide_False by done. by split_and!.
      * destruct Ht as [Ht|(s0 & [] & Ht & Hc & Hf)]; simplify_eq. exists (Some (u, q)). cbn.
        rewrite decide_False by done. by split_and!.
  - subst st. destruct m; cbn in Ht; rewrite ?bool_decide_eq_false_2 in Ht by done; cbn in Ht;
      destruct Ht as [Ht|(s0 & [] & Ht & Hc & Hf)]; cbn in *; simplify_eq.
    + exists (Some (t, 1)). by split_and!.
    + exists (Some (t, 1)). by split_and!.
    + exists None. split_and!; try done. by right.
Qed.

Lemma rec_inv_step a c c' : all_wait c /\ rec_inv c -> step a c = Some c' -> all_wait c' /\ rec_inv c'.
Proof.
  intros [Hall [(h & Hh & Ha) Hlive]] Hs. split; [by eapply all_wait_step|].
  apply step_outcome in Hs.
  destruct Hs as [t m r n choice s c' Htook Hc|t m l r Ht Hcond Hex|t m l s Hb Hcond|t m l st Ht Hst|t Ht|t choice ths' Ht Hw].
  - destruct (rec_took _ _ _ _ _ _ _ Hall Htook Ha) as (h' & Hspec & Hh' & Hfree & Hbusy).
    apply complete_spec in Hc as (Hs & Hhist & Hth). split.
    + exists h'. rewrite Hhist, fmap_app. csimpl. by rewrite replay_snoc, Hh, Hs.
    + rewrite Hs. intros Ho Hpos. destruct (Hfree Ho) as [->|(-> & -> & Hnone)].
      * destruct (count_wake_one _ _ _ Hth) as [H1 H2].
        destruct (count is_waiting (delete t (threads c))) eqn:E; [destruct H2; lia|]. destruct H1; lia.
      * rewrite Hth, delete_id in * by done. by apply Hlive.
  - pose proof (Hall t _ (m, l) Ht eq_refl) as Hx%rec_waits. injection Hx as -> ->. done.
  - assert (s = mon c /\ owner_thread_ (mon c) <> None) as [-> Ho].
    { unfold blocks in Hb. destruct (threads c !! t) as [[m' l'|m' l'|m' l'|b]|] eqn:E; try done.
      - destruct Hb as (-> & -> & ->). pose proof (Hall t _ (m, l) E eq_refl) as Hx%rec_waits.
        injection Hx as -> ->. split; [done|]. cbn in Hcond. by case_bool_decide.
      - destruct l, m; cbn in Hb, Hcond; repeat case_match; simplify_eq; split; try done.
        by case_bool_decide. }
    split; cbn [mon history]; [by exists h|done].
  - destruct (counts_wake _ _ _ _ _ Ht Hst). split; cbn [mon history threads]; [by exists h|lia].
  - split; cbn [mon history threads]; [by exists h|].
    destruct (count_wake_everyone (delete t (threads c))) as [-> _]. lia.
  - destruct (counts_notify_one _ _ _ _ Ht Hw) as [H1 H2]. split; cbn [mon history threads]; [by exists h|].
    intros Ho ?. destruct (count is_waiting (threads c)) eqn:E; [rewrite H2 in *; lia|].
    destruct H1; [lia|]. specialize (Hlive Ho). lia.
Qed.

Lemma count_empty {M L} (P : status M L -> bool) : count P ∅ = 0%nat.
Proof. unfold count. by rewrite map_filter_empty. Qed.

(** A recursive mutex is held by one thread at a time, as often as that thread
    took it more than it released it; releasing what one does not hold has no effect,
    try_lock fails exactly when another thread has it, and when it is free while
    threads wait for it, one of them has it after at most two steps. *)
Theorem recursive_mutex_correct c :
  reachable (Monitor0 := Recursive) (mkRecursive None 0) c ->
  (exists holder, replay rec_spec None (rec_event <$> history c) = Fine holder /\ rec_held (mon c) holder) /\
  (owner_thread_ (mon c) = None -> (0 < count is_waiting (threads c))%nat -> moves_on c).
Proof.
  intros Hr. assert (all_wait c /\ rec_inv c) as (Hall & Hh & Hw).
  { revert c Hr. apply reachable_ind; [|by intros ???; apply rec_inv_step].
    split; [by intros ????|]. split; [by exists None|]. cbn. rewrite count_empty. lia. }
  split; [done|]. intros Hf HW. apply progress; [|done|by apply Hw].
  intros u m l Hu. assert ((m, l) = (rec_lock, ())) as [= -> ->].
  { apply rec_waits. destruct Hu as [Hu|[Hu|Hu]]; exact (Hall u _ (m, l) Hu eq_refl). }
  cbn. by rewrite Hf, bool_decide_eq_true_2.
Qed.

(** ** RWLock2 *)

(** The abstract lock: the threads that read, once for each time they hold it, and
    the thread that writes. *)
Definition rw_holders : Type := list tid * option tid.

Fixpoint remove_one (t : tid) (l : list tid) : option (list tid) :=
  match l with
  | [] => None
  | u :: l => if decide (u = t) then Some l else cons u <$> remove_one t l
  end.

Lemma remove_one_length t l l' : remove_one t l = Some l' -> zlen l' = zlen l - 1.
Proof.
  revert l'. induction l as [|u l IH]; intros l'; cbn; [done|]. rewrite zlen_cons.
  case_decide; [intros [= <-]; lia|]. destruct (remove_one t l) as [l1|]; [|done].
  intros [= <-]. rewrite zlen_cons, (IH _ eq_refl). lia.
Qed.

Definition rw_spec (e : tid * rw_call * bool) (a : rw_holders) : verdict rw_holders :=
  let t := e.1.1 in
  let read := match a.2 with None => Fine (t :: a.1, None) | Some _ => Broken end in
  let write := match a with ([], None) => Fine ([], Some t) | _ => Broken end in
  match e.1.2, e.2 with
  | rw_read_lock, _ | rw_try_read, true => read
  | rw_write_lock, _ | rw_try_write, true => write
  | rw_try_read, false => Fine a
  | rw_try_write, false => match a with ([], None) => Broken | _ => Fine a end
  | rw_read_unlock, _ => match remove_one t a.1 with Some rs => Fine (rs, a.2) | None => Misused end
  | rw_write_unlock, _ =>
      match a.2 with Some u => if decide (u = t) then Fine (a.1, None) else Misused | None => Misused end
  end.

(** Threads that came for the write lock and do not have it yet. *)
Definition wants_write (st : status rw_call unit) : bool :=
  match inside st with Some (rw_write_lock, _) => true | _ => false end.

Definition rw_rel (s : RWLock2) (a : rw_holders) : Prop :=
  readers_ s = zlen a.1 /\ writer_active_ s = held a.2 /\ (is_Some a.2 -> a.1 = []).

(** Nobody waits for what is so already. *)
Definition rw_blocked (s : RWLock2) (ths : gmap tid (status rw_call unit)) : Prop :=
  forall u m l, ths !! u = Some (Waiting m l) -> m_cond (method m) l s = false.

Definition rw_inv (c : config RWLock2 rw_call unit bool) : Prop :=
  writers_waiting_ (mon c) = Z.of_nat (count wants_write (threads c)) /\
  agrees (fun a => rw_rel (mon c) a /\ rw_blocked (mon c) (threads c)) (replay rw_spec ([], None) (history c)).

Lemma rw_waits x : waits (Monitor0 := RW2) x -> x = (rw_read_lock, ()) \/ x = (rw_write_lock, ()).
Proof.
  destruct x as [[] []]; auto; intros (t & s & s' & H); cbn in H; repeat case_match; by simplify_eq.
Qed.

(** The effects of the calls, with the state they take effect in: [start] of write_lock
    has counted the writer before. *)
Lemma rw_took (c : config RWLock2 rw_call unit bool) t m r n s :
  all_wait c -> took c t m r n s ->
  exists d : Z, d = Z.of_nat (match threads c !! t with Some st => b2n (wants_write st) | None => 0 end) /\
  let s0 := mon c in
  match m with
  | rw_read_lock => writer_active_ s0 = false /\ writers_waiting_ s0 = 0 /\ d = 0 /\
      s = mkRW (readers_ s0 + 1) (writers_waiting_ s0) false /\ n = Silent
  | rw_write_lock => writer_active_ s0 = false /\ readers_ s0 = 0 /\
      s = mkRW (readers_ s0) (writers_waiting_ s0 - d) true /\ n = Silent
  | rw_read_unlock => d = 0 /\ s = mkRW (readers_ s0 - 1) (writers_waiting_ s0) (writer_active_ s0) /\
      n = if readers_ s0 - 1 =? 0 then NotifyAll true else Silent
  | rw_write_unlock => d = 0 /\ s = mkRW (readers_ s0) (writers_waiting_ s0) false /\ n = NotifyAll true
  | rw_try_read => d = 0 /\ n = Silent /\
      if r then writer_active_ s0 = false /\ writers_waiting_ s0 = 0 /\
                s = mkRW (readers_ s0 + 1) (writers_waiting_ s0) false
      else s = s0
  | rw_try_write => d = 0 /\ n = Silent /\
      if r then writer_active_ s0 = false /\ readers_ s0 = 0 /\ s = mkRW (readers_ s0) (writers_waiting_ s0) true
      else s = s0 /\ (writer_active_ s0 = true \/ readers_ s0 <> 0)
  end.
Proof.
  intros Hall Ht. eexists. split; [done|]. unfold took in Ht.
  destruct (threads c !! t) as [[m' l|m' l|m' l|b]|] eqn:E; try done.
  1,2: destruct Ht as (-> & Hc & Hf); pose proof (rw_waits _ (Hall t _ (m, l) E eq_refl)) as Hm;
    destruct (mon c) as [rd ww wa]; destruct Hm as [[= -> ->]|[= -> ->]];
    cbn in *; apply andb_true_iff in Hc as [Ha%negb_true_iff Hz%Z.eqb_eq]; simplify_eq; cbn; done.
  destruct (mon c) as [rd ww wa]. destruct m; cbn in Ht;
    destruct Ht as [Ht|(s0 & [] & Ht & Hc & Hf)]; cbn in *; repeat case_match; bsplit; simplify_eq; cbn; try done.
  1-4: cbn in *; rewrite Z.eqb_eq in *; subst; split_and!; try done; f_equal; lia.
  destruct wa; cbn in *; [by split_and!; auto|]. rewrite Z.eqb_neq in *. split_and!; try done. right. naive_solver.
Qed.

(** Threads that wait after an effect waited before. *)
Lemma effect_waiting {S M L R} `{!Monitor S M L R} t m r n choice s (c c' : config S M L R) u m' l :
  complete t m r n choice s (threads c) (history c) = Some c' ->
  threads c' !! u = Some (Waiting m' l) ->
  threads c !! u = Some (Waiting m' l) /\ n <> NotifyAll true.
Proof.
  intros (_ & _ & Hth)%complete_spec Hu.
  assert (forall b, <[t := Notifying b]> (threads c) !! u = Some (Waiting m' l) -> threads c !! u = Some (Waiting m' l)) as Hins.
  { intros b. destruct (decide (u = t)) as [->|]; [by rewrite lookup_insert_eq|]. by rewrite lookup_insert_ne. }
  destruct n as [|[]|[]]; try rewrite Hth in Hu; try (split; [by eauto|done]).
  - by apply lookup_delete_Some in Hu as [_ ?].
  - split; [|done]. apply wake_one_spec in Hth as [(v & mv & lv & Hv & Hc')|[Hc' _]]; rewrite Hc' in Hu.
    + destruct (decide (u = v)) as [->|]; [by rewrite lookup_insert_eq in Hu|].
      rewrite lookup_insert_ne in Hu by done. by apply lookup_delete_Some in Hu as [_ ?].
    + by apply lookup_delete_Some in Hu as [_ ?].
  - unfold wake_all in Hu. rewrite lookup_fmap in Hu. by destruct (delete t (threads c) !! u) as [[]|].
Qed.

(** The number of threads inside a method after an effect. *)
Lemma effect_inside {S M L R} `{!Monitor S M L R} (P : status M L -> bool) t m r n choice s (c c' : config S M L R) :
  (forall st, P (wake st) = P st) -> (forall b, P (Notifying b) = false) ->
  complete t m r n choice s (threads c) (history c) = Some c' ->
  count P (threads c) = (count P (threads c') + match threads c !! t with Some st => b2n (P st) | None => 0 end)%nat.
Proof.
  intros Hwake Hn (_ & _ & Hth)%complete_spec. rewrite (count_delete P t (threads c)). f_equal.
  destruct n as [|[]|[]]; rewrite ?Hth, ?count_insert, ?Hn; cbn; try lia.
  - apply wake_one_spec in Hth as [(v & mv & lv & Hv & ->)|[-> _]]; [|done].
    rewrite count_insert, (count_delete P v (delete t (threads c))), Hv. by rewrite <-(Hwake (Waiting mv lv)).
  - rewrite count_wake_all. by apply count_ext.
Qed.

Lemma rw_cond_read l s : m_cond (method (Monitor := RW2) rw_read_lock) l s = negb (writer_active_ s) && (writers_waiting_ s =? 0).
Proof. done. Qed.
Lemma rw_cond_write l s : m_cond (method (Monitor := RW2) rw_write_lock) l s = negb (writer_active_ s) && (readers_ s =? 0).
Proof. done. Qed.

(** Conditions that were false stay so. *)
Lemma rw_blocked_keep s s' ths (ths' : gmap tid (status rw_call unit)) :
  rw_blocked s ths ->
  (forall u st x, ths !! u = Some st -> inside st = Some x -> waits (Monitor0 := RW2) x) ->
  (forall u m l, ths' !! u = Some (Waiting m l) -> ths !! u = Some (Waiting m l)) ->
  (writer_active_ s' = false -> writer_active_ s = false) ->
  (writer_active_ s' = false -> writers_waiting_ s' = 0 -> writers_waiting_ s = 0) ->
  (writer_active_ s' = false -> readers_ s' = 0 -> readers_ s = 0) ->
  rw_blocked s' ths'.
Proof.
  intros Hb Hall Hsub Ha Hw Hr u m l Hu%Hsub. specialize (Hb u m l Hu).
  destruct (rw_waits (m, l) (Hall u _ (m, l) Hu eq_refl)) as [[= -> ->]|[= -> ->]].
  - rewrite rw_cond_read in *. destruct (writer_active_ s'); [done|]. rewrite Ha in Hb by done. cbn in *.
    rewrite Z.eqb_neq in *. auto.
  - rewrite rw_cond_write in *. destruct (writer_active_ s'); [done|]. rewrite Ha in Hb by done. cbn in *.
    rewrite Z.eqb_neq in *. auto.
Qed.

Lemma zlen_zero {A} (l : list A) : zlen l = 0 -> l = [].
Proof. destruct l; [done|]. rewrite zlen_cons. pose proof (zlen_nonneg l). lia. Qed.

(** Each effect is one of the abstract lock. *)
Lemma rw_took_spec c t m r n s a :
  all_wait c -> took c t m r n s -> rw_rel (mon c) a -> agrees (rw_rel s) (rw_spec (t, m, r) a).
Proof.
  intros Hall Ht. destruct a as [rs w]. intros (Hr & Hact & Hx).
  destruct (rw_took _ _ _ _ _ _ Hall Ht) as (d & _ & Hm). cbv zeta in Hm. cbn [fst snd] in *.
  assert (forall q, writer_active_ (mon c) = false ->
    agrees (rw_rel (mkRW (readers_ (mon c) + 1) q false))
      (match w with None => Fine (t :: rs, None) | Some _ => Broken end)) as Hread.
  { intros q Hf. rewrite Hf in Hact. destruct w; [done|].
    split_and!; cbn; [rewrite zlen_cons; lia|done|by intros [? ?]]. }
  assert (forall q, writer_active_ (mon c) = false -> readers_ (mon c) = 0 ->
    agrees (rw_rel (mkRW (readers_ (mon c)) q true))
      (match (rs, w) with ([], None) => Fine ([], Some t) | _ => Broken end)) as Hwrite.
  { intros q Hf Hz. rewrite Hf in Hact. destruct w; [done|]. rewrite Hz in Hr.
    rewrite (zlen_zero rs) by done. by split_and!. }
  unfold rw_spec. destruct m; cbn [fst snd].
  - destruct Hm as (Hf & _ & _ & -> & _). by apply Hread.
  - destruct Hm as (_ & -> & _). destruct (remove_one t rs) as [rs'|] eqn:E; [|done].
    apply remove_one_length in E as Hl. split_and!; cbn; [lia|done|]. intros Hw. by rewrite (Hx Hw) in E.
  - destruct Hm as (Hf & Hz & -> & _). by apply Hwrite.
  - destruct Hm as (_ & -> & _). destruct w as [u|]; [|done]. cbn. case_decide; [|done].
    split_and!; cbn; [done|done|by intros [? ?]].
  - destruct r; [|by destruct Hm as (_ & _ & ->)]. destruct Hm as (_ & _ & Hf & Hz & ->). by apply Hread.
  - destruct r; [destruct Hm as (_ & _ & Hf & Hz & ->); by apply Hwrite|].
    destruct Hm as (_ & _ & -> & Hno). assert (rw_rel (mon c) (rs, w)) as Hrel by by split_and!.
    destruct rs as [|u rs], w as [v|]; try exact Hrel. cbn in *. destruct Hno as [|Hno]; [congruence|by rewrite Hr in Hno].
Qed.

(** After an effect the threads that still wait have reason to. *)
Lemma rw_took_blocked c t m r n choice s c' a :
  all_wait c -> took c t m r n s -> rw_rel (mon c) a -> rw_blocked (mon c) (threads c) ->
  complete t m r n choice s (threads c) (history c) = Some c' -> rw_blocked s (threads c').
Proof.
  intros Hall Ht (Hr & _) Hb Hc. destruct (rw_took _ _ _ _ _ _ Hall Ht) as (d & _ & Hm). cbv zeta in Hm.
  pose proof (fun u m' l => effect_waiting t m r n choice s c c' u m' l Hc) as Hwait.
  assert (n = NotifyAll true -> forall s, rw_blocked s (threads c')) as Hall'.
  { intros -> s1 u m' l Hu. by destruct (Hwait _ _ _ Hu). }
  pose proof (zlen_nonneg a.1) as Hpos.
  assert (forall s', (writer_active_ s' = false -> writer_active_ (mon c) = false) ->
    (writer_active_ s' = false -> writers_waiting_ s' = 0 -> writers_waiting_ (mon c) = 0) ->
    (writer_active_ s' = false -> readers_ s' = 0 -> readers_ (mon c) = 0) -> rw_blocked s' (threads c')) as Hkeep.
  { intros s' H1 H2 H3. eapply rw_blocked_keep; [exact Hb|exact Hall| |done..].
    intros u m' l Hu. by apply Hwait in Hu as [? _]. }
  destruct m; [| | | |destruct r|destruct r]; destruct_and!; subst s; try (by apply Hkeep); try (by apply Hall').
  1,3: apply Hkeep; cbn; try done; lia.
  destruct (Z.eqb_spec (readers_ (mon c) - 1) 0); [by apply Hall'|]. by apply Hkeep.
Qed.

Lemma rw_effect c t m r n choice s c' :
  all_wait c -> rw_inv c -> took c t m r n s ->
  complete t m r n choice s (threads c) (history c) = Some c' -> rw_inv c'.
Proof.
  intros Hall [Hww Ha] Ht Hc. pose proof (complete_spec _ _ _ _ _ _ _ _ _ Hc) as (Hs & Hhist & _).
  pose proof (effect_inside wants_write _ _ _ _ _ _ _ _ ltac:(by intros []) ltac:(done) Hc) as Hcnt.
  destruct (rw_took _ _ _ _ _ _ Hall Ht) as (d & Hd & Hm). cbv zeta in Hm.
  assert (writers_waiting_ s = writers_waiting_ (mon c) - d) as Hwd.
  { clear -Hm. destruct m; [..|destruct r|destruct r]; destruct_and!; subst s; cbn; lia. }
  split; [rewrite Hs, Hwd; lia|]. rewrite Hhist, replay_snoc, Hs.
  destruct (replay rw_spec ([], None) (history c)) as [a| |]; [|done..]. destruct Ha as [Hrel Hb].
  pose proof (rw_took_spec _ _ _ _ _ _ _ Hall Ht Hrel) as Hspec.
  pose proof (rw_took_blocked _ _ _ _ _ _ _ _ _ Hall Ht Hrel Hb Hc).
  destruct (rw_spec (t, m, r) a); cbn in *; auto.
Qed.

(** Wake-ups and notifications. *)
Definition quiet {M L} (ths ths' : gmap tid (status M L)) : Prop :=
  (exists t m l st, ths !! t = Some (Waiting m l) /\ (st = Woken m l \/ st = TimedOut m l) /\
     ths' = <[t := st]> ths) \/
  (exists t, ths !! t = Some (Notifying true) /\ ths' = wake_all (delete t ths)) \/
  (exists t choice, ths !! t = Some (Notifying false) /\ wake_one choice (delete t ths) = Some ths').

(** Nobody comes or goes, and no one waits who did not. *)
Lemma quiet_inside {M L} (ths ths' : gmap tid (status M L)) u st x :
  quiet ths ths' -> ths' !! u = Some st -> inside st = Some x ->
  exists st0, ths !! u = Some st0 /\ inside st0 = Some x.
Proof.
  intros [(t & m & l & st' & Ht & Hst & ->)|[(t & Ht & ->)|(t & choice & Ht & Hc)]] Hu Hx.
  - destruct (decide (u = t)) as [->|]; [|rewrite lookup_insert_ne in Hu by done; eauto].
    rewrite lookup_insert_eq in Hu. injection Hu as <-. exists (Waiting m l). split; [done|].
    by destruct Hst as [->| ->].
  - destruct (wake_all_inside _ _ _ _ Hu Hx) as (st0 & [_ ?]%lookup_delete_Some & ?). eauto.
  - destruct (wake_one_inside _ _ _ _ _ _ Hc Hu Hx) as (st0 & [_ ?]%lookup_delete_Some & ?). eauto.
Qed.

Lemma quiet_count {M L} (P : status M L -> bool) (ths ths' : gmap tid (status M L)) :
  (forall st, P (wake st) = P st) -> (forall b, P (Notifying b) = false) ->
  (forall m l, P (TimedOut m l) = P (Waiting m l)) -> quiet ths ths' ->
  count P ths' = count P ths /\
  forall u m l, ths' !! u = Some (Waiting m l) -> ths !! u = Some (Waiting m l).
Proof.
  intros Hw Hn Hto [(t & m & l & st & Ht & Hst & ->)|[(t & Ht & ->)|(t & choice & Ht & Hc)]].
  - split.
    + rewrite count_insert, (count_delete P t ths), Ht.
      destruct Hst as [->| ->]; [by rewrite <-(Hw (Waiting m l))|by rewrite Hto].
    + intros u m' l'. destruct (decide (u = t)) as [->|]; [|by rewrite lookup_insert_ne].
      rewrite lookup_insert_eq. by destruct Hst as [->| ->].
  - rewrite count_wake_all, (count_delete P t ths), Ht, Hn. cbn. rewrite Nat.add_0_r. split.
    + by apply count_ext.
    + intros u m l. unfold wake_all. rewrite lookup_fmap. by destruct (delete t ths !! u) as [[]|].
  - rewrite (count_delete P t ths), Ht, Hn. cbn. rewrite Nat.add_0_r.
    apply wake_one_spec in Hc as [(v & m & l & Hv & ->)|[-> _]].
    + split; [rewrite count_insert, (count_delete P v (delete t ths)), Hv; by rewrite <-(Hw (Waiting m l))|].
      intros u m' l'. destruct (decide (u = v)) as [->|]; [by rewrite lookup_insert_eq|].
      rewrite lookup_insert_ne by done. by intros [_ ?]%lookup_delete_Some.
    + split; [done|]. by intros u m l [_ ?]%lookup_delete_Some.
Qed.

Lemma quiet_wakes {S M L R} `{!Monitor S M L R} (ths : gmap tid (status M L)) t m l st :
  ths !! t = Some (Waiting m l) ->
  st = Woken m l \/ (st = TimedOut m l /\ is_Some (m_expired (method m))) -> quiet ths (<[t := st]> ths).
Proof. intros Ht Hst. left. exists t, m, l, st. split_and!; try done. destruct Hst as [->|[-> _]]; auto. Qed.

Lemma rw_quiet c ths' :
  rw_inv c -> quiet (threads c) ths' -> rw_inv (mkConfig (mon c) ths' (history c)).
Proof.
  intros [Hww Ha] Hq. destruct (quiet_count wants_write (threads c) ths') as [Hc Hw]; try done; [by intros []|]. split; cbn [mon threads history]; [by rewrite Hc|].
  destruct (replay _ _ _); [|done..]. destruct Ha as [? Hb]. split; [done|]. intros u m l Hu. eapply Hb, Hw, Hu.
Qed.

Lemma rw_inv_step a c c' : all_wait c /\ rw_inv c -> step a c = Some c' -> all_wait c' /\ rw_inv c'.
Proof.
  intros [Hall Hi] Hs. split; [by eapply all_wait_step|]. apply step_outcome in Hs.
  destruct Hs as [t m r n choice s c' Htook Hc|t m l r Ht Hcond Hex|t m l s Hb Hcond|t m l st Ht Hst|t Ht|t choice ths' Ht Hw].
  - by eapply rw_effect.
  - by destruct m.
  - destruct Hi as [Hww Ha].
    assert (writers_waiting_ s = Z.of_nat (count wants_write (<[t := Waiting m l]> (threads c))) /\
      readers_ s = readers_ (mon c) /\ writer_active_ s = writer_active_ (mon c) /\
      writers_waiting_ (mon c) <= writers_waiting_ s) as (Hw & Hr & Hact & Hle).
    { rewrite count_insert. pose proof (count_delete wants_write t (threads c)) as Hcd. unfold blocks in Hb.
      destruct (threads c !! t) as [[]|]; try done.
      - destruct Hb as (-> & -> & ->). change (wants_write (Woken m l)) with (wants_write (Waiting m l)) in Hcd.
        split_and!; [lia|done..].
      - destruct m, l; cbn in Hb; repeat case_match; simplify_eq; cbn; split_and!; try done; lia. }
    split; cbn [mon threads history]; [done|]. destruct (replay _ _ _) as [rw| |]; [|done..].
    destruct Ha as [Hrel Hbl]. split; [by unfold rw_rel; rewrite Hr, Hact|].
    intros u m' l' Hu. destruct (decide (u = t)) as [->|Hne].
    + rewrite lookup_insert_eq in Hu. by injection Hu as <- <-.
    + rewrite lookup_insert_ne in Hu by done.
      eapply (rw_blocked_keep (mon c) s (threads c) (threads c)); try done; rewrite ?Hact; try done; try lia.
  - eapply rw_quiet; [done|]. by eapply quiet_wakes.
  - eapply rw_quiet; [done|]. right. left. eauto.
  - eapply rw_quiet; [done|]. right. right. eauto.
Qed.

(** C28: a read-write lock with preference for writers: in every interleaving in which
    threads release what they hold, there are readers or one writer and no one else,
    refusals of the write lock have a cause, no thread waits for a condition that
    holds; always the counter of waiting writers is exact, and while there is one no
    step lets a reader in. *)
Theorem rwlock2_correct c :
  reachable (Monitor0 := RW2) new_rwlock2 c ->
  agrees (fun a => rw_rel (mon c) a /\ rw_blocked (mon c) (threads c)) (replay rw_spec ([], None) (history c)) /\
  writers_waiting_ (mon c) = Z.of_nat (count wants_write (threads c)) /\
  forall a c', step a c = Some c' -> (0 < count wants_write (threads c))%nat ->
    readers_ (mon c') <= readers_ (mon c).
Proof.
  intros Hr. assert (all_wait c /\ rw_inv c) as (Hall & Hww & Ha).
  { revert c Hr. apply reachable_ind; [|by intros ???; apply rw_inv_step].
    split; [by intros ????|]. split; [done|]. split; [by split_and!|done]. }
  split_and!; [done..|]. intros a c' Hs Hpos. apply step_outcome in Hs.
  destruct Hs as [t m r n choice s c' Htook Hc|t m l r Ht Hcond Hex|t m l s Hb Hcond|t m l st Ht Hst|t Ht|t choice ths' Ht Hw];
    cbn [mon]; try lia.
  - destruct (rw_took _ _ _ _ _ _ Hall Htook) as (d & _ & Hm). cbv zeta in Hm.
    apply complete_spec in Hc as (-> & _).
    destruct m; [..|destruct r|destruct r]; destruct_and!; subst s; cbn; lia.
  - unfold blocks in Hb. destruct (threads c !! t) as [[]|]; try done; [destruct Hb as (_ & _ & ->); lia|].
    destruct m, l; cbn in Hb; repeat case_match; simplify_eq; cbn; lia.
Qed.

(** ** Semaphore *)

Definition sem_spec (e : tid * sem_call * bool) (n : Z) : verdict Z :=
  match e.1.2, e.2 with
  | sem_post, _ => Fine (Z.min (n + 1) (Z.max n max_count_))
  | sem_post_all, _ => Fine max_count_
  | _, true => if 0 <? n then Fine (n - 1) else Broken
  | _, false => if 0 <? n then Broken else Fine n
  end.

(** Somebody is about to wake all. *)
Definition notifies_all {M L} (st : status M L) : bool := match st with Notifying b => b | _ => false end.

Definition sem_live (n : Z) (ths : gmap tid (status sem_call unit)) : Prop :=
  (0 < count is_waiting ths)%nat -> n <= Z.of_nat (count active ths) \/ (0 < count notifies_all ths)%nat.

Definition sem_inv (init : Z) (c : config Z sem_call unit bool) : Prop :=
  replay sem_spec init (history c) = Fine (mon c) /\ sem_live (mon c) (threads c).

Lemma sem_waits x : waits (Monitor0 := Semaphore) x -> x.1 = sem_wait \/ x.1 = sem_wait_for.
Proof. destruct x as [[] []]; auto; intros (t & s & s' & H); cbn in H; repeat case_match; by simplify_eq. Qed.

Lemma sem_took c t m r n s :
  all_wait c -> took c t m r n s ->
  sem_spec (t, m, r) (mon c) = Fine s /\
  match m with
  | sem_post => s <= mon c + 1 /\ n = NotifyOne false /\ threads c !! t = None
  | sem_post_all => n = NotifyAll false /\ threads c !! t = None
  | _ => n = Silent /\ (r = true -> s = mon c - 1) /\ (r = false -> s = mon c /\ threads c !! t = None)
  end.
Proof.
  intros Hall Ht. unfold took in Ht.
  destruct (threads c !! t) as [[m' l|m' l|m' l|b]|] eqn:E; try done.
  1,2: destruct Ht as (-> & Hc & Hf); pose proof (sem_waits _ (Hall t _ (m, l) E eq_refl)) as Hm;
    cbn [fst] in Hm; destruct Hm as [-> | ->]; cbn in *; unfold Semaphore_take in *; simplify_eq; cbn; by rewrite Hc.
  destruct m; cbn in Ht; unfold Semaphore_take in *; destruct Ht as [Ht|(s0 & [] & Ht & Hc & Hf)]; simplify_eq; cbn in *; simplify_eq; cbn.
  - by rewrite Hc.
  - destruct (0 <? mon c); by simplify_eq.
  - by destruct (0 <? mon c).
  - by rewrite Hc.
  - unfold sem_spec. cbn. destruct (Z.ltb_spec (mon c) max_count_); (split; [f_equal; lia|split_and!; [lia|done..]]).
  - done.
Qed.

(** The counts relative to the other threads. *)
Ltac count_at t ths :=
  pose proof (count_delete is_waiting t ths); pose proof (count_delete active t ths);
  pose proof (count_delete notifies_all t ths).

Lemma took_status {S M L R} `{!Monitor S M L R} (c : config S M L R) t m r n s :
  took c t m r n s ->
  threads c !! t = None \/ exists l, threads c !! t = Some (Woken m l) \/ threads c !! t = Some (TimedOut m l).
Proof.
  unfold took. destruct (threads c !! t) as [[]|]; try done; [..|by left]; intros (-> & _); right; eauto.
Qed.

Lemma notifies_all_one {S M L R} `{!Monitor S M L R} (c : config S M L R) t choice ths' :
  threads c !! t = Some (Notifying false) -> wake_one choice (delete t (threads c)) = Some ths' ->
  count notifies_all ths' = count notifies_all (threads c).
Proof.
  intros Ht Hw. rewrite (count_delete notifies_all t (threads c)), Ht. cbn. rewrite Nat.add_0_r.
  apply wake_one_spec in Hw as [(v & m & l & Hv & ->)|[-> _]]; [|done].
  by rewrite count_insert, (count_delete notifies_all v (delete t (threads c))), Hv.
Qed.

Lemma notifies_all_wake {S M L R} `{!Monitor S M L R} (c : config S M L R) t m l st :
  threads c !! t = Some (Waiting m l) ->
  st = Woken m l \/ (st = TimedOut m l /\ is_Some (m_expired (method m))) ->
  count notifies_all (<[t := st]> (threads c)) = count notifies_all (threads c).
Proof.
  intros Ht Hst. rewrite count_insert, (count_delete notifies_all t (threads c)), Ht.
  by destruct Hst as [->|[-> _]].
Qed.

Lemma sem_effect init c t m r n choice s c' :
  all_wait c -> sem_inv init c -> took c t m r n s ->
  complete t m r n choice s (threads c) (history c) = Some c' -> sem_inv init c'.
Proof.
  intros Hall [Hh Hl] Ht Hc. apply complete_spec in Hc as (Hs & Hhist & Hth).
  destruct (sem_took _ _ _ _ _ _ Hall Ht) as [Hspec Hm].
  split; [by rewrite Hhist, replay_snoc, Hh, Hs|]. rewrite Hs. clear Hs Hspec Hhist Hh.
  unfold sem_live in *. count_at t (threads c).
  assert (n = Silent /\ (s = mon c - 1 \/ s = mon c /\ threads c !! t = None) \/
    (n = NotifyOne false /\ s <= mon c + 1 /\ threads c !! t = None) \/
    (n = NotifyAll false /\ threads c !! t = None)) as Hcase.
  { destruct m; [left..|right; left; tauto|right; right; tauto];
      (split; [apply Hm|]); (destruct r; [left|right]); by apply Hm. }
  destruct Hcase as [[-> Hs]|[(-> & Hs & Hn)|[-> Hn]]]; rewrite Hth, ?count_insert; cbn.
  - destruct (took_status _ _ _ _ _ _ Ht) as [E|(l & [E|E])]; rewrite E in *; cbn in *; destruct Hs; destruct_and?; try done; lia.
  - rewrite Hn in *. lia.
  - rewrite Hn in *. lia.
Qed.

Lemma sem_inv_step init a c c' :
  all_wait c /\ sem_inv init c -> step a c = Some c' -> all_wait c' /\ sem_inv init c'.
Proof.
  intros [Hall Hi] Hs. split; [by eapply all_wait_step|]. apply step_outcome in Hs.
  destruct Hs as [t m r n choice s c' Htook Hc|t m l r Ht Hcond Hex|t m l s Hb Hcond|t m l st Ht Hst|t Ht|t choice ths' Ht Hw].
  - by eapply sem_effect.
  - destruct Hi as [Hh Hl].
    assert ((0 <? mon c) = false /\ m = sem_wait_for /\ r = false) as (Hz & -> & ->)
      by (destruct m; cbn in *; by simplify_eq).
    split; cbn [mon history threads].
    + by rewrite replay_snoc, Hh; cbn; rewrite Hz.
    + intros _. left. apply Z.ltb_ge in Hz. lia.
  - destruct Hi as [Hh Hl].
    assert (s = mon c /\ (0 <? mon c) = false) as [-> Hz].
    { unfold blocks in Hb. destruct (threads c !! t) as [[]|]; try done.
      - destruct Hb as (-> & -> & ->). by destruct m, l.
      - destruct m, l; cbn in Hb, Hcond; repeat case_match; by simplify_eq. }
    split; cbn [mon history threads]; [done|]. intros _. left. apply Z.ltb_ge in Hz. lia.
  - destruct (counts_wake _ _ _ _ _ Ht Hst). split; cbn [mon history threads]; [apply Hi|].
    destruct Hi as [_ Hl]. unfold sem_live in *. intros _.
    rewrite (notifies_all_wake _ _ _ _ _ Ht Hst). lia.
  - split; cbn [mon history threads]; [apply Hi|]. unfold sem_live.
    destruct (count_wake_everyone (delete t (threads c))) as [-> _]. lia.
  - destruct (counts_notify_one _ _ _ _ Ht Hw) as [H1 H2]. split; cbn [mon history threads]; [apply Hi|].
    destruct Hi as [_ Hl]. unfold sem_live in *. intros Hpos.
    rewrite (notifies_all_one _ _ _ _ Ht Hw).
    destruct (count is_waiting (threads c)) eqn:E; [rewrite H2 in *; lia|]. destruct H1; lia.
Qed.

(** How many calls of a history are of a kind. *)
Definition number {E} (P : E -> bool) (h : list E) : Z := zlen (filter (fun e => P e = true) h).

Lemma number_snoc {E} (P : E -> bool) h e : number P (h ++ [e]) = number P h + if P e then 1 else 0.
Proof.
  unfold number. rewrite filter_app, zlen_app. f_equal. rewrite filter_cons, filter_nil.
  destruct (P e); by case_decide.
Qed.

Definition took_unit (e : tid * sem_call * bool) : bool :=
  match e.1.2 with sem_wait | sem_try_wait | sem_wait_for => e.2 | _ => false end.
Definition gave_unit (e : tid * sem_call * bool) : bool :=
  match e.1.2 with sem_post => true | _ => false end.
Definition gave_all (e : tid * sem_call * bool) : bool :=
  match e.1.2 with sem_post_all => true | _ => false end.

Lemma sem_conserves init h n :
  0 <= init -> replay sem_spec init h = Fine n -> number gave_all h = 0 ->
  0 <= n /\ number took_unit h + n <= init + number gave_unit h.
Proof.
  intros Hi. revert n. induction h as [|e h IH] using rev_ind; intros n Hr Hn.
  - injection Hr as <-. unfold number. cbn. lia.
  - rewrite replay_snoc in Hr. rewrite !number_snoc in *.
    assert (0 <= number gave_all h) by apply zlen_nonneg.
    destruct (replay sem_spec init h) as [n0| |]; [|done..].
    destruct (IH n0 eq_refl) as [H0 H1]; [destruct (gave_all e); lia|].
    destruct e as [[t []] []]; unfold sem_spec in Hr; cbn in *;
      try destruct (Z.ltb_spec 0 n0); simplify_eq; unfold max_count_; lia.
Qed.

(** A semaphore hands out what it has: a wait succeeds exactly when the counter is
    positive and is refused exactly when it is not; without post_all the waits that
    succeeded are at most the initial count and the posts together; and while the
    counter is positive and threads wait, one of them goes on after at most two steps. *)
Theorem semaphore_correct init c :
  reachable (Monitor0 := Semaphore) init c ->
  replay sem_spec init (history c) = Fine (mon c) /\
  (0 <= init -> number gave_all (history c) = 0 ->
     0 <= mon c /\ number took_unit (history c) + mon c <= init + number gave_unit (history c)) /\
  (0 < mon c -> (0 < count is_waiting (threads c))%nat -> moves_on c).
Proof.
  intros Hr. assert (all_wait c /\ sem_inv init c) as (Hall & Hh & Hl).
  { revert c Hr. apply reachable_ind; [|by intros ???; apply sem_inv_step].
    split; [by intros ????|]. split; [done|]. unfold sem_live. cbn. rewrite count_empty. lia. }
  split_and!; [done|by intros; apply sem_conserves|]. intros Hpos HW. apply progress; [|done|].
  - intros u m l Hu. assert (m = sem_wait \/ m = sem_wait_for) as Hm.
    { apply (sem_waits (m, l)). destruct Hu as [Hu|[Hu|Hu]]; exact (Hall u _ (m, l) Hu eq_refl). }
    destruct Hm as [-> | ->]; cbn; by apply Z.ltb_lt.
  - destruct (Hl HW) as [?|(u & st & Hu & Hn)%count_pos]; [lia|]. apply count_pos. exists u, st.
    split; [done|]. by destruct st.
Qed.

(** ** CountDownLatch *)

Definition counted (e : tid * latch_call * bool) : bool :=
  match e.1.2 with latch_count_down => true | _ => false end.

Definition latch_inv (init : Z) (c : config Z latch_call unit bool) : Prop :=
  mon c = (if init <? 0 then init else Z.max 0 (init - number counted (history c))) /\
  ((0 < count is_waiting (threads c))%nat -> mon c <> 0 \/ (0 < count notifies_all (threads c))%nat).

Lemma latch_waits x : waits (Monitor0 := CountDownLatch) x -> x.1 = latch_wait \/ x.1 = latch_wait_for.
Proof. destruct x as [[] []]; auto; intros (t & s & s' & H); cbn in H; repeat case_match; by simplify_eq. Qed.

Lemma latch_took c t m r n s :
  all_wait c -> took c t m r n s ->
  match m with
  | latch_count_down => s = (if 0 <? mon c then mon c - 1 else mon c) /\ r = true /\
      threads c !! t = None /\ n = if s =? 0 then NotifyAll false else Silent
  | _ => mon c = 0 /\ s = 0 /\ n = Silent /\ r = true
  end.
Proof.
  intros Hall Ht. unfold took in Ht.
  destruct (threads c !! t) as [[m' l|m' l|m' l|b]|] eqn:E; try done.
  1,2: destruct Ht as (-> & Hc & Hf); pose proof (latch_waits _ (Hall t _ (m, l) E eq_refl)) as Hm;
    cbn [fst] in Hm; destruct Hm as [-> | ->]; cbn in *; apply Z.eqb_eq in Hc; simplify_eq; by rewrite Hc.
  destruct m; cbn in Ht; destruct Ht as [Ht|(s0 & [] & Ht & Hc & Hf)]; simplify_eq; cbn in *; simplify_eq.
  1,2: apply Z.eqb_eq in Hc; by rewrite Hc.
  done.
Qed.

Lemma latch_effect init c t m r n choice s c' :
  all_wait c -> latch_inv init c -> took c t m r n s ->
  complete t m r n choice s (threads c) (history c) = Some c' -> latch_inv init c'.
Proof.
  intros Hall [Hh Hl] Ht Hc. apply complete_spec in Hc as (Hs & Hhist & Hth).
  pose proof (latch_took _ _ _ _ _ _ Hall Ht) as Hm. pose proof (took_status _ _ _ _ _ _ Ht) as Hst.
  unfold latch_inv. rewrite Hs, Hhist, number_snoc. clear Hs Hhist Ht. count_at t (threads c).
  assert (m = latch_count_down \/ (mon c = 0 /\ s = 0 /\ n = Silent /\ counted (t, m, r) = false)) as [->|(Hz0 & -> & -> & ->)].
  { destruct m; [right..|by left]; by destruct_and!. }
  - destruct Hm as (Hsv & _ & Hnone & Hn). rewrite Hnone in *. cbn.
    split; [destruct (Z.ltb_spec init 0), (Z.ltb_spec 0 (mon c)); lia|].
    destruct (Z.eqb_spec s 0) as [Hz|Hz]; [|by left]. intros _. right. subst n. rewrite Hth, count_insert. cbn. lia.
  - split; [destruct (Z.ltb_spec init 0); lia|]. rewrite Hth.
    destruct Hst as [E|(l & [E|E])]; rewrite E in *; cbn in *; lia.
Qed.

Lemma latch_inv_step init a c c' :
  all_wait c /\ latch_inv init c -> step a c = Some c' -> all_wait c' /\ latch_inv init c'.
Proof.
  intros [Hall Hi] Hs. split; [by eapply all_wait_step|]. apply step_outcome in Hs.
  destruct Hs as [t m r n choice s c' Htook Hc|t m l r Ht Hcond Hex|t m l s Hb Hcond|t m l st Ht Hst|t Ht|t choice ths' Ht Hw].
  - by eapply latch_effect.
  - destruct Hi as [Hh Hl].
    assert (mon c <> 0 /\ counted (t, m, r) = false) as (Hz & Hc)
      by (destruct m; cbn in *; try done; by rewrite Z.eqb_neq in Hcond).
    split; cbn [mon history threads]; [rewrite number_snoc, Hc; by rewrite Z.add_0_r|by left].
  - destruct Hi as [Hh Hl].
    assert (s = mon c /\ mon c <> 0) as [-> Hz].
    { unfold blocks in Hb. destruct (threads c !! t) as [[]|]; try done.
      - destruct Hb as (-> & -> & ->). destruct m, l; cbn in Hcond; try done; by rewrite Z.eqb_neq in Hcond.
      - destruct m, l; cbn in Hb, Hcond; simplify_eq; by rewrite Z.eqb_neq in Hcond. }
    split; cbn [mon history threads]; [done|by left].
  - destruct (counts_wake _ _ _ _ _ Ht Hst). split; cbn [mon history threads]; [apply Hi|].
    rewrite (notifies_all_wake _ _ _ _ _ Ht Hst). intros _. apply Hi. lia.
  - split; cbn [mon history threads]; [apply Hi|].
    destruct (count_wake_everyone (delete t (threads c))) as [-> _]. lia.
  - destruct (counts_notify_one _ _ _ _ Ht Hw) as [H1 H2]. split; cbn [mon history threads]; [apply Hi|].
    rewrite (notifies_all_one _ _ _ _ Ht Hw). intros Hpos. apply Hi.
    destruct (count is_waiting (threads c)) eqn:E; [rewrite H2 in *; lia|lia].
Qed.

(** A latch opens after as many calls of count_down as it was made with and stays
    open; no thread waits at an open latch unless the notification is under way, and
    then one of them goes on after at most two steps. A latch made with a negative
    count never opens. *)
Theorem latch_correct init c :
  reachable (Monitor0 := CountDownLatch) init c ->
  mon c = (if init <? 0 then init else Z.max 0 (init - number counted (history c))) /\
  (mon c = 0 -> (0 < count is_waiting (threads c))%nat -> moves_on c).
Proof.
  intros Hr. assert (all_wait c /\ latch_inv init c) as (Hall & Hh & Hl).
  { revert c Hr. apply reachable_ind; [|by intros ???; apply latch_inv_step].
    split; [by intros ????|]. unfold latch_inv. cbn [mon history threads initial]. rewrite count_empty.
    change (number counted []) with 0. split; [destruct (Z.ltb_spec init 0); lia|lia]. }
  split_and!; [done|]. intros Hz HW. apply progress; [|done|].
  - intros u m l Hu. assert (m = latch_wait \/ m = latch_wait_for) as Hm.
    { apply (latch_waits (m, l)). destruct Hu as [Hu|[Hu|Hu]]; exact (Hall u _ (m, l) Hu eq_refl). }
    destruct Hm as [-> | ->]; cbn; by apply Z.eqb_eq.
  - destruct (Hl HW) as [?|(u & st & Hu & Hn)%count_pos]; [lia|]. apply count_pos. exists u, st.
    split; [done|]. by destruct st.
Qed.

(** ** CyclicBarrier *)

(** Threads that arrived in generation [g] and are still inside. *)
Definition arrived (g : Z) (st : status barrier_call (Z * Z)) : bool :=
  match inside st with Some (_, (gen, _)) => gen =? g | None => false end.

Definition barrier_inv (p : Z) (c : config CyclicBarrier barrier_call (Z * Z) Z) : Prop :=
  parties_ (mon c) = p /\ 1 <= bar_count_ (mon c) <= p /\
  bar_count_ (mon c) = p - Z.of_nat (count (arrived (generation_ (mon c))) (threads c)) /\
  (forall u m l, threads c !! u = Some (Waiting m l) -> l.1 = generation_ (mon c)) /\
  (forall u st m l, threads c !! u = Some st -> inside st = Some (m, l) -> l.1 <= generation_ (mon c) /\ m = bar_wait).

Lemma arrived_quiet g :
  (forall st, arrived g (wake st) = arrived g st) /\ (forall b, arrived g (Notifying b) = false) /\
  (forall m l, arrived g (TimedOut m l) = arrived g (Waiting m l)).
Proof. split_and!; by try intros []. Qed.

(** A call of wait or reset that takes effect: the last to arrive and a reset start
    the next generation, a thread that leaves belongs to an earlier one. *)
Lemma barrier_took p c t m r n s :
  barrier_inv p c -> took c t m r n s ->
  (s = mkBarrier p p (generation_ (mon c) + 1) /\ n = NotifyAll true /\ threads c !! t = None /\
     (m = bar_wait -> bar_count_ (mon c) = 1 /\ r = 0)) \/
  (s = mon c /\ n = Silent /\ m = bar_wait /\ exists st l, threads c !! t = Some st /\
     inside st = Some (bar_wait, l) /\ l.1 < generation_ (mon c) /\ r = l.2).
Proof.
  intros (Hp & Hc & Hcnt & Hw & Hin) Ht. unfold took in Ht.
  destruct (threads c !! t) as [[m' l|m' l|m' l|b]|] eqn:E; try done.
  1,2: destruct Ht as (-> & Hcond & Hf); destruct (Hin t _ m l E eq_refl) as [Hle ->];
    cbn in Hcond, Hf; apply negb_true_iff, Z.eqb_neq in Hcond; simplify_eq; right;
    split_and!; try done; eexists _, l; split_and!; try done; lia.
  left. destruct m; cbn in Ht.
  - destruct (Z.eqb_spec (bar_count_ (mon c) - 1) 0) as [Hz|Hz].
    + destruct Ht as [Ht|(s0 & l & Ht & _)]; simplify_eq. split_and!; try done. intros _. lia.
    + destruct Ht as [Ht|(s0 & l & Ht & Hcond & Hf)]; simplify_eq. cbn in Hcond. by rewrite Z.eqb_refl in Hcond.
  - destruct Ht as [Ht|(s0 & l & Ht & _)]; simplify_eq. by split_and!.
Qed.

Lemma count_zero {M L} (P : status M L -> bool) ths :
  (forall u st, ths !! u = Some st -> P st = false) -> count P ths = 0%nat.
Proof.
  intros H. destruct (count P ths) eqn:E; [done|].
  destruct (proj1 (count_pos P ths)) as (u & st & Hu & HP); [lia|]. by rewrite (H u st Hu) in HP.
Qed.

Lemma barrier_quiet p c ths' :
  barrier_inv p c -> quiet (threads c) ths' -> barrier_inv p (mkConfig (mon c) ths' (history c)).
Proof.
  intros (Hp & Hc & Hcnt & Hw & Hin) Hq. destruct (arrived_quiet (generation_ (mon c))) as (H1 & H2 & H3).
  destruct (quiet_count _ _ _ H1 H2 H3 Hq) as [Hcount Hsub].
  split_and!; cbn [mon threads]; try done; try lia.
  - intros u m l Hu. eapply Hw, Hsub, Hu.
  - intros u st m l Hu Hx. destruct (quiet_inside _ _ _ _ _ Hq Hu Hx) as (st0 & Hu0 & Hx0). by eapply Hin.
Qed.

Lemma barrier_effect p c t m r n choice s c' :
  barrier_inv p c -> took c t m r n s ->
  complete t m r n choice s (threads c) (history c) = Some c' -> barrier_inv p c'.
Proof.
  intros Hi Ht Hc. pose proof Hi as (Hp & Hcb & Hcnt & Hw & Hin).
  apply complete_spec in Hc as (Hs & _ & Hth).
  destruct (barrier_took _ _ _ _ _ _ _ Hi Ht) as [(-> & -> & _)|(-> & -> & -> & st & l & Hst & Hins & Hlt & _)];
    unfold barrier_inv; rewrite Hs, Hth; cbn [parties_ bar_count_ generation_].
  - assert (forall u st x, wake_all (delete t (threads c)) !! u = Some st -> inside st = Some x ->
      exists st0, threads c !! u = Some st0 /\ inside st0 = Some x) as Hold.
    { intros u st x Hu Hx. destruct (wake_all_inside _ _ _ _ Hu Hx) as (st0 & [_ ?]%lookup_delete_Some & ?). eauto. }
    rewrite count_zero.
    + split_and!; try done; try lia.
      * intros u m' l Hu. unfold wake_all in Hu. rewrite lookup_fmap in Hu.
        by destruct (delete t (threads c) !! u) as [[]|].
      * intros u st m' l Hu Hx. destruct (Hold _ _ _ Hu Hx) as (st0 & Hu0 & Hx0).
        destruct (Hin _ _ _ _ Hu0 Hx0). split; [lia|done].
    + intros u st Hu. unfold arrived. destruct (inside st) as [[m' [g i]]|] eqn:Hx; [|done].
      destruct (Hold _ _ _ Hu Hx) as (st0 & Hu0 & Hx0). destruct (Hin _ _ _ _ Hu0 Hx0). cbn in *.
      apply Z.eqb_neq. lia.
  - split_and!; try done; try lia.
    + rewrite Hcnt, (count_delete _ t (threads c)), Hst. unfold arrived at 2. rewrite Hins. destruct l as [g i].
      cbn in Hlt. rewrite (proj2 (Z.eqb_neq g _)) by lia. cbn. lia.
    + intros u m' l' [_ Hu]%lookup_delete_Some. by eapply Hw.
    + intros u st' m' l' [_ Hu]%lookup_delete_Some. by apply (Hin u st' m' l').
Qed.

Lemma barrier_inv_step p a c c' : barrier_inv p c -> step a c = Some c' -> barrier_inv p c'.
Proof.
  intros Hi Hs. pose proof Hi as (Hp & Hcb & Hcnt & Hw & Hin).
  apply step_outcome in Hs.
  destruct Hs as [t m r n choice s c' Htook Hc|t m l r Ht Hcond Hex|t m l s Hb Hcond|t m l st Ht Hst|t Ht|t choice ths' Ht Hw'].
  - by eapply barrier_effect.
  - by destruct m.
  - unfold blocks in Hb. destruct (threads c !! t) as [[m' l'|m' l'|m' l'|b]|] eqn:E; try done.
    + destruct Hb as (-> & -> & ->). destruct (Hin t _ m l E eq_refl) as [_ ->].
      cbn in Hcond. apply negb_false_iff, Z.eqb_eq in Hcond.
      split_and!; cbn [mon threads]; try done; try lia.
      * rewrite count_insert, Hcnt, (count_delete _ t (threads c)), E. done.
      * intros u m l0. destruct (decide (u = t)) as [->|]; [rewrite lookup_insert_eq; by intros [= <- <-]|].
        rewrite lookup_insert_ne by done. apply Hw.
      * intros u st m l0. destruct (decide (u = t)) as [->|]; [rewrite lookup_insert_eq; intros [= <-] [= <- <-]; by eapply Hin|].
        rewrite lookup_insert_ne by done. apply Hin.
    + destruct m; cbn in Hb; [|done]. destruct (Z.eqb_spec (bar_count_ (mon c) - 1) 0); [done|]. injection Hb as <- <-.
      split_and!; cbn [mon threads parties_ bar_count_ generation_]; try done; try lia.
      * rewrite count_insert, delete_id by done. unfold arrived at 2. cbn. rewrite Z.eqb_refl. cbn. lia.
      * intros u m l0. destruct (decide (u = t)) as [->|]; [rewrite lookup_insert_eq; by intros [= <- <-]|].
        rewrite lookup_insert_ne by done. apply Hw.
      * intros u st m l0. destruct (decide (u = t)) as [->|]; [rewrite lookup_insert_eq; intros [= <-] [= <- <-]; by split|].
        rewrite lookup_insert_ne by done. apply Hin.
  - apply barrier_quiet; [done|]. by eapply quiet_wakes.
  - apply barrier_quiet; [done|]. right. left. eauto.
  - apply barrier_quiet; [done|]. right. right. eauto.
Qed.

Lemma new_barrier_inv parties : barrier_inv (Z.max 1 parties) (initial (new_barrier parties)).
Proof.
  unfold barrier_inv, new_barrier. cbn [mon threads initial parties_ bar_count_ generation_]. rewrite count_empty.
  assert ((if parties <? 1 then 1 else parties) = Z.max 1 parties) as -> by (destruct (Z.ltb_spec parties 1); lia).
  split_and!; try done; lia.
Qed.

(** A barrier for some parties, at least one, counts those that arrived in the
    current generation and are fewer than all; nobody waits in a generation that is
    over; and a wait returns either because its thread is the last of the parties,
    which wakes all the others and starts the next generation, or because its
    generation is over, with the index the thread arrived at. *)
Theorem barrier_correct parties c :
  reachable (Monitor0 := Barrier) (new_barrier parties) c ->
  let p := Z.max 1 parties in
  let gen := generation_ (mon c) in
  (barrier_waiting (mon c) = Z.of_nat (count (arrived gen) (threads c)) /\ 0 <= barrier_waiting (mon c) < p) /\
  (forall u m l, threads c !! u = Some (Waiting m l) -> l.1 = gen) /\
  forall a c' t r, step a c = Some c' -> history c' = history c ++ [(t, bar_wait, r)] ->
    (r = 0 /\ barrier_waiting (mon c) = p - 1 /\ count is_waiting (threads c') = 0%nat /\
       generation_ (mon c') = gen + 1) \/
    (exists st l, threads c !! t = Some st /\ inside st = Some (bar_wait, l) /\ l.1 < gen /\ r = l.2).
Proof.
  intros Hr p gen. assert (barrier_inv p c) as Hi.
  { revert c gen Hr. intros c _. apply reachable_ind; [apply new_barrier_inv|by intros ???; apply barrier_inv_step]. }
  pose proof Hi as (Hp & Hc & Hcnt & Hw & _). unfold barrier_waiting. split; [subst gen; lia|]. split; [done|].
  intros a c' t r Hs Hh. apply step_outcome in Hs.
  assert (forall h : list (tid * barrier_call * Z), h <> h ++ [(t, bar_wait, r)]) as Hne.
  { intros h Heq. apply (f_equal length) in Heq. rewrite length_app in Heq. cbn in Heq. lia. }
  destruct Hs as [t' m r' n choice s c' Htook Hcm|t' m l r' Ht Hcond Hex|t' m l s Hb Hcond|t' m l st Ht Hst|t' Ht|t' choice ths' Ht Hw'];
    try (exfalso; by eapply Hne).
  - apply complete_spec in Hcm as (Hs & Hh' & Hth). rewrite Hh in Hh'. apply app_inv_head in Hh'.
    injection Hh' as <- <- <-.
    destruct (barrier_took _ _ _ _ _ _ _ Hi Htook) as [(-> & -> & _ & H1)|(_ & _ & _ & Hx)]; [left|by right].
    destruct H1 as [H1 ->]; [done|]. rewrite Hs, Hth.
    destruct (count_wake_everyone (delete t (threads c))) as [-> _]. split_and!; try done. lia.
  - by destruct m.
Qed.

(** ** SpinLock *)

Definition spin_lock_event (e : tid * spin_event) : tid * lock_event :=
  (e.1, match e.2 with spun_lock => Acquired | spun_fail => Refused | spun_unlock => Released end).

Definition spin_inv (c : SpinLock) : Prop :=
  agrees (fun holder => flag_ c = held holder) (replay lock_spec None (spin_lock_event <$> spin_history c)) /\
  map_Forall (fun _ n => exists k, 0 <= k < 6 /\ n = 2 ^ k) (spinning c).

Lemma spin_next_power k : 0 <= k < 6 -> exists k', 0 <= k' < 6 /\ (spin_next (2 ^ k)).1 = 2 ^ k'.
Proof.
  intros Hk. assert (k = 0 \/ k = 1 \/ k = 2 \/ k = 3 \/ k = 4 \/ k = 5) as H by lia.
  destruct H as [->|[->|[->|[->|[->| ->]]]]];
    [exists 1|exists 2|exists 3|exists 4|exists 5|exists 0]; (split; [lia|reflexivity]).
Qed.

Lemma spin_inv_step a c c' : spin_inv c -> spin_step a c = Some c' -> spin_inv c'.
Proof.
  intros [Hh Hn]. unfold spin_step, SpinLock_try_lock.
  assert (forall t e f, (forall holder, flag_ c = held holder ->
      agrees (fun h => f = held h) (lock_spec (spin_lock_event (t, e)) holder)) ->
    agrees (fun holder => f = held holder)
      (replay lock_spec None (spin_lock_event <$> spin_history c ++ [(t, e)]))) as Hsnoc.
  { intros t e f He. rewrite fmap_app. csimpl. rewrite replay_snoc. destruct (replay _ _ _); [|done..]. by apply He. }
  destruct a as [t|t|t|t]; destruct (spinning c !! t) as [n|] eqn:E; try done;
    destruct (flag_ c) eqn:Hf; cbn [negb]; intros [= <-];
    (split; cbn [flag_ spin_history spinning]; [try apply Hsnoc|]); try done.
  all: try (intros [u|]; cbn; try done; by case_decide).
  - apply map_Forall_insert_2; [|done]. by exists 0.
  - apply map_Forall_insert_2; [|done]. destruct (Hn t n E) as (k & Hk & ->). by apply spin_next_power.
  - by apply map_Forall_delete.
Qed.

(** A spin lock excludes: in every interleaving no two threads hold it and try_lock
    fails only when it is held, unless a thread releases what it does not hold; and
    between two attempts a thread pauses at most 32 times. *)
Theorem spinlock_correct labels c :
  foldl (fun c a => c ≫= spin_step a) (Some (mkSpin false ∅ [])) labels = Some c ->
  agrees (fun holder => flag_ c = held holder) (replay lock_spec None (spin_lock_event <$> spin_history c)) /\
  forall t n, spinning c !! t = Some n -> 1 <= n <= 32.
Proof.
  intros Hr. assert (spin_inv c) as [Hh Hn].
  { revert c Hr. induction labels as [|a labels IH] using rev_ind; intros c Hr; [by injection Hr as <-|].
    rewrite foldl_snoc in Hr. destruct (foldl _ _ labels) as [c0|]; [|done]. eapply spin_inv_step; [by apply IH|done]. }
  split; [done|]. intros t n Ht. destruct (Hn t n Ht) as (k & Hk & ->).
  pose proof (Z.pow_le_mono_r 2 0 k). pose proof (Z.pow_le_mono_r 2 k 5). lia.
Qed.

(** ** Counters, timed attempts and shards *)

Lemma i32_range v : -2147483648 <= v <= 2147483647 -> i32 v = v.
Proof. intros Hv. unfold i32. rewrite Z.mod_small; lia. Qed.

Lemma i32_add v a : i32 (i32 v + a) = i32 (v + a).
Proof.
  unfold i32. f_equal.
  replace ((v + 2147483648) mod 4294967296 - 2147483648 + a + 2147483648)
    with ((v + 2147483648) mod 4294967296 + a) by lia.
  rewrite Zplus_mod_idemp_l. f_equal. lia.
Qed.

(** Whatever the order in which threads add to an atomic integer, nothing is lost: it
    holds the sum, modulo the width. *)
Theorem fetch_adds_total v args :
  -2147483648 <= v <= 2147483647 ->
  foldl (fun v a => (fetch_add a v).2) v args = i32 (v + foldr Z.add 0 args).
Proof.
  intros Hv. rewrite <-(i32_range v Hv) at 1. clear Hv. revert v. induction args as [|a args IH]; intros v; cbn.
  - by rewrite Z.add_0_r.
  - rewrite i32_add, IH. f_equal. lia.
Qed.

(** A timed attempt succeeds exactly when the lock is free at a turn before the
    deadline; with no time left it is not tried at all. *)
Theorem try_until_spec deadline turns1 now free turns2 :
  Forall (fun x => x.1 < deadline /\ x.2 = false) turns1 ->
  free = true \/ deadline <= now ->
  try_until deadline (turns1 ++ (now, free) :: turns2) = Some (free && (now <? deadline)).
Proof.
  intros Hb Hl. induction Hb as [|[n f] turns1 [Hn Hf] _ IH]; cbn in *; [|subst f].
  - destruct (Z.ltb_spec now deadline); [|by rewrite andb_false_r]. destruct Hl as [->|]; [done|lia].
  - cbn in Hn. by rewrite (proj2 (Z.ltb_lt n deadline) Hn).
Qed.

Lemma get_shard_range n hash : 0 <= n -> 0 <= get_shard n hash < shard_count n.
Proof. intros Hn. apply Z.mod_pos_bound. unfold shard_count. destruct (Z.eqb_spec n 0); lia. Qed.

(** ** Guards *)

(** The calls of a guard that is released early some number of times and then goes
    out of scope. *)
Definition lock_guard_calls (unlocks : nat) : list guard_call :=
  let '(owned, calls) := LockGuard_new in
  let '(owned, calls) := Nat.iter unlocks (fun x => let '(o, cs) := LockGuard_unlock x.1 in (o, x.2 ++ cs)) (owned, calls) in
  calls ++ LockGuard_drop owned.

Definition try_guard_calls (got : bool) (unlocks : nat) : list guard_call :=
  let '(owned, calls) := TryLockGuard_new got in
  let '(owned, calls) := Nat.iter unlocks (fun x => let '(o, cs) := TryLockGuard_unlock x.1 in (o, x.2 ++ cs)) (owned, calls) in
  calls ++ TryLockGuard_drop owned.

(** A guard of a lock that was tried releases it once if it got it, however often it
    is released early. The other guards release it as often as they are told to, so
    that a second early release gives away what another thread may hold. *)
Theorem guards_release got n :
  try_guard_calls got n = g_try :: (if got then [g_release] else []) /\
  lock_guard_calls n = g_acquire :: replicate (Nat.max 1 n) g_release.
Proof.
  split.
  - unfold try_guard_calls, TryLockGuard_new.
    assert (forall n, Nat.iter n (fun x : bool * list guard_call => let '(o, cs) := TryLockGuard_unlock x.1 in (o, x.2 ++ cs))
      (got, [g_try]) = if got then (match n with O => (true, [g_try]) | _ => (false, [g_try; g_release]) end)
                       else (false, [g_try])) as ->.
    { clear n. induction n as [|n IH]; [by destruct got|]. rewrite Nat.iter_succ, IH.
      destruct got; [by destruct n|done]. }
    by destruct got, n.
  - unfold lock_guard_calls, LockGuard_new.
    assert (forall n, Nat.iter n (fun x : bool * list guard_call => let '(o, cs) := LockGuard_unlock x.1 in (o, x.2 ++ cs))
      (true, [g_acquire]) = (match n with O => true | _ => false end, g_acquire :: replicate n g_release)) as ->.
    { clear n. induction n as [|n IH]; [done|]. rewrite Nat.iter_succ, IH. cbn. by rewrite <-replicate_cons_app. }
    destruct n as [|n]; [done|]. cbn. by rewrite app_nil_r.
Qed.

(** ** Witnesses *)

Definition after_run {S M L R} `{!Monitor S M L R} (labels : list (label M)) (s : S) : config S M L R :=
  default (initial s) (run labels (initial s)).

Lemma after_run_reachable {S M L R} `{!Monitor S M L R} labels (s : S) :
  bool_decide (is_Some (run labels (initial s))) = true -> reachable s (after_run labels s).
Proof. intros [c Hc]%bool_decide_eq_true_1. exists labels. unfold after_run. by rewrite Hc. Qed.

(** One thread holds the mutex, another waits for it, the first releases it. *)
Lemma mutex_correct_witness :
  let c := after_run (Monitor0 := Mutex) [Call 1 mutex_lock None; Call 2 mutex_lock None; Call 1 mutex_unlock None] false in
  threads c !! 2%nat = Some (Waiting mutex_lock ()) /\ moves_on c.
Proof.
  intros c. split; [by vm_compute|]. apply (mutex_correct c); [|by vm_compute|vm_compute; lia].
  by apply after_run_reachable; vm_compute.
Defined.

Lemma recursive_mutex_correct_witness :
  let c := after_run (Monitor0 := Recursive) [Call 1 rec_lock None; Call 1 rec_try_lock None; Call 2 rec_lock None;
             Call 3 rec_unlock None; Call 1 rec_unlock None] (mkRecursive None 0) in
  replay rec_spec None (rec_event <$> history c) = Fine (Some (1%nat, 1)).
Proof.
  intros c. destruct (recursive_mutex_correct c) as [(h & Hh & Hm) _]; [by apply after_run_reachable; vm_compute|].
  rewrite Hh. f_equal. destruct h as [[u n]|]; cbn in Hm; [|done]. by destruct Hm as [[= <- <-] _].
Defined.

(** A writer waits for a reader; a second reader must wait too. *)
Lemma rwlock2_correct_witness :
  let c := after_run (Monitor0 := RW2) [Call 1 rw_read_lock None; Call 2 rw_write_lock None; Call 3 rw_read_lock None] new_rwlock2 in
  writers_waiting_ (mon c) = 1 /\ forall a c', step a c = Some c' -> readers_ (mon c') <= 1.
Proof.
  intros c. destruct (rwlock2_correct c) as (_ & Hw & Hr); [by apply after_run_reachable; vm_compute|].
  split; [by rewrite Hw|]. intros a c' Hs. apply (Hr a c' Hs). vm_compute. lia.
Defined.

Lemma semaphore_correct_witness :
  let c := after_run (Monitor0 := Semaphore) [Call 1 sem_wait None; Call 2 sem_wait None; Call 1 sem_post None] 1 in
  mon c = 1 /\ moves_on c.
Proof.
  intros c. split; [by vm_compute|].
  apply (semaphore_correct 1 c); [by apply after_run_reachable; vm_compute|by vm_compute|vm_compute; lia].
Defined.

Lemma latch_correct_witness :
  let c := after_run (Monitor0 := CountDownLatch) [Call 1 latch_wait None; Call 2 latch_count_down None; Call 3 latch_count_down None] 2 in
  mon c = 0 /\ moves_on c.
Proof.
  intros c. split; [by vm_compute|].
  apply (latch_correct 2 c); [by apply after_run_reachable; vm_compute|by vm_compute|vm_compute; lia].
Defined.

(** Two of three have arrived. *)
Lemma barrier_correct_witness :
  let c := after_run (Monitor0 := Barrier) [Call 1 bar_wait None; Call 2 bar_wait None] (new_barrier 3) in
  barrier_waiting (mon c) = 2 /\ count (arrived 0) (threads c) = 2%nat.
Proof.
  intros c. split; [by vm_compute|].
  destruct (barrier_correct 3 c) as [[Hw _] _]; [by apply after_run_reachable; vm_compute|]. by vm_compute.
Defined.

Lemma spinlock_correct_witness :
  exists c, foldl (fun c a => c ≫= spin_step a) (Some (mkSpin false ∅ []))
      [SpinLock_call 1; SpinLock_call 2; SpinAgain 2; SpinUnlock_call 1] = Some c /\
    forall n, spinning c !! 2%nat = Some n -> 1 <= n <= 32.
Proof.
  eexists. split; [by vm_compute|].
  refine (proj2 (spinlock_correct [SpinLock_call 1; SpinLock_call 2; SpinAgain 2; SpinUnlock_call 1] _ _) 2%nat).
  by vm_compute.
Defined.
End LocksProps.
