(* ===== verification/Guards.v ===== *)
(** * Guards of sharded locks: ShardedRWLock, RWLock, ReadLockGuard, WriteLockGuard and
    AtomicPointer of base/lock.cpp

    Threads construct guards for keys, release them early and destroy them; a guard takes
    the lock of the shard of its key. A construction that has to wait is a step that is not
    possible yet. [std::shared_mutex] is its holders, as in Locks.v. *)

From S2P Require Import Prelude Base Storage Locks.
From stdpp Require Import options.

Module Guards.
Import Locks Storage.

(** ** RWLock *)

Definition read_lock (m : shared_mutex) : option shared_mutex :=
  if sm_writer m then None else Some (mkShared (sm_readers m + 1) false).
Definition read_unlock (m : shared_mutex) : shared_mutex := mkShared (sm_readers m - 1) (sm_writer m).
Definition write_lock (m : shared_mutex) : option shared_mutex :=
  if sm_writer m || (0 <? sm_readers m) then None else Some (mkShared (sm_readers m) true).
Definition write_unlock (m : shared_mutex) : shared_mutex := mkShared (sm_readers m) false.

(** ** AtomicPointer: addresses are numbers, [nullptr] is [None] *)

Definition AtomicPointer_load (ptr_ : option nat) : option nat := ptr_.
Definition AtomicPointer_store (new_ptr ptr_ : option nat) : option nat := new_ptr.
Definition AtomicPointer_exchange (new_ptr ptr_ : option nat) : option nat * option nat := (ptr_, new_ptr).

(** Success, what [expected] holds afterwards, the new pointer; the weak form may fail
    although the pointers are equal. *)
Definition AtomicPointer_compare_exchange (spurious : bool) (expected desired ptr_ : option nat)
    : bool * option nat * option nat :=
  if negb spurious && bool_decide (ptr_ = expected) then (true, expected, desired) else (false, ptr_, ptr_).

(** ** ShardedRWLock and its guards *)

Inductive kind := Reading | Writing.

Definition same_kind (k k' : kind) : bool := match k, k' with Reading, Reading | Writing, Writing => true | _, _ => false end.

Record Guard := mkGuard { g_shard : nat; g_kind : kind; owned_ : bool }.

Record ShardedRWLock := mkSharded { shards_ : list shared_mutex; num_shards_ : Z; guards : gmap nat Guard }.

Definition new_sharded (num_shards : Z) : ShardedRWLock :=
  let n := if num_shards =? 0 then 1 else num_shards in mkSharded (replicate (Z.to_nat n) (mkShared 0 false)) n ∅.

Section sharded.
Context `{StringHash}.

(** The place of the lock of a key. *)
Definition get_shard (key : bytes) (s : ShardedRWLock) : nat := Z.to_nat (string_hash key mod num_shards_ s).

Definition acquire (k : kind) (m : shared_mutex) : option shared_mutex :=
  match k with Reading => read_lock m | Writing => write_lock m end.
Definition release (k : kind) (m : shared_mutex) : shared_mutex :=
  match k with Reading => read_unlock m | Writing => write_unlock m end.

(** The constructor of a guard [i]; [None] where it waits. *)
Definition guard_new (i : nat) (k : kind) (key : bytes) (s : ShardedRWLock) : option ShardedRWLock :=
  match guards s !! i with
  | Some _ => None
  | None =>
      let j := get_shard key s in
      m ← shards_ s !! j;
      m ← acquire k m;
      Some (mkSharded (<[j := m]> (shards_ s)) (num_shards_ s) (<[i := mkGuard j k true]> (guards s)))
  end.

(** [unlock] does not look at [owned_]. *)
Definition guard_unlock (i : nat) (s : ShardedRWLock) : option ShardedRWLock :=
  g ← guards s !! i;
  m ← shards_ s !! g_shard g;
  Some (mkSharded (<[g_shard g := release (g_kind g) m]> (shards_ s)) (num_shards_ s)
          (<[i := mkGuard (g_shard g) (g_kind g) false]> (guards s))).

Definition owns_lock (i : nat) (s : ShardedRWLock) : bool := match guards s !! i with Some g => owned_ g | None => false end.

(** The destructor. *)
Definition guard_drop (i : nat) (s : ShardedRWLock) : option ShardedRWLock :=
  g ← guards s !! i;
  if owned_ g then
    m ← shards_ s !! g_shard g;
    Some (mkSharded (<[g_shard g := release (g_kind g) m]> (shards_ s)) (num_shards_ s) (delete i (guards s)))
  else Some (mkSharded (shards_ s) (num_shards_ s) (delete i (guards s))).

Inductive guard_event := NewGuard (i : nat) (k : kind) (key : bytes) | Unlock (i : nat) | Drop (i : nat).

(** [once]: a guard is released early only while it owns its lock. *)
Definition guard_step (once : bool) (e : guard_event) (s : ShardedRWLock) : option ShardedRWLock :=
  match e with
  | NewGuard i k key => guard_new i k key s
  | Unlock i => if once && negb (owns_lock i s) then None else guard_unlock i s
  | Drop i => guard_drop i s
  end.

Definition guard_run (once : bool) (es : list guard_event) (s : ShardedRWLock) : option ShardedRWLock :=
  foldl (fun s e => s ≫= guard_step once e) (Some s) es.

Inductive reachable (n : Z) : ShardedRWLock -> Prop :=
  | reach_new : reachable n (new_sharded n)
  | reach_step e s s' : reachable n s -> guard_step true e s = Some s' -> reachable n s'.

(** ** Exclusion *)

Definition holds (j : nat) (k : kind) (g : Guard) : bool := owned_ g && (g_shard g =? j)%nat && same_kind (g_kind g) k.

(** How many guards hold the lock of a shard in this way. *)
Definition holders (j : nat) (k : kind) (gs : gmap nat Guard) : nat := size (filter (fun x => holds j k x.2 = true) gs).

Lemma holders_insert j k i g gs :
  gs !! i = None -> holders j k (<[i := g]> gs) = ((if holds j k g then 1 else 0) + holders j k gs)%nat.
Proof.
  intros Hi. unfold holders. destruct (holds j k g) eqn:Hg.
  - rewrite map_filter_insert_True by done. apply map_size_insert_None. apply map_lookup_filter_None. by left.
  - rewrite map_filter_insert_False by (cbn; congruence). by rewrite delete_id.
Qed.

Lemma holders_delete j k i g gs :
  gs !! i = Some g -> holders j k gs = ((if holds j k g then 1 else 0) + holders j k (delete i gs))%nat.
Proof. intros Hi. rewrite <-(insert_delete_id gs i g Hi) at 1. apply holders_insert, lookup_delete_eq. Qed.

Lemma holders_replace j k i g g' gs :
  gs !! i = Some g -> holders j k (<[i := g']> gs) = ((if holds j k g' then 1 else 0) + holders j k (delete i gs))%nat.
Proof. intros Hi. rewrite <-insert_delete_eq. apply holders_insert, lookup_delete_eq. Qed.

Lemma holders_none j k gs : holders j k gs = 0%nat -> forall i g, gs !! i = Some g -> holds j k g = false.
Proof.
  intros Hz i g Hi. destruct (holds j k g) eqn:Hg; [|done]. rewrite (holders_delete j k i g gs Hi), Hg in Hz. done.
Qed.

Record guards_ok (s : ShardedRWLock) : Prop := {
  ok_len : 0 < num_shards_ s /\ length (shards_ s) = Z.to_nat (num_shards_ s);
  ok_place i g : guards s !! i = Some g -> (g_shard g < length (shards_ s))%nat;
  ok_shard j m : shards_ s !! j = Some m ->
    sm_readers m = Z.of_nat (holders j Reading (guards s)) /\
    Z.b2z (sm_writer m) = Z.of_nat (holders j Writing (guards s)) /\
    (sm_writer m = true -> sm_readers m = 0)
}.

Lemma new_sharded_ok n : 0 <= n -> guards_ok (new_sharded n).
Proof.
  intros Hn. assert (0 < (if n =? 0 then 1 else n)) by (destruct (Z.eqb_spec n 0); lia). split; cbn.
  - split; [done|]. by rewrite length_replicate.
  - intros i g. by rewrite lookup_empty.
  - intros j m [-> _]%lookup_replicate. done.
Qed.

(** Guards of other shards do not count. *)
Lemma holds_other j j' k g : g_shard g = j -> j <> j' -> holds j' k g = false.
Proof. intros Hg Hj. unfold holds. rewrite (proj2 (Nat.eqb_neq _ _)) by congruence. by rewrite andb_false_r. Qed.

Lemma holds_own k k' j b : holds j k' (mkGuard j k b) = b && same_kind k k'.
Proof. unfold holds. cbn. by rewrite Nat.eqb_refl, andb_true_r. Qed.

(** The lock of one shard and the guards change together. *)
Lemma guards_ok_shard s j m m' gs :
  guards_ok s -> shards_ s !! j = Some m ->
  (forall i g, gs !! i = Some g -> (g_shard g < length (shards_ s))%nat) ->
  (forall j' k, j' <> j -> holders j' k gs = holders j' k (guards s)) ->
  sm_readers m' = Z.of_nat (holders j Reading gs) -> Z.b2z (sm_writer m') = Z.of_nat (holders j Writing gs) ->
  (sm_writer m' = true -> sm_readers m' = 0) ->
  guards_ok (mkSharded (<[j := m']> (shards_ s)) (num_shards_ s) gs).
Proof.
  intros [H1 H2 H3] Hj Hp Ho Hr Hw Hx. split; cbn; [by rewrite length_insert|by rewrite length_insert|].
  intros j' x [(<- & <- & _)|(Hne & Hx')]%list_lookup_insert_Some; [done|]. rewrite !Ho by done. by apply H3.
Qed.

Lemma guard_new_ok i k key s s' : guards_ok s -> guard_new i k key s = Some s' -> guards_ok s'.
Proof.
  intros Hs Hn. unfold guard_new in Hn. destruct (guards s !! i) eqn:Hi; [done|].
  destruct (shards_ s !! get_shard key s) as [m|] eqn:Hm; [|done]. cbn in Hn.
  destruct (acquire k m) as [m'|] eqn:Ha; [|done]. injection Hn as <-. destruct (ok_shard s Hs _ _ Hm) as (Hr & Hw & Hx).
  eapply guards_ok_shard; [done..| | | | |].
  - intros i' g [[_ <-]|[_ Hg]]%lookup_insert_Some; [by eapply lookup_lt_Some|by eapply ok_place].
  - intros j' k' Hj'. rewrite holders_insert by done. by rewrite (holds_other (get_shard key s)).
  - rewrite holders_insert, holds_own by done. destruct k; cbn -[holders Z.of_nat] in *; unfold read_lock, write_lock in Ha; destruct (sm_writer m); cbn -[holders Z.of_nat] in *; try done.
    + injection Ha as <-. cbn -[holders Z.of_nat]. lia.
    + destruct (0 <? sm_readers m); [done|]. injection Ha as <-. done.
  - rewrite holders_insert, holds_own by done. destruct k; cbn -[holders Z.of_nat] in *; unfold read_lock, write_lock in Ha; destruct (sm_writer m); cbn -[holders Z.of_nat] in *; try done.
    + injection Ha as <-. done.
    + destruct (0 <? sm_readers m); [done|]. injection Ha as <-. cbn -[holders Z.of_nat]. lia.
  - destruct k; cbn -[holders Z.of_nat] in *; unfold read_lock, write_lock in Ha; destruct (sm_writer m); cbn -[holders Z.of_nat] in *; try done; [by injection Ha as <-|].
    destruct (Z.ltb_spec 0 (sm_readers m)); [done|]. injection Ha as <-. cbn. intros _. lia.
Qed.

(** What releasing an owned guard does to its shard: [gs] has one holder less. *)
Lemma guard_release_ok i g s m gs :
  guards_ok s -> guards s !! i = Some g -> owned_ g = true -> shards_ s !! g_shard g = Some m ->
  (forall i g, gs !! i = Some g -> (g_shard g < length (shards_ s))%nat) ->
  (forall j k, holders j k gs = holders j k (delete i (guards s))) ->
  guards_ok (mkSharded (<[g_shard g := release (g_kind g) m]> (shards_ s)) (num_shards_ s) gs).
Proof.
  intros Hs Hi Ho Hm Hp Hgs. destruct (ok_shard s Hs _ _ Hm) as (Hr & Hw & Hx). destruct g as [j k o]. cbn -[holders Z.of_nat] in *. subst o.
  rewrite (holders_delete _ _ _ _ _ Hi), holds_own in Hr. rewrite (holders_delete _ _ _ _ _ Hi), holds_own in Hw.
  eapply guards_ok_shard; [done..| | | |].
  - intros j' k' Hj'. rewrite Hgs, (holders_delete j' k' _ _ _ Hi). by rewrite (holds_other j).
  - rewrite Hgs. destruct k; cbn -[holders Z.of_nat] in *; lia.
  - rewrite Hgs. destruct k; cbn -[holders Z.of_nat] in *; destruct (sm_writer m); cbn -[holders Z.of_nat] in *; lia.
  - destruct k; cbn -[holders Z.of_nat] in *; destruct (sm_writer m); cbn -[holders Z.of_nat] in *; try done. intros _. specialize (Hx eq_refl). lia.
Qed.

Lemma guard_step_ok e s s' : guards_ok s -> guard_step true e s = Some s' -> guards_ok s'.
Proof.
  intros Hs. destruct e as [i k key|i|i]; cbn; [by apply guard_new_ok| |].
  - unfold owns_lock. destruct (guards s !! i) as [g|] eqn:Hi; [|done]. destruct (owned_ g) eqn:Ho; [|done]. cbn.
    unfold guard_unlock. rewrite Hi. cbn. destruct (shards_ s !! g_shard g) as [m|] eqn:Hm; [|done]. intros [= <-].
    eapply guard_release_ok; [done..| |].
    + intros i' g' [[_ <-]|[_ Hg]]%lookup_insert_Some; [by eapply lookup_lt_Some|by eapply ok_place].
    + intros j k. by rewrite (holders_replace _ _ _ _ _ _ Hi).
  - unfold guard_drop. destruct (guards s !! i) as [g|] eqn:Hi; [|done]. cbn. destruct (owned_ g) eqn:Ho.
    + destruct (shards_ s !! g_shard g) as [m|] eqn:Hm; [|done]. intros [= <-]. eapply guard_release_ok; [done..| |done].
      intros i' g' [_ Hg]%lookup_delete_Some. by eapply ok_place.
    + intros [= <-]. destruct Hs as [H1 H2 H3]. split; cbn; [done| |].
      * intros i' g' [_ Hg]%lookup_delete_Some. by eapply H2.
      * intros j m Hm. destruct (H3 j m Hm) as (Hr & Hw & Hx).
        rewrite (holders_delete _ _ _ _ _ Hi) in Hr. rewrite (holders_delete _ _ _ _ _ Hi) in Hw.
        unfold holds in Hr, Hw. rewrite Ho in Hr, Hw. done.
Qed.

Lemma guards_reachable_ok n s : 0 <= n -> reachable n s -> guards_ok s.
Proof. intros Hn. induction 1 as [|e s s' _ IH Hs]; [by apply new_sharded_ok|by eapply guard_step_ok]. Qed.

Lemma holders_two j k i i' g g' gs :
  gs !! i = Some g -> gs !! i' = Some g' -> i <> i' -> holds j k g = true -> holds j k g' = true -> (2 <= holders j k gs)%nat.
Proof.
  intros Hi Hi' Hne Hg Hg'. rewrite (holders_delete j k i g gs Hi), Hg.
  rewrite (holders_delete j k i' g' (delete i gs)), Hg' by (by rewrite lookup_delete_ne). lia.
Qed.

(** Guards of a sharded lock exclude each other. Whatever threads do, as long as none
    releases a guard it has released: a key always has the same lock; while one guard holds
    the lock of a shard for writing, no other guard holds it; the lock is exactly as the
    guards that own it say; and when every guard is gone, every lock is free. *)
Theorem guards_exclude n s :
  0 <= n -> reachable n s ->
  (forall key, is_Some (shards_ s !! get_shard key s)) /\
  (forall i g i' g', guards s !! i = Some g -> guards s !! i' = Some g' -> i <> i' -> g_shard g = g_shard g' ->
     owned_ g = true -> owned_ g' = true -> g_kind g = Reading /\ g_kind g' = Reading) /\
  (forall i g, guards s !! i = Some g -> owned_ g = true -> exists m, shards_ s !! g_shard g = Some m /\
     match g_kind g with Reading => 0 < sm_readers m /\ sm_writer m = false | Writing => sm_writer m = true /\ sm_readers m = 0 end) /\
  (guards s = ∅ -> forall j m, shards_ s !! j = Some m -> m = mkShared 0 false).
Proof.
  intros Hn [[Hpos Hlen] Hp Hsh]%guards_reachable_ok; [|done].
  assert (forall i g, guards s !! i = Some g -> owned_ g = true -> holds (g_shard g) (g_kind g) g = true) as Hown.
  { intros i [j k o] _ Ho. cbn in *. subst o. rewrite holds_own. by destruct k. }
  assert (forall i g, guards s !! i = Some g -> owned_ g = true -> exists m, shards_ s !! g_shard g = Some m /\
     match g_kind g with Reading => 0 < sm_readers m /\ sm_writer m = false | Writing => sm_writer m = true /\ sm_readers m = 0 end) as Hlock.
  { intros i g Hi Ho. destruct (lookup_lt_is_Some_2 (shards_ s) (g_shard g) (Hp _ _ Hi)) as [m Hm]. exists m. split; [done|].
    destruct (Hsh _ _ Hm) as (Hr & Hw & Hx). pose proof (holders_delete (g_shard g) (g_kind g) _ _ _ Hi) as Hd.
    rewrite (Hown i g Hi Ho) in Hd. destruct (g_kind g), (sm_writer m); cbn [Z.b2z] in Hw; try (specialize (Hx eq_refl)); split; try done; lia. }
  split_and!; [| |done|].
  - intros key. apply lookup_lt_is_Some_2. unfold get_shard. rewrite Hlen.
    pose proof (Z.mod_pos_bound (string_hash key) (num_shards_ s) Hpos). apply Z2Nat.inj_lt; lia.
  - intros i g i' g' Hi Hi' Hne Hj Ho Ho'. destruct (Hlock i g Hi Ho) as (m & Hm & Hk), (Hlock i' g' Hi' Ho') as (m' & Hm' & Hk').
    rewrite <-Hj, Hm in Hm'. injection Hm' as <-. destruct (g_kind g) eqn:E, (g_kind g') eqn:E'; try done; destruct Hk, Hk'; try lia; try congruence.
    exfalso. destruct (Hsh _ _ Hm) as (_ & Hw & _). pose proof (holders_two (g_shard g) Writing i i' g g' _ Hi Hi' Hne) as Htwo.
    pose proof (Hown i g Hi Ho) as Hg. rewrite E in Hg. pose proof (Hown i' g' Hi' Ho') as Hg'. rewrite E', <-Hj in Hg'.
    specialize (Htwo Hg Hg'). destruct (sm_writer m); cbn [Z.b2z] in Hw; lia.
  - intros He j m Hm. destruct (Hsh _ _ Hm) as (Hr & Hw & _). rewrite He in Hr, Hw. destruct m as [r w]. cbn in *. subst r. by destruct w.
Qed.
End sharded.

Definition first_byte_hash : StringHash := fun k => match k with c :: _ => byte_val c | [] => 0 end.

Lemma guards_exclude_witness :
  exists s, @reachable first_byte_hash 4 s /\ size (guards s) = 2%nat /\
    forall key, is_Some (shards_ s !! @get_shard first_byte_hash key s).
Proof.
  set (s1 := default (new_sharded 4) (@guard_new first_byte_hash 1 Reading (lit "a") (new_sharded 4))).
  set (s2 := default s1 (@guard_new first_byte_hash 2 Reading (lit "a") s1)).
  assert (@reachable first_byte_hash 4 s2) as Hr.
  { apply (reach_step 4 (NewGuard 2 Reading (lit "a")) s1); [|vm_compute; reflexivity].
    apply (reach_step 4 (NewGuard 1 Reading (lit "a")) (new_sharded 4)); [apply reach_new|vm_compute; reflexivity]. }
  exists s2. split; [exact Hr|]. split; [vm_compute; reflexivity|]. exact (proj1 (guards_exclude 4 s2 ltac:(lia) Hr)).
Defined.

(** A guard that is released twice gives away what another guard holds: a writer gets in
    beside a reader. *)
Theorem second_unlock_breaks :
  exists s, @guard_run first_byte_hash false
      [NewGuard 1 Reading (lit "a"); NewGuard 2 Reading (lit "a"); Unlock 1; Unlock 1; NewGuard 3 Writing (lit "a")] (new_sharded 4) = Some s /\
    owns_lock 2 s = true /\ owns_lock 3 s = true.
Proof. eexists. split; [vm_compute; reflexivity|]. split; reflexivity. Qed.
End Guards.
