(* ===== verification/Pool.v ===== *)
(** * The memory pool: memorypool/

    Addresses and page numbers are integers, [0] the null pointer. The first
    word of a free block holds the address of the next one: [memory] is the
    contents of these words. Objects of type [Span] are numbered; a [SpanList] is
    the list of its spans here, and Module [SpanList] of SpanLinks.v has its links.
    A vector with one element for each size class is a map from class numbers whose
    missing entries are as constructed, and [thread_local] instances are a map from
    threads. The operations of the thread cache, the central cache and the page cache
    are functions here; at the end their pieces are the steps that threads interleave,
    with the locks of the size classes in the state: a step is what is done under the
    mutex of the page cache, or a part of what is done under the lock of a size class,
    or what a thread does on its own cache. Sizes and addresses do not wrap around. *)

From S2P Require Import Prelude Base Monitor.
From stdpp Require Import options.

Module Pool.
Import Monitor.

(** ** SizeClass *)

Definition kSizeClasses : list Z :=
  [8; 16; 32; 48; 64; 96; 128; 192; 256; 384; 512; 768; 1024; 1536; 2048; 3072; 4096; 6144; 8192;
   12288; 16384; 24576; 32768; 49152; 65536; 98304; 131072; 196608; 262144].

Definition kNumClasses : nat := 29.

Definition get_size (index : nat) : Z := nth index kSizeClasses 0.

(** [None] is the value [-1] of an unsigned number. *)
Definition get_index (size : Z) : option nat :=
  if get_size (kNumClasses - 1) <? size then None
  else Some (default (kNumClasses - 1)%nat (find_pos (fun c => size <=? c) kSizeClasses)).

Definition round_up (size : Z) : Z :=
  if get_size (kNumClasses - 1) <? size then size
  else match get_index size with Some i => get_size i | None => size end.

(** ** FreeList *)

Abbreviation memory := (gmap Z Z).

Record FreeList := mkFreeList { head_ : Z; fl_size_ : Z }.

Definition new_free_list : FreeList := mkFreeList 0 0.

Definition next_of (m : memory) (obj : Z) : Z := default 0 (m !! obj).

Definition fl_push (obj : Z) (fl : FreeList) (m : memory) : FreeList * memory :=
  (mkFreeList obj (fl_size_ fl + 1), <[obj := head_ fl]> m).

Definition fl_pop (fl : FreeList) (m : memory) : Z * FreeList :=
  if head_ fl =? 0 then (0, fl)
  else (head_ fl, mkFreeList (next_of m (head_ fl)) (fl_size_ fl - 1)).

Fixpoint pop_batch (n : nat) (fl : FreeList) (m : memory) : list Z * FreeList :=
  match n with
  | O => ([], fl)
  | S n =>
      if head_ fl =? 0 then ([], fl)
      else
        let '(obj, fl) := fl_pop fl m in
        let '(objs, fl) := pop_batch n fl m in (obj :: objs, fl)
  end.

Definition push_batch (objs : list Z) (fl : FreeList) (m : memory) : FreeList * memory :=
  foldl (fun x obj => fl_push obj x.1 x.2) (fl, m) objs.

(** ** PageCache *)

Record Span := mkSpan {
  page_id_ : Z;
  num_pages_ : Z;
  size_class_ : nat;
  free_list_ : Z;
  free_count_ : Z;
  total_objects_ : Z
}.

Record PageCache := mkPC {
  spans : gmap nat Span;                  (** the objects of type [Span] *)
  next_span : nat;
  page_span_map_ : gmap Z nat;
  free_span_lists_ : gmap Z (list nat);
  mmap_calls : nat
}.

Definition new_page_cache : PageCache := mkPC ∅ 0 ∅ ∅ 0.

Definition span_of (id : nat) (p : PageCache) : Span :=
  default (mkSpan 0 0 0 0 0 0) (spans p !! id).

Definition with_span (id : nat) (s : Span) (p : PageCache) : PageCache :=
  mkPC (<[id := s]> (spans p)) (next_span p) (page_span_map_ p) (free_span_lists_ p) (mmap_calls p).

(** [new Span()] with its fields set. *)
Definition new_span (s : Span) (p : PageCache) : nat * PageCache :=
  (next_span p, mkPC (<[next_span p := s]> (spans p)) (S (next_span p)) (page_span_map_ p)
                  (free_span_lists_ p) (mmap_calls p)).

Definition delete_span (id : nat) (p : PageCache) : PageCache :=
  mkPC (delete id (spans p)) (next_span p) (page_span_map_ p) (free_span_lists_ p) (mmap_calls p).

Definition pages (s : Span) : list Z := seqZ (page_id_ s) (num_pages_ s).

(** The loops over the pages of a span. *)
Definition map_pages (id : nat) (p : PageCache) : PageCache :=
  mkPC (spans p) (next_span p)
    (foldl (fun m i => <[i := id]> m) (page_span_map_ p) (pages (span_of id p)))
    (free_span_lists_ p) (mmap_calls p).

Definition unmap_pages (id : nat) (p : PageCache) : PageCache :=
  mkPC (spans p) (next_span p)
    (foldl (fun m i => delete i m) (page_span_map_ p) (pages (span_of id p)))
    (free_span_lists_ p) (mmap_calls p).

Definition free_list_of (k : Z) (p : PageCache) : list nat := default [] (free_span_lists_ p !! k).

Definition with_free_list (k : Z) (l : list nat) (p : PageCache) : PageCache :=
  mkPC (spans p) (next_span p) (page_span_map_ p) (<[k := l]> (free_span_lists_ p)) (mmap_calls p).

Definition push_free (k : Z) (id : nat) (p : PageCache) : PageCache :=
  with_free_list k (id :: free_list_of k p) p.

Definition remove_free (k : Z) (id : nat) (p : PageCache) : PageCache :=
  with_free_list k (filter (fun x => x <> id) (free_list_of k p)) p.

(** The keys of the ordered map from [n] on. *)
Definition keys_from (n : Z) (p : PageCache) : list Z :=
  merge_sort Z.le (filter (fun k => n <= k) (map_to_list (free_span_lists_ p)).*1).

(** The first of them whose list is not empty. *)
Definition first_nonempty (keys : list Z) (p : PageCache) : option (Z * nat) :=
  head (omap (fun k => match free_list_of k p with id :: _ => Some (k, id) | [] => None end) keys).

Section allocation.
(** [mmap]: the first page of what the system gives at its [k]th call for [n] pages. *)
Context (mmap : nat -> Z -> option Z).

Definition allocate_span (num_pages : Z) (p : PageCache) : option nat * PageCache :=
  match free_list_of num_pages p with
  | id :: _ => (Some id, unmap_pages id (remove_free num_pages id p))
  | [] =>
      match first_nonempty (keys_from (num_pages + 1) p) p with
      | Some (k, big) =>
          let p := remove_free k big p in
          let b := span_of big p in
          let remaining_pages := num_pages_ b - num_pages in
          let p :=
            if 0 <? remaining_pages then
              let '(rest, p) := new_span (mkSpan (page_id_ b + num_pages) remaining_pages 0 0 0 0) p in
              push_free remaining_pages rest (map_pages rest p)
            else p in
          let p := with_span big (mkSpan (page_id_ b) num_pages (size_class_ b) (free_list_ b)
                                    (free_count_ b) (total_objects_ b)) p in
          (Some big, unmap_pages big p)
      | None =>
          let call := mmap_calls p in
          let p := mkPC (spans p) (next_span p) (page_span_map_ p) (free_span_lists_ p) (S call) in
          match mmap call num_pages with
          | None => (None, p)
          | Some page =>
              let '(id, p) := new_span (mkSpan page num_pages 0 0 0 0) p in (Some id, p)
          end
      end
  end.
End allocation.

(** The two loops of [coalesce_span]; [None] is running out of fuel. *)
Fixpoint merge_prev (fuel : nat) (id : nat) (p : PageCache) : option PageCache :=
  match fuel with
  | O => None
  | S fuel =>
      let s := span_of id p in
      match page_span_map_ p !! (page_id_ s - 1) with
      | None => Some p
      | Some prev =>
          let q := span_of prev p in
          if negb (page_id_ q + num_pages_ q =? page_id_ s) then Some p
          else
            let p := remove_free (num_pages_ q) prev (unmap_pages prev p) in
            let p := with_span id (mkSpan (page_id_ q) (num_pages_ s + num_pages_ q) (size_class_ s)
                                     (free_list_ s) (free_count_ s) (total_objects_ s)) p in
            merge_prev fuel id (delete_span prev p)
      end
  end.

Fixpoint merge_next (fuel : nat) (id : nat) (p : PageCache) : option PageCache :=
  match fuel with
  | O => None
  | S fuel =>
      let s := span_of id p in
      match page_span_map_ p !! (page_id_ s + num_pages_ s) with
      | None => Some p
      | Some nxt =>
          let q := span_of nxt p in
          if negb (page_id_ s + num_pages_ s =? page_id_ q) then Some p
          else
            let p := remove_free (num_pages_ q) nxt (unmap_pages nxt p) in
            let p := with_span id (mkSpan (page_id_ s) (num_pages_ s + num_pages_ q) (size_class_ s)
                                     (free_list_ s) (free_count_ s) (total_objects_ s)) p in
            merge_next fuel id (delete_span nxt p)
      end
  end.

Definition coalesce_span (id : nat) (p : PageCache) : option PageCache :=
  p ← merge_prev (S (size (spans p))) id p; merge_next (S (size (spans p))) id p.

Definition free_span (id : nat) (p : PageCache) : option PageCache :=
  p ← coalesce_span id p;
  Some (map_pages id (push_free (num_pages_ (span_of id p)) id p)).

(** ** CentralCache, with the memory and the caches of the threads *)

Record Pool := mkPool {
  page_cache : PageCache;
  span_lists_ : gmap nat (list nat);
  mem : memory;
  thread_caches : gmap nat (gmap nat FreeList)
}.

Definition new_pool : Pool := mkPool new_page_cache ∅ ∅ ∅.

Definition span_list (c : nat) (st : Pool) : list nat := default [] (span_lists_ st !! c).

Definition with_span_list (c : nat) (l : list nat) (st : Pool) : Pool :=
  mkPool (page_cache st) (<[c := l]> (span_lists_ st)) (mem st) (thread_caches st).

Definition with_page_cache (p : PageCache) (st : Pool) : Pool :=
  mkPool p (span_lists_ st) (mem st) (thread_caches st).

Definition with_mem (m : memory) (st : Pool) : Pool :=
  mkPool (page_cache st) (span_lists_ st) m (thread_caches st).

(** [obj = free_list_; free_list_ = *free_list_; free_count_--]. *)
Definition take_object (id : nat) (st : Pool) : Z * Pool :=
  let s := span_of id (page_cache st) in
  (free_list_ s,
   with_page_cache
     (with_span id (mkSpan (page_id_ s) (num_pages_ s) (size_class_ s) (next_of (mem st) (free_list_ s))
                      (free_count_ s - 1) (total_objects_ s)) (page_cache st)) st).

(** The loop that cuts a span into objects: the head of their list, how many they
    are, and the memory. *)
Fixpoint carve (fuel : nat) (ptr total_size class_size offset : Z) (head count : Z) (m : memory)
    : option (Z * Z * memory) :=
  match fuel with
  | O => None
  | S fuel =>
      if offset + class_size <=? total_size then
        let obj := ptr + offset in
        carve fuel ptr total_size class_size (offset + class_size) obj (count + 1) (<[obj := head]> m)
      else Some (head, count, m)
  end.

Section caches.
Context (page_size : Z) (mmap : nat -> Z -> option Z).

Definition span_pages (c : nat) : Z := Z.max 1 ((get_size c * 256 + page_size - 1) / page_size).

(** The span of a fresh allocation is cut; [None] is running out of fuel. *)
Definition cut_span (c id : nat) (st : Pool) : option Pool :=
  let class_size := get_size c in
  let s := span_of id (page_cache st) in
  let total_size := num_pages_ s * page_size in
  '(head, count, m) ← carve (S (Z.to_nat (total_size / class_size))) (page_id_ s * page_size) total_size
                        class_size 0 0 0 (mem st);
  Some (with_mem m (with_page_cache
          (with_span id (mkSpan (page_id_ s) (num_pages_ s) c head count count) (page_cache st)) st)).

(** The outer [None] is running out of fuel, the inner one the null pointer. *)
Definition fetch_from_page_cache (c : nat) (st : Pool) : option (option nat * Pool) :=
  let '(r, p) := allocate_span mmap (span_pages c) (page_cache st) in
  match r with
  | None => Some (None, with_page_cache p st)
  | Some id => st ← cut_span c id (with_page_cache p st); Some (Some id, st)
  end.

(** The first span of the class with a free object. *)
Definition find_free (c : nat) (st : Pool) : option nat :=
  find (fun id => 0 <? free_count_ (span_of id (page_cache st))) (span_list c st).

Definition push_span (c id : nat) (st : Pool) : Pool := with_span_list c (id :: span_list c st) st.

(** [0] is the null pointer. *)
Definition central_allocate (c : nat) (st : Pool) : option (Z * Pool) :=
  match find_free c st with
  | Some id => Some (take_object id st)
  | None =>
      '(r, st) ← fetch_from_page_cache c st;
      match r with
      | None => Some (0, st)
      | Some id => Some (take_object id (push_span c id st))
      end
  end.

(** The span of the class that the object lies in. *)
Definition find_span (obj : Z) (c : nat) (st : Pool) : option nat :=
  let page_id := obj / page_size in
  find (fun id => let s := span_of id (page_cache st) in
          (page_id_ s <=? page_id) && (page_id <? page_id_ s + num_pages_ s)) (span_list c st).

(** [*obj = free_list_; free_list_ = obj; free_count_++]. *)
Definition put_object (id : nat) (obj : Z) (st : Pool) : Pool :=
  let s := span_of id (page_cache st) in
  with_mem (<[obj := free_list_ s]> (mem st)) (with_page_cache
    (with_span id (mkSpan (page_id_ s) (num_pages_ s) (size_class_ s) obj (free_count_ s + 1) (total_objects_ s))
       (page_cache st)) st).

Definition wholly_free (id : nat) (st : Pool) : bool :=
  let s := span_of id (page_cache st) in free_count_ s =? total_objects_ s.

(** A span that is wholly free leaves the list and is reset. *)
Definition detach_span (c id : nat) (st : Pool) : Pool :=
  let s := span_of id (page_cache st) in
  with_page_cache (with_span id (mkSpan (page_id_ s) (num_pages_ s) (size_class_ s) 0 0 0) (page_cache st))
    (with_span_list c (filter (fun x => x <> id) (span_list c st)) st).

Definition central_deallocate (obj : Z) (c : nat) (st : Pool) : option Pool :=
  match find_span obj c st with
  | None => Some st
  | Some id =>
      let st := put_object id obj st in
      if wholly_free id st then
        let st := detach_span c id st in
        p ← free_span id (page_cache st);
        Some (with_page_cache p st)
      else Some st
  end.

(** ** ThreadCache, of thread [t] *)

Definition free_list (t c : nat) (st : Pool) : FreeList :=
  default new_free_list (thread_caches st !! t ≫= (.!! c)).

Definition with_cache (t c : nat) (fl : FreeList) (st : Pool) : Pool :=
  mkPool (page_cache st) (span_lists_ st) (mem st)
    (<[t := <[c := fl]> (default ∅ (thread_caches st !! t))]> (thread_caches st)).

Definition cache_push (t c : nat) (obj : Z) (st : Pool) : Pool :=
  let '(fl, m) := fl_push obj (free_list t c st) (mem st) in with_cache t c fl (with_mem m st).

Definition cache_pop (t c : nat) (st : Pool) : Z * Pool :=
  let '(obj, fl) := fl_pop (free_list t c st) (mem st) in (obj, with_cache t c fl st).

(** The loop that collects up to [n] objects. *)
Fixpoint collect (n : nat) (c : nat) (st : Pool) : option (list Z * Pool) :=
  match n with
  | O => Some ([], st)
  | S n =>
      '(obj, st) ← central_allocate c st;
      if obj =? 0 then Some ([], st)
      else '(objs, st) ← collect n c st; Some (obj :: objs, st)
  end.

Definition fetch_from_central (t c : nat) (st : Pool) : option Pool :=
  '(objs, st) ← collect 256 c st;
  Some (foldl (fun st obj => cache_push t c obj st) st objs).

Definition return_objects (objs : list Z) (c : nat) (st : Pool) : option Pool :=
  foldl (fun st obj => st ≫= central_deallocate obj c) (Some st) objs.

Fixpoint return_loop (fuel : nat) (t c : nat) (target : nat) (st : Pool) : option Pool :=
  match fuel with
  | O => None
  | S fuel =>
      if (target =? 0)%nat then Some st
      else
        let '(objs, fl) := pop_batch (Nat.min target 256) (free_list t c st) (mem st) in
        let st := with_cache t c fl st in
        if (length objs =? 0)%nat then Some st
        else st ← return_objects objs c st; return_loop fuel t c (target - length objs) st
  end.

Definition return_to_central (t c : nat) (return_all : bool) (st : Pool) : option Pool :=
  let fl := free_list t c st in
  let target := Z.to_nat (if return_all then fl_size_ fl else fl_size_ fl / 2) in
  if (target =? 0)%nat then Some st else return_loop (S target) t c target st.

(** A request that is passed on to [malloc], or a pointer. *)
Inductive allocated := Malloc (size : Z) | Pointer (obj : Z).

Definition thread_allocate (t : nat) (size : Z) (st : Pool) : option (allocated * Pool) :=
  match get_index size with
  | None => Some (Malloc size, st)
  | Some c =>
      if negb (head_ (free_list t c st) =? 0) then
        let '(obj, st) := cache_pop t c st in Some (Pointer obj, st)
      else
        st ← fetch_from_central t c st;
        if negb (head_ (free_list t c st) =? 0) then
          let '(obj, st) := cache_pop t c st in Some (Pointer obj, st)
        else Some (Pointer 0, st)
  end.

(** [false] is an object passed on to [free]. *)
Definition thread_deallocate (t : nat) (obj size : Z) (st : Pool) : option (bool * Pool) :=
  match get_index size with
  | None => Some (false, st)
  | Some c =>
      let st := cache_push t c obj st in
      if 32 <? fl_size_ (free_list t c st) then st ← return_to_central t c false st; Some (true, st)
      else Some (true, st)
  end.

Definition cached_object_count (t c : nat) (st : Pool) : Z :=
  if (kNumClasses <=? c)%nat then 0 else fl_size_ (free_list t c st).

(** The destructor; afterwards the thread has no cache. *)
Definition thread_exit (t : nat) (st : Pool) : option Pool :=
  st ← foldl (fun st c => st ≫= fun st =>
          if head_ (free_list t c st) =? 0 then Some st else return_to_central t c true st)
        (Some st) (seq 0 kNumClasses);
  Some (mkPool (page_cache st) (span_lists_ st) (mem st) (delete t (thread_caches st))).

(** ** MemoryPool *)

Definition MemoryPool_allocate (t : nat) (size : Z) (st : Pool) : option (allocated * Pool) :=
  if get_size (kNumClasses - 1) <? size then Some (Malloc size, st)
  else match get_index size with None => Some (Malloc size, st) | Some _ => thread_allocate t size st end.

Definition MemoryPool_deallocate (t : nat) (obj size : Z) (st : Pool) : option (bool * Pool) :=
  if get_size (kNumClasses - 1) <? size then Some (false, st)
  else match get_index size with None => Some (false, st) | Some _ => thread_deallocate t obj size st end.

(** ** Threads that use the pool at the same time

    A thread is in the middle of a request at one of these points. A call of the central
    cache is made of steps: the lock of the class is taken, the spans are searched, and
    then an object is taken, or a span is asked of the page cache (under its own mutex) and
    cut, or an object is put back and a span that is wholly free is given back (again under
    the mutex of the page cache); the last of these steps releases the lock. *)
Inductive phase :=
  | Outside             (** before the lock of the class *)
  | Inside              (** with the lock, before the search *)
  | Taking (id : nat)   (** allocate: this span has a free object *)
  | Asking              (** allocate: no span has one *)
  | Cutting (id : nat)  (** allocate: with a span of the page cache *)
  | Putting (id : nat)  (** deallocate: the object lies in this span *)
  | Freeing (id : nat). (** deallocate: this span is detached and goes to the page cache *)

(** What the call is made for: [fetch_from_central] with so many calls to come and these
    objects got, or [return_to_central] with an object, the rest of its batch, what is
    left of the target and, in the destructor, the classes that come after. *)
Inductive errand :=
  | Fetch (calls : nat) (objs : list Z)
  | Give (obj : Z) (objs : list Z) (target : nat) (rest : option (list nat)).

Inductive point :=
  | Calling (c : nat) (w : errand) (ph : phase)
  | Filling (c : nat) (objs : list Z)                            (** after the calls of [fetch_from_central] *)
  | Returning (c : nat) (target : nat) (rest : option (list nat)) (** the loop of [return_to_central] *)
  | Leaving (cs : list nat).                                     (** the loop of the destructor *)

(** [locks_] has the thread that holds the lock of a class, [inside] the threads that are
    in the middle of a request, [held] the class of every block that a client has. *)
Record Sys := mkSys {
  pool : Pool;
  locks_ : gmap nat nat;
  inside : gmap nat point;
  held : gmap Z nat
}.

Definition new_sys : Sys := mkSys new_pool ∅ ∅ ∅.

(** Thread [t] goes to a point, or back to its caller. *)
Definition go (t : nat) (p : option point) (st : Pool) (s : Sys) : Sys :=
  mkSys st (locks_ s) (partial_alter (fun _ => p) t (inside s)) (held s).

Definition lock (c t : nat) (s : Sys) : Sys := mkSys (pool s) (<[c := t]> (locks_ s)) (inside s) (held s).
Definition unlock (c : nat) (s : Sys) : Sys := mkSys (pool s) (delete c (locks_ s)) (inside s) (held s).
Definition hand_out (obj : Z) (c : nat) (s : Sys) : Sys := mkSys (pool s) (locks_ s) (inside s) (<[obj := c]> (held s)).
Definition take_back (obj : Z) (s : Sys) : Sys := mkSys (pool s) (locks_ s) (inside s) (delete obj (held s)).

(** The loop of [fetch_from_central] after a call that gave [obj]. *)
Definition fetched (c calls : nat) (objs : list Z) (obj : Z) : point :=
  if obj =? 0 then Filling c objs
  else match calls with
       | O | S O => Filling c (objs ++ [obj])
       | S calls => Calling c (Fetch calls (objs ++ [obj])) Outside
       end.

(** The loops of [return_to_central] after an object. *)
Definition given (c : nat) (objs : list Z) (target : nat) (rest : option (list nat)) : point :=
  match objs with
  | [] => Returning c target rest
  | obj :: objs => Calling c (Give obj objs target rest) Outside
  end.

Definition call_step (t c : nat) (w : errand) (ph : phase) (s : Sys) : option Sys :=
  let st := pool s in
  match ph, w with
  | Outside, _ =>
      match locks_ s !! c with None => Some (lock c t (go t (Some (Calling c w Inside)) st s)) | Some _ => None end
  | Inside, Fetch _ _ =>
      Some (go t (Some (Calling c w (match find_free c st with Some id => Taking id | None => Asking end))) st s)
  | Taking id, Fetch calls objs =>
      let '(obj, st) := take_object id st in Some (unlock c (go t (Some (fetched c calls objs obj)) st s))
  | Asking, Fetch calls objs =>
      let '(r, p) := allocate_span mmap (span_pages c) (page_cache st) in
      let st := with_page_cache p st in
      match r with
      | None => Some (unlock c (go t (Some (fetched c calls objs 0)) st s))
      | Some id => Some (go t (Some (Calling c w (Cutting id))) st s)
      end
  | Cutting id, Fetch calls objs =>
      st ← cut_span c id st;
      let '(obj, st) := take_object id (push_span c id st) in
      Some (unlock c (go t (Some (fetched c calls objs obj)) st s))
  | Inside, Give obj objs target rest =>
      match find_span obj c st with
      | None => Some (unlock c (go t (Some (given c objs target rest)) st s))
      | Some id => Some (go t (Some (Calling c w (Putting id))) st s)
      end
  | Putting id, Give obj objs target rest =>
      let st := put_object id obj st in
      if wholly_free id st then Some (go t (Some (Calling c w (Freeing id))) (detach_span c id st) s)
      else Some (unlock c (go t (Some (given c objs target rest)) st s))
  | Freeing id, Give obj objs target rest =>
      p ← free_span id (page_cache st);
      Some (unlock c (go t (Some (given c objs target rest)) (with_page_cache p st) s))
  | _, _ => None
  end.

(** The next step of a thread that is in the middle of a request; [None] if it has to
    wait for a lock. *)
Definition advance (t : nat) (s : Sys) : option Sys :=
  let st := pool s in
  p ← inside s !! t;
  match p with
  | Calling c w ph => call_step t c w ph s
  | Filling c objs =>
      let st := foldl (fun st obj => cache_push t c obj st) st objs in
      if head_ (free_list t c st) =? 0 then Some (go t None st s)
      else let '(obj, st) := cache_pop t c st in Some (hand_out obj c (go t None st s))
  | Returning c target rest =>
      let over := Some (go t (Leaving <$> rest) st s) in
      if (target =? 0)%nat then over
      else
        let '(objs, fl) := pop_batch (Nat.min target 256) (free_list t c st) (mem st) in
        if (length objs =? 0)%nat then over
        else Some (go t (Some (given c objs (target - length objs) rest)) (with_cache t c fl st) s)
  | Leaving [] =>
      Some (go t None (mkPool (page_cache st) (span_lists_ st) (mem st) (delete t (thread_caches st))) s)
  | Leaving (c :: cs) =>
      let fl := free_list t c st in
      Some (go t (Some (if head_ fl =? 0 then Leaving cs else Returning c (Z.to_nat (fl_size_ fl)) (Some cs))) st s)
  end.

(** The requests of a thread that is outside the pool, up to their first step that needs a
    lock; [None] for a thread that is in the middle of one and for sizes that go to
    [malloc] and [free]. *)
Definition request_allocate (t : nat) (size : Z) (s : Sys) : option Sys :=
  match inside s !! t, get_index size with
  | None, Some c =>
      if head_ (free_list t c (pool s)) =? 0 then Some (go t (Some (Calling c (Fetch 256 []) Outside)) (pool s) s)
      else let '(obj, st) := cache_pop t c (pool s) in Some (hand_out obj c (go t None st s))
  | _, _ => None
  end.

Definition request_free (t : nat) (obj size : Z) (s : Sys) : option Sys :=
  match inside s !! t, get_index size with
  | None, Some c =>
      let st := cache_push t c obj (pool s) in
      let n := fl_size_ (free_list t c st) in
      Some (take_back obj (go t (if 32 <? n then Some (Returning c (Z.to_nat (n / 2)) None) else None) st s))
  | _, _ => None
  end.

Definition request_exit (t : nat) (s : Sys) : option Sys :=
  match inside s !! t with
  | None => Some (go t (Some (Leaving (seq 0 kNumClasses))) (pool s) s)
  | Some _ => None
  end.

(** Threads allocate, give blocks back with a size of the class they asked for, write
    anything into the blocks they hold, and exit, step by step and in any order. *)
Inductive pool_step : Sys -> Sys -> Prop :=
  | step_allocate t size s s' : request_allocate t size s = Some s' -> pool_step s s'
  | step_free t obj size c s s' :
      held s !! obj = Some c -> get_index size = Some c -> request_free t obj size s = Some s' -> pool_step s s'
  | step_exit t s s' : request_exit t s = Some s' -> pool_step s s'
  | step_advance t s s' : advance t s = Some s' -> pool_step s s'
  | step_write obj c m s :
      held s !! obj = Some c -> (forall x, ~ (obj <= x < obj + get_size c) -> m !! x = mem (pool s) !! x) ->
      pool_step s (mkSys (with_mem m (pool s)) (locks_ s) (inside s) (held s)).

Definition pool_reachable : Sys -> Prop := rtc pool_step new_sys.
End caches.
End Pool.
