(* ===== verification/SpanLinks.v ===== *)
(** * The links of a SpanList: memorypool/span.h, span.cpp

    [SpanList] is a circular list with two links in each node and a sentinel. Its
    operations are written here on the links, and refine those on the list of the
    spans between the sentinel and itself, which is what Pool.v uses. *)

From S2P Require Import Prelude Base.
From stdpp Require Import options.

Module SpanLinks.

(** A missing entry is a null link; [None] as a result follows one. *)
Record SpanList := mkSpanList { head_ : nat; next_ : gmap nat nat; prev_ : gmap nat nat }.

Definition new_span_list (h : nat) : SpanList := mkSpanList h {[h := h]} {[h := h]}.

Definition push_front (span : nat) (sl : SpanList) : option SpanList :=
  let h := head_ sl in
  n ← next_ sl !! h;
  let nx := <[span := n]> (next_ sl) in
  let pv := <[span := h]> (prev_ sl) in
  Some (mkSpanList h (<[h := span]> nx) (<[n := span]> pv)).

Definition push_back (span : nat) (sl : SpanList) : option SpanList :=
  let h := head_ sl in
  let nx := <[span := h]> (next_ sl) in
  p ← prev_ sl !! h;
  let pv := <[span := p]> (prev_ sl) in
  Some (mkSpanList h (<[p := span]> nx) (<[h := span]> pv)).

Definition remove (span : nat) (sl : SpanList) : option SpanList :=
  p ← prev_ sl !! span;
  n ← next_ sl !! span;
  let nx := <[p := n]> (next_ sl) in
  n ← nx !! span;
  let pv := <[n := p]> (prev_ sl) in
  Some (mkSpanList (head_ sl) (delete span nx) (delete span pv)).

Definition empty (sl : SpanList) : bool := bool_decide (next_ sl !! head_ sl = Some (head_ sl)).
Definition front (sl : SpanList) : option nat := next_ sl !! head_ sl.
Definition back (sl : SpanList) : option nat := prev_ sl !! head_ sl.

(** The walk of the iterator from [cur] to [end()]; [None] is a null link or no fuel. *)
Fixpoint walk (fuel : nat) (sl : SpanList) (cur : nat) : option (list nat) :=
  if (cur =? head_ sl)%nat then Some []
  else
    match fuel with
    | O => None
    | S fuel => n ← next_ sl !! cur; l ← walk fuel sl n; Some (cur :: l)
    end.

Definition iterate (fuel : nat) (sl : SpanList) : option (list nat) :=
  n ← next_ sl !! head_ sl; walk fuel sl n.

Definition size (fuel : nat) (sl : SpanList) : option nat := length <$> iterate fuel sl.

(** The spans that the destructor deletes, the sentinel last. *)
Definition destroy (fuel : nat) (sl : SpanList) : option (list nat) :=
  l ← iterate fuel sl; Some (l ++ [head_ sl]).

(** ** The list of its spans *)

Fixpoint linked (nx pv : gmap nat nat) (w : list nat) : Prop :=
  match w with
  | x :: (y :: _) as w' => nx !! x = Some y /\ pv !! y = Some x /\ linked nx pv w'
  | _ => True
  end.

Record repr (sl : SpanList) (l : list nat) : Prop := {
  re_nodup : NoDup (head_ sl :: l);
  re_linked : linked (next_ sl) (prev_ sl) (head_ sl :: l ++ [head_ sl])
}.

Lemma linked_app nx pv w1 x w2 : linked nx pv (w1 ++ x :: w2) <-> linked nx pv (w1 ++ [x]) /\ linked nx pv (x :: w2).
Proof.
  induction w1 as [|y w1 IH]; [cbn; tauto|].
  destruct w1 as [|z w1]; cbn [app] in *; [cbn; tauto|]. cbn [linked] in *. tauto.
Qed.

Lemma linked_frame nx pv nx' pv' x w :
  (forall y, y ∈ removelast (x :: w) -> nx' !! y = nx !! y) -> (forall y, y ∈ w -> pv' !! y = pv !! y) ->
  linked nx pv (x :: w) -> linked nx' pv' (x :: w).
Proof.
  revert x. induction w as [|z w IH]; intros x Hn Hp; [done|]. cbn [linked]. intros (H1 & H2 & H3).
  split; [rewrite Hn by left; done|]. split; [rewrite Hp by left; done|]. apply IH; [| |done].
  - intros y Hy. apply Hn. by right.
  - intros y Hy. apply Hp. by right.
Qed.

Lemma linked_frame_tl nx pv nx' pv' w :
  (forall y, y ∈ removelast w -> nx' !! y = nx !! y) -> (forall y, y ∈ tail w -> pv' !! y = pv !! y) ->
  linked nx pv w -> linked nx' pv' w.
Proof. destruct w as [|x w]; [done|]. apply linked_frame. Qed.

Lemma removelast_snoc {A} (l : list A) x : removelast (l ++ [x]) = l.
Proof. apply removelast_last. Qed.

Lemma new_span_list_repr h : repr (new_span_list h) [].
Proof. split; [apply NoDup_singleton|]. cbn. by rewrite lookup_singleton_eq. Qed.

(** The node after the sentinel, and what follows it. *)
Lemma after_head sl l :
  repr sl l -> exists y w, l ++ [head_ sl] = y :: w /\ next_ sl !! head_ sl = Some y.
Proof.
  intros [_ Hl]. destruct (l ++ [head_ sl]) as [|y w] eqn:E; [by destruct l|]. exists y, w. split; [done|]. apply Hl.
Qed.

Lemma push_front_repr sl l x :
  repr sl l -> x ∉ head_ sl :: l -> exists sl', push_front x sl = Some sl' /\ repr sl' (x :: l) /\ head_ sl' = head_ sl.
Proof.
  intros Hr Hx. destruct (after_head sl l Hr) as (y & w & E & Hy). destruct Hr as [Hd Hl].
  unfold push_front. rewrite Hy. cbn [mbind option_bind]. eexists. split; [done|]. split; [|done].
  apply not_elem_of_cons in Hx as [Hxh Hxl]. apply NoDup_cons in Hd as [Hh Hd].
  assert (y <> x) as Hyx.
  { intros ->. assert (x ∈ l ++ [head_ sl]) as [?|?%list_elem_of_singleton]%elem_of_app by (rewrite E; left); done. }
  assert (removelast (y :: w) = l) as Hrl by (rewrite <- E; apply removelast_snoc).
  assert (NoDup (y :: w)) as Hdw.
  { rewrite <- E. apply NoDup_app. split_and!; [done| |apply NoDup_singleton]. intros z Hz ->%list_elem_of_singleton. done. }
  split; cbn [head_ next_ prev_].
  - rewrite !NoDup_cons, not_elem_of_cons. split_and!; done.
  - cbn [app]. rewrite E. rewrite E in Hl. cbn [linked] in *. destruct Hl as (_ & _ & Hl).
    rewrite !lookup_insert_eq. rewrite (lookup_insert_ne _ y x), lookup_insert_eq by done.
    rewrite (lookup_insert_ne _ (head_ sl) x), lookup_insert_eq by done. split_and!; try done.
    apply (linked_frame (next_ sl) (prev_ sl)); [| |exact Hl].
    + rewrite Hrl. intros z Hz. rewrite !lookup_insert_ne; congruence.
    + apply NoDup_cons in Hdw as [Hyw _]. intros z Hz. assert (z ∈ l ++ [head_ sl]) as Hz' by (rewrite E; by right).
      rewrite !lookup_insert_ne; [done| |congruence]. intros ->. apply elem_of_app in Hz' as [?|?%list_elem_of_singleton]; done.
Qed.

(** The nodes up to the last span. *)
Lemma before_end sl l :
  repr sl l -> exists w a, head_ sl :: l = w ++ [a] /\ prev_ sl !! head_ sl = Some a /\ tail (w ++ [a]) = l.
Proof.
  intros [_ Hl]. destruct (exists_last (l := head_ sl :: l)) as (w & a & E); [done|]. exists w, a. split; [done|].
  split; [|by rewrite <- E]. change (head_ sl :: l ++ [head_ sl]) with ((head_ sl :: l) ++ [head_ sl]) in Hl.
  rewrite E, <- app_assoc in Hl. apply linked_app in Hl as [_ Hl]. apply Hl.
Qed.

Lemma push_back_repr sl l x :
  repr sl l -> x ∉ head_ sl :: l -> exists sl', push_back x sl = Some sl' /\ repr sl' (l ++ [x]) /\ head_ sl' = head_ sl.
Proof.
  intros Hr Hx. destruct (before_end sl l Hr) as (w & a & E & Ha & Htl). destruct Hr as [Hd Hl].
  unfold push_back. rewrite Ha. cbn [mbind option_bind]. eexists. split; [done|]. split; [|done].
  pose proof Hd as Hd'. rewrite E in Hd'. apply NoDup_app in Hd' as (_ & Hwa & _).
  apply not_elem_of_cons in Hx as [Hxh Hxl]. pose proof Hd as [Hh Hdl]%NoDup_cons.
  assert (forall z, z ∈ w -> z <> x) as Hwx.
  { intros z Hz ->. assert (x ∈ head_ sl :: l) as [?|?]%elem_of_cons by (rewrite E; apply elem_of_app; by left); done. }
  assert (a <> x) as Hax.
  { intros ->. assert (x ∈ head_ sl :: l) as [?|?]%elem_of_cons by (rewrite E; apply elem_of_app; right; left); done. }
  split; cbn [head_ next_ prev_].
  - rewrite NoDup_cons, elem_of_app, list_elem_of_singleton. split; [naive_solver|].
    apply NoDup_app. split_and!; [done| |apply NoDup_singleton]. intros z Hz ->%list_elem_of_singleton. done.
  - rewrite <- app_assoc. change (head_ sl :: l ++ [x] ++ [head_ sl]) with ((head_ sl :: l) ++ [x; head_ sl]).
    change (head_ sl :: l ++ [head_ sl]) with ((head_ sl :: l) ++ [head_ sl]) in Hl.
    rewrite E, <- app_assoc in Hl |- *. apply linked_app in Hl as [Hl _]. apply linked_app. split.
    + apply (linked_frame_tl (next_ sl) (prev_ sl)); [| |exact Hl].
      * rewrite removelast_snoc. intros z Hz. rewrite !lookup_insert_ne; [done|by apply not_eq_sym, Hwx|].
        intros ->. apply (Hwa z Hz). left.
      * rewrite Htl. intros z Hz. rewrite !lookup_insert_ne; congruence.
    + cbn [linked]. rewrite !lookup_insert_eq. rewrite (lookup_insert_ne _ (head_ sl) x), lookup_insert_eq by congruence.
      rewrite (lookup_insert_ne _ a x), lookup_insert_eq by done. done.
Qed.

Lemma remove_repr sl l1 x l2 :
  repr sl (l1 ++ x :: l2) -> exists sl', remove x sl = Some sl' /\ repr sl' (l1 ++ l2) /\ head_ sl' = head_ sl.
Proof.
  intros [Hd Hl]. destruct (exists_last (l := head_ sl :: l1)) as (w & a & E1); [done|].
  destruct (l2 ++ [head_ sl]) as [|b v] eqn:E2; [by destruct l2|].
  assert (head_ sl :: (l1 ++ x :: l2) ++ [head_ sl] = w ++ a :: x :: b :: v) as Eall.
  { rewrite <- app_assoc. change ((head_ sl :: l1) ++ (x :: l2) ++ [head_ sl] = w ++ a :: x :: b :: v).
    rewrite E1. cbn [app]. by rewrite E2, <- app_assoc. }
  rewrite Eall in Hl. apply linked_app in Hl as [Hwa Hl]. cbn [linked] in Hl.
  destruct Hl as (Hax & Hxa & Hxb & Hbx & Hbv).
  assert (NoDup (w ++ [a] ++ x :: l2)) as Hd1 by (rewrite app_assoc, <- E1; exact Hd).
  assert (NoDup (l1 ++ x :: b :: v)) as Hd2.
  { rewrite <- E2. apply NoDup_cons in Hd as [Hh Hd]. rewrite app_comm_cons, app_assoc. apply NoDup_app.
    split_and!; [done| |apply NoDup_singleton]. intros z Hz ->%list_elem_of_singleton. done. }
  assert (a <> x) as Hne1 by (apply NoDup_app in Hd1 as (_ & _ & [Hn _]%NoDup_cons); set_solver).
  assert (b <> x) as Hne2 by (apply NoDup_app in Hd2 as (_ & _ & [Hn _]%NoDup_cons); set_solver).
  unfold remove. rewrite Hxa, Hxb. cbn [mbind option_bind]. rewrite lookup_insert_ne, Hxb by done. cbn [mbind option_bind].
  eexists. split; [done|]. split; [|done]. split; cbn [head_ next_ prev_].
  - change (NoDup ((head_ sl :: l1) ++ l2)). change (NoDup ((head_ sl :: l1) ++ x :: l2)) in Hd.
    apply NoDup_app in Hd as (? & Hn & [_ ?]%NoDup_cons). apply NoDup_app. split_and!; try done.
    intros z Hz Hz2. apply (Hn z Hz). by right.
  - rewrite <- app_assoc. change (head_ sl :: l1 ++ l2 ++ [head_ sl]) with ((head_ sl :: l1) ++ l2 ++ [head_ sl]).
    rewrite E1, E2, <- app_assoc. cbn [app]. apply linked_app. split; [|cbn [linked]; split_and!].
    + apply (linked_frame_tl (next_ sl) (prev_ sl)); [| |exact Hwa].
      * rewrite removelast_snoc. intros z Hz. apply NoDup_app in Hd1 as (_ & Hn & _).
        rewrite lookup_delete_ne, lookup_insert_ne; [done| |]; intros ->; apply (Hn z Hz); set_solver.
      * rewrite <- E1. cbn [tail]. intros z Hz. apply NoDup_app in Hd2 as (_ & Hn & _).
        rewrite lookup_delete_ne, lookup_insert_ne; [done| |]; intros ->; apply (Hn z Hz); set_solver.
    + by rewrite lookup_delete_ne, lookup_insert_eq.
    + by rewrite lookup_delete_ne, lookup_insert_eq.
    + apply (linked_frame (next_ sl) (prev_ sl)); [| |exact Hbv].
      * rewrite <- E2, removelast_snoc. intros z Hz. apply NoDup_app in Hd1 as (_ & _ & Hd1).
        cbn [app] in Hd1. apply NoDup_cons in Hd1 as [Ha [Hxn _]%NoDup_cons].
        rewrite lookup_delete_ne, lookup_insert_ne; [done| |]; intros ->; [apply Ha; by right|done].
      * intros z Hz. apply NoDup_app in Hd2 as (_ & _ & [Hxn [Hbn _]%NoDup_cons]%NoDup_cons).
        rewrite lookup_delete_ne, lookup_insert_ne; [done| |]; intros ->; [done|apply Hxn; by right].
Qed.

(** The walk over the list ends at the sentinel and visits every span in order. *)
Lemma walk_repr sl l w k fuel :
  linked (next_ sl) (prev_ sl) (k :: w ++ [head_ sl]) -> (forall y, y ∈ k :: w -> y <> head_ sl) ->
  (length w < fuel)%nat -> l = k :: w -> walk fuel sl k = Some l.
Proof.
  intros Hl Hne Hf ->. revert k fuel Hl Hne Hf. induction w as [|z w IH]; intros k fuel Hl Hne Hf;
    (destruct fuel as [|fuel]; [cbn in Hf; lia|]); cbn [walk]; destruct (Nat.eqb_spec k (head_ sl)) as [E|_];
    try (destruct (Hne k ltac:(left)); exact E).
  - cbn in Hl. destruct Hl as [-> _]. cbn [mbind option_bind]. destruct fuel; cbn; by rewrite Nat.eqb_refl.
  - cbn [app linked] in Hl. destruct Hl as (-> & _ & Hl). cbn [mbind option_bind].
    rewrite (IH z fuel); [done|done|intros y Hy; apply Hne; by right|cbn in Hf; lia].
Qed.

Lemma iterate_repr sl l fuel : repr sl l -> (length l <= fuel)%nat -> iterate fuel sl = Some l.
Proof.
  intros [Hd Hl] Hf. unfold iterate. apply NoDup_cons in Hd as [Hh _]. destruct l as [|k w].
  - cbn in Hl. destruct Hl as [-> _]. cbn. destruct fuel; cbn; by rewrite Nat.eqb_refl.
  - cbn [app linked] in Hl. destruct Hl as (-> & _ & Hl). cbn [mbind option_bind].
    apply (walk_repr sl _ w); [done|intros y Hy ->; done|cbn in Hf; lia|done].
Qed.

Lemma filter_all (P : nat -> Prop) `{!forall x, Decision (P x)} (l : list nat) : (forall x, x ∈ l -> P x) -> filter P l = l.
Proof.
  induction l as [|x l IH]; intros Hall; [done|]. rewrite filter_cons_True by (apply Hall; left). f_equal. apply IH.
  intros y Hy. apply Hall. by right.
Qed.

(** ** The operations on links are those on lists *)

Theorem span_list_refines sl l fuel :
  repr sl l -> (length l <= fuel)%nat ->
  (forall x, x ∉ head_ sl :: l -> exists sl', push_front x sl = Some sl' /\ repr sl' (x :: l)) /\
  (forall x, x ∉ head_ sl :: l -> exists sl', push_back x sl = Some sl' /\ repr sl' (l ++ [x])) /\
  (forall x, x ∈ l -> exists sl', remove x sl = Some sl' /\ repr sl' (filter (fun y => y <> x) l)) /\
  iterate fuel sl = Some l /\ size fuel sl = Some (length l) /\ empty sl = bool_decide (l = []) /\
  front sl = Some (default (head_ sl) (head l)) /\ back sl = Some (default (head_ sl) (last l)) /\
  destroy fuel sl = Some (l ++ [head_ sl]).
Proof.
  intros Hr Hf. pose proof (iterate_repr sl l fuel Hr Hf) as Hit. pose proof Hr as [Hd Hl].
  apply NoDup_cons in Hd as [Hh Hd]. destruct (before_end sl l Hr) as (w & a & E & Ha & _).
  destruct (after_head sl l Hr) as (y & v & Ey & Hy). split_and!.
  - intros x Hx. destruct (push_front_repr sl l x Hr Hx) as (? & ? & ? & _). eauto.
  - intros x Hx. destruct (push_back_repr sl l x Hr Hx) as (? & ? & ? & _). eauto.
  - intros x (l1 & l2 & ->)%list_elem_of_split. destruct (remove_repr sl l1 x l2 Hr) as (sl' & ? & Hr' & _). exists sl'.
    split; [done|]. enough (filter (fun y => y <> x) (l1 ++ x :: l2) = l1 ++ l2) as -> by done.
    apply NoDup_app in Hd as (_ & H1 & [H2 _]%NoDup_cons). rewrite filter_app, filter_cons_False by (by intros []).
    f_equal; apply filter_all; intros z Hz ->; [apply (H1 x Hz); left|done].
  - done.
  - unfold size. by rewrite Hit.
  - unfold empty. rewrite Hy. apply bool_decide_ext. destruct l as [|k l]; cbn in Ey; injection Ey as <- <-; [done|].
    split; [|done]. intros [= E0]. destruct Hh. rewrite E0. left.
  - unfold front. rewrite Hy. destruct l; cbn in Ey; by injection Ey as <- <-.
  - unfold back. rewrite Ha. f_equal. destruct (last l) as [z|] eqn:El; cbn.
    + assert (last (head_ sl :: l) = Some z) as Hz by (destruct l; [done|exact El]). rewrite E, last_snoc in Hz. congruence.
    + apply last_None in El as ->. destruct w as [|? [|]]; [by injection E|done|done].
  - unfold destroy. by rewrite Hit.
Qed.
End SpanLinks.
