(* ===== verification/PageCacheProps.v ===== *)
(** * Properties of the page cache: no page belongs to two spans, the maps are
    exact, neighbours are merged, and merging ends *)

From S2P Require Import Prelude Base Monitor Pool.
From stdpp Require Import options.

Module PageCacheProps.
Import Pool.

(** ** The maps of the page cache *)

Definition has_page (s : Span) (pg : Z) : Prop := page_id_ s <= pg < page_id_ s + num_pages_ s.

Lemma elem_of_pages s pg : pg ∈ pages s <-> has_page s pg.
Proof. unfold pages, has_page. rewrite elem_of_seqZ. lia. Qed.

Lemma lookup_map_all (m : gmap Z nat) id l pg :
  foldl (fun m i => <[i := id]> m) m l !! pg = if decide (pg ∈ l) then Some id else m !! pg.
Proof.
  revert m. induction l as [|i l IH]; intros m; cbn; [done|]. rewrite IH.
  destruct (decide (pg ∈ l)) as [Hin|Hin].
  - rewrite decide_True by (by right). done.
  - destruct (decide (pg = i)) as [->|Hne].
    + rewrite lookup_insert_eq, decide_True by (by left). done.
    + rewrite lookup_insert_ne by done. rewrite decide_False; [done|]. intros [?|?]%elem_of_cons; done.
Qed.

Lemma lookup_unmap_all (m : gmap Z nat) l pg :
  foldl (fun m i => delete i m) m l !! pg = if decide (pg ∈ l) then None else m !! pg.
Proof.
  revert m. induction l as [|i l IH]; intros m; cbn; [done|]. rewrite IH.
  destruct (decide (pg ∈ l)) as [Hin|Hin].
  - rewrite decide_True by (by right). done.
  - destruct (decide (pg = i)) as [->|Hne].
    + rewrite lookup_delete_eq, decide_True by (by left). done.
    + rewrite lookup_delete_ne by done. rewrite decide_False; [done|]. intros [?|?]%elem_of_cons; done.
Qed.

Lemma lookup_map_pages id p pg :
  page_span_map_ (map_pages id p) !! pg =
    if decide (pg ∈ pages (span_of id p)) then Some id else page_span_map_ p !! pg.
Proof. apply lookup_map_all. Qed.

Lemma lookup_unmap_pages id p pg :
  page_span_map_ (unmap_pages id p) !! pg =
    if decide (pg ∈ pages (span_of id p)) then None else page_span_map_ p !! pg.
Proof. apply lookup_unmap_all. Qed.

Lemma free_list_of_with k l p k' :
  free_list_of k' (with_free_list k l p) = if decide (k' = k) then l else free_list_of k' p.
Proof.
  unfold free_list_of, with_free_list. cbn. case_decide as E; [subst; by rewrite lookup_insert_eq|].
  by rewrite lookup_insert_ne.
Qed.

Lemma elem_of_push_free k id p k' x :
  x ∈ free_list_of k' (push_free k id p) <-> (x = id /\ k' = k) \/ x ∈ free_list_of k' p.
Proof.
  unfold push_free. rewrite free_list_of_with. case_decide as E; [subst; set_solver|]. naive_solver.
Qed.

Lemma elem_of_remove_free k id p k' x :
  x ∈ free_list_of k' (remove_free k id p) <-> x ∈ free_list_of k' p /\ (x <> id \/ k' <> k).
Proof.
  unfold remove_free. rewrite free_list_of_with. case_decide as E; [subst|naive_solver].
  rewrite list_elem_of_filter. naive_solver.
Qed.

(** The search for a larger span. *)
Lemma first_nonempty_Some keys p k id :
  first_nonempty keys p = Some (k, id) -> k ∈ keys /\ id ∈ free_list_of k p.
Proof.
  unfold first_nonempty. induction keys as [|k0 keys IH]; cbn; [done|].
  destruct (free_list_of k0 p) as [|i l] eqn:E; cbn.
  - intros [? ?]%IH. split; [by right|done].
  - intros [= <- <-]. rewrite E. split; left.
Qed.

Lemma elem_of_keys_from n p k : k ∈ keys_from n p -> n <= k.
Proof.
  unfold keys_from. rewrite merge_sort_Permutation, list_elem_of_filter. tauto.
Qed.

(** ** The invariant *)

Section page_cache.
Context (mmap : nat -> Z -> option Z).

Record page_ok (used : gset nat) (p : PageCache) : Prop := {
  po_span : forall id s, spans p !! id = Some s -> 0 < num_pages_ s /\ (id < next_span p)%nat;
  po_disjoint : forall i j s t pg, spans p !! i = Some s -> spans p !! j = Some t ->
    has_page s pg -> has_page t pg -> i = j;
  po_used : forall id, id ∈ used -> is_Some (spans p !! id);
  po_free : forall k id, id ∈ free_list_of k p <-> (id ∉ used) /\ exists s, spans p !! id = Some s /\ num_pages_ s = k;
  po_nodup : forall k, NoDup (free_list_of k p);
  po_map : forall pg id, page_span_map_ p !! pg = Some id <->
    (id ∉ used) /\ exists s, spans p !! id = Some s /\ has_page s pg;
  po_merged : forall i j s t, i ∉ used -> j ∉ used -> spans p !! i = Some s -> spans p !! j = Some t ->
    page_id_ s + num_pages_ s <> page_id_ t;
  po_source : forall id s pg, spans p !! id = Some s -> has_page s pg ->
    0 < pg /\ exists k n q, (k < mmap_calls p)%nat /\ mmap k n = Some q /\ q <= pg < q + n
}.

Lemma new_page_cache_ok : page_ok ∅ new_page_cache.
Proof.
  split; try done.
  - intros k id. unfold free_list_of. cbn. rewrite lookup_empty. cbn. split; [by intros ?%elem_of_nil|].
    by intros (_ & s & Hs & _).
  - intros k. unfold free_list_of. cbn. rewrite lookup_empty. constructor.
  - intros pg id. split; [done|]. by intros (_ & s & Hs & _).
Qed.

Lemma span_of_Some id p s : spans p !! id = Some s -> span_of id p = s.
Proof. unfold span_of. by intros ->. Qed.

(** A span whose fields other than its pages change. *)
Lemma with_span_ok used p id s s' :
  page_ok used p -> spans p !! id = Some s -> page_id_ s' = page_id_ s -> num_pages_ s' = num_pages_ s ->
  page_ok used (with_span id s' p).
Proof.
  intros [H1 H2 H3 H4 H5 H6 H7 H8] Hs Hp Hn.
  assert (forall j t', spans (with_span id s' p) !! j = Some t' ->
    exists t, spans p !! j = Some t /\ page_id_ t' = page_id_ t /\ num_pages_ t' = num_pages_ t) as Hback.
  { intros j t'. cbn. destruct (decide (j = id)) as [->|]; [|rewrite lookup_insert_ne by done; by eauto].
    rewrite lookup_insert_eq. intros [= <-]. eauto. }
  assert (forall j t, spans p !! j = Some t ->
    exists t', spans (with_span id s' p) !! j = Some t' /\ page_id_ t' = page_id_ t /\ num_pages_ t' = num_pages_ t) as Hforth.
  { intros j t Hj. cbn. destruct (decide (j = id)) as [->|]; [|rewrite lookup_insert_ne by done; by eauto].
    rewrite lookup_insert_eq. simplify_eq. eauto. }
  unfold has_page in *. split; unfold has_page; cbn [next_span page_span_map_ mmap_calls with_span].
  - intros j t' (t & Ht & _ & ->)%Hback. eauto.
  - intros i j t' u' pg (t & Ht & E1 & E2)%Hback (u & Hu & E3 & E4)%Hback. rewrite E1, E2, E3, E4. by eapply H2.
  - intros j Hj. destruct (H3 j Hj) as [t Ht]. destruct (Hforth j t Ht) as (t' & ? & _). by exists t'.
  - intros k j. change (free_list_of k (with_span id s' p)) with (free_list_of k p). rewrite H4.
    split; intros (Hu & t & Ht & Hk); (split; [done|]).
    + destruct (Hforth j t Ht) as (t' & ? & ? & ?). exists t'. split; [done|lia].
    + destruct (Hback j t Ht) as (t' & ? & ? & ?). exists t'. split; [done|lia].
  - apply H5.
  - intros pg j. rewrite H6. split; intros (Hu & t & Ht & Hk); (split; [done|]).
    + destruct (Hforth j t Ht) as (t' & ? & ? & ?). exists t'. split; [done|lia].
    + destruct (Hback j t Ht) as (t' & ? & ? & ?). exists t'. split; [done|lia].
  - intros i j t' u' Hi Hj (t & Ht & E1 & E2)%Hback (u & Hu & E3 & E4)%Hback. rewrite E1, E2, E3. exact (H7 i j t u Hi Hj Ht Hu).
  - intros j t' pg (t & Ht & E1 & E2)%Hback. rewrite E1, E2. by eapply H8.
Qed.

(** ** Merging *)

(** A free span [j] becomes part of the span [id] beside it. *)
Definition absorb (id j : nat) (s' : Span) (k : Z) (p : PageCache) : PageCache :=
  delete_span j (with_span id s' (remove_free k j (unmap_pages j p))).

Lemma absorb_ok used p id j s q s' :
  page_ok used p -> id ∈ used -> j ∉ used -> spans p !! id = Some s -> spans p !! j = Some q ->
  (forall pg, has_page s' pg <-> has_page s pg \/ has_page q pg) -> 0 < num_pages_ s' ->
  page_ok used (absorb id j s' (num_pages_ q) p).
Proof.
  intros [H1 H2 H3 H4 H5 H6 H7 H8] Hid Hj Hs Hq Hr Hpos. assert (id <> j) as Hne by set_solver.
  assert (forall i t', spans (absorb id j s' (num_pages_ q) p) !! i = Some t' ->
    i <> j /\ ((i = id /\ t' = s') \/ (i <> id /\ spans p !! i = Some t'))) as Hback.
  { intros i t'. cbn. destruct (decide (i = j)) as [->|]; [by rewrite lookup_delete_eq|].
    rewrite lookup_delete_ne by done. destruct (decide (i = id)) as [->|]; [|rewrite lookup_insert_ne by done; auto].
    rewrite lookup_insert_eq. intros [= <-]. auto. }
  assert (forall i t, i <> j -> i <> id -> spans p !! i = Some t ->
    spans (absorb id j s' (num_pages_ q) p) !! i = Some t) as Hforth.
  { intros i t ? ? Ht. cbn. by rewrite lookup_delete_ne, lookup_insert_ne. }
  assert (spans (absorb id j s' (num_pages_ q) p) !! id = Some s') as Hid'.
  { cbn. by rewrite lookup_delete_ne, lookup_insert_eq. }
  split.
  - intros i t' [Hi [[-> ->]|[? Ht]]]%Hback; [|by eapply H1]. split; [done|]. by eapply (H1 id).
  - intros i i' t' u' pg [Hi [[-> ->]|[? Ht]]]%Hback [Hi' [[-> ->]|[? Hu]]]%Hback; rewrite ?Hr; try done.
    + intros [?|?] ?; [by eapply (H2 id i' s)|]. destruct Hi'. by eapply (H2 i' j u' q).
    + intros ? [?|?]; [by eapply (H2 i id t' s)|]. destruct Hi. by eapply (H2 i j t' q).
    + by eapply H2.
  - intros i Hi. destruct (decide (i = id)) as [->|]; [by eexists|]. destruct (H3 i Hi) as [t Ht].
    exists t. apply Hforth; [set_solver|done|done].
  - intros k i. change (free_list_of k (absorb id j s' (num_pages_ q) p)) with (free_list_of k (remove_free (num_pages_ q) j p)).
    rewrite elem_of_remove_free, H4. split.
    + intros [(Hi & t & Ht & Hk) Hor]. split; [done|]. exists t. split; [|done].
      apply Hforth; [|set_solver|done]. intros ->. simplify_eq. naive_solver.
    + intros (Hi & t' & [Hij [[-> ->]|[? Ht]]]%Hback & Hk); [done|]. split; [|by left]. split; [done|]. by exists t'.
  - intros k. change (free_list_of k (absorb id j s' (num_pages_ q) p)) with (free_list_of k (remove_free (num_pages_ q) j p)).
    unfold remove_free. rewrite free_list_of_with. case_decide; [|apply H5]. apply NoDup_filter, H5.
  - intros pg i. change (page_span_map_ (absorb id j s' (num_pages_ q) p)) with (page_span_map_ (unmap_pages j p)).
    rewrite lookup_unmap_pages, (span_of_Some _ _ _ Hq). case_decide as Hpg; rewrite elem_of_pages in Hpg.
    + split; [done|]. intros (Hi & t' & [Hij [[-> ->]|[? Ht]]]%Hback & Hk); [done|].
      destruct Hij. by eapply (H2 i j t' q).
    + rewrite H6. split; intros (Hi & t & Ht & Hk); (split; [done|]); exists t; (split; [|done]).
      * apply Hforth; [|set_solver|done]. intros ->. by simplify_eq.
      * apply Hback in Ht as [Hij [[-> ->]|[? Ht]]]; done.
  - intros i i' t' u' Hi Hi' [? [[-> ->]|[? Ht]]]%Hback [? [[-> ->]|[? Hu]]]%Hback; try done. exact (H7 i i' t' u' Hi Hi' Ht Hu).
  - intros i t' pg [Hi [[-> ->]|[? Ht]]]%Hback; [|exact (H8 i t' pg Ht)].
    intros [Hp|Hp]%Hr; [exact (H8 id s pg Hs Hp)|exact (H8 j q pg Hq Hp)].
Qed.

(** The span a page beside [id] belongs to is the neighbour of [id]. *)
(** The pages that the spans have. *)
Definition covered (p : PageCache) (pg : Z) : Prop := exists id s, spans p !! id = Some s /\ has_page s pg.

Lemma absorb_covered id j s q s' p pg :
  id <> j -> spans p !! id = Some s -> spans p !! j = Some q ->
  (forall pg, has_page s' pg <-> has_page s pg \/ has_page q pg) ->
  covered p pg -> covered (absorb id j s' (num_pages_ q) p) pg.
Proof.
  intros Hne Hs Hq Hr (i & t & Ht & Hpg).
  assert (spans (absorb id j s' (num_pages_ q) p) !! id = Some s') as Hid
    by (cbn; by rewrite lookup_delete_ne, lookup_insert_eq).
  destruct (decide (i = id)) as [->|]; [exists id, s'; split; [done|]; apply Hr; left; congruence|].
  destruct (decide (i = j)) as [->|]; [exists id, s'; split; [done|]; apply Hr; right; congruence|].
  exists i, t. split; [|done]. cbn. by rewrite lookup_delete_ne, lookup_insert_ne.
Qed.

Lemma neighbour_prev used p id s j q :
  page_ok used p -> spans p !! id = Some s -> page_span_map_ p !! (page_id_ s - 1) = Some j -> id ∈ used ->
  spans p !! j = Some q -> page_id_ q + num_pages_ q = page_id_ s.
Proof.
  intros Hok Hs Hm Hid Hq. apply (po_map _ _ Hok) in Hm as (Hj & q' & Hq' & Hpg). assert (q' = q) as -> by congruence.
  destruct (po_span _ _ Hok _ _ Hs) as [Hpos _]. unfold has_page in Hpg.
  destruct (decide (page_id_ q + num_pages_ q <= page_id_ s)) as [|Hgt]; [lia|]. exfalso.
  assert (id = j) as ->; [|set_solver].
  apply (po_disjoint _ _ Hok id j s q (page_id_ s)); try done; unfold has_page; lia.
Qed.

Lemma neighbour_next used p id s j q :
  page_ok used p -> spans p !! id = Some s -> page_span_map_ p !! (page_id_ s + num_pages_ s) = Some j -> id ∈ used ->
  spans p !! j = Some q -> page_id_ s + num_pages_ s = page_id_ q.
Proof.
  intros Hok Hs Hm Hid Hq. apply (po_map _ _ Hok) in Hm as (Hj & q' & Hq' & Hpg). assert (q' = q) as -> by congruence.
  destruct (po_span _ _ Hok _ _ Hs) as [Hpos _]. unfold has_page in Hpg.
  destruct (decide (page_id_ s + num_pages_ s <= page_id_ q)) as [|Hgt]; [lia|]. exfalso.
  assert (id = j) as ->; [|set_solver].
  apply (po_disjoint _ _ Hok id j s q (page_id_ s + num_pages_ s - 1)); try done; unfold has_page; lia.
Qed.

(** What merging leaves of a page cache: the same spans in use, the span itself with
    more pages. *)
Lemma merge_prev_ok used id fuel p s :
  page_ok used p -> id ∈ used -> spans p !! id = Some s -> (size (spans p) <= fuel)%nat ->
  exists p' s', merge_prev fuel id p = Some p' /\ page_ok used p' /\ spans p' !! id = Some s' /\
    page_span_map_ p' !! (page_id_ s' - 1) = None /\ mmap_calls p' = mmap_calls p /\
    (forall u t, u ∈ used -> u <> id -> spans p !! u = Some t -> spans p' !! u = Some t) /\
    (forall pg, covered p pg -> covered p' pg).
Proof.
  intros Hok Hid Hs Hf. revert p s Hok Hs Hf. induction fuel as [|fuel IH]; intros p s Hok Hs Hf.
  { assert (size (spans p) <> 0%nat) by (apply map_size_ne_0_lookup; eauto). lia. }
  cbn [merge_prev]. rewrite (span_of_Some _ _ _ Hs).
  destruct (page_span_map_ p !! (page_id_ s - 1)) as [j|] eqn:Hm; [|by exists p, s].
  pose proof (proj1 (po_map _ _ Hok _ _) Hm) as (Hj & q & Hq & Hpg).
  pose proof (neighbour_prev _ _ _ _ _ _ Hok Hs Hm Hid Hq) as Hadj.
  rewrite (span_of_Some _ _ _ Hq), (proj2 (Z.eqb_eq _ _) Hadj). cbn [negb].
  destruct (po_span _ _ Hok _ _ Hs) as [Hps _]. destruct (po_span _ _ Hok _ _ Hq) as [Hpq _].
  set (s1 := mkSpan (page_id_ q) (num_pages_ s + num_pages_ q) (size_class_ s) (free_list_ s) (free_count_ s) (total_objects_ s)).
  assert (id <> j) as Hne by set_solver.
  assert (page_ok used (absorb id j s1 (num_pages_ q) p)) as Hok1.
  { apply (absorb_ok used p id j s q); try done; [|cbn; lia]. intros pg. unfold has_page, s1. cbn. lia. }
  destruct (IH (absorb id j s1 (num_pages_ q) p) s1 Hok1) as (p' & s' & Hmp & Hok' & Hs' & Hnone & Hc & Hu & Hr).
  - cbn. by rewrite lookup_delete_ne, lookup_insert_eq.
  - cbn. rewrite map_size_delete_Some; [|rewrite lookup_insert_ne by done; eauto].
    rewrite map_size_insert_Some by eauto. lia.
  - exists p', s'. split_and!; try done.
    + intros u t Hin Hui Ht. apply Hu; try done. cbn. rewrite lookup_delete_ne, lookup_insert_ne; try done. set_solver.
    + intros pg Hpg'. apply Hr, (absorb_covered id j s q s1 p); try done. intros pg'. unfold has_page, s1. cbn. lia.
Qed.

Lemma merge_next_ok used id fuel p s :
  page_ok used p -> id ∈ used -> spans p !! id = Some s -> (size (spans p) <= fuel)%nat ->
  exists p' s', merge_next fuel id p = Some p' /\ page_ok used p' /\ spans p' !! id = Some s' /\
    page_span_map_ p' !! (page_id_ s' + num_pages_ s') = None /\ page_id_ s' = page_id_ s /\
    (forall pg, page_span_map_ p !! pg = None -> page_span_map_ p' !! pg = None) /\ mmap_calls p' = mmap_calls p /\
    (forall u t, u ∈ used -> u <> id -> spans p !! u = Some t -> spans p' !! u = Some t) /\
    (forall pg, covered p pg -> covered p' pg).
Proof.
  intros Hok Hid Hs Hf. revert p s Hok Hs Hf. induction fuel as [|fuel IH]; intros p s Hok Hs Hf.
  { assert (size (spans p) <> 0%nat) by (apply map_size_ne_0_lookup; eauto). lia. }
  cbn [merge_next]. rewrite (span_of_Some _ _ _ Hs).
  destruct (page_span_map_ p !! (page_id_ s + num_pages_ s)) as [j|] eqn:Hm; [|by exists p, s].
  pose proof (proj1 (po_map _ _ Hok _ _) Hm) as (Hj & q & Hq & Hpg).
  pose proof (neighbour_next _ _ _ _ _ _ Hok Hs Hm Hid Hq) as Hadj.
  rewrite (span_of_Some _ _ _ Hq), (proj2 (Z.eqb_eq _ _) Hadj). cbn [negb].
  destruct (po_span _ _ Hok _ _ Hs) as [Hps _]. destruct (po_span _ _ Hok _ _ Hq) as [Hpq _].
  set (s1 := mkSpan (page_id_ s) (num_pages_ s + num_pages_ q) (size_class_ s) (free_list_ s) (free_count_ s) (total_objects_ s)).
  assert (id <> j) as Hne by set_solver.
  assert (page_ok used (absorb id j s1 (num_pages_ q) p)) as Hok1.
  { apply (absorb_ok used p id j s q); try done; [|cbn; lia]. intros pg. unfold has_page, s1. cbn. lia. }
  destruct (IH (absorb id j s1 (num_pages_ q) p) s1 Hok1) as (p' & s' & Hmp & Hok' & Hs' & Hnone & Hp' & Hkeep & Hc & Hu & Hr).
  - cbn. by rewrite lookup_delete_ne, lookup_insert_eq.
  - cbn. rewrite map_size_delete_Some; [|rewrite lookup_insert_ne by done; eauto].
    rewrite map_size_insert_Some by eauto. lia.
  - exists p', s'. split_and!; try done.
    + intros pg Hn. apply Hkeep. change (page_span_map_ (unmap_pages j p) !! pg = None).
      rewrite lookup_unmap_pages. by case_decide.
    + intros u t Hin Hui Ht. apply Hu; try done. cbn. rewrite lookup_delete_ne, lookup_insert_ne; try done. set_solver.
    + intros pg Hpg'. apply Hr, (absorb_covered id j s q s1 p); try done. intros pg'. unfold has_page, s1. cbn. lia.
Qed.

(** ** Giving spans back and taking them *)

Lemma release_ok used p id s :
  page_ok used p -> id ∈ used -> spans p !! id = Some s ->
  page_span_map_ p !! (page_id_ s - 1) = None -> page_span_map_ p !! (page_id_ s + num_pages_ s) = None ->
  page_ok (used ∖ {[id]}) (map_pages id (push_free (num_pages_ s) id p)).
Proof.
  intros [H1 H2 H3 H4 H5 H6 H7 H8] Hid Hs Hprev Hnext.
  assert (forall i, i ∉ used ∖ {[id]} <-> i = id \/ i ∉ used) as Hin
    by (intros i; destruct (decide (i = id)); set_solver).
  set (p1 := push_free (num_pages_ s) id p).
  assert (span_of id p1 = s) as Hspan by (by unfold span_of, p1; cbn; rewrite Hs).
  split; cbn [spans next_span mmap_calls map_pages]; try done.
  - set_solver.
  - intros k i. change (free_list_of k (map_pages id p1)) with (free_list_of k p1). unfold p1.
    rewrite elem_of_push_free, H4, Hin. split.
    + intros [[-> ->]|(Hi & t & Ht & Hk)]; [split; [by left|by exists s]|split; [by right|by exists t]].
    + intros ([->|Hi] & t & Ht & Hk); [left; change (spans p !! id = Some t) in Ht; by simplify_eq|right].
      split; [done|]. by exists t.
  - intros k. change (free_list_of k (map_pages id p1)) with (free_list_of k p1). unfold p1, push_free.
    rewrite free_list_of_with. case_decide; [|apply H5]. apply NoDup_cons. split; [|apply H5].
    rewrite H4. tauto.
  - intros pg i. change (spans p1) with (spans p). rewrite lookup_map_pages, Hspan, Hin.
    change (page_span_map_ p1) with (page_span_map_ p). case_decide as Hpg; rewrite elem_of_pages in Hpg.
    + split; [intros [= <-]; split; [by left|by exists s]|]. intros (_ & t & Ht & Hk). f_equal.
      symmetry. by eapply (H2 i id t s).
    + rewrite H6. split; intros (Hi & t & Ht & Hk); [split; [by right|by exists t]|].
      destruct Hi as [->|Hi]; [by assert (t = s) as -> by congruence|]. split; [done|]. by exists t.
  - change (spans p1) with (spans p). intros i j t u Hi%Hin Hj%Hin Ht Hu Heq.
    destruct (H1 _ _ Ht) as [Hpt _]. destruct (H1 _ _ Hu) as [Hpu _].
    destruct Hi as [->|Hi], Hj as [->|Hj].
    + assert (t = u) as -> by congruence. lia.
    + assert (t = s) as -> by congruence.
      enough (page_span_map_ p !! (page_id_ s + num_pages_ s) = Some j) by congruence.
      apply H6. split; [done|]. exists u. split; [done|]. unfold has_page. lia.
    + assert (u = s) as -> by congruence.
      enough (page_span_map_ p !! (page_id_ s - 1) = Some i) by congruence.
      apply H6. split; [done|]. exists t. split; [done|]. unfold has_page. lia.
    + by eapply (H7 i j).
Qed.

(** Freeing a span: it is merged with its free neighbours and free again. *)
Lemma free_span_ok used p id :
  page_ok used p -> id ∈ used ->
  exists p', free_span id p = Some p' /\ page_ok (used ∖ {[id]}) p' /\ mmap_calls p' = mmap_calls p /\
    (forall u t, u ∈ used -> u <> id -> spans p !! u = Some t -> spans p' !! u = Some t) /\
    (forall pg, covered p pg -> covered p' pg).
Proof.
  intros Hok Hid. destruct (po_used _ _ Hok id Hid) as [s Hs]. unfold free_span, coalesce_span.
  destruct (merge_prev_ok used id (S (size (spans p))) p s Hok Hid Hs) as (p1 & s1 & -> & Hok1 & Hs1 & Hn1 & Hc1 & Hu1 & Hv1); [lia|].
  cbn [mbind option_bind].
  destruct (merge_next_ok used id (S (size (spans p1))) p1 s1 Hok1 Hid Hs1)
    as (p2 & s2 & -> & Hok2 & Hs2 & Hn2 & Hp2 & Hk2 & Hc2 & Hu2 & Hv2); [lia|].
  cbn [mbind option_bind]. eexists. split; [done|]. rewrite (span_of_Some _ _ _ Hs2). split_and!.
  - apply release_ok; try done. rewrite Hp2. by apply Hk2.
  - cbn. congruence.
  - intros u t Hin Hne Ht. change (spans p2 !! u = Some t). auto.
  - intros pg Hpg. exact (Hv2 pg (Hv1 pg Hpg)).
Qed.

Lemma take_ok used p id k :
  page_ok used p -> id ∈ free_list_of k p ->
  page_ok ({[id]} ∪ used) (unmap_pages id (remove_free k id p)).
Proof.
  intros [H1 H2 H3 H4 H5 H6 H7 H8] Hid. apply H4 in Hid as (Hnu & s & Hs & Hk).
  set (p1 := remove_free k id p).
  assert (span_of id p1 = s) as Hspan by (by unfold span_of, p1; cbn; rewrite Hs).
  split; cbn [spans next_span mmap_calls unmap_pages]; try done.
  - intros i [->%elem_of_singleton|Hi]%elem_of_union; [by exists s|by apply H3].
  - intros k' i. change (free_list_of k' (unmap_pages id p1)) with (free_list_of k' p1). unfold p1.
    rewrite elem_of_remove_free, H4, not_elem_of_union, not_elem_of_singleton. change (spans (remove_free k id p)) with (spans p). split.
    + intros [(Hi & t & Ht & Hkt) Hor]. split; [|by exists t]. split; [|done]. intros ->. naive_solver.
    + intros ([Hne Hi] & t & Ht & Hkt). split; [|by left]. split; [done|]. by exists t.
  - intros k'. change (free_list_of k' (unmap_pages id p1)) with (free_list_of k' p1). unfold p1, remove_free.
    rewrite free_list_of_with. case_decide; [|apply H5]. apply NoDup_filter, H5.
  - intros pg i. change (spans p1) with (spans p).
    rewrite lookup_unmap_pages, Hspan, not_elem_of_union, not_elem_of_singleton.
    change (page_span_map_ p1) with (page_span_map_ p). case_decide as Hpg; rewrite elem_of_pages in Hpg.
    + split; [done|]. intros ([Hne _] & t & Ht & Hkt). destruct Hne. by eapply (H2 i id t s).
    + rewrite H6. split; intros (Hi & t & Ht & Hkt); [|split; [tauto|by exists t]].
      split; [|by exists t]. split; [|done]. intros ->. by assert (t = s) as -> by congruence.
  - intros i j t u Hi Hj. apply H7; set_solver.
Qed.

(** A span in use gives its pages from [n] on to a new span, which is free. *)
Definition split_off (id : nat) (n : Z) (p : PageCache) : PageCache :=
  let s := span_of id p in
  let '(rest, p) := new_span (mkSpan (page_id_ s + n) (num_pages_ s - n) 0 0 0 0) p in
  with_span id (mkSpan (page_id_ s) n (size_class_ s) (free_list_ s) (free_count_ s) (total_objects_ s))
    (push_free (num_pages_ s - n) rest (map_pages rest p)).

(** The spans, the free lists and the page map after a split. *)
Record split_shape (used : gset nat) (p p' : PageCache) (id rest : nat) (s s' r : Span) : Prop := {
  sp_fresh : spans p !! rest = None /\ rest <> id /\ (rest ∉ used) /\ rest = next_span p /\ next_span p' = S rest;
  sp_back i t : spans p' !! i = Some t ->
    (i = id /\ t = s') \/ (i = rest /\ t = r) \/ (i <> id /\ i <> rest /\ spans p !! i = Some t);
  sp_forth i t : i <> id -> spans p !! i = Some t -> spans p' !! i = Some t;
  sp_new : spans p' !! rest = Some r /\ spans p' !! id = Some s';
  sp_pages pg : has_page s pg <-> has_page s' pg \/ has_page r pg;
  sp_disjoint pg : has_page s' pg -> has_page r pg -> False;
  sp_free k : free_list_of k p' = if decide (k = num_pages_ r) then rest :: free_list_of k p else free_list_of k p;
  sp_map pg : page_span_map_ p' !! pg = if decide (pg ∈ pages r) then Some rest else page_span_map_ p !! pg;
  sp_calls : mmap_calls p' = mmap_calls p
}.

Lemma split_off_shape used p id s n :
  page_ok used p -> id ∈ used -> spans p !! id = Some s -> 0 < n < num_pages_ s ->
  let s' := mkSpan (page_id_ s) n (size_class_ s) (free_list_ s) (free_count_ s) (total_objects_ s) in
  let r := mkSpan (page_id_ s + n) (num_pages_ s - n) 0 0 0 0 in
  split_shape used p (split_off id n p) id (next_span p) s s' r.
Proof.
  intros Hok Hid Hs Hn s' r. unfold split_off. rewrite (span_of_Some _ _ _ Hs). cbn [new_span].
  set (rest := next_span p).
  pose (p1 := snd (new_span r p)).
  assert (spans p !! rest = None) as Hrest.
  { destruct (spans p !! rest) as [t|] eqn:E; [|done]. destruct (po_span _ _ Hok _ _ E). subst rest. lia. }
  assert (rest <> id) as Hne by congruence. assert (rest ∉ used) as Hru.
  { intros Hu. destruct (po_used _ _ Hok _ Hu). congruence. }
  assert (span_of rest p1 = r) as Hr by (by unfold span_of, p1; cbn; rewrite lookup_insert_eq).
  split.
  - done.
  - intros i t. cbn. destruct (decide (i = id)) as [->|]; [rewrite lookup_insert_eq; intros [= <-]; auto|].
    rewrite lookup_insert_ne by done.
    destruct (decide (i = rest)) as [->|]; [rewrite lookup_insert_eq; intros [= <-]; auto|].
    rewrite lookup_insert_ne by done. auto.
  - intros i t ? Ht. cbn. rewrite lookup_insert_ne by done. rewrite lookup_insert_ne; [done|congruence].
  - cbn. split; [by rewrite lookup_insert_ne, lookup_insert_eq|apply lookup_insert_eq].
  - intros pg. unfold has_page, s', r. cbn. lia.
  - intros pg. unfold has_page, s', r. cbn. lia.
  - intros k. change (free_list_of k _) with (free_list_of k (push_free (num_pages_ s - n) rest (map_pages rest p1))) at 1.
    unfold push_free. rewrite free_list_of_with. change (num_pages_ r) with (num_pages_ s - n). case_decide as E; [by subst k|done].
  - intros pg. change (page_span_map_ _ !! pg) with (page_span_map_ (map_pages rest p1) !! pg) at 1.
    by rewrite lookup_map_pages, Hr.
  - done.
Qed.

Lemma split_off_ok used p id s n :
  page_ok used p -> id ∈ used -> spans p !! id = Some s -> 0 < n < num_pages_ s ->
  page_span_map_ p !! (page_id_ s + num_pages_ s) = None -> page_ok used (split_off id n p).
Proof.
  intros Hok Hid Hs Hn Hnext.
  destruct (split_off_shape used p id s n Hok Hid Hs Hn) as [(Hrest & Hne & Hru & Hnew & Hnext') Hback Hforth [Hr' Hs'] Hsplit Hdis Hfree Hmap Hcalls].
  destruct Hok as [H1 H2 H3 H4 H5 H6 H7 H8]. set (r := mkSpan (page_id_ s + n) _ _ _ _ _) in *. set (s' := mkSpan (page_id_ s) _ _ _ _ _) in *.
  set (rest := next_span p) in *. set (p' := split_off id n p) in *. clearbody p'.
  assert (forall i t pg, i <> id -> spans p !! i = Some t -> has_page t pg -> has_page s pg -> False) as Hother
    by (intros i t pg Hi Ht Hp1 Hp2; destruct Hi; by eapply (H2 i id t s)).
  split.
  - intros i t [[-> ->]|[[-> ->]|(? & ? & Ht)]]%Hback; rewrite Hnext'; cbn.
    + destruct (H1 _ _ Hs). lia.
    + lia.
    + destruct (H1 _ _ Ht). lia.
  - intros i j t u pg [[-> ->]|[[-> ->]|(? & ? & Ht)]]%Hback [[-> ->]|[[-> ->]|(? & ? & Hu)]]%Hback Ht' Hu'; try done;
      try (by exfalso; eapply Hdis); try (by exfalso; eapply (Hother _ _ pg); [| |done|apply Hsplit; auto]).
    + exfalso. apply (Hother i t pg); try done. apply Hsplit. auto.
    + exfalso. apply (Hother i t pg); try done. apply Hsplit. auto.
    + by eapply (H2 i j t u).
  - intros i Hi. destruct (decide (i = id)) as [->|]; [by exists s'|].
    destruct (H3 i Hi) as [t Ht]. exists t. by apply Hforth.
  - intros k i. assert (i ∈ free_list_of k p' <-> (i = rest /\ k = num_pages_ r) \/ i ∈ free_list_of k p) as ->
      by (rewrite Hfree; case_decide; set_solver).
    rewrite H4. split.
    + intros [[-> ->]|(Hi & t & Ht & Hk)]; [split; [done|by exists r]|]. split; [done|]. exists t.
      split; [|done]. apply Hforth; [set_solver|done].
    + intros (Hi & t & [[-> ->]|[[-> ->]|(? & ? & Ht)]]%Hback & Hk); [done|left; by split|right].
      split; [done|]. by exists t.
  - intros k. rewrite Hfree. case_decide; [|apply H5]. apply NoDup_cons. split; [|apply H5].
    rewrite H4. intros (_ & t & Ht & _). congruence.
  - intros pg i. rewrite Hmap. case_decide as Hpg; rewrite elem_of_pages in Hpg.
    + split; [intros [= <-]; split; [done|by exists r]|].
      intros (Hi & t & [[-> ->]|[[-> ->]|(? & ? & Ht)]]%Hback & Hk); [done|done|].
      exfalso. eapply (Hother i t pg); try done. apply Hsplit. auto.
    + rewrite H6. split; intros (Hi & t & Ht & Hk); (split; [done|]).
      * exists t. split; [|done]. apply Hforth; [set_solver|done].
      * apply Hback in Ht as [[-> ->]|[[-> ->]|(? & ? & Ht)]]; [done|done|]. by exists t.
  - intros i j t u Hi Hj [[-> ->]|[[-> ->]|(? & ? & Ht)]]%Hback [[-> ->]|[[-> ->]|(? & ? & Hu)]]%Hback; try done; cbn.
    + lia.
    + intros Heq. destruct (H1 _ _ Hu) as [Hpu _].
      enough (page_span_map_ p !! (page_id_ s + num_pages_ s) = Some j) by congruence.
      apply H6. split; [done|]. exists u. split; [done|]. unfold has_page. lia.
    + intros Heq. destruct (H1 _ _ Ht) as [Hpt _].
      eapply (Hother i t (page_id_ s + n - 1)); try done; unfold has_page; lia.
    + by eapply (H7 i j).
  - intros i t pg Hi Hpg. rewrite Hcalls. apply Hback in Hi as [[-> ->]|[[-> ->]|(? & ? & Ht)]];
      [apply (H8 id s pg Hs), Hsplit; auto..|exact (H8 i t pg Ht Hpg)].
Qed.

Lemma split_off_covered id n s p pg :
  spans p !! id = Some s -> spans p !! next_span p = None -> 0 < n < num_pages_ s ->
  covered p pg -> covered (split_off id n p) pg.
Proof.
  intros Hs Hfresh Hn (i & t & Ht & Hpg). unfold split_off. rewrite (span_of_Some _ _ _ Hs). cbn [new_span].
  assert (id <> next_span p) by congruence.
  destruct (decide (i = id)) as [->|].
  - simplify_eq. destruct (decide (pg < page_id_ s + n)).
    + eexists id, _. split; [cbn; apply lookup_insert_eq|]. unfold has_page in *. cbn. lia.
    + eexists (next_span p), _. split; [cbn; by rewrite lookup_insert_ne, lookup_insert_eq|]. unfold has_page in *. cbn. lia.
  - exists i, t. split; [|done]. cbn. rewrite lookup_insert_ne by done. rewrite lookup_insert_ne; [done|congruence].
Qed.

(** What the system promises: no page is given out twice, and none is page 0. *)
Hypothesis mmap_fresh : forall k1 n1 q1 k2 n2 q2 pg,
  mmap k1 n1 = Some q1 -> mmap k2 n2 = Some q2 -> q1 <= pg < q1 + n1 -> q2 <= pg < q2 + n2 -> k1 = k2.
Hypothesis mmap_positive : forall k n q, mmap k n = Some q -> 0 < q.


Lemma fresh_span_ok used p n page :
  page_ok used p -> 0 < n -> mmap (mmap_calls p) n = Some page ->
  let '(id, p') := new_span (mkSpan page n 0 0 0 0)
    (mkPC (spans p) (next_span p) (page_span_map_ p) (free_span_lists_ p) (S (mmap_calls p))) in
  page_ok ({[id]} ∪ used) p' /\ id ∉ used.
Proof using mmap_fresh mmap_positive.
  intros [H1 H2 H3 H4 H5 H6 H7 H8] Hn Hm. cbn [new_span spans next_span page_span_map_ free_span_lists_ mmap_calls].
  set (s := mkSpan page n 0 0 0 0). set (id := next_span p).
  assert (spans p !! id = None) as Hid.
  { destruct (spans p !! id) as [t|] eqn:E; [|done]. destruct (H1 _ _ E). subst id. lia. }
  assert (id ∉ used) as Hnu by (intros [? ?]%H3; congruence).
  assert (forall i t, <[id := s]> (spans p) !! i = Some t -> (i = id /\ t = s) \/ (i <> id /\ spans p !! i = Some t)) as Hback.
  { intros i t. destruct (decide (i = id)) as [->|]; [rewrite lookup_insert_eq; intros [= <-]; auto|].
    rewrite lookup_insert_ne by done. auto. }
  assert (forall i t, spans p !! i = Some t -> <[id := s]> (spans p) !! i = Some t) as Hforth
    by (intros i t Ht; rewrite lookup_insert_ne; [done|congruence]).
  assert (forall i t pg, spans p !! i = Some t -> has_page t pg -> has_page s pg -> False) as Hnew.
  { intros i t pg Ht Hp Hs. destruct (H8 _ _ _ Ht Hp) as (_ & k & n' & q & Hk & Hq & Hpg).
    unfold has_page, s in Hs. cbn in Hs. pose proof (mmap_fresh _ _ _ _ _ _ _ Hq Hm Hpg Hs). lia. }
  split; [|done]. split; cbn [spans next_span page_span_map_ mmap_calls].
  - intros i t [[-> ->]|[_ Ht]]%Hback; [cbn; unfold id; lia|]. destruct (H1 _ _ Ht). lia.
  - intros i j t u pg [[-> ->]|[? Ht]]%Hback [[-> ->]|[? Hu]]%Hback Hp1 Hp2; try done.
    + by destruct (Hnew j u pg).
    + by destruct (Hnew i t pg).
    + by eapply (H2 i j t u).
  - intros i [->%elem_of_singleton|Hi]%elem_of_union; [exists s; by rewrite lookup_insert_eq|].
    destruct (H3 i Hi) as [t Ht]. exists t. auto.
  - intros k i. change (free_list_of k _) with (free_list_of k p). rewrite H4, not_elem_of_union, not_elem_of_singleton. split.
    + intros (Hi & t & Ht & Hk). split; [|by eauto]. split; [congruence|done].
    + intros ([Hne Hi] & t & [[-> ->]|[_ Ht]]%Hback & Hk); [done|]. split; [done|]. by exists t.
  - intros k. apply H5.
  - intros pg i. rewrite H6, not_elem_of_union, not_elem_of_singleton. split.
    + intros (Hi & t & Ht & Hk). split; [|by eauto]. split; [congruence|done].
    + intros ([Hne Hi] & t & [[-> ->]|[_ Ht]]%Hback & Hk); [done|]. split; [done|]. by exists t.
  - intros i j t u Hi Hj [[-> ->]|[? Ht]]%Hback [[-> ->]|[? Hu]]%Hback;
      rewrite not_elem_of_union, not_elem_of_singleton in Hi, Hj; try tauto.
    apply (H7 i j); tauto.
  - intros i t pg [[-> ->]|[_ Ht]]%Hback Hp.
    + pose proof (mmap_positive _ _ _ Hm). unfold has_page, s in Hp. cbn in Hp. split; [lia|].
      exists (mmap_calls p), n, page. split_and!; try done; lia.
    + destruct (H8 _ _ _ Ht Hp) as (? & k & n' & q & ? & ? & ?). split; [done|]. exists k, n', q. split_and!; try done; lia.
Qed.

Lemma page_cache_eq p q :
  spans p = spans q -> next_span p = next_span q -> (forall pg, page_span_map_ p !! pg = page_span_map_ q !! pg) ->
  free_span_lists_ p = free_span_lists_ q -> mmap_calls p = mmap_calls q -> p = q.
Proof. destruct p, q; cbn. intros -> -> ->%map_eq -> ->. done. Qed.

(** The code of the split, with the pages taken out of the map at the end. *)
Lemma split_code k big n p b :
  spans p !! big = Some b -> 0 < n < num_pages_ b -> spans p !! next_span p = None ->
  let p1 := remove_free k big p in
  let '(rest, p2) := new_span (mkSpan (page_id_ b + n) (num_pages_ b - n) 0 0 0 0) p1 in
  let p3 := push_free (num_pages_ b - n) rest (map_pages rest p2) in
  unmap_pages big (with_span big (mkSpan (page_id_ b) n (size_class_ b) (free_list_ b) (free_count_ b)
                                    (total_objects_ b)) p3) =
    split_off big n (unmap_pages big p1).
Proof.
  intros Hb Hn Hfresh. cbn [new_span]. unfold split_off.
  assert (big <> next_span p) as Hne by congruence.
  rewrite (span_of_Some big (unmap_pages big (remove_free k big p)) b) by exact Hb. cbn [new_span].
  set (r := mkSpan (page_id_ b + n) (num_pages_ b - n) 0 0 0 0). set (b' := mkSpan (page_id_ b) n _ _ _ _).
  apply page_cache_eq; try done. intros pg. rewrite lookup_unmap_pages.
  rewrite (span_of_Some big _ b') by (apply lookup_insert_eq).
  cbn [with_span push_free with_free_list page_span_map_].
  rewrite !lookup_map_pages. cbn [page_span_map_]. rewrite lookup_unmap_pages.
  rewrite !(span_of_Some _ _ r) by (apply lookup_insert_eq).
  rewrite (span_of_Some big _ b) by exact Hb. cbn [remove_free with_free_list page_span_map_].
  repeat case_decide; rewrite ?elem_of_pages in *; unfold has_page, b', r in *; cbn in *; try done; lia.
Qed.

(** Allocating a span of [n] pages gives one of that size that nobody uses, or
    fails when the system does. *)
Lemma allocate_span_ok used p n :
  page_ok used p -> 0 < n ->
  exists r p', allocate_span mmap n p = (r, p') /\
    (forall u t, u ∈ used -> spans p !! u = Some t -> spans p' !! u = Some t) /\
    (forall pg, covered p pg -> covered p' pg) /\
    match r with
    | Some id => (id ∉ used) /\ page_ok ({[id]} ∪ used) p' /\ exists s, spans p' !! id = Some s /\ num_pages_ s = n
    | None => page_ok used p' /\ mmap (mmap_calls p) n = None
    end.
Proof using mmap_fresh mmap_positive.
  intros Hok Hn. unfold allocate_span. destruct (free_list_of n p) as [|id l] eqn:El.
  - destruct (first_nonempty (keys_from (n + 1) p) p) as [[k big]|] eqn:Ef.
    + apply first_nonempty_Some in Ef as [Hk%elem_of_keys_from Hin].
      pose proof (proj1 (po_free _ _ Hok k big) Hin) as (Hnu & b & Hb & Hkb).
      assert (span_of big (remove_free k big p) = b) as -> by (by apply span_of_Some).
      assert ((0 <? num_pages_ b - n) = true) as -> by (apply Z.ltb_lt; lia).
      assert (spans p !! next_span p = None) as Hfresh.
      { destruct (spans p !! next_span p) as [t|] eqn:E; [|done]. destruct (po_span _ _ Hok _ _ E). lia. }
      pose proof (split_code k big n p b Hb ltac:(lia) Hfresh) as Hcode.
      cbn [new_span] in *. eexists (Some big), _. split; [done|]. rewrite Hcode. clear Hcode.
      assert (page_ok ({[big]} ∪ used) (unmap_pages big (remove_free k big p))) as Hok1 by (by apply take_ok).
      assert (page_ok ({[big]} ∪ used) (split_off big n (unmap_pages big (remove_free k big p)))) as Hok2.
      { apply (split_off_ok _ _ _ b); try done; [set_solver|lia|].
        rewrite lookup_unmap_pages. case_decide; [done|]. cbn [remove_free with_free_list page_span_map_].
        destruct (page_span_map_ p !! (page_id_ b + num_pages_ b)) as [j|] eqn:Em; [|done].
        apply (po_map _ _ Hok) in Em as (Hj & t & Ht & Hpg). exfalso.
        destruct (po_span _ _ Hok _ _ Ht) as [Hpt _]. destruct (po_span _ _ Hok _ _ Hb) as [Hpb _].
        apply (po_merged _ _ Hok big j b t); try done. unfold has_page in Hpg.
        destruct (decide (page_id_ t <= page_id_ b + num_pages_ b - 1)); [|lia]. exfalso.
        assert (big = j) as ->; [|assert (b = t) as -> by congruence; lia].
        apply (po_disjoint _ _ Hok big j b t (page_id_ b + num_pages_ b - 1)); try done; unfold has_page; lia. }
      split; [|split; [|split_and!; [done|done|]]].
      * intros u t Hu Ht. unfold split_off. cbn. rewrite lookup_insert_ne by set_solver.
        rewrite lookup_insert_ne; [done|congruence].
      * intros pg. exact (split_off_covered big n b (unmap_pages big (remove_free k big p)) pg Hb Hfresh ltac:(lia)).
      * eexists. split; [unfold split_off; cbn; by rewrite lookup_insert_eq|done].
    + pose proof (fresh_span_ok used p n) as Hf. destruct (mmap (mmap_calls p) n) as [page|] eqn:Em.
      * specialize (Hf page Hok Hn eq_refl). cbn [new_span spans next_span page_span_map_ free_span_lists_ mmap_calls] in *.
        destruct Hf as [Hok' Hid]. eexists (Some _), _. split; [done|]. split; [|split; [|split_and!; [done|done|]]].
        -- intros u t Hu Ht. cbn. rewrite lookup_insert_ne; [done|set_solver].
        -- intros pg (i & t & Ht & Hpg). exists i, t. split; [|done]. cbn. rewrite lookup_insert_ne; [done|].
           intros <-. destruct (po_span _ _ Hok _ _ Ht). lia.
        -- eexists. cbn. split; [by rewrite lookup_insert_eq|done].
      * eexists None, _. split; [done|]. split; [done|]. split; [done|]. split; [|done]. destruct Hok as [H1 H2 H3 H4 H5 H6 H7 H8].
        split; try done. intros i t pg Ht Hp. destruct (H8 i t pg Ht Hp) as (? & k & n' & q & ? & ? & ?).
        split; [done|]. exists k, n', q. cbn. split_and!; try done; lia.
  - assert (id ∈ free_list_of n p) as Hin by (rewrite El; left).
    pose proof (proj1 (po_free _ _ Hok n id) Hin) as (Hnu & s & Hs & Hks).
    eexists (Some id), _. split; [done|]. split; [done|]. split; [done|]. split_and!; [done|by apply take_ok|by exists s].
Qed.
End page_cache.

(** ** What the system promises, and a system that keeps it *)

(** No page is given out twice, and none is page 0. *)
Definition mmap_sound (mmap : nat -> Z -> option Z) : Prop :=
  (forall k1 n1 q1 k2 n2 q2 pg, mmap k1 n1 = Some q1 -> mmap k2 n2 = Some q2 ->
     q1 <= pg < q1 + n1 -> q2 <= pg < q2 + n2 -> k1 = k2) /\
  (forall k n q, mmap k n = Some q -> 0 < q).

Definition sample_mmap (k : nat) (n : Z) : option Z :=
  if n <=? 1048576 then Some ((Z.of_nat k + 1) * 1048576) else None.

Lemma sample_mmap_sound : mmap_sound sample_mmap.
Proof.
  split; unfold sample_mmap.
  - intros k1 n1 q1 k2 n2 q2 pg. destruct (Z.leb_spec n1 1048576), (Z.leb_spec n2 1048576); try done.
    intros [= <-] [= <-]. lia.
  - intros k n q. destruct (_ <=? _); [|done]. intros [= <-]. lia.
Qed.

(** The spans in use are those that were allocated and not freed since; their users
    change what is not the pages. *)
Inductive page_step (mmap : nat -> Z -> option Z) : gset nat * PageCache -> gset nat * PageCache -> Prop :=
  | page_allocate used p n id p' :
      0 < n -> allocate_span mmap n p = (Some id, p') -> page_step mmap (used, p) ({[id]} ∪ used, p')
  | page_refuse used p n p' : 0 < n -> allocate_span mmap n p = (None, p') -> page_step mmap (used, p) (used, p')
  | page_use used p id s s' :
      id ∈ used -> spans p !! id = Some s -> page_id_ s' = page_id_ s -> num_pages_ s' = num_pages_ s ->
      page_step mmap (used, p) (used, with_span id s' p)
  | page_free used p id p' : id ∈ used -> free_span id p = Some p' -> page_step mmap (used, p) (used ∖ {[id]}, p').

Lemma page_step_ok mmap x y :
  mmap_sound mmap -> page_step mmap x y -> page_ok mmap x.1 x.2 -> page_ok mmap y.1 y.2.
Proof.
  intros [Hf Hp] [used p n id p' Hn He|used p n p' Hn He|used p id s s' Hid Hs Hpg Hnp|used p id p' Hid He] Hok;
    cbn [fst snd] in *.
  - destruct (allocate_span_ok mmap Hf Hp used p n Hok Hn) as (r & p1 & E & _ & _ & Hr). rewrite He in E.
    injection E as <- <-. apply Hr.
  - destruct (allocate_span_ok mmap Hf Hp used p n Hok Hn) as (r & p1 & E & _ & _ & Hr). rewrite He in E.
    injection E as <- <-. apply Hr.
  - by apply (with_span_ok _ _ _ _ s).
  - destruct (free_span_ok mmap used p id Hok Hid) as (p1 & E & Hok1 & _). rewrite He in E. by injection E as <-.
Qed.

Lemma page_reachable_ok mmap used p :
  mmap_sound mmap -> rtc (page_step mmap) (∅, new_page_cache) (used, p) -> page_ok mmap used p.
Proof.
  intros Hs Hr. enough (forall x y, rtc (page_step mmap) x y -> page_ok mmap x.1 x.2 -> page_ok mmap y.1 y.2) as H
    by (apply (H _ _ Hr), new_page_cache_ok).
  clear used p Hr. induction 1 as [|x y z Hxy _ IH]; [done|]. intros Hx. by apply IH, (page_step_ok mmap x).
Qed.

(** After any calls on the page cache, no page is in two spans, the free lists have
    just the spans that are not in use, by size, and no two of them touch. Allocating
    [n] pages gives a span of [n] pages that was not in use, or nothing if the system
    refuses them; freeing a span ends, merged with its neighbours; neither loses a page. *)
Theorem page_cache_correct mmap used p :
  mmap_sound mmap -> rtc (page_step mmap) (∅, new_page_cache) (used, p) ->
  (forall i j s t pg, spans p !! i = Some s -> spans p !! j = Some t -> has_page s pg -> has_page t pg -> i = j) /\
  (forall k id, id ∈ free_list_of k p <-> (id ∉ used) /\ exists s, spans p !! id = Some s /\ num_pages_ s = k) /\
  (forall i j s t, i ∉ used -> j ∉ used -> spans p !! i = Some s -> spans p !! j = Some t ->
     page_id_ s + num_pages_ s <> page_id_ t) /\
  (forall n, 0 < n -> exists r p', allocate_span mmap n p = (r, p') /\ (forall pg, covered p pg -> covered p' pg) /\
     match r with
     | Some id => (id ∉ used) /\ exists s, spans p' !! id = Some s /\ num_pages_ s = n
     | None => exists k, mmap k n = None
     end) /\
  (forall id, id ∈ used -> exists p', free_span id p = Some p' /\ forall pg, covered p pg -> covered p' pg).
Proof.
  intros Hs Hr. pose proof (page_reachable_ok mmap used p Hs Hr) as Hok. destruct Hs as [Hf Hp]. split_and!.
  - apply (po_disjoint _ _ _ Hok).
  - apply (po_free _ _ _ Hok).
  - apply (po_merged _ _ _ Hok).
  - intros n Hn. destruct (allocate_span_ok mmap Hf Hp used p n Hok Hn) as (r & p' & -> & _ & Hv & Hcase).
    exists r, p'. split; [done|]. split; [done|]. destruct r; [by destruct Hcase as (? & _ & ?)|]. destruct Hcase as [_ ?]. eauto.
  - intros id Hid. destruct (free_span_ok mmap used p id Hok Hid) as (p' & ? & _ & _ & _ & ?). eauto.
Qed.

Lemma page_cache_correct_witness :
  let p := (allocate_span sample_mmap 3 new_page_cache).2 in
  exists p', free_span 0 p = Some p' /\ forall pg, covered p pg -> covered p' pg.
Proof.
  intros p. refine (proj2 (proj2 (proj2 (proj2 (page_cache_correct sample_mmap {[0%nat]} p sample_mmap_sound _)))) 0%nat _);
    [|apply elem_of_singleton; reflexivity].
  apply rtc_once. exact (page_allocate sample_mmap ∅ new_page_cache 3 0%nat p ltac:(lia) eq_refl).
Defined.
End PageCacheProps.
