(* ===== verification/CentralCacheProps.v ===== *)
(** * Properties of size classes, free lists and the central cache: a block is
    handed out once, and joins the list of its span again when it comes back *)

From S2P Require Import Prelude Base Monitor Pool PageCacheProps.
From stdpp Require Import options.

Module CentralCacheProps.
Import Pool PageCacheProps.

(** ** Size classes *)

Lemma get_size_bounds c : (c < kNumClasses)%nat -> 8 <= get_size c <= 262144 /\ (8 | get_size c).
Proof.
  intros Hc. unfold kNumClasses in Hc.
  do 29 (destruct c as [|c]; [split; [cbn; lia|by apply Z.mod_divide]|]). lia.
Qed.

(** A request that is pooled gets the smallest class that holds it. *)
Lemma get_index_spec size :
  match get_index size with
  | Some c => (c < kNumClasses)%nat /\ size <= get_size c /\ forall d, (d < c)%nat -> get_size d < size
  | None => 262144 < size
  end.
Proof.
  unfold get_index. change (get_size (kNumClasses - 1)) with 262144.
  destruct (Z.ltb_spec 262144 size) as [|Hle]; [done|].
  destruct (find_pos _ _) as [c|] eqn:E; cbn [default from_option id].
  - apply find_pos_Some in E as (Hc & Hmin & x & Hx & Hle'%Z.leb_le).
    assert (get_size c = x) as Hcx by (unfold get_size; by apply nth_lookup_Some with (d := 0) in Hx).
    cbn beta in Hle'. split; [exact Hc|]. split; [by rewrite Hcx|]. intros d Hd.
    assert (d < 29)%nat as Hd29 by (cbn in Hc; lia).
    destruct (lookup_lt_is_Some_2 kSizeClasses d Hd29) as [y Hy].
    rewrite (nth_lookup_Some _ _ 0 _ Hy : get_size d = y).
    rewrite Forall_lookup in Hmin. specialize (Hmin d y).
    rewrite lookup_take_lt in Hmin by done. apply Hmin in Hy. lia.
  - apply find_pos_None in E. rewrite Forall_lookup in E. specialize (E 28%nat 262144 eq_refl). cbn in E. lia.
Qed.

(** ** Lists threaded through free blocks *)

Fixpoint chain (m : memory) (h : Z) (l : list Z) : Prop :=
  match l with
  | [] => h = 0
  | x :: l => h = x /\ x <> 0 /\ chain m (next_of m x) l
  end.

Lemma chain_frame m m' h l : (forall x, x ∈ l -> m' !! x = m !! x) -> chain m h l -> chain m' h l.
Proof.
  revert h. induction l as [|x l IH]; intros h Hm; cbn; [done|]. intros (-> & Hx & Hl).
  split_and!; [done|done|]. unfold next_of. rewrite Hm by left. apply IH; [|done]. intros y Hy. apply Hm. by right.
Qed.

Lemma chain_push m h l x : chain m h l -> x <> 0 -> x ∉ l -> chain (<[x := h]> m) x (x :: l).
Proof.
  intros Hc Hx Hn. cbn. split_and!; [done|done|]. unfold next_of. rewrite lookup_insert_eq. cbn.
  eapply chain_frame; [|exact Hc]. intros y Hy. apply lookup_insert_ne. congruence.
Qed.

Lemma chain_head m h l : chain m h l -> h = 0 <-> l = [].
Proof. destruct l; cbn; [done|]. intros (-> & ? & _). done. Qed.

(** [l] is the list at [h], and holds each of the elements of [P] once. *)
Definition holds (m : memory) (h : Z) (n : Z) (P : Z -> Prop) : Prop :=
  exists l, chain m h l /\ NoDup l /\ Z.of_nat (length l) = n /\ forall x, x ∈ l <-> P x.

Lemma holds_frame m m' h n P : (forall x, P x -> m' !! x = m !! x) -> holds m h n P -> holds m' h n P.
Proof.
  intros Hm (l & Hc & Hd & Hl & Hp). exists l. split_and!; try done. eapply chain_frame; [|done].
  intros x Hx. apply Hm. by apply Hp.
Qed.

Lemma holds_iff m h n P Q : (forall x, P x <-> Q x) -> holds m h n P -> holds m h n Q.
Proof. intros H (l & Hc & Hd & Hl & Hp). exists l. split_and!; try done. intros x. by rewrite Hp. Qed.

Lemma holds_push m h n P x :
  holds m h n P -> x <> 0 -> ~ P x -> holds (<[x := h]> m) x (n + 1) (fun y => y = x \/ P y).
Proof.
  intros (l & Hc & Hd & Hl & Hp) Hx Hn. assert (x ∉ l) by (by rewrite Hp). exists (x :: l).
  split_and!; [by apply chain_push|by apply NoDup_cons|cbn; lia|]. intros y. by rewrite elem_of_cons, Hp.
Qed.

Lemma holds_pop m h n P :
  holds m h n P -> h <> 0 -> P h /\ 0 < n /\ holds m (next_of m h) (n - 1) (fun y => P y /\ y <> h).
Proof.
  intros (l & Hc & Hd & Hl & Hp) Hh. destruct l as [|x l]; [done|]. destruct Hc as (-> & Hx & Hc).
  apply NoDup_cons in Hd as [Hnx Hd]. split; [apply Hp; left|]. split; [cbn in Hl; lia|].
  exists l. split_and!; [done|done|cbn in Hl; lia|]. intros y. rewrite <- Hp, elem_of_cons.
  split; [intros Hy; split; [by right|by intros ->]|]. by intros [[?|?] ?].
Qed.

Lemma holds_count m h n P : holds m h n P -> 0 <= n /\ (h = 0 <-> n = 0) /\ (h = 0 <-> forall x, ~ P x).
Proof.
  intros (l & Hc & Hd & Hl & Hp). pose proof (chain_head _ _ _ Hc) as ->. split; [lia|]. split.
  - split; [intros ->; done|]. intros ->. by destruct l.
  - split; [intros -> x; rewrite <- Hp; apply not_elem_of_nil|]. intros Hno. destruct l as [|x l]; [done|].
    destruct (Hno x). apply Hp. left.
Qed.

Lemma holds_nil m : holds m 0 0 (fun _ => False).
Proof. exists []. split_and!; [done|constructor|done|]. intros x. by rewrite elem_of_nil. Qed.

(** Cutting a span: the loop ends, and its list has every block that fits. *)
Definition block_of (ptr cs n x : Z) : Prop := exists i, 0 <= i < n /\ x = ptr + i * cs.

Lemma carve_ok fuel ptr T cs h n m :
  0 < ptr -> 0 < cs -> 0 <= n -> n * cs <= T -> T / cs - n < Z.of_nat fuel ->
  holds m h n (block_of ptr cs n) ->
  exists h' m', carve fuel ptr T cs (n * cs) h n m = Some (h', T / cs, m') /\
    holds m' h' (T / cs) (block_of ptr cs (T / cs)) /\
    forall x, ~ block_of ptr cs (T / cs) x -> m' !! x = m !! x.
Proof.
  intros Hptr Hcs. revert h n m. induction fuel as [|fuel IH]; intros h n m Hn HT Hf Hh.
  { pose proof (Z.div_le_lower_bound T cs n). lia. }
  cbn [carve]. destruct (Z.leb_spec (n * cs + cs) T) as [Hle|Hgt].
  - pose proof (Z.div_le_lower_bound T cs (n + 1) Hcs ltac:(lia)) as Hdiv.
    replace (n * cs + cs) with ((n + 1) * cs) by ring.
    destruct (IH (ptr + n * cs) (n + 1) (<[ptr + n * cs := h]> m)) as (h' & m' & -> & Hh' & Hm'); try lia.
    { eapply holds_iff; [|apply (holds_push _ _ _ _ (ptr + n * cs) Hh); [nia|]].
      - intros x. unfold block_of. split.
        + intros [->|(i & Hi & ->)]; [exists n|exists i]; split; try lia; done.
        + intros (i & Hi & ->). destruct (decide (i = n)) as [->|]; [by left|right]. exists i. split; [lia|done].
      - intros (i & Hi & E). nia. }
    exists h', m'. split; [done|]. split; [done|]. intros x Hx. rewrite Hm' by done. apply lookup_insert_ne.
    intros <-. apply Hx. exists n. split; [lia|done].
  - assert (T / cs = n) as ->.
    { symmetry. apply (Z.div_unique_pos T cs n (T - n * cs)); lia. }
    by exists h, m.
Qed.

(** ** The central cache *)

(** Where a block that is not free in its span is: in the cache of a thread, on its way
    between that cache and the central one, or with a client. *)
Inductive place := Cached (t : nat) | Moving (t : nat) | Client.

Section central.
Context (page_size : Z) (mmap : nat -> Z -> option Z).

Definition is_block (s : Span) (x : Z) : Prop :=
  block_of (page_id_ s * page_size) (get_size (size_class_ s)) (total_objects_ s) x.

(** The blocks of an address range that [s] covers. *)
Definition cut (c : nat) (s : Span) : Prop :=
  size_class_ s = c /\ (c < kNumClasses)%nat /\ 0 < page_id_ s /\
  total_objects_ s = num_pages_ s * page_size / get_size c.

(** [own]: the class and the place of every block that has left its span; [extra]: the
    spans that threads have between the page cache and the lists; [full]: the span that
    may be wholly free at this point. *)
Record central_ok (extra : gset nat) (full : option nat) (own : gmap Z (nat * place)) (st : Pool) : Prop := {
  co_pages : exists used, page_ok mmap used (page_cache st) /\
    forall id, id ∈ used <-> id ∈ extra \/ exists c, id ∈ span_list c st;
  co_extra : forall id c, id ∈ extra -> id ∉ span_list c st;
  co_nodup : forall c, NoDup (span_list c st);
  co_span : forall c id, id ∈ span_list c st -> exists s, spans (page_cache st) !! id = Some s /\ cut c s /\
    holds (mem st) (free_list_ s) (free_count_ s) (fun x => is_block s x /\ own !! x = None);
  co_part : forall c id s, id ∈ span_list c st -> spans (page_cache st) !! id = Some s -> full <> Some id ->
    free_count_ s < total_objects_ s;
  co_own : forall x c pl, own !! x = Some (c, pl) ->
    exists id s, id ∈ span_list c st /\ spans (page_cache st) !! id = Some s /\ is_block s x
}.

Hypothesis page_size_pos : 0 < page_size.

Lemma block_range c s x :
  cut c s -> is_block s x ->
  page_id_ s * page_size <= x /\ x + get_size c <= (page_id_ s + num_pages_ s) * page_size.
Proof using page_size_pos.
  intros (Hc & Hlt & _ & Ht) (i & Hi & ->). rewrite Hc, Ht in *. destruct (get_size_bounds c Hlt) as [Hb _].
  pose proof (Z.mul_div_le (num_pages_ s * page_size) (get_size c) ltac:(lia)). nia.
Qed.

Lemma block_page c s x : cut c s -> is_block s x -> has_page s (x / page_size).
Proof using page_size_pos.
  intros Hcut Hx. destruct (block_range c s x Hcut Hx) as [H1 H2]. destruct Hcut as (_ & Hc & _).
  pose proof (get_size_bounds c Hc) as [? _]. unfold has_page. split.
  - apply Z.div_le_lower_bound; lia.
  - apply Z.div_lt_upper_bound; lia.
Qed.

Lemma block_pos c s x : cut c s -> is_block s x -> 0 < x.
Proof using page_size_pos. intros Hcut Hx. pose proof (block_range c s x Hcut Hx). destruct Hcut as (_ & _ & ? & _). nia. Qed.

(** Two blocks that overlap are the same block of the same span. *)
Lemma blocks_apart extra full own st c d i j s t x y :
  central_ok extra full own st -> i ∈ span_list c st -> j ∈ span_list d st ->
  spans (page_cache st) !! i = Some s -> spans (page_cache st) !! j = Some t ->
  is_block s x -> is_block t y -> x < y + get_size d -> y < x + get_size c -> i = j /\ s = t /\ c = d /\ x = y.
Proof using page_size_pos.
  intros Hok Hi Hj Hs Ht Hx Hy H1 H2.
  destruct (co_span _ _ _ _ Hok c i Hi) as (s' & Hs' & Hcs & _). simplify_eq.
  destruct (co_span _ _ _ _ Hok d j Hj) as (t' & Ht' & Hct & _). simplify_eq.
  destruct (co_pages _ _ _ _ Hok) as (used & Hpg & _).
  destruct (block_range _ _ _ Hcs Hx), (block_range _ _ _ Hct Hy).
  destruct (get_size_bounds c) as [? _]; [apply Hcs|]. destruct (get_size_bounds d) as [? _]; [apply Hct|].
  assert (i = j) as ->.
  { set (z := Z.max x y). apply (po_disjoint _ _ _ Hpg i j s t (z / page_size)); try done; unfold has_page.
    - split; [apply Z.div_le_lower_bound|apply Z.div_lt_upper_bound]; lia.
    - split; [apply Z.div_le_lower_bound|apply Z.div_lt_upper_bound]; lia. }
  simplify_eq. destruct Hcs as (<- & _), Hct as (<- & _). split_and!; try done.
  destruct Hx as (a & Ha & ->), Hy as (b & Hb & ->). assert (a = b) as ->; [nia|done].
Qed.

Lemma same_block extra full own st c d i j s t x :
  central_ok extra full own st -> i ∈ span_list c st -> j ∈ span_list d st ->
  spans (page_cache st) !! i = Some s -> spans (page_cache st) !! j = Some t ->
  is_block s x -> is_block t x -> i = j /\ c = d.
Proof using page_size_pos.
  intros Hok Hi Hj Hs Ht Hx Hy. destruct (co_span _ _ _ _ Hok c i Hi) as (? & _ & (_ & Hc & _) & _).
  destruct (co_span _ _ _ _ Hok d j Hj) as (? & _ & (_ & Hd & _) & _).
  destruct (get_size_bounds c Hc) as [? _], (get_size_bounds d Hd) as [? _].
  destruct (blocks_apart extra full own st c d i j s t x x) as (? & _ & ? & _); try done; lia.
Qed.

(** A span takes its next object off its list, or puts one on it: what changes is
    the list of this span and one entry of [own]. *)
Lemma update_span extra full full' own own' st m c id s s' x :
  central_ok extra full own st -> id ∈ span_list c st -> spans (page_cache st) !! id = Some s ->
  page_id_ s' = page_id_ s -> num_pages_ s' = num_pages_ s -> size_class_ s' = size_class_ s ->
  total_objects_ s' = total_objects_ s -> is_block s x ->
  (forall y, y <> x -> own' !! y = own !! y) ->
  (forall c' pl, own' !! x = Some (c', pl) -> c' = c) ->
  (forall y, y <> x -> m !! y = mem st !! y) -> 
  holds m (free_list_ s') (free_count_ s') (fun y => is_block s' y /\ own' !! y = None) ->
  (full' <> Some id -> free_count_ s' < total_objects_ s') -> (full <> None -> full = Some id) ->
  central_ok extra full' own' (with_mem m (with_page_cache (with_span id s' (page_cache st)) st)).
Proof using page_size_pos.
  intros Hok Hid Hs Ep En Ec Et Hx Hown Hcl Hm Hh Hpart Hfull.
  set (st' := with_mem m _). change (mem st') with m.
  assert (forall d, span_list d st' = span_list d st) as Hsl by done.
  assert (forall y, is_block s' y <-> is_block s y) as Hblk by (intros y; unfold is_block; by rewrite Ep, Ec, Et).
  assert (forall i, i <> id -> spans (page_cache st') !! i = spans (page_cache st) !! i) as Hne
    by (intros i Hi; cbn; by apply lookup_insert_ne).
  assert (spans (page_cache st') !! id = Some s') as Heq by (cbn; apply lookup_insert_eq).
  split.
  - destruct (co_pages _ _ _ _ Hok) as (used & Hpg & Hu). exists used. split; [|done]. by apply (with_span_ok _ _ _ _ s).
  - apply (co_extra _ _ _ _ Hok).
  - apply (co_nodup _ _ _ _ Hok).
  - intros d i Hi. destruct (decide (i = id)) as [->|Hi'].
    + destruct (co_span _ _ _ _ Hok d id Hi) as (? & ? & Hcut & _). simplify_eq.
      exists s'. split; [done|]. split; [|done]. unfold cut in *. by rewrite Ep, En, Ec, Et.
    + destruct (co_span _ _ _ _ Hok d i Hi) as (t & Ht & Hcut & Ht'). exists t. rewrite Hne by done.
      split; [done|]. split; [done|].
      assert (forall y, is_block t y -> y <> x) as Hyx
        by (intros y Hy ->; destruct Hi'; by destruct (same_block extra full own st d c i id t s x)).
      eapply holds_iff, holds_frame, Ht'.
      * intros y. cbn. split; intros [Hy Ho]; (split; [done|]); [rewrite Hown|rewrite <- Hown]; auto.
      * intros y [Hy _]. apply Hm; auto.
  - intros d i t Hi. destruct (decide (i = id)) as [->|Hi']; [rewrite Heq; intros [= <-]; exact Hpart|].
    rewrite Hne by done. intros Ht _. apply (co_part _ _ _ _ Hok d i t Hi Ht). intros ->.
    destruct Hi'. specialize (Hfull ltac:(done)). congruence.
  - intros y d pl Hy. destruct (decide (y = x)) as [->|Hyx].
    + rewrite (Hcl _ _ Hy). exists id, s'. by rewrite Hblk.
    + rewrite Hown in Hy by done. destruct (co_own _ _ _ _ Hok y d pl Hy) as (i & t & Hi & Ht & Hb).
      destruct (decide (i = id)) as [->|Hi']; [|by exists i, t; rewrite Hne]. exists id, s'. simplify_eq. by rewrite Hblk.
Qed.

(** A list of blocks of a span is at most as long as the span has blocks. *)
Lemma holds_bound m h n ptr cs total P :
  0 < cs -> holds m h n P -> (forall x, P x -> block_of ptr cs total x) -> n <= Z.max 0 total.
Proof.
  intros Hcs (l & _ & Hd & <- & Hp) Hb.
  set (all := (fun i => ptr + i * cs) <$> seqZ 0 total).
  assert (length all = Z.to_nat total) as Hlen by (unfold all; by rewrite length_fmap, length_seqZ).
  enough (length l <= length all)%nat by lia. apply submseteq_length, NoDup_submseteq; [done|].
  intros x Hx%Hp. destruct (Hb x Hx) as (i & Hi & ->). apply list_elem_of_fmap. exists i.
  split; [done|]. apply elem_of_seqZ. lia.
Qed.

(** A list of all of them misses none. *)
Lemma holds_all m h n ptr cs P :
  0 < cs -> holds m h n P -> (forall x, P x -> block_of ptr cs n x) -> forall x, block_of ptr cs n x -> P x.
Proof.
  intros Hcs (l & _ & Hd & Hl & Hp) Hb x (i & Hi & ->).
  set (all := (fun i => ptr + i * cs) <$> seqZ 0 n).
  assert (length all = Z.to_nat n) as Hlen by (unfold all; by rewrite length_fmap, length_seqZ).
  assert (l ⊆+ all) as Hsub.
  { apply NoDup_submseteq; [done|]. intros y Hy%Hp. destruct (Hb y Hy) as (j & Hj & ->). apply list_elem_of_fmap.
    exists j. split; [done|]. apply elem_of_seqZ. lia. }
  apply Hp. apply (submseteq_length_Permutation _ _) in Hsub; [|lia]. rewrite Hsub. apply list_elem_of_fmap.
  exists i. split; [done|]. apply elem_of_seqZ. lia.
Qed.

(** A list that misses none has at least as many. *)
Lemma holds_least m h n ptr cs total P :
  0 < cs -> holds m h n P -> (forall x, block_of ptr cs total x -> P x) -> total <= n.
Proof.
  intros Hcs (l & _ & _ & <- & Hp) Hb. set (all := (fun i => ptr + i * cs) <$> seqZ 0 total).
  assert (length all = Z.to_nat total) as Hlen by (unfold all; by rewrite length_fmap, length_seqZ).
  enough (length all <= length l)%nat by lia. apply submseteq_length, NoDup_submseteq.
  - apply NoDup_fmap_2_strong; [|apply NoDup_seqZ]. intros i j _ _ E. nia.
  - intros x (i & -> & Hi%elem_of_seqZ)%list_elem_of_fmap. apply Hp, Hb. exists i. split; [lia|done].
Qed.

Lemma count_le extra full own st c id s :
  central_ok extra full own st -> id ∈ span_list c st -> spans (page_cache st) !! id = Some s ->
  free_count_ s <= total_objects_ s.
Proof using page_size_pos.
  intros Hok Hid Hs. destruct (co_span _ _ _ _ Hok c id Hid) as (? & ? & Hcut & Hh). simplify_eq.
  destruct Hcut as (E & Hc & _ & Ht). destruct (get_size_bounds c Hc) as [Hcs _].
  destruct (co_pages _ _ _ _ Hok) as (used & Hpg & _). destruct (po_span _ _ _ Hpg _ _ Hs) as [Hp _].
  pose proof (Z.div_pos (num_pages_ s * page_size) (get_size c) ltac:(nia) ltac:(lia)).
  pose proof (holds_bound _ _ _ (page_id_ s * page_size) (get_size c) (total_objects_ s) _ ltac:(lia) Hh) as Hle.
  enough (free_count_ s <= Z.max 0 (total_objects_ s)) by lia. apply Hle.
  intros x [Hx _]. unfold is_block in Hx. by rewrite E in Hx.
Qed.

Lemma take_object_ok extra full own st c id s :
  central_ok extra full own st -> id ∈ span_list c st -> spans (page_cache st) !! id = Some s -> 0 < free_count_ s ->
  (full <> None -> full = Some id) ->
  exists obj st', take_object id st = (obj, st') /\ obj <> 0 /\ own !! obj = None /\
    mem st' = mem st /\ thread_caches st' = thread_caches st /\
    forall pl, central_ok extra None (<[obj := (c, pl)]> own) st'.
Proof using page_size_pos.
  intros Hok Hid Hs Hn Hfull. unfold take_object. rewrite (span_of_Some _ _ _ Hs).
  destruct (co_span _ _ _ _ Hok c id Hid) as (? & ? & Hcut & Hh). simplify_eq.
  pose proof (holds_count _ _ _ _ Hh) as (_ & Hz & _).
  assert (free_list_ s <> 0) as Hf by (rewrite Hz; lia).
  destruct (holds_pop _ _ _ _ Hh Hf) as ([Hb Ho] & _ & Hh').
  pose proof (holds_count _ _ _ _ Hh) as (_ & _ & _).
  eexists _, _. split; [done|]. split_and!; try done. intros pl.
  change (with_page_cache ?p st) with (with_mem (mem st) (with_page_cache p st)).
  apply (update_span extra full _ own _ _ _ c id s _ (free_list_ s)); try done; cbn.
  - intros y Hy. by rewrite lookup_insert_ne.
  - intros c' pl'. rewrite lookup_insert_eq. by intros [= <- <-].
  - eapply holds_iff; [|exact Hh']. intros y. cbn. destruct (decide (y = free_list_ s)) as [->|Hy].
    + rewrite lookup_insert_eq. naive_solver.
    + rewrite lookup_insert_ne by done. naive_solver.
  - intros _. pose proof (count_le extra full own st c id s Hok Hid Hs). lia.
Qed.

Lemma span_list_with d c l st : span_list d (with_span_list c l st) = if decide (d = c) then l else span_list d st.
Proof.
  unfold span_list. cbn. case_decide as E; [subst; by rewrite lookup_insert_eq|by rewrite lookup_insert_ne].
Qed.

Lemma span_pages_enough c :
  (c < kNumClasses)%nat -> 0 < span_pages page_size c /\ 256 <= span_pages page_size c * page_size / get_size c.
Proof using page_size_pos.
  intros Hc. destruct (get_size_bounds c Hc) as [Hb _]. unfold span_pages.
  pose proof (Z.div_mod (get_size c * 256 + page_size - 1) page_size ltac:(lia)) as E.
  pose proof (Z.mod_pos_bound (get_size c * 256 + page_size - 1) page_size page_size_pos).
  set (q := (get_size c * 256 + page_size - 1) / page_size) in *. split; [lia|].
  apply Z.div_le_lower_bound; nia.
Qed.

(** ** The pieces of the operations

    What a piece that works on span [id] of class [c] leaves to the others: the caches of
    the threads, the lists of other classes, and all other spans that are in use. *)
Record apart (extra : gset nat) (c id : nat) (st st' : Pool) : Prop := {
  ap_caches : thread_caches st' = thread_caches st;
  ap_lists : forall d, d <> c -> span_list d st' = span_list d st;
  ap_spans : forall i s, i <> id -> i ∈ extra \/ (exists d, i ∈ span_list d st) ->
    spans (page_cache st) !! i = Some s -> spans (page_cache st') !! i = Some s
}.

Lemma apart_trans extra extra' c id st st' st'' :
  apart extra c id st st' -> apart extra' c id st' st'' ->
  (forall i, i <> id -> i ∈ extra \/ (exists d, i ∈ span_list d st) -> i ∈ extra' \/ exists d, i ∈ span_list d st') ->
  apart extra c id st st''.
Proof.
  intros [C1 L1 S1] [C2 L2 S2] Hi. split; [congruence|intros d Hd; by rewrite L2, L1|].
  intros i s Hne Hin Hs. apply S2; [done|by apply Hi|by apply S1].
Qed.

Lemma apart_span extra c id s st m : apart extra c id st (with_mem m (with_page_cache (with_span id s (page_cache st)) st)).
Proof. split; [done..|]. intros i t Hne _ Ht. cbn. by rewrite lookup_insert_ne. Qed.

Lemma in_class extra full own st c d id :
  central_ok extra full own st -> id ∈ span_list c st -> id ∈ span_list d st -> c = d.
Proof using page_size_pos.
  intros Hok Hc Hd. destruct (co_span _ _ _ _ Hok c id Hc) as (s & Hs & [<- _] & _).
  destruct (co_span _ _ _ _ Hok d id Hd) as (t & Ht & [<- _] & _). by simplify_eq.
Qed.

Lemma take_object_apart extra c id st obj st' : take_object id st = (obj, st') -> apart extra c id st st'.
Proof. unfold take_object. intros [= _ <-]. apply (apart_span _ _ _ _ _ (mem st)). Qed.

(** The search finds a span with an object. *)
Lemma find_free_ok extra full own st c id :
  central_ok extra full own st -> find_free c st = Some id ->
  id ∈ span_list c st /\ exists s, spans (page_cache st) !! id = Some s /\ 0 < free_count_ s.
Proof using.
  unfold find_free. intros Hok [Hid%list_elem_of_In Hn%Z.ltb_lt]%find_some. split; [done|].
  destruct (co_span _ _ _ _ Hok c id Hid) as (s & Hs & _). rewrite (span_of_Some _ _ _ Hs) in Hn. by exists s.
Qed.

(** A span that the caller has got is cut and put at the front of its list. *)
Lemma cut_span_ok extra own st c id s :
  central_ok extra None own st -> id ∈ extra -> spans (page_cache st) !! id = Some s ->
  num_pages_ s = span_pages page_size c -> (c < kNumClasses)%nat ->
  exists st', cut_span page_size c id st = Some st' /\
    central_ok (extra ∖ {[id]}) (Some id) own (push_span c id st') /\
    (exists s', spans (page_cache st') !! id = Some s' /\ 0 < free_count_ s') /\
    (forall x, is_Some (own !! x) -> mem st' !! x = mem st !! x) /\ apart extra c id st (push_span c id st').
Proof using page_size_pos.
  intros Hok Hid Hs Hns Hc. destruct (co_pages _ _ _ _ Hok) as (used & Hpg & Hu).
  destruct (span_pages_enough c Hc) as [Hn Hmany]. destruct (get_size_bounds c Hc) as [Hcs _].
  assert (0 < page_id_ s) as Hps.
  { destruct (po_span _ _ _ Hpg _ _ Hs) as [? _].
    destruct (po_source _ _ _ Hpg id s (page_id_ s) Hs) as [? _]; [unfold has_page; lia|done]. }
  unfold cut_span. rewrite (span_of_Some _ _ _ Hs).
  rewrite <-Hns in Hmany. set (T := num_pages_ s * page_size) in *. assert (0 <= T) by (unfold T; nia).
  assert (holds (mem st) 0 0 (block_of (page_id_ s * page_size) (get_size c) 0)) as H0.
  { eapply holds_iff, holds_nil. intros x. split; [done|]. intros (i & Hi & _). lia. }
  destruct (carve_ok (S (Z.to_nat (T / get_size c))) (page_id_ s * page_size) T (get_size c) 0 0 (mem st))
    as (h' & m & Hcarve & Hh & Hm); try done; try nia; try lia.
  change (0 * get_size c) with 0 in Hcarve. rewrite Hcarve. cbn [mbind option_bind].
  set (s' := mkSpan _ _ _ _ _ _). eexists. split; [done|].
  set (st1 := with_mem m _). change (span_list c st1) with (span_list c st).
  assert (spans (page_cache st1) !! id = Some s') as Hs' by (cbn; apply lookup_insert_eq).
  assert (forall i, i <> id -> spans (page_cache st1) !! i = spans (page_cache st) !! i) as Hne
    by (intros i Hi; cbn; by apply lookup_insert_ne).
  assert (cut c s') as Hcut by done.
  set (st2 := push_span c id st1).
  assert (forall d i, i ∈ span_list d st2 <-> (d = c /\ i = id) \/ i ∈ span_list d st) as Hin.
  { intros d i. unfold st2, push_span. rewrite span_list_with. change (span_list d st1) with (span_list d st).
    change (span_list c st1) with (span_list c st). case_decide as E; [subst|naive_solver].
    rewrite elem_of_cons. naive_solver. }
  assert (forall d i, i ∈ span_list d st -> i <> id) as Hold by (intros d i Hi ->; by apply (co_extra _ _ _ _ Hok id d)).
  assert (page_ok mmap used (page_cache st1)) as Hpg' by by apply (with_span_ok _ _ _ _ s).
  assert (forall d i t x, i ∈ span_list d st -> spans (page_cache st) !! i = Some t -> is_block t x -> ~ is_block s' x) as Hdis.
  { intros d i t x Hi Ht Hx Hx'. apply (Hold d i Hi).
    destruct (co_span _ _ _ _ Hok d i Hi) as (? & ? & Hct & _). simplify_eq.
    apply (po_disjoint _ _ _ Hpg' i id t s' (x / page_size)); [by rewrite Hne by eauto|done|by eapply block_page..]. }
  assert (forall x d pl, own !! x = Some (d, pl) -> ~ is_block s' x) as Hown.
  { intros x d pl Hx. destruct (co_own _ _ _ _ Hok x d pl Hx) as (i & t & Hi & Ht & Hb). by eapply Hdis. }
  assert (forall x, is_Some (own !! x) -> m !! x = mem st !! x) as Hmem
    by (intros x [[d pl] Hx]; eapply Hm, Hown, Hx).
  split_and!.
  - split; change (page_cache st2) with (page_cache st1); change (mem st2) with m.
    + exists used. split; [done|]. intros i. rewrite Hu. setoid_rewrite Hin. rewrite elem_of_difference, elem_of_singleton.
      split.
      * intros [Hi|[d Hd]]; [|by eauto]. destruct (decide (i = id)) as [->|]; [right; exists c; auto|by left].
      * intros [[Hi _]|(d & [[-> ->]|Hd])]; eauto.
    + intros i d [Hi Hni]%elem_of_difference [[-> ->]|Hd]%Hin; [by apply Hni, elem_of_singleton|].
      by apply (co_extra _ _ _ _ Hok i d).
    + intros d. unfold st2, push_span. rewrite span_list_with. case_decide; [|apply (co_nodup _ _ _ _ Hok)].
      apply NoDup_cons. split; [|apply (co_nodup _ _ _ _ Hok)]. by apply (co_extra _ _ _ _ Hok).
    + intros d i [[-> ->]|Hi]%Hin.
      * exists s'. split_and!; try done. eapply holds_iff; [|exact Hh]. intros x. split; [|by intros [? _]]. intros Hx.
        split; [done|]. destruct (own !! x) as [[d pl]|] eqn:E; [|done]. by destruct (Hown x d pl E).
      * destruct (co_span _ _ _ _ Hok d i Hi) as (t & Ht & Hct & Hh'). exists t.
        split; [by rewrite Hne by eauto|]. split; [done|]. eapply holds_frame; [|exact Hh'].
        intros x [Hx _]. apply Hm. by eapply Hdis.
    + intros d i t [[-> ->]|Hi]%Hin Ht Hf; [done|]. rewrite Hne in Ht by eauto. by apply (co_part _ _ _ _ Hok d i t).
    + intros x d pl Hx. destruct (co_own _ _ _ _ Hok x d pl Hx) as (i & t & Hi & Ht & Hb). exists i, t.
      rewrite Hin. split; [by right|]. split; [by rewrite Hne by eauto|done].
  - exists s'. split; [done|]. change (0 < T / get_size c). lia.
  - exact Hmem.
  - split; [done| |].
    + intros d Hd. unfold st2, push_span. by rewrite span_list_with, decide_False.
    + intros i t Hi _ Ht. change (page_cache st2) with (page_cache st1). by rewrite Hne.
Qed.

(** The span of an object is found. *)
Lemma find_span_ok extra full own st obj c pl :
  central_ok extra full own st -> own !! obj = Some (c, pl) ->
  exists id s, find_span page_size obj c st = Some id /\ id ∈ span_list c st /\
    spans (page_cache st) !! id = Some s /\ is_block s obj.
Proof using page_size_pos.
  intros Hok Hobj. destruct (co_own _ _ _ _ Hok _ _ _ Hobj) as (id & s & Hid & Hs & Hb).
  destruct (co_span _ _ _ _ Hok c id Hid) as (? & ? & Hcut & Hh). simplify_eq.
  destruct (co_pages _ _ _ _ Hok) as (used & Hpg & Hu). pose proof (block_page c s obj Hcut Hb) as Hpage.
  unfold find_span. destruct (find _ _) as [i|] eqn:E.
  2: { eapply find_none in E; [|by apply list_elem_of_In]. cbn beta zeta in E. rewrite (span_of_Some _ _ _ Hs) in E.
       unfold has_page in Hpage. rewrite (proj2 (Z.leb_le _ _)), (proj2 (Z.ltb_lt _ _)) in E by lia. done. }
  apply find_some in E as [Hi%list_elem_of_In [Hi1%Z.leb_le Hi2%Z.ltb_lt]%andb_prop].
  destruct (co_span _ _ _ _ Hok c i Hi) as (t & Ht & _). rewrite (span_of_Some _ _ _ Ht) in *.
  assert (i = id) as -> by (by apply (po_disjoint _ _ _ Hpg i id t s (obj / page_size))).
  exists id, s. done.
Qed.

(** An object is put back into its span. *)
Lemma put_object_ok extra own st obj c pl id s :
  central_ok extra None own st -> own !! obj = Some (c, pl) -> id ∈ span_list c st ->
  spans (page_cache st) !! id = Some s -> is_block s obj ->
  let st' := put_object id obj st in
  central_ok extra (if wholly_free id st' then Some id else None) (delete obj own) st' /\
  (exists s', spans (page_cache st') !! id = Some s' /\ (wholly_free id st' = true -> free_count_ s' = total_objects_ s')) /\
  (forall x, x <> obj -> mem st' !! x = mem st !! x) /\ apart extra c id st st'.
Proof using page_size_pos.
  intros Hok Hobj Hid Hs Hb. destruct (co_span _ _ _ _ Hok c id Hid) as (? & ? & Hcut & Hh). simplify_eq.
  unfold put_object, wholly_free. rewrite (span_of_Some _ _ _ Hs).
  set (s1 := mkSpan _ _ _ obj _ _). set (m := <[obj := free_list_ s]> (mem st)).
  assert (spans (with_span id s1 (page_cache st)) !! id = Some s1) as Hs1 by (cbn; apply lookup_insert_eq).
  cbv zeta. cbn [page_cache with_mem with_page_cache]. rewrite (span_of_Some _ _ _ Hs1).
  split_and!.
  - apply (update_span extra None _ own _ st m c id s s1 obj); try done.
    + intros y Hy. by rewrite lookup_delete_ne.
    + intros c' pl'. by rewrite lookup_delete_eq.
    + intros y Hy. unfold m. by rewrite lookup_insert_ne.
    + cbn. eapply holds_iff; [|apply (holds_push _ _ _ _ obj Hh)].
      * intros y. cbn. destruct (decide (y = obj)) as [->|]; [rewrite lookup_delete_eq|rewrite lookup_delete_ne by done].
        -- split; [done|by left].
        -- split; [by intros [?|?]|by right].
      * pose proof (block_pos c s obj Hcut Hb). lia.
      * intros [_ ?]. congruence.
    + destruct (Z.eqb_spec (free_count_ s1) (total_objects_ s1)); [done|]. intros _.
      pose proof (co_part _ _ _ _ Hok c id s Hid Hs ltac:(done)). cbn in *. lia.
  - exists s1. split; [done|]. apply Z.eqb_eq.
  - intros x Hx. cbn. unfold m. by rewrite lookup_insert_ne.
  - apply apart_span.
Qed.

(** A span all of whose blocks are back leaves its list. *)
Lemma detach_span_ok extra own st c id s :
  central_ok extra (Some id) own st -> id ∈ span_list c st -> spans (page_cache st) !! id = Some s ->
  free_count_ s = total_objects_ s ->
  central_ok ({[id]} ∪ extra) None own (detach_span c id st) /\ apart extra c id st (detach_span c id st).
Proof using page_size_pos.
  intros Hok Hid Hs Hall. destruct (co_pages _ _ _ _ Hok) as (used & Hpg & Hu).
  unfold detach_span. rewrite (span_of_Some _ _ _ Hs). set (s' := mkSpan _ _ _ 0 0 0). set (st' := with_page_cache _ _).
  assert (forall d, span_list d st' = span_list d (with_span_list c (filter (fun x => x <> id) (span_list c st)) st)) as Hl by done.
  assert (forall d i, i ∈ span_list d st' <-> i ∈ span_list d st /\ i <> id) as Hin.
  { intros d i. rewrite Hl, span_list_with. case_decide as E; [subst; rewrite list_elem_of_filter; tauto|].
    split; [|tauto]. intros Hi. split; [done|]. intros ->. by destruct E, (in_class _ _ _ _ c d id Hok). }
  assert (forall i, i <> id -> spans (page_cache st') !! i = spans (page_cache st) !! i) as Hne
    by (intros i Hi; cbn; by apply lookup_insert_ne).
  split.
  - split; change (mem st') with (mem st).
    + exists used. split; [by apply (with_span_ok _ _ _ _ s)|]. intros i. rewrite Hu, elem_of_union, elem_of_singleton.
      setoid_rewrite Hin. split.
      * intros [Hi|[d Hd]]; [by auto|]. destruct (decide (i = id)) as [->|]; eauto.
      * intros [[->|Hi]|(d & Hd & _)]; eauto.
    + intros i d [->%elem_of_singleton|Hi]%elem_of_union [Hd Hni]%Hin; [done|]. by apply (co_extra _ _ _ _ Hok i d).
    + intros d. rewrite Hl, span_list_with. case_decide; [apply NoDup_filter|]; apply (co_nodup _ _ _ _ Hok).
    + intros d i [Hi Hni]%Hin. destruct (co_span _ _ _ _ Hok d i Hi) as (t & Ht & Hrest). exists t.
      by rewrite Hne.
    + intros d i t [Hi Hni]%Hin Ht _. rewrite Hne in Ht by done. apply (co_part _ _ _ _ Hok d i t Hi); congruence.
    + intros x d pl Hx. destruct (co_own _ _ _ _ Hok x d pl Hx) as (i & t & Hi & Ht & Hb). exists i, t.
      rewrite Hin. enough (i <> id) by (rewrite Hne by done; by split_and!). intros ->. simplify_eq.
      destruct (co_span _ _ _ _ Hok c id Hid) as (? & ? & Hcut & Hh). simplify_eq. rewrite Hall in Hh.
      destruct (get_size_bounds c) as [? _]; [apply Hcut|]. destruct Hcut as (Ec & _).
      enough (is_block s x /\ own !! x = None) as [_ ?] by congruence.
      apply (holds_all _ _ _ (page_id_ s * page_size) (get_size c) _ ltac:(lia) Hh).
      * intros y [Hy _]. unfold is_block in Hy. by rewrite Ec in Hy.
      * unfold is_block in Hb. by rewrite Ec in Hb.
  - split; [done| |].
    + intros d Hd. by rewrite Hl, span_list_with, decide_False.
    + intros i t Hi _ Ht. by rewrite Hne.
Qed.

(** The page cache changes under the lists: the spans in use stay, [extra] changes. *)
Lemma page_step_frame extra extra' own st p used used' :
  central_ok extra None own st -> page_ok mmap used (page_cache st) ->
  (forall i, i ∈ used <-> i ∈ extra \/ exists d, i ∈ span_list d st) ->
  page_ok mmap used' p -> (forall i, i ∈ used' <-> i ∈ extra' \/ exists d, i ∈ span_list d st) ->
  (forall i d, i ∈ extra' -> i ∉ span_list d st) ->
  (forall i t d, i ∈ span_list d st -> spans (page_cache st) !! i = Some t -> spans p !! i = Some t) ->
  central_ok extra' None own (with_page_cache p st).
Proof using.
  intros [_ _ H2 H3 H4 H5] _ _ Hpg' Hu' Hx Hk. split; cbn; try done.
  - by exists used'.
  - intros d i Hi. destruct (H3 d i Hi) as (t & Ht & ?). exists t. split; [by eapply Hk|done].
  - intros d i t Hi Ht Hf. destruct (H3 d i Hi) as (t' & Ht' & _). pose proof (Hk i t' d Hi Ht'). simplify_eq. by eapply H4.
  - intros x d pl Hx'. destruct (H5 x d pl Hx') as (i & t & Hi & Ht & Hb). exists i, t. split; [done|]. split; [by eapply Hk|done].
Qed.

(** A detached span goes back to the page cache. *)
Lemma free_span_step extra own st c id :
  central_ok extra None own st -> id ∈ extra ->
  exists p, free_span id (page_cache st) = Some p /\
    central_ok (extra ∖ {[id]}) None own (with_page_cache p st) /\ apart extra c id st (with_page_cache p st).
Proof using page_size_pos.
  intros Hok Hid. destruct (co_pages _ _ _ _ Hok) as (used & Hpg & Hu).
  assert (id ∈ used) as Hiu by (apply Hu; by left).
  assert (forall d i, i ∈ span_list d st -> i <> id) as Hold by (intros d i Hi ->; by apply (co_extra _ _ _ _ Hok id d)).
  destruct (free_span_ok mmap used _ id Hpg Hiu) as (p & -> & Hpg2 & _ & Hkeep & _).
  exists p. split; [done|]. split.
  - apply (page_step_frame extra _ own st p used (used ∖ {[id]})); try done.
    + intros i. rewrite !elem_of_difference, elem_of_singleton, Hu. split; [tauto|]. intros [?|[d Hd]]; [tauto|].
      split; [eauto|by eapply Hold].
    + intros i d [Hi _]%elem_of_difference. by apply (co_extra _ _ _ _ Hok).
    + intros i t d Hi Ht. apply Hkeep; [apply Hu; eauto|by eapply Hold|done].
  - split; [done..|]. intros i t Hne Hi Ht. apply Hkeep; [by apply Hu|done|done].
Qed.

(** A block that comes back joins the list of its span. *)
Lemma central_deallocate_ok extra own st obj c pl :
  central_ok extra None own st -> own !! obj = Some (c, pl) ->
  exists st', central_deallocate page_size obj c st = Some st' /\ central_ok extra None (delete obj own) st' /\
    thread_caches st' = thread_caches st /\ forall x, x <> obj -> mem st' !! x = mem st !! x.
Proof using page_size_pos.
  intros Hok Hobj. destruct (find_span_ok extra None own st obj c pl Hok Hobj) as (id & s & Hf & Hid & Hs & Hb).
  unfold central_deallocate. rewrite Hf.
  destruct (put_object_ok extra own st obj c pl id s Hok Hobj Hid Hs Hb) as (Hok1 & (s1 & Hs1 & Hfull) & Hm & Ha1).
  cbv zeta. set (st1 := put_object id obj st) in *. destruct (wholly_free id st1).
  - destruct (detach_span_ok extra (delete obj own) st1 c id s1 Hok1 Hid Hs1 (Hfull eq_refl)) as [Hok2 Ha2].
    destruct (free_span_step _ _ _ c id Hok2) as (p & -> & Hok3 & Ha3); [set_solver|]. cbn [mbind option_bind].
    eexists. split; [done|]. split; [|split; [done|done]].
    replace extra with (({[id]} ∪ extra) ∖ {[id]}); [done|].
    assert (id ∉ extra) by (intros Hx; by apply (co_extra _ _ _ _ Hok id c)). set_solver.
  - exists st1. by split_and!.
Qed.

(** What the system promises. *)
Hypothesis mmap_fresh : forall k1 n1 q1 k2 n2 q2 pg,
  mmap k1 n1 = Some q1 -> mmap k2 n2 = Some q2 -> q1 <= pg < q1 + n1 -> q2 <= pg < q2 + n2 -> k1 = k2.
Hypothesis mmap_positive : forall k n q, mmap k n = Some q -> 0 < q.

(** A span is asked of the page cache. *)
Lemma allocate_span_step extra own st c :
  central_ok extra None own st -> (c < kNumClasses)%nat ->
  exists r p, allocate_span mmap (span_pages page_size c) (page_cache st) = (r, p) /\
    (forall id, apart extra c id st (with_page_cache p st)) /\
    match r with
    | None => central_ok extra None own (with_page_cache p st) /\ exists k, mmap k (span_pages page_size c) = None
    | Some id => (id ∉ extra) /\ central_ok ({[id]} ∪ extra) None own (with_page_cache p st) /\
        exists s, spans p !! id = Some s /\ num_pages_ s = span_pages page_size c
    end.
Proof using page_size_pos mmap_fresh mmap_positive.
  intros Hok Hc. destruct (co_pages _ _ _ _ Hok) as (used & Hpg & Hu). destruct (span_pages_enough c Hc) as [Hn _].
  destruct (allocate_span_ok mmap mmap_fresh mmap_positive used (page_cache st) (span_pages page_size c) Hpg Hn)
    as (r & p & -> & Hkeep & _ & Hr).
  exists r, p. split; [done|]. split.
  { intros id. split; [done..|]. intros i s _ Hi Hs. apply Hkeep; [by apply Hu|done]. }
  destruct r as [id|].
  - destruct Hr as (Hid & Hpg' & s & Hs & Hns). split; [by intros ?; apply Hid, Hu; left|]. split; [|by exists s].
    apply (page_step_frame extra _ own st p used ({[id]} ∪ used)); try done.
    + intros i. rewrite !elem_of_union, Hu. tauto.
    + intros i d [->%elem_of_singleton|Hi]%elem_of_union; [|by apply (co_extra _ _ _ _ Hok)].
      intros Hd. apply Hid, Hu. eauto.
    + intros i t d Hi. apply Hkeep, Hu. eauto.
  - destruct Hr as [Hpg' Hno]. split; [|by eexists].
    apply (page_step_frame extra _ own st p used used); try done; [apply (co_extra _ _ _ _ Hok)|].
    intros i t d Hi. apply Hkeep, Hu. eauto.
Qed.

(** The central cache hands out a block that is not handed out yet, or fails
    because the system does. *)
Lemma central_allocate_ok extra own st c :
  central_ok extra None own st -> (c < kNumClasses)%nat ->
  exists obj st', central_allocate page_size mmap c st = Some (obj, st') /\ thread_caches st' = thread_caches st /\
    (forall x, is_Some (own !! x) -> mem st' !! x = mem st !! x) /\
    ((obj = 0 /\ central_ok extra None own st' /\ exists k, mmap k (span_pages page_size c) = None) \/
     (obj <> 0 /\ own !! obj = None /\ forall pl, central_ok extra None (<[obj := (c, pl)]> own) st')).
Proof using page_size_pos mmap_fresh mmap_positive.
  intros Hok Hc. unfold central_allocate. destruct (find_free c st) as [id|] eqn:E.
  - destruct (find_free_ok _ _ _ _ _ _ Hok E) as (Hid & s & Hs & Hn).
    destruct (take_object_ok extra None own st c id s) as (obj & st' & -> & ? & ? & Hm & ? & ?); try done.
    eexists _, _. split; [done|]. split; [done|]. split; [intros x _; by rewrite Hm|]. right. done.
  - destruct (allocate_span_step extra own st c Hok Hc) as (r & p & Hr & _ & Hcase).
    unfold fetch_from_page_cache. rewrite Hr. destruct r as [id|].
    + destruct Hcase as (Hid & Hok1 & s & Hs & Hns).
      destruct (cut_span_ok _ own _ c id s Hok1 ltac:(set_solver) Hs Hns Hc) as (st1 & -> & Hok2 & (s1 & Hs1 & Hn1) & Hm1 & Ha1).
      cbn [mbind option_bind].
      destruct (take_object_ok _ (Some id) own _ c id s1 Hok2) as (obj & st' & -> & ? & ? & Hm' & Ht' & Hc2); try done.
      { unfold push_span. rewrite span_list_with, decide_True by done. left. }
      eexists _, _. split; [done|]. split; [rewrite Ht'; apply (ap_caches _ _ _ _ _ Ha1)|].
      split; [intros x Hx; rewrite Hm'; by apply Hm1|]. right. split_and!; [done..|]. intros pl.
      replace extra with (({[id]} ∪ extra) ∖ {[id]}) by set_solver. apply Hc2.
    + destruct Hcase as [Hok1 Hno]. cbn [mbind option_bind]. eexists _, _. split; [done|]. split_and!; try done. left. done.
Qed.
End central.
End CentralCacheProps.
