(* ===== verification/PoolProps.v ===== *)
(** * Properties of the memory pool: blocks handed out are apart from each other
    and from the free lists, and every block finds its way back *)

From S2P Require Import Prelude Base Monitor Pool PageCacheProps CentralCacheProps.
From stdpp Require Import options.

Module PoolProps.
Import Pool PageCacheProps CentralCacheProps.

(** The order of the blocks in a batch is that of the list. *)
Lemma pop_batch_ok n fl m P :
  holds m (head_ fl) (fl_size_ fl) P ->
  exists objs fl', pop_batch n fl m = (objs, fl') /\ NoDup objs /\ (forall x, x ∈ objs -> P x) /\
    Z.of_nat (length objs) = Z.min (Z.of_nat n) (fl_size_ fl) /\
    fl_size_ fl' = fl_size_ fl - Z.of_nat (length objs) /\
    holds m (head_ fl') (fl_size_ fl') (fun x => P x /\ x ∉ objs).
Proof.
  revert fl P. induction n as [|n IH]; intros fl P Hh; cbn [pop_batch]; pose proof (holds_count _ _ _ _ Hh) as (Hpos & Hz & _).
  - eexists _, _. split; [done|]. split_and!; [constructor|by intros x ?%elem_of_nil|cbn; lia|cbn; lia|].
    eapply holds_iff; [|exact Hh]. intros x. pose proof (not_elem_of_nil x). tauto.
  - destruct (Z.eqb_spec (head_ fl) 0) as [E|E].
    + eexists _, _. split; [done|]. split_and!; [constructor|by intros x ?%elem_of_nil|cbn; tauto || lia|cbn; lia|].
      eapply holds_iff; [|exact Hh]. intros x. pose proof (not_elem_of_nil x). tauto.
    + destruct (holds_pop _ _ _ _ Hh E) as (Hp & Hn & Hh'). unfold fl_pop.
      destruct (Z.eqb_spec (head_ fl) 0); [done|].
      destruct (IH (mkFreeList (next_of m (head_ fl)) (fl_size_ fl - 1)) _ Hh') as (objs & fl' & -> & Hd & HP & Hlen & Hs & Hr).
      cbn [fl_size_] in *. eexists _, _. split; [done|]. split_and!.
      * apply NoDup_cons. split; [|done]. intros [_ ?]%HP. done.
      * intros x [->|Hx]%elem_of_cons; [done|]. by apply HP.
      * cbn. lia.
      * cbn. lia.
      * eapply holds_iff; [|exact Hr]. intros x. cbn. rewrite not_elem_of_cons. tauto.
Qed.

(** [own'] is [own] with [v] for every element of [objs]. *)
Definition reassigned (objs : list Z) (v : option (nat * place)) (own own' : gmap Z (nat * place)) : Prop :=
  forall x, own' !! x = if decide (x ∈ objs) then v else own !! x.

Lemma reassigned_cons x objs v own own1 own2 :
  reassigned [x] v own own1 -> reassigned objs v own1 own2 -> reassigned (x :: objs) v own own2.
Proof.
  intros H1 H2 y. rewrite H2, H1. destruct (decide (y = x)) as [->|Hy].
  - rewrite (decide_True (P := x ∈ x :: objs)) by left. rewrite (decide_True (P := x ∈ [x])) by left. by case_decide.
  - rewrite (decide_False (P := y ∈ [x])) by (by rewrite list_elem_of_singleton).
    destruct (decide (y ∈ objs)); [rewrite decide_True by (by right)|rewrite decide_False]; try done. by intros [?|?]%elem_of_cons.
Qed.

Lemma reassigned_app l k v own own1 own2 :
  reassigned l v own own1 -> reassigned k v own1 own2 -> reassigned (l ++ k) v own own2.
Proof.
  intros H1 H2 y. rewrite H2, H1. repeat case_decide; rewrite elem_of_app in *; tauto.
Qed.

(** Overwriting what an earlier assignment gave. *)
Lemma reassigned_over l v w own own1 own2 :
  reassigned l v own own1 -> reassigned l w own1 own2 -> reassigned l w own own2.
Proof. intros H1 H2 y. rewrite H2, H1. by case_decide. Qed.

Lemma reassigned_insert x v own : reassigned [x] (Some v) own (<[x := v]> own).
Proof.
  intros y. destruct (decide (y = x)) as [->|Hy].
  - by rewrite lookup_insert_eq, decide_True by left.
  - rewrite lookup_insert_ne, decide_False; [done|by rewrite list_elem_of_singleton|done].
Qed.

Lemma reassigned_delete x own : reassigned [x] None own (delete x own).
Proof.
  intros y. destruct (decide (y = x)) as [->|Hy].
  - by rewrite lookup_delete_eq, decide_True by left.
  - rewrite lookup_delete_ne, decide_False; [done|by rewrite list_elem_of_singleton|done].
Qed.

Lemma reassigned_in objs v own own' x : reassigned objs v own own' -> x ∈ objs -> own' !! x = v.
Proof. intros H Hx. rewrite H. by rewrite decide_True. Qed.

Section pool.
Context (page_size : Z) (mmap : nat -> Z -> option Z).
Hypothesis page_size_pos : 0 < page_size.

(** What the system promises. *)
Hypothesis mmap_fresh : forall k1 n1 q1 k2 n2 q2 pg,
  mmap k1 n1 = Some q1 -> mmap k2 n2 = Some q2 -> q1 <= pg < q1 + n1 -> q2 <= pg < q2 + n2 -> k1 = k2.
Hypothesis mmap_positive : forall k n q, mmap k n = Some q -> 0 < q.

Section caches.
(** The spans that threads have between the page cache and the central one. *)
Context (extra : gset nat).

(** [own] says of every block that has left its span whose cache it is in, or that
    a client has it; the caches hold just these blocks. *)
Record pool_ok (own : gmap Z (nat * place)) (st : Pool) : Prop := {
  pk_central : central_ok page_size mmap extra None own st;
  pk_cache : forall t c, holds (mem st) (head_ (free_list t c st)) (fl_size_ (free_list t c st))
    (fun x => own !! x = Some (c, Cached t))
}.

(** ** What the central cache does not look at *)

Lemma central_frame full own st st' :
  central_ok page_size mmap extra full own st -> page_cache st' = page_cache st -> span_lists_ st' = span_lists_ st ->
  (forall c id s x, id ∈ span_list c st -> spans (page_cache st) !! id = Some s -> is_block page_size s x ->
     own !! x = None -> mem st' !! x = mem st !! x) ->
  central_ok page_size mmap extra full own st'.
Proof.
  intros [H1 H0 H2 H3 H4 H5] Hp Hl Hm. assert (forall c, span_list c st' = span_list c st) as Hsl
    by (intros c; unfold span_list; by rewrite Hl).
  split; rewrite ?Hp.
  - destruct H1 as (used & Hpg & Hu). exists used. split; [done|]. intros id. rewrite Hu. by setoid_rewrite Hsl.
  - intros id c. rewrite Hsl. apply H0.
  - intros c. by rewrite Hsl.
  - intros c id. rewrite Hsl. intros Hid. destruct (H3 c id Hid) as (s & Hs & Hcut & Hh). exists s.
    split_and!; try done. eapply holds_frame; [|exact Hh]. intros x [Hb Ho]. by eapply Hm.
  - intros c id s. rewrite Hsl. apply H4.
  - intros x c pl Hx. destruct (H5 x c pl Hx) as (id & s & ? & ? & ?). exists id, s. by rewrite Hsl.
Qed.

Lemma central_place full own st x c pl pl' :
  central_ok page_size mmap extra full own st -> own !! x = Some (c, pl) ->
  central_ok page_size mmap extra full (<[x := (c, pl')]> own) st.
Proof.
  intros [H1 H0 H2 H3 H4 H5] Hx. split; try done.
  - intros d id Hid. destruct (H3 d id Hid) as (s & Hs & Hcut & Hh). exists s. split_and!; try done.
    eapply holds_iff; [|exact Hh]. intros y. cbn. destruct (decide (y = x)) as [->|]; [|by rewrite lookup_insert_ne].
    rewrite lookup_insert_eq, Hx. naive_solver.
  - intros y d pl0. destruct (decide (y = x)) as [->|]; [|rewrite lookup_insert_ne by done; apply H5].
    rewrite lookup_insert_eq. intros [= <- <-]. by eapply H5.
Qed.

Lemma central_places full own st objs c pl' :
  central_ok page_size mmap extra full own st -> (forall x, x ∈ objs -> exists pl, own !! x = Some (c, pl)) ->
  exists own', reassigned objs (Some (c, pl')) own own' /\ central_ok page_size mmap extra full own' st.
Proof.
  revert own. induction objs as [|x objs IH]; intros own Hok Ho; [by exists own|].
  destruct (Ho x (list_elem_of_here _ _)) as [pl Hx].
  destruct (IH (<[x := (c, pl')]> own)) as (own' & Hr & Hok').
  - by eapply central_place.
  - intros y Hy. destruct (decide (y = x)) as [->|]; [rewrite lookup_insert_eq; eauto|].
    rewrite lookup_insert_ne by done. apply Ho. by right.
  - exists own'. split; [|done]. eapply reassigned_cons; [apply reassigned_insert|done].
Qed.

Lemma free_list_with t' c' t c fl st :
  free_list t' c' (with_cache t c fl st) = if decide (t' = t /\ c' = c) then fl else free_list t' c' st.
Proof.
  unfold free_list, with_cache. cbn. destruct (decide (t' = t)) as [->|Ht].
  - rewrite lookup_insert_eq. cbn. destruct (decide (c' = c)) as [->|Hc].
    + rewrite lookup_insert_eq, decide_True by done. done.
    + rewrite lookup_insert_ne, decide_False by naive_solver. by destruct (thread_caches st !! t); cbn; [|rewrite lookup_empty].
  - rewrite lookup_insert_ne, decide_False by naive_solver. done.
Qed.

Lemma owned_pos own st x c pl : pool_ok own st -> own !! x = Some (c, pl) -> (c < kNumClasses)%nat /\ x <> 0.
Proof using page_size_pos.
  intros Hok Hx. destruct (co_own _ _ _ _ _ _ (pk_central _ _ Hok) _ _ _ Hx) as (id & s & Hid & Hs & Hb).
  destruct (co_span _ _ _ _ _ _ (pk_central _ _ Hok) c id Hid) as (? & ? & Hcut & _). simplify_eq.
  pose proof (block_pos page_size page_size_pos c s x Hcut Hb). split; [apply Hcut|lia].
Qed.

(** ** The caches of the threads *)

Lemma cache_push_ok own st t c obj pl :
  pool_ok own st -> own !! obj = Some (c, pl) -> (forall u, pl <> Cached u) -> obj <> 0 ->
  pool_ok (<[obj := (c, Cached t)]> own) (cache_push t c obj st).
Proof.
  intros [Hc Hl] Hobj Hpl Hz. unfold cache_push, fl_push. split.
  - eapply central_place; [|exact Hobj]. eapply central_frame; [exact Hc|done|done|]. intros d id s x _ _ _ Hx.
    cbn. apply lookup_insert_ne. congruence.
  - intros t' c'. rewrite free_list_with. case_decide as E.
    + destruct E as [-> ->]. cbn. eapply holds_iff; [|apply (holds_push _ _ _ _ obj (Hl t c)); [done|rewrite Hobj; intros [= ?]; by destruct (Hpl t)]].
      intros x. cbn. destruct (decide (x = obj)) as [->|]; [rewrite lookup_insert_eq|rewrite lookup_insert_ne by done]; naive_solver.
    + eapply holds_iff, holds_frame, (Hl t' c').
      * intros x. destruct (decide (x = obj)) as [->|]; [|by rewrite lookup_insert_ne].
        rewrite lookup_insert_eq, Hobj. split; [intros [= _ ?]; by destruct (Hpl t')|]. intros [= -> ->]. by destruct E.
      * intros x Hx. cbn. apply lookup_insert_ne. intros ->. cbn beta in Hx. rewrite Hobj in Hx. injection Hx as ?. by destruct (Hpl t').
Qed.

Lemma cache_pop_ok own st t c :
  pool_ok own st -> head_ (free_list t c st) <> 0 ->
  exists obj st', cache_pop t c st = (obj, st') /\ obj <> 0 /\ own !! obj = Some (c, Cached t) /\
    pool_ok (<[obj := (c, Client)]> own) st'.
Proof.
  intros [Hc Hl] Hh. destruct (holds_pop _ _ _ _ (Hl t c) Hh) as (Hobj & _ & Hl').
  unfold cache_pop, fl_pop. destruct (Z.eqb_spec (head_ (free_list t c st)) 0); [done|].
  eexists _, _. split; [done|]. split_and!; [done|done|]. split.
  - eapply central_place; [|exact Hobj]. by eapply central_frame; [exact Hc|..].
  - intros t' c'. rewrite free_list_with. set (obj := head_ _) in *. case_decide as E.
    + destruct E as [-> ->]. cbn. eapply holds_iff; [|exact Hl'].
      intros x. cbn. destruct (decide (x = obj)) as [->|]; [rewrite lookup_insert_eq|rewrite lookup_insert_ne by done]; naive_solver.
    + eapply holds_iff, (Hl t' c'). intros x. destruct (decide (x = obj)) as [->|]; [|by rewrite lookup_insert_ne].
      rewrite lookup_insert_eq, Hobj. split; [|done]. intros [= -> ->]. by destruct E.
Qed.

(** Giving blocks back to the central cache one by one. *)
Lemma return_objects_ok objs own st c :
  pool_ok own st -> NoDup objs -> (forall x, x ∈ objs -> own !! x = Some (c, Client)) ->
  exists own' st', return_objects page_size objs c st = Some st' /\ pool_ok own' st' /\ reassigned objs None own own' /\
    thread_caches st' = thread_caches st.
Proof using page_size_pos.
  unfold return_objects. revert own st. induction objs as [|obj objs IH]; intros own st Hok Hd Ho.
  { exists own, st. by split_and!. }
  apply NoDup_cons in Hd as [Hn Hd]. cbn [foldl].
  pose proof (Ho obj (list_elem_of_here _ _)) as Hobj. destruct Hok as [Hc Hl].
  destruct (central_deallocate_ok page_size mmap page_size_pos extra own st obj c Client Hc Hobj) as (st1 & Hst1 & Hc1 & Ht1 & Hm1).
  cbn [mbind option_bind]. rewrite Hst1.
  destruct (IH (delete obj own) st1) as (own' & st' & -> & Hok' & Hr & Ht); [|done| |].
  - split; [done|]. intros t d. unfold free_list. rewrite Ht1. change (default _ _) with (free_list t d st).
    eapply holds_iff, holds_frame, (Hl t d).
    + intros x. destruct (decide (x = obj)) as [->|]; [|by rewrite lookup_delete_ne]. by rewrite lookup_delete_eq, Hobj.
    + intros x Hx. apply Hm1. congruence.
  - intros x Hx. rewrite lookup_delete_ne by congruence. apply Ho. by right.
  - exists own', st'. split; [done|]. split; [done|]. split; [|congruence].
    eapply reassigned_cons; [apply reassigned_delete|done].
Qed.

(** A batch that has left the list of a thread. *)
Lemma batch_ok own st t c objs fl pl :
  pool_ok own st -> (forall u, pl <> Cached u) -> (forall x, x ∈ objs -> own !! x = Some (c, Cached t)) ->
  holds (mem st) (head_ fl) (fl_size_ fl) (fun x => own !! x = Some (c, Cached t) /\ x ∉ objs) ->
  exists own', reassigned objs (Some (c, pl)) own own' /\ pool_ok own' (with_cache t c fl st).
Proof.
  intros [Hc Hl] Hpl Ho Hh.
  destruct (central_places None own st objs c pl Hc) as (own' & Hr & Hc'); [by intros x Hx; exists (Cached t); apply Ho|].
  exists own'. split; [done|]. split; [by eapply central_frame; [exact Hc'|..]|].
  intros t' c'. rewrite free_list_with. case_decide as E; cbn.
  - destruct E as [-> ->]. eapply holds_iff; [|exact Hh]. intros x. rewrite Hr. cbn. case_decide; [|naive_solver].
    split; [by intros [_ ?]|]. intros [= ?]. by destruct (Hpl t).
  - eapply holds_iff, (Hl t' c'). intros x. rewrite Hr. case_decide as Hx; [|done]. rewrite (Ho x Hx).
    split; [|intros [= _ ?]; by destruct (Hpl t')]. intros [= -> ->]. by destruct E.
Qed.

Lemma return_loop_ok fuel t c target own st :
  pool_ok own st -> (target < fuel)%nat -> Z.of_nat target <= fl_size_ (free_list t c st) ->
  exists own' st' objs, return_loop page_size fuel t c target st = Some st' /\ pool_ok own' st' /\
    (forall x, x ∈ objs -> own !! x = Some (c, Cached t)) /\ reassigned objs None own own' /\
    fl_size_ (free_list t c st') = fl_size_ (free_list t c st) - Z.of_nat target.
Proof using page_size_pos.
  revert target own st. induction fuel as [|fuel IH]; intros target own st Hok Hf Hsz; [lia|].
  cbn [return_loop]. destruct (Nat.eqb_spec target 0) as [->|Hne].
  { exists own, st, []. split_and!; try done; [by intros x ?%elem_of_nil|lia]. }
  destruct (pop_batch_ok (Nat.min target 256) _ _ _ (pk_cache _ _ Hok t c)) as (objs & fl & -> & Hd & Ho & Hlen & Hs & Hr).
  destruct (Nat.eqb_spec (length objs) 0) as [|Hlen0]; [lia|].
  destruct (batch_ok own st t c objs fl Client Hok ltac:(done) Ho Hr) as (own1 & Hr1 & Hok1).
  destruct (return_objects_ok objs own1 _ c Hok1 Hd) as (own2 & st2 & -> & Hok2 & Hr2 & Ht2);
    [intros x Hx; by apply (reassigned_in _ _ _ _ _ Hr1)|].
  cbn [mbind option_bind].
  assert (free_list t c st2 = fl) as Hfl.
  { unfold free_list. rewrite Ht2. change (free_list t c (with_cache t c fl st) = fl). by rewrite free_list_with, decide_True. }
  destruct (IH (target - length objs)%nat own2 st2 Hok2) as (own3 & st3 & objs' & -> & Hok3 & Ho3 & Hr3 & Hs3);
    [lia|rewrite Hfl; lia|].
  pose proof (reassigned_over _ _ _ _ _ _ Hr1 Hr2) as Hr02.
  exists own3, st3, (objs ++ objs'). split_and!; try done.
  - intros x [Hx|Hx]%elem_of_app; [by apply Ho|]. specialize (Ho3 x Hx). rewrite Hr02 in Ho3. by case_decide.
  - by eapply reassigned_app.
  - rewrite Hs3, Hfl, Hs. lia.
Qed.

(** Half of the blocks of a list, or all of them, go back. *)
Lemma return_to_central_ok t c all own st :
  pool_ok own st ->
  exists own' st' objs, return_to_central page_size t c all st = Some st' /\ pool_ok own' st' /\
    (forall x, x ∈ objs -> own !! x = Some (c, Cached t)) /\ reassigned objs None own own' /\
    fl_size_ (free_list t c st') =
      if all : bool then 0 else fl_size_ (free_list t c st) - fl_size_ (free_list t c st) / 2.
Proof using page_size_pos.
  intros Hok. unfold return_to_central. set (n := fl_size_ (free_list t c st)).
  pose proof (holds_count _ _ _ _ (pk_cache _ _ Hok t c)) as (Hn & _). fold n in Hn.
  set (target := Z.to_nat _). assert (Z.of_nat target = if all then n else n / 2) as Ht.
  { unfold target. destruct all; [lia|]. pose proof (Z.div_pos n 2). lia. }
  assert (Z.of_nat target <= n) as Hle.
  { rewrite Ht. destruct all; [lia|]. apply Z.div_le_upper_bound; lia. }
  destruct (Nat.eqb_spec target 0) as [E|E].
  - exists own, st, []. split_and!; try done; [by intros x ?%elem_of_nil|]. fold n. destruct all; lia.
  - destruct (return_loop_ok (S target) t c target own st Hok) as (own' & st' & objs & ? & ? & ? & ? & Hs); [lia|done|].
    exists own', st', objs. split_and!; try done. rewrite Hs. fold n. destruct all; lia.
Qed.

Lemma push_all_ok t c objs own st pl :
  pool_ok own st -> (forall u, pl <> Cached u) -> NoDup objs -> (forall x, x ∈ objs -> x <> 0 /\ own !! x = Some (c, pl)) ->
  exists own', pool_ok own' (foldl (fun st obj => cache_push t c obj st) st objs) /\
    reassigned objs (Some (c, Cached t)) own own'.
Proof using.
  intros Hok Hpl. revert own st Hok. induction objs as [|obj objs IH]; intros own st Hok Hd Ho; [by exists own|].
  apply NoDup_cons in Hd as [Hn Hd]. cbn [foldl]. destruct (Ho obj (list_elem_of_here _ _)) as [Hz Hobj].
  destruct (IH (<[obj := (c, Cached t)]> own) (cache_push t c obj st)) as (own' & Hok' & Hr); [by eapply cache_push_ok|done| |].
  - intros x Hx. rewrite lookup_insert_ne by congruence. apply Ho. by right.
  - exists own'. split; [done|]. eapply reassigned_cons; [apply reassigned_insert|done].
Qed.

Definition refused (c : nat) : Prop := exists k, mmap k (span_pages page_size c) = None.

Lemma collect_ok n c own st :
  pool_ok own st -> (c < kNumClasses)%nat ->
  exists objs own' st', collect page_size mmap n c st = Some (objs, st') /\ pool_ok own' st' /\ NoDup objs /\
    (forall x, x ∈ objs -> x <> 0 /\ own !! x = None) /\ reassigned objs (Some (c, Client)) own own' /\
    ((length objs < n)%nat -> refused c).
Proof using page_size_pos mmap_fresh mmap_positive.
  intros Hok Hc. revert own st Hok. induction n as [|n IH]; intros own st Hok; cbn [collect].
  { exists [], own, st. split_and!; try done; [constructor|by intros x ?%elem_of_nil|lia]. }
  destruct Hok as [Hce Hl].
  destruct (central_allocate_ok page_size mmap page_size_pos mmap_fresh mmap_positive extra own st c Hce Hc)
    as (obj & st1 & -> & Ht1 & Hm1 & Hcase). cbn [mbind option_bind].
  destruct Hcase as [(-> & Hc1 & Hno)|(Hz & Hobj & Hc1)].
  - exists [], own, st1. split_and!; try done; [|constructor|by intros x ?%elem_of_nil]. split; [done|].
    intros t d. unfold free_list. rewrite Ht1. eapply holds_frame, (Hl t d). intros x Hx. apply Hm1. by eexists.
  - destruct (Z.eqb_spec obj 0) as [|_]; [done|].
    destruct (IH (<[obj := (c, Client)]> own) st1) as (objs & own' & st' & -> & Hok' & Hd & Ho & Hr & Hlen).
    { split; [apply Hc1|]. intros t d. unfold free_list. rewrite Ht1. change (default _ _) with (free_list t d st).
      eapply holds_iff, holds_frame, (Hl t d).
      - intros x. destruct (decide (x = obj)) as [->|]; [|by rewrite lookup_insert_ne]. by rewrite lookup_insert_eq, Hobj.
      - intros x Hx. apply Hm1. eexists; exact Hx. }
    cbn [mbind option_bind]. exists (obj :: objs), own', st'. split_and!; try done.
    + apply NoDup_cons. split; [|done]. intros [_ Hx]%Ho. by rewrite lookup_insert_eq in Hx.
    + intros x [->|Hx]%elem_of_cons; [done|]. destruct (Ho x Hx) as [? Hx']. split; [done|].
      destruct (decide (x = obj)) as [->|]; [done|]. by rewrite lookup_insert_ne in Hx'.
    + eapply reassigned_cons; [apply reassigned_insert|done].
    + cbn. intros ?. apply Hlen. lia.
Qed.

Lemma fetch_from_central_ok t c own st :
  pool_ok own st -> (c < kNumClasses)%nat ->
  exists own' st' objs, fetch_from_central page_size mmap t c st = Some st' /\ pool_ok own' st' /\
    (forall x, x ∈ objs -> own !! x = None) /\ reassigned objs (Some (c, Cached t)) own own' /\
    ((length objs < 256)%nat -> refused c).
Proof using page_size_pos mmap_fresh mmap_positive.
  intros Hok Hc. unfold fetch_from_central.
  destruct (collect_ok 256 c own st Hok Hc) as (objs & own1 & st1 & -> & Hok1 & Hd & Ho & Hr1 & Hlen). cbn [mbind option_bind].
  destruct (push_all_ok t c objs own1 st1 Client Hok1 ltac:(done) Hd) as (own2 & Hok2 & Hr2).
  { intros x Hx. split; [by apply Ho|]. by apply (reassigned_in _ _ _ _ _ Hr1). }
  eexists own2, _, objs. split; [done|]. split_and!; try done; [intros x Hx; by apply Ho|]. by eapply reassigned_over.
Qed.

(** ** What clients see

    [held] is the class of every block a client has. *)
Definition clients (own : gmap Z (nat * place)) (held : gmap Z nat) : Prop :=
  forall x c, held !! x = Some c <-> own !! x = Some (c, Client).

Definition pool_rel (held : gmap Z nat) (st : Pool) : Prop := exists own, pool_ok own st /\ clients own held.

Lemma clients_insert own held x c : clients own held -> clients (<[x := (c, Client)]> own) (<[x := c]> held).
Proof.
  intros H y d. destruct (decide (y = x)) as [->|]; [rewrite !lookup_insert_eq|rewrite !lookup_insert_ne by done; apply H].
  naive_solver.
Qed.

Lemma clients_cached own own' held objs v :
  clients own held -> reassigned objs v own own' -> (forall c, v <> Some (c, Client)) ->
  (forall x c, x ∈ objs -> own !! x <> Some (c, Client)) -> clients own' held.
Proof.
  intros H Hr Hv Ho x c. rewrite (H x c : _ <-> _), Hr. case_decide as Hx; [|done].
  split; [intros E; by destruct (Ho x c Hx)|intros E; by destruct (Hv c)].
Qed.

Lemma thread_allocate_ok t size held st :
  pool_rel held st ->
  exists r st', thread_allocate page_size mmap t size st = Some (r, st') /\
    match r with
    | Malloc n => n = size /\ 262144 < size /\ st' = st
    | Pointer obj => exists c, get_index size = Some c /\
        if obj =? 0 then refused c /\ pool_rel held st' else held !! obj = None /\ pool_rel (<[obj := c]> held) st'
    end.
Proof using page_size_pos mmap_fresh mmap_positive.
  intros (own & Hok & Hcl). unfold thread_allocate. pose proof (get_index_spec size) as Hidx.
  destruct (get_index size) as [c|]; [|by exists (Malloc size), st].
  destruct Hidx as (Hc & _).
  assert (forall own st, pool_ok own st -> clients own held -> head_ (free_list t c st) <> 0 ->
    exists obj st', cache_pop t c st = (obj, st') /\ obj <> 0 /\ held !! obj = None /\ pool_rel (<[obj := c]> held) st') as Hpop.
  { clear own st Hok Hcl. intros own st Hok Hcl Hh. destruct (cache_pop_ok own st t c Hok Hh) as (obj & st' & -> & Hz & Hobj & Hok').
    exists obj, st'. split_and!; try done.
    - destruct (held !! obj) as [d|] eqn:E; [|done]. apply Hcl in E. congruence.
    - exists (<[obj := (c, Client)]> own). split; [done|]. by apply clients_insert. }
  destruct (Z.eqb_spec (head_ (free_list t c st)) 0) as [E|E]; cbn [negb].
  - destruct (fetch_from_central_ok t c own st Hok Hc) as (own1 & st1 & objs & -> & Hok1 & Ho & Hr & Hlen). cbn [mbind option_bind].
    assert (clients own1 held) as Hcl1 by (eapply clients_cached; [done|exact Hr|done|]; intros x d Hx; by rewrite (Ho x Hx)).
    destruct (Z.eqb_spec (head_ (free_list t c st1)) 0) as [E1|E1]; cbn [negb].
    + exists (Pointer 0), st1. split; [done|]. exists c. cbn. split; [done|]. split; [|by exists own1]. apply Hlen.
      destruct objs as [|x objs]; [cbn; lia|]. exfalso.
      destruct (holds_count _ _ _ _ (pk_cache _ _ Hok1 t c)) as (_ & _ & Hempty).
      apply (proj1 Hempty E1 x). apply (reassigned_in _ _ _ _ _ Hr). left.
    + destruct (Hpop own1 st1 Hok1 Hcl1 E1) as (obj & st' & -> & Hz & Hobj & Hrel). exists (Pointer obj), st'.
      split; [done|]. exists c. by rewrite (proj2 (Z.eqb_neq obj 0) Hz).
  - destruct (Hpop own st Hok Hcl E) as (obj & st' & -> & Hz & Hobj & Hrel). exists (Pointer obj), st'.
    split; [done|]. exists c. by rewrite (proj2 (Z.eqb_neq obj 0) Hz).
Qed.

Lemma thread_deallocate_ok t obj size c held st :
  pool_rel held st -> held !! obj = Some c -> get_index size = Some c ->
  exists st', thread_deallocate page_size t obj size st = Some (true, st') /\ pool_rel (delete obj held) st' /\
    let n := fl_size_ (free_list t c st) + 1 in
    fl_size_ (free_list t c st') = if 32 <? n then n - n / 2 else n.
Proof using page_size_pos.
  intros (own & Hok & Hcl) Hobj%Hcl Hidx. unfold thread_deallocate. rewrite Hidx.
  destruct (owned_pos own st obj c Client Hok Hobj) as [_ Hz].
  pose proof (cache_push_ok own st t c obj Client Hok Hobj ltac:(done) Hz) as Hok1.
  set (own1 := <[obj := (c, Cached t)]> own) in *. set (st1 := cache_push t c obj st) in *.
  assert (fl_size_ (free_list t c st1) = fl_size_ (free_list t c st) + 1) as Hsz.
  { unfold st1, cache_push, fl_push. by rewrite free_list_with, decide_True. }
  assert (clients own1 (delete obj held)) as Hcl1.
  { intros x d. unfold own1. destruct (decide (x = obj)) as [->|].
    - rewrite lookup_delete_eq, lookup_insert_eq. naive_solver.
    - rewrite lookup_delete_ne, lookup_insert_ne by done. apply Hcl. }
  rewrite Hsz. destruct (32 <? _) eqn:E; cbn zeta.
  - destruct (return_to_central_ok t c false own1 st1 Hok1) as (own2 & st2 & objs & -> & Hok2 & Ho & Hr & Hs).
    cbn [mbind option_bind]. exists st2. split; [done|]. split; [|by rewrite Hs, Hsz]. exists own2. split; [done|].
    eapply clients_cached; [done|exact Hr|done|]. intros x d Hx. rewrite (Ho x Hx). done.
  - exists st1. split; [done|]. split; [by exists own1|done].
Qed.

(** The classes that the destructor has passed are empty. *)
Lemma exit_loop_ok t cs held own st :
  pool_ok own st -> clients own held ->
  exists own' st',
    foldl (fun st c => st ≫= fun st =>
      if head_ (free_list t c st) =? 0 then Some st else return_to_central page_size t c true st) (Some st) cs = Some st' /\
    pool_ok own' st' /\ clients own' held /\ (forall x d, own' !! x = Some (d, Cached t) -> d ∉ cs) /\
    (forall x v, own' !! x = Some v -> own !! x = Some v).
Proof using page_size_pos.
  revert own st. induction cs as [|c cs IH]; intros own st Hok Hcl.
  { exists own, st. split_and!; try done. intros x d _. apply not_elem_of_nil. }
  cbn [foldl mbind option_bind].
  assert (exists own1 st1, (if head_ (free_list t c st) =? 0 then Some st else return_to_central page_size t c true st) = Some st1 /\
    pool_ok own1 st1 /\ clients own1 held /\ (forall x, own1 !! x <> Some (c, Cached t)) /\
    (forall x v, own1 !! x = Some v -> own !! x = Some v)) as (own1 & st1 & -> & Hok1 & Hcl1 & Hno & Hsub).
  { destruct (holds_count _ _ _ _ (pk_cache _ _ Hok t c)) as (_ & _ & Hempty).
    destruct (Z.eqb_spec (head_ (free_list t c st)) 0) as [E|E]; [exists own, st; split_and!; try done; exact (proj1 Hempty E)|].
    destruct (return_to_central_ok t c true own st Hok) as (own1 & st1 & objs & -> & Hok1 & Ho & Hr & Hs).
    exists own1, st1. split_and!; try done.
    - eapply clients_cached; [done|exact Hr|done|]. intros x d Hx. by rewrite (Ho x Hx).
    - destruct (holds_count _ _ _ _ (pk_cache _ _ Hok1 t c)) as (_ & Hz & Hempty1). apply Hempty1, Hz, Hs.
    - intros x v. rewrite Hr. by case_decide. }
  destruct (IH own1 st1 Hok1 Hcl1) as (own2 & st2 & -> & Hok2 & Hcl2 & Hno2 & Hsub2).
  exists own2, st2. split_and!; try done; [|naive_solver]. intros x d Hx. apply not_elem_of_cons.
  split; [|by eapply Hno2]. intros ->. apply (Hno x). by apply Hsub2.
Qed.

Lemma drop_cache_ok t own st :
  pool_ok own st -> (forall x d, own !! x <> Some (d, Cached t)) ->
  pool_ok own (mkPool (page_cache st) (span_lists_ st) (mem st) (delete t (thread_caches st))).
Proof using.
  intros Hok Hno. split; [by eapply central_frame; [apply (pk_central _ _ Hok)|..]|].
  intros t' c. unfold free_list. cbn. destruct (decide (t' = t)) as [->|Ht].
  - rewrite lookup_delete_eq. cbn. eapply holds_iff, holds_nil. intros x. split; [done|apply Hno].
  - rewrite lookup_delete_ne by done. apply (pk_cache _ _ Hok t' c).
Qed.

Lemma thread_exit_ok t held st :
  pool_rel held st ->
  exists st', thread_exit page_size t st = Some st' /\ pool_rel held st' /\ thread_caches st' !! t = None.
Proof using page_size_pos.
  intros (own & Hok & Hcl). unfold thread_exit.
  destruct (exit_loop_ok t (seq 0 kNumClasses) held own st Hok Hcl) as (own' & st' & -> & Hok' & Hcl' & Hno & _).
  cbn [mbind option_bind]. eexists. split; [done|]. split; [|cbn; apply lookup_delete_eq].
  exists own'. split; [|done]. apply drop_cache_ok; [done|]. intros x d Hx. apply (Hno x d Hx), elem_of_seq.
  destruct (owned_pos own' st' x d _ Hok' Hx). lia.
Qed.

(** A client writes into its block. *)
Lemma write_ok obj c m own st :
  pool_ok own st -> own !! obj = Some (c, Client) ->
  (forall x, ~ (obj <= x < obj + get_size c) -> m !! x = mem st !! x) -> pool_ok own (with_mem m st).
Proof using page_size_pos.
  intros Hok Hobj Hm. pose proof (pk_central _ _ Hok) as Hce.
  destruct (co_own _ _ _ _ _ _ Hce _ _ _ Hobj) as (id & s & Hid & Hs & Hb).
  destruct (co_span _ _ _ _ _ _ Hce c id Hid) as (_ & _ & (_ & Hc & _) & _). destruct (get_size_bounds c Hc) as [Hcs _].
  assert (forall d i t x, i ∈ span_list d st -> spans (page_cache st) !! i = Some t -> is_block page_size t x ->
    x <> obj -> m !! x = mem st !! x) as Hsame.
  { intros d i t x Hi Ht Hx Hne. apply Hm. intros Hrange.
    destruct (co_span _ _ _ _ _ _ Hce d i Hi) as (_ & _ & (_ & Hd & _) & _). destruct (get_size_bounds d Hd) as [? _].
    destruct (blocks_apart page_size mmap page_size_pos extra None own st c d id i s t obj x) as (_ & _ & _ & ?); try done; lia. }
  split.
  - eapply central_frame; [exact Hce|done|done|]. intros d i t x Hi Ht Hx Ho. cbn. eapply Hsame; try done. congruence.
  - intros t d. eapply holds_frame, (pk_cache _ _ Hok t d). intros x Hx. cbn.
    destruct (co_own _ _ _ _ _ _ Hce _ _ _ Hx) as (i & u & Hi & Hu & Hb'). eapply Hsame; try done. intros ->.
    rewrite Hobj in Hx. done.
Qed.

(** The checks of [MemoryPool] are those of the thread cache again. *)
Lemma MemoryPool_allocate_eq t size st :
  MemoryPool_allocate page_size mmap t size st = thread_allocate page_size mmap t size st.
Proof.
  unfold MemoryPool_allocate, thread_allocate, get_index. destruct (get_size (kNumClasses - 1) <? size); done.
Qed.

Lemma MemoryPool_deallocate_eq t obj size st :
  MemoryPool_deallocate page_size t obj size st = thread_deallocate page_size t obj size st.
Proof.
  unfold MemoryPool_deallocate, thread_deallocate, get_index. destruct (get_size (kNumClasses - 1) <? size); done.
Qed.

(** Blocks of the pool: not null, aligned, inside memory the system gave out. *)
Lemma rel_block held st x c :
  pool_rel held st -> held !! x = Some c ->
  (c < kNumClasses)%nat /\ 0 < x /\ ((8 | page_size) -> (8 | x)) /\
  forall a, x <= a < x + get_size c -> exists k n q, mmap k n = Some q /\ q * page_size <= a < (q + n) * page_size.
Proof using page_size_pos.
  intros (own & Hok & Hcl) Hx%Hcl. pose proof (pk_central _ _ Hok) as Hce.
  destruct (co_own _ _ _ _ _ _ Hce _ _ _ Hx) as (id & s & Hid & Hs & Hb).
  destruct (co_span _ _ _ _ _ _ Hce c id Hid) as (? & ? & Hcut & _). simplify_eq.
  destruct (co_pages _ _ _ _ _ _ Hce) as (used & Hpg & _). pose proof Hcut as (Ec & Hc & _).
  split_and!; [done|by eapply block_pos| |].
  - intros H8. destruct Hb as (i & _ & ->). rewrite Ec. destruct (get_size_bounds c Hc) as [_ H8'].
    apply Z.divide_add_r; by apply Z.divide_mul_r.
  - intros a Ha. destruct (block_range page_size page_size_pos c s x Hcut Hb) as [H1 H2].
    destruct (po_source _ _ _ Hpg id s (a / page_size) Hs) as (_ & k & n & q & _ & Hq & Hpq).
    { unfold has_page. split; [apply Z.div_le_lower_bound|apply Z.div_lt_upper_bound]; lia. }
    exists k, n, q. split; [done|]. pose proof (Z.div_mod a page_size ltac:(lia)).
    pose proof (Z.mod_pos_bound a page_size page_size_pos). nia.
Qed.

Lemma rel_apart held st x y c d :
  pool_rel held st -> held !! x = Some c -> held !! y = Some d -> x <> y -> x + get_size c <= y \/ y + get_size d <= x.
Proof using page_size_pos.
  intros (own & Hok & Hcl) Hx%Hcl Hy%Hcl Hne. pose proof (pk_central _ _ Hok) as Hce.
  destruct (co_own _ _ _ _ _ _ Hce _ _ _ Hx) as (i & s & Hi & Hs & Hb).
  destruct (co_own _ _ _ _ _ _ Hce _ _ _ Hy) as (j & t & Hj & Ht & Hb').
  destruct (decide (x + get_size c <= y)) as [|H1]; [by left|].
  destruct (decide (y + get_size d <= x)) as [|H2]; [by right|]. exfalso. apply Hne.
  eapply (blocks_apart page_size mmap page_size_pos extra None own st c d i j s t x y); try done; lia.
Qed.

(** With every block back, no span is cut. *)
Lemma idle_spans own st c : pool_ok own st -> (forall x, own !! x = None) -> span_list c st = [].
Proof using page_size_pos.
  intros Hok Hown. pose proof (pk_central _ _ Hok) as Hce.
  destruct (span_list c st) as [|id l] eqn:El; [done|]. exfalso. assert (id ∈ span_list c st) as Hid by (rewrite El; left).
  destruct (co_span _ _ _ _ _ _ Hce c id Hid) as (s & Hs & Hcut & Hh).
  pose proof (co_part _ _ _ _ _ _ Hce c id s Hid Hs ltac:(done)) as Hlt.
  destruct (get_size_bounds c) as [? _]; [apply Hcut|].
  apply (holds_least _ _ _ (page_id_ s * page_size) (get_size (size_class_ s)) (total_objects_ s)) in Hh;
    [lia|destruct Hcut as (-> & _); lia|]. intros x Hx. by split.
Qed.
End caches.
Lemma new_pool_ok : pool_ok ∅ ∅ new_pool.
Proof.
  split.
  - split; cbn.
    + exists ∅. split; [apply new_page_cache_ok|]. intros id. split; [done|]. intros [?|[c Hc]]; [done|].
      unfold span_list in Hc. cbn in Hc. rewrite lookup_empty in Hc. by apply not_elem_of_nil in Hc.
    + done.
    + intros c. unfold span_list. cbn. rewrite lookup_empty. constructor.
    + intros c id Hc. unfold span_list in Hc. cbn in Hc. rewrite lookup_empty in Hc. by apply not_elem_of_nil in Hc.
    + intros c id s Hc. unfold span_list in Hc. cbn in Hc. rewrite lookup_empty in Hc. by apply not_elem_of_nil in Hc.
    + done.
  - intros t c. unfold free_list. cbn. rewrite lookup_empty. cbn. eapply holds_iff, holds_nil.
    intros x. by rewrite lookup_empty.
Qed.


End pool.
End PoolProps.
