(* ===== verification/PoolThreads.v ===== *)
(** * Threads in the memory pool: what holds at every point of every interleaving

    [Pool.pool_step] interleaves the steps of threads inside the pool, with the locks of
    the size classes. Here is their invariant, who owns every block and every span at each
    point, and what clients get from it. *)

From S2P Require Import Prelude Base Monitor Pool PageCacheProps CentralCacheProps PoolProps.
From stdpp Require Import options.

Module PoolThreads.
Import Pool PageCacheProps CentralCacheProps PoolProps.

(** The span that a thread has to itself, the lock it holds, and the blocks that it moves
    between its cache and the central one, with their class. *)
Definition floats (p : point) : option nat :=
  match p with Calling _ _ (Cutting id) | Calling _ _ (Freeing id) => Some id | _ => None end.

Definition locked (p : point) : option nat :=
  match p with Calling _ _ Outside => None | Calling c _ _ => Some c | _ => None end.

Definition hand (p : point) : list Z :=
  match p with
  | Calling _ (Fetch _ objs) _ | Filling _ objs => objs
  | Calling _ (Give _ objs _ _) (Freeing _) => objs
  | Calling _ (Give obj objs _ _) _ => obj :: objs
  | _ => []
  end.

Definition class_of (p : point) : nat :=
  match p with Calling c _ _ | Filling c _ | Returning c _ _ => c | Leaving _ => 0%nat end.

Lemma fetched_facts c calls objs obj :
  let p := fetched c calls objs obj in
  floats p = None /\ locked p = None /\ class_of p = c /\ hand p = if obj =? 0 then objs else objs ++ [obj].
Proof. unfold fetched. destruct (obj =? 0); [done|]. by destruct calls as [|[|calls]]. Qed.

Lemma given_facts c objs target rest :
  let p := given c objs target rest in
  floats p = None /\ locked p = None /\ class_of p = c /\ hand p = objs.
Proof. unfold given. by destruct objs. Qed.

(** [own'] gives the blocks that [t] moves, the others are where they were. *)
Definition moves (t c : nat) (objs : list Z) (own own' : gmap Z (nat * place)) : Prop :=
  (forall x d pl, pl <> Moving t -> own' !! x = Some (d, pl) <-> own !! x = Some (d, pl)) /\
  forall x d, own' !! x = Some (d, Moving t) <-> x ∈ objs /\ d = c.

Lemma moves_take own t c objs obj :
  moves t c objs own own -> own !! obj = None -> moves t c (objs ++ [obj]) own (<[obj := (c, Moving t)]> own).
Proof.
  intros [_ H] Hobj. split.
  - intros x d pl Hpl. destruct (decide (x = obj)) as [->|]; [|by rewrite lookup_insert_ne].
    rewrite lookup_insert_eq, Hobj. naive_solver.
  - intros x d. rewrite elem_of_app, list_elem_of_singleton.
    destruct (decide (x = obj)) as [->|]; [rewrite lookup_insert_eq; naive_solver|].
    rewrite lookup_insert_ne, H by done. naive_solver.
Qed.

Lemma moves_put own t c objs obj :
  moves t c (obj :: objs) own own -> NoDup (obj :: objs) -> moves t c objs own (delete obj own).
Proof.
  intros [_ H] [Hn _]%NoDup_cons.
  assert (own !! obj = Some (c, Moving t)) as Hobj by (apply H; split; [left|done]). split.
  - intros x d pl Hpl. destruct (decide (x = obj)) as [->|]; [|by rewrite lookup_delete_ne].
    rewrite lookup_delete_eq, Hobj. naive_solver.
  - intros x d. destruct (decide (x = obj)) as [->|]; [rewrite lookup_delete_eq; naive_solver|].
    rewrite lookup_delete_ne, H, elem_of_cons by done. naive_solver.
Qed.

Lemma cut_span_lists page_size c id st st' : cut_span page_size c id st = Some st' -> forall d, span_list d st' = span_list d st.
Proof.
  unfold cut_span. cbv zeta. destruct (carve _ _ _ _ _ _ _ _) as [[[h n] m]|]; cbn [mbind option_bind]; [|done].
  by intros [= <-] d.
Qed.

Section threads.
Context (page_size : Z) (mmap : nat -> Z -> option Z).

(** In the destructor: of the class at hand just the target is left, and the classes that
    were before it are empty. *)
Definition drained (t c target : nat) (rest : option (list nat)) (st : Pool) : Prop :=
  match rest with
  | None => True
  | Some cs => fl_size_ (free_list t c st) = Z.of_nat target /\ Forall (fun d => d < kNumClasses)%nat cs /\
      forall d, d <> c -> d ∉ cs -> (d < kNumClasses)%nat -> fl_size_ (free_list t d st) = 0
  end.

(** What a thread relies on while it holds the lock of class [c]. *)
Definition phase_ok (c : nat) (w : errand) (ph : phase) (st : Pool) : Prop :=
  match ph, w with
  | Outside, _ | Inside, _ | Asking, Fetch _ _ | Freeing _, Give _ _ _ _ => True
  | Taking id, Fetch _ _ =>
      id ∈ span_list c st /\ exists s, spans (page_cache st) !! id = Some s /\ 0 < free_count_ s
  | Cutting id, Fetch _ _ =>
      exists s, spans (page_cache st) !! id = Some s /\ num_pages_ s = span_pages page_size c
  | Putting id, Give obj _ _ _ =>
      id ∈ span_list c st /\ exists s, spans (page_cache st) !! id = Some s /\ is_block page_size s obj
  | _, _ => False
  end.

Definition point_ok (t : nat) (p : point) (st : Pool) : Prop :=
  match p with
  | Calling c w ph => (c < kNumClasses)%nat /\ phase_ok c w ph st /\
      match w with Fetch _ _ => True | Give _ _ target rest => drained t c target rest st end
  | Filling c objs => (c < kNumClasses)%nat /\ (objs = [] -> refused page_size mmap c)
  | Returning c target rest => (c < kNumClasses)%nat /\ drained t c target rest st
  | Leaving cs => Forall (fun d => d < kNumClasses)%nat cs /\
      forall d, d ∉ cs -> (d < kNumClasses)%nat -> fl_size_ (free_list t d st) = 0
  end.

(** [own] says where every block is that has left its span, [extra] which spans threads
    have to themselves. *)
Record sys_ok (own : gmap Z (nat * place)) (extra : gset nat) (s : Sys) : Prop := {
  so_pool : pool_ok page_size mmap extra own (pool s);
  so_held : forall x c, held s !! x = Some c <-> own !! x = Some (c, Client);
  so_hand : forall t x c, own !! x = Some (c, Moving t) <->
    exists p, inside s !! t = Some p /\ x ∈ hand p /\ class_of p = c;
  so_nodup : forall t p, inside s !! t = Some p -> NoDup (hand p);
  so_lock : forall c t, locks_ s !! c = Some t <-> exists p, inside s !! t = Some p /\ locked p = Some c;
  so_extra : forall id, id ∈ extra <-> exists t p, inside s !! t = Some p /\ floats p = Some id;
  so_float : forall t u p q id, inside s !! t = Some p -> inside s !! u = Some q ->
    floats p = Some id -> floats q = Some id -> t = u;
  so_point : forall t p, inside s !! t = Some p -> point_ok t p (pool s)
}.

Lemma new_sys_ok : sys_ok ∅ ∅ new_sys.
Proof.
  split; try done.
  - apply new_pool_ok.
  - intros t x c. split; [done|]. by intros (p & Hp & _).
  - intros c t. split; [done|]. by intros (p & Hp & _).
  - intros id. split; [done|]. by intros (t & p & Hp & _).
Qed.

(** ** Thread [t] goes from [p1] to [p2] *)

Lemma go_ok own own' extra extra' s t p1 p2 st' lk hd :
  sys_ok own extra s -> inside s !! t = p1 ->
  pool_ok page_size mmap extra' own' st' ->
  (forall x c, hd !! x = Some c <-> own' !! x = Some (c, Client)) ->
  (forall u x c, u <> t -> own' !! x = Some (c, Moving u) <-> own !! x = Some (c, Moving u)) ->
  (forall x c, own' !! x = Some (c, Moving t) <-> exists p, p2 = Some p /\ x ∈ hand p /\ class_of p = c) ->
  (forall p, p2 = Some p -> NoDup (hand p) /\ point_ok t p st') ->
  (forall d u, lk !! d = Some u <->
     (u <> t /\ locks_ s !! d = Some u) \/ (u = t /\ (p2 ≫= locked) = Some d)) ->
  (forall id, id ∈ extra' <-> (p2 ≫= floats) = Some id \/ (id ∈ extra /\ (p1 ≫= floats) <> Some id)) ->
  (forall id, (p2 ≫= floats) = Some id -> (p1 ≫= floats) = Some id \/ id ∉ extra) ->
  (forall u q, u <> t -> inside s !! u = Some q -> point_ok u q st') ->
  sys_ok own' extra' (mkSys st' lk (partial_alter (fun _ => p2) t (inside s)) hd).
Proof.
  intros Hs Hp1 Hpool Hhd Hmo Hmt Hpt Hlk Hex Hfl Hoth. set (ins := partial_alter _ _ _).
  assert (ins !! t = p2) as Ht by apply lookup_partial_alter_eq.
  assert (forall u, u <> t -> ins !! u = inside s !! u) as Hu by (intros u Hne; apply lookup_partial_alter_ne; congruence).
  split; cbn [pool held inside locks_]; try done.
  - intros u x c. destruct (decide (u = t)) as [->|Hne]; [rewrite Ht; apply Hmt|].
    rewrite Hmo, Hu by done. apply (so_hand _ _ _ Hs).
  - intros u p. destruct (decide (u = t)) as [->|Hne]; [rewrite Ht; intros E; by apply Hpt|].
    rewrite Hu by done. apply (so_nodup _ _ _ Hs).
  - intros c u. rewrite Hlk. destruct (decide (u = t)) as [->|Hne].
    + rewrite Ht. destruct p2 as [p|]; cbn; naive_solver.
    + rewrite Hu, (so_lock _ _ _ Hs c u) by done. naive_solver.
  - intros id. rewrite Hex, (so_extra _ _ _ Hs id). split.
    + intros [E|[(u & q & Hq & Hf) Hno]].
      * destruct p2 as [p|]; [|done]. exists t, p. by rewrite Ht.
      * exists u, q. rewrite Hu; [done|]. intros ->. rewrite <-Hp1, Hq in Hno. done.
    + intros (u & q & Hq & Hf). destruct (decide (u = t)) as [->|Hne].
      * left. rewrite Ht in Hq. by rewrite Hq.
      * right. rewrite Hu in Hq by done. split; [by exists u, q|]. destruct p1 as [p|]; [|done]. cbn. intros E.
        by destruct Hne, (so_float _ _ _ Hs u t q p id).
  - intros a b p q id. destruct (decide (a = t)) as [->|Ha], (decide (b = t)) as [->|Hb]; rewrite ?Ht, ?(Hu a), ?(Hu b) by done;
      intros Hp Hq Fp Fq; [done|..].
    + destruct (Hfl id) as [E|E]; [by rewrite Hp|..].
      * destruct p1 as [p0|]; [|done]. by destruct Hb, (so_float _ _ _ Hs b t q p0 id).
      * destruct E. apply (so_extra _ _ _ Hs). by exists b, q.
    + destruct (Hfl id) as [E|E]; [by rewrite Hq|..].
      * destruct p1 as [p0|]; [|done]. by destruct Ha, (so_float _ _ _ Hs a t p p0 id).
      * destruct E. apply (so_extra _ _ _ Hs). by exists a, p.
    + by apply (so_float _ _ _ Hs a b p q id).
  - intros u p. destruct (decide (u = t)) as [->|Hne]; [rewrite Ht; intros E; by apply Hpt|].
    rewrite Hu by done. by apply Hoth.
Qed.

(** ** What the other threads rely on *)

Lemma drained_frame t c target rest st st' :
  (forall d, free_list t d st' = free_list t d st) -> drained t c target rest st -> drained t c target rest st'.
Proof. intros Hf. unfold drained. destruct rest; [|done]. rewrite Hf. by setoid_rewrite Hf. Qed.

Lemma point_frame t p st st' :
  (forall d, free_list t d st' = free_list t d st) ->
  (forall c w ph, p = Calling c w ph -> phase_ok c w ph st -> phase_ok c w ph st') ->
  point_ok t p st -> point_ok t p st'.
Proof.
  intros Hf Hph. destruct p as [c w ph|c objs|c target rest|cs]; cbn [point_ok].
  - intros (Hc & H & Hw). split; [done|]. split; [by apply Hph|]. destruct w; [done|]. by eapply drained_frame.
  - done.
  - intros [Hc H]. split; [done|]. by eapply drained_frame.
  - intros [H1 H2]. split; [done|]. intros d Hd Hk. rewrite Hf. by apply H2.
Qed.

(** A step of [t] on its own cache. *)
Lemma others_local own extra s t st' :
  sys_ok own extra s -> page_cache st' = page_cache (pool s) -> span_lists_ st' = span_lists_ (pool s) ->
  (forall u d, u <> t -> free_list u d st' = free_list u d (pool s)) ->
  forall u q, u <> t -> inside s !! u = Some q -> point_ok u q st'.
Proof.
  intros Hs Hp Hl Hf u q Hne Hq. apply (point_frame u q (pool s)); [by intros d; apply Hf| |by apply (so_point _ _ _ Hs)].
  intros c w ph _. assert (forall d, span_list d st' = span_list d (pool s)) as Hsl by (intros d; unfold span_list; by rewrite Hl).
  destruct ph, w; cbn; rewrite ?Hp, ?Hsl; done.
Qed.

(** A step of [t] with the lock of class [c], on span [id]. *)
Lemma others_central own extra s t p c id st' :
  0 < page_size -> sys_ok own extra s -> inside s !! t = Some p -> locked p = Some c -> apart extra c id (pool s) st' ->
  id ∈ span_list c (pool s) \/ floats p = Some id \/ ((id ∉ extra) /\ forall d, id ∉ span_list d (pool s)) ->
  forall u q, u <> t -> inside s !! u = Some q -> point_ok u q st'.
Proof.
  intros Hps Hs Hp Hc [Ac Al As] Hid u q Hne Hq. pose proof (pk_central _ _ _ _ _ (so_pool _ _ _ Hs)) as Hce.
  apply (point_frame u q (pool s)); [intros d; unfold free_list; by rewrite Ac| |by apply (so_point _ _ _ Hs)].
  assert (forall d, locked q = Some d -> d <> c /\ forall i, i ∈ span_list d (pool s) -> i <> id) as Hlock.
  { intros d Hd. assert (d <> c) as Hdc.
    { intros ->. assert (locks_ s !! c = Some u) as H1 by (apply (so_lock _ _ _ Hs); by exists q).
      assert (locks_ s !! c = Some t) as H2 by (apply (so_lock _ _ _ Hs); by exists p). congruence. }
    split; [done|]. intros i Hi ->. destruct Hid as [Hid|[Hid|[_ Hid]]]; [| |by destruct (Hid d)].
    - by destruct Hdc, (in_class page_size mmap Hps _ _ _ _ c d id Hce).
    - apply (co_extra _ _ _ _ _ _ Hce id d); [|done]. apply (so_extra _ _ _ Hs). by exists t, p. }
  assert (forall i, floats q = Some i -> i ∈ extra /\ i <> id) as Hfl.
  { intros i Hi. assert (i ∈ extra) as Hex by (apply (so_extra _ _ _ Hs); by exists u, q). split; [done|]. intros ->.
    destruct Hid as [Hid|[Hid|[Hid _]]]; [by apply (co_extra _ _ _ _ _ _ Hce id c)| |done].
    by destruct Hne, (so_float _ _ _ Hs u t q p id). }
  intros d w ph ->. destruct ph as [| |i| |i|i|i], w; cbn; try done.
  - destruct (Hlock d eq_refl) as [Hdc Hin]. rewrite Al by done. intros (Hi & s0 & Hs0 & Hn). split; [done|].
    exists s0. split; [|done]. apply As; [by apply Hin|right; by exists d|done].
  - destruct (Hfl i eq_refl) as [Hex Hni]. intros (s0 & Hs0 & Hn). exists s0. split; [|done]. apply As; [done|by left|done].
  - destruct (Hlock d eq_refl) as [Hdc Hin]. rewrite Al by done. intros (Hi & s0 & Hs0 & Hn). split; [done|].
    exists s0. split; [|done]. apply As; [by apply Hin|right; by exists d|done].
Qed.

(** ** Steps outside the locks and steps under one *)

Lemma own_hand own extra s t p :
  sys_ok own extra s -> inside s !! t = Some p ->
  moves t (class_of p) (hand p) own own.
Proof.
  intros Hs Hp. split; [done|]. intros x d. rewrite (so_hand _ _ _ Hs). split.
  - intros (q & Hq & Hx & <-). by simplify_eq.
  - intros [Hx ->]. by exists p.
Qed.

Lemma own_lock own extra s t p d : sys_ok own extra s -> inside s !! t = Some p -> locks_ s !! d = Some t <-> locked p = Some d.
Proof.
  intros Hs Hp. rewrite (so_lock _ _ _ Hs). split; [intros (q & Hq & E); by simplify_eq|]. intros E. by exists p.
Qed.

(** A step of [t] with the lock of class [c]; it keeps the lock or releases it. *)
Lemma central_go own own' extra extra' s t c w ph p2 id st' :
  0 < page_size -> sys_ok own extra s -> inside s !! t = Some (Calling c w ph) -> ph <> Outside ->
  central_ok page_size mmap extra' None own' st' -> apart extra c id (pool s) st' ->
  id ∈ span_list c (pool s) \/ floats (Calling c w ph) = Some id \/ ((id ∉ extra) /\ forall d, id ∉ span_list d (pool s)) ->
  (forall x d u, own !! x = Some (d, Cached u) -> mem st' !! x = mem (pool s) !! x) ->
  moves t c (hand p2) own own' -> class_of p2 = c -> NoDup (hand p2) -> point_ok t p2 st' ->
  (forall i, i ∈ extra' <-> floats p2 = Some i \/ (i ∈ extra /\ floats (Calling c w ph) <> Some i)) ->
  (forall i, floats p2 = Some i -> floats (Calling c w ph) = Some i \/ i ∉ extra) ->
  forall lk, (forall d u, lk !! d = Some u <-> (u <> t /\ locks_ s !! d = Some u) \/ (u = t /\ locked p2 = Some d)) ->
  sys_ok own' extra' (mkSys st' lk (partial_alter (fun _ => Some p2) t (inside s)) (held s)).
Proof.
  intros Hps Hs Hp Hph Hce Ha Hid Hm [Hmv Hmt] Hcl Hnd Hpt Hex Hfl lk Hlk.
  assert (locked (Calling c w ph) = Some c) as Hlo by (by destruct ph).
  apply (go_ok own own' extra extra' s t (Some (Calling c w ph)) (Some p2)); try done.
  - split; [done|]. intros u d. unfold free_list. rewrite (ap_caches _ _ _ _ _ Ha).
    change (default _ _) with (free_list u d (pool s)).
    eapply holds_iff, holds_frame, (pk_cache _ _ _ _ _ (so_pool _ _ _ Hs) u d).
    + intros x. cbn. by rewrite Hmv.
    + intros x Hx. exact (Hm x d u Hx).
  - intros x d. rewrite (so_held _ _ _ Hs), Hmv; done.
  - intros u x d Hu. apply Hmv. congruence.
  - intros x d. rewrite Hmt. split; [intros [? ->]; by exists p2|]. by intros (? & [= <-] & ? & <-).
  - by intros ? [= <-].
  - by eapply others_central.
Qed.

Lemma keep_lock own extra s t p p2 c :
  sys_ok own extra s -> inside s !! t = Some p -> locked p = Some c -> locked p2 = Some c ->
  forall d u, locks_ s !! d = Some u <-> (u <> t /\ locks_ s !! d = Some u) \/ (u = t /\ locked p2 = Some d).
Proof.
  intros Hs Hp Hc E d u. rewrite E. destruct (decide (u = t)) as [->|]; [|tauto].
  rewrite (own_lock own extra s t p d Hs Hp), Hc. tauto.
Qed.

Lemma release_lock own extra s t p p2 c :
  sys_ok own extra s -> inside s !! t = Some p -> locked p = Some c -> locked p2 = None ->
  forall d u, delete c (locks_ s) !! d = Some u <-> (u <> t /\ locks_ s !! d = Some u) \/ (u = t /\ locked p2 = Some d).
Proof.
  intros Hs Hp Hc E d u. pose proof (own_lock own extra s t p d Hs Hp) as H.
  pose proof (proj2 (own_lock own extra s t p c Hs Hp) Hc) as Hl. rewrite lookup_delete_Some, E. split.
  - intros [Hne Hd]. left. split; [|done]. intros ->. rewrite H in Hd. congruence.
  - intros [[Hne Hd]|[_ ?]]; [|done]. split; [|done]. congruence.
Qed.

(** A step of [t] that has no lock, before and after, on its own cache. *)
Lemma local_go own own' extra s t p1 p2 st' hd :
  sys_ok own extra s -> inside s !! t = p1 -> (p1 ≫= locked) = None -> (p1 ≫= floats) = None ->
  (p2 ≫= locked) = None -> (p2 ≫= floats) = None ->
  pool_ok page_size mmap extra own' st' -> page_cache st' = page_cache (pool s) -> span_lists_ st' = span_lists_ (pool s) ->
  (forall u d, u <> t -> free_list u d st' = free_list u d (pool s)) ->
  (forall x c, hd !! x = Some c <-> own' !! x = Some (c, Client)) ->
  (forall u x c, u <> t -> own' !! x = Some (c, Moving u) <-> own !! x = Some (c, Moving u)) ->
  (forall x c, own' !! x = Some (c, Moving t) <-> exists p, p2 = Some p /\ x ∈ hand p /\ class_of p = c) ->
  (forall p, p2 = Some p -> NoDup (hand p) /\ point_ok t p st') ->
  sys_ok own' extra (mkSys st' (locks_ s) (partial_alter (fun _ => p2) t (inside s)) hd).
Proof.
  intros Hs Hp1 L1 F1 L2 F2 Hpool Hpc Hsl Hfl Hhd Hmo Hmt Hpt.
  apply (go_ok own own' extra extra s t p1 p2); try done.
  - intros d u. rewrite L2. split.
    + intros Hd. left. split; [|done]. intros ->. apply (so_lock _ _ _ Hs) in Hd as (p & Hp & E).
      rewrite <-Hp1, Hp in L1. cbn in L1. congruence.
    + by intros [[_ ?]|[_ ?]].
  - intros id. rewrite F1, F2. naive_solver.
  - intros id. by rewrite F2.
  - by eapply others_local.
Qed.

(** ** The steps of a call of the central cache *)

Hypothesis page_size_pos : 0 < page_size.
Hypothesis mmap_fresh : forall k1 n1 q1 k2 n2 q2 pg,
  mmap k1 n1 = Some q1 -> mmap k2 n2 = Some q2 -> q1 <= pg < q1 + n1 -> q2 <= pg < q2 + n2 -> k1 = k2.
Hypothesis mmap_positive : forall k n q, mmap k n = Some q -> 0 < q.

Definition safe (s : Sys) : Prop := exists own extra, sys_ok own extra s.

Lemma unused_id own extra st :
  central_ok page_size mmap extra None own st -> exists id : nat, (id ∉ extra) /\ forall d, id ∉ span_list d st.
Proof using.
  intros Hce. destruct (co_pages _ _ _ _ _ _ Hce) as (used & _ & Hu). exists (fresh used).
  pose proof (is_fresh used) as Hf. rewrite Hu in Hf. split; [tauto|]. intros d Hd. apply Hf. eauto.
Qed.

Lemma fetched_point t c calls objs obj st :
  (c < kNumClasses)%nat -> (obj = 0 -> objs = [] -> refused page_size mmap c) -> point_ok t (fetched c calls objs obj) st.
Proof using.
  intros Hc Hno. unfold fetched. destruct (Z.eqb_spec obj 0); [by split; auto|].
  assert (objs ++ [obj] <> []) by (by destruct objs). destruct calls as [|[|calls]]; cbn; by split_and!.
Qed.

Lemma given_point t c objs target rest st :
  (c < kNumClasses)%nat -> drained t c target rest st -> point_ok t (given c objs target rest) st.
Proof using. intros Hc Hd. unfold given. destruct objs; cbn; by split_and!. Qed.

(** Nothing changes but the point of [t]: the searches. *)
Lemma look_go own extra s t c w ph p2 :
  sys_ok own extra s -> inside s !! t = Some (Calling c w ph) -> ph <> Outside ->
  floats (Calling c w ph) = None -> floats p2 = None -> hand p2 = hand (Calling c w ph) -> class_of p2 = c ->
  point_ok t p2 (pool s) ->
  forall lk, (forall d u, lk !! d = Some u <-> (u <> t /\ locks_ s !! d = Some u) \/ (u = t /\ locked p2 = Some d)) ->
  sys_ok own extra (mkSys (pool s) lk (partial_alter (fun _ => Some p2) t (inside s)) (held s)).
Proof using page_size_pos.
  intros Hs Hp Hph F1 F2 Hh Hcl Hpt lk Hlk. pose proof (pk_central _ _ _ _ _ (so_pool _ _ _ Hs)) as Hce.
  destruct (unused_id own extra (pool s) Hce) as (id & Hid).
  apply (central_go own own extra extra s t c w ph p2 id); try done.
  - by right; right.
  - rewrite Hh. apply (own_hand own extra s t _ Hs Hp).
  - rewrite Hh. by apply (so_nodup _ _ _ Hs t).
  - intros i. rewrite F1, F2. naive_solver.
  - intros i. by rewrite F2.
Qed.

Lemma acquire_ok own extra s t c w :
  sys_ok own extra s -> inside s !! t = Some (Calling c w Outside) -> locks_ s !! c = None ->
  safe (lock c t (go t (Some (Calling c w Inside)) (pool s) s)).
Proof using page_size_pos.
  intros Hs Hp Hl. exists own, extra. destruct (own_hand own extra s t _ Hs Hp) as [_ Hmt].
  destruct (so_point _ _ _ Hs t _ Hp) as (Hc & _ & Hw).
  apply (go_ok own own extra extra s t (Some (Calling c w Outside)) (Some (Calling c w Inside))); try done.
  - apply (so_pool _ _ _ Hs).
  - apply (so_held _ _ _ Hs).
  - intros x d. rewrite Hmt. split; [intros [? ->]; eexists; split; [done|]; by destruct w|].
    intros (? & [= <-] & ? & <-). by destruct w.
  - intros ? [= <-]. split; [|by destruct w]. pose proof (so_nodup _ _ _ Hs t _ Hp). by destruct w.
  - intros d u. cbn. rewrite lookup_insert_Some. pose proof (own_lock own extra s t _ d Hs Hp) as H. cbn in H.
    split.
    + intros [[<- <-]|[Hne Hd]]; [by right|]. left. split; [|done]. intros ->. naive_solver.
    + intros [[Hne Hd]|[-> [= <-]]]; [|by left]. right. split; [congruence|done].
  - intros id. cbn. naive_solver.
  - intros u q _. apply (so_point _ _ _ Hs).
Qed.

Lemma search_fetch_ok own extra s t c calls objs :
  sys_ok own extra s -> inside s !! t = Some (Calling c (Fetch calls objs) Inside) ->
  safe (go t (Some (Calling c (Fetch calls objs) (match find_free c (pool s) with Some id => Taking id | None => Asking end)))
          (pool s) s).
Proof using page_size_pos.
  intros Hs Hp. exists own, extra. destruct (so_point _ _ _ Hs t _ Hp) as (Hc & _).
  pose proof (pk_central _ _ _ _ _ (so_pool _ _ _ Hs)) as Hce.
  eapply look_go; try done; destruct (find_free c (pool s)) as [id|] eqn:E; try done.
  - cbn. split; [done|]. split; [|done]. by eapply find_free_ok.
  - by eapply keep_lock.
  - by eapply keep_lock.
Qed.

Lemma search_give_ok own extra s t c obj objs target rest :
  sys_ok own extra s -> inside s !! t = Some (Calling c (Give obj objs target rest) Inside) ->
  exists id, find_span page_size obj c (pool s) = Some id /\
    safe (go t (Some (Calling c (Give obj objs target rest) (Putting id))) (pool s) s).
Proof using page_size_pos.
  intros Hs Hp. destruct (so_point _ _ _ Hs t _ Hp) as (Hc & _ & Hd).
  pose proof (pk_central _ _ _ _ _ (so_pool _ _ _ Hs)) as Hce.
  assert (own !! obj = Some (c, Moving t)) as Hobj.
  { apply (so_hand _ _ _ Hs). eexists. split; [exact Hp|]. split; [left|done]. }
  destruct (find_span_ok page_size mmap page_size_pos extra None own _ obj c _ Hce Hobj) as (id & sp & -> & Hid & Hsp & Hb).
  exists id. split; [done|]. exists own, extra. eapply look_go; try done.
  - cbn. split; [done|]. split; [|done]. split; [done|]. by exists sp.
  - by eapply keep_lock.
Qed.

(** An object is taken and the lock released: after a search, or after a cut. *)
Lemma take_go own extra extra' s t c calls objs ph id st1 obj st2 :
  sys_ok own extra s -> inside s !! t = Some (Calling c (Fetch calls objs) ph) -> ph <> Outside ->
  central_ok page_size mmap extra' None (<[obj := (c, Moving t)]> own) st2 -> obj <> 0 -> own !! obj = None ->
  apart extra c id (pool s) st1 -> take_object id st1 = (obj, st2) ->
  (forall i, i <> id -> i ∈ extra \/ (exists d, i ∈ span_list d (pool s)) -> i ∈ extra' \/ exists d, i ∈ span_list d st1) ->
  id ∈ span_list c (pool s) \/ floats (Calling c (Fetch calls objs) ph) = Some id ->
  (forall x, is_Some (own !! x) -> mem st1 !! x = mem (pool s) !! x) ->
  (forall i, i ∈ extra' <-> i ∈ extra /\ floats (Calling c (Fetch calls objs) ph) <> Some i) ->
  safe (unlock c (go t (Some (fetched c calls objs obj)) st2 s)).
Proof using page_size_pos.
  intros Hs Hp Hph Hce Hz Hobj Ha1 Htk Hin Hid Hm Hex. exists (<[obj := (c, Moving t)]> own), extra'.
  destruct (so_point _ _ _ Hs t _ Hp) as (Hc & _).
  destruct (fetched_facts c calls objs obj) as (Ff & Fl & Fc & Fh). rewrite (proj2 (Z.eqb_neq obj 0) Hz) in Fh.
  pose proof (own_hand own extra s t _ Hs Hp) as Hmv. pose proof (so_nodup _ _ _ Hs t _ Hp) as Hnd. cbn in Hmv, Hnd.
  assert (mem st2 = mem st1) as Hm2 by (unfold take_object in Htk; injection Htk as _ <-; done).
  apply (central_go own _ extra extra' s t c (Fetch calls objs) ph (fetched c calls objs obj) id st2); try done.
  - eapply apart_trans; [exact Ha1|by eapply take_object_apart|exact Hin].
  - tauto.
  - intros x d u Hx. rewrite Hm2. apply Hm. by eexists.
  - rewrite Fh. by apply moves_take.
  - rewrite Fh. apply NoDup_app. split_and!; [done| |apply NoDup_singleton].
    intros x Hx ->%list_elem_of_singleton. destruct Hmv as [_ Hmt]. assert (own !! obj = Some (c, Moving t)) by (by apply Hmt).
    congruence.
  - by apply fetched_point.
  - intros i. rewrite Ff, Hex. naive_solver.
  - by rewrite Ff.
  - cbn. eapply release_lock; [done|done|by destruct ph|done].
Qed.

Lemma taking_ok own extra s t c calls objs id :
  sys_ok own extra s -> inside s !! t = Some (Calling c (Fetch calls objs) (Taking id)) ->
  exists obj st, take_object id (pool s) = (obj, st) /\ safe (unlock c (go t (Some (fetched c calls objs obj)) st s)).
Proof using page_size_pos.
  intros Hs Hp. destruct (so_point _ _ _ Hs t _ Hp) as (Hc & (Hid & sp & Hsp & Hn) & _).
  pose proof (pk_central _ _ _ _ _ (so_pool _ _ _ Hs)) as Hce.
  destruct (take_object_ok page_size mmap page_size_pos extra None own (pool s) c id sp Hce Hid Hsp Hn ltac:(done))
    as (obj & st' & Htk & Hz & Hobj & Hm & Ht & Hce').
  exists obj, st'. split; [done|].
  apply (take_go own extra extra s t c calls objs (Taking id) id (pool s) obj st'); try done; [by left|]. cbn. intros i. naive_solver.
Qed.

Lemma cutting_ok own extra s t c calls objs id :
  sys_ok own extra s -> inside s !! t = Some (Calling c (Fetch calls objs) (Cutting id)) ->
  exists st1 obj st, cut_span page_size c id (pool s) = Some st1 /\ take_object id (push_span c id st1) = (obj, st) /\
    safe (unlock c (go t (Some (fetched c calls objs obj)) st s)).
Proof using page_size_pos mmap_fresh mmap_positive.
  intros Hs Hp. destruct (so_point _ _ _ Hs t _ Hp) as (Hc & (sp & Hsp & Hn) & _).
  pose proof (pk_central _ _ _ _ _ (so_pool _ _ _ Hs)) as Hce.
  assert (id ∈ extra) as Hid by (apply (so_extra _ _ _ Hs); by eexists _, _).
  destruct (cut_span_ok page_size mmap page_size_pos extra own (pool s) c id sp Hce Hid Hsp Hn Hc)
    as (st1 & Hcut & Hce1 & (sp1 & Hsp1 & Hn1) & Hm1 & Ha1).
  assert (span_list c (push_span c id st1) = id :: span_list c st1) as Hl
    by (unfold push_span; rewrite span_list_with, decide_True; done).
  destruct (take_object_ok page_size mmap page_size_pos _ (Some id) own _ c id sp1 Hce1 ltac:(rewrite Hl; left) Hsp1 Hn1 ltac:(done))
    as (obj & st' & Htk & Hz & Hobj & Hm & Ht & Hce').
  exists st1, obj, st'. split; [done|]. split; [done|].
  apply (take_go own extra (extra ∖ {[id]}) s t c calls objs (Cutting id) id (push_span c id st1) obj st'); try done; [|by right|set_solver].
  intros i Hne [Hi|[d Hd]]; [left; set_solver|right]. exists d. destruct (decide (d = c)) as [->|Hd'].
  - rewrite Hl. right. by rewrite (cut_span_lists _ _ _ _ _ Hcut).
  - by rewrite (ap_lists _ _ _ _ _ Ha1).
Qed.

Lemma asking_ok own extra s t c calls objs :
  sys_ok own extra s -> inside s !! t = Some (Calling c (Fetch calls objs) Asking) ->
  exists r p, allocate_span mmap (span_pages page_size c) (page_cache (pool s)) = (r, p) /\
    let st := with_page_cache p (pool s) in
    match r with
    | None => safe (unlock c (go t (Some (fetched c calls objs 0)) st s))
    | Some id => safe (go t (Some (Calling c (Fetch calls objs) (Cutting id))) st s)
    end.
Proof using page_size_pos mmap_fresh mmap_positive.
  intros Hs Hp. destruct (so_point _ _ _ Hs t _ Hp) as (Hc & _).
  pose proof (pk_central _ _ _ _ _ (so_pool _ _ _ Hs)) as Hce.
  pose proof (own_hand own extra s t _ Hs Hp) as Hmv. pose proof (so_nodup _ _ _ Hs t _ Hp) as Hnd. cbn in Hmv, Hnd.
  destruct (allocate_span_step page_size mmap page_size_pos mmap_fresh mmap_positive extra own (pool s) c Hce Hc)
    as (r & p & Hr & Ha & Hcase).
  exists r, p. split; [done|]. cbv zeta. destruct r as [id|].
  - destruct Hcase as (Hid & Hce' & sp & Hsp & Hn). exists own, ({[id]} ∪ extra).
    apply (central_go own own extra _ s t c (Fetch calls objs) Asking _ id (with_page_cache p (pool s))); try done.
    + right. right. split; [done|]. intros d. apply (co_extra _ _ _ _ _ _ Hce' id d). set_solver.
    + cbn. split; [done|]. split; [|done]. by exists sp.
    + cbn. intros i. rewrite elem_of_union, elem_of_singleton. naive_solver.
    + cbn. intros i [= <-]. by right.
    + by eapply keep_lock.
  - destruct Hcase as [Hce' Hno]. exists own, extra. destruct (unused_id own extra (pool s) Hce) as (id & Hid).
    destruct (fetched_facts c calls objs 0) as (Ff & Fl & Fc & Fh). cbn in Fh.
    apply (central_go own own extra _ s t c (Fetch calls objs) Asking (fetched c calls objs 0) id (with_page_cache p (pool s))); try done.
    + by right; right.
    + intros i. cbn. split; [by right|]. by intros [?|[? _]].
    + apply (release_lock own extra s t _ (fetched c calls objs 0) c Hs Hp); done.
Qed.

(** An object is put back. *)
Lemma putting_ok own extra s t c obj objs target rest id :
  sys_ok own extra s -> inside s !! t = Some (Calling c (Give obj objs target rest) (Putting id)) ->
  let st := put_object id obj (pool s) in
  if wholly_free id st then safe (go t (Some (Calling c (Give obj objs target rest) (Freeing id))) (detach_span c id st) s)
  else safe (unlock c (go t (Some (given c objs target rest)) st s)).
Proof using page_size_pos.
  intros Hs Hp. destruct (so_point _ _ _ Hs t _ Hp) as (Hc & (Hid & sp & Hsp & Hb) & Hd).
  pose proof (pk_central _ _ _ _ _ (so_pool _ _ _ Hs)) as Hce.
  pose proof (own_hand own extra s t _ Hs Hp) as Hmv. pose proof (so_nodup _ _ _ Hs t _ Hp) as Hnd. cbn in Hmv, Hnd.
  assert (own !! obj = Some (c, Moving t)) as Hobj by (apply Hmv; split; [left|done]).
  destruct (put_object_ok page_size mmap page_size_pos extra own (pool s) obj c _ id sp Hce Hobj Hid Hsp Hb)
    as (Hce1 & (sp1 & Hsp1 & Hfull) & Hm1 & Ha1).
  cbv zeta in *. set (st1 := put_object id obj (pool s)) in *.
  pose proof (moves_put own t c objs obj Hmv Hnd) as Hmv'. pose proof (NoDup_cons_1_2 _ _ Hnd) as Hnd'.
  assert (forall x d u, own !! x = Some (d, Cached u) -> mem st1 !! x = mem (pool s) !! x) as Hm
    by (intros x d u Hx; apply Hm1; congruence).
  destruct (wholly_free id st1).
  - destruct (detach_span_ok page_size mmap page_size_pos extra (delete obj own) st1 c id sp1 Hce1 Hid Hsp1 (Hfull eq_refl)) as [Hce2 Ha2].
    exists (delete obj own), ({[id]} ∪ extra).
    assert (id ∉ extra) as Hex by (intros Hx; by apply (co_extra _ _ _ _ _ _ Hce id c)).
    apply (central_go own _ extra _ s t c (Give obj objs target rest) (Putting id) _ id (detach_span c id st1)); try done.
    + by eapply apart_trans.
    + by left.
    + cbn. intros i. rewrite elem_of_union, elem_of_singleton. naive_solver.
    + cbn. intros i [= <-]. by right.
    + by eapply keep_lock.
  - exists (delete obj own), extra. destruct (given_facts c objs target rest) as (Ff & Fl & Fc & Fh).
    apply (central_go own _ extra _ s t c (Give obj objs target rest) (Putting id) (given c objs target rest) id st1); try done.
    + by left.
    + by rewrite Fh.
    + by rewrite Fh.
    + by apply given_point.
    + intros i. rewrite Ff. cbn. naive_solver.
    + by rewrite Ff.
    + cbn. by eapply release_lock.
Qed.

(** The detached span goes to the page cache. *)
Lemma freeing_ok own extra s t c obj objs target rest id :
  sys_ok own extra s -> inside s !! t = Some (Calling c (Give obj objs target rest) (Freeing id)) ->
  exists p, free_span id (page_cache (pool s)) = Some p /\
    safe (unlock c (go t (Some (given c objs target rest)) (with_page_cache p (pool s)) s)).
Proof using page_size_pos.
  intros Hs Hp. destruct (so_point _ _ _ Hs t _ Hp) as (Hc & _ & Hd).
  pose proof (pk_central _ _ _ _ _ (so_pool _ _ _ Hs)) as Hce.
  pose proof (own_hand own extra s t _ Hs Hp) as Hmv. pose proof (so_nodup _ _ _ Hs t _ Hp) as Hnd. cbn in Hmv, Hnd.
  assert (id ∈ extra) as Hid by (apply (so_extra _ _ _ Hs); by eexists _, _).
  destruct (free_span_step page_size mmap page_size_pos extra own (pool s) c id Hce Hid) as (p & Hf & Hce' & Ha).
  exists p. split; [done|]. exists own, (extra ∖ {[id]}). destruct (given_facts c objs target rest) as (Ff & Fl & Fc & Fh).
  apply (central_go own own extra _ s t c (Give obj objs target rest) (Freeing id) (given c objs target rest) id (with_page_cache p (pool s))); try done.
  - by right; left.
  - by rewrite Fh.
  - by rewrite Fh.
  - by apply given_point.
  - intros i. rewrite Ff, elem_of_difference, elem_of_singleton. cbn. naive_solver.
  - by rewrite Ff.
  - cbn. by eapply release_lock.
Qed.

(** ** The steps on a thread's own cache *)

Lemma cache_push_frame t c obj st :
  page_cache (cache_push t c obj st) = page_cache st /\ span_lists_ (cache_push t c obj st) = span_lists_ st /\
  forall u d, u <> t -> free_list u d (cache_push t c obj st) = free_list u d st.
Proof using.
  unfold cache_push, fl_push. split_and!; [done..|]. intros u d Hu. rewrite free_list_with, decide_False; [done|naive_solver].
Qed.

Lemma push_all_frame t c objs st :
  let st' := foldl (fun st obj => cache_push t c obj st) st objs in
  page_cache st' = page_cache st /\ span_lists_ st' = span_lists_ st /\
  forall u d, u <> t -> free_list u d st' = free_list u d st.
Proof using.
  revert st. induction objs as [|obj objs IH]; intros st; [done|]. cbn [foldl].
  destruct (cache_push_frame t c obj st) as (E1 & E2 & E3), (IH (cache_push t c obj st)) as (F1 & F2 & F3).
  cbv zeta. rewrite F1, F2, E1, E2. split_and!; [done..|]. intros u d Hu. by rewrite F3, E3.
Qed.

(** A thread pops a block off its list and gives it to its caller. *)
Lemma pop_ok own own1 extra s t c p1 st1 :
  sys_ok own extra s -> inside s !! t = p1 -> (p1 ≫= locked) = None -> (p1 ≫= floats) = None ->
  pool_ok page_size mmap extra own1 st1 -> page_cache st1 = page_cache (pool s) -> span_lists_ st1 = span_lists_ (pool s) ->
  (forall u d, u <> t -> free_list u d st1 = free_list u d (pool s)) -> head_ (free_list t c st1) <> 0 ->
  (forall x d, own1 !! x = Some (d, Client) <-> own !! x = Some (d, Client)) ->
  (forall u x d, own1 !! x = Some (d, Moving u) <-> u <> t /\ own !! x = Some (d, Moving u)) ->
  exists obj st, cache_pop t c st1 = (obj, st) /\ held s !! obj = None /\ safe (hand_out obj c (go t None st s)).
Proof using.
  intros Hs Hp L1 F1 Hok Hpc Hsl Hfr Hh Hcl Hmv.
  destruct (cache_pop_ok page_size mmap extra own1 st1 t c Hok Hh) as (obj & st & Hpop & Hz & Hobj & Hok').
  exists obj, st. split; [done|]. split.
  { destruct (held s !! obj) as [d|] eqn:E; [|done]. apply (so_held _ _ _ Hs), Hcl in E. congruence. }
  assert (page_cache st = page_cache st1 /\ span_lists_ st = span_lists_ st1 /\
    forall u d, u <> t -> free_list u d st = free_list u d st1) as (E1 & E2 & E3).
  { unfold cache_pop, fl_pop in Hpop. case_match; injection Hpop as _ <-; (split_and!; [done..|]);
      intros u d Hu; rewrite free_list_with, decide_False; naive_solver. }
  exists (<[obj := (c, Client)]> own1), extra.
  apply (local_go own _ extra s t p1 None st (<[obj := c]> (held s))); try done; try congruence.
  - intros u d Hu. by rewrite E3, Hfr.
  - intros x d. destruct (decide (x = obj)) as [->|].
    + rewrite !lookup_insert_eq. clear. naive_solver.
    + rewrite !lookup_insert_ne, Hcl by done. apply (so_held _ _ _ Hs).
  - intros u x d Hu. destruct (decide (x = obj)) as [->|]; [|rewrite lookup_insert_ne, Hmv by done; tauto].
    rewrite lookup_insert_eq. split; [done|]. intros Hx. assert (own1 !! obj = Some (d, Moving u)) by (by apply Hmv). congruence.
  - intros x d. split; [|by intros (? & ? & _)]. destruct (decide (x = obj)) as [->|]; [by rewrite lookup_insert_eq|].
    rewrite lookup_insert_ne, Hmv by done. tauto.
Qed.

(** The end of an allocation: a block that no client has, or none if the system refused. *)
Lemma filling_ok own extra s t c objs :
  sys_ok own extra s -> inside s !! t = Some (Filling c objs) ->
  exists s', advance page_size mmap t s = Some s' /\ safe s' /\ inside s' !! t = None /\
    ((exists obj, held s !! obj = None /\ held s' = <[obj := c]> (held s)) \/ (held s' = held s /\ refused page_size mmap c)).
Proof using page_size_pos.
  intros Hs Hp. pose proof (so_pool _ _ _ Hs) as Hok. destruct (so_point _ _ _ Hs t _ Hp) as (Hc & Hno).
  pose proof (own_hand own extra s t _ Hs Hp) as [_ Hmt]. pose proof (so_nodup _ _ _ Hs t _ Hp) as Hnd. cbn in Hmt, Hnd.
  destruct (push_all_ok page_size mmap extra t c objs own (pool s) (Moving t) Hok ltac:(done) Hnd) as (own1 & Hok1 & Hr).
  { intros x Hx. assert (own !! x = Some (c, Moving t)) as E by (by apply Hmt). split; [|done].
    by eapply (owned_pos page_size mmap page_size_pos extra own). }
  destruct (push_all_frame t c objs (pool s)) as (E1 & E2 & E3). cbv zeta in *.
  assert (forall x d, own1 !! x = Some (d, Client) <-> own !! x = Some (d, Client)) as Hcl.
  { intros x d. rewrite Hr. case_decide as Hx; [|done]. assert (own !! x = Some (c, Moving t)) as -> by (by apply Hmt). done. }
  assert (forall u x d, own1 !! x = Some (d, Moving u) <-> u <> t /\ own !! x = Some (d, Moving u)) as Hmv.
  { intros u x d. rewrite Hr. case_decide as Hx.
    - assert (own !! x = Some (c, Moving t)) as -> by (by apply Hmt). split; [done|]. intros [? [= _ ->]]. done.
    - split; [|tauto]. intros E. split; [|done]. intros ->. apply Hmt in E as [? _]. done. }
  unfold advance. rewrite Hp. cbn [mbind option_bind]. set (st1 := foldl _ _ _) in *.
  destruct (Z.eqb_spec (head_ (free_list t c st1)) 0) as [E|E].
  - eexists. split; [done|]. split; [|split; [apply lookup_partial_alter_eq|right; split; [done|]]].
    + exists own1, extra. apply (local_go own _ extra s t (Some (Filling c objs)) None st1 (held s)); try done.
      * intros x d. rewrite (so_held _ _ _ Hs), Hcl. done.
      * intros u x d Hu. rewrite Hmv. tauto.
      * intros x d. rewrite Hmv. split; [tauto|]. by intros (? & ? & _).
    + apply Hno. destruct objs as [|x objs]; [done|]. exfalso.
      destruct (holds_count _ _ _ _ (pk_cache _ _ _ _ _ Hok1 t c)) as (_ & _ & Hempty).
      apply (proj1 Hempty E x). apply (reassigned_in _ _ _ _ _ Hr). left.
  - destruct (pop_ok own own1 extra s t c _ st1 Hs Hp eq_refl eq_refl Hok1 E1 E2 E3 E Hcl Hmv) as (obj & st & -> & Hobj & Hsafe).
    eexists. split; [done|]. split; [done|]. split; [apply lookup_partial_alter_eq|]. left. by exists obj.
Qed.

Lemma no_hand own extra s t p1 :
  sys_ok own extra s -> inside s !! t = p1 -> (forall p, p1 = Some p -> hand p = []) ->
  forall x d, own !! x <> Some (d, Moving t).
Proof using.
  intros Hs Hp Hh x d Hx. apply (so_hand _ _ _ Hs) in Hx as (p & E & Hin & _). rewrite Hp in E.
  rewrite (Hh p E) in Hin. by apply elem_of_nil in Hin.
Qed.

(** The thread moves on, and the pool stays as it is. *)
Lemma walk_ok own extra s t p1 p2 :
  sys_ok own extra s -> inside s !! t = p1 -> (p1 ≫= locked) = None -> (p1 ≫= floats) = None ->
  (p2 ≫= locked) = None -> (p2 ≫= floats) = None ->
  (forall p, p1 = Some p -> hand p = []) -> (forall p, p2 = Some p -> hand p = [] /\ point_ok t p (pool s)) ->
  safe (go t p2 (pool s) s).
Proof using.
  intros Hs Hp L1 F1 L2 F2 H1 H2. exists own, extra. pose proof (no_hand own extra s t p1 Hs Hp H1) as Hno.
  apply (local_go own own extra s t p1 p2 (pool s) (held s)); try done.
  - apply (so_pool _ _ _ Hs).
  - apply (so_held _ _ _ Hs).
  - intros x c. split; [intros E; by destruct (Hno x c)|]. intros (p & E & Hx & _). destruct (H2 p E) as [Hh _].
    rewrite Hh in Hx. by apply elem_of_nil in Hx.
  - intros p E. destruct (H2 p E) as [-> ?]. split; [constructor|done].
Qed.

Lemma size_pos own extra s t c : sys_ok own extra s -> 0 <= fl_size_ (free_list t c (pool s)).
Proof using.
  intros Hs. by destruct (holds_count _ _ _ _ (pk_cache _ _ _ _ _ (so_pool _ _ _ Hs) t c)).
Qed.

(** A turn of the loop that gives blocks back. *)
Lemma returning_ok own extra s t c target rest :
  sys_ok own extra s -> inside s !! t = Some (Returning c target rest) ->
  exists s', advance page_size mmap t s = Some s' /\ safe s'.
Proof using page_size_pos.
  intros Hs Hp. pose proof (so_pool _ _ _ Hs) as Hok. destruct (so_point _ _ _ Hs t _ Hp) as (Hc & Hd).
  unfold advance. rewrite Hp. cbn [mbind option_bind].
  assert (target = 0%nat \/ fl_size_ (free_list t c (pool s)) = 0 -> safe (go t (Leaving <$> rest) (pool s) s)) as Hover.
  { intros Hz. apply (walk_ok own extra s t _ _ Hs Hp); try done; [by destruct rest..| |].
    - by intros ? [= <-].
    - intros p E. destruct rest as [cs|]; [|done]. injection E as <-. split; [done|]. destruct Hd as (Hsz & Hcs & Hrest).
      split; [done|]. intros d Hin Hk. destruct (decide (d = c)) as [->|]; [|by apply Hrest]. lia. }
  destruct (Nat.eqb_spec target 0) as [E|E]; [eexists; split; [done|]; by apply Hover; left|].
  destruct (pop_batch_ok (Nat.min target 256) _ _ _ (pk_cache _ _ _ _ _ Hok t c)) as (objs & fl & -> & Hnd & Ho & Hlen & Hsz & Hr).
  pose proof (size_pos own extra s t c Hs) as Hpos.
  destruct (Nat.eqb_spec (length objs) 0) as [E0|E0]; [eexists; split; [done|]; apply Hover; right; lia|].
  destruct (batch_ok page_size mmap extra own (pool s) t c objs fl (Moving t) Hok ltac:(done) Ho Hr) as (own1 & Hr1 & Hok1).
  eexists. split; [done|]. exists own1, extra. destruct (given_facts c objs (target - length objs) rest) as (Ff & Fl & Fc & Fh).
  pose proof (no_hand own extra s t _ Hs Hp ltac:(by intros ? [= <-])) as Hno.
  apply (local_go own own1 extra s t (Some (Returning c target rest)) (Some (given c objs (target - length objs) rest))
           (with_cache t c fl (pool s)) (held s)); try done.
  - intros u d Hu. rewrite free_list_with, decide_False; [done|]. by intros [-> _].
  - intros x d. rewrite (so_held _ _ _ Hs), Hr1. case_decide as Hx; [|done]. rewrite (Ho x Hx). done.
  - intros u x d Hu. rewrite Hr1. case_decide as Hx; [|done]. rewrite (Ho x Hx). split; [|done]. intros [= _ ->]. done.
  - intros x d. rewrite Hr1. split.
    + case_decide as Hx; [|intros E1; by destruct (Hno x d)]. intros [= <-]. eexists. split; [done|]. by rewrite Fh.
    + intros (p & [= <-] & Hx & <-). rewrite Fh in Hx. by rewrite decide_True, Fc.
  - intros p [= <-]. rewrite Fh. split; [done|]. apply given_point; [done|]. destruct rest as [cs|]; [|done].
    destruct Hd as (Hsz0 & Hcs & Hrest). split; [|split; [done|]].
    + rewrite free_list_with, decide_True by done. lia.
    + intros d Hne Hin Hk. rewrite free_list_with, decide_False by (by intros [_ ?]). by apply Hrest.
Qed.

(** A turn of the loop of the destructor. *)
Lemma leaving_ok own extra s t cs :
  sys_ok own extra s -> inside s !! t = Some (Leaving cs) ->
  exists s', advance page_size mmap t s = Some s' /\ safe s'.
Proof using page_size_pos.
  intros Hs Hp. pose proof (so_pool _ _ _ Hs) as Hok. destruct (so_point _ _ _ Hs t _ Hp) as (Hcs & Hrest).
  unfold advance. rewrite Hp. cbn [mbind option_bind]. pose proof (no_hand own extra s t _ Hs Hp ltac:(by intros ? [= <-])) as Hno.
  destruct cs as [|c cs]; (eexists; split; [done|]).
  - exists own, extra. apply (local_go own own extra s t (Some (Leaving [])) None _ (held s)); try done.
    + apply drop_cache_ok; [done|]. intros x d Hx. destruct (owned_pos page_size mmap page_size_pos extra own _ x d _ Hok Hx) as [Hk _].
      destruct (holds_count _ _ _ _ (pk_cache _ _ _ _ _ Hok t d)) as (_ & Hz & Hempty).
      apply (proj1 Hempty (proj2 Hz (Hrest d (not_elem_of_nil d) Hk)) x Hx).
    + intros u d Hu. unfold free_list. cbn. by rewrite lookup_delete_ne.
    + apply (so_held _ _ _ Hs).
    + intros x d. split; [intros E; by destruct (Hno x d)|]. by intros (? & ? & _).
  - apply Forall_cons in Hcs as [Hc Hcs]. destruct (holds_count _ _ _ _ (pk_cache _ _ _ _ _ Hok t c)) as (Hpos & Hz & _).
    apply (walk_ok own extra s t _ _ Hs Hp); try done; [by case_match..|by intros ? [= <-]|].
    intros p [= <-]. destruct (Z.eqb_spec (head_ (free_list t c (pool s))) 0) as [E|E]; (split; [done|]).
    + split; [done|]. intros d Hin Hk. destruct (decide (d = c)) as [->|]; [by apply Hz|]. apply Hrest; [|done].
      by apply not_elem_of_cons.
    + split; [done|]. split; [lia|]. split; [done|]. intros d Hne Hin Hk. apply Hrest; [|done]. by apply not_elem_of_cons.
Qed.

(** ** Every step *)

(** A thread waits only for the lock of a class that another one has; otherwise it has a
    step, and the invariant holds after it. *)
Lemma advance_ok own extra s t p :
  sys_ok own extra s -> inside s !! t = Some p ->
  (exists c w u, p = Calling c w Outside /\ locks_ s !! c = Some u) \/
  exists s', advance page_size mmap t s = Some s' /\ safe s'.
Proof using page_size_pos mmap_fresh mmap_positive.
  intros Hs Hp. destruct p as [c w ph|c objs|c target rest|cs];
    [|right; by destruct (filling_ok own extra s t c objs Hs Hp) as (s' & ? & ? & _); exists s'|
      right; by eapply returning_ok|right; by eapply leaving_ok].
  destruct (so_point _ _ _ Hs t _ Hp) as (_ & Hph & _).
  unfold advance. rewrite Hp. cbn [mbind option_bind]. unfold call_step.
  destruct ph as [| |id| |id|id|id], w as [calls objs|obj objs target rest]; try done.
  1,2: destruct (locks_ s !! c) as [u|] eqn:E; [left; by eexists _, _, u|right; eexists; split; [done|]; by eapply acquire_ok].
  all: right.
  - eexists. split; [done|]. by eapply search_fetch_ok.
  - destruct (search_give_ok own extra s t c obj objs target rest Hs Hp) as (id & -> & H). by eexists.
  - destruct (taking_ok own extra s t c calls objs id Hs Hp) as (obj & st & -> & H). by eexists.
  - destruct (asking_ok own extra s t c calls objs Hs Hp) as (r & p & -> & H). destruct r; by eexists.
  - destruct (cutting_ok own extra s t c calls objs id Hs Hp) as (st1 & obj & st & -> & Htk & H). cbn [mbind option_bind].
    rewrite Htk. by eexists.
  - pose proof (putting_ok own extra s t c obj objs target rest id Hs Hp) as H. cbv zeta in *. case_match; by eexists.
  - destruct (freeing_ok own extra s t c obj objs target rest id Hs Hp) as (p & -> & H). by eexists.
Qed.

Lemma request_allocate_ok own extra s t size s' :
  sys_ok own extra s -> request_allocate t size s = Some s' -> safe s'.
Proof using.
  intros Hs. unfold request_allocate. destruct (inside s !! t) eqn:Hp; [done|]. pose proof (get_index_spec size) as Hidx.
  destruct (get_index size) as [c|]; [|done]. destruct Hidx as (Hc & _).
  destruct (Z.eqb_spec (head_ (free_list t c (pool s))) 0) as [E|E].
  - intros [= <-]. apply (walk_ok own extra s t _ _ Hs Hp); try done. intros p [= <-]. done.
  - pose proof (no_hand own extra s t None Hs Hp ltac:(done)) as Hno.
    destruct (pop_ok own own extra s t c None (pool s) Hs Hp eq_refl eq_refl (so_pool _ _ _ Hs)) as (obj & st & -> & _ & H); try done.
    + intros u x d. split; [|tauto]. intros Hx. split; [|done]. intros ->. by destruct (Hno x d).
    + by intros [= <-].
Qed.

Lemma request_free_ok own extra s t obj size c s' :
  sys_ok own extra s -> held s !! obj = Some c -> get_index size = Some c -> request_free t obj size s = Some s' -> safe s'.
Proof using page_size_pos.
  intros Hs Hobj%(so_held _ _ _ Hs) Hidx. unfold request_free. destruct (inside s !! t) eqn:Hp; [done|]. rewrite Hidx.
  pose proof (so_pool _ _ _ Hs) as Hok. destruct (owned_pos page_size mmap page_size_pos extra own _ obj c _ Hok Hobj) as [Hc Hz].
  pose proof (cache_push_ok page_size mmap extra own (pool s) t c obj Client Hok Hobj ltac:(done) Hz) as Hok1.
  pose proof (no_hand own extra s t None Hs Hp ltac:(done)) as Hno.
  destruct (cache_push_frame t c obj (pool s)) as (E1 & E2 & E3). cbv zeta. set (n := fl_size_ _). intros [= <-].
  exists (<[obj := (c, Cached t)]> own), extra.
  apply (local_go own _ extra s t None _ (cache_push t c obj (pool s)) (delete obj (held s))); try done; [by case_match..| | | |].
  - intros x d. destruct (decide (x = obj)) as [->|].
    + rewrite lookup_delete_eq, lookup_insert_eq. done.
    + rewrite lookup_delete_ne, lookup_insert_ne by done. apply (so_held _ _ _ Hs).
  - intros u x d Hu. destruct (decide (x = obj)) as [->|]; [|by rewrite lookup_insert_ne]. by rewrite lookup_insert_eq, Hobj.
  - intros x d. split.
    + destruct (decide (x = obj)) as [->|]; [by rewrite lookup_insert_eq|]. rewrite lookup_insert_ne by done.
      intros E. by destruct (Hno x d).
    + intros (p & E & Hx & _). case_match; [|done]. injection E as <-. by apply elem_of_nil in Hx.
  - intros p E. case_match; [|done]. injection E as <-. split; [constructor|done].
Qed.

Lemma pool_step_ok s s' : safe s -> pool_step page_size mmap s s' -> safe s'.
Proof using page_size_pos mmap_fresh mmap_positive.
  intros (own & extra & Hs). destruct 1 as [t size s s' E|t obj size c s s' Hobj Hidx E|t s s' E|t s s' E|obj c m s Hobj Hm].
  - by eapply request_allocate_ok.
  - by eapply request_free_ok.
  - unfold request_exit in E. destruct (inside s !! t) eqn:Hp; [done|].
    assert (s' = go t (Some (Leaving (seq 0 kNumClasses))) (pool s) s) as -> by congruence.
    apply (walk_ok own extra s t _ _ Hs Hp); try done. intros p Hpe.
    assert (p = Leaving (seq 0 kNumClasses)) as -> by congruence. split; [done|]. split.
    + apply Forall_forall. intros d Hd%elem_of_seq. lia.
    + intros d Hd Hk. destruct Hd. apply elem_of_seq. lia.
  - destruct (inside s !! t) as [p|] eqn:Hp; [|unfold advance in E; by rewrite Hp in E].
    destruct (advance_ok own extra s t p Hs Hp) as [(c & w & u & -> & Hl)|(s1 & E1 & ?)]; [|by simplify_eq].
    unfold advance, call_step in E. rewrite Hp in E. cbn in E. by rewrite Hl in E.
  - exists own, extra. split; try apply Hs.
    cbn. apply (write_ok page_size mmap page_size_pos extra obj c); [apply Hs| |done]. by apply (so_held _ _ _ Hs).
Qed.

Lemma reachable_safe s : pool_reachable page_size mmap s -> safe s.
Proof using page_size_pos mmap_fresh mmap_positive.
  revert s. apply (rtc_ind_r (R := pool_step page_size mmap) safe new_sys); [by exists ∅, ∅; apply new_sys_ok|].
  intros s1 s2 _ Hst Hs. by eapply pool_step_ok.
Qed.

(** A thread that has a lock does not wait. *)
Lemma some_advances s t p : safe s -> inside s !! t = Some p -> exists u s', advance page_size mmap u s = Some s'.
Proof using page_size_pos mmap_fresh mmap_positive.
  intros (own & extra & Hs) Hp. destruct (advance_ok own extra s t p Hs Hp) as [(c & w & u & -> & Hl)|(s1 & ? & _)]; [|by exists t, s1].
  apply (so_lock _ _ _ Hs) in Hl as (q & Hq & Hc).
  destruct (advance_ok own extra s u q Hs Hq) as [(d & w' & v & -> & _)|(s1 & ? & _)]; [done|by exists u, s1].
Qed.
End threads.

(** ** The pool as its clients see it *)

(** What a client can rely on at every point of every interleaving. *)
Lemma safe_rel page_size mmap s : safe page_size mmap s -> exists extra, pool_rel page_size mmap extra (held s) (pool s).
Proof. intros (own & extra & Hs). exists extra, own. split; [apply Hs|]. intros x c. apply (so_held _ _ _ _ _ Hs). Qed.

(** With no thread inside, no span is between the caches. *)
Lemma idle_rel page_size mmap own extra s :
  sys_ok page_size mmap own extra s -> inside s = ∅ -> extra = ∅.
Proof.
  intros Hs Hin. apply set_eq. intros id. rewrite (so_extra _ _ _ _ _ Hs), Hin. split; [|done].
  by intros (t & p & Hp & _).
Qed.

(** C29: However the steps of threads that allocate, free, write into their blocks and exit
    are interleaved, at every moment, in the middle of requests too, the blocks that clients
    hold do not overlap, are not null, are aligned to eight bytes (if pages are) and lie in
    memory that the system gave to the pool. As long as some thread is inside the pool, some
    thread has a next step. An allocation that has made its calls of the central cache
    returns a block that no client holds, or none, and then the system has refused memory
    for that class. *)
Theorem pool_blocks_safe page_size mmap s :
  0 < page_size -> mmap_sound mmap -> pool_reachable page_size mmap s ->
  (forall x y c d, held s !! x = Some c -> held s !! y = Some d -> x <> y ->
     x + get_size c <= y \/ y + get_size d <= x) /\
  (forall x c, held s !! x = Some c -> 0 < x /\ ((8 | page_size) -> (8 | x)) /\
     forall a, x <= a < x + get_size c -> exists k n q, mmap k n = Some q /\ q * page_size <= a < (q + n) * page_size) /\
  (forall t, inside s !! t <> None -> exists u s', advance page_size mmap u s = Some s') /\
  (forall t c objs, inside s !! t = Some (Filling c objs) ->
     exists s', advance page_size mmap t s = Some s' /\ inside s' !! t = None /\
       ((exists obj, held s !! obj = None /\ held s' = <[obj := c]> (held s)) \/
        (held s' = held s /\ exists k, mmap k (span_pages page_size c) = None))).
Proof.
  intros Hps [Hf Hp] Hr%(reachable_safe page_size mmap Hps Hf Hp). destruct (safe_rel _ _ _ Hr) as [extra Hrel]. split_and!.
  - intros x y c d. by apply (rel_apart page_size mmap Hps extra (held s) (pool s)).
  - intros x c Hx. by destruct (rel_block page_size mmap Hps extra (held s) (pool s) x c Hrel Hx) as (_ & ? & ? & ?).
  - intros t Ht. destruct (inside s !! t) as [p|] eqn:E; [|done]. by eapply some_advances.
  - intros t c objs E. destruct Hr as (own & ex & Hs).
    destruct (filling_ok page_size mmap Hps own ex s t c objs Hs E) as (s' & ? & _ & ? & ?). by exists s'.
Qed.

(** C30: When no thread is in the middle of a request, every block has been given back and
    every thread has exited, then however their steps were interleaved before, the central
    cache holds no span, and the page cache has all of its pages free, in spans no two of
    which touch. *)
Theorem pool_idle page_size mmap s :
  0 < page_size -> mmap_sound mmap -> pool_reachable page_size mmap s ->
  inside s = ∅ -> held s = ∅ -> thread_caches (pool s) = ∅ ->
  (forall c, span_list c (pool s) = []) /\
  (forall id sp, spans (page_cache (pool s)) !! id = Some sp ->
     id ∈ free_list_of (num_pages_ sp) (page_cache (pool s))) /\
  (forall i j a b, spans (page_cache (pool s)) !! i = Some a -> spans (page_cache (pool s)) !! j = Some b ->
     page_id_ a + num_pages_ a <> page_id_ b).
Proof.
  intros Hps [Hf Hp] Hr%(reachable_safe page_size mmap Hps Hf Hp) Hin Hheld Ht. destruct Hr as (own & extra & Hs).
  pose proof (idle_rel _ _ _ _ _ Hs Hin) as ->. pose proof (so_pool _ _ _ _ _ Hs) as Hok.
  assert (forall x, own !! x = None) as Hown.
  { intros x. destruct (own !! x) as [[d [t|t|]]|] eqn:E; [| | |done].
    - destruct (holds_count _ _ _ _ (pk_cache _ _ _ _ _ Hok t d)) as (_ & _ & Hempty). exfalso. eapply Hempty; [|exact E].
      unfold free_list. by rewrite Ht, lookup_empty.
    - apply (so_hand _ _ _ _ _ Hs) in E as (p & E & _). by rewrite Hin, lookup_empty in E.
    - apply (so_held _ _ _ _ _ Hs) in E. by rewrite Hheld, lookup_empty in E. }
  assert (forall c, span_list c (pool s) = []) as Hnone by (intros c; by apply (idle_spans page_size mmap Hps ∅ own)).
  split; [done|]. destruct (co_pages _ _ _ _ _ _ (pk_central _ _ _ _ _ Hok)) as (used & Hpg & Hu).
  assert (forall id, id ∉ used) as Hno.
  { intros id [?|[c Hc]]%Hu; [done|]. rewrite Hnone in Hc. by apply not_elem_of_nil in Hc. }
  split.
  - intros id sp Hsp. apply (po_free _ _ _ Hpg). split; [done|]. by exists sp.
  - intros i j a b. by apply (po_merged _ _ _ Hpg i j).
Qed.

(** ** The steps of a call are the call

    Undisturbed, the steps of thread [t] from before the lock to after it are
    [central_allocate] and [central_deallocate]. *)
Definition alone (page_size : Z) (mmap : nat -> Z -> option Z) (t : nat) : Sys -> Sys -> Prop :=
  rtc (fun s s' => advance page_size mmap t s = Some s').

Lemma alone_step page_size mmap t p s s1 s2 :
  inside s !! t = Some p -> (forall c w ph, p = Calling c w ph -> call_step page_size mmap t c w ph s = Some s1) ->
  (exists c w ph, p = Calling c w ph) -> alone page_size mmap t s1 s2 -> alone page_size mmap t s s2.
Proof.
  intros Hp Hst (c & w & ph & ->) H. eapply rtc_l; [|exact H]. unfold advance. rewrite Hp. by apply Hst.
Qed.

Lemma go_at t p st s : inside (go t p st s) !! t = p.
Proof. apply lookup_partial_alter_eq. Qed.

Lemma go_again t p q st st' s : go t p st (go t q st' s) = go t p st s.
Proof. unfold go. cbn. f_equal. apply partial_alter_partial_alter_eq. Qed.

Lemma unlock_go c t p q st st' s :
  locks_ s !! c = None -> unlock c (go t p st (lock c t (go t q st' s))) = go t p st s.
Proof.
  intros Hl. unfold unlock, lock, go. cbn. rewrite delete_insert_id by done. f_equal. apply partial_alter_partial_alter_eq.
Qed.

Ltac next_step tac := eapply alone_step; [apply go_at|intros ? ? ? [= <- <- <-]; cbn [call_step pool lock go]; tac|by eexists _, _, _|].

Theorem allocate_call page_size mmap t c calls objs s obj st' :
  inside s !! t = Some (Calling c (Fetch calls objs) Outside) -> locks_ s !! c = None ->
  central_allocate page_size mmap c (pool s) = Some (obj, st') ->
  alone page_size mmap t s (go t (Some (fetched c calls objs obj)) st' s).
Proof.
  intros Hp Hl. unfold central_allocate. intros Hcall.
  eapply alone_step; [exact Hp|intros ? ? ? [= <- <- <-]; cbn; by rewrite Hl|by eexists _, _, _|].
  next_step ltac:(reflexivity).
  cbn [pool lock go]. destruct (find_free c (pool s)) as [id|] eqn:E.
  - assert (take_object id (pool s) = (obj, st')) as Htk by congruence. next_step ltac:(by rewrite Htk).
    rewrite go_again, unlock_go by done. apply rtc_refl.
  - unfold fetch_from_page_cache in Hcall.
    destruct (allocate_span mmap (span_pages page_size c) (page_cache (pool s))) as [[id|] p] eqn:Ea; cbn [mbind option_bind] in Hcall.
    + destruct (cut_span page_size c id (with_page_cache p (pool s))) as [st1|] eqn:Ec; cbn [mbind option_bind] in Hcall; [|done].
      assert (take_object id (push_span c id st1) = (obj, st')) as Htk by congruence.
      next_step ltac:(by rewrite Ea).
      next_step ltac:(rewrite Ec; cbn [mbind option_bind]; by rewrite Htk).
      rewrite !go_again, unlock_go by done. apply rtc_refl.
    + injection Hcall as <- <-.
      next_step ltac:(by rewrite Ea).
      rewrite go_again, unlock_go by done. apply rtc_refl.
Qed.

Theorem deallocate_call page_size mmap t c obj objs target rest s st' :
  inside s !! t = Some (Calling c (Give obj objs target rest) Outside) -> locks_ s !! c = None ->
  central_deallocate page_size obj c (pool s) = Some st' ->
  alone page_size mmap t s (go t (Some (given c objs target rest)) st' s).
Proof.
  intros Hp Hl. unfold central_deallocate. intros Hcall.
  eapply alone_step; [exact Hp|intros ? ? ? [= <- <- <-]; cbn; by rewrite Hl|by eexists _, _, _|].
  destruct (find_span page_size obj c (pool s)) as [id|] eqn:E.
  - next_step ltac:(by rewrite E).
    cbv zeta in Hcall. destruct (wholly_free id (put_object id obj (pool s))) eqn:Ew.
    + destruct (free_span id (page_cache (detach_span c id (put_object id obj (pool s))))) as [p|] eqn:Ef; cbn in Hcall; [|done].
      injection Hcall as <-.
      next_step ltac:(by rewrite Ew).
      next_step ltac:(by rewrite Ef).
      rewrite !go_again, unlock_go by done. apply rtc_refl.
    + injection Hcall as <-.
      next_step ltac:(by rewrite Ew).
      rewrite go_again, unlock_go by done. apply rtc_refl.
  - injection Hcall as <-. next_step ltac:(by rewrite E).
    rewrite unlock_go by done. apply rtc_refl.
Qed.

(** ** Requests that run on their own

    In a state where no thread is inside, every request returns. A request above 256 KB is
    [malloc]'s; a smaller one gets a block at least as large that overlaps no block held, or
    the null pointer if the system refuses memory. A block that comes back is taken, and a
    list of more than 32 blocks is halved; a thread that exits leaves nothing cached. *)
Theorem pool_requests page_size mmap s t :
  0 < page_size -> mmap_sound mmap -> pool_reachable page_size mmap s -> inside s = ∅ ->
  let st := pool s in
  (forall size, exists r st', MemoryPool_allocate page_size mmap t size st = Some (r, st') /\
     match r with
     | Malloc n => n = size /\ 262144 < size /\ st' = st
     | Pointer obj => exists c, get_index size = Some c /\ size <= get_size c /\
         if obj =? 0 then refused page_size mmap c
         else forall x d, held s !! x = Some d -> obj + get_size c <= x \/ x + get_size d <= obj
     end) /\
  (forall obj size c, held s !! obj = Some c -> get_index size = Some c ->
     exists st', MemoryPool_deallocate page_size t obj size st = Some (true, st') /\
       let n := cached_object_count t c st + 1 in
       cached_object_count t c st' = if 32 <? n then n - n / 2 else n) /\
  (exists st', thread_exit page_size t st = Some st' /\ forall c, cached_object_count t c st' = 0).
Proof.
  intros Hps [Hf Hp] Hr%(reachable_safe page_size mmap Hps Hf Hp) Hin st. destruct (safe_rel _ _ _ Hr) as [extra Hrel].
  fold st in Hrel. split_and!.
  - intros size. rewrite MemoryPool_allocate_eq. pose proof (get_index_spec size) as Hidx.
    destruct (thread_allocate_ok page_size mmap Hps Hf Hp extra t size (held s) st Hrel) as (r & st' & -> & Hcase).
    exists r, st'. split; [done|]. destruct r as [n|obj]; [done|]. destruct Hcase as (c & E & Hcase). rewrite E in Hidx.
    exists c. split; [done|]. split; [apply Hidx|]. destruct (Z.eqb_spec obj 0) as [|Hz]; [apply Hcase|].
    destruct Hcase as [Hnew Hrel']. intros x d Hx.
    apply (rel_apart page_size mmap Hps extra _ st' obj x c d Hrel'); [apply lookup_insert_eq| |congruence].
    rewrite lookup_insert_ne; [done|congruence].
  - intros obj size c Hobj Hidx. rewrite MemoryPool_deallocate_eq.
    destruct (thread_deallocate_ok page_size mmap Hps extra t obj size c (held s) st Hrel Hobj Hidx) as (st' & -> & _ & Hn).
    destruct (rel_block page_size mmap Hps extra (held s) st obj c Hrel Hobj) as (Hc & _).
    exists st'. split; [done|]. unfold cached_object_count. by rewrite (proj2 (Nat.leb_gt _ _) Hc).
  - destruct (thread_exit_ok page_size mmap Hps extra t (held s) st Hrel) as (st' & -> & _ & Ht). exists st'. split; [done|].
    intros c. unfold cached_object_count, free_list. rewrite Ht. by destruct (_ <=? _)%nat.
Qed.

(** ** Two threads at once

    [play] runs the threads in the order given; one that has to wait stays where it is. *)
Definition play (ts : list nat) (s : Sys) : Sys := foldl (fun s t => default s (advance 4096 sample_mmap t s)) s ts.

Lemma play_reachable ts s : pool_reachable 4096 sample_mmap s -> pool_reachable 4096 sample_mmap (play ts s).
Proof.
  revert s. induction ts as [|t ts IH]; intros s Hs; cbn [play foldl]; [done|]. apply IH.
  destruct (advance 4096 sample_mmap t s) as [s'|] eqn:E; [|done]. eapply rtc_r; [exact Hs|]. by eapply step_advance.
Qed.

Definition request (f : Sys -> option Sys) (s : Sys) : Sys := default s (f s).

Lemma request_some (f : Sys -> option Sys) s : match f s with Some _ => true | None => false end = true -> f s = Some (request f s).
Proof. unfold request. by destruct (f s). Qed.

(** Threads 1 and 2 ask for 100 and for 120 bytes, and take turns. *)
Definition turns : list nat := concat (repeat [1%nat; 2%nat] 1600).
Definition both_ask : Sys := request (request_allocate 2 120) (request (request_allocate 1 100) new_sys).
Definition both_have : Sys := play turns both_ask.

Lemma both_ask_reachable : pool_reachable 4096 sample_mmap both_ask.
Proof.
  apply (rtc_l _ _ (request (request_allocate 1 100) new_sys)); [by apply (step_allocate _ _ 1 100)|].
  apply rtc_once. by apply (step_allocate _ _ 2 120).
Qed.

(** Once thread 1 has the lock of the class, thread 2 waits. *)
Example second_waits :
  let s := play [1%nat] both_ask in
  locks_ s !! 6%nat = Some 1%nat /\ inside s !! 2%nat = Some (Calling 6 (Fetch 256 []) Outside) /\
  advance 4096 sample_mmap 2 s = None.
Proof. by vm_compute. Qed.

Definition sample_block : Z := 8589934592.

Lemma pool_blocks_safe_witness :
  pool_reachable 4096 sample_mmap both_have /\
  held both_have = {[sample_block := 6%nat; sample_block + 128 := 6%nat]} /\
  sample_block + get_size 6 <= sample_block + 128.
Proof.
  assert (pool_reachable 4096 sample_mmap both_have) as Hr by apply play_reachable, both_ask_reachable.
  assert (held both_have !! sample_block = Some 6%nat /\ held both_have !! (sample_block + 128) = Some 6%nat) as [H1 H2]
    by (split; vm_compute; reflexivity).
  split; [exact Hr|]. split; [vm_compute; reflexivity|].
  destruct (pool_blocks_safe 4096 sample_mmap both_have ltac:(lia) sample_mmap_sound Hr) as [H _].
  destruct (H sample_block (sample_block + 128) 6%nat 6%nat H1 H2) as [E|E]; [discriminate|exact E|].
  exfalso. revert E. vm_compute. intros E. apply E. reflexivity.
Defined.

(** Each gives back the block that the other one got, and both exit. *)
Definition one_back : Sys := request (request_free 1 sample_block 128) both_have.
Definition both_back : Sys := request (request_free 2 (sample_block + 128) 100) one_back.
Definition returned : Sys := play turns both_back.
Definition both_leave : Sys := request (request_exit 2) (request (request_exit 1) returned).
Definition both_left : Sys := play turns both_leave.

Lemma both_left_reachable : pool_reachable 4096 sample_mmap both_left.
Proof.
  apply play_reachable.
  apply (rtc_r _ (request (request_exit 1) returned)); [apply (rtc_r _ returned); [apply play_reachable, (rtc_r _ one_back);
    [apply (rtc_r _ both_have); [apply play_reachable, both_ask_reachable|]|]|]|].
  - apply (step_free _ _ 1 sample_block 128 6); [vm_compute; reflexivity..|]. apply request_some. vm_compute. reflexivity.
  - apply (step_free _ _ 2 (sample_block + 128) 100 6); [vm_compute; reflexivity..|]. apply request_some. vm_compute. reflexivity.
  - apply (step_exit _ _ 1), request_some. vm_compute. reflexivity.
  - apply (step_exit _ _ 2), request_some. vm_compute. reflexivity.
Qed.

Lemma pool_idle_witness :
  pool_reachable 4096 sample_mmap both_left /\ (forall c, span_list c (pool both_left) = []) /\
  (size (spans (page_cache (pool both_left))) = 2)%nat.
Proof.
  split; [exact both_left_reachable|]. split; [|vm_compute; reflexivity].
  apply (pool_idle 4096 sample_mmap both_left ltac:(lia) sample_mmap_sound both_left_reachable);
    vm_compute; reflexivity.
Defined.
End PoolThreads.
