(* ===== verification/ThreadPool.v ===== *)
(** * The thread pool: base/thread_pool.h, base/thread_pool.cpp

    Worker threads, the threads that submit and the thread that stops the pool
    interleave at the points where they take the mutex, access an atomic or call the
    condition variable. A task is the number of its submission; running task [i]
    ends with [body i]: the value it returns or the exception it throws, which goes
    to its promise. *)

From S2P Require Import Prelude Base.
From stdpp Require Import options.

Module ThreadPool.

(** Where a worker is in [worker_loop] and [take_task]. *)
Inductive worker :=
  | Testing            (** about to test the condition of the wait, under the mutex *)
  | Blocked            (** in the condition variable *)
  | Taken (task : nat) (** the task is out of the queue *)
  | Running (task : nat)
  | Ending             (** before [active_threads_.fetch_sub] *)
  | Exited.

#[export] Instance worker_eq_dec : EqDecision worker.
Proof. solve_decision. Defined.

Section thread_pool.
(** What a task ends with. *)
Context {V : Type} (body : nat -> V + V).

Record ThreadPool := mkThreadPool {
  threads_ : list worker;
  tasks_ : list nat;
  stop_ : bool;
  active_threads_ : Z;
  submitted_tasks_ : nat;
  promises : gmap nat (V + V);      (** promises that have a value or an exception *)
  notifying : nat;                  (** calls of [submit] before [notify_one] *)
  stopping : bool                   (** [stop] between the flag and [notify_all] *)
}.

Definition new_pool (num_threads : nat) : ThreadPool :=
  mkThreadPool (replicate (if (num_threads =? 0)%nat then 1%nat else num_threads) Testing) [] false 0 0 ∅ 0 false.

Definition with_worker (i : nat) (w : worker) (p : ThreadPool) : ThreadPool :=
  mkThreadPool (<[i := w]> (threads_ p)) (tasks_ p) (stop_ p) (active_threads_ p) (submitted_tasks_ p)
    (promises p) (notifying p) (stopping p).

(** [submit]: [None] for the exception, else the number of the task. *)
Definition submit (p : ThreadPool) : option nat * ThreadPool :=
  if stop_ p then (None, p)
  else
    let task := submitted_tasks_ p in
    (Some task, mkThreadPool (threads_ p) (tasks_ p ++ [task]) (stop_ p) (active_threads_ p) (S task)
                  (promises p) (S (notifying p)) (stopping p)).

Definition wake (w : worker) : worker := match w with Blocked => Testing | w => w end.

(** The condition of the wait, and what follows it. *)
Definition take_task (i : nat) (p : ThreadPool) : ThreadPool :=
  match tasks_ p with
  | task :: rest =>
      mkThreadPool (<[i := Taken task]> (threads_ p)) rest (stop_ p) (active_threads_ p) (submitted_tasks_ p)
        (promises p) (notifying p) (stopping p)
  | [] => with_worker i (if stop_ p then Exited else Blocked) p
  end.

(** What the threads of the pool, and calls already under way, do next. *)
Inductive action :=
  | Step (i : nat)                      (** worker [i] goes on *)
  | NotifyOne (choice : option nat)     (** the end of [submit] *)
  | NotifyAll.                          (** the rest of [stop] *)

Definition worker_step (i : nat) (p : ThreadPool) : option ThreadPool :=
  w ← threads_ p !! i;
  match w with
  | Testing => Some (take_task i p)
  | Taken task =>
      Some (mkThreadPool (<[i := Running task]> (threads_ p)) (tasks_ p) (stop_ p) (active_threads_ p + 1)
              (submitted_tasks_ p) (promises p) (notifying p) (stopping p))
  | Running task =>
      Some (mkThreadPool (<[i := Ending]> (threads_ p)) (tasks_ p) (stop_ p) (active_threads_ p)
              (submitted_tasks_ p) (<[task := body task]> (promises p)) (notifying p) (stopping p))
  | Ending =>
      Some (mkThreadPool (<[i := Testing]> (threads_ p)) (tasks_ p) (stop_ p) (active_threads_ p - 1)
              (submitted_tasks_ p) (promises p) (notifying p) (stopping p))
  | Blocked | Exited => None
  end.

(** [notify_one] wakes a blocked worker of the scheduler's choice, if there is one. *)
Definition notify_one (choice : option nat) (p : ThreadPool) : option ThreadPool :=
  match notifying p with
  | O => None
  | S n =>
      let p := mkThreadPool (threads_ p) (tasks_ p) (stop_ p) (active_threads_ p) (submitted_tasks_ p)
                 (promises p) n (stopping p) in
      match choice with
      | Some i => match threads_ p !! i with Some Blocked => Some (with_worker i Testing p) | _ => None end
      | None => if decide (Blocked ∈ threads_ p) then None else Some p
      end
  end.

Definition notify_all (p : ThreadPool) : option ThreadPool :=
  if stopping p then
    Some (mkThreadPool (wake <$> threads_ p) (tasks_ p) (stop_ p) (active_threads_ p) (submitted_tasks_ p)
            (promises p) (notifying p) false)
  else None.

Definition act (a : action) (p : ThreadPool) : option ThreadPool :=
  match a with
  | Step i => worker_step i p
  | NotifyOne choice => notify_one choice p
  | NotifyAll => notify_all p
  end.

(** [stop]: only the call that sets the flag notifies. *)
Definition set_stop (p : ThreadPool) : ThreadPool :=
  if stop_ p then p
  else mkThreadPool (threads_ p) (tasks_ p) true (active_threads_ p) (submitted_tasks_ p) (promises p) (notifying p) true.

(** [join] of all threads returns. *)
Definition joined (p : ThreadPool) : bool := forallb (fun w => match w with Exited => true | _ => false end) (threads_ p).

Definition queue_size (p : ThreadPool) : nat := length (tasks_ p).
Definition num_threads (p : ThreadPool) : nat := length (threads_ p).

(** Everything that can happen; a blocked worker may also wake up by itself. *)
Inductive event := Submit | SetStop | Act (a : action) | Spurious (i : nat).

Definition pool_event (e : event) (p : ThreadPool) : option ThreadPool :=
  match e with
  | Submit => Some (submit p).2
  | SetStop => Some (set_stop p)
  | Act a => act a p
  | Spurious i => match threads_ p !! i with Some Blocked => Some (with_worker i Testing p) | _ => None end
  end.

Definition events (es : list event) (p : ThreadPool) : option ThreadPool :=
  foldl (fun p e => p ≫= pool_event e) (Some p) es.

Definition pool_reachable (n : nat) (p : ThreadPool) : Prop := exists es, events es (new_pool n) = Some p.

(** ** Counting workers *)

Definition weigh (f : worker -> nat) (l : list worker) : nat := sum_list_with f l.

Lemma weigh_insert f i w v l : l !! i = Some v -> (weigh f (<[i := w]> l) + f v = weigh f l + f w)%nat.
Proof.
  unfold weigh. revert i. induction l as [|u l IH]; intros [|i]; [done|done|intros [= ->]; cbn; lia|].
  intros Hi. specialize (IH i Hi). change (<[S i := w]> (u :: l)) with (u :: <[i := w]> l). cbn [sum_list_with]. lia.
Qed.

Lemma weigh_fmap f g l : weigh f (g <$> l) = weigh (f ∘ g) l.
Proof. unfold weigh. induction l as [|u l IH]; cbn; [done|]. by rewrite IH. Qed.

Lemma weigh_ext f g l : (forall w, f w = g w) -> weigh f l = weigh g l.
Proof. intros H. unfold weigh. induction l as [|u l IH]; cbn; [done|]. by rewrite IH, H. Qed.

Lemma weigh_le f g l : (forall w, (f w <= g w)%nat) -> (weigh f l <= weigh g l)%nat.
Proof. intros H. unfold weigh. induction l as [|u l IH]; cbn; [lia|]. specialize (H u). lia. Qed.

Lemma weigh_member f i w l : l !! i = Some w -> (f w <= weigh f l)%nat.
Proof.
  unfold weigh. revert i. induction l as [|u l IH]; intros [|i]; cbn; [done|done|intros [= ->]; lia|].
  intros Hi. specialize (IH i Hi). lia.
Qed.

Lemma weigh_add f g l : weigh (fun w => f w + g w)%nat l = (weigh f l + weigh g l)%nat.
Proof. unfold weigh. induction l as [|u l IH]; cbn; [done|]. rewrite IH. lia. Qed.

Lemma weigh_zero f l : (forall w, w ∈ l -> f w = 0%nat) -> weigh f l = 0%nat.
Proof.
  unfold weigh. induction l as [|u l IH]; intros H; cbn; [done|]. rewrite IH, (H u); [done|left|].
  intros w Hw. apply H. by right.
Qed.

Definition is_testing (w : worker) : nat := match w with Testing => 1 | _ => 0 end.
Definition is_blocked (w : worker) : nat := match w with Blocked => 1 | _ => 0 end.
Definition is_active (w : worker) : nat := match w with Running _ | Ending => 1 | _ => 0 end.
Definition has_task (w : worker) : list nat := match w with Taken t | Running t => [t] | _ => [] end.
Definition holds_task (t : nat) (w : worker) : nat := if decide (t ∈ has_task w) then 1 else 0.

(** ** The invariant *)

Definition fulfilled (t : nat) (p : ThreadPool) : nat := match promises p !! t with Some _ => 1 | None => 0 end.

Record pool_inv (p : ThreadPool) : Prop := {
  (** the tasks not taken yet, in order *)
  pi_queue : tasks_ p = seq (submitted_tasks_ p - length (tasks_ p)) (length (tasks_ p));
  pi_fits : (length (tasks_ p) <= submitted_tasks_ p)%nat;
  (** a task that was taken is at one worker or done *)
  pi_once : forall t, (weigh (holds_task t) (threads_ p) + fulfilled t p =
    if decide (t < submitted_tasks_ p - length (tasks_ p))%nat then 1 else 0)%nat;
  pi_promise : forall t r, promises p !! t = Some r -> r = body t;
  pi_active : active_threads_ p = Z.of_nat (weigh is_active (threads_ p));
  (** while a worker is blocked, every queued task has a wake-up under way *)
  pi_wake : (0 < weigh is_blocked (threads_ p))%nat ->
    (length (tasks_ p) <= notifying p + weigh is_testing (threads_ p))%nat;
  pi_stop : stop_ p = true -> (0 < weigh is_blocked (threads_ p))%nat -> stopping p = true;
  pi_stopping : stopping p = true -> stop_ p = true;
  pi_exit : Exited ∈ threads_ p -> stop_ p = true /\ tasks_ p = []
}.

Lemma weigh_replicate f n w : f w = 0%nat -> weigh f (replicate n w) = 0%nat.
Proof. intros H. apply weigh_zero. intros v Hv. apply elem_of_replicate in Hv as [-> _]. done. Qed.

Lemma new_pool_inv n : pool_inv (new_pool n).
Proof.
  split; cbn; try done.
  - intros t. rewrite weigh_replicate by done. unfold fulfilled. cbn. rewrite lookup_empty.
    rewrite decide_False by lia. done.
  - by rewrite weigh_replicate.
  - rewrite weigh_replicate by done. lia.
  - intros [? _]%elem_of_replicate. done.
Qed.

Lemma elem_of_insert_worker w i v (l : list worker) : w ∈ <[i := v]> l -> w = v \/ w ∈ l.
Proof.
  intros (j & Hj)%list_elem_of_lookup. destruct (decide (j = i)) as [->|Hne].
  - destruct (decide (i < length l)%nat).
    + rewrite list_lookup_insert_eq in Hj by done. left. congruence.
    + rewrite list_insert_ge in Hj by lia. right. by eapply list_elem_of_lookup_2.
  - rewrite list_lookup_insert_ne in Hj by done. right. by eapply list_elem_of_lookup_2.
Qed.

(** A worker that moves on with the queue as it is. *)
Lemma move_inv p i v w active done :
  pool_inv p -> threads_ p !! i = Some v -> v <> Blocked -> v <> Testing -> w <> Blocked -> w <> Exited ->
  (Z.of_nat (is_active w) - Z.of_nat (is_active v) = active - active_threads_ p) ->
  (forall t, (holds_task t w + match done !! t with Some _ => 1 | None => 0 end =
     holds_task t v + fulfilled t p)%nat) ->
  (forall t r, done !! t = Some r -> r = body t) ->
  pool_inv (mkThreadPool (<[i := w]> (threads_ p)) (tasks_ p) (stop_ p) active (submitted_tasks_ p) done
              (notifying p) (stopping p)).
Proof.
  intros [H1 H2 H3 H4 H5 H6 H7 H8 H9] Hi Hvb Hvt Hwb Hwe Hact Hdone Hbody.
  pose proof (fun f => weigh_insert f i w v (threads_ p) Hi) as Hw.
  assert (weigh is_blocked (<[i := w]> (threads_ p)) = weigh is_blocked (threads_ p)) as Hb.
  { specialize (Hw is_blocked). destruct v, w; cbn in Hw; try done; lia. }
  assert (weigh is_testing (threads_ p) <= weigh is_testing (<[i := w]> (threads_ p)))%nat as Ht.
  { specialize (Hw is_testing). destruct v; cbn in Hw; try done; lia. }
  split; cbn [threads_ tasks_ stop_ active_threads_ submitted_tasks_ promises notifying stopping]; try done.
  - intros t. specialize (Hw (holds_task t)). specialize (H3 t). specialize (Hdone t). unfold fulfilled in *. cbn [promises].
    rewrite <- H3. lia.
  - specialize (Hw is_active). lia.
  - rewrite Hb. intros Hp. specialize (H6 Hp). lia.
  - rewrite Hb. done.
  - intros [He|He]%elem_of_insert_worker; [congruence|auto].
Qed.

Lemma holds_task_idle t w : has_task w = [] -> holds_task t w = 0%nat.
Proof. unfold holds_task. intros ->. by rewrite decide_False by apply not_elem_of_nil. Qed.

Lemma holds_task_one t u w : has_task w = [u] -> holds_task t w = if decide (t = u) then 1%nat else 0%nat.
Proof.
  unfold holds_task. intros ->. destruct (decide (t = u)) as [->|]; [by rewrite decide_True by left|].
  rewrite decide_False; [done|]. by rewrite list_elem_of_singleton.
Qed.

Lemma take_task_inv p i : pool_inv p -> threads_ p !! i = Some Testing -> pool_inv (take_task i p).
Proof.
  intros [H1 H2 H3 H4 H5 H6 H7 H8 H9] Hi. unfold take_task.
  destruct (tasks_ p) as [|u rest] eqn:Et.
  - pose proof (fun f => weigh_insert f i (if stop_ p then Exited else Blocked) Testing (threads_ p) Hi) as Hw.
    set (w := if stop_ p then Exited else Blocked) in *.
    assert (has_task w = []) as Hwt by (unfold w; by destruct (stop_ p)).
    split; cbn [with_worker threads_ tasks_ stop_ active_threads_ submitted_tasks_ promises notifying stopping]; rewrite ?Et; try done.
    + intros t. specialize (Hw (holds_task t)). rewrite (holds_task_idle t w), (holds_task_idle t Testing) in Hw by done.
      rewrite <- H3. cbn [fulfilled promises]. unfold fulfilled. cbn [promises with_worker]. lia.
    + specialize (Hw is_active). assert (is_active w = 0%nat) by (unfold w; by destruct (stop_ p)). cbn in Hw. lia.
    + cbn. lia.
    + intros Hs. unfold w in *. rewrite Hs in *. specialize (Hw is_blocked). cbn in Hw. intros Hb. apply H7; [done|lia].
    + intros [He|He]%elem_of_insert_worker; [|by apply H9]. unfold w in He. by destruct (stop_ p).
  - pose proof (fun f => weigh_insert f i (Taken u) Testing (threads_ p) Hi) as Hw.
    cbn [length seq] in *. injection H1 as Hu Hrest.
    split; cbn [threads_ tasks_ stop_ active_threads_ submitted_tasks_ promises notifying stopping]; try done; try lia.
    + replace (submitted_tasks_ p - length rest)%nat with (S (submitted_tasks_ p - S (length rest))) by lia. done.
    + intros t. specialize (Hw (holds_task t)). rewrite (holds_task_one t u (Taken u)), (holds_task_idle t Testing) in Hw by done.
      specialize (H3 t). unfold fulfilled in *. cbn [promises].
      destruct (decide (t = u)) as [->|Hne]; repeat case_decide; lia.
    + specialize (Hw is_active). cbn in Hw. lia.
    + intros Hb. pose proof (Hw is_blocked). pose proof (Hw is_testing). cbn in *. lia.
    + intros Hs Hb. specialize (Hw is_blocked). cbn in Hw. apply H7; [done|lia].
    + intros [He|He]%elem_of_insert_worker; [done|]. by destruct (H9 He).
Qed.

Lemma worker_step_inv p i p' : pool_inv p -> worker_step i p = Some p' -> pool_inv p'.
Proof.
  intros Hok. unfold worker_step. destruct (threads_ p !! i) as [w|] eqn:Hi; [|done]. cbn [mbind option_bind].
  pose proof (pi_promise _ Hok) as Hbody.
  destruct w as [| |u|u| |]; try done; intros [= <-].
  - by apply take_task_inv.
  - apply (move_inv p i (Taken u) (Running u)); try done; cbn; lia.
  - apply (move_inv p i (Running u) Ending); try done; cbn; try lia.
    + intros t. rewrite (holds_task_idle t Ending), (holds_task_one t u (Running u)) by done.
      pose proof (pi_once _ Hok t) as Honce. pose proof (weigh_member (holds_task t) i _ _ Hi) as Hm.
      rewrite (holds_task_one t u (Running u)) in Hm by done. unfold fulfilled in *.
      destruct (decide (t = u)) as [->|Hne]; [rewrite lookup_insert_eq|by rewrite lookup_insert_ne].
      destruct (promises p !! u); [|done]. case_decide; lia.
    + intros t r. destruct (decide (t = u)) as [->|]; [rewrite lookup_insert_eq; by intros [= <-]|].
      rewrite lookup_insert_ne by done. apply Hbody.
  - apply (move_inv p i Ending Testing); try done; cbn; lia.
Qed.

(** A blocked worker wakes up. *)
Lemma wake_inv p i n :
  pool_inv p -> threads_ p !! i = Some Blocked -> (notifying p <= S n)%nat ->
  pool_inv (mkThreadPool (<[i := Testing]> (threads_ p)) (tasks_ p) (stop_ p) (active_threads_ p) (submitted_tasks_ p)
              (promises p) n (stopping p)).
Proof.
  intros [H1 H2 H3 H4 H5 H6 H7 H8 H9] Hi Hn.
  pose proof (fun f => weigh_insert f i Testing Blocked (threads_ p) Hi) as Hw.
  pose proof (weigh_member is_blocked i _ _ Hi) as Hm. cbn in Hm.
  split; cbn [threads_ tasks_ stop_ active_threads_ submitted_tasks_ promises notifying stopping]; try done.
  - intros t. specialize (Hw (holds_task t)). rewrite !holds_task_idle in Hw by done. unfold fulfilled in *. cbn [promises].
    rewrite <- H3. lia.
  - specialize (Hw is_active). cbn in Hw. lia.
  - intros _. specialize (H6 ltac:(lia)). specialize (Hw is_testing). cbn in Hw. lia.
  - intros Hs _. apply H7; [done|lia].
  - intros [He|He]%elem_of_insert_worker; [done|auto].
Qed.

Lemma act_inv a p p' : pool_inv p -> act a p = Some p' -> pool_inv p'.
Proof.
  intros Hok. destruct a as [i|choice|]; cbn [act].
  - by apply worker_step_inv.
  - unfold notify_one. destruct (notifying p) as [|n] eqn:En; [done|]. cbn [threads_]. destruct choice as [i|].
    + destruct (threads_ p !! i) as [[]|] eqn:Hi; try done. intros [= <-]. apply (wake_inv p i n); [done|done|lia].
    + destruct (decide (Blocked ∈ threads_ p)) as [|Hnb]; [done|]. intros [= <-].
      destruct Hok as [H1 H2 H3 H4 H5 H6 H7 H8 H9]. split; try done. cbn [threads_]. intros Hb. exfalso.
      assert (weigh is_blocked (threads_ p) = 0%nat); [|lia]. apply weigh_zero. intros [] Hw; [done|by destruct Hnb|done..].
  - unfold notify_all. destruct (stopping p) eqn:Es; [|done]. intros [= <-].
    destruct Hok as [H1 H2 H3 H4 H5 H6 H7 H8 H9].
    assert (weigh is_blocked (wake <$> threads_ p) = 0%nat) as Hb.
    { apply weigh_zero. intros w (v & -> & _)%list_elem_of_fmap. by destruct v. }
    split; cbn [threads_ tasks_ stop_ active_threads_ submitted_tasks_ promises notifying stopping]; try done; rewrite ?Hb; try lia.
    + intros t. rewrite <- H3. unfold fulfilled. cbn [promises]. f_equal. rewrite weigh_fmap.
      apply weigh_ext. intros w. by destruct w.
    + rewrite H5. f_equal. rewrite weigh_fmap. apply weigh_ext. intros w. by destruct w.
    + intros (v & Hv & He)%list_elem_of_fmap. apply H9. by destruct v.
Qed.

Lemma pool_event_inv e p p' : pool_inv p -> pool_event e p = Some p' -> pool_inv p'.
Proof.
  intros Hok. destruct e as [| |a|i]; cbn [pool_event].
  - unfold submit. destruct (stop_ p) eqn:Es; cbn; intros [= <-]; [done|].
    destruct Hok as [H1 H2 H3 H4 H5 H6 H7 H8 H9].
    split; cbn [threads_ tasks_ stop_ active_threads_ submitted_tasks_ promises notifying stopping]; try done;
      rewrite ?length_app; cbn [length]; try lia.
    + rewrite H1 at 1. rewrite seq_app. f_equal; [f_equal; lia|]. cbn. f_equal. lia.
    + intros t. unfold fulfilled in *. cbn [promises]. rewrite H3. repeat case_decide; lia.
    + intros Hs. rewrite (H8 Hs) in Es. done.
    + intros He. destruct (H9 He). congruence.
  - unfold set_stop. destruct (stop_ p) eqn:Es; intros [= <-]; [done|].
    destruct Hok as [H1 H2 H3 H4 H5 H6 H7 H8 H9]. split; try done. intros He. destruct (H9 He). congruence.
  - by apply act_inv.
  - destruct (threads_ p !! i) as [[]|] eqn:Hi; try done. intros [= <-]. apply (wake_inv p i (notifying p)); [done|done|lia].
Qed.

Lemma pool_reachable_inv n p : pool_reachable n p -> pool_inv p.
Proof.
  intros [es Hes]. revert p Hes. induction es as [|e es IH] using rev_ind; intros p Hes.
  - injection Hes as <-. apply new_pool_inv.
  - unfold events in *. rewrite foldl_snoc in Hes. destruct (foldl _ _ es) as [p0|]; [|done].
    apply (pool_event_inv e p0); [|done]. by apply IH.
Qed.

(** ** Progress

    How many steps the threads can still take by themselves. *)
Definition weight (w : worker) : nat :=
  match w with Testing => 1 | Blocked => 0 | Taken _ => 4 | Running _ => 3 | Ending => 2 | Exited => 0 end.

Definition steps_left (p : ThreadPool) : nat :=
  (weigh weight (threads_ p) + 4 * length (tasks_ p) + 2 * notifying p +
   if stopping p then S (length (threads_ p)) else 0)%nat.

Lemma act_decreases a p p' : act a p = Some p' -> (steps_left p' < steps_left p)%nat.
Proof.
  unfold steps_left. destruct a as [i|choice|]; cbn [act].
  - unfold worker_step. destruct (threads_ p !! i) as [w|] eqn:Hi; [|done]. cbn [mbind option_bind].
    pose proof (fun v => weigh_insert weight i v w (threads_ p) Hi) as Hw.
    destruct w as [| |u|u| |]; try done; intros [= <-]; cbn [threads_ tasks_ notifying stopping].
    + unfold take_task. destruct (tasks_ p) as [|u rest] eqn:Et; cbn [with_worker threads_ tasks_ notifying stopping];
        rewrite ?Et, length_insert; cbn [length].
      * specialize (Hw (if stop_ p then Exited else Blocked)). destruct (stop_ p), (stopping p); cbn [weight] in Hw; lia.
      * specialize (Hw (Taken u)). destruct (stopping p); cbn [weight] in Hw; lia.
    + specialize (Hw (Running u)). rewrite length_insert. destruct (stopping p); cbn [weight] in Hw; lia.
    + specialize (Hw Ending). rewrite length_insert. destruct (stopping p); cbn [weight] in Hw; lia.
    + specialize (Hw Testing). rewrite length_insert. destruct (stopping p); cbn [weight] in Hw; lia.
  - unfold notify_one. destruct (notifying p) as [|n] eqn:En; [done|]. cbn [threads_]. destruct choice as [i|].
    + destruct (threads_ p !! i) as [[]|] eqn:Hi; try done. intros [= <-]. cbn [with_worker threads_ tasks_ notifying stopping].
      pose proof (weigh_insert weight i Testing Blocked (threads_ p) Hi) as Hw. rewrite length_insert.
      destruct (stopping p); cbn [weight] in Hw; lia.
    + case_decide; [done|]. intros [= <-]. cbn [threads_ tasks_ notifying stopping]. destruct (stopping p); lia.
  - unfold notify_all. destruct (stopping p) eqn:Es; [|done]. intros [= <-]. cbn [threads_ tasks_ notifying stopping].
    enough (weigh weight (wake <$> threads_ p) <= weigh weight (threads_ p) + length (threads_ p))%nat by lia.
    rewrite weigh_fmap. unfold weigh. induction (threads_ p) as [|w l IH]; cbn; [lia|]. destruct w; cbn; lia.
Qed.

Definition acts (l : list action) (p : ThreadPool) : option ThreadPool := foldl (fun p a => p ≫= act a) (Some p) l.

Lemma acts_bound l p p' : acts l p = Some p' -> (length l + steps_left p' <= steps_left p)%nat.
Proof.
  revert p'. induction l as [|a l IH] using rev_ind; intros p'; [intros [= ->]; cbn; lia|].
  unfold acts. rewrite foldl_snoc. destruct (foldl _ _ l) as [q|] eqn:E; [|done]. cbn [mbind option_bind].
  intros Ha%act_decreases. specialize (IH q E). rewrite length_app. cbn. lia.
Qed.

(** When nothing moves, everything is done. *)
Lemma quiet_done p :
  pool_inv p -> threads_ p <> [] -> (forall a, act a p = None) ->
  tasks_ p = [] /\ notifying p = 0%nat /\ (forall t, (t < submitted_tasks_ p)%nat -> promises p !! t = Some (body t)) /\
  active_threads_ p = 0 /\ (stop_ p = true -> joined p = true).
Proof.
  intros Hok Hne Hq.
  assert (forall w, w ∈ threads_ p -> w = Blocked \/ w = Exited) as Hw.
  { intros w (i & Hi)%list_elem_of_lookup. specialize (Hq (Step i)). cbn [act] in Hq. unfold worker_step in Hq.
    rewrite Hi in Hq. cbn in Hq. destruct w; auto; done. }
  assert (notifying p = 0%nat) as Hn.
  { destruct (notifying p) as [|n] eqn:En; [done|]. exfalso.
    destruct (decide (Blocked ∈ threads_ p)) as [Hb|Hb].
    - apply list_elem_of_lookup in Hb as [i Hi]. specialize (Hq (NotifyOne (Some i))). cbn [act] in Hq. unfold notify_one in Hq.
      rewrite En in Hq. cbn [threads_] in Hq. by rewrite Hi in Hq.
    - specialize (Hq (NotifyOne None)). cbn [act] in Hq. unfold notify_one in Hq. rewrite En in Hq. cbn [threads_] in Hq.
      by rewrite decide_False in Hq. }
  assert (stopping p = false) as Hs.
  { specialize (Hq NotifyAll). cbn [act] in Hq. unfold notify_all in Hq. by destruct (stopping p). }
  assert (weigh is_testing (threads_ p) = 0%nat) as Ht by (apply weigh_zero; intros w [-> | ->]%Hw; done).
  assert (forall t, weigh (holds_task t) (threads_ p) = 0%nat) as Hh
    by (intros t; apply weigh_zero; intros w [-> | ->]%Hw; by apply holds_task_idle).
  assert (tasks_ p = []) as Htasks.
  { destruct (decide (Blocked ∈ threads_ p)) as [Hb|Hb].
    - apply list_elem_of_lookup in Hb as [i Hi]. pose proof (weigh_member is_blocked i _ _ Hi) as Hm. cbn in Hm.
      pose proof (pi_wake _ Hok ltac:(lia)). destruct (tasks_ p); [done|]. cbn in *. lia.
    - destruct (threads_ p) as [|w l] eqn:El; [done|]. apply (pi_exit _ Hok). rewrite El.
      destruct (Hw w ltac:(left)) as [->| ->]; [destruct Hb; left|left]. }
  split_and!; [done|done| | |].
  - intros t Hlt. pose proof (pi_once _ Hok t) as Ho. rewrite Hh, Htasks in Ho. cbn in Ho. rewrite decide_True in Ho by lia.
    unfold fulfilled in Ho. destruct (promises p !! t) as [r|] eqn:E; [|done]. by rewrite (pi_promise _ Hok t r E).
  - rewrite (pi_active _ Hok). rewrite weigh_zero; [done|]. intros w [-> | ->]%Hw; done.
  - intros Hstop. unfold joined. apply forallb_forall. intros w Hin%list_elem_of_In. destruct (Hw w Hin) as [->| ->]; [|done].
    exfalso. apply list_elem_of_lookup in Hin as [i Hi]. pose proof (weigh_member is_blocked i _ _ Hi) as Hm. cbn in Hm.
    pose proof (pi_stop _ Hok Hstop ltac:(lia)). congruence.
Qed.

Lemma threads_event e p p' : pool_event e p = Some p' -> length (threads_ p') = length (threads_ p).
Proof.
  destruct e as [| |a|i]; cbn [pool_event].
  - intros [= <-]. unfold submit. by destruct (stop_ p).
  - intros [= <-]. unfold set_stop. by destruct (stop_ p).
  - destruct a as [i|choice|]; cbn [act].
    + unfold worker_step. destruct (threads_ p !! i) as [[]|]; cbn; try done; intros [= <-]; cbn; try apply length_insert.
      unfold take_task. destruct (tasks_ p); cbn; apply length_insert.
    + unfold notify_one. destruct (notifying p); [done|]. cbn. destruct choice as [i|].
      * destruct (threads_ p !! i) as [[]|]; try done. intros [= <-]. apply length_insert.
      * case_decide; [done|]. by intros [= <-].
    + unfold notify_all. destruct (stopping p); [|done]. intros [= <-]. apply length_fmap.
  - destruct (threads_ p !! i) as [[]|]; try done. intros [= <-]. apply length_insert.
Qed.

Lemma reachable_threads n p : pool_reachable n p -> num_threads p = Nat.max 1 n.
Proof.
  intros [es Hes]. revert p Hes. induction es as [|e es IH] using rev_ind; intros p Hes.
  - injection Hes as <-. unfold num_threads, new_pool. cbn. rewrite length_replicate. destruct (Nat.eqb_spec n 0); lia.
  - unfold events in *. rewrite foldl_snoc in Hes. destruct (foldl _ _ es) as [p0|]; [|done].
    unfold num_threads in *. rewrite (threads_event e p0 p Hes). by apply IH.
Qed.

Lemma acts_reachable n l p p' : pool_reachable n p -> acts l p = Some p' -> pool_reachable n p'.
Proof.
  intros [es Hes] Hl. exists (es ++ (Act <$> l)). unfold events in *. rewrite foldl_app, Hes. clear Hes.
  revert p Hl. unfold acts. induction l as [|a l IH]; intros p; [done|]. cbn [foldl fmap list_fmap mbind option_bind].
  change (pool_event (Act a) p) with (act a p). destruct (act a p) as [q|] eqn:E; [apply IH|].
  intros Hl. exfalso. clear -Hl. induction l as [|b l IH]; [done|]. by apply IH.
Qed.

(** C34: Whatever the interleaving of submitting threads, workers and [stop], spurious
    wake-ups included: tasks are taken in the order of submission; a submitted task is
    queued, at one worker, or done, and then its promise has what it returned or threw.
    Left to themselves the threads come to rest after a bounded number of steps; then
    every submitted task is done and, if the pool was stopped, [join] returns. Once
    stopped the pool takes no task. *)
Theorem thread_pool_correct n p :
  pool_reachable n p ->
  (exists k, tasks_ p = seq k (submitted_tasks_ p - k)) /\
  (forall t, weigh (holds_task t) (threads_ p) + fulfilled t p + (if decide (t ∈ tasks_ p) then 1 else 0) =
     if decide (t < submitted_tasks_ p) then 1 else 0)%nat /\
  (forall t r, promises p !! t = Some r -> r = body t) /\
  (forall l p', acts l p = Some p' -> (length l <= steps_left p)%nat /\
     ((forall a, act a p' = None) ->
        (forall t, (t < submitted_tasks_ p')%nat -> promises p' !! t = Some (body t)) /\
        (stop_ p' = true -> joined p' = true))) /\
  (stop_ p = true -> submit p = (None, p)).
Proof.
  intros Hr. pose proof (pool_reachable_inv n p Hr) as Hok. pose proof (pi_queue _ Hok) as Hq. pose proof (pi_fits _ Hok) as Hf.
  split_and!.
  - exists (submitted_tasks_ p - length (tasks_ p))%nat. rewrite Hq at 1. f_equal. lia.
  - intros t. rewrite (pi_once _ Hok t).
    assert (t ∈ tasks_ p <-> (submitted_tasks_ p - length (tasks_ p) <= t < submitted_tasks_ p)%nat) as Hin.
    { rewrite Hq at 1. rewrite elem_of_seq. lia. }
    destruct (decide (t ∈ tasks_ p)) as [Ht%Hin|Ht]; [|rewrite Hin in Ht]; repeat case_decide; lia.
  - apply (pi_promise _ Hok).
  - intros l p' Hl. pose proof (acts_bound l p p' Hl). split; [lia|]. intros Hquiet.
    pose proof (acts_reachable n l p p' Hr Hl) as Hr'. pose proof (reachable_threads n p' Hr') as Hn.
    destruct (quiet_done p') as (_ & _ & ? & _ & ?); [by eapply pool_reachable_inv| |done|done].
    intros E. unfold num_threads in Hn. rewrite E in Hn. cbn in Hn. lia.
  - intros Hs. unfold submit. by rewrite Hs.
Qed.
End thread_pool.

(** Two workers, one task submitted and started, the pool stopped. *)
Definition sample_body (t : nat) : nat + nat := inl (S t).

Definition sample_run : list event :=
  [Submit; Act (Step 1); Act (Step 0); Act (NotifyOne (Some 0%nat)); SetStop; Act (Step 1)].

Lemma thread_pool_correct_witness :
  exists p, pool_reachable sample_body 2 p /\ tasks_ p = [] /\ stop_ p = true /\ submit p = (None, p).
Proof.
  destruct (events sample_body sample_run (new_pool 2)) as [p|] eqn:E; [|exfalso; vm_compute in E; discriminate E].
  exists p. assert (pool_reachable sample_body 2 p) as Hr by (exists sample_run; exact E).
  assert (tasks_ <$> Some p = Some [] /\ stop_ <$> Some p = Some true) as [Ht Hs]
    by (rewrite <- E; split; vm_compute; reflexivity).
  injection Ht as Ht. injection Hs as Hs. split; [exact Hr|]. split; [exact Ht|]. split; [exact Hs|].
  destruct (thread_pool_correct sample_body 2 p Hr) as (_ & _ & _ & _ & H). exact (H Hs).
Defined.
End ThreadPool.
