(* ===== verification/Background.v ===== *)
(** * Background threads: cache/expiration_checker.cpp, persistence/rdb_scheduler.cpp

    The thread that deletes expired keys, the thread that starts snapshots, and the
    count of changes that the scheduler, SAVE and BGSAVE share. What the threads read
    of clocks, of [running_] and of random numbers are inputs. *)

From S2P Require Import Prelude Base Object ExpireDict Storage StorageSpec StorageProps.
From stdpp Require Import options.

Module Background.
Import Text Object Storage StorageSpec StorageProps.

(** ** ExpirationChecker *)

Definition kCheckIntervalMs : Z := 100.
Definition kMaxCheckDurationMs : Z := 25.

Section checker.
Context `{StringHash}.

(** What one round of the inner loop reads: [running_], the order in which it finds
    the keys with a deadline, its random draws, [running_] and the clock at each
    candidate, and the time since the cycle began. *)
Record round := mkRound {
  running_ : bool;
  order : list bytes;
  draws : rng;
  checks : nat -> bool * Z;
  elapsed : Z
}.

(** The loop over the candidates, from the [i]th on. *)
Fixpoint check_candidates (candidates : list bytes) (checks : nat -> bool * Z) (i deleted_count : nat) (s : Storage)
    : nat * Storage :=
  match candidates with
  | [] => (deleted_count, s)
  | key :: rest =>
      let '(running, now) := checks i in
      if negb running then (deleted_count, s)
      else if is_expired now key s then
        let '(deleted, s) := del key s in
        check_candidates rest checks (S i) (if deleted : bool then S deleted_count else deleted_count) s
      else check_candidates rest checks (S i) deleted_count s
  end.

(** One pass of the outer loop; [None] when it is still going on after these rounds. *)
Fixpoint check_cycle (rounds : list round) (checked_count deleted_count : nat) (s : Storage)
    : option (nat * nat * Storage) :=
  match rounds with
  | [] => None
  | r :: rounds =>
      if negb (running_ r) then Some (checked_count, deleted_count, s)
      else
        let candidates := ExpireDict.get_candidates 20 (draws r) (order r) in
        let checked_count := (checked_count + length candidates)%nat in
        match candidates with
        | [] => Some (checked_count, deleted_count, s)
        | _ =>
            let '(deleted_count, s) := check_candidates candidates (checks r) 0 deleted_count s in
            if kMaxCheckDurationMs <=? elapsed r then Some (checked_count, deleted_count, s)
            else check_cycle rounds checked_count deleted_count s
        end
  end.

(** The keys that [s'] misses are [ks]: they were expired, and nothing else changed. *)
Record swept (now : Z) (ks : list bytes) (s s' : Storage) : Prop := {
  sw_wf : storage_wf s';
  sw_nodup : NoDup ks;
  sw_expired : forall k, k ∈ ks -> is_Some (entry s k) /\ is_expired now k s = true;
  sw_entry : forall k, entry s' k = if decide (k ∈ ks) then None else entry s k;
  sw_live : forall k, live now s' k = live now s k;
  sw_deadline : forall k, deadline s' k = deadline s k \/ deadline s' k = None /\ is_expired now k s = true
}.

Lemma swept_refl now s : storage_wf s -> swept now [] s s.
Proof.
  intros Hwf. split; try done; [constructor|by intros k ?%elem_of_nil|].
  intros k. left. done.
Qed.

Lemma is_expired_mono t now k s : t <= now -> is_expired t k s = true -> is_expired now k s = true.
Proof.
  rewrite !is_expired_deadline. destruct (deadline s k) as [d|]; [|done]. intros Hle Hd%Z.leb_le. apply Z.leb_le. lia.
Qed.

Lemma entry_of_del k s k' : storage_wf s -> entry (del k s).2 k' = if decide (k' = k) then None else entry s k'.
Proof.
  intros Hwf. unfold del. cbn [snd]. destruct (bool_decide _); rewrite ?entry_increment_dirty, entry_erase by apply Hwf; done.
Qed.

Lemma deadline_del k s k' : deadline (del k s).2 k' = if decide (k' = k) then None else deadline s k'.
Proof.
  unfold del. cbn [snd]. destruct (bool_decide _); rewrite ?deadline_increment_dirty, deadline_erase; apply deadline_remove_expire.
Qed.

Lemma swept_del now t key ks s s1 :
  swept now ks s s1 -> t <= now -> is_expired t key s1 = true ->
  swept now (if (del key s1).1 then key :: ks else ks) s (del key s1).2.
Proof.
  intros [Hwf Hnd Hex Hen Hli Hde] Hle Ht. pose proof (is_expired_mono t now key s1 Hle Ht) as Hx.
  destruct (del_live now key s1 Hwf) as (Hwf2 & Hb & Hl2).
  assert (is_expired now key s = true) as Hxs.
  { destruct (Hde key) as [E|[E ?]]; [|done]. by rewrite is_expired_deadline, <-E, <-is_expired_deadline. }
  assert (live now s1 key = None) as Hnone.
  { unfold live. destruct (entry s1 key); [|done]. by rewrite Hx. }
  split; [done| | | | |].
  - rewrite Hb. case_bool_decide as He; [|done]. apply NoDup_cons. split; [|done]. intros Hin.
    rewrite Hen, decide_True in He by done. by destruct He.
  - rewrite Hb. case_bool_decide as He; [|done]. intros k [->|Hk]%elem_of_cons; [|auto]. split; [|done].
    rewrite Hen in He. case_decide; [by destruct He|done].
  - intros k. rewrite entry_of_del, Hb, Hen by done. case_bool_decide as He.
    + destruct (decide (k = key)) as [->|Hne]; [by rewrite (decide_True (P := key ∈ _)) by left|].
      assert (k ∈ key :: ks <-> k ∈ ks) as Hiff by (rewrite elem_of_cons; naive_solver).
      destruct (decide (k ∈ ks)) as [Hk|Hk]; [rewrite decide_True by tauto|rewrite decide_False by tauto]; done.
    + destruct (decide (k = key)) as [->|Hne]; [|done]. destruct (entry s1 key) eqn:E; [by destruct He|]. by rewrite <-Hen, E.
  - intros k. rewrite Hl2, <-Hli. unfold upd. destruct (decide (k = key)) as [->|]; [|done]. by rewrite Hnone.
  - intros k. rewrite deadline_del. destruct (decide (k = key)) as [->|]; [by right|apply Hde].
Qed.

Lemma check_candidates_swept now cs checks i n ks s s1 :
  swept now ks s s1 -> length ks = n -> (forall j, (checks j).2 <= now) ->
  exists ks', swept now ks' s (check_candidates cs checks i n s1).2 /\
    length ks' = (check_candidates cs checks i n s1).1.
Proof.
  intros Hsw Hn Hc. revert i n ks s1 Hsw Hn. induction cs as [|key cs IH]; intros i n ks s1 Hsw Hn; cbn [check_candidates]; [eauto|].
  destruct (checks i) as [running t] eqn:E. pose proof (Hc i) as Ht. rewrite E in Ht. cbn in Ht.
  destruct running; cbn [negb]; [|eauto]. destruct (is_expired t key s1) eqn:Hx; [|by apply (IH _ _ ks)].
  pose proof (swept_del now t key ks s s1 Hsw Ht Hx) as Hsw2. destruct (del key s1) as [b s2]. cbn [fst snd] in Hsw2.
  apply (IH _ _ _ _ Hsw2). destruct b; cbn; lia.
Qed.

Lemma check_cycle_swept now rounds c n ks s s1 c' n' s' :
  swept now ks s s1 -> length ks = n -> Forall (fun r => forall j, (checks r j).2 <= now) rounds ->
  check_cycle rounds c n s1 = Some (c', n', s') ->
  exists ks', swept now ks' s s' /\ length ks' = n'.
Proof.
  intros Hsw Hn Hr. revert c n ks s1 Hsw Hn. induction Hr as [|r rounds Hr _ IH]; intros c n ks s1 Hsw Hn; cbn [check_cycle]; [done|].
  destruct (running_ r); cbn [negb]; [|intros [= <- <- <-]; eauto].
  destruct (ExpireDict.get_candidates _ _ _) as [|k0 cs0]; [intros [= <- <- <-]; eauto|].
  destruct (check_candidates_swept now (k0 :: cs0) (checks r) 0 n ks s s1 Hsw Hn Hr) as (ks1 & Hsw1 & Hn1).
  destruct (check_candidates _ _ _ _ _) as [n1 s2]. cbn [fst snd] in *.
  destruct (_ <=? _); [intros [= <- <- <-]; eauto|]. by apply (IH _ _ ks1).
Qed.

(** The checker looks at the first candidates only when there are at most 80 keys. *)
Lemma few_candidates draw keys :
  (0 < length keys <= 80)%nat -> ExpireDict.get_candidates 20 draw keys = take 20 keys.
Proof.
  intros Hn. unfold ExpireDict.get_candidates. destruct (Nat.eqb_spec (length keys) 0); [lia|].
  destruct (Nat.leb_spec (length keys) (Nat.min 20 (length keys) * 4)); [|lia].
  destruct (decide (length keys <= 20)%nat); [|by rewrite Nat.min_l by lia].
  rewrite Nat.min_r by lia. by rewrite !take_ge by lia.
Qed.

(** A candidate that is expired is gone afterwards. *)
Lemma check_candidates_complete now cs checks i n s :
  storage_wf s -> (forall j, (checks j).1 = true /\ now <= (checks j).2) ->
  let s' := (check_candidates cs checks i n s).2 in
  storage_wf s' /\ (forall k, entry s k = None -> entry s' k = None) /\ (forall k, deadline s k = None -> deadline s' k = None) /\
  forall k, k ∈ cs -> is_expired now k s = true -> entry s' k = None /\ deadline s' k = None.
Proof.
  intros Hwf Hc. revert i n s Hwf. induction cs as [|key cs IH]; intros i n s Hwf; cbn [check_candidates].
  { split_and!; try done. by intros k ?%elem_of_nil. }
  destruct (checks i) as [running t] eqn:E. destruct (Hc i) as [Hrun Ht]. rewrite E in Hrun, Ht. cbn in Hrun, Ht. subst running. cbn [negb].
  destruct (is_expired t key s) eqn:Hx.
  - pose proof (del_live 0 key s Hwf) as (Hwf2 & _). pose proof (fun k => entry_of_del key s k Hwf) as Hen. pose proof (deadline_del key s) as Hde.
    destruct (del key s) as [b s2]. cbn [fst snd] in *.
    destruct (IH (S i) (if b then S n else n) s2 Hwf2) as (Hwf' & Hmono & Hmono' & Hall). split_and!; [done| | |].
    + intros k Hk. apply Hmono. rewrite Hen. by case_decide.
    + intros k Hk. apply Hmono'. rewrite Hde. by case_decide.
    + intros k Hin Hxk. destruct (decide (k = key)) as [->|Hne].
      * split; [apply Hmono|apply Hmono']; [rewrite Hen|rewrite Hde]; by rewrite decide_True.
      * apply elem_of_cons in Hin as [?|Hin]; [done|]. apply Hall; [done|].
        rewrite is_expired_deadline, Hde, decide_False by done. exact Hxk.
  - destruct (IH (S i) n s Hwf) as (Hwf' & Hmono & Hmono' & Hall). split_and!; try done. intros k [->|Hin]%elem_of_cons Hxk; [|auto].
    rewrite (is_expired_mono now t key s Ht Hxk) in Hx. done.
Qed.

(** Candidates that are not expired are left alone. *)
Lemma check_candidates_idle cs checks i n s :
  (forall k j, k ∈ cs -> is_expired (checks j).2 k s = false) -> check_candidates cs checks i n s = (n, s).
Proof.
  revert i. induction cs as [|key cs IH]; intros i Hc; cbn [check_candidates]; [done|].
  destruct (checks i) as [running t] eqn:E. destruct running; [|done]. cbn [negb].
  pose proof (Hc key i ltac:(left)) as Hx. rewrite E in Hx. cbn in Hx. rewrite Hx. apply IH. intros k j Hk. apply Hc. by right.
Qed.

Definition keys_of (d : gmap bytes Z) : list bytes := (map_to_list d).*1.

Lemma elem_of_keys_of k s : k ∈ keys_of (expire_dict_ s) <-> is_Some (deadline s k).
Proof.
  unfold keys_of, deadline. rewrite list_elem_of_fmap. split.
  - intros ([k' t] & -> & Hin%elem_of_map_to_list). by exists t.
  - intros [t Ht]. exists (k, t). split; [done|]. by apply elem_of_map_to_list.
Qed.
End checker.

(** A cycle of the expiration checker deletes keys that are expired and nothing
    else: whatever it reads of clocks, random numbers and [running_], every key visible
    at the end was and keeps its value and deadline, and [deleted_count] is the number
    of entries it removed. With at most 20 keys that have a deadline one round removes
    all that are expired. *)
Theorem expiry_cycle_correct `{StringHash} s :
  storage_wf s ->
  (forall now rounds c n s', Forall (fun r => forall j, (checks r j).2 <= now) rounds ->
     check_cycle rounds 0 0 s = Some (c, n, s') ->
     storage_wf s' /\ (forall k, live now s' k = live now s k) /\
     exists ks, NoDup ks /\ length ks = n /\
       (forall k, k ∈ ks -> is_Some (entry s k) /\ is_expired now k s = true) /\
       (forall k, entry s' k = if decide (k ∈ ks) then None else entry s k)) /\
  (forall t r, running_ r = true -> order r ≡ₚ keys_of (expire_dict_ s) -> (size (expire_dict_ s) <= 20)%nat ->
     (forall j, (checks r j).1 = true /\ t <= (checks r j).2) -> kMaxCheckDurationMs <= elapsed r ->
     exists c n s', check_cycle [r] 0 0 s = Some (c, n, s') /\
       forall k, is_expired t k s = true -> entry s' k = None /\ deadline s' k = None).
Proof.
  intros Hwf. split.
  - intros now rounds c n s' Hr Hc.
    destruct (check_cycle_swept now rounds 0 0 [] s s c n s' (swept_refl now s Hwf) eq_refl Hr Hc) as (ks & [] & Hn).
    split_and!; try done. exists ks. done.
  - intros t r Hrun Hord Hsz Hchk Hel. cbn [check_cycle]. rewrite Hrun. cbn [negb].
    assert (length (order r) <= 20)%nat as Hlen.
    { rewrite Hord. unfold keys_of. by rewrite length_fmap, length_map_to_list. }
    assert (forall k, is_expired t k s = true -> k ∈ order r) as Hin.
    { intros k Hk. rewrite Hord, elem_of_keys_of. rewrite is_expired_deadline in Hk. by destruct (deadline s k). }
    destruct (decide (length (order r) = 0)%nat) as [E|E].
    + apply nil_length_inv in E. rewrite E. cbn. eexists _, _, _. split; [done|]. intros k Hk%Hin. rewrite E in Hk.
      by apply not_elem_of_nil in Hk.
    + rewrite few_candidates by lia. rewrite take_ge by lia. destruct (order r) as [|k0 ks] eqn:Eo; [done|].
      destruct (check_candidates_complete t (k0 :: ks) (checks r) 0 0 s Hwf Hchk) as (_ & _ & _ & Hall).
      destruct (check_candidates _ _ _ _ _) as [n s']. cbn [snd] in Hall. rewrite (proj2 (Z.leb_le _ _) Hel).
      eexists _, _, _. split; [done|]. intros k Hk. apply Hall; [by apply Hin|done].
Qed.

(** A cycle over three keys, two of them expired. *)
Definition sample_store : Storage :=
  @set_with_expire_locked sum_hash 10 (lit "c") (object_of_string (lit "3")) 500
    (@set_with_expire_locked sum_hash 10 (lit "b") (object_of_string (lit "2")) 5
      (@set_with_expire_locked sum_hash 10 (lit "a") (object_of_string (lit "1")) 5 new_storage)).

Lemma sample_store_wf : @storage_wf sum_hash sample_store.
Proof.
  unfold sample_store. apply (@set_with_expire_live sum_hash); [|done]. apply (@set_with_expire_live sum_hash); [|done].
  apply (@set_with_expire_live sum_hash); [|done]. apply (@new_storage_wf sum_hash).
Qed.

Definition sample_round : round :=
  mkRound true (keys_of (expire_dict_ sample_store)) (fun n => n) (fun _ => (true, 20)) 30.

Lemma expiry_cycle_correct_witness :
  let h := sum_hash in
  exists c n s', check_cycle [sample_round] 0 0 sample_store = Some (c, n, s') /\
    entry s' (lit "a") = None /\ live 20 s' (lit "c") = live 20 sample_store (lit "c").
Proof.
  destruct (@expiry_cycle_correct sum_hash sample_store sample_store_wf) as [Hsafe Hall].
  destruct (Hall 20 sample_round eq_refl (Permutation_refl _)) as (c & n & s' & Hc & Hgone).
  - vm_compute. lia.
  - intros j. cbn. lia.
  - cbn. unfold kMaxCheckDurationMs. lia.
  - exists c, n, s'. split; [exact Hc|]. split; [apply (Hgone (lit "a")); vm_compute; reflexivity|].
    apply (Hsafe 20 [sample_round] c n s'); [|exact Hc]. constructor; [intros j; cbn; lia|constructor].
Defined.

(** With 21 to 80 keys that have a deadline the candidates are the first 20 of the
    iteration: while these live, no round deletes anything, whatever else is expired. *)
Theorem checker_starves `{StringHash} s r :
  (20 < length (order r) <= 80)%nat -> (forall k j, k ∈ take 20 (order r) -> is_expired (checks r j).2 k s = false) ->
  forall n c d, check_cycle (replicate n r) c d s = None \/ exists c', check_cycle (replicate n r) c d s = Some (c', d, s).
Proof.
  intros Hlen Hfirst n. induction n as [|n IH]; intros c d; [by left|]. cbn [replicate check_cycle].
  destruct (running_ r); cbn [negb]; [|right; eauto]. rewrite few_candidates by lia.
  destruct (take 20 (order r)) as [|k0 ks] eqn:E; [right; eauto|]. rewrite check_candidates_idle by done.
  destruct (_ <=? _); [right; eauto|]. apply IH.
Qed.

(** A value set between the test and the deletion is deleted. *)
Theorem checker_race `{StringHash} `{StoreOrder} now draw k v s :
  storage_wf s -> is_expired now k s = true ->
  let s1 := set now draw k v s in
  live now s1 k = Some (v, None) /\ live now (del k s1).2 k = None.
Proof.
  intros Hwf Hx. destruct (evict_if_needed_spec now draw s Hwf) as [Hwf1 _]. unfold set.
  destruct (set_live now k v _ Hwf1) as [Hwf2 Hl]. split.
  - rewrite Hl. by rewrite upd_same.
  - destruct (del_live now k _ Hwf2) as (_ & _ & Hd). rewrite Hd. by rewrite upd_same.
Qed.

(** ** RdbScheduler *)

Record SaveConfig := mkSaveConfig { interval_sec : Z; dirty_threshold : Z }.

Definition default_save_config : SaveConfig := mkSaveConfig 900 1.

(** The decision of one pass of [schedule_loop]; the threshold is an [int] that is
    compared as a [size_t]. *)
Definition should_save (config : SaveConfig) (elapsed current_dirty : Z) : bool :=
  (interval_sec config <=? elapsed) || (dirty_threshold config mod (uint64_max + 1) <=? current_dirty).

(** What a pass reads: the count of changes, the clock, and the clock after the save
    if it makes one. *)
Record pass := mkPass { p_dirty : Z; p_now : Z; p_after : Z }.

(** [last_save_time] after a pass, and whether it called [do_save]; times in seconds. *)
Definition schedule_pass (config : SaveConfig) (p : pass) (last_save_time : Z) : bool * Z :=
  if should_save config (p_now p - last_save_time) (p_dirty p) then (true, p_after p) else (false, last_save_time).

Definition schedule_loop (config : SaveConfig) (ps : list pass) (last_save_time : Z) : list bool * Z :=
  foldl (fun acc p => let '(b, t) := schedule_pass config p acc.2 in (acc.1 ++ [b], t)) ([], last_save_time) ps.

(** A pass that makes no save leaves less than the interval since the last attempt and
    fewer changes than the threshold. *)
Lemma schedule_pass_waits config p t :
  0 <= dirty_threshold config <= uint64_max -> (schedule_pass config p t).1 = false ->
  p_now p - t < interval_sec config /\ p_dirty p < dirty_threshold config.
Proof.
  intros Ht. unfold schedule_pass, should_save. rewrite Z.mod_small by lia.
  destruct (Z.leb_spec (interval_sec config) (p_now p - t)); [done|].
  destruct (Z.leb_spec (dirty_threshold config) (p_dirty p)); [done|]. done.
Qed.

(** ** The count of changes

    SAVE reads the count, makes a snapshot, and if that succeeds takes off what it read.
    BGSAVE and [do_save] read the count, start a thread that makes the snapshot, and if
    it could be started take off what they read, whenever the thread ends and however.
    [w] is how many changes there were when the count was read. *)
Inductive saver := Observed (n w : Z) | Answered (n w : Z) (ok : bool).

Record dirty_state := mkDirty {
  store : Storage;
  writes : Z;                (** changes so far *)
  covered : Z;               (** changes that the last snapshot has *)
  job : option Z;            (** the snapshot thread, for the changes up to [w] *)
  savers : gmap nat saver
}.

Definition new_dirty (s : Storage) : dirty_state := mkDirty (reset_dirty_count s) 0 0 None ∅.

Inductive dirty_event :=
  | Write
  | Observe (t : nat)
  | Save (t : nat) (ok : bool)            (** [save] returns *)
  | Start (t : nat)                       (** [save_in_background] returns *)
  | Consume (t : nat)
  | JobEnd (ok : bool).

Definition dirty_step (e : dirty_event) (d : dirty_state) : option dirty_state :=
  match e with
  | Write => Some (mkDirty (increment_dirty (store d)) (writes d + 1) (covered d) (job d) (savers d))
  | Observe t =>
      match savers d !! t with
      | None => Some (mkDirty (store d) (writes d) (covered d) (job d)
                        (<[t := Observed (dirty_counter_ (store d)) (writes d)]> (savers d)))
      | Some _ => None
      end
  | Save t ok =>
      match savers d !! t with
      | Some (Observed n w) =>
          Some (mkDirty (store d) (writes d) (if ok then writes d else covered d) (job d)
                  (<[t := Answered n w ok]> (savers d)))
      | _ => None
      end
  | Start t =>
      match savers d !! t with
      | Some (Observed n w) =>
          match job d with
          | None => Some (mkDirty (store d) (writes d) (covered d) (Some w) (<[t := Answered n w true]> (savers d)))
          | Some _ => Some (mkDirty (store d) (writes d) (covered d) (job d) (<[t := Answered n w false]> (savers d)))
          end
      | _ => None
      end
  | Consume t =>
      match savers d !! t with
      | Some (Answered n w ok) =>
          Some (mkDirty (if ok : bool then consume_dirty_count n (store d) else store d) (writes d) (covered d)
                  (job d) (delete t (savers d)))
      | _ => None
      end
  | JobEnd ok =>
      match job d with
      | Some _ => Some (mkDirty (store d) (writes d) (if ok then writes d else covered d) None (savers d))
      | None => None
      end
  end.

Definition dirty_run (es : list dirty_event) (d : dirty_state) : option dirty_state :=
  foldl (fun d e => d ≫= dirty_step e) (Some d) es.

(** A step in a run where no two callers overlap and no snapshot thread fails. *)
Definition orderly (e : dirty_event) (d : dirty_state) : Prop :=
  match e with Observe _ => size (savers d) = 0%nat | JobEnd ok => ok = true | _ => True end.

#[local] Instance orderly_dec e d : Decision (orderly e d).
Proof. destruct e; unfold orderly; apply _. Defined.

Inductive one_at_a_time (s : Storage) : dirty_state -> Prop :=
  | oat_new : one_at_a_time s (new_dirty s)
  | oat_step d e d' :
      one_at_a_time s d -> dirty_step e d = Some d' -> orderly e d -> one_at_a_time s d'.

(** A number of changes is safe: the last snapshot has them or the thread will. *)
Definition safe (d : dirty_state) (w : Z) : Prop := w <= covered d \/ exists w', job d = Some w' /\ w <= w'.

(** [upto]: the changes up to the reading of the last caller that took some off. *)
Definition saver_ok (d : dirty_state) (upto : Z) (v : saver) : Prop :=
  match v with
  | Observed n w => n = w - upto /\ upto <= w <= writes d
  | Answered n w ok => n = w - upto /\ upto <= w <= writes d /\ (ok = true -> safe d w)
  end.

Record dirty_ok (d : dirty_state) (upto : Z) : Prop := {
  do_count : dirty_counter_ (store d) = writes d - upto;
  do_upto : 0 <= upto <= writes d;
  do_covered : covered d <= writes d /\ (forall w, job d = Some w -> w <= writes d);
  do_safe : safe d upto;
  do_savers : map_Forall (fun _ v => saver_ok d upto v) (savers d);
  do_one : (size (savers d) <= 1)%nat
}.

Lemma single_saver (m : gmap nat saver) t v : (size m <= 1)%nat -> m !! t = Some v -> m = {[t := v]}.
Proof.
  intros Hs Ht. assert (delete t m = ∅) as E.
  { apply map_size_empty_iff. rewrite map_size_delete_Some by eauto. lia. }
  by rewrite <-(insert_delete_id m t v Ht), E, insert_empty.
Qed.

(** The one caller moves on to [v]; the changes that are safe stay safe. *)
Lemma dirty_ok_saver d d' upto t u v :
  dirty_ok d upto -> savers d !! t = Some u -> savers d' = <[t := v]> (savers d) ->
  store d' = store d -> writes d' = writes d ->
  covered d' <= writes d' /\ (forall w, job d' = Some w -> w <= writes d') ->
  safe d' upto -> saver_ok d' upto v -> dirty_ok d' upto.
Proof.
  intros [H1 H2 H3 H4 H5 H6] Ht Es Est Ew Hc Hs Hv. pose proof (single_saver _ _ _ H6 Ht) as E.
  rewrite E, insert_singleton_eq in Es. split; rewrite ?Est, ?Ew, ?Es; try done; [by rewrite <-Ew| |].
  - intros t' v' [<- <-]%lookup_singleton_Some. done.
  - rewrite map_size_singleton. lia.
Qed.

Lemma dirty_step_ok e d d' upto :
  dirty_ok d upto -> dirty_step e d = Some d' -> orderly e d -> writes d' <= uint64_max ->
  exists upto', dirty_ok d' upto'.
Proof.
  intros Hok He Ho Hmax. pose proof Hok as [H1 H2 [H3 H3'] H4 H5 H6].
  destruct e as [|t|t ok|t|t|ok]; cbn [dirty_step orderly] in He, Ho.
  - injection He as <-. cbn in Hmax. exists upto. split; cbn; try lia; [| |done|].
    + rewrite H1, Z.mod_small; lia.
    + split; [lia|]. intros w Hw%H3'. lia.
    + intros t v Hv. specialize (H5 t v Hv). destruct v; cbn in *; [lia|]. destruct H5 as (? & ? & ?).
      split; [lia|]. split; [lia|done].
  - apply map_size_empty_inv in Ho. rewrite Ho, lookup_empty in He. injection He as <-.
    exists upto. split; cbn; try done.
    + intros t' v. rewrite lookup_insert_Some, lookup_empty. intros [[<- <-]|[_ ?]]; [|done]. cbn. lia.
    + rewrite insert_empty, map_size_singleton. lia.
  - destruct (savers d !! t) as [[n w|]|] eqn:Ht; try done. injection He as <-.
    pose proof (H5 t _ Ht) as Hv. cbn in Hv. exists upto.
    eapply (dirty_ok_saver d _ upto t); [done|done|done|done|done| | |]; cbn.
    + split; [destruct ok; lia|done].
    + destruct ok; [left; cbn; lia|done].
    + split; [lia|]. split; [lia|]. intros ->. left. cbn. lia.
  - destruct (savers d !! t) as [[n w|]|] eqn:Ht; try done. pose proof (H5 t _ Ht) as Hv. cbn in Hv.
    exists upto. destruct (job d) as [w0|] eqn:Ej; injection He as <-.
    + eapply (dirty_ok_saver d _ upto t); [done|done|done|done|done| | |]; cbn.
      * split; [lia|]. intros w' [= <-]. by apply H3'.
      * destruct H4 as [?|(w' & Ew & ?)]; [by left|]. right. exists w'. cbn. by rewrite <-Ew, Ej.
      * split; [lia|]. split; [lia|done].
    + eapply (dirty_ok_saver d _ upto t); [done|done|done|done|done| | |]; cbn.
      * split; [lia|]. intros w' [= <-]. lia.
      * left. cbn. destruct H4 as [?|(w' & Ew & _)]; [done|congruence].
      * split; [lia|]. split; [lia|]. intros _. right. exists w. split; [done|lia].
  - destruct (savers d !! t) as [[|n w ok]|] eqn:Ht; try done. injection He as <-.
    pose proof (H5 t _ Ht) as Hv. cbn in Hv. destruct Hv as (-> & Hw & Hsafe).
    pose proof (single_saver _ _ _ H6 Ht) as Es.
    assert (delete t (savers d) = ∅) as -> by (by rewrite Es, delete_singleton_eq).
    destruct ok; [exists w|exists upto]; split; cbn; try done; try lia.
    + destruct (Z.ltb_spec (w - upto) (dirty_counter_ (store d))); lia.
    + by apply Hsafe.
    + rewrite map_size_empty. lia.
    + rewrite map_size_empty. lia.
  - subst ok. destruct (job d) as [w0|]; [|done]. injection He as <-. exists upto.
    split; cbn; try done; try lia; [left; cbn; lia|].
    intros t v Hv. specialize (H5 t v Hv). destruct v; cbn in *; [lia|]. destruct H5 as (? & ? & ?).
    split; [lia|]. split; [lia|]. intros _. left. cbn. lia.
Qed.

Lemma writes_mono e d d' : dirty_step e d = Some d' -> writes d <= writes d'.
Proof.
  intros He. destruct e as [|t|t ok|t|t|ok]; cbn [dirty_step] in He; repeat case_match; try done;
    injection He as <-; cbn; lia.
Qed.

Lemma dirty_ok_reachable s d : one_at_a_time s d -> writes d <= uint64_max -> exists upto, dirty_ok d upto.
Proof.
  induction 1 as [|d e d' _ IH He Hone]; intros Hmax.
  - exists 0. split; cbn; try done; [by left|]. rewrite map_size_empty. lia.
  - pose proof (writes_mono e d d' He). destruct (IH ltac:(lia)) as [upto Hok]. by eapply dirty_step_ok.
Qed.

(** While callers do not overlap and snapshot threads do not fail, no change is
    forgotten: the count of changes is at least the number of changes that neither the
    last snapshot has nor the one being made will have, so that the scheduler saves
    again, and it is at most the number of all changes. *)
Theorem dirty_count_keeps s d :
  one_at_a_time s d -> writes d <= uint64_max ->
  writes d - Z.max (covered d) (default 0 (job d)) <= dirty_counter_ (store d) <= writes d.
Proof.
  intros Hr Hmax. destruct (dirty_ok_reachable s d Hr Hmax) as (upto & [H1 H2 H3 H4 _ _]).
  rewrite H1. destruct H4 as [?|(w & -> & ?)]; cbn; lia.
Qed.

(** A run of orderly steps. *)
Fixpoint run_one (es : list dirty_event) (d : dirty_state) : option dirty_state :=
  match es with
  | [] => Some d
  | e :: es => if bool_decide (orderly e d) then dirty_step e d ≫= run_one es else None
  end.

Lemma run_one_ok s es d d' : one_at_a_time s d -> run_one es d = Some d' -> one_at_a_time s d'.
Proof.
  revert d. induction es as [|e es IH]; intros d Hd; cbn [run_one]; [by intros [= <-]|].
  case_bool_decide as Ho; [|done]. destruct (dirty_step e d) as [d1|] eqn:E; [|done].
  cbn [mbind option_bind]. apply IH. exact (oat_step s d e d1 Hd E Ho).
Qed.

Definition dirty_sample : option dirty_state :=
  run_one [Write; Write; Observe 0; Write; Start 0; Consume 0; Write; JobEnd true; Write] (new_dirty new_storage).

Lemma dirty_count_keeps_witness :
  exists d, dirty_sample = Some d /\ writes d - covered d = 1 /\ writes d - covered d <= dirty_counter_ (store d).
Proof.
  destruct dirty_sample as [d|] eqn:E; [|exfalso; vm_compute in E; discriminate E].
  exists d. split; [reflexivity|].
  assert ((fun d => (writes d, covered d, job d)) <$> Some d = Some (5, 4, None)) as Hw
    by (rewrite <- E; vm_compute; reflexivity).
  injection Hw as Hw Hc Hj. split; [lia|].
  pose proof (dirty_count_keeps new_storage d (run_one_ok new_storage _ _ _ (oat_new _) E)
    ltac:(rewrite Hw; vm_compute; discriminate)) as H.
  rewrite Hj, Hc, Hw in H. rewrite Hw, Hc. exact (proj1 H).
Defined.

(** Two saves that overlap take the same changes off twice: the change made after both
    snapshots is no longer counted. *)
Theorem overlapping_saves_forget :
  exists d, dirty_run [Write; Observe 0; Observe 1; Save 0 true; Save 1 true; Write; Consume 0; Consume 1]
              (new_dirty new_storage) = Some d /\
    writes d - covered d = 1 /\ dirty_counter_ (store d) = 0.
Proof. eexists. split; [reflexivity|]. split; reflexivity. Qed.

(** A BGSAVE whose thread fails has taken its changes off: no snapshot has them and they
    are not counted. *)
Theorem failed_bgsave_forgets :
  exists d, dirty_run [Write; Observe 0; Start 0; Consume 0; JobEnd false] (new_dirty new_storage) = Some d /\
    writes d - covered d = 1 /\ job d = None /\ dirty_counter_ (store d) = 0.
Proof. eexists. split; [reflexivity|]. split_and!; reflexivity. Qed.
End Background.
