(* ===== verification/ClusterCmd.v ===== *)
(** * The CLUSTER command: command/cluster_cmd.cpp

    A subcommand reads and changes the state of the cluster node, and MIGRATE the
    store; what it asks of the connections to other nodes is a list of calls. The
    answers of these calls, name resolution, the order of one iteration over the
    unordered table of nodes and the counters of the bus are inputs. [getState],
    [getConnection] and [getBus] return the addresses of members, so that the tests
    for null pointers concern [getMyNode] only. *)

From S2P Require Import Prelude Base Resp Object Payload ExpireDict Storage Commands Slots Cluster.
From stdpp Require Import options.

Module ClusterCmd.
Import Text Resp Object Payload Storage Commands Slots Cluster.

Definition kHandshake : Z := 4.

(** [text.find(c)] is not [npos]. *)
Definition contains_char (c : ascii) (s : bytes) : bool := bool_decide (c ∈ s).

(** [substr(pos, count)]. *)
Definition substr (pos count : nat) (s : bytes) : bytes := take count (drop pos s).

(** ** isValidIp *)

(** The checks on one segment; [std::atoi] of its digits. *)
Definition segment_ok (segment : bytes) : bool :=
  let n := length segment in
  (1 <=? n)%nat && (n <=? 3)%nat && forallb is_digit segment &&
  negb ((1 <? n)%nat && bool_decide (head segment = Some "0"%char)) &&
  (0 <=? digits_val segment) && (digits_val segment <=? 255).

(** The loop over the characters from the [i]th on: the number of dots and where the
    last segment starts. *)
Fixpoint ipv4_loop (ip rest : bytes) (i last_pos : nat) (dot_count : Z) : option (Z * nat) :=
  match rest with
  | [] => Some (dot_count, last_pos)
  | c :: rest =>
      if bool_decide (c = "."%char) then
        if segment_ok (substr last_pos (i - last_pos) ip)
        then ipv4_loop ip rest (S i) (S i) (dot_count + 1) else None
      else if is_digit c then ipv4_loop ip rest (S i) last_pos dot_count
      else None
  end.

Definition is_xdigit (c : ascii) : bool :=
  is_digit c || ((65 <=? byte_val c) && (byte_val c <=? 70)) || ((97 <=? byte_val c) && (byte_val c <=? 102)).

Definition isValidIp (ip : bytes) : bool :=
  if bool_decide (ip = []) then false
  else if (45 <? length ip)%nat then false
  else if negb (contains_char ":"%char ip) then
    match ipv4_loop ip ip 0 0 0 with
    | None => false
    | Some (dot_count, last_pos) => segment_ok (drop last_pos ip) && (dot_count =? 3)
    end
  else forallb (fun c => is_xdigit c || bool_decide (c = ":"%char) || bool_decide (c = "."%char)) ip.

(** ** What the subcommands work on *)

Inductive conn_call :=
  | ConnectTo (name ip : bytes) (port : Z)
  | MeetNode (name ip : bytes) (port : Z)
  | SendCommand (name : bytes) (args : list bytes).

Record env := mkEnv {
  resolve : bytes -> option bytes;             (** [resolve_host_to_ip] *)
  connected : bytes -> bool;                   (** [is_node_connected] *)
  connects : bytes -> bool;                    (** [connect_to_node] *)
  node_order : list ClusterNode -> list ClusterNode;
  identity_rejected : Z; inbound_links : Z; inbound_refused : Z; messages_sent : Z; messages_received : Z;
  clock : Z
}.

(** The reply, the node and the calls. *)
Abbreviation result := (bytes * ClusterServer * list conn_call)%type.

Definition err (s : ClusterServer) (text : bytes) : result := (encode_error text, s, []).
Definition OK (s : ClusterServer) : result := (encode_simple_string (lit "OK"), s, []).

Definition wrong_cluster_args (name : bytes) (s : ClusterServer) : result :=
  err s (lit "ERR wrong number of arguments for 'cluster " ++ name ++ lit "' command").

Definition getNodeByIpPort (i : bytes) (p : Z) (s : ClusterState) : bool :=
  existsb (fun n => bool_decide (ip (info_ n) = i) && (port (info_ n) =? p)) (getAllNodes s).

Section commands.
Context (e : env).

Definition handleMeet (args : list bytes) (s : ClusterServer) : result :=
  if (length args <? 4)%nat then wrong_cluster_args (lit "meet") s
  else
    let host := arg 2 args in
    match (if isValidIp host then Some host else resolve e host) with
    | None => err s (lit "ERR Invalid or unresolvable IP address or hostname")
    | Some i =>
        match stoi (arg 3 args) with
        | None => err s (lit "ERR invalid port number")
        | Some p =>
            if (p <=? 0) || (65535 <? p) then err s (lit "ERR invalid port number")
            else if negb (enabled_ s) then err s (lit "ERR cluster mode is not enabled")
            else
              match my_node s with
              | None => err s (lit "ERR cluster not initialized")
              | Some me =>
                  if bool_decide (ip (info_ me) = i) && (port (info_ me) =? p)
                  then err s (lit "ERR cannot meet yourself")
                  else
                    let nm := i ++ lit ":" ++ to_string p in
                    let hello := MeetNode nm (ip (info_ me)) (port (info_ me)) in
                    if getNodeByIpPort i p (state_ s) then
                      (encode_simple_string (lit "OK"), s,
                       if connected e nm then [] else [ConnectTo nm i p; hello])
                    else
                      (encode_simple_string (lit "OK"), on_state (make_node (new_node nm i p kMaster)) s,
                       if connects e nm then [ConnectTo nm i p; hello] else [ConnectTo nm i p])
              end
        end
    end.

(** The slots of a line of CLUSTER NODES. *)
Definition join_slots (slots : list Z) : bytes :=
  match slots with
  | [] => []
  | x :: rest => to_string x ++ mjoin ((fun y => lit "," ++ to_string y) <$> rest)
  end.

Definition node_line (n : ClusterNode) : bytes :=
  let i := info_ n in
  name i ++ lit " " ++ ip i ++ lit ":" ++ to_string (port i) ++
  (if isMaster n then lit " master" else if node_isReplica n then lit " slave" else lit " myself,?") ++
  (if connected_ n then lit " connected" else lit " disconnected") ++
  (if bool_decide (slots_ n = []) then lit " -" else lit " " ++ join_slots (slots_ n)) ++
  (if node_isReplica n && negb (bool_decide (replicaof_ip i = []))
   then lit " " ++ replicaof_ip i ++ lit ":" ++ to_string (replicaof_port i) else lit " -") ++
  [LF].

Definition handleNodes (s : ClusterServer) : result :=
  let nodes := node_order e (getAllNodes (state_ s)) in
  if bool_decide (nodes = []) then (encode_simple_string (lit "no nodes"), s, [])
  else (encode_bulk_string (mjoin (node_line <$> nodes)), s, []).

Definition info_line (key value : bytes) : bytes := key ++ lit ":" ++ value ++ [LF].

Definition handleInfo (s : ClusterServer) : result :=
  if negb (enabled_ s) then err s (lit "ERR cluster mode is not enabled")
  else
    match my_node s with
    | None => err s (lit "ERR cluster not initialized")
    | Some me =>
        let nodes := getAllNodes (state_ s) in
        let st := state_ s in
        let handshake := hasFlags kHandshake in
        (encode_bulk_string
           (info_line (lit "cluster_enabled") (lit "yes") ++
            info_line (lit "cluster_state") (lit "ok") ++
            info_line (lit "cluster_known_nodes") (to_string (zlen nodes)) ++
            info_line (lit "cluster_master_nodes") (to_string (count_nodes isMaster st)) ++
            info_line (lit "cluster_replica_nodes")
              (to_string (count_nodes (fun n => negb (isMaster n) && node_isReplica n) st)) ++
            info_line (lit "cluster_handshake_nodes") (to_string (count_nodes handshake st)) ++
            info_line (lit "cluster_connected_nodes")
              (to_string (count_nodes (fun n => negb (handshake n) && connected_ n) st)) ++
            info_line (lit "cluster_bus_identity_rejected") (to_string (identity_rejected e)) ++
            info_line (lit "cluster_bus_inbound_links") (to_string (inbound_links e)) ++
            info_line (lit "cluster_bus_inbound_refused") (to_string (inbound_refused e)) ++
            info_line (lit "cluster_slots_assigned") (to_string (getSlotOwnerCount st)) ++
            info_line (lit "cluster_my_node") (getName me) ++
            info_line (lit "cluster_current_epoch") (to_string (getConfigEpoch me)) ++
            info_line (lit "cluster_stats_messages_sent") (to_string (messages_sent e)) ++
            info_line (lit "cluster_stats_messages_received") (to_string (messages_received e))), s, [])
    end.

(** The slot numbers from the third argument on; [None] for one that is refused. *)
Definition parse_slot (text : bytes) : option Z :=
  match stoi text with
  | Some slot => if (slot <? 0) || (16383 <? slot) then None else Some slot
  | None => None
  end.

Definition parse_slots (args : list bytes) : option (list Z) := mapM parse_slot (drop 2 args).

(** The checks that precede the work on a list of slots. *)
Definition with_slot_list (name : bytes) (args : list bytes) (s : ClusterServer)
    (k : nid -> list Z -> result) : result :=
  if (length args <? 3)%nat then wrong_cluster_args name s
  else if negb (enabled_ s) then err s (lit "ERR cluster mode is not enabled")
  else
    match my_node_ s with
    | None => err s (lit "ERR cluster not initialized")
    | Some me =>
        match parse_slots args with
        | None => err s (lit "ERR invalid slot number")
        | Some slots => k me slots
        end
    end.

Definition node_has_slot (i : nid) (slot : Z) (s : ClusterServer) : bool :=
  match node_at i s with Some n => hasSlot slot n | None => false end.

(** The loop of ADDSLOTS: the slot that belongs to another node, if it meets one. *)
Fixpoint assign_slots (me : nid) (slots : list Z) (s : ClusterServer) : option Z * ClusterServer :=
  match slots with
  | [] => (None, s)
  | slot :: rest =>
      let foreign :=
        match getNodeForSlot slot (state_ s) with
        | Some i => negb (bool_decide (i = me))
        | None => false
        end in
      if foreign then (Some slot, s)
      else
        let s := if node_has_slot me slot s then s
                 else on_state (fun st => setNodeForSlot slot me (on_node me (addSlot slot) st)) s in
        assign_slots me rest s
  end.

Definition handleAddSlots (args : list bytes) (s : ClusterServer) : result :=
  with_slot_list (lit "addslots") args s (fun me slots =>
    let '(taken, s) := assign_slots me slots s in
    match taken with
    | Some slot => err s (lit "ERR slot " ++ to_string slot ++ lit " is already owned by another node")
    | None => OK s
    end).

Definition remove_slots (me : nid) (slots : list Z) (s : ClusterServer) : ClusterServer :=
  foldl (fun s slot =>
    if node_has_slot me slot s then on_state (fun st => delSlot slot (on_node me (node_delSlot slot) st)) s else s) s slots.

Definition handleDelSlots (args : list bytes) (s : ClusterServer) : result :=
  with_slot_list (lit "delslots") args s (fun me slots => OK (remove_slots me slots s)).

(** The order of the reply to CLUSTER SLOTS. *)
Definition addr_le (a b : ClusterNode) : Prop :=
  (if bool_decide (ip (info_ a) = ip (info_ b)) then port (info_ a) <=? port (info_ b)
   else bytes_lt (ip (info_ a)) (ip (info_ b))) = true.

#[export] Instance addr_le_dec a b : Decision (addr_le a b).
Proof. unfold addr_le. apply _. Defined.

Definition handleSlots (s : ClusterServer) : result :=
  if negb (enabled_ s) then err s (lit "ERR cluster mode is not enabled")
  else
    let owners := filter (fun n => slots_ n <> []) (node_order e (getAllNodes (state_ s))) in
    if bool_decide (owners = []) then (encode_array [], s, [])
    else
      (encode_nested_array
         ((fun n => ip (info_ n) :: to_string (port (info_ n)) :: (to_string <$> slots_ n)) <$> merge_sort addr_le owners),
       s, []).

Definition handleSetSlot (args : list bytes) (s : ClusterServer) : result :=
  if (length args <? 4)%nat then wrong_cluster_args (lit "setslot") s
  else if negb (enabled_ s) then err s (lit "ERR cluster mode is not enabled")
  else
    match my_node_ s with
    | None => err s (lit "ERR cluster not initialized")
    | Some _ =>
        match parse_slot (arg 2 args) with
        | None => err s (lit "ERR invalid slot number")
        | Some slot =>
            let state := arg 3 args in
            let nm := arg 4 args in
            let short := (length args <? 5)%nat in
            if bool_decide (state = lit "MIGRATING") then
              if short then err s (lit "ERR syntax error, MIGRATING needs target node")
              else match getNode nm (state_ s) with
                   | None => err s (lit "ERR target node not found")
                   | Some _ => OK (setSlotMigrating slot nm s)
                   end
            else if bool_decide (state = lit "IMPORTING") then
              if short then err s (lit "ERR syntax error, IMPORTING needs source node")
              else match getNode nm (state_ s) with
                   | None => err s (lit "ERR source node not found")
                   | Some _ => OK (setSlotImporting slot nm s)
                   end
            else if bool_decide (state = lit "NODE") then
              if short then err s (lit "ERR syntax error, NODE needs node name")
              else match getNode nm (state_ s) with
                   | None => err s (lit "ERR node not found")
                   | Some node =>
                       let s :=
                         match getNodeForSlot slot (state_ s) with
                         | Some old =>
                             if bool_decide (old = node) then s else on_state (on_node old (node_delSlot slot)) s
                         | None => s
                         end in
                       OK (setSlotOwner slot nm s)
                   end
            else if bool_decide (state = lit "STABLE") then OK (on_state (clearSlotMigration slot) s)
            else err s (lit "ERR invalid slot state")
        end
    end.

Definition handleReplicate (args : list bytes) (s : ClusterServer) : result :=
  if (length args <? 3)%nat then wrong_cluster_args (lit "replicate") s
  else if negb (enabled_ s) then err s (lit "ERR cluster mode is not enabled")
  else
    match my_node s with
    | None => err s (lit "ERR cluster not initialized")
    | Some me =>
        if node_isReplica me then err s (lit "ERR node is already a replica")
        else
          let master_name := arg 2 args in
          match getNode master_name (state_ s) ≫= fun i => node_at i s with
          | None => err s (lit "ERR node not found: " ++ master_name)
          | Some master =>
              if negb (isMaster master) then err s (lit "ERR target node is not a master")
              else
                let '(ok, s) := setReplicaOf master_name s in
                if ok : bool then
                  (encode_simple_string (lit "OK"), s, [SendCommand master_name [lit "REPLSYNC:" ++ getName me]])
                else err s (lit "ERR failed to set replica")
          end
    end.

Definition handleFail (args : list bytes) (s : ClusterServer) : result :=
  if (length args <? 3)%nat then wrong_cluster_args (lit "fail") s
  else if negb (enabled_ s) then err s (lit "ERR cluster mode is not enabled")
  else
    match my_node_ s with
    | None => err s (lit "ERR cluster not initialized")
    | Some _ =>
        let nm := arg 2 args in
        match getNode nm (state_ s) with
        | None => err s (lit "ERR node not found: " ++ nm)
        | Some _ => OK (markNodeAsFail (clock e) nm s)
        end
    end.
End commands.

(** ** MIGRATE *)

Definition parse_bounded_integer (text : bytes) : option Z := from_chars_all true int64_min int64_max text.

Definition kMaxMigrateTimeoutMs : Z := 60000.

(** What the first half of MIGRATE ends with: a reply, or a RESTORE to send to the
    target, with the time to wait for its answer. *)
Inductive prepared :=
  | Refused (reply : bytes)
  | Send (target : bytes) (restore_args : list bytes) (timeout : Z).

Section migrate.
Context `{StringHash} `{DoubleText} `{HashOrder} (e : env).

(** [t_get], [t_expired] and [t_ttl] are the readings of the clock that [get],
    [is_expired] and [get_ttl] take. *)
Definition migrate_prepare (t_get t_expired t_ttl : Z) (args : list bytes) (cluster : ClusterServer)
    (s : Storage) : prepared * Storage * list conn_call :=
  let refuse text s := (Refused (encode_error text), s, []) in
  if (length args <? 6)%nat
  then refuse (lit "ERR wrong number of arguments for 'cluster migrate' command") s
  else
    match parse_bounded_integer (arg 5 args) with
    | None => refuse (lit "ERR timeout is not an integer or out of range") s
    | Some timeout =>
        if (timeout <=? 0) || (kMaxMigrateTimeoutMs <? timeout)
        then refuse (lit "ERR timeout must be between 1 and 60000 milliseconds") s
        else if negb (enabled_ cluster) then refuse (lit "ERR cluster mode is not enabled") s
        else
          let host := arg 2 args in
          match stoi (arg 3 args) with
          | None => refuse (lit "ERR invalid port number") s
          | Some port =>
              if (port <=? 0) || (65535 <? port) then refuse (lit "ERR invalid port number") s
              else
                let key := arg 4 args in
                let replace := (6 <? length args)%nat && bool_decide (arg 6 args = lit "REPLACE") in
                let '(value_opt, s) := get t_get key s in
                match value_opt with
                | None => refuse (lit "ERR no such key") s
                | Some value =>
                    if is_expired t_expired key s then refuse (lit "ERR no such key") (del key s).2
                    else
                      let remaining := ExpireDict.get_ttl t_ttl key (expire_dict_ s) in
                      let ttl_ms := if 0 <? remaining then remaining else -1 in
                      let target_name := host ++ lit ":" ++ to_string port in
                      let up := connected e target_name in
                      let calls := if up then [] else [ConnectTo target_name host port] in
                      if up || connects e target_name then
                        (Send target_name
                           ([lit "RESTORE"; key; to_string ttl_ms; serialize value] ++
                            (if replace then [lit "REPLACE"] else [])) timeout, s, calls)
                      else (Refused (encode_error (lit "ERR failed to connect to target node")), s, calls)
                end
          end
    end.

(** [target_reply.substr(1, target_reply.find(CRLF) - 1)]. *)
Definition error_text (target_reply : bytes) : bytes :=
  match find_crlf target_reply with
  | Some n => substr 1 (n - 1) target_reply
  | None => drop 1 target_reply
  end.

(** The second half, with the answer of [send_command_and_wait]: [None] where it
    returns false. *)
Definition migrate_finish (key : bytes) (answer : option bytes) (s : Storage) : bytes * Storage :=
  match answer with
  | None =>
      (encode_error (lit "ERR MIGRATE timed out or could not reach the target node; the source key was kept"), s)
  | Some target_reply =>
      if bool_decide (take 3 target_reply = lit "+OK") then (encode_simple_string (lit "OK"), (del key s).2)
      else if bool_decide (head target_reply = Some "-"%char)
      then (encode_error (lit "ERR target node replied: " ++ error_text target_reply), s)
      else (encode_error (lit "ERR target node returned an unexpected reply"), s)
  end.

(** The whole command; [meanwhile] is what other threads do to the store while the
    answer is awaited. *)
Definition handleMigrate (t_get t_expired t_ttl : Z)
    (send_command_and_wait : bytes -> list bytes -> Z -> option bytes) (meanwhile : Storage -> Storage)
    (args : list bytes) (cluster : ClusterServer) (s : Storage) : bytes * Storage * list conn_call :=
  let '(p, s, calls) := migrate_prepare t_get t_expired t_ttl args cluster s in
  match p with
  | Refused reply => (reply, s, calls)
  | Send target restore_args timeout =>
      let '(reply, s) :=
        migrate_finish (arg 4 args) (send_command_and_wait target restore_args timeout) (meanwhile s) in
      (reply, s, calls ++ [SendCommand target restore_args])
  end.

(** ** The dispatch of the subcommands *)

Definition execute (t_get t_expired t_ttl : Z)
    (send_command_and_wait : bytes -> list bytes -> Z -> option bytes) (meanwhile : Storage -> Storage)
    (args : list bytes) (cluster : ClusterServer) (s : Storage)
    : bytes * ClusterServer * Storage * list conn_call :=
  let on_cluster (r : result) := let '(reply, c, calls) := r in (reply, c, s, calls) in
  if (length args <? 2)%nat
  then on_cluster (err cluster (lit "ERR wrong number of arguments for 'cluster' command"))
  else
    let sub := to_lower (arg 1 args) in
    let named name := bool_decide (sub = lit name) in
    if named "meet"%string then on_cluster (handleMeet e args cluster)
    else if named "nodes"%string then on_cluster (handleNodes e cluster)
    else if named "info"%string then on_cluster (handleInfo e cluster)
    else if named "addslots"%string then on_cluster (handleAddSlots args cluster)
    else if named "slots"%string then on_cluster (handleSlots e cluster)
    else if named "delslots"%string then on_cluster (handleDelSlots args cluster)
    else if named "setslot"%string then on_cluster (handleSetSlot args cluster)
    else if named "replicate"%string then on_cluster (handleReplicate args cluster)
    else if named "fail"%string then on_cluster (handleFail e args cluster)
    else if named "migrate"%string then
      let '(reply, s, calls) :=
        handleMigrate t_get t_expired t_ttl send_command_and_wait meanwhile args cluster s in
      (reply, cluster, s, calls)
    else on_cluster (err cluster (lit "ERR Unknown CLUSTER subcommand")).
End migrate.
End ClusterCmd.
