(* ===== verification/ClusterCmdProps.v ===== *)
(** * The CLUSTER command: addresses, slots and the moving of keys

    [isValidIp] against the dotted form it means; the invariants of the node that
    every subcommand keeps; what ADDSLOTS, DELSLOTS and SETSLOT do to the table of
    slots; MIGRATE with the RESTORE of the target. *)

From S2P Require Import Prelude Base Resp Object Payload PayloadSpec ExpireDict Storage StorageSpec.
From S2P Require Import StorageProps Commands CommandsSpec CommandsEffect CommandsProps Slots Cluster.
From S2P Require Import ClusterProps ClusterCmd.
From stdpp Require Import options.

Module ClusterCmdProps.
Import Text Resp Object Payload PayloadSpec Storage StorageSpec StorageProps.
Import Commands CommandsSpec CommandsEffect CommandsProps Slots Cluster ClusterProps ClusterCmd.

(** ** isValidIp *)

Definition digits : bytes := lit "0123456789".

(** All texts of [k] digits. *)
Fixpoint digit_words (k : nat) : list bytes :=
  match k with
  | O => [[]]
  | S k => mjoin ((fun c => cons c <$> digit_words k) <$> digits)
  end.

Lemma is_digit_elem c : is_digit c = true -> c ∈ digits.
Proof.
  intros Hc. apply (bool_decide_eq_true (c ∈ digits)).
  revert Hc. destruct c as [[] [] [] [] [] [] [] []]; by vm_compute.
Qed.

Lemma words_complete s : forallb is_digit s = true -> s ∈ digit_words (length s).
Proof.
  induction s as [|c s IH]; [set_solver|]. cbn [forallb length digit_words]. intros [Hc Hs]%andb_prop.
  apply list_elem_of_join. exists (cons c <$> digit_words (length s)).
  split; apply list_elem_of_fmap; eauto using is_digit_elem.
Qed.

(** The numbers from 0 to 255. *)
Definition octets : list Z := seqZ 0 256.

Lemma octets_iff n : n ∈ octets <-> 0 <= n <= 255.
Proof. unfold octets. rewrite elem_of_seqZ. lia. Qed.

Lemma segment_print n : 0 <= n <= 255 -> segment_ok (to_string n) = true.
Proof.
  intros Hn%octets_iff%list_elem_of_In.
  assert (forallb (fun n => segment_ok (to_string n)) octets = true) as H by (vm_compute; reflexivity).
  exact (proj1 (forallb_forall _ _) H n Hn).
Qed.

Lemma segment_read s : segment_ok s = true -> exists n, 0 <= n <= 255 /\ s = to_string n.
Proof.
  intros Hs. assert (s ∈ digit_words 1 ++ digit_words 2 ++ digit_words 3) as Hw.
  { unfold segment_ok in Hs. repeat (apply andb_prop in Hs as [Hs ?]).
    pose proof (words_complete s ltac:(done)) as Hin.
    destruct (length s) as [|[|[|[|k]]]]; rewrite ?elem_of_app; auto; done. }
  assert (forallb (fun s => implb (segment_ok s) (existsb (fun n => bool_decide (s = to_string n)) octets))
    (digit_words 1 ++ digit_words 2 ++ digit_words 3) = true) as H by (vm_compute; reflexivity).
  apply list_elem_of_In in Hw. pose proof (proj1 (forallb_forall _ _) H s Hw) as Hx. cbn beta in Hx.
  rewrite Hs in Hx. apply existsb_exists in Hx as (n & Hn & ->%bool_decide_eq_true).
  exists n. split; [exact (proj1 (octets_iff n) (proj2 (list_elem_of_In _ _) Hn))|reflexivity].
Qed.

(** The parts of a text between its dots; [seg] is the part that has begun. *)
Fixpoint fields (seg rest : bytes) : list bytes :=
  match rest with
  | [] => [seg]
  | c :: rest => if bool_decide (c = "."%char) then seg :: fields [] rest else fields (seg ++ [c]) rest
  end.

Definition joined (l : list bytes) : bytes :=
  match l with [] => [] | x :: l => x ++ mjoin ((fun y => lit "." ++ y) <$> l) end.

Lemma fields_cons seg rest : exists x l, fields seg rest = x :: l /\ exists y, x = seg ++ y.
Proof.
  revert seg. induction rest as [|c rest IH]; intros seg; cbn [fields].
  - exists seg, []. split; [done|]. exists []. by rewrite app_nil_r.
  - case_bool_decide.
    + exists seg, (fields [] rest). split; [done|]. exists []. by rewrite app_nil_r.
    + destruct (IH (seg ++ [c])) as (x & l & Hl & y & ->). exists ((seg ++ [c]) ++ y), l.
      split; [done|]. exists (c :: y). by rewrite <-app_assoc.
Qed.

Lemma joined_fields seg rest : joined (fields seg rest) = seg ++ rest.
Proof.
  revert seg. induction rest as [|c rest IH]; intros seg; cbn [fields].
  - cbn. by rewrite app_nil_r.
  - case_bool_decide as Hc.
    + subst. specialize (IH []). destruct (fields_cons [] rest) as (x & l & Hl & _). rewrite Hl in *.
      change (joined (seg :: x :: l)) with (seg ++ "."%char :: joined (x :: l)). by rewrite IH.
    + rewrite IH, <-app_assoc. done.
Qed.

Lemma fields_word seg w rest :
  forallb is_digit w = true -> fields seg (w ++ rest) = fields (seg ++ w) rest.
Proof.
  revert seg. induction w as [|c w IH]; intros seg; cbn [app fields forallb]; [by rewrite app_nil_r|].
  intros [Hc Hw]%andb_prop. rewrite bool_decide_eq_false_2 by by intros ->.
  by rewrite IH, <-app_assoc by done.
Qed.

Lemma segment_digits s : segment_ok s = true -> forallb is_digit s = true.
Proof. unfold segment_ok. intros H. by repeat (apply andb_prop in H as [H ?]). Qed.

(** The loop and the checks after it look at exactly the parts. *)
Lemma ipv4_loop_fields pre seg rest dots :
  match ipv4_loop (pre ++ seg ++ rest) rest (length pre + length seg) (length pre) dots with
  | None => false
  | Some (dot_count, last_pos) => segment_ok (drop last_pos (pre ++ seg ++ rest)) && (dot_count =? 3)
  end =
  forallb segment_ok (fields seg rest) && (dots + zlen (fields seg rest) - 1 =? 3).
Proof.
  revert pre seg dots. induction rest as [|c rest IH]; intros pre seg dots; cbn [ipv4_loop fields].
  - rewrite drop_app_length, app_nil_r. cbn. rewrite andb_true_r. f_equal. f_equal. unfold zlen. cbn. lia.
  - case_bool_decide as Hc.
    + subst. unfold substr. rewrite drop_app_length.
      replace (length pre + length seg - length pre)%nat with (length seg) by lia.
      rewrite take_app_length. cbn [forallb]. destruct (segment_ok seg); [cbn [andb]|done].
      specialize (IH (pre ++ seg ++ ["."%char]) [] (dots + 1)).
      rewrite !length_app in IH. cbn [length app] in IH. rewrite <-!app_assoc in IH. cbn [app] in IH.
      replace (length pre + (length seg + 1) + 0)%nat with (S (length pre + length seg)) in IH by lia.
      replace (length pre + (length seg + 1))%nat with (S (length pre + length seg)) in IH by lia.
      rewrite IH. f_equal. f_equal. unfold zlen. cbn [length]. lia.
    + destruct (is_digit c) eqn:Hd.
      * specialize (IH pre (seg ++ [c]) dots). rewrite <-app_assoc in IH. cbn [app] in IH.
        rewrite length_app in IH. cbn [length] in IH.
        by replace (S (length pre + length seg)) with (length pre + (length seg + 1))%nat by lia.
      * destruct (fields_cons (seg ++ [c]) rest) as (x & l & -> & y & ->). cbn [forallb].
        destruct (segment_ok _) eqn:Hs; [|done]. apply segment_digits in Hs.
        rewrite !forallb_app in Hs. cbn in Hs. rewrite Hd in Hs. by rewrite !andb_false_r in Hs.
Qed.

Definition dotted (a b c d : Z) : bytes :=
  to_string a ++ lit "." ++ to_string b ++ lit "." ++ to_string c ++ lit "." ++ to_string d.

Lemma fields_dot seg rest : fields seg (lit "." ++ rest) = seg :: fields [] rest.
Proof. done. Qed.

Lemma fields_dotted a b c d :
  0 <= a <= 255 -> 0 <= b <= 255 -> 0 <= c <= 255 -> 0 <= d <= 255 ->
  fields [] (dotted a b c d) = [to_string a; to_string b; to_string c; to_string d].
Proof.
  intros. unfold dotted.
  assert (forall n, 0 <= n <= 255 -> forallb is_digit (to_string n) = true) as Hd
    by (intros; by apply segment_digits, segment_print).
  do 3 (rewrite fields_word, fields_dot by auto).
  by rewrite <-(app_nil_r (to_string d)) at 1; rewrite fields_word by auto.
Qed.

Lemma segment_length s : segment_ok s = true -> (length s <= 3)%nat.
Proof. unfold segment_ok. intros H. repeat (apply andb_prop in H as [H ?]). by apply Nat.leb_le. Qed.

Lemma segment_no_colon s : segment_ok s = true -> ":"%char ∉ s.
Proof.
  intros Hs%segment_digits Hin%list_elem_of_In. by pose proof (proj1 (forallb_forall _ _) Hs _ Hin).
Qed.

Lemma dotted_valid a b c d :
  0 <= a <= 255 -> 0 <= b <= 255 -> 0 <= c <= 255 -> 0 <= d <= 255 -> isValidIp (dotted a b c d) = true.
Proof.
  intros Ha Hb Hc Hd. pose proof (fields_dotted a b c d Ha Hb Hc Hd) as Hf.
  pose proof (ipv4_loop_fields [] [] (dotted a b c d) 0) as Hl. cbn [app length Nat.add] in Hl.
  apply segment_print in Ha, Hb, Hc, Hd. rewrite Hf in Hl. cbn [forallb] in Hl.
  rewrite Ha, Hb, Hc, Hd in Hl. cbn in Hl.
  unfold isValidIp. rewrite Hl, bool_decide_eq_false_2 by by intros E; rewrite E in Hf.
  assert (length (dotted a b c d) <= 15)%nat as Hlen.
  { unfold dotted. rewrite !length_app. change (length (lit ".")) with 1%nat.
    apply segment_length in Ha, Hb, Hc, Hd. lia. }
  destruct (Nat.ltb_spec 45 (length (dotted a b c d))); [lia|].
  unfold contains_char. rewrite bool_decide_eq_false_2; [done|].
  apply segment_no_colon in Ha, Hb, Hc, Hd. 
  assert (":"%char ∉ lit ".") as Hdot by by vm_compute; set_solver.
  unfold dotted. rewrite !elem_of_app. tauto.
Qed.

(** C35: the addresses that [isValidIp] accepts are exactly the four numbers from 0 to
    255 in decimal with dots between them, and the texts of at most 45 hexadecimal
    digits, colons and dots with a colon among them. *)
Theorem valid_ip_exact ip :
  isValidIp ip = true <->
  (exists a b c d, 0 <= a <= 255 /\ 0 <= b <= 255 /\ 0 <= c <= 255 /\ 0 <= d <= 255 /\ ip = dotted a b c d) \/
  (":"%char ∈ ip /\ (length ip <= 45)%nat /\
   Forall (fun c => is_xdigit c = true \/ c = ":"%char \/ c = "."%char) ip).
Proof.
  split.
  - unfold isValidIp, contains_char. case_bool_decide; [done|]. destruct (Nat.ltb_spec 45 (length ip)); [done|].
    case_bool_decide as Hc; cbn [negb].
    + rewrite forallb_forall. intros Hx. right. split_and!; [done|done|]. apply Forall_forall.
      intros c Hin%list_elem_of_In%Hx. rewrite !orb_true_iff, !bool_decide_eq_true in Hin. tauto.
    + intros Hv. left. pose proof (ipv4_loop_fields [] [] ip 0) as Hl. cbn [app length] in Hl.
      cbn [Nat.add] in Hl. rewrite Hl in Hv. apply andb_prop in Hv as [Hs Hn%Z.eqb_eq].
      pose proof (joined_fields [] ip) as Hj. cbn [app] in Hj. rewrite <-Hj.
      destruct (fields [] ip) as [|x1 [|x2 [|x3 [|x4 [|x5 l]]]]]; unfold zlen in Hn; cbn [length] in Hn;
        try (exfalso; lia).
      cbn [forallb] in Hs. repeat (apply andb_prop in Hs as [?Hx Hs]).
      apply segment_read in Hx as (a & Ha & ->), Hx0 as (b & Hb & ->), Hx1 as (c & Hc' & ->), Hx2 as (d & Hd & ->).
      exists a, b, c, d. refine (conj Ha (conj Hb (conj Hc' (conj Hd _)))).
      unfold dotted, joined. csimpl. by rewrite app_nil_r.
  - intros [(a & b & c & d & Ha & Hb & Hc & Hd & ->)|(Hc & Hl & Hx)].
    + apply dotted_valid; done.
    + unfold isValidIp, contains_char. rewrite bool_decide_eq_false_2 by by (intros ->; set_solver).
      destruct (Nat.ltb_spec 45 (length ip)); [lia|]. rewrite bool_decide_eq_true_2 by done. cbn [negb].
      apply forallb_forall. intros c Hin%list_elem_of_In. rewrite Forall_forall in Hx.
      apply Hx in Hin. rewrite !orb_true_iff, !bool_decide_eq_true. tauto.
Qed.

(** ** The table of slots *)

(** A node lists the slots that the table gives to it. *)
Definition slots_agree (s : ClusterServer) : Prop :=
  forall i n slot, node_at i s = Some n -> (slot ∈ slots_ n <-> slot_map (state_ s) !! slot = Some i).

(** The owner of a slot becomes [o]; the other slots stay. *)
Record moved (slot : Z) (o : option nid) (s s' : ClusterServer) : Prop := {
  mv_map : forall x, slot_map (state_ s') !! x = if decide (x = slot) then o else slot_map (state_ s) !! x;
  mv_lists : forall i n', node_at i s' = Some n' -> exists n, node_at i s = Some n /\
    (forall x, x <> slot -> (x ∈ slots_ n' <-> x ∈ slots_ n)) /\ (slot ∈ slots_ n' <-> o = Some i)
}.

Lemma moved_agree slot o s s' : moved slot o s s' -> slots_agree s -> slots_agree s'.
Proof.
  intros [Hm Hl] Ha i n' x (n & Hn & Hx & Hs)%Hl. rewrite Hm. case_decide; [by subst|].
  rewrite Hx by done. by apply Ha.
Qed.

Definition slots_at (i : nid) (s : ClusterServer) : option (list Z) := slots_ <$> node_at i s.

(** Nothing changes for the slots. *)
Definition same_slots (s s' : ClusterServer) : Prop :=
  slot_map (state_ s') = slot_map (state_ s) /\ forall i, slots_at i s' = slots_at i s.

#[local] Instance same_slots_po : PreOrder same_slots.
Proof.
  split; [done|]. intros s1 s2 s3 [H1 H2] [H3 H4]. split; [congruence|]. intros i. by rewrite H4.
Qed.

Lemma same_slots_agree s s' : same_slots s s' -> slots_agree s -> slots_agree s'.
Proof.
  intros [Hm Hi] Ha i n slot Hn. rewrite Hm. specialize (Hi i). unfold slots_at in Hi. rewrite Hn in Hi.
  destruct (node_at i s) as [n0|] eqn:E; [|done]. injection Hi as ->. by apply Ha.
Qed.

Lemma same_slots_node i f s :
  (forall n, slots_ (f n) = slots_ n) -> same_slots s (on_state (on_node i f) s).
Proof.
  intros Hf. split; [done|]. intros j. unfold slots_at. rewrite node_at_on_node. case_decide; [|done].
  destruct (node_at j s); cbn; [by rewrite Hf|done].
Qed.

Lemma same_slots_named nm f s :
  (forall n, slots_ (f n) = slots_ n) -> same_slots s (on_state (on_named nm f) s).
Proof.
  intros Hf. unfold on_named, on_state. destruct (nodes_ (state_ s) !! nm) as [i|].
  - exact (same_slots_node i f s Hf).
  - by destruct s.
Qed.

Lemma same_slots_replica nm s : same_slots s (setReplicaOf nm s).2.
Proof.
  unfold setReplicaOf. destruct (negb _); [done|]. destruct (getNode _ _) as [m|]; [|done].
  destruct (node_at m s) as [mn|]; [|done]. destruct (negb _); [done|]. cbn [snd].
  trans (on_my_node (fun n => setMasterNode (Some m) (setMaster (ip (info_ mn))
    (port (info_ mn)) (setReplicationState rConnect (setRole kReplica n)))) s).
  - unfold on_my_node. destruct (my_node_ s); [by apply same_slots_node|done].
  - by case_match.
Qed.

Lemma slots_setFailFlag t b n : slots_ (setFailFlag t b n) = slots_ n.
Proof. by destruct b. Qed.

Lemma same_slots_fail t nm s : same_slots s (markNodeAsFail t nm s).
Proof.
  unfold markNodeAsFail. destruct (_ || _); [done|]. destruct (getNode _ _) as [i|]; [|done].
  cbv zeta. etrans; [apply (same_slots_named nm (setFailFlag t true)); intros; apply slots_setFailFlag|].
  by repeat case_match.
Qed.

(** A new node, whether its name was free or not. *)
Lemma make_node_heap n s me :
  cluster_ok s me ->
  let s' := on_state (make_node n) s in
  let i := fresh (dom (heap (state_ s))) in
  node_at i s = None /\ slot_map (state_ s') = slot_map (state_ s) /\
  forall j, node_at j s' = if decide (i = j) then Some n else node_at j s.
Proof.
  intros Hok s' i. assert (node_at i s = None) as Hi by (apply not_elem_of_dom, is_fresh).
  split; [done|]. unfold s', node_at. cbn. unfold make_node, addNode. cbn [heap nodes_]. fold i.
  rewrite lookup_insert_eq. split; [by destruct (nodes_ _ !! _)|]. intros j.
  transitivity (<[i := n]> (heap (state_ s)) !! j); [by destruct (nodes_ _ !! _)|].
  rewrite lookup_insert. by case_decide.
Qed.

Lemma make_node_agree nm i p s me :
  cluster_ok s me -> slots_agree s -> slots_agree (on_state (make_node (new_node nm i p kMaster)) s).
Proof.
  intros Hok Ha j n slot. destruct (make_node_heap (new_node nm i p kMaster) s me Hok) as (Hf & Hm & Hj).
  rewrite Hj, Hm. case_decide as E; [|apply Ha]. intros [= <-]. subst. split; [by intros ?%not_elem_of_nil|].
  intros Hs%(ok_slots _ _ Hok). rewrite Hf in Hs. by destruct Hs.
Qed.

Lemma make_node_any_ok n s me : cluster_ok s me -> cluster_ok (on_state (make_node n) s) me.
Proof.
  intros Hok. destruct (getNode (getName n) (state_ s)) as [k|] eqn:Hk; [|by apply make_node_ok].
  destruct (make_node_heap n s me Hok) as (Hf & Hm & Hj).
  assert (nodes_ (state_ (on_state (make_node n) s)) = nodes_ (state_ s)) as Hn.
  { cbn. unfold make_node, addNode. cbn [heap nodes_]. rewrite lookup_insert_eq.
    unfold getNode in Hk. by rewrite Hk. }
  assert (forall j m, node_at j s = Some m -> node_at j (on_state (make_node n) s) = Some m) as Hold.
  { intros j m Hjm. rewrite Hj. case_decide; [congruence|done]. }
  destruct (ok_name _ _ Hok _ _ (ok_listed _ _ Hok)) as (m & Hme & Hmn).
  split.
  - apply Hok.
  - intros nm j. rewrite Hn. intros (m' & Hj' & <-)%(ok_name _ _ Hok). exists m'. by rewrite (Hold _ _ Hj').
  - unfold getNode, getMyNodeName at 1, my_node. rewrite Hn.
    change (my_node_ (on_state (make_node n) s)) with (my_node_ s).
    rewrite (ok_me _ _ Hok). cbn [mbind option_bind]. rewrite (Hold _ _ Hme). cbn. rewrite Hmn. apply Hok.
  - intros slot j. rewrite Hm. intros [m' Hm']%(ok_slots _ _ Hok). exists m'. by apply Hold.
Qed.

(** The steps of ADDSLOTS, DELSLOTS and SETSLOT. *)
Definition claimed (slot : Z) (me : nid) (s : ClusterServer) : ClusterServer :=
  on_state (fun st => setNodeForSlot slot me (on_node me (addSlot slot) st)) s.

Definition released (slot : Z) (me : nid) (s : ClusterServer) : ClusterServer :=
  on_state (fun st => delSlot slot (on_node me (node_delSlot slot) st)) s.

Lemma elem_addSlot x slot n : x ∈ slots_ (addSlot slot n) <-> x ∈ slots_ n \/ x = slot.
Proof. unfold addSlot. case_bool_decide; cbn; set_solver. Qed.

Lemma elem_delSlot x slot n : x ∈ slots_ (node_delSlot slot n) <-> x ∈ slots_ n /\ x <> slot.
Proof. cbn. rewrite list_elem_of_filter. tauto. Qed.

(** An update of the list of one node, with the owner of the slot in the table. *)
Lemma moved_one slot me o f s s' :
  slots_agree s ->
  (forall x, slot_map (state_ s') !! x = if decide (x = slot) then o else slot_map (state_ s) !! x) ->
  (forall j, node_at j s' = node_at j (on_state (on_node me f) s)) ->
  (forall n x, x <> slot -> (x ∈ slots_ (f n) <-> x ∈ slots_ n)) ->
  (forall n, slot ∈ slots_ (f n) <-> o = Some me) ->
  (forall j, j <> me -> slot_map (state_ s) !! slot = Some j <-> o = Some j) ->
  moved slot o s s'.
Proof.
  intros Ha Hm Hh Hf Hs Ho. split; [done|]. intros j n'. rewrite Hh, node_at_on_node. case_decide as E.
  - subst. destruct (node_at j s) as [n|]; [|done]. intros [= <-]. exists n. auto.
  - intros Hn. exists n'. split_and!; [done|done|]. rewrite (Ha _ _ _ Hn). auto.
Qed.

Lemma claimed_moved slot me s :
  slots_agree s -> (slot_map (state_ s) !! slot = None \/ slot_map (state_ s) !! slot = Some me) ->
  moved slot (Some me) s (claimed slot me s).
Proof.
  intros Ha Hf. apply (moved_one slot me _ (addSlot slot)); try done.
  - intros x. cbn. rewrite lookup_insert. repeat case_decide; congruence.
  - intros n x Hx. rewrite elem_addSlot. tauto.
  - intros n. rewrite elem_addSlot. tauto.
  - intros j Hj. destruct Hf as [->| ->]; split; congruence.
Qed.

Lemma released_moved slot me s :
  slots_agree s -> slot_map (state_ s) !! slot = Some me -> moved slot None s (released slot me s).
Proof.
  intros Ha Hf. apply (moved_one slot me _ (node_delSlot slot)); try done.
  - intros x. cbn. rewrite lookup_delete. repeat case_decide; congruence.
  - intros n x Hx. rewrite elem_delSlot. tauto.
  - intros n. rewrite elem_delSlot. split; [tauto|done].
  - intros j Hj. rewrite Hf. split; congruence.
Qed.

Lemma keeps_claimed slot me s : cluster_ok s me -> keeps s (claimed slot me s).
Proof.
  intros Hok. trans (on_state (on_node me (addSlot slot)) s); [apply keeps_on_node, static_addSlot|].
  split; [done|]. intros x j. cbn. rewrite lookup_insert. case_decide.
  - intros [= <-]. right. exists (getMyNodeName s). exact (ok_listed _ _ Hok).
  - by left.
Qed.

Lemma keeps_released slot me s : keeps s (released slot me s).
Proof.
  trans (on_state (on_node me (node_delSlot slot)) s); [by apply keeps_on_node|].
  split; [done|]. intros x j. cbn. rewrite lookup_delete. case_decide; [done|by left].
Qed.

Lemma node_has_slot_iff me slot s :
  cluster_ok s me -> slots_agree s ->
  node_has_slot me slot s = bool_decide (slot_map (state_ s) !! slot = Some me).
Proof.
  intros Hok Ha. destruct (ok_name _ _ Hok _ _ (ok_listed _ _ Hok)) as (n & Hn & _).
  unfold node_has_slot, hasSlot. rewrite Hn. apply bool_decide_ext. by apply Ha.
Qed.

(** The loop of ADDSLOTS takes the slots in turn, up to the first that belongs to
    another node. *)
Lemma assign_slots_spec me l s :
  cluster_ok s me -> slots_agree s ->
  let r := assign_slots me l s in
  cluster_ok r.2 me /\ slots_agree r.2 /\ keeps s r.2 /\
  migrating_slots_ (state_ r.2) = migrating_slots_ (state_ s) /\
  exists l1 l2, l = l1 ++ l2 /\ r.1 = head l2 /\
    (forall x, slot_map (state_ r.2) !! x = if decide (x ∈ l1) then Some me else slot_map (state_ s) !! x) /\
    (forall x, x ∈ l1 -> slot_map (state_ s) !! x = None \/ slot_map (state_ s) !! x = Some me) /\
    (forall x, head l2 = Some x -> exists i, slot_map (state_ s) !! x = Some i /\ i <> me).
Proof.
  cbv zeta. revert s. induction l as [|slot l IH]; intros s Hok Ha; cbn [assign_slots].
  { split_and!; try done. exists [], []. split_and!; try done. by intros x ?%not_elem_of_nil. }
  destruct (match getNodeForSlot slot (state_ s) with Some _ => _ | None => _ end) eqn:Hf.
  { split_and!; try done. exists [], (slot :: l). split_and!; try done; [by intros x ?%not_elem_of_nil|].
    intros x [= <-]. unfold getNodeForSlot in Hf. destruct (_ !! slot) as [i|]; [|done].
    exists i. split; [done|]. by apply negb_true_iff, bool_decide_eq_false in Hf. }
  assert (slot_map (state_ s) !! slot = None \/ slot_map (state_ s) !! slot = Some me) as Hfree.
  { unfold getNodeForSlot in Hf. destruct (_ !! slot) as [i|]; [|by left]. right.
    apply negb_false_iff, bool_decide_eq_true in Hf. congruence. }
  set (s1 := if node_has_slot me slot s then s else claimed slot me s).
  assert (cluster_ok s1 me /\ slots_agree s1 /\ keeps s s1 /\
    migrating_slots_ (state_ s1) = migrating_slots_ (state_ s) /\
    forall x, slot_map (state_ s1) !! x = if decide (x = slot) then Some me else slot_map (state_ s) !! x)
    as (Hok1 & Ha1 & Hk1 & Hg1 & Hm1).
  { unfold s1. rewrite node_has_slot_iff by done. case_bool_decide as Hx.
    - split_and!; try done. intros x. case_decide; by subst.
    - pose proof (claimed_moved slot me s Ha Hfree) as Hmv. pose proof (keeps_claimed slot me s Hok) as Hk.
      split_and!; [by eapply keeps_ok|by eapply moved_agree|done|done|apply Hmv]. }
  change (if node_has_slot me slot s then s else _) with s1.
  destruct (IH s1 Hok1 Ha1) as (Hok2 & Ha2 & Hk2 & Hg2 & l1 & l2 & -> & Hr & Hm2 & Hl1 & Hl2).
  split_and!; [done|done|by etrans|congruence|].
  exists (slot :: l1), l2. split_and!; [done|done| | |].
  - intros x. rewrite Hm2, Hm1. repeat case_decide; set_solver.
  - intros x Hx. destruct (decide (x = slot)) as [->|Hne]; [done|].
    assert (x ∈ l1) as Hx1 by set_solver. specialize (Hl1 x Hx1). rewrite Hm1 in Hl1. by case_decide.
  - intros x Hx. destruct (Hl2 x Hx) as (i & Hi & Hne). rewrite Hm1 in Hi. case_decide; [congruence|]. eauto.
Qed.

(** The loop of DELSLOTS releases the slots of this node and skips the others. *)
Lemma remove_slots_spec me l s :
  cluster_ok s me -> slots_agree s ->
  let s' := remove_slots me l s in
  cluster_ok s' me /\ slots_agree s' /\ keeps s s' /\
  forall x, slot_map (state_ s') !! x =
    if decide (x ∈ l /\ slot_map (state_ s) !! x = Some me) then None else slot_map (state_ s) !! x.
Proof.
  cbv zeta. revert s. induction l as [|slot l IH]; intros s Hok Ha; unfold remove_slots; cbn [foldl].
  { by split_and!. }
  set (s1 := if node_has_slot me slot s then _ else s).
  assert (cluster_ok s1 me /\ slots_agree s1 /\ keeps s s1 /\
    forall x, slot_map (state_ s1) !! x =
      if decide (x = slot /\ slot_map (state_ s) !! x = Some me) then None else slot_map (state_ s) !! x)
    as (Hok1 & Ha1 & Hk1 & Hm1).
  { unfold s1. rewrite node_has_slot_iff by done. case_bool_decide as Hx.
    - pose proof (released_moved slot me s Ha Hx) as Hmv. pose proof (keeps_released slot me s) as Hk.
      split_and!; [by eapply keeps_ok|by eapply moved_agree|done|]. intros x.
      etrans; [exact (mv_map _ _ _ _ Hmv x)|]. repeat case_decide; naive_solver.
    - split_and!; try done. intros x. case_decide; naive_solver. }
  destruct (IH s1 Hok1 Ha1) as (Hok2 & Ha2 & Hk2 & Hm2).
  split_and!; [done|done|by etrans|]. intros x. etrans; [exact (Hm2 x)|]. rewrite !Hm1.
  repeat case_decide; set_solver.
Qed.

(** SETSLOT NODE. *)
Definition reassigned (slot : Z) (nm : bytes) (i : nid) (s : ClusterServer) : ClusterServer :=
  setSlotOwner slot nm
    (match getNodeForSlot slot (state_ s) with
     | Some old => if bool_decide (old = i) then s else on_state (on_node old (node_delSlot slot)) s
     | None => s
     end).

Lemma reassigned_spec slot nm i s :
  slots_agree s -> getNode nm (state_ s) = Some i ->
  moved slot (Some i) s (reassigned slot nm i s) /\ keeps s (reassigned slot nm i s).
Proof.
  intros Ha Hi. unfold reassigned. set (s1 := match getNodeForSlot _ _ with Some _ => _ | None => _ end).
  assert (keeps s s1 /\ slot_map (state_ s1) = slot_map (state_ s) /\
    forall j n', node_at j s1 = Some n' -> exists n, node_at j s = Some n /\
      (forall x, x <> slot -> (x ∈ slots_ n' <-> x ∈ slots_ n)) /\ (j <> i -> slot ∉ slots_ n'))
    as (Hk & Hm & Hl).
  { unfold s1, getNodeForSlot. destruct (slot_map (state_ s) !! slot) as [old|] eqn:Ho; [case_bool_decide as E|].
    - split_and!; [done..|]. intros j n' Hn. exists n'. split_and!; [done..|].
      rewrite (Ha _ _ _ Hn). congruence.
    - split_and!; [by apply keeps_on_node|done|]. intros j n'. rewrite node_at_on_node. case_decide as Ej.
      + destruct (node_at j s) as [n|]; [|done]. intros [= <-]. exists n. split_and!; [done| |].
        * intros x Hx. rewrite elem_delSlot. tauto.
        * intros _. rewrite elem_delSlot. tauto.
      + intros Hn. exists n'. split_and!; [done..|]. rewrite (Ha _ _ _ Hn). congruence.
    - split_and!; [done..|]. intros j n' Hn. exists n'. split_and!; [done..|].
      rewrite (Ha _ _ _ Hn). congruence. }
  clearbody s1. split; [|etrans; [done|apply keeps_owner]].
  assert (getNode nm (state_ s1) = Some i) as Hi1.
  { destruct Hk as [[_ Hn _] _]. unfold getNode in *. congruence. }
  unfold setSlotOwner. rewrite Hi1. split.
  { intros x. cbn. rewrite lookup_insert, Hm. repeat case_decide; congruence. }
  { intros j n'. rewrite (node_at_on_node i (addSlot slot)
      (on_state (fun st => setNodeForSlot slot i (clearSlotMigration slot st)) s1)).
    change (node_at j (on_state _ s1)) with (node_at j s1). case_decide as E.
    + subst. destruct (node_at j s1) as [n1|] eqn:Hn1; [|done]. intros [= <-].
      destruct (Hl _ _ Hn1) as (n & Hn & Hx & _). exists n. split_and!; [done| |].
      * intros x Hne. rewrite elem_addSlot, Hx by done. tauto.
      * rewrite elem_addSlot. tauto.
    + intros Hn1. destruct (Hl _ _ Hn1) as (n & Hn & Hx & Hs). exists n. split_and!; [done|done|].
      specialize (Hs ltac:(congruence)). split; [done|congruence]. }
Qed.

Lemma reassigned_stable slot nm i s :
  getNode nm (state_ s) = Some i -> isSlotMigrating slot (state_ (reassigned slot nm i s)) = false.
Proof.
  intros Hi. unfold reassigned. set (s1 := match getNodeForSlot _ _ with Some _ => _ | None => _ end).
  assert (getNode nm (state_ s1) = Some i) as Hi1 by (unfold s1; by repeat case_match).
  unfold setSlotOwner. rewrite Hi1. unfold isSlotMigrating. cbn. rewrite lookup_delete_eq.
  by apply bool_decide_eq_false_2; intros [].
Qed.

(** ** The subcommands keep the node consistent *)

Definition consistent (me : nid) (s : ClusterServer) : Prop := cluster_ok s me /\ slots_agree s.

Lemma consistent_same me s s' : keeps s s' -> same_slots s s' -> consistent me s -> consistent me s'.
Proof. intros Hk Hs [Hok Ha]. split; [by eapply keeps_ok|by eapply same_slots_agree]. Qed.

Lemma meet_consistent e args me s : consistent me s -> consistent me (handleMeet e args s).1.2.
Proof.
  intros [Hok Ha]. unfold handleMeet, wrong_cluster_args, err. repeat case_match; try done.
  all: cbn [fst snd]; split; [by apply make_node_any_ok|by eapply make_node_agree].
Qed.

Lemma slot_list_consistent name args me s k :
  consistent me s -> (forall slots, consistent me (k me slots).1.2) ->
  consistent me (with_slot_list name args s k).1.2.
Proof.
  intros Hc Hk. unfold with_slot_list, wrong_cluster_args, err.
  destruct (_ <? _)%nat; [done|]. destruct (negb _); [done|]. rewrite (ok_me _ _ (proj1 Hc)).
  destruct (parse_slots args); [apply Hk|done].
Qed.

Lemma addslots_consistent args me s : consistent me s -> consistent me (handleAddSlots args s).1.2.
Proof.
  intros Hc. apply slot_list_consistent; [done|]. intros slots.
  destruct (assign_slots_spec me slots s (proj1 Hc) (proj2 Hc)) as (Hok & Ha & _).
  destruct (assign_slots me slots s) as [[x|] s']; by split.
Qed.

Lemma delslots_consistent args me s : consistent me s -> consistent me (handleDelSlots args s).1.2.
Proof.
  intros Hc. apply slot_list_consistent; [done|]. intros slots.
  destruct (remove_slots_spec me slots s (proj1 Hc) (proj2 Hc)) as (Hok & Ha & _). by split.
Qed.

Lemma setslot_consistent args me s : consistent me s -> consistent me (handleSetSlot args s).1.2.
Proof.
  intros Hc. unfold handleSetSlot, wrong_cluster_args, err, OK. destruct (_ <? _)%nat; [done|].
  destruct (negb _); [done|]. rewrite (ok_me _ _ (proj1 Hc)). destruct (parse_slot _) as [slot|]; [|done].
  case_bool_decide; [destruct (_ <? _)%nat; [done|]; case_match; [|done];
    by apply (consistent_same me s); [apply keeps_state|..]|].
  case_bool_decide; [destruct (_ <? _)%nat; [done|]; case_match; [|done];
    by apply (consistent_same me s); [apply keeps_state|..]|].
  case_bool_decide; [destruct (_ <? _)%nat; [done|]; destruct (getNode _ _) as [i|] eqn:Hi; [|done]|].
  - destruct (reassigned_spec slot (arg 4 args) i s (proj2 Hc) Hi) as [Hm Hk].
    split; [exact (keeps_ok _ _ _ Hk (proj1 Hc))|exact (moved_agree _ _ _ _ Hm (proj2 Hc))].
  - case_bool_decide; [|done]. by apply (consistent_same me s); [apply keeps_state|..].
Qed.

Lemma replicate_consistent args me s : consistent me s -> consistent me (handleReplicate args s).1.2.
Proof.
  intros Hc. unfold handleReplicate, wrong_cluster_args, err. destruct (_ <? _)%nat; [done|].
  destruct (negb _); [done|]. destruct (my_node s) as [n|]; [|done]. destruct (node_isReplica n); [done|].
  destruct (_ ≫= _) as [m|]; [|done]. destruct (negb _); [done|].
  destruct (setReplicaOf (arg 2 args) s) as [ok c] eqn:E.
  assert (consistent me c) as Hcc; [|by destruct ok].
  replace c with (setReplicaOf (arg 2 args) s).2 by by rewrite E.
  eapply consistent_same; [apply keeps_setReplicaOf|apply same_slots_replica|done].
Qed.

Lemma fail_consistent e args me s : consistent me s -> consistent me (handleFail e args s).1.2.
Proof.
  intros Hc. unfold handleFail, wrong_cluster_args, err, OK. repeat (case_match; try done).
  eapply consistent_same; [apply keeps_markFail|apply same_slots_fail|done].
Qed.

(** One CLUSTER command with what it gets from outside. *)
Record invocation := mkInv {
  iv_env : env;
  iv_clocks : Z * Z * Z;
  iv_answer : bytes -> list bytes -> Z -> option bytes;
  iv_meanwhile : Storage -> Storage;
  iv_args : list bytes
}.

Definition invoke `{StringHash} `{DoubleText} `{HashOrder} (w : ClusterServer * Storage) (v : invocation)
    : ClusterServer * Storage :=
  let '(t1, t2, t3) := iv_clocks v in
  let '(_, c, s, _) :=
    execute (iv_env v) t1 t2 t3 (iv_answer v) (iv_meanwhile v) (iv_args v) w.1 w.2 in (c, s).

Lemma invoke_consistent `{StringHash} `{DoubleText} `{HashOrder} me w v :
  consistent me w.1 -> consistent me (invoke w v).1.
Proof.
  intros Hc. unfold invoke. destruct (iv_clocks v) as [[t1 t2] t3].
  assert (forall (r : bytes * ClusterServer * list conn_call), consistent me r.1.2 ->
    forall s : Storage, consistent me (let '(_, c, s, _) := (let '(reply, c, calls) := r in (reply, c, s, calls)) in
      (c, s)).1) as Hr by (by intros [[? ?] ?] ? ?).
  unfold execute. destruct (_ <? _)%nat; [by apply Hr|].
  repeat (case_bool_decide; [apply Hr; first [by apply meet_consistent|by apply addslots_consistent|
    by apply delslots_consistent|by apply setslot_consistent|by apply replicate_consistent|
    by apply fail_consistent|unfold handleNodes, handleInfo, handleSlots, err; by repeat case_match]|]).
  case_bool_decide; [|by apply Hr]. by destruct (handleMigrate _ _ _ _ _ _ _ _ _) as [[? ?] ?].
Qed.

Lemma init_agree i p : slots_agree (init i p).
Proof.
  intros j n slot. unfold init, node_at. cbn. unfold addNode. cbn [heap nodes_].
  rewrite lookup_singleton_eq, lookup_empty. cbn [with_nodes heap slot_map].
  intros [<- <-]%lookup_singleton_Some. cbn. rewrite lookup_empty. set_solver.
Qed.

(** C33: whatever CLUSTER commands clients send to a node, with whatever answers of the
    other nodes, the node stays listed under its name, the tables name nodes of the
    cluster, and every node lists exactly the slots that the table gives to it. *)
Theorem cluster_commands_consistent `{StringHash} `{DoubleText} `{HashOrder} i p s l :
  let c := (foldl invoke (init i p, s) l).1 in
  cluster_ok c 0 /\
  forall j n slot, node_at j c = Some n -> (slot ∈ slots_ n <-> getNodeForSlot slot (state_ c) = Some j).
Proof.
  cbv zeta. assert (forall w, consistent 0 w.1 -> consistent 0 (foldl invoke w l).1) as Hl.
  { induction l as [|v l IH]; intros w Hw; cbn [foldl]; [done|]. by apply IH, invoke_consistent. }
  apply (Hl (init i p, s)). split; [apply init_ok|apply init_agree].
Qed.

(** A slot of this node that does not migrate is served here. *)
Lemma own_slot_served key me s :
  cluster_ok s me -> isSlotMigrating (keyToSlot key) (state_ s) = false ->
  slot_map (state_ s) !! keyToSlot key = Some me -> checkRedirect key s = [].
Proof.
  intros Hok Hm Hs. destruct (ok_name _ _ Hok _ _ (ok_listed _ _ Hok)) as (n & Hn & Hname).
  rewrite (owner_redirect key s me n Hm Hs); [by rewrite decide_True|]. unfold static_at. by rewrite Hn.
Qed.

Lemma setslot_node_eq me sub text slot nm i s :
  enabled_ s = true -> my_node_ s = Some me -> parse_slot text = Some slot ->
  getNode nm (state_ s) = Some i ->
  handleSetSlot [lit "cluster"; sub; text; lit "NODE"; nm] s = OK (reassigned slot nm i s).
Proof.
  intros He Hme Ht Hi. unfold handleSetSlot. cbn [length Nat.ltb Nat.leb arg nth].
  rewrite He, Hme, Ht, Hi. cbn [negb].
  rewrite (bool_decide_eq_false_2 (lit "NODE" = lit "MIGRATING")) by done.
  rewrite (bool_decide_eq_false_2 (lit "NODE" = lit "IMPORTING")) by done.
  by rewrite (bool_decide_eq_true_2 (lit "NODE" = lit "NODE")) by done.
Qed.

(** ADDSLOTS takes the slots in the order given, up to the first that belongs to
    another node: without one the reply is OK, and keys of these slots are served
    here; with one the reply names it, and the slots before it are taken already.
    DELSLOTS gives up those of the slots that are this node's. SETSLOT NODE moves
    the slot to the node named, and sends its keys there. *)
Theorem slot_commands_effect me s sub args l text slot nm i n key :
  cluster_ok s me -> slots_agree s -> enabled_ s = true -> (3 <= length args)%nat ->
  parse_slots args = Some l -> parse_slot text = Some slot -> keyToSlot key = slot ->
  getNode nm (state_ s) = Some i -> node_at i s = Some n ->
  let owner x s := getNodeForSlot x (state_ s) in
  let '(reply, s1, _) := handleAddSlots args s in
  let '(reply2, s2, _) := handleDelSlots args s in
  let '(reply3, s3, _) := handleSetSlot [lit "cluster"; sub; text; lit "NODE"; nm] s in
  (exists l1 l2, l = l1 ++ l2 /\
     (forall x, owner x s1 = if decide (x ∈ l1) then Some me else owner x s) /\
     match l2 with
     | [] =>
         reply = encode_simple_string (lit "OK") /\
         (slot ∈ l -> isSlotMigrating slot (state_ s) = false -> checkRedirect key s1 = [])
     | x :: _ =>
         reply = encode_error (lit "ERR slot " ++ to_string x ++ lit " is already owned by another node") /\
         exists j, owner x s = Some j /\ j <> me
     end) /\
  (reply2 = encode_simple_string (lit "OK") /\
   forall x, owner x s2 = if decide (x ∈ l /\ owner x s = Some me) then None else owner x s) /\
  (reply3 = encode_simple_string (lit "OK") /\
   (forall x, owner x s3 = if decide (x = slot) then Some i else owner x s) /\
   checkRedirect key s3 =
     if decide (nm = getMyNodeName s) then []
     else lit "-ERR MOVED " ++ to_string slot ++ lit " " ++ address n ++ crlf).
Proof.
  intros Hok Ha He Hlen Hp Ht Hkey Hi Hn owner.
  unfold handleAddSlots, handleDelSlots, with_slot_list. rewrite He, (ok_me _ _ Hok), Hp.
  destruct (Nat.ltb_spec (length args) 3); [lia|]. cbn [negb].
  destruct (assign_slots_spec me l s Hok Ha) as (Hok1 & _ & _ & Hg & l1 & l2 & Hl & Hr & Hm & _ & Hf).
  destruct (remove_slots_spec me l s Hok Ha) as (_ & _ & _ & Hm2).
  destruct (assign_slots me l s) as [taken s1]. cbn [fst snd] in *.
  rewrite (setslot_node_eq me sub text slot nm i s) by (done || apply Hok). unfold OK, err, owner.
  destruct (reassigned_spec slot nm i s Ha Hi) as [Hmv [Hk _]].
  assert (checkRedirect key (reassigned slot nm i s) =
    if decide (nm = getMyNodeName s) then []
    else lit "-ERR MOVED " ++ to_string slot ++ lit " " ++ address n ++ crlf) as Hred.
  { destruct (ok_name _ _ Hok _ _ Hi) as (n' & Hn' & <-). rewrite Hn in Hn'. injection Hn' as <-.
    rewrite <-(getMyNodeName_same _ _ Hk), <-Hkey.
    apply (owner_redirect key _ i n); rewrite ?Hkey.
    - by apply reassigned_stable.
    - etrans; [apply Hmv|]. by rewrite decide_True.
    - rewrite (sr_static _ _ Hk). unfold static_at. by rewrite Hn. }
  destruct l2 as [|x l2]; cbn [head] in Hr, Hf; subst taken.
  - split_and!; [|done|exact Hm2|done|apply Hmv|done].
    exists l1, []. split_and!; [done|exact Hm|done|]. intros Hsl Hmig. rewrite app_nil_r in Hl. subst l1.
    apply (own_slot_served key me); [done| |]; rewrite Hkey.
    + unfold isSlotMigrating in *. by rewrite Hg.
    + by rewrite Hm, decide_True.
  - split_and!; [|done|exact Hm2|done|apply Hmv|done].
    exists l1, (x :: l2). split_and!; [done|exact Hm|done|]. by apply Hf.
Qed.

Lemma pair_agree : slots_agree pair_cluster.
Proof.
  exact (make_node_agree (lit "10.0.0.2:7000") (lit "10.0.0.2") 7000 (init (lit "10.0.0.1") 7000) 0
    (init_ok _ _) (init_agree _ _)).
Qed.

Lemma slot_commands_effect_witness :
  checkRedirect (lit "k")
    (handleSetSlot [lit "cluster"; lit "setslot"; to_string (keyToSlot (lit "k")); lit "NODE"; lit "10.0.0.2:7000"]
      pair_cluster).1.2 =
  lit "-ERR MOVED " ++ to_string (keyToSlot (lit "k")) ++ lit " 10.0.0.2:7000" ++ crlf.
Proof.
  pose proof (slot_commands_effect 0 pair_cluster (lit "setslot") [lit "cluster"; lit "addslots"; lit "5"] [5]
    (to_string (keyToSlot (lit "k"))) (keyToSlot (lit "k")) (lit "10.0.0.2:7000") 1
    (new_node (lit "10.0.0.2:7000") (lit "10.0.0.2") 7000 kMaster) (lit "k") pair_ok pair_agree
    ltac:(by vm_compute) ltac:(by vm_compute; lia) ltac:(by vm_compute) ltac:(by vm_compute) ltac:(done)
    ltac:(by vm_compute) ltac:(by vm_compute)) as H.
  destruct (handleAddSlots _ _) as [[? ?] ?], (handleDelSlots _ _) as [[? ?] ?],
    (handleSetSlot _ _) as [[? ?] ?].
  destruct H as (_ & _ & _ & _ & H). etrans; [exact H|by vm_compute].
Defined.

(** The name in the error reply of FAIL is not cleaned: a line break in it makes two
    replies of one. *)
Theorem fail_reply_splits e x s me :
  enabled_ s = true -> my_node_ s = Some me ->
  getNode (x ++ crlf ++ lit "+OK") (state_ s) = None ->
  (handleFail e [lit "cluster"; lit "fail"; x ++ crlf ++ lit "+OK"] s).1.1 =
    encode_error (lit "ERR node not found: " ++ x) ++ encode_simple_string (lit "OK").
Proof.
  intros He Hm Hn. unfold handleFail. cbn [length Nat.ltb Nat.leb arg nth]. rewrite He, Hm, Hn. cbn [negb].
  unfold err, encode_error, encode_simple_string. cbn [fst].
  assert (forall y, starts_with (lit "ERR ") (lit "ERR node not found: " ++ y) = true) as Hs by done.
  assert (forall y, starts_with (lit "WRONGTYPE") (lit "ERR node not found: " ++ y) = false) as Hw by done.
  rewrite !Hs, !Hw. cbn [orb]. by rewrite <-!app_assoc.
Qed.

(** ** MIGRATE *)

Section migrate.
Context `{StringHash} `{DoubleText} `{HashOrder} (e : env).

(** The arguments of a well-formed MIGRATE. *)
Record migrate_args (host ptext key ttext : bytes) (port timeout : Z) : Prop := {
  ma_timeout : parse_bounded_integer ttext = Some timeout;
  ma_timeout_range : 1 <= timeout <= kMaxMigrateTimeoutMs;
  ma_port : stoi ptext = Some port;
  ma_port_range : 1 <= port <= 65535
}.

Definition migrate_line (host ptext key ttext : bytes) (replace : bool) : list bytes :=
  [lit "cluster"; lit "migrate"; host; ptext; key; ttext] ++ (if replace then [lit "REPLACE"] else []).

(** The RESTORE that is sent for an object with a time to live. *)
Definition restore_line (key : bytes) (ttl : Z) (o : CacheObject) (replace : bool) : list bytes :=
  [lit "RESTORE"; key; to_string ttl; serialize o] ++ (if replace then [lit "REPLACE"] else []).

Definition reaches (target : bytes) : bool := connected e target || connects e target.

(** What [get] leaves of the deadline of a key it found. *)
Lemma get_deadline now k s o :
  storage_wf s -> (get now k s).1 = Some o -> expire_dict_ (get now k s).2 = expire_dict_ s.
Proof.
  intros Hwf. unfold get, get_lookup. destruct (shard_of k s !! k); [|done].
  by destruct (is_expired now k s).
Qed.

Lemma migrate_prepare_eq t1 t2 t3 host ptext key ttext port timeout replace cluster s :
  migrate_args host ptext key ttext port timeout -> enabled_ cluster = true ->
  let target := host ++ lit ":" ++ to_string port in
  reaches target = true ->
  migrate_prepare e t1 t2 t3 (migrate_line host ptext key ttext replace) cluster s =
    let '(value_opt, s) := get t1 key s in
    match value_opt with
    | None => (Refused (encode_error (lit "ERR no such key")), s, [])
    | Some o =>
        if is_expired t2 key s then (Refused (encode_error (lit "ERR no such key")), (del key s).2, [])
        else
          let r := ExpireDict.get_ttl t3 key (expire_dict_ s) in
          (Send target (restore_line key (if 0 <? r then r else -1) o replace) timeout, s,
           if connected e target then [] else [ConnectTo target host port])
    end.
Proof.
  intros [Ht Htr Hp Hpr] He target Hr. unfold migrate_prepare, migrate_line.
  assert ((length ([lit "cluster"; lit "migrate"; host; ptext; key; ttext] ++
    (if replace then [lit "REPLACE"] else [])) <? 6)%nat = false) as -> by by destruct replace.
  cbn [app arg nth]. rewrite Ht, Hp, He. cbn [negb].
  rewrite (proj2 (Z.leb_gt timeout 0)), (proj2 (Z.ltb_ge kMaxMigrateTimeoutMs timeout)) by lia.
  rewrite (proj2 (Z.leb_gt port 0)), (proj2 (Z.ltb_ge 65535 port)) by lia. cbn [orb].
  destruct (get t1 key s) as [[o|] s1]; [|done]. destruct (is_expired t2 key s1); [done|]. cbv zeta.
  unfold reaches in Hr. fold target. rewrite Hr. unfold restore_line. by destruct replace.
Qed.

(** The time to live that is sent for a key with a deadline. *)
Definition sent_ttl (now : Z) (dl : option Z) : Z := match dl with Some d => d - now | None => -1 end.

(** A clock that has advanced does not bring a key back. *)
Lemma del_expired_live now now' k s :
  storage_wf s -> is_expired now k s = true -> now <= now' ->
  forall k', live now' (del k s).2 k' = live now' s k'.
Proof.
  intros Hwf Hx Hle k'. rewrite (proj2 (proj2 (del_live now' k s Hwf))). unfold upd.
  destruct (decide (k' = k)) as [->|]; [|done]. unfold live. destruct (entry s k); [|done].
  rewrite is_expired_deadline in *. destruct (deadline s k) as [d|]; [|done].
  apply Z.leb_le in Hx. by rewrite (proj2 (Z.leb_le d now')) by lia.
Qed.

Lemma get_live_later now now' k s :
  storage_wf s -> now <= now' -> storage_wf (get now k s).2 /\ forall k', live now' (get now k s).2 k' = live now' s k'.
Proof.
  intros Hwf Hle. split; [apply (get_live now k s Hwf)|]. intros k'. unfold get, get_lookup. fold (entry s k).
  destruct (entry s k) as [en|] eqn:He; [|done]. destruct (is_expired now k s) eqn:Hx.
  - by apply (del_expired_live now).
  - cbn [snd]. unfold live. rewrite entry_insert by apply Hwf. destruct (decide _) as [->|]; [|done].
    rewrite He. by rewrite !is_expired_deadline, deadline_insert.
Qed.

(** The clock is read three times; the key does not expire meanwhile. *)
Lemma migrate_prepare_live t1 t2 t3 host ptext key ttext port timeout replace cluster s :
  migrate_args host ptext key ttext port timeout -> enabled_ cluster = true ->
  reaches (host ++ lit ":" ++ to_string port) = true -> storage_wf s ->
  0 <= t1 <= t2 -> t2 <= t3 -> t3 < int64_max ->
  (forall o d, live t1 s key = Some (o, Some d) -> t3 < d) ->
  let target := host ++ lit ":" ++ to_string port in
  let s1 := (get t1 key s).2 in
  match live t1 s key with
  | None =>
      migrate_prepare e t1 t2 t3 (migrate_line host ptext key ttext replace) cluster s =
        (Refused (encode_error (lit "ERR no such key")), s1, [])
  | Some (o, dl) =>
      in_i64 (sent_ttl t3 dl) /\ (forall d, dl = Some d -> 0 < sent_ttl t3 dl) /\
      migrate_prepare e t1 t2 t3 (migrate_line host ptext key ttext replace) cluster s =
        (Send target (restore_line key (sent_ttl t3 dl) o replace) timeout, s1,
         if connected e target then [] else [ConnectTo target host port])
  end.
Proof.
  intros Ha He Hr Hwf H12 H23 H3 Hlate target s1. destruct (get_live t1 key s Hwf) as (_ & Hv & _).
  rewrite (migrate_prepare_eq t1 t2 t3 host ptext key ttext port timeout) by done.
  pose proof (get_deadline t1 key s) as Hdl. unfold s1 in *. clear s1.
  destruct (get t1 key s) as [v s1]. cbn [fst snd] in *.
  unfold live in Hv, Hlate |- *. destruct (entry s key) as [en|] eqn:Hen; [|by subst v].
  destruct (is_expired t1 key s) eqn:Hx; [by subst v|]. subst v. cbn [fmap option_fmap option_map fst].
  rewrite (is_expired_deadline t2 key s1). unfold deadline in *. rewrite (Hdl (value en) Hwf eq_refl).
  assert (map_Forall (fun _ t => 0 < t <= int64_max) (expire_dict_ s)) as Hd.
  { intros k t Hk. exact (proj2 (swf_deadline _ Hwf k t Hk)). }
  rewrite ExpireDict.get_ttl_spec by (done || unfold int64_max in *; lia). unfold ExpireDict.is_expired.
  destruct (expire_dict_ s !! key) as [d|] eqn:Ek; cbn [sent_ttl]; [|by split_and!].
  specialize (Hlate _ _ eq_refl). apply Hd in Ek. cbn beta in Ek.
  rewrite (proj2 (Z.leb_gt d t2)), (proj2 (Z.leb_gt d t3)), (proj2 (Z.ltb_lt 0 (d - t3))) by lia.
  split_and!; [unfold in_i64, int64_min, int64_max in *; lia|intros; lia|done].
Qed.

(** The answers of RESTORE, as MIGRATE reads them. *)
Lemma finish_ok key s :
  migrate_finish key (Some (encode_simple_string (lit "OK"))) s = (encode_simple_string (lit "OK"), (del key s).2).
Proof. done. Qed.

Lemma finish_busy key s :
  migrate_finish key (Some (encode_error (lit "BUSYKEY Target key name already exists"))) s =
  (encode_error (lit "ERR target node replied: ERR BUSYKEY Target key name already exists"), s).
Proof. done. Qed.

(** C14: MIGRATE between two nodes. The clock of the source is read three times, other
    threads use the source while the answer is awaited, and the key neither expires
    between the readings nor is written meanwhile. Then a key that a client can see is
    recreated on the target with the same value and the rest of its time to live, and is
    gone from the source, where MIGRATE changes nothing else; without REPLACE, a target
    that has the key refuses, the reply is an error, and neither side changes; a key that
    is not there is an error. (What happens to a key that does expire or is written
    meanwhile: [migrate_late_expiry], [migrate_lost_update].) *)
Theorem migrate_moves `{StoreOrder} t1 t2 t3 now' draw host ptext key ttext port timeout replace cluster s tgt meanwhile :
  migrate_args host ptext key ttext port timeout -> enabled_ cluster = true ->
  reaches (host ++ lit ":" ++ to_string port) = true ->
  store_ok s -> store_ok tgt -> 0 <= t1 <= t2 -> t2 <= t3 -> t3 < int64_max -> 0 <= now' < int64_max ->
  (forall o d, live t1 s key = Some (o, Some d) -> t3 < d) ->
  (forall s, storage_wf s -> storage_wf (meanwhile s) /\ live t3 (meanwhile s) key = live t3 s key) ->
  (forall o dl, live t1 s key = Some (o, dl) -> payload_fits o) ->
  let restore args := restore_cmd now' draw args tgt in
  let '(reply, s', calls) :=
    handleMigrate e t1 t2 t3 (fun _ args _ => (restore args).1) meanwhile
      (migrate_line host ptext key ttext replace) cluster s in
  match live t1 s key with
  | None =>
      reply = encode_error (lit "ERR no such key") /\ calls = [] /\ forall k, live t3 s' k = live t3 s k
  | Some (o, dl) =>
      exists args s1, last calls = Some (SendCommand (host ++ lit ":" ++ to_string port) args) /\
      (forall k, live t3 s1 k = live t3 s k) /\ live t3 (meanwhile s1) key = Some (o, dl) /\
      if negb replace && bool_decide (is_Some (live now' tgt key)) then
        (exists text, reply = encode_error text) /\
        (forall k, live t3 s' k = live t3 (meanwhile s1) k) /\
        (forall k, live now' (restore args).2 k = live now' tgt k)
      else
        reply = encode_simple_string (lit "OK") /\
        (forall k, live t3 s' k = upd (live t3 (meanwhile s1)) key None k) /\
        (forall k, live now' (restore args).2 k =
           upd (kept now' draw tgt) key
             (Some (o, (fun d => ExpireDict.sat_add now' (d - t3)) <$> dl)) k)
  end.
Proof.
  intros Ha He Hr Hs Ht H12 H23 H3 Hnow' Hlate Hmw Hfits restore. unfold handleMigrate.
  pose proof (migrate_prepare_live t1 t2 t3 host ptext key ttext port timeout replace cluster s Ha He Hr
    (proj1 Hs) H12 H23 H3 Hlate) as Hp.
  destruct (get_live_later t1 t3 key s (proj1 Hs) ltac:(lia)) as [Hwf1 Hl1].
  destruct (live t1 s key) as [[o dl]|] eqn:Hl; [|by rewrite Hp].
  destruct Hp as (Hin & Hpos & ->). cbv beta iota.
  replace (arg 4 (migrate_line host ptext key ttext replace)) with key by by destruct replace.
  destruct (Hmw _ Hwf1) as [Hwf2 Hkey].
  assert (live t3 s key = Some (o, dl)) as Hl3.
  { unfold live in Hl |- *. destruct (entry s key) as [en|]; [|done]. rewrite is_expired_deadline in *.
    destruct (deadline s key) as [d|]; [|by destruct (t1 <? 0)].
    destruct (d <=? t1); [done|]. injection Hl as <- <-. by rewrite (proj2 (Z.leb_gt d t3) (Hlate _ _ eq_refl)). }
  rewrite Hl1, Hl3 in Hkey.
  set (args := restore_line key (sent_ttl t3 dl) o replace).
  set (s1 := (get t1 key s).2) in *.
  destruct (restore_effect now' draw (lit "RESTORE") key (to_string (sent_ttl t3 dl)) (sent_ttl t3 dl) _ o tgt
    Ht Hnow' (live_ok _ _ _ _ _ Hs Hl) (Hfits o dl eq_refl) (stoll_to_string _ Hin)) as [Hrep Hno].
  assert (deadline_of now' (sent_ttl t3 dl) = (fun d => ExpireDict.sat_add now' (d - t3)) <$> dl) as Hdl.
  { unfold deadline_of. destruct dl as [d|]; [|done]. cbn. specialize (Hpos d eq_refl). cbn in Hpos.
    by rewrite (proj2 (Z.ltb_lt _ _) Hpos). }
  rewrite Hdl in Hrep, Hno.
  assert (forall r f, effect now' (restore_cmd now' draw args) tgt r f ->
    (restore args).1 = r /\ forall k, live now' (restore args).2 k = f k) as Heff by (intros r f Hf; exact Hf).
  assert (if negb replace && bool_decide (is_Some (live now' tgt key))
    then effect now' (restore_cmd now' draw args) tgt
           (Some (encode_error (lit "BUSYKEY Target key name already exists"))) (live now' tgt)
    else effect now' (restore_cmd now' draw args) tgt (Some (encode_simple_string (lit "OK")))
           (upd (kept now' draw tgt) key (Some (o, (fun d => ExpireDict.sat_add now' (d - t3)) <$> dl)))) as Hres.
  { unfold args, restore_line. destruct replace; cbn [negb andb]; [exact Hrep|]. rewrite app_nil_r.
    case_bool_decide as E; case_decide; done. }
  destruct (negb replace && _); destruct (Heff _ _ Hres) as [Hr1 Hr2]; rewrite Hr1.
  - rewrite finish_busy. exists args, s1. split_and!; [apply last_snoc|done|done|by eexists|done|done].
  - rewrite finish_ok. exists args, s1. split_and!; [apply last_snoc|done|done|done| |done].
    intros k. apply (proj2 (proj2 (del_live t3 key _ Hwf2))).
Qed.

(** The refusal of the target reaches the client behind two prefixes, since RESTORE does
    not answer [-BUSYKEY] but [-ERR BUSYKEY]. *)
Theorem busy_reply_text key s :
  encode_error (lit "BUSYKEY Target key name already exists") =
    lit "-ERR BUSYKEY Target key name already exists" ++ crlf /\
  migrate_finish key (Some (encode_error (lit "BUSYKEY Target key name already exists"))) s =
    (lit "-ERR target node replied: ERR BUSYKEY Target key name already exists" ++ crlf, s).
Proof. done. Qed.

Lemma encode_error_not_ok x : encode_error x <> encode_simple_string (lit "OK").
Proof. unfold encode_error. by destruct (_ || _). Qed.

(** The first half of MIGRATE takes nothing away that a client can see. *)
Lemma migrate_prepare_keeps t1 t2 t3 now args cluster s :
  storage_wf s -> t1 <= now -> t2 <= now ->
  forall k, live now (migrate_prepare e t1 t2 t3 args cluster s).1.2 k = live now s k.
Proof.
  intros Hwf Ht1 Ht2 k. unfold migrate_prepare. destruct (_ <? _)%nat; [done|].
  destruct (parse_bounded_integer _) as [to|]; [|done]. destruct (_ || _); [done|].
  destruct (negb _); [done|]. destruct (stoi _) as [p|]; [|done]. destruct (_ || _); [done|].
  destruct (get_live_later t1 now (arg 4 args) s Hwf Ht1) as [Hwf1 Hl].
  destruct (get t1 (arg 4 args) s) as [[o|] s1]; cbn [snd] in *; [|apply Hl].
  destruct (is_expired t2 (arg 4 args) s1) eqn:Hx.
  - cbn [fst snd]. rewrite (del_expired_live t2 now) by done. apply Hl.
  - cbv zeta. destruct (_ || _); apply Hl.
Qed.

Lemma migrate_prepare_cases t1 t2 t3 args cluster s :
  match (migrate_prepare e t1 t2 t3 args cluster s).1.1 with
  | Refused reply => exists x, reply = encode_error x
  | Send _ _ timeout => 1 <= timeout <= 60000
  end.
Proof.
  unfold migrate_prepare. destruct (_ <? _)%nat; [by eexists|].
  destruct (parse_bounded_integer _) as [to|]; [|by eexists].
  destruct ((to <=? 0) || _) eqn:Ht; [by eexists|]. apply orb_false_iff in Ht as [?%Z.leb_gt ?%Z.ltb_ge].
  destruct (negb _); [by eexists|]. destruct (stoi _) as [p|]; [|by eexists].
  destruct (_ || _); [by eexists|]. destruct (get t1 _ s) as [[o|] s1]; [|by eexists].
  destruct (is_expired _ _ _); [by eexists|]. cbv zeta. destruct (_ || _); [|by eexists].
  cbn. unfold kMaxMigrateTimeoutMs in *. lia.
Qed.

(** C15: MIGRATE loses no key. Whatever the target answers, or if it does not answer at
    all, a reply other than OK leaves every key of the source as clients see it; and
    the reply is OK only after the target has answered +OK. *)
Theorem migrate_keeps_source t1 t2 t3 now answer args cluster s :
  storage_wf s -> t1 <= now -> t2 <= now ->
  let '(reply, s', calls) := handleMigrate e t1 t2 t3 answer (fun s => s) args cluster s in
  (reply <> encode_simple_string (lit "OK") -> forall k, live now s' k = live now s k) /\
  (reply = encode_simple_string (lit "OK") ->
   exists target restore_args timeout text,
     last calls = Some (SendCommand target restore_args) /\ 1 <= timeout <= 60000 /\
     answer target restore_args timeout = Some text /\ take 3 text = lit "+OK").
Proof.
  intros Hwf Ht1 Ht2. pose proof (migrate_prepare_keeps t1 t2 t3 now args cluster s Hwf Ht1 Ht2) as Hk.
  pose proof (migrate_prepare_cases t1 t2 t3 args cluster s) as Hc. unfold handleMigrate.
  destruct (migrate_prepare e t1 t2 t3 args cluster s) as [[[reply|target rargs to] s1] calls]; cbn [fst snd] in *.
  - destruct Hc as [x ->]. split; [done|]. by intros ?%encode_error_not_ok.
  - unfold migrate_finish. destruct (answer target rargs to) as [text|] eqn:Hans.
    + case_bool_decide as Hok.
      * split; [done|]. intros _. exists target, rargs, to, text. by rewrite last_snoc.
      * case_bool_decide; (split; [done|by intros ?%encode_error_not_ok]).
    + split; [done|by intros ?%encode_error_not_ok].
Qed.

Lemma lost_update_locked now key o s :
  storage_wf s ->
  live now (set_locked now key o s) key = Some (o, None) /\
  live now (migrate_finish key (Some (encode_simple_string (lit "OK"))) (set_locked now key o s)).2 key = None.
Proof.
  intros Hwf. destruct (set_live now key o s Hwf) as [Hwf1 Hl].
  generalize dependent (set_locked now key o s). intros s1 Hwf1 Hl. split; [rewrite Hl; apply upd_same|].
  rewrite finish_ok. change (live now (del key s1).2 key = None).
  rewrite (proj2 (proj2 (del_live now key s1 Hwf1))). apply upd_same.
Qed.

(** Where MIGRATE races. A write to the key while the answer is awaited is deleted
    with the key; a key whose deadline passes between [is_expired] and [get_ttl] is
    sent as one without a deadline. *)
Theorem migrate_lost_update `{StoreOrder} now draw key v s :
  store_ok s ->
  let meanwhile s := set now draw key (object_of_string v) s in
  live now (meanwhile s) key = Some (object_of_string v, None) /\
  live now (migrate_finish key (Some (encode_simple_string (lit "OK"))) (meanwhile s)).2 key = None.
Proof.
  intros Hs meanwhile. unfold meanwhile, set. destruct (store_ok_evict now draw s Hs) as [Hwf _].
  generalize dependent (evict_if_needed now draw s). intros s0 Hwf. apply lost_update_locked. done.
Qed.

Theorem migrate_late_expiry t1 t2 t3 host ptext key ttext port timeout replace cluster s o d :
  migrate_args host ptext key ttext port timeout -> enabled_ cluster = true ->
  reaches (host ++ lit ":" ++ to_string port) = true -> storage_wf s ->
  live t1 s key = Some (o, Some d) -> 0 <= t2 < d -> d <= t3 < int64_max ->
  (migrate_prepare e t1 t2 t3 (migrate_line host ptext key ttext replace) cluster s).1.1 =
    Send (host ++ lit ":" ++ to_string port) (restore_line key (-1) o replace) timeout.
Proof.
  intros Ha He Hr Hwf Hl Ht2 Ht3. rewrite (migrate_prepare_eq t1 t2 t3 host ptext key ttext port timeout) by done.
  destruct (get_live t1 key s Hwf) as (_ & Hv & _). rewrite Hl in Hv.
  pose proof (get_deadline t1 key s o Hwf Hv) as Hdl. destruct (get t1 key s) as [v s1]. cbn [fst snd] in *.
  subst v. cbn [fmap option_fmap option_map fst]. rewrite is_expired_deadline. unfold deadline. rewrite Hdl.
  assert (expire_dict_ s !! key = Some d) as Hk.
  { unfold live in Hl. destruct (entry s key); [|done]. destruct (is_expired t1 key s); [done|].
    unfold deadline in Hl. congruence. }
  assert (map_Forall (fun _ t => 0 < t <= int64_max) (expire_dict_ s)) as Hd.
  { intros k t Hkt. exact (proj2 (swf_deadline _ Hwf k t Hkt)). }
  rewrite Hk, (proj2 (Z.leb_gt d t2)) by lia.
  rewrite ExpireDict.get_ttl_spec by (done || unfold int64_max in *; lia).
  unfold ExpireDict.is_expired. by rewrite Hk, (proj2 (Z.leb_le d t3)) by lia.
Qed.
End migrate.

Definition idle_env : env := mkEnv (fun _ => None) (fun _ => true) (fun _ => true) (fun l => l) 0 0 0 0 0 0.

Definition source_store : Storage :=
  set_locked (H := shash) 3 (lit "k") (object_of_string (lit "v")) new_storage.

Lemma source_store_ok : store_ok (H := shash) source_store.
Proof.
  apply (store_ok_dirty (H := shash)), store_ok_insert; [|by apply string_object_ok].
  apply (store_ok_remove (H := shash)), new_storage_ok.
Qed.

Lemma sample_migrate_args : migrate_args (lit "10.0.0.2") (lit "7000") (lit "k") (lit "500") 7000 500.
Proof. split; by vm_compute. Qed.

Lemma migrate_moves_witness :
  (@handleMigrate shash bits_text plain_order idle_env 5 6 7
     (fun _ args _ => (@restore_cmd shash sord bits_text 9 (fun n => n) args new_storage).1)
     (fun s => (@del shash (lit "other") s).2)
     (migrate_line (lit "10.0.0.2") (lit "7000") (lit "k") (lit "500") false) pair_cluster source_store).1.1 =
  encode_simple_string (lit "OK").
Proof.
  assert (@live shash 5 source_store (lit "k") = Some (object_of_string (lit "v"), None)) as Hl by by vm_compute.
  assert (@live shash 9 new_storage (lit "k") = None) as Ht by by vm_compute.
  pose proof (@migrate_moves shash bits_text plain_order idle_env sord 5 6 7 9 (fun n => n) (lit "10.0.0.2")
    (lit "7000") (lit "k") (lit "500") 7000 500 false pair_cluster source_store new_storage
    (fun s => (@del shash (lit "other") s).2) sample_migrate_args
    ltac:(by vm_compute) eq_refl source_store_ok (@new_storage_ok shash) ltac:(done) ltac:(done) ltac:(done) ltac:(done)
    ltac:(rewrite Hl; intros o d [=])
    ltac:(intros s Hs; destruct (@del_live shash 7 (lit "other") s Hs) as (? & _ & Hd); split; [done|by rewrite Hd])
    ltac:(rewrite Hl; intros o dl [= <- <-]; by vm_compute)) as H.
  cbv zeta in H. rewrite Hl, Ht in H. destruct (handleMigrate _ _ _ _ _ _ _ _ _) as [[r s'] c].
  destruct H as (args & s1 & _ & _ & _ & H). rewrite bool_decide_eq_false_2 in H by by intros [].
  cbn [negb andb] in H. cbv iota in H.
  destruct H as [H _]. exact H.
Defined.

Lemma migrate_keeps_source_witness :
  @live shash 9 (@handleMigrate shash bits_text plain_order idle_env 5 5 5 (fun _ _ _ => None) (fun s => s)
     (migrate_line (lit "10.0.0.2") (lit "7000") (lit "k") (lit "500") false) pair_cluster source_store).1.2
    (lit "k") = Some (object_of_string (lit "v"), None).
Proof.
  pose proof (@migrate_keeps_source shash bits_text plain_order idle_env 5 5 5 9 (fun _ _ _ => None)
    (migrate_line (lit "10.0.0.2") (lit "7000") (lit "k") (lit "500") false) pair_cluster source_store
    (proj1 source_store_ok) ltac:(done) ltac:(done)) as H.
  assert ((@handleMigrate shash bits_text plain_order idle_env 5 5 5 (fun _ _ _ => None) (fun s => s)
    (migrate_line (lit "10.0.0.2") (lit "7000") (lit "k") (lit "500") false) pair_cluster source_store).1.1 <>
    encode_simple_string (lit "OK")) as Hr by by vm_compute.
  destruct (handleMigrate _ _ _ _ _ _ _ _ _) as [[r s'] c]. cbn [fst snd] in *.
  rewrite (proj1 H Hr). by vm_compute.
Defined.
End ClusterCmdProps.
