(* ===== verification/Admin.v ===== *)
(** * The commands of administration: SAVE, BGSAVE, LASTSAVE, INFO, PSYNC, SYNC, REPLCONF

    [command/string_cmd.h], [command/psync_cmd.cpp] and the counters of
    [base/server_stats.h]. The end of a save, the lines of [/proc/self/status] and what
    other threads do between two steps of a command are inputs. *)

From S2P Require Import Prelude Base Resp Object ExpireDict Storage StorageSpec StorageProps Commands Rdb.
From stdpp Require Import options.

Module Admin.
Import Text Resp Object Storage StorageSpec StorageProps Commands Rdb.

(** ** ServerStats *)

Record ServerStats := mkServerStats { connections_accepted_ : Z; commands_processed_ : Z }.

Definition bump (n : Z) : Z := (n + 1) mod (uint64_max + 1).

Definition record_connection_accepted (c : ServerStats) : ServerStats :=
  mkServerStats (bump (connections_accepted_ c)) (commands_processed_ c).

Definition record_command_processed (c : ServerStats) : ServerStats :=
  mkServerStats (connections_accepted_ c) (bump (commands_processed_ c)).

(** ** SAVE, BGSAVE, LASTSAVE *)

Record server := mkServer { storage : Storage; rdb : RdbStats; counters : ServerStats }.

Definition with_rdb (r : RdbStats) (s : server) : server := mkServer (storage s) r (counters s).
Definition with_storage (st : Storage) (s : server) : server := mkServer st (rdb s) (counters s).

Definition in_progress_error : bytes := encode_error (lit "ERR BGSAVE already in progress").

(** [meanwhile] is what other threads do while the snapshot is made. *)
Definition save_cmd (time_sec : Z) (ending : save_end) (meanwhile : server -> server) (s : server) : bytes * server :=
  if bgsave_in_progress_ (rdb s) then (in_progress_error, s)
  else
    let observed := dirty_counter_ (storage s) in
    let s := meanwhile (with_rdb (save_stats time_sec ending (rdb s)) s) in
    if saved_ok ending
    then (encode_simple_string (lit "OK"), with_storage (consume_dirty_count observed (storage s)) s)
    else (encode_error (lit "ERR failed to save RDB"), s).

(** [meanwhile] is what other threads do before [save_in_background] claims the flag. *)
Definition bgsave_cmd (meanwhile : server -> server) (s : server) : bytes * server :=
  if bgsave_in_progress_ (rdb s) then (in_progress_error, s)
  else
    let observed := dirty_counter_ (storage s) in
    let s := meanwhile s in
    let '(claimed, r) := claim_bgsave (rdb s) in
    if claimed : bool
    then (encode_simple_string (lit "Background saving started"),
          with_storage (consume_dirty_count observed (storage s)) (with_rdb (begin_bgsave r) s))
    else (encode_error (lit "ERR bgsave failed"), s).

Definition lastsave_cmd (s : server) : bytes := encode_integer (last_bgsave_time_sec (rdb s)).

(** ** The commands of an external replica *)

Definition no_replicas : bytes :=
  encode_error (lit "ERR this server does not accept external replicas; internal replication uses the cluster bus").

Definition psync_cmd (args : list bytes) : bytes := no_replicas.
Definition sync_cmd (args : list bytes) : bytes := no_replicas.
Definition replconf_cmd (args : list bytes) : bytes := no_replicas.

(** ** INFO *)

(** The text from its first digit on. *)
Fixpoint from_first_digit (s : bytes) : bytes :=
  match s with [] => [] | c :: r => if is_digit c then s else from_first_digit r end.

(** [strtoull] of a text that starts with a digit stops at the greatest number. *)
Definition rss_bytes_from_status_line (line : bytes) : Z :=
  if negb (starts_with (lit "VmRSS:") line) then 0
  else
    match from_first_digit line with
    | [] => 0
    | first => (Z.min uint64_max (digits_val (span_digits first).1) * 1024) mod (uint64_max + 1)
    end.

Fixpoint process_rss_bytes (status : list bytes) : Z :=
  match status with
  | [] => 0
  | line :: status =>
      if starts_with (lit "VmRSS:") line then rss_bytes_from_status_line line else process_rss_bytes status
  end.

Definition field (name value : bytes) : bytes := name ++ lit ":" ++ value ++ crlf.

Definition title (name : bytes) : bytes := lit "# " ++ name ++ crlf.

Definition server_section : bytes :=
  title (lit "Server") ++ field (lit "concurrentcache_version") (lit "4.0.0") ++ field (lit "os") (lit "Linux") ++
  field (lit "arch_bits") (to_string 64).

Definition stats_section (s : server) : bytes :=
  title (lit "Stats") ++
  field (lit "total_connections_received") (to_string (connections_accepted_ (counters s))) ++
  field (lit "total_commands_processed") (to_string (commands_processed_ (counters s))) ++
  field (lit "total_bgsave_calls") (to_string (total_bgsave_calls (rdb s))) ++
  field (lit "total_rdb_saved_keys") (to_string (total_rdb_saved_keys (rdb s))).

Definition memory_section (status : list bytes) (s : server) : bytes :=
  let rss := process_rss_bytes status in
  title (lit "Memory") ++
  field (lit "used_memory_rss") (to_string rss) ++
  field (lit "used_memory_rss_human") (to_string (rss / (1024 * 1024)) ++ lit "MB") ++
  field (lit "maxmemory") (lit "0") ++ field (lit "maxmemory_human") (lit "0B") ++
  field (lit "maxmemory_policy") (lit "aru-random-shard-sampling") ++
  field (lit "used_memory_keys") (to_string (size_ (storage s))).

Definition status_text (b : BgsaveStatus) : bytes :=
  match b with SUCCESS => lit "ok" | FAILED => lit "err" | _ => lit "idle" end.

Definition persistence_section (s : server) : bytes :=
  title (lit "Persistence") ++ field (lit "rdb_enabled") (lit "yes") ++
  field (lit "rdb_last_bgsave_status") (status_text (last_bgsave_status (rdb s))) ++
  field (lit "rdb_last_bgsave_time_sec") (to_string (last_bgsave_time_sec (rdb s))) ++
  field (lit "rdb_last_bgsave_keys") (to_string (last_bgsave_keys (rdb s))) ++
  field (lit "rdb_dirty_count") (to_string (dirty_counter_ (storage s))).

Definition keyspace_section (now : Z) (s : server) : bytes :=
  let '(live_expires, avg_ttl_ms) := ExpireDict.stats now (expire_dict_ (storage s)) in
  title (lit "Keyspace") ++
  field (lit "db0") (lit "keys=" ++ to_string (size_ (storage s)) ++ lit ",expires=" ++ to_string live_expires ++
    lit ",avg_ttl=" ++ to_string avg_ttl_ms).

(** The text of a section; [all] asks for every one. *)
Definition info_text (now : Z) (status : list bytes) (section : bytes) (s : server) : bytes :=
  let asked name := bool_decide (section = lit name) || bool_decide (section = lit "all") in
  (if asked "server"%string then server_section else []) ++
  (if asked "stats"%string then stats_section s else []) ++
  (if asked "memory"%string then memory_section status s else []) ++
  (if asked "persistence"%string then persistence_section s else []) ++
  (if asked "keyspace"%string then keyspace_section now s else []).

Definition info_cmd (now : Z) (status : list bytes) (args : list bytes) (s : server) : bytes :=
  let section := if (2 <=? length args)%nat then arg 1 args else lit "all" in
  let result := info_text now status section s in
  if bool_decide (result = []) then encode_error (lit "ERR Unknown INFO section: " ++ section)
  else encode_bulk_string result.

(** ** Properties *)

Lemma starts_with_app p s : starts_with p (p ++ s) = true.
Proof. unfold starts_with. rewrite take_app_length. by apply bool_decide_eq_true_2. Qed.

Lemma from_first_digit_skip a s : forallb (fun c => negb (is_digit c)) a = true -> from_first_digit (a ++ s) = from_first_digit s.
Proof.
  induction a as [|c a IH]; cbn; [done|]. intros [Hc Ha]%andb_prop. apply negb_true_iff in Hc. rewrite Hc. by apply IH.
Qed.

(** The line of the kernel, with tabs or spaces before the number. *)
Lemma rss_line gap n rest :
  forallb (fun c => negb (is_digit c)) gap = true -> 0 <= n -> n * 1024 <= uint64_max ->
  rss_bytes_from_status_line (lit "VmRSS:" ++ gap ++ to_string n ++ lit " kB" ++ rest) = n * 1024.
Proof.
  intros Hg Hn Hmax. unfold rss_bytes_from_status_line. rewrite starts_with_app. cbn [negb].
  rewrite from_first_digit_skip by done. rewrite from_first_digit_skip by done.
  unfold to_string. destruct (Z.ltb_spec n 0); [lia|].
  destruct (show_unsigned_spec n Hn) as (Hne & Hds & Hv).
  assert (from_first_digit (show_unsigned n ++ lit " kB" ++ rest) = show_unsigned n ++ lit " kB" ++ rest) as ->.
  { destruct (show_unsigned n) as [|c ds]; [done|]. inversion_clear Hds as [|? ? Hc _]. cbn. by rewrite Hc. }
  transitivity ((Z.min uint64_max (digits_val (span_digits (show_unsigned n ++ lit " kB" ++ rest)).1) * 1024) mod (uint64_max + 1)).
  { by destruct (show_unsigned n). }
  change (lit " kB" ++ rest) with (" "%char :: lit "kB" ++ rest). rewrite span_digits_stop by done.
  cbn [fst]. rewrite Hv.
  rewrite Z.min_r, Z.mod_small by (unfold uint64_max in *; lia). done.
Qed.

Section keys.
Context `{StringHash}.

(** The keys of all shards. *)
Definition all_keys (s : Storage) : list bytes := mjoin ((fun i => (map_to_list (store_at i s)).*1) <$> seq 0 num_shards).

Lemma size_foldl (f : nat -> list bytes) (l : list nat) z :
  foldl (fun total i => total + zlen (f i)) z l = z + zlen (mjoin (f <$> l)).
Proof.
  revert z. induction l as [|i l IH]; intros z; cbn [foldl]; [unfold zlen; cbn; lia|].
  rewrite IH. csimpl. unfold zlen. rewrite length_app. lia.
Qed.

Lemma size_all_keys s : size_ s = zlen (all_keys s).
Proof.
  unfold size_, all_keys.
  assert (forall z l, foldl (fun total i => total + Z.of_nat (size (store_at i s))) z l =
    foldl (fun total i => total + zlen (map_to_list (store_at i s)).*1) z l) as ->.
  { intros z l. revert z. induction l as [|i l IH]; intros z; cbn [foldl]; [done|].
    rewrite IH. f_equal. unfold zlen. by rewrite length_fmap, length_map_to_list. }
  rewrite (size_foldl (fun i => (map_to_list (store_at i s)).*1)). lia.
Qed.

Lemma entry_all_keys s k e : entry s k = Some e -> k ∈ all_keys s.
Proof.
  intros He. unfold all_keys. apply list_elem_of_join. exists (map_to_list (store_at (get_shard_index k) s)).*1.
  split.
  - apply list_elem_of_fmap. exists (k, e). split; [done|]. by apply elem_of_map_to_list.
  - apply list_elem_of_fmap. exists (get_shard_index k). split; [done|].
    apply elem_of_seq. pose proof (get_shard_index_lt k). lia.
Qed.

(** The keys that INFO counts as expiring are among those it counts as keys. *)
Lemma expires_le_keys now s : storage_wf s -> 0 <= (ExpireDict.stats now (expire_dict_ s)).1 <= size_ s.
Proof.
  intros Hwf. cbn [fst ExpireDict.stats]. rewrite size_all_keys. split; [apply zlen_nonneg|].
  transitivity (zlen (map_to_list (expire_dict_ s)).*1).
  { unfold zlen. pose proof (List.filter_length_le (fun t => now <? t) (snd <$> map_to_list (expire_dict_ s))) as Hl.
    rewrite !length_fmap in *. lia. }
  unfold zlen. apply Nat2Z.inj_le, List.NoDup_incl_length.
  - apply NoDup_ListNoDup, NoDup_fst_map_to_list.
  - intros k Hk%list_elem_of_In. apply list_elem_of_fmap in Hk as ([k' t] & -> & Hk%elem_of_map_to_list).
    destruct (swf_deadline _ Hwf k' t Hk) as [[e He] _]. by eapply list_elem_of_In, entry_all_keys.
Qed.
End keys.

(** INFO alone is INFO all, which is the sections one after the other; each section
    alone is the reply to its name; another name is an error. The keys it counts as
    expiring are among those it counts as keys. *)
Theorem info_correct `{StringHash} now status name x s :
  storage_wf (storage s) ->
  let ask sections := info_cmd now status (name :: sections) s in
  let expires := (ExpireDict.stats now (expire_dict_ (storage s))).1 in
  ask [] = ask [lit "all"] /\
  ask [lit "all"] = encode_bulk_string
    (server_section ++ stats_section s ++ memory_section status s ++ persistence_section s ++ keyspace_section now s) /\
  ask [lit "server"] = encode_bulk_string server_section /\
  ask [lit "stats"] = encode_bulk_string (stats_section s) /\
  ask [lit "memory"] = encode_bulk_string (memory_section status s) /\
  ask [lit "persistence"] = encode_bulk_string (persistence_section s) /\
  ask [lit "keyspace"] = encode_bulk_string (keyspace_section now s) /\
  (x ∉ lit <$> ["all"; "server"; "stats"; "memory"; "persistence"; "keyspace"]%string ->
   ask [x] = encode_error (lit "ERR Unknown INFO section: " ++ x)) /\
  0 <= expires <= size_ (storage s).
Proof.
  intros Hwf ask expires.
  assert (forall a b, title a ++ b <> []) as Hne by done.
  assert (exists y, keyspace_section now s = title (lit "Keyspace") ++ y) as [y Hy].
  { unfold keyspace_section. destruct (ExpireDict.stats _ _). by eexists. }
  assert (forall z t, info_text now status z s = t -> t <> [] -> ask [z] = encode_bulk_string t) as Hask.
  { intros z t Ht Hn. unfold ask, info_cmd. cbn [length Nat.leb arg nth]. rewrite Ht. by rewrite bool_decide_eq_false_2. }
  assert (forall z t, info_text now status z s = t ++ [] -> t <> [] -> ask [z] = encode_bulk_string t) as Hask'.
  { intros z t. rewrite app_nil_r. apply Hask. }
  split; [done|]. split; [by apply Hask|]. split; [by apply Hask|]. split; [by apply Hask'|].
  split; [by apply Hask'|]. split; [by apply Hask'|]. split; [apply Hask; [done|by rewrite Hy]|].
  split; [|by apply expires_le_keys].
  intros Hx. unfold ask, info_cmd. cbn [length Nat.leb arg nth].
  assert (info_text now status x s = []) as ->; [|done]. unfold info_text.
  rewrite !fmap_cons, !not_elem_of_cons in Hx. destruct Hx as (H0 & H1 & H2 & H3 & H4 & H5 & _).
  by rewrite !bool_decide_eq_false_2 by done.
Qed.

(** A snapshot that other saves do not disturb: SAVE is refused and changes nothing while
    BGSAVE runs; a save that fails leaves the count of changes and the time of the last
    save; one that succeeds leaves the count of the changes made meanwhile, and LASTSAVE
    gives its time. BGSAVE leaves the flag set, and the next SAVE and BGSAVE are refused. *)
Theorem save_correct t ending meanwhile n s :
  (forall s, dirty_counter_ (storage (meanwhile s)) = dirty_counter_ (storage s) + n /\
             rdb (meanwhile s) = rdb s) ->
  0 <= n ->
  let '(reply, s1) := save_cmd t ending meanwhile s in
  let '(reply2, s2) := bgsave_cmd meanwhile s in
  if bgsave_in_progress_ (rdb s)
  then reply = in_progress_error /\ s1 = s /\ reply2 = in_progress_error /\ s2 = s
  else
    (if saved_ok ending
     then reply = encode_simple_string (lit "OK") /\ dirty_counter_ (storage s1) = n /\ lastsave_cmd s1 = encode_integer t
     else reply = encode_error (lit "ERR failed to save RDB") /\
       dirty_counter_ (storage s1) = dirty_counter_ (storage s) + n /\ lastsave_cmd s1 = lastsave_cmd s) /\
    reply2 = encode_simple_string (lit "Background saving started") /\ dirty_counter_ (storage s2) = n /\
    (save_cmd t ending meanwhile s2).1 = in_progress_error /\ (bgsave_cmd meanwhile s2).1 = in_progress_error.
Proof.
  intros Hm Hn. unfold save_cmd at 1, bgsave_cmd at 1. destruct (bgsave_in_progress_ (rdb s)) eqn:Hp; [done|].
  set (s0 := with_rdb _ s). destruct (Hm s0) as [Hd Hr]. destruct (Hm s) as [Hd' Hr'].
  assert (forall d, (if d <? d + n then d + n - d else 0) = n) as Hc by (intros d; destruct (Z.ltb_spec d (d + n)); lia).
  unfold claim_bgsave. rewrite Hr', Hp. cbv iota beta.
  assert (forall st, bgsave_in_progress_ (rdb st) = true ->
    (save_cmd t ending meanwhile st).1 = in_progress_error /\ (bgsave_cmd meanwhile st).1 = in_progress_error) as Hbusy.
  { intros st Hst. unfold save_cmd, bgsave_cmd. by rewrite Hst. }
  destruct ending as [| |keys]; cbn [saved_ok]; (split; [|split_and!; [done|cbn; by rewrite Hd'|by apply Hbusy..]]).
  - split_and!; [done|done|]. unfold lastsave_cmd. by rewrite Hr.
  - split_and!; [done|done|]. unfold lastsave_cmd. by rewrite Hr.
  - split_and!; [done|cbn; by rewrite Hd|]. unfold lastsave_cmd. cbn. by rewrite Hr.
Qed.
End Admin.
