(* ===== verification/Config.v ===== *)
(** * The configuration: base/config.h, base/config.cpp

    The file as text, the table of settings with the defaults of the logger, the
    typed readings, and the observers. The file system is an input, and so is the
    order in which the unordered table is read out for the notifications. *)

From S2P Require Import Prelude Base.
From stdpp Require Import options.

Module Config.
Import Text.

Abbreviation observer := nat.      (** the address of a [ConfigObserver] *)

Record Config := mkConfig {
  config_data_ : gmap bytes bytes;
  observers_ : gmap bytes (list observer);
  config_file_ : bytes
}.

Definition new_config : Config := mkConfig ∅ ∅ (lit "./conf/concurrentcache.conf").

Definition with_data (m : gmap bytes bytes) (c : Config) : Config := mkConfig m (observers_ c) (config_file_ c).

(** ** The file *)

Fixpoint drop_spaces (s : bytes) : bytes :=
  match s with [] => [] | c :: r => if is_space c then drop_spaces r else s end.

Definition trim (s : bytes) : bytes := rev (drop_spaces (rev (drop_spaces s))).

(** The lines that [std::getline] reads; [line] is what it has of the current one. *)
Fixpoint get_lines (line text : bytes) : list bytes :=
  match text with
  | [] => match line with [] => [] | _ => [line] end
  | c :: text => if bool_decide (c = LF) then line :: get_lines [] text else get_lines (line ++ [c]) text
  end.

(** The text before and after the first equals sign. *)
Fixpoint split_equals (before line : bytes) : option (bytes * bytes) :=
  match line with
  | [] => None
  | c :: rest => if bool_decide (c = "="%char) then Some (before, rest) else split_equals (before ++ [c]) rest
  end.

Definition parse_line (line : bytes) : option (bytes * bytes) :=
  match line with
  | [] => None
  | c :: _ =>
      if bool_decide (c = "#"%char) then None
      else (fun kv => (trim kv.1, trim kv.2)) <$> split_equals [] line
  end.

Definition read_line (m : gmap bytes bytes) (line : bytes) : gmap bytes bytes :=
  match parse_line line with Some (key, value) => <[key := value]> m | None => m end.

(** [open_file] is the content of a file that can be opened. *)
Definition loadInternal (open_file : bytes -> option bytes) (c : Config) : bool * Config :=
  match open_file (config_file_ c) with
  | None => (false, c)
  | Some text => (true, with_data (foldl read_line (config_data_ c) (get_lines [] text)) c)
  end.

Definition log_defaults : list (bytes * bytes) := [
  (lit "log_level", lit "info");
  (lit "log_file", lit "./logs/concurrentcache.log");
  (lit "log_max_size", lit "104857600");
  (lit "log_max_files", lit "5")
].

Definition set_log_defaults (c : Config) : Config :=
  with_data (foldl (fun m kv => if bool_decide (is_Some (m !! kv.1)) then m else <[kv.1 := kv.2]> m)
    (config_data_ c) log_defaults) c.

Definition load (open_file : bytes -> option bytes) (filename : bytes) (c : Config) : bool * Config :=
  let '(loaded, c) := loadInternal open_file (mkConfig ∅ (observers_ c) filename) in
  (loaded, set_log_defaults c).

(** The calls of [onConfigChange], in their order. *)
Abbreviation notification := (observer * bytes * bytes)%type.

Definition notify_key (observers : gmap bytes (list observer)) (kv : bytes * bytes) : list notification :=
  match observers !! kv.1 with
  | Some l => (fun o => (o, kv.1, kv.2)) <$> l
  | None => []
  end.

(** [order] is the order in which the loop over the table finds the settings. *)
Definition reload (open_file : bytes -> option bytes) (order : gmap bytes bytes -> list (bytes * bytes)) (c : Config)
    : Config * list notification :=
  match loadInternal open_file (with_data ∅ c) with
  | (false, _) => (c, [])
  | (true, c') =>
      let c' := set_log_defaults c' in
      (c', mjoin (notify_key (observers_ c') <$> order (config_data_ c')))
  end.

(** ** Settings *)

Definition getString (key default_value : bytes) (c : Config) : bytes := default default_value (config_data_ c !! key).

Definition getInt (key : bytes) (default_value : Z) (c : Config) : Z :=
  match config_data_ c !! key with
  | Some value => default default_value (stoi value)
  | None => default_value
  end.

Definition getBool (key : bytes) (default_value : bool) (c : Config) : bool :=
  match config_data_ c !! key with
  | Some value => bool_decide (value = lit "true") || bool_decide (value = lit "1")
  | None => default_value
  end.

Definition clusterEnabled (c : Config) : bool := getBool (lit "cluster_enabled") false c.
Definition clusterConfigFile (c : Config) : bytes := getString (lit "cluster_config_file") (lit "nodes.conf") c.
Definition clusterNodeTimeout (c : Config) : Z := getInt (lit "cluster_node_timeout") 15000 c.
Definition clusterReplicaValidityFactor (c : Config) : Z := getInt (lit "cluster_replica_validity_factor") 10 c.
Definition clusterRequireFullCoverage (c : Config) : bool := getBool (lit "cluster_require_full_coverage") false c.
Definition clusterBindAddr (c : Config) : bytes := getString (lit "cluster_bind_addr") (lit "127.0.0.1") c.

(** ** Observers *)

Definition addObserver (key : bytes) (o : observer) (c : Config) : Config :=
  mkConfig (config_data_ c) (<[key := default [] (observers_ c !! key) ++ [o]]> (observers_ c)) (config_file_ c).

Definition removeObserver (key : bytes) (o : observer) (c : Config) : Config :=
  match observers_ c !! key with
  | None => c
  | Some l => mkConfig (config_data_ c) (<[key := filter (fun x => x <> o) l]> (observers_ c)) (config_file_ c)
  end.

Definition notifyObservers (key : bytes) (c : Config) : list notification :=
  match observers_ c !! key, config_data_ c !! key with
  | Some l, Some value => (fun o => (o, key, value)) <$> l
  | _, _ => []
  end.

(** ** The table that a file gives *)

(** Settings as a file can hold them: neither side has a line break or white space at
    its ends, and the key has no equals sign and is no comment. *)
Definition trimmed (s : bytes) : Prop :=
  (forall c, head s = Some c -> is_space c = false) /\ (forall c, last s = Some c -> is_space c = false).

Record setting_ok (kv : bytes * bytes) : Prop := {
  so_key : trimmed kv.1;
  so_value : trimmed kv.2;
  so_lines : (LF ∉ kv.1) /\ (LF ∉ kv.2);
  so_equals : "="%char ∉ kv.1;
  so_comment : head kv.1 <> Some "#"%char
}.

Definition setting_text (kv : bytes * bytes) : bytes := kv.1 ++ lit " = " ++ kv.2.
Definition render (l : list (bytes * bytes)) : bytes := mjoin ((fun kv => setting_text kv ++ [LF]) <$> l).

(** The last setting of a key counts, and the defaults of the logger stand in for the
    keys that are missing. *)
Definition settings (l : list (bytes * bytes)) : gmap bytes bytes :=
  list_to_map (reverse l) ∪ list_to_map log_defaults.

Lemma drop_spaces_pad a s : forallb is_space a = true -> drop_spaces (a ++ s) = drop_spaces s.
Proof. induction a as [|c a IH]; cbn; [done|]. intros [Hc Ha]%andb_prop. rewrite Hc. by apply IH. Qed.

Lemma drop_spaces_id s : (forall c, head s = Some c -> is_space c = false) -> drop_spaces s = s.
Proof. destruct s as [|c s]; cbn; [done|]. intros H. by rewrite (H c eq_refl). Qed.

Lemma head_rev (s : bytes) : head (rev s) = last s.
Proof.
  rewrite <-(rev_involutive s) at 2. destruct (rev s) as [|c r]; cbn; [done|]. by rewrite last_snoc.
Qed.

Lemma trim_pad a s b :
  forallb is_space a = true -> forallb is_space b = true -> trimmed s -> trim (a ++ s ++ b) = s.
Proof.
  intros Ha Hb [Hh Hl]. unfold trim. rewrite drop_spaces_pad by done.
  assert (drop_spaces (rev (drop_spaces (s ++ b))) = rev s) as ->; [|apply rev_involutive].
  assert (forallb is_space (rev b) = true) as Hb'.
  { apply forallb_forall. intros c Hc. rewrite forallb_forall in Hb. by apply Hb, in_rev. }
  destruct s as [|c s].
  - cbn [app rev]. rewrite <-(app_nil_r b), drop_spaces_pad by done. done.
  - rewrite (drop_spaces_id ((c :: s) ++ b)) by (intros d [= <-]; by apply Hh).
    rewrite rev_app_distr, drop_spaces_pad by done. apply drop_spaces_id. intros d. rewrite head_rev. apply Hl.
Qed.

Lemma get_lines_app line a text : LF ∉ a -> get_lines line (a ++ text) = get_lines (line ++ a) text.
Proof.
  revert line. induction a as [|c a IH]; intros line; cbn [app get_lines]; [by rewrite app_nil_r|].
  intros [Hc Ha]%not_elem_of_cons. rewrite bool_decide_eq_false_2 by congruence.
  by rewrite IH, <-app_assoc by done.
Qed.

Lemma split_equals_app before a rest :
  "="%char ∉ a -> split_equals before (a ++ "="%char :: rest) = Some (before ++ a, rest).
Proof.
  revert before. induction a as [|c a IH]; intros before; cbn [app split_equals].
  - rewrite app_nil_r. by rewrite bool_decide_eq_true_2.
  - intros [Hc Ha]%not_elem_of_cons. rewrite bool_decide_eq_false_2 by congruence.
    by rewrite IH, <-app_assoc by done.
Qed.

Lemma parse_setting kv : setting_ok kv -> parse_line (setting_text kv) = Some kv.
Proof.
  destruct kv as [k v]. intros [Hk Hv _ He Hc]. cbn [fst snd] in *. unfold setting_text. cbn [fst snd].
  assert (split_equals [] (k ++ lit " = " ++ v) = Some (k ++ lit " ", lit " " ++ v)) as Hs.
  { change (lit " = " ++ v) with (lit " " ++ "="%char :: lit " " ++ v).
    rewrite (app_assoc k (lit " ")).
    rewrite (split_equals_app [] (k ++ lit " ") (lit " " ++ v)); [done|]. rewrite elem_of_app. intros [?|Hin]; [done|].
    revert Hin. apply (bool_decide_unpack _). by vm_compute. }
  assert (parse_line (k ++ lit " = " ++ v) =
    (fun kv => (trim kv.1, trim kv.2)) <$> split_equals [] (k ++ lit " = " ++ v)) as ->.
  { unfold parse_line. destruct k as [|c k]; [done|]. cbn [app].
    rewrite bool_decide_eq_false_2; [done|]. intros ->. by apply Hc. }
  rewrite Hs. cbn. f_equal. f_equal.
  - exact (trim_pad [] k (lit " ") eq_refl eq_refl Hk).
  - pose proof (trim_pad (lit " ") v [] eq_refl eq_refl Hv) as H. by rewrite app_nil_r in H.
Qed.

Lemma get_lines_render l : Forall setting_ok l -> get_lines [] (render l) = setting_text <$> l.
Proof.
  induction 1 as [|kv l Hkv _ IH]; [done|]. unfold render in *. csimpl.
  rewrite <-app_assoc, get_lines_app.
  - cbn [app get_lines]. rewrite bool_decide_eq_true_2 by done. by rewrite IH.
  - unfold setting_text. rewrite !elem_of_app. destruct (so_lines _ Hkv) as [H1 H2].
    assert (LF ∉ lit " = ") by (apply (bool_decide_unpack _); by vm_compute). tauto.
Qed.

Lemma read_settings l m :
  Forall setting_ok l -> foldl read_line m (setting_text <$> l) = list_to_map (reverse l) ∪ m.
Proof.
  intros Hl. revert m. induction Hl as [|[k v] l Hkv _ IH]; intros m; csimpl.
  - by rewrite map_empty_union.
  - rewrite IH. unfold read_line. rewrite parse_setting by done.
    rewrite reverse_cons, list_to_map_app, <-(map_union_assoc _ _ m). f_equal.
    rewrite list_to_map_cons, list_to_map_nil, insert_empty. apply insert_union_singleton_l.
Qed.

Lemma log_defaults_union c : config_data_ (set_log_defaults c) = config_data_ c ∪ list_to_map log_defaults.
Proof.
  cbn [config_data_ set_log_defaults with_data]. generalize (config_data_ c) as m.
  assert (forall l m, NoDup l.*1 ->
    foldl (fun m kv => if bool_decide (is_Some (m !! kv.1)) then m else <[kv.1 := kv.2]> m) m l =
    (m ∪ list_to_map l : gmap bytes bytes)) as H.
  { induction l as [|[k v] l IH]; intros m; csimpl; [by rewrite map_union_empty|].
    intros [Hk Hl]%NoDup_cons. rewrite IH by done. apply map_eq. intros x. rewrite !lookup_union.
    case_bool_decide as E; rewrite !lookup_insert; destruct (decide (k = x)) as [->|].
    - destruct E as [y ->]. by rewrite !union_Some_l.
    - done.
    - apply eq_None_not_Some in E. rewrite E. rewrite not_elem_of_list_to_map_1 by done. done.
    - done. }
  intros m. apply H. apply (bool_decide_unpack _). by vm_compute.
Qed.

Lemma load_data open_file filename text c :
  open_file filename = Some text ->
  load open_file filename c =
    (true, mkConfig (foldl read_line ∅ (get_lines [] text) ∪ list_to_map log_defaults) (observers_ c) filename).
Proof.
  intros Ho. unfold load, loadInternal. cbn [config_file_]. rewrite Ho.
  set (c' := with_data _ _). pose proof (log_defaults_union c') as Hd.
  change (set_log_defaults c') with (mkConfig (config_data_ (set_log_defaults c')) (observers_ c) filename).
  by rewrite Hd.
Qed.

(** A file of settings is read back as it was written: the last setting of a key
    counts, the four settings of the logger have defaults, integers within [int] come
    back as numbers and [true] as true; keys that are in neither have the default of
    the caller. *)
Theorem config_roundtrip open_file filename l c :
  Forall setting_ok l -> open_file filename = Some (render l) ->
  let '(loaded, c') := load open_file filename c in
  loaded = true /\ observers_ c' = observers_ c /\
  (forall k d, getString k d c' = default d (settings l !! k)) /\
  (forall k d z, settings l !! k = Some (to_string z) -> -2147483648 <= z <= 2147483647 -> getInt k d c' = z) /\
  (forall k d, settings l !! k = None -> getInt k d c' = d) /\
  (forall k b, settings l !! k = Some (if b : bool then lit "true" else lit "false") ->
     forall d, getBool k d c' = b).
Proof.
  intros Hl Ho. rewrite (load_data _ _ _ _ Ho), get_lines_render, read_settings by done.
  rewrite (map_union_empty (list_to_map (reverse l) : gmap bytes bytes)).
  fold (settings l). split_and!; [done|done|done| | |]; unfold getInt, getBool; cbn [config_data_].
  - intros k d z -> Hz. by rewrite stoi_to_string.
  - by intros k d ->.
  - intros k b ->. by destruct b.
Qed.

Definition sample_settings : list (bytes * bytes) :=
  [(lit "port", lit "7000"); (lit "cluster_enabled", lit "true"); (lit "port", lit "7001")].

Lemma sample_settings_ok : Forall setting_ok sample_settings.
Proof.
  assert (forall kv : bytes * bytes, forallb (fun c => negb (is_space c)) (kv.1 ++ kv.2) = true ->
    "="%char ∉ kv.1 -> head kv.1 <> Some "#"%char -> setting_ok kv) as H.
  { intros [k v] Hs He Hc. cbn [fst snd] in *. rewrite forallb_app in Hs. apply andb_prop in Hs as [Hk Hv].
    assert (forall s, forallb (fun c => negb (is_space c)) s = true -> forall c, c ∈ s -> is_space c = false) as Hin.
    { intros s Hs c Hc'%list_elem_of_In. rewrite forallb_forall in Hs. by apply negb_true_iff, Hs. }
    assert (forall s, forallb (fun c => negb (is_space c)) s = true -> trimmed s /\ LF ∉ s) as Ht.
    { intros s Hs. split; [split|].
      - intros c Hh. apply (Hin s Hs). destruct s; [done|]. injection Hh as ->. left.
      - intros c Hl. apply (Hin s Hs). by apply last_Some_elem_of.
      - intros Hlf. by pose proof (Hin s Hs LF Hlf). }
    split; cbn; try done; [by apply Ht|by apply Ht|]. split; by apply Ht. }
  repeat (constructor; [apply H; [done|apply (bool_decide_unpack _); by vm_compute|done]|]). constructor.
Qed.

Lemma config_roundtrip_witness :
  getInt (lit "port") 6379 (load (fun _ => Some (render sample_settings)) (lit "conf") new_config).2 = 7001.
Proof.
  pose proof (config_roundtrip (fun _ => Some (render sample_settings)) (lit "conf") sample_settings new_config
    sample_settings_ok eq_refl) as H.
  destruct (load _ _ _) as [loaded c']. destruct H as (_ & _ & _ & Hi & _).
  apply (Hi (lit "port") 6379 7001); [vm_compute; reflexivity|lia].
Defined.

(** ** Reloading *)

Definition count (n : notification) (l : list notification) : nat := length (filter (fun x => x = n) l).

Lemma count_app n l1 l2 : count n (l1 ++ l2) = (count n l1 + count n l2)%nat.
Proof. unfold count. by rewrite filter_app, length_app. Qed.

Lemma count_notify obs o k v kv :
  count (o, k, v) (notify_key obs kv) =
    if decide (kv = (k, v)) then length (filter (fun x => x = o) (default [] (obs !! k))) else 0%nat.
Proof.
  destruct kv as [k' v']. unfold notify_key. cbn [fst snd]. case_decide as E.
  - injection E as -> ->. destruct (obs !! k) as [l|]; [|done]. cbn [default]. unfold count.
    induction l as [|x l IH]; [done|]. csimpl. rewrite !filter_cons.
    destruct (decide (x = o)) as [->|Hne].
    + rewrite decide_True by done. cbn [length]. by rewrite IH.
    + rewrite decide_False by congruence. exact IH.
  - destruct (obs !! k') as [l|]; [|done]. unfold count.
    induction l as [|x l IH]; [done|]. csimpl. rewrite filter_cons. case_decide; [congruence|done].
Qed.

Lemma count_notifications obs o k v l :
  NoDup l ->
  count (o, k, v) (mjoin (notify_key obs <$> l)) =
    if decide ((k, v) ∈ l) then length (filter (fun x => x = o) (default [] (obs !! k))) else 0%nat.
Proof.
  induction 1 as [|kv l Hkv Hl IH]; csimpl; [done|].
  rewrite count_app, count_notify, IH. destruct (decide (kv = (k, v))) as [->|Hne].
  - rewrite (decide_False (P := (k, v) ∈ l)) by done. rewrite decide_True by set_solver. lia.
  - destruct (decide ((k, v) ∈ l)); [rewrite decide_True by set_solver|rewrite decide_False by set_solver]; done.
Qed.

(** A reload that cannot read the file changes nothing and calls nobody. One that can
    leaves the settings that a load of the same file would, and calls every observer
    once for each of its registrations for a key that has a value, with that value,
    and for nothing else. *)
Theorem reload_correct open_file order c :
  (forall m, order m ≡ₚ map_to_list m) ->
  let '(c', calls) := reload open_file order c in
  match open_file (config_file_ c) with
  | None => c' = c /\ calls = []
  | Some _ =>
      load open_file (config_file_ c) c = (true, c') /\
      forall o k v, count (o, k, v) calls =
        if decide (config_data_ c' !! k = Some v)
        then length (filter (fun x => x = o) (default [] (observers_ c !! k))) else 0%nat
  end.
Proof.
  intros Hord. unfold reload, load, loadInternal. cbn [config_file_ with_data].
  destruct (open_file (config_file_ c)) as [text|]; [|done]. split; [done|]. intros o k v.
  rewrite count_notifications by (rewrite Hord; apply NoDup_map_to_list). cbn [observers_ set_log_defaults with_data].
  apply decide_ext. rewrite Hord. apply elem_of_map_to_list.
Qed.

Lemma reload_correct_witness :
  let file := fun _ : bytes => Some (render sample_settings) in
  let c := addObserver (lit "port") 7 (addObserver (lit "port") 7 new_config) in
  count (7%nat, lit "port", lit "7001") (reload file map_to_list c).2 = 2%nat.
Proof.
  intros file c. pose proof (reload_correct file map_to_list c (fun m => Permutation_refl _)) as H.
  destruct (reload file map_to_list c) as [c' calls] eqn:E. cbn [file] in H. destruct H as [_ H].
  cbn [snd]. rewrite (H 7%nat (lit "port") (lit "7001")).
  assert (config_data_ (reload file map_to_list c).1 !! lit "port" = Some (lit "7001")) as Hv by (vm_compute; reflexivity).
  rewrite E in Hv. cbn [fst] in Hv. rewrite decide_True by exact Hv. vm_compute. reflexivity.
Defined.

(** Observers are called for settings that did not change, and not for settings that are
    gone from the file. *)
Theorem reload_calls :
  let c := addObserver (lit "port") 7 (load (fun _ => Some (render [(lit "port", lit "7000")])) (lit "conf") new_config).2 in
  (reload (fun _ => Some (render [(lit "port", lit "7000")])) map_to_list c).2 = [(7%nat, lit "port", lit "7000")] /\
  getString (lit "port") (lit "6379") (reload (fun _ => Some []) map_to_list c).1 = lit "6379" /\
  (reload (fun _ => Some []) map_to_list c).2 = [].
Proof. by vm_compute. Qed.
End Config.
