(* ===== verification/Log.v ===== *)
(** * The log: base/log.h, base/log.cpp

    The levels, and the sink that writes to a file with its rotation, over a file system
    that is a map from names to contents. *)

From S2P Require Import Prelude Base Commands.
From stdpp Require Import options.

Module Log.
Import Text.

(** ** Levels *)

Inductive LogLevel := TRACE | DEBUG | INFO | WARN | ERROR | FATAL.

Definition level_num (l : LogLevel) : Z :=
  match l with TRACE => 0 | DEBUG => 1 | INFO => 2 | WARN => 3 | ERROR => 4 | FATAL => 5 end.

Definition level_name (l : LogLevel) : bytes :=
  match l with
  | TRACE => lit "TRACE" | DEBUG => lit "DEBUG" | INFO => lit "INFO"
  | WARN => lit "WARN" | ERROR => lit "ERROR" | FATAL => lit "FATAL"
  end.

Definition levels : list LogLevel := [TRACE; DEBUG; INFO; WARN; ERROR; FATAL].

(** White space is skipped and letters are made lower-case. *)
Definition squeeze (text : bytes) : bytes :=
  Commands.lower_char <$> filter (fun c => is_space c = false) text.

(** [std::stol] is [std::stoll] where [long] has 64 bits. *)
Definition parse_log_level (text : bytes) : option LogLevel :=
  let v := squeeze text in
  if bool_decide (v = lit "trace") then Some TRACE
  else if bool_decide (v = lit "debug") then Some DEBUG
  else if bool_decide (v = lit "info") then Some INFO
  else if bool_decide (v = lit "warn") then Some WARN
  else if bool_decide (v = lit "error") then Some ERROR
  else if bool_decide (v = lit "fatal") then Some FATAL
  else
    match stoll v with
    | Some (n, used) =>
        if (used =? length v)%nat && (0 <=? n) && (n <=? level_num FATAL)
        then levels !! Z.to_nat n else None
    | None => None
    end.

(** ** FileSink *)

Abbreviation files := (gmap bytes bytes).

Record FileSink := mkSink { filepath_ : bytes; maxSize_ : Z; maxFiles_ : Z; is_open : bool }.

(** [std::rename]: nothing happens where the old name does not exist. *)
Definition rename (old new : bytes) (f : files) : files :=
  match f !! old with
  | Some d => if bool_decide (old = new) then f else <[new := d]> (delete old f)
  | None => f
  end.

(** Opening for appending creates the file where it does not exist. *)
Definition open_append (path : bytes) (f : files) : files :=
  match f !! path with Some _ => f | None => <[path := []]> f end.

(** [can_open]: whether the system lets the file be opened. *)
Definition new_sink (path : bytes) (maxSize maxFiles : Z) (can_open : bool) (f : files) : FileSink * files :=
  (mkSink path maxSize maxFiles can_open, if can_open then open_append path f else f).

Definition backup (path : bytes) (i : Z) : bytes := path ++ lit "." ++ to_string i.

(** The loop that renames the backups, from the [i]th down. *)
Fixpoint shift_backups (path : bytes) (i : nat) (f : files) : files :=
  match i with
  | O => f
  | S j => shift_backups path j (rename (backup path (Z.of_nat i)) (backup path (Z.of_nat i + 1)) f)
  end.

Definition rotate (can_open : bool) (s : FileSink) (f : files) : FileSink * files :=
  if negb (is_open s) then (s, f)
  else
    let path := filepath_ s in
    let f := shift_backups path (Z.to_nat (maxFiles_ s - 1)) f in
    let f := rename path (backup path 1) f in
    (mkSink path (maxSize_ s) (maxFiles_ s) can_open, if can_open then open_append path f else f).

Fixpoint cleanup_loop (fuel : nat) (path : bytes) (i : Z) (f : files) : option files :=
  match fuel with
  | O => None
  | S fuel =>
      match f !! backup path i with
      | None => Some f
      | Some _ => cleanup_loop fuel path (i + 1) (delete (backup path i) f)
      end
  end.

(** Each round but the last removes a file. *)
Definition cleanup (s : FileSink) (f : files) : option files :=
  cleanup_loop (S (size f)) (filepath_ s) (maxFiles_ s + 1) f.

(** The position after the write is the size of the file. *)
Definition write (can_open : bool) (message : bytes) (s : FileSink) (f : files) : option (FileSink * files) :=
  if negb (is_open s) then Some (s, f)
  else
    let d := default [] (f !! filepath_ s) ++ message ++ [LF] in
    let f := <[filepath_ s := d]> f in
    if maxSize_ s <? zlen d then
      let '(s, f) := rotate can_open s f in
      (fun f => (s, f)) <$> cleanup s f
    else Some (s, f).

(** *** The file and its backups as a list

    The newest backup is first. *)
Record history := mkHistory { current : bytes; backups : list bytes }.

Definition h_write (maxSize : Z) (maxFiles : nat) (message : bytes) (h : history) : history :=
  let d := current h ++ message ++ [LF] in
  if maxSize <? zlen d then mkHistory [] (take maxFiles (d :: backups h)) else mkHistory d (backups h).

Definition shows (path : bytes) (f : files) (h : history) : Prop :=
  f !! path = Some (current h) /\ forall i : nat, f !! backup path (Z.of_nat i + 1) = backups h !! i.

Lemma backup_inj path i j : 0 <= i -> 0 <= j -> backup path i = backup path j -> i = j.
Proof.
  intros Hi Hj E%app_inv_head%app_inv_head. unfold to_string in E.
  destruct (Z.ltb_spec i 0), (Z.ltb_spec j 0); try lia.
  destruct (show_unsigned_spec i Hi) as (_ & _ & H1), (show_unsigned_spec j Hj) as (_ & _ & H2). congruence.
Qed.

Lemma backup_not_path path i : backup path i <> path.
Proof. intros E%(f_equal length). unfold backup in E. rewrite !length_app in E. change (length (lit ".")) with 1%nat in E. lia. Qed.

Lemma rename_lookup old new f k :
  old <> new ->
  rename old new f !! k =
    if decide (is_Some (f !! old)) then
      if decide (k = new) then f !! old else if decide (k = old) then None else f !! k
    else f !! k.
Proof.
  intros Hne. unfold rename. destruct (f !! old) as [d|]; [|done]. rewrite decide_True by done.
  rewrite bool_decide_eq_false_2, lookup_insert, lookup_delete by done.
  repeat case_decide; congruence.
Qed.

(** The backups from the first to the [n]th move up by one. *)
Lemma shift_backups_lookup path n f :
  let b (i : nat) := backup path (Z.of_nat i) in
  (forall k, (forall i : nat, (1 <= i <= S n)%nat -> k <> b i) -> shift_backups path n f !! k = f !! k) /\
  forall i : nat, (1 <= i <= S n)%nat ->
    shift_backups path n f !! b i =
      if decide (n = 0)%nat then f !! b i
      else if decide (i = 1)%nat then None
      else match f !! b (i - 1)%nat with
           | Some d => Some d
           | None => if decide (i = S n) then f !! b i else None
           end.
Proof.
  intros b. revert f. induction n as [|n IH]; intros f; cbn [shift_backups]; [split; [done|]; intros i Hi; done|].
  replace (Z.of_nat (S n) + 1) with (Z.of_nat (S (S n))) by lia. fold (b (S n)) (b (S (S n))).
  assert (forall i j, b i = b j -> i = j) as Hinj by (intros i j E%backup_inj; lia).
  assert (forall k, rename (b (S n)) (b (S (S n))) f !! k =
    if decide (is_Some (f !! b (S n))) then
      if decide (k = b (S (S n))) then f !! b (S n) else if decide (k = b (S n)) then None else f !! k
    else f !! k) as Hr by (intros k; apply rename_lookup; intros ?%Hinj; lia).
  destruct (IH (rename (b (S n)) (b (S (S n))) f)) as [Hother Hb]. split.
  - intros k Hk. rewrite Hother by (intros i Hi; apply Hk; lia). rewrite Hr.
    rewrite (decide_False (P := k = b (S (S n)))), (decide_False (P := k = b (S n))) by (apply Hk; lia).
    by destruct (decide (is_Some _)).
  - intros i Hi. rewrite (decide_False (P := S n = 0%nat)) by lia.
    destruct (decide (i = S (S n))) as [->|Hne].
    + rewrite Hother by (intros j Hj ?%Hinj; lia). rewrite Hr, (decide_True (P := b _ = b _)) by done.
      rewrite (decide_False (P := S (S n) = 1%nat)) by lia. replace (S (S n) - 1)%nat with (S n) by lia.
      destruct (f !! b (S n)) as [d|]; [by rewrite decide_True by done|].
      by rewrite decide_False by (by intros []).
    + rewrite Hb by lia. destruct (decide (n = 0%nat)) as [->|Hn].
      * assert (i = 1%nat) as -> by lia. rewrite Hr. rewrite (decide_False (P := b 1%nat = b 2%nat)) by (intros ?%Hinj; lia).
        rewrite (decide_True (P := b 1%nat = b 1%nat)) by done. rewrite (decide_True (P := 1%nat = 1%nat)) by done.
        destruct (decide (is_Some _)) as [E|E]; [done|]. by apply eq_None_not_Some.
      * destruct (decide (i = 1%nat)); [done|]. rewrite !Hr.
        rewrite (decide_False (P := b (i - 1)%nat = b (S (S n)))) by (intros ?%Hinj; lia).
        rewrite (decide_False (P := b (i - 1)%nat = b (S n))) by (intros ?%Hinj; lia).
        assert (forall x : option bytes, (if decide (is_Some (f !! b (S n))) then x else x) = x) as Hif by (intros; by case_decide).
        rewrite Hif. destruct (f !! b (i - 1)%nat); [done|]. destruct (decide (i = S n)) as [->|]; [|done].
        rewrite (decide_False (P := b (S n) = b (S (S n)))) by (intros ?%Hinj; lia).
        rewrite (decide_True (P := b (S n) = b (S n))) by done.
        destruct (decide (is_Some _)) as [E|E]; [done|]. by apply eq_None_not_Some.
Qed.

(** Names that are neither the file nor a backup. *)
Definition foreign (path k : bytes) : Prop := k <> path /\ forall i : nat, k <> backup path (Z.of_nat i + 1).

Lemma rotate_shows path maxSize (maxFiles : nat) f d l :
  (1 <= maxFiles)%nat -> (length l <= maxFiles)%nat -> shows path f (mkHistory d l) ->
  let s := mkSink path maxSize (Z.of_nat maxFiles) true in
  exists f', rotate true s f = (s, f') /\ shows path f' (mkHistory [] (take maxFiles (d :: l))) /\
    forall k, foreign path k -> f' !! k = f !! k.
Proof.
  intros Hn Hl [Hcur Hb] s. cbn [current backups] in *. unfold rotate. cbn [is_open s negb filepath_ maxFiles_ maxSize_].
  replace (Z.to_nat (Z.of_nat maxFiles - 1)) with (maxFiles - 1)%nat by lia.
  destruct (shift_backups_lookup path (maxFiles - 1) f) as [Hother Hshift].
  set (g := shift_backups path (maxFiles - 1) f) in *.
  assert (g !! path = Some d) as Hgp.
  { rewrite Hother; [done|]. intros i Hi E. by apply (backup_not_path path (Z.of_nat i)). }
  assert (forall k, open_append path (rename path (backup path 1) g) !! k =
    if decide (k = path) then Some [] else if decide (k = backup path 1) then Some d else g !! k) as Hg.
  { intros k. pose proof (not_eq_sym (backup_not_path path 1)) as Hne. pose proof (rename_lookup path (backup path 1) g) as Hr.
    rewrite Hgp in Hr. unfold open_append. rewrite (Hr path Hne).
    rewrite (decide_True (P := is_Some (Some d))), (decide_False (P := path = backup path 1)), (decide_True (P := path = path)) by done.
    rewrite lookup_insert, (Hr k Hne), (decide_True (P := is_Some (Some d))) by done. repeat case_decide; congruence. }
  eexists. split; [done|]. split; [split|].
  - rewrite Hg. by rewrite decide_True.
  - intros i. cbn [backups]. rewrite Hg, (decide_False (P := _ = path)) by apply backup_not_path.
    destruct i as [|i].
    + rewrite decide_True by done. by destruct maxFiles; [lia|].
    + rewrite (decide_False (P := _ = backup path 1)) by (intros ?%backup_inj; lia).
      replace (Z.of_nat (S i) + 1) with (Z.of_nat (S (S i))) by lia. cbn [take lookup list_lookup].
      destruct (decide (S (S i) <= maxFiles)%nat) as [Hi|Hi].
      * rewrite Hshift by lia. rewrite (decide_False (P := (maxFiles - 1 = 0)%nat)), (decide_False (P := (S (S i) = 1)%nat)) by lia.
        replace (Z.of_nat (S (S i) - 1)) with (Z.of_nat i + 1) by lia. rewrite Hb.
        destruct maxFiles as [|m]; [lia|]. cbn [take]. change ((d :: take m l) !! S i) with (take m l !! i).
        rewrite lookup_take_lt by lia. destruct (l !! i) eqn:E; [done|].
        destruct (decide (S (S i) = _)); [|reflexivity].
        replace (Z.of_nat (S (S i))) with (Z.of_nat (S i) + 1) by lia. rewrite Hb.
        apply lookup_ge_None in E. apply lookup_ge_None. lia.
      * rewrite Hother by (intros j Hj ?%backup_inj; lia).
        replace (Z.of_nat (S (S i))) with (Z.of_nat (S i) + 1) by lia. rewrite Hb.
        destruct maxFiles as [|m]; [lia|]. cbn [take]. change ((d :: take m l) !! S i) with (take m l !! i).
        rewrite lookup_take_ge by lia. apply lookup_ge_None. lia.
  - intros k [Hk1 Hk2]. rewrite Hg, decide_False, decide_False by (done || apply (Hk2 0%nat)).
    apply Hother. intros i Hi. specialize (Hk2 (i - 1)%nat). by replace (Z.of_nat (i - 1) + 1) with (Z.of_nat i) in Hk2 by lia.
Qed.

Lemma write_shows path maxSize (maxFiles : nat) f h m :
  (1 <= maxFiles)%nat -> (length (backups h) <= maxFiles)%nat -> shows path f h ->
  let s := mkSink path maxSize (Z.of_nat maxFiles) true in
  exists f', write true m s f = Some (s, f') /\ shows path f' (h_write maxSize maxFiles m h) /\
    (length (backups (h_write maxSize maxFiles m h)) <= maxFiles)%nat /\
    forall k, foreign path k -> f' !! k = f !! k.
Proof.
  intros Hn Hl [Hcur Hb] s. unfold write, h_write. cbn [is_open s negb filepath_ maxSize_]. rewrite Hcur.
  change (default [] (Some (current h))) with (current h).
  set (d := current h ++ m ++ [LF]).
  assert (shows path (<[path := d]> f) (mkHistory d (backups h))) as Hs.
  { split; [apply lookup_insert_eq|]. intros i. rewrite lookup_insert_ne; [apply Hb|]. apply not_eq_sym, backup_not_path. }
  assert (forall k, foreign path k -> <[path := d]> f !! k = f !! k) as Hf.
  { intros k [Hk _]. by rewrite lookup_insert_ne. }
  destruct (maxSize <? zlen d); [|exists (<[path := d]> f); split; [done|]; split; [done|]; split; [exact Hl|exact Hf]].
  destruct (rotate_shows path maxSize maxFiles _ d (backups h) Hn Hl Hs) as (f' & Hr & Hs' & Hf').
  fold s in Hr. rewrite Hr. exists f'. split_and!; [|done|cbn; rewrite length_take; lia|].
  - unfold cleanup. cbn [filepath_ maxFiles_ s cleanup_loop].
    destruct Hs' as [_ Hb']. rewrite (Hb' maxFiles). cbn [backups].
    rewrite lookup_ge_None_2; [done|]. rewrite length_take. lia.
  - intros k Hk. rewrite Hf', Hf by done. done.
Qed.

Definition writes (ms : list bytes) (s : FileSink) (f : files) : option (FileSink * files) :=
  foldl (fun r m => '(s, f) ← r; write true m s f) (Some (s, f)) ms.

Definition text_of (ms : list bytes) : bytes := mjoin ((fun m => m ++ [LF]) <$> ms).

(** The messages of the current file and of the backups, the newest backup first. *)
Lemma h_write_messages maxSize (maxFiles : nat) m ls l :
  (1 <= maxFiles)%nat -> (length ls <= maxFiles)%nat ->
  exists dropped ls' l', h_write maxSize maxFiles m (mkHistory (text_of l) (text_of <$> ls)) = mkHistory (text_of l') (text_of <$> ls') /\
    mjoin (reverse ls) ++ l ++ [m] = dropped ++ mjoin (reverse ls') ++ l' /\
    (length ls <= length ls' <= maxFiles)%nat /\ (dropped = [] \/ length ls' = maxFiles).
Proof.
  intros Hn Hl. unfold h_write. cbn [current backups].
  replace (text_of l ++ m ++ [LF]) with (text_of (l ++ [m])) by (unfold text_of; rewrite fmap_app, join_app; cbn; by rewrite app_nil_r).
  destruct (maxSize <? zlen (text_of (l ++ [m]))); [|exists [], ls, (l ++ [m]); split; [done|]; split; [done|]; split; [lia|by left]].
  exists (mjoin (reverse (drop maxFiles ((l ++ [m]) :: ls)))), (take maxFiles ((l ++ [m]) :: ls)), []. split_and!.
  - by rewrite fmap_take.
  - rewrite app_nil_r, <-join_app, <-reverse_app, take_drop, reverse_cons, join_app. cbn. by rewrite app_nil_r.
  - rewrite length_take. cbn [length]. lia.
  - rewrite length_take. cbn [length]. lia.
  - rewrite length_take. cbn [length]. destruct (decide (S (length ls) <= maxFiles)%nat); [|right; lia].
    left. rewrite drop_ge by (cbn; lia). done.
Qed.

(** The log file with its backups. Whatever is written to a fresh file, the file and
    each backup hold whole messages, and what they hold, from the oldest backup to the
    file, is the end of what was written, in order; all of it while there are fewer
    backups than allowed. The file is never longer than the limit, the backups have no
    gaps in their numbers, and no other file is touched. *)
Theorem log_rotation path maxSize (maxFiles : nat) f ms :
  (1 <= maxFiles)%nat -> 0 <= maxSize -> f !! path = None ->
  (forall i : nat, f !! backup path (Z.of_nat i + 1) = None) ->
  let '(s, f0) := new_sink path maxSize (Z.of_nat maxFiles) true f in
  exists f' dropped ls l, writes ms s f0 = Some (s, f') /\
    shows path f' (mkHistory (text_of l) (text_of <$> ls)) /\
    ms = dropped ++ mjoin (reverse ls) ++ l /\ (dropped = [] \/ length ls = maxFiles) /\
    (length ls <= maxFiles)%nat /\ zlen (text_of l) <= maxSize /\
    forall k, foreign path k -> f' !! k = f !! k.
Proof.
  intros Hn Hm Hp Hb. unfold new_sink, open_append. rewrite Hp.
  set (s := mkSink path maxSize (Z.of_nat maxFiles) true).
  induction ms as [|m ms IH] using rev_ind.
  - exists (<[path := []]> f), [], [], []. split_and!; try done.
    + split; [apply lookup_insert_eq|]. intros i. rewrite lookup_insert_ne; [by rewrite Hb|].
      apply not_eq_sym, backup_not_path.
    + by left.
    + cbn. lia.
    + intros k [Hk _]. by rewrite lookup_insert_ne.
  - destruct IH as (f1 & dropped & ls & l & Hw & Hs & -> & Hd & Hl & Hc & Hf).
    destruct (write_shows path maxSize maxFiles f1 (mkHistory (text_of l) (text_of <$> ls)) m Hn ltac:(cbn [backups]; rewrite length_fmap; exact Hl) Hs) as (f2 & Hw2 & Hs2 & _ & Hf2).
    destruct (h_write_messages maxSize maxFiles m ls l Hn Hl) as (dropped2 & ls2 & l2 & Hh & Ht & Hl2 & Hd2).
    assert (zlen (current (h_write maxSize maxFiles m (mkHistory (text_of l) (text_of <$> ls)))) <= maxSize) as Hc2.
    { unfold h_write. destruct (Z.ltb_spec maxSize (zlen (current (mkHistory (text_of l) (text_of <$> ls)) ++ m ++ [LF]))); cbn [current] in *; [done|lia]. }
    rewrite Hh in Hs2, Hc2. exists f2, (dropped ++ dropped2), ls2, l2. split_and!; [|done| | |lia|done|].
    + unfold writes in *. rewrite foldl_app, Hw. exact Hw2.
    + rewrite <-!app_assoc, Ht. done.
    + destruct Hd as [-> |Hd]; [exact Hd2|right; lia].
    + intros k Hk. rewrite Hf2, Hf by done. done.
Qed.

Lemma log_rotation_witness :
  exists f ls l, writes [lit "abc"; lit "de"; lit "f"] (mkSink (lit "log") 3 2 true) {[lit "log" := []]} =
      Some (mkSink (lit "log") 3 2 true, f) /\ shows (lit "log") f (mkHistory (text_of l) (text_of <$> ls)) /\
    zlen (text_of l) <= 3.
Proof.
  destruct (log_rotation (lit "log") 3 2 ∅ [lit "abc"; lit "de"; lit "f"] ltac:(lia) ltac:(lia)
    (lookup_empty _) (fun i => lookup_empty _)) as (f & dropped & ls & l & Hw & Hs & _ & _ & _ & Hc & _).
  exists f, ls, l. exact (conj Hw (conj Hs Hc)).
Defined.

(** The clean-up ends, whatever files there are. *)
Theorem cleanup_total s f : is_Some (cleanup s f).
Proof.
  unfold cleanup. generalize (maxFiles_ s + 1). generalize (filepath_ s). intros path i.
  remember (size f) as n eqn:Hn. revert i f Hn. induction n as [|n IH]; intros i f Hn; cbn [cleanup_loop].
  - symmetry in Hn. apply map_size_empty_inv in Hn. subst f. by rewrite lookup_empty.
  - destruct (f !! backup path i) as [d|] eqn:E; [|by eexists].
    apply IH. rewrite map_size_delete_Some by eauto. lia.
Qed.

(** A level is read back from its name, in upper or lower case, and from its number. *)
Theorem level_read_back l :
  parse_log_level (level_name l) = Some l /\ parse_log_level (Commands.to_lower (level_name l)) = Some l /\
  parse_log_level (to_string (level_num l)) = Some l.
Proof. by destruct l. Qed.
End Log.
