(* ===== verification/Logger.v ===== *)
(** * The logger: class Logger of base/log.h and base/log.cpp

    Callers of [log], [setFile], [flush] and the destructor, and the thread that
    writes, as interleaved steps. The mutex is held from the test of the condition of
    [cv_] until the thread is asleep, which is one step for [flush], whose condition the
    mutex guards, and two for the thread, whose condition reads [stop_] as well. *)

From S2P Require Import Prelude Base Config Log.
From stdpp Require Import options.

Module Logger.
Import Text Log.

(** The thread: before the test of its condition, found false and not yet asleep,
    asleep, with a batch it took, writing it to the [i]th of [n] sinks, at its end. *)
Inductive writer :=
  | WTest | WPark | WBlocked | WBatch (batch : list bytes) | WWrite (batch : list bytes) (i n : nat) | WExited.

(** A call of [flush]. *)
Inductive flusher := FTest | FBlocked | FDone.

Record Logger := mkLogger {
  level_ : LogLevel;
  queue_ : list bytes;
  stop_ : bool;
  sinks_ : list (list bytes);      (** what each sink was given *)
  thread : writer;
  flushers : list flusher;
  notifying : nat;                 (** calls of [log] that have yet to notify *)
  stopping : bool;                 (** a destructor that has yet to notify *)
  logged : list bytes              (** the messages accepted so far *)
}.

(** The console is the first sink. *)
Definition new_logger : Logger := mkLogger INFO [] false [[]] WTest [] 0 false [].

Definition with_thread (w : writer) (l : Logger) : Logger :=
  mkLogger (level_ l) (queue_ l) (stop_ l) (sinks_ l) w (flushers l) (notifying l) (stopping l) (logged l).

Definition with_flushers (fs : list flusher) (l : Logger) : Logger :=
  mkLogger (level_ l) (queue_ l) (stop_ l) (sinks_ l) (thread l) fs (notifying l) (stopping l) (logged l).

Definition setLevel (level : LogLevel) (l : Logger) : Logger :=
  mkLogger level (queue_ l) (stop_ l) (sinks_ l) (thread l) (flushers l) (notifying l) (stopping l) (logged l).

Definition onConfigChange (key value : bytes) (l : Logger) : Logger :=
  if bool_decide (key = lit "log_level") then
    match parse_log_level value with Some level => setLevel level l | None => l end
  else l.

(** [bindToConfigHotReload]; [me] is the address of the logger. *)
Definition bindToConfigHotReload (me : nat) (c : Config.Config) : Config.Config :=
  Config.addObserver (lit "log_level") me c.

(** ** Messages *)

(** A text as C sees it: up to the first null character. *)
Fixpoint c_text (s : bytes) : bytes :=
  match s with [] => [] | c :: s => if bool_decide (c = zero) then [] else c :: c_text s end.

Definition formatMessage (module : bytes) (level : LogLevel) (timestamp thread_id msg : bytes) : bytes :=
  lit "[" ++ level_name level ++ lit "] " ++ timestamp ++ lit " [" ++ module ++ lit "] [" ++ thread_id ++
  lit "] " ++ msg.

(** What [vsnprintf] leaves of a text in the buffer of 4096 bytes. *)
Definition buffered (text : bytes) : bytes := c_text (take 4095 text).

Definition mutex_free (l : Logger) : bool := match thread l with WPark => false | _ => true end.

(** [log] up to its notification: [None] while another has the mutex. *)
Definition log (module : bytes) (level : LogLevel) (timestamp thread_id text : bytes) (l : Logger) : option Logger :=
  if level_num level <? level_num (level_ l) then Some l
  else if negb (mutex_free l) then None
  else
    let message := formatMessage module level timestamp thread_id (buffered text) in
    Some (mkLogger (level_ l) (queue_ l ++ [message]) (stop_ l) (sinks_ l) (thread l) (flushers l)
            (S (notifying l)) (stopping l) (logged l ++ [message])).

Definition setFile (l : Logger) : option Logger :=
  if negb (mutex_free l) then None
  else Some (mkLogger (level_ l) (queue_ l) (stop_ l) (sinks_ l ++ [[]]) (thread l) (flushers l)
               (notifying l) (stopping l) (logged l)).

(** ** The thread *)

Definition writer_step (l : Logger) : option Logger :=
  match thread l with
  | WTest =>
      if stop_ l || negb (bool_decide (queue_ l = [])) then
        Some (mkLogger (level_ l) [] (stop_ l) (sinks_ l) (WBatch (queue_ l)) (flushers l) (notifying l)
                (stopping l) (logged l))
      else Some (with_thread WPark l)
  | WPark => Some (with_thread WBlocked l)
  | WBatch [] => Some (with_thread (if stop_ l then WExited else WTest) l)
  | WBatch batch => Some (with_thread (WWrite batch 0 (length (sinks_ l))) l)
  | WWrite batch i n =>
      if (i <? n)%nat then
        Some (mkLogger (level_ l) (queue_ l) (stop_ l) (alter (fun out => out ++ batch) i (sinks_ l))
                (WWrite batch (S i) n) (flushers l) (notifying l) (stopping l) (logged l))
      else Some (with_thread WTest l)
  | WBlocked | WExited => None
  end.

(** ** flush *)

Definition flush (l : Logger) : Logger := with_flushers (flushers l ++ [FTest]) l.

Definition flush_step (i : nat) (l : Logger) : option Logger :=
  match flushers l !! i with
  | Some FTest =>
      if negb (mutex_free l) then None
      else Some (with_flushers (<[i := if bool_decide (queue_ l = []) then FDone else FBlocked]> (flushers l)) l)
  | _ => None
  end.

(** ** Notifications *)

(** Who is asleep on [cv_]. *)
Inductive sleeper := Writer | Flusher (i : nat).

Definition asleep (x : sleeper) (l : Logger) : bool :=
  match x with
  | Writer => match thread l with WBlocked => true | _ => false end
  | Flusher i => match flushers l !! i with Some FBlocked => true | _ => false end
  end.

Definition wake_one (x : sleeper) (l : Logger) : Logger :=
  match x with
  | Writer => with_thread WTest l
  | Flusher i => with_flushers (<[i := FTest]> (flushers l)) l
  end.

Definition nobody_asleep (l : Logger) : bool :=
  negb (asleep Writer l) && forallb (fun f => match f with FBlocked => false | _ => true end) (flushers l).

(** [notify_one] at the end of [log] wakes one that is asleep, if there is one. *)
Definition notify_one (choice : option sleeper) (l : Logger) : option Logger :=
  match notifying l with
  | O => None
  | S n =>
      let l := mkLogger (level_ l) (queue_ l) (stop_ l) (sinks_ l) (thread l) (flushers l) n (stopping l) (logged l) in
      match choice with
      | Some x => if asleep x l then Some (wake_one x l) else None
      | None => if nobody_asleep l then Some l else None
      end
  end.

Definition wake_flusher (f : flusher) : flusher := match f with FBlocked => FTest | f => f end.

(** The destructor: [stop_ = true], then [notify_all], then [join]. *)
Definition set_stop (l : Logger) : Logger :=
  mkLogger (level_ l) (queue_ l) true (sinks_ l) (thread l) (flushers l) (notifying l) true (logged l).

Definition notify_all (l : Logger) : option Logger :=
  if stopping l then
    Some (mkLogger (level_ l) (queue_ l) (stop_ l) (sinks_ l)
            (match thread l with WBlocked => WTest | w => w end) (wake_flusher <$> flushers l)
            (notifying l) false (logged l))
  else None.

(** What goes on by itself, and what callers start. *)
Inductive action := WriterStep | FlushStep (i : nat) | NotifyOne (choice : option sleeper) | NotifyAll.

Definition act (a : action) (l : Logger) : option Logger :=
  match a with
  | WriterStep => writer_step l
  | FlushStep i => flush_step i l
  | NotifyOne choice => notify_one choice l
  | NotifyAll => notify_all l
  end.

Inductive event :=
  | Log (module : bytes) (level : LogLevel) (timestamp thread_id text : bytes)
  | SetFile | SetLevel (level : LogLevel) | Flush | SetStop | Act (a : action) | Spurious (x : sleeper).

Definition log_event (e : event) (l : Logger) : option Logger :=
  match e with
  | Log module level timestamp thread_id text => log module level timestamp thread_id text l
  | SetFile => setFile l
  | SetLevel level => Some (setLevel level l)
  | Flush => Some (flush l)
  | SetStop => Some (set_stop l)
  | Act a => act a l
  | Spurious x => if asleep x l then Some (wake_one x l) else None
  end.

Definition log_events (es : list event) (l : Logger) : option Logger := foldl (fun l e => l ≫= log_event e) (Some l) es.

(** ** Order *)

(** What sink [k] is still to get of the batch. *)
Definition pending (k : nat) (w : writer) : list bytes :=
  match w with WBatch batch => batch | WWrite batch i n => if (i <=? k)%nat && (k <? n)%nat then batch else [] | _ => [] end.

Record log_inv (l : Logger) : Prop := {
  li_sinks : forall k out, sinks_ l !! k = Some out ->
    exists before, before ++ out ++ pending k (thread l) ++ queue_ l = logged l /\ (k = 0%nat -> before = []);
  li_console : is_Some (sinks_ l !! 0%nat);
  li_write : forall batch i n, thread l = WWrite batch i n ->
    (i <= n <= length (sinks_ l))%nat /\ (0 < n)%nat;
  li_park : thread l = WPark -> queue_ l = [];
  li_empty : thread l = WBatch [] -> stop_ l = true
}.

Lemma new_logger_inv : log_inv new_logger.
Proof. split; try done. intros [|k] out; [|done]. intros [= <-]. by exists []. Qed.

(** Steps that leave the sinks, the queue and the messages alone. *)
Lemma log_inv_frame l l' :
  log_inv l -> sinks_ l' = sinks_ l -> queue_ l' = queue_ l -> logged l' = logged l ->
  (forall k, (k < length (sinks_ l))%nat -> pending k (thread l') = pending k (thread l)) ->
  (forall batch i n, thread l' = WWrite batch i n -> (i <= n <= length (sinks_ l))%nat /\ (0 < n)%nat) ->
  (thread l' = WPark -> queue_ l = []) -> (thread l' = WBatch [] -> stop_ l' = true) -> log_inv l'.
Proof.
  intros [H1 H2 H3 H4 H5] Hs Hq Hl Hp Hw Hk He. split; rewrite ?Hs, ?Hq, ?Hl; try done.
  intros k out Hk'. rewrite Hp by by eapply lookup_lt_Some. by apply H1.
Qed.

Lemma log_inv_wake l l' :
  log_inv l -> sinks_ l' = sinks_ l -> queue_ l' = queue_ l -> logged l' = logged l -> stop_ l' = stop_ l ->
  (thread l' = thread l \/ thread l = WBlocked /\ thread l' = WTest) -> log_inv l'.
Proof.
  intros Hinv Hs Hq Hl Hst Ht. pose proof Hinv as [H1 H2 H3 H4 H5].
  apply (log_inv_frame l); try done.
  - intros k _. destruct Ht as [->|[-> ->]]; done.
  - intros b i n E. apply (H3 b). destruct Ht as [<-|[? E']]; [done|congruence].
  - intros E. apply H4. destruct Ht as [<-|[? E']]; [done|congruence].
  - intros E. rewrite Hst. apply H5. destruct Ht as [<-|[? E']]; [done|congruence].
Qed.

Lemma wake_one_inv x l : log_inv l -> asleep x l = true -> log_inv (wake_one x l).
Proof.
  intros Hinv Ha. apply (log_inv_wake l); try done; destruct x; try done; [|by left].
  right. cbn in *. by destruct (thread l).
Qed.

Lemma writer_step_inv l l' : log_inv l -> writer_step l = Some l' -> log_inv l'.
Proof.
  intros Hinv. pose proof Hinv as [H1 H2 H3 H4 H5]. unfold writer_step. destruct (thread l) as [| | |batch|batch i n|] eqn:Ht; try done.
  - destruct (stop_ l || _) eqn:E.
    + intros [= <-]. split; cbn; try done.
      * intros k out Hk. destruct (H1 k out Hk) as (a & Ha & H0). exists a. by rewrite app_nil_r.
      * intros [= Hq]. rewrite Hq in E. by rewrite bool_decide_eq_true_2, orb_false_r in E.
    + intros [= <-]. apply orb_false_iff in E as [_ E]. apply negb_false_iff, bool_decide_eq_true in E.
      apply (log_inv_frame l); try done. by rewrite Ht.
  - intros [= <-]. apply (log_inv_frame l); try done. by rewrite Ht.
  - destruct batch as [|m batch].
    + intros [= <-]. rewrite (H5 eq_refl). apply (log_inv_frame l); try done. by rewrite Ht.
    + intros [= <-]. apply (log_inv_frame l); try done; cbn [with_thread thread].
      * intros k Hk. rewrite Ht. cbn [pending]. by rewrite (proj2 (Nat.ltb_lt _ _) Hk).
      * intros b i n [= <- <- <-]. split; [lia|]. destruct H2 as [o Ho]. apply lookup_lt_Some in Ho. lia.
  - destruct (H3 _ _ _ eq_refl) as [Hi Hn]. destruct (Nat.ltb_spec i n).
    + intros [= <-]. split; cbn [sinks_ thread queue_ logged]; try done.
      * intros k out. rewrite list_lookup_alter. case_decide as E.
        -- subst k. destruct (sinks_ l !! i) as [o|] eqn:Ho; [|done]. intros [= <-].
           destruct (H1 i o Ho) as (a & Ha & H0). exists a. split; [|done]. rewrite <-Ha. cbn [pending].
           destruct (Nat.leb_spec i i), (Nat.ltb_spec i n), (Nat.leb_spec (S i) i); try lia. cbn. by rewrite <-app_assoc.
        -- intros Hk. destruct (H1 k out Hk) as (a & Ha & H0). exists a. split; [|done]. rewrite <-Ha. cbn [pending].
           destruct (Nat.leb_spec i k), (Nat.leb_spec (S i) k); try done; lia.
      * rewrite list_lookup_alter. destruct H2 as [o Ho].
        destruct (decide (i = 0%nat)) as [->|]; rewrite Ho; by eexists.
      * intros b j m [= <- <- <-]. rewrite length_alter. lia.
    + intros [= <-]. apply (log_inv_frame l); try done. intros k Hk. rewrite Ht. cbn [pending with_thread thread].
      destruct (Nat.leb_spec i k), (Nat.ltb_spec k n); try done; lia.
Qed.

Lemma flush_step_inv i l l' : log_inv l -> flush_step i l = Some l' -> log_inv l'.
Proof.
  intros Hinv. unfold flush_step. destruct (flushers l !! i) as [[]|]; try done. destruct (negb _); [done|].
  intros [= <-]. apply (log_inv_wake l); try done. by left.
Qed.

Lemma notify_one_inv c l l' : log_inv l -> notify_one c l = Some l' -> log_inv l'.
Proof.
  intros Hinv. unfold notify_one. destruct (notifying l) as [|n]; [done|].
  set (l0 := mkLogger _ _ _ _ _ _ n _ _).
  assert (log_inv l0) as H0 by (apply (log_inv_wake l); try done; by left).
  destruct c as [x|].
  - destruct (asleep x l0) eqn:E; [|done]. intros [= <-]. by apply wake_one_inv.
  - by destruct (nobody_asleep l0); [intros [= <-]|].
Qed.

Lemma log_act_inv a l l' : log_inv l -> act a l = Some l' -> log_inv l'.
Proof.
  intros Hinv. destruct a; cbn [act].
  - by apply writer_step_inv.
  - by apply flush_step_inv.
  - by apply notify_one_inv.
  - unfold notify_all. destruct (stopping l); [|done]. intros [= <-]. apply (log_inv_wake l); try done. cbn.
    destruct (thread l); auto.
Qed.

Lemma log_event_inv e l l' : log_inv l -> log_event e l = Some l' -> log_inv l'.
Proof.
  intros Hinv. pose proof Hinv as [H1 H2 H3 H4 H5]. destruct e as [m lv ts tid text| |lv| | |a|x]; cbn [log_event].
  - unfold log. destruct (_ <? _); [by intros [= <-]|]. destruct (mutex_free l) eqn:Hm; [|done]. intros [= <-].
    split; cbn; try done.
    + intros k out Hk. destruct (H1 k out Hk) as (a & Ha & H0). exists a. split; [|done]. rewrite <-Ha. by rewrite <-!app_assoc.
    + intros E. unfold mutex_free in Hm. by rewrite E in Hm.
  - unfold setFile. destruct (mutex_free l); [|done]. intros [= <-]. split; cbn; try done.
    + intros k out [Hk|[Hk Hout]]%lookup_app_Some; [by apply H1|].
      destruct (k - length (sinks_ l))%nat as [|j] eqn:Ek; [|done]. injection Hout as <-.
      destruct H2 as [o Ho]. destruct (H1 0%nat o Ho) as (a & Ha & H0). rewrite (H0 eq_refl) in Ha.
      assert (0 < length (sinks_ l))%nat as Hlen by by eapply lookup_lt_Some.
      destruct (thread l) as [| | |batch|batch i n|] eqn:Ht; cbn [pending app] in *;
        try (exists o; rewrite Ha; split; [done|lia]).
      destruct (H3 _ _ _ eq_refl) as [Hi Hn]. destruct (Nat.ltb_spec k n); [lia|]. rewrite andb_false_r.
      exists (o ++ (if (i <=? 0)%nat && (0 <? n)%nat then batch else [])). rewrite <-app_assoc. cbn [app]. split; [done|lia].
    + destruct H2 as [o Ho]. exists o. by apply lookup_app_l_Some.
    + intros b i n E. specialize (H3 b i n E). rewrite length_app. cbn. lia.
  - intros [= <-]. apply (log_inv_wake l); try done. by left.
  - intros [= <-]. apply (log_inv_wake l); try done. by left.
  - intros [= <-]. apply (log_inv_frame l); try done.
  - by apply log_act_inv.
  - destruct (asleep x l) eqn:E; [|done]. intros [= <-]. by apply wake_one_inv.
Qed.

Lemma events_ind (P : Logger -> Prop) (Q : event -> Prop) es l :
  P new_logger -> (forall e l l', Q e -> P l -> log_event e l = Some l' -> P l') -> Forall Q es ->
  log_events es new_logger = Some l -> P l.
Proof.
  intros H0 Hs HQ. revert l. induction es as [|e es IH] using rev_ind; intros l; unfold log_events.
  - by intros [= <-].
  - apply Forall_app in HQ as [HQ He]. inversion_clear He. rewrite foldl_app. cbn.
    destruct (foldl _ _ es) as [l0|] eqn:E; [|done]. cbn. intros Hl. by eapply Hs, Hl; [|apply IH].
Qed.

Lemma events_inv es l : log_events es new_logger = Some l -> log_inv l.
Proof.
  apply (events_ind log_inv (fun _ => True)); [apply new_logger_inv| |by apply Forall_true].
  intros e l0 l1 _. apply log_event_inv.
Qed.

(** ** Progress without [flush] and before the destructor *)

Definition calm (e : event) : Prop := match e with Flush | SetStop => False | _ => True end.

Record calm_inv (l : Logger) : Prop := {
  ci_log : log_inv l;
  ci_flush : flushers l = [];
  ci_stop : stop_ l = false /\ stopping l = false;
  ci_exit : thread l <> WExited;
  ci_wake : thread l = WBlocked -> queue_ l <> [] -> (0 < notifying l)%nat
}.

Lemma calm_event_inv e l l' : calm e -> calm_inv l -> log_event e l = Some l' -> calm_inv l'.
Proof.
  intros Hc Hinv He. pose proof Hinv as [Hl Hf [Hs Hs'] Hx Hw]. pose proof (log_event_inv e l l' Hl He) as Hl'.
  pose proof Hl as [_ _ _ Hpark Hempty].
  destruct e as [m lv ts tid text| |lv| | |a|x]; cbn [log_event calm] in *; try done.
  - unfold log in He. destruct (_ <? _); [by injection He as <-|]. destruct (negb _); [done|]. injection He as <-.
    split; try done. intros _ _. cbn. lia.
  - unfold setFile in He. destruct (negb _); [done|]. injection He as <-. by split.
  - injection He as <-. by split.
  - destruct a as [|i|c|]; cbn [act] in He.
    + unfold writer_step in He. destruct (thread l) as [| | |batch|batch i n|] eqn:Ht; try done.
      * rewrite Hs in He. cbn [orb] in He. case_bool_decide as Hq; cbn [negb] in He; injection He as <-; by split.
      * injection He as <-. split; try done. cbn. intros _ Hq. by rewrite (Hpark eq_refl) in Hq.
      * destruct batch as [|b batch]; [by rewrite (Hempty eq_refl) in Hs|]. injection He as <-. by split.
      * destruct (_ <? _)%nat; injection He as <-; by split.
    + unfold flush_step in He. by rewrite Hf in He.
    + unfold notify_one in He. destruct (notifying l) as [|n] eqn:Hn; [done|]. destruct c as [[|i]|].
      * cbn in He. destruct (thread l); try done. injection He as <-. by split.
      * cbn in He. by rewrite Hf in He.
      * unfold nobody_asleep in He. cbn in He. rewrite Hf in He. destruct (thread l) eqn:Ht; cbn in He; try done; injection He as <-; split; try done; cbn; rewrite ?Ht; try done.
    + unfold notify_all in He. by rewrite Hs' in He.
  - destruct x as [|i]; cbn in He; [|by rewrite Hf in He]. destruct (thread l); try done. injection He as <-. by split.
Qed.

Lemma calm_events_inv es l : Forall calm es -> log_events es new_logger = Some l -> calm_inv l.
Proof.
  apply (events_ind calm_inv calm); [|intros; by eapply calm_event_inv].
  split; [apply new_logger_inv|done..].
Qed.

(** A bound on the steps that are still to come. *)
Definition writer_weight (sinks : nat) (w : writer) : nat :=
  match w with
  | WBlocked | WExited => 0
  | WPark => 1
  | WBatch [] => 3
  | WTest => 4
  | WWrite _ i n => (n - i) + 5
  | WBatch _ => sinks + 6
  end.

Definition steps_left (l : Logger) : nat :=
  writer_weight (length (sinks_ l)) (thread l) +
  (if bool_decide (queue_ l = []) then 0 else length (sinks_ l) + 3) + 5 * notifying l.

Lemma log_act_decreases a l l' : calm_inv l -> act a l = Some l' -> (steps_left l' < steps_left l)%nat.
Proof.
  intros [Hl Hf [Hs Hs'] Hx Hw] Ha. pose proof Hl as [_ _ _ Hpark Hempty]. unfold steps_left.
  destruct a as [|i|c|]; cbn [act] in Ha.
  - unfold writer_step in Ha. destruct (thread l) as [| | |batch|batch i n|] eqn:Ht; try done.
    + rewrite Hs in Ha. cbn [orb] in Ha. case_bool_decide as Hq; cbn [negb] in Ha; injection Ha as <-; cbn.
      * rewrite bool_decide_eq_true_2 by done. lia.
      * destruct (queue_ l); [done|]. cbn. lia.
    + injection Ha as <-. cbn. lia.
    + destruct batch as [|b batch]; [by rewrite (Hempty eq_refl) in Hs|]. injection Ha as <-. cbn. lia.
    + destruct (Nat.ltb_spec i n); injection Ha as <-; cbn; rewrite ?length_alter; lia.
  - unfold flush_step in Ha. by rewrite Hf in Ha.
  - unfold notify_one in Ha. destruct (notifying l) as [|n] eqn:Hn; [done|]. destruct c as [[|i]|].
    + cbn in Ha. destruct (thread l); try done. injection Ha as <-. cbn. lia.
    + cbn in Ha. by rewrite Hf in Ha.
    + unfold nobody_asleep in Ha. destruct (_ && _); [|done]. injection Ha as <-. cbn. lia.
  - unfold notify_all in Ha. by rewrite Hs' in Ha.
Qed.

Definition actions (l : list action) (s : Logger) : option Logger := foldl (fun s a => s ≫= act a) (Some s) l.

Lemma actions_none l : foldl (fun s a => s ≫= act a) None l = None.
Proof. by induction l. Qed.

Lemma actions_bound l s s' : calm_inv s -> actions l s = Some s' ->
  calm_inv s' /\ (length l + steps_left s' <= steps_left s)%nat.
Proof.
  revert s. induction l as [|a l IH]; intros s Hs; unfold actions; cbn [foldl]; [intros [= <-]; cbn; split; [done|lia]|].
  cbn [mbind option_bind]. destruct (act a s) as [s1|] eqn:Ha; [|by rewrite actions_none]. intros Hl.
  pose proof (log_act_decreases a s s1 Hs Ha) as Hd.
  assert (calm_inv s1) as Hs1 by (by apply (calm_event_inv (Act a) s s1)).
  destruct (IH s1 Hs1 Hl) as [? ?]. split; [done|]. cbn [length]. lia.
Qed.

(** Where nothing can go on by itself, everything is written. *)
Lemma quiet_written l : calm_inv l -> (forall a, act a l = None) -> sinks_ l !! 0%nat = Some (logged l).
Proof.
  intros [Hl Hf [Hs Hs'] Hx Hw] Hq. pose proof Hl as [H1 [out Hout] _ _ Hempty].
  destruct (H1 0%nat out Hout) as (a & Ha & H0). rewrite (H0 eq_refl) in Ha.
  assert (thread l = WBlocked) as Ht.
  { specialize (Hq WriterStep). cbn [act] in Hq. unfold writer_step in Hq. repeat case_match; done. }
  rewrite Ht in Ha. cbn in Ha. destruct (queue_ l) as [|m q] eqn:Eq; [by rewrite Hout, <-Ha, app_nil_r|].
  specialize (Hw Ht ltac:(done)). specialize (Hq (NotifyOne (Some Writer))). cbn [act] in Hq. unfold notify_one in Hq.
  destruct (notifying l) as [|n]; [lia|]. cbn in Hq. by rewrite Ht in Hq.
Qed.

(** C24: what the logger does with messages. In every interleaving of callers, of the
    thread, of [flush], of the destructor and of spurious wake-ups, each sink is given
    messages in the order in which they were accepted, without gaps and each once, the
    console from the first on. As long as neither [flush] nor the destructor is called,
    the thread goes on by itself for a bounded number of steps and stops only when the
    console has every message. *)
Theorem logger_delivers es l :
  log_events es new_logger = Some l ->
  (exists out rest, sinks_ l !! 0%nat = Some out /\ out ++ rest = logged l) /\
  (forall k out, sinks_ l !! k = Some out -> exists before after, before ++ out ++ after = logged l) /\
  (Forall calm es ->
   forall acts l', actions acts l = Some l' ->
     (length acts <= steps_left l)%nat /\
     ((forall a, act a l' = None) -> sinks_ l' !! 0%nat = Some (logged l'))).
Proof.
  intros He. pose proof (events_inv es l He) as [H1 [out Hout] _ _ _]. split_and!.
  - destruct (H1 0%nat out Hout) as (a & Ha & H0). rewrite (H0 eq_refl) in Ha. by exists out, (pending 0 (thread l) ++ queue_ l).
  - intros k o Ho. destruct (H1 k o Ho) as (a & Ha & _). by exists a, (pending k (thread l) ++ queue_ l).
  - intros Hc acts l' Ha. destruct (actions_bound acts l l' (calm_events_inv es l Hc He) Ha) as [Hl' Hlen].
    split; [lia|]. by apply quiet_written.
Qed.

Definition sample_events : list event := [
  Act WriterStep; Act WriterStep; Log (lit "M") INFO (lit "t") (lit "1") (lit "a"); Act (NotifyOne (Some Writer));
  SetFile; Log (lit "M") WARN (lit "t") (lit "1") (lit "b"); Log (lit "M") DEBUG (lit "t") (lit "1") (lit "c")
].

Lemma logger_delivers_witness :
  exists l out rest, log_events sample_events new_logger = Some l /\ sinks_ l !! 0%nat = Some out /\
    out ++ rest = logged l /\ length (logged l) = 2%nat.
Proof.
  destruct (log_events sample_events new_logger) as [l|] eqn:E; [|by vm_compute in E].
  destruct (logger_delivers sample_events l E) as ((out & rest & Ho & Hr) & _ & _).
  exists l, out, rest. split_and!; [done|done|done|].
  assert (length (default [] (logged <$> Some l)) = 2%nat) as H by (rewrite <-E; by vm_compute).
  exact H.
Defined.

(** ** Where it stops for ever *)

Definition stuck (l : Logger) : Prop :=
  (forall i, flush_step i l = None) /\ writer_step l = None /\ notify_all l = None /\ forall c, notify_one c l = None.

(** The destructor sets [stop_] without the mutex: between the test of the condition and
    the sleep of the thread it is not seen, the notification finds nobody asleep, and
    [join] waits for ever. *)
Theorem destructor_hangs :
  exists l, log_events [Act WriterStep; SetStop; Act NotifyAll; Act WriterStep] new_logger = Some l /\
    stop_ l = true /\ thread l = WBlocked /\ stuck l.
Proof. eexists. split; [reflexivity|]. by split_and!. Qed.

(** The thread does not notify when it has emptied the queue: a [flush] that found a
    message in it sleeps on although the message is written. *)
Theorem flush_hangs :
  exists l, log_events ([Log (lit "M") INFO [] [] (lit "a"); Act (NotifyOne None); Flush; Act (FlushStep 0)] ++
      replicate 6 (Act WriterStep)) new_logger = Some l /\
    queue_ l = [] /\ flushers l = [FBlocked] /\ sinks_ l = [logged l] /\ stuck l.
Proof. eexists. split; [vm_compute; reflexivity|]. split_and!; try done. split_and!; try done. by intros [|i]. Qed.

(** A [flush] that sleeps takes the notification that was meant for the thread: the
    message stays in the queue and nobody writes it. *)
Theorem flush_takes_notification :
  exists l, log_events ([Log (lit "M") INFO [] [] (lit "a"); Flush; Act (FlushStep 0)] ++
      replicate 6 (Act WriterStep) ++ [Act (NotifyOne (Some (Flusher 0))); Log (lit "M") INFO [] [] (lit "b");
      Act (FlushStep 0); Act (NotifyOne (Some (Flusher 0))); Act (FlushStep 0)]) new_logger = Some l /\
    length (queue_ l) = 1%nat /\ stuck l.
Proof. eexists. split; [vm_compute; reflexivity|]. split; [done|]. split_and!; try done. by intros [|i]. Qed.
End Logger.
