(* ===== verification/Format.v ===== *)
(** * Time stamps, stack traces and signals: base/format.cpp and base/signal.cpp

    The fields of the local time, the addresses of a stack and the names that belong to
    them come from the system and are inputs. *)

From S2P Require Import Prelude Base.
From stdpp Require Import options.

Module Format.
Import Text.

(** ** Format *)

(** [vsnprintf] into 4096 bytes: a terminating zero is written in any case, and the string
    ends at the first zero. *)
Fixpoint until_zero (text : bytes) : bytes :=
  match text with
  | [] => []
  | c :: rest => if bool_decide (c = "000"%char) then [] else c :: until_zero rest
  end.

Definition format (text : bytes) : bytes := until_zero (take 4095 text).

(** [struct tm]. *)
Record tm := mkTm { tm_year : Z; tm_mon : Z; tm_mday : Z; tm_hour : Z; tm_min : Z; tm_sec : Z }.

(** [setfill('0') << setw(w)], and the two digits of [strftime]. *)
Definition pad (w : nat) (n : Z) : bytes := let s := to_string n in replicate (w - length s) "0"%char ++ s.

(** [t] is [localtime_r] of the second that [epoch_ms] is in. *)
Definition timestamp (t : tm) (epoch_ms : Z) : bytes :=
  to_string (tm_year t + 1900) ++ lit "-" ++ pad 2 (tm_mon t + 1) ++ lit "-" ++ pad 2 (tm_mday t) ++ lit " " ++
  pad 2 (tm_hour t) ++ lit ":" ++ pad 2 (tm_min t) ++ lit ":" ++ pad 2 (tm_sec t) ++ lit "." ++ pad 3 (Z.rem epoch_ms 1000).

(** ** SignalHandler *)

Inductive disposition := Default | Ignored | Bridge | SegvHandler | MainHandler.

Definition SIGINT : Z := 2.
Definition SIGSEGV : Z := 11.
Definition SIGPIPE : Z := 13.
Definition SIGTERM : Z := 15.

(** Callbacks are numbers. *)
Record SignalHandler := mkSignals { callbacks_ : gmap Z nat; table : gmap Z disposition }.

Definition no_signals : SignalHandler := mkSignals ∅ ∅.

Definition signal (n : Z) (d : disposition) (s : SignalHandler) : SignalHandler := mkSignals (callbacks_ s) (<[n := d]> (table s)).

Definition handle (n : Z) (callback : nat) (s : SignalHandler) : SignalHandler :=
  mkSignals (<[n := callback]> (callbacks_ s)) (<[n := Bridge]> (table s)).

Definition signalHandler (n : Z) (s : SignalHandler) : option nat := callbacks_ s !! n.

(** [signal] fails for neither of the two on a system that has them. *)
Definition init (s : SignalHandler) : SignalHandler := signal SIGSEGV SegvHandler (signal SIGPIPE Ignored s).

(** What main.cpp registers. *)
Definition main_signals : SignalHandler := init (signal SIGTERM MainHandler (signal SIGINT MainHandler no_signals)).

(** What a signal does: what the system does by itself, nothing, a callback, a line on the
    console, [_exit(1)], or the handler of main.cpp. *)
Inductive effect := SystemDefault | Nothing | Calls (callback : nat) | Reported | Exits (code : Z) | MainQuits.

Definition raise (n : Z) (s : SignalHandler) : effect :=
  match default Default (table s !! n) with
  | Default => SystemDefault
  | Ignored => Nothing
  | Bridge => match signalHandler n s with Some cb => Calls cb | None => Reported end
  | SegvHandler => Exits 1
  | MainHandler => MainQuits
  end.

(** ** getStackTrace *)

(** [Dl_info]: the symbol, what [__cxa_demangle] makes of it, and the address of the
    symbol. *)
Record symbol := mkSymbol { dli_sname : option (bytes * option bytes); dli_saddr : option Z }.

Definition MAX_STACK_DEPTH : nat := 64.

Section trace.
(** ["%p"], and [dladdr]. *)
Context (show_pointer : Z -> bytes) (dladdr : Z -> option symbol).

Definition frame_text (i : nat) (addr : Z) : bytes :=
  lit "  #" ++ to_string (Z.of_nat i) ++ lit "  " ++ show_pointer addr ++ lit "  " ++
  match dladdr addr with
  | None => lit "(无符号信息)"
  | Some info =>
      match dli_sname info with
      | Some (_, Some demangled) => demangled
      | Some (name, None) => name
      | None => lit "(未知符号)"
      end ++
      match dli_saddr info with Some start => lit " + " ++ to_string (addr - start) | None => [] end
  end.

(** The first frame is [getStackTrace] itself. *)
Definition getStackTrace (frames : list Z) : list bytes :=
  match take MAX_STACK_DEPTH frames with
  | [] => [lit "  (无堆栈信息: backtrace 失败)"]
  | _ :: rest => imap frame_text rest
  end.

(** A trace has a line for each frame but its own, at most 63, and each begins with its
    number. *)
Theorem stack_trace_lines frames :
  (length (getStackTrace frames) <= 63)%nat /\
  (frames <> [] -> length (getStackTrace frames) = pred (length (take MAX_STACK_DEPTH frames)) /\
    forall i line, getStackTrace frames !! i = Some line ->
      exists addr, frames !! S i = Some addr /\ (lit "  #" ++ to_string (Z.of_nat i) ++ lit "  " ++ show_pointer addr) `prefix_of` line).
Proof.
  unfold getStackTrace. pose proof (length_take_le frames MAX_STACK_DEPTH) as Hlen. destruct frames as [|a frames]; [split; [cbn; lia|done]|].
  change (take MAX_STACK_DEPTH (a :: frames)) with (a :: take 63 frames) in *. cbv iota beta. rewrite length_imap. split.
  - rewrite length_take. lia.
  - intros _. split; [done|]. intros i line Hl. rewrite list_lookup_imap in Hl.
    destruct (take 63 frames !! i) as [addr|] eqn:Ha; [|done]. cbn in Hl. injection Hl as <-. exists addr.
    apply lookup_take_Some in Ha as [Ha _]. split; [done|]. unfold frame_text. rewrite !app_assoc. by do 2 apply prefix_app_r.
Qed.
End trace.

(** Registering a callback decides what its signal does and nothing else; the last one
    counts. *)
Theorem handle_decides n callback s :
  raise n (handle n callback s) = Calls callback /\ forall m, m <> n -> raise m (handle n callback s) = raise m s.
Proof.
  unfold raise, handle, signalHandler. cbn. rewrite !lookup_insert_eq. split; [done|]. intros m Hm. by rewrite !lookup_insert_ne.
Qed.

(** After the registrations of main.cpp: SIGINT and SIGTERM go to its handler, SIGPIPE does
    nothing, SIGSEGV ends the process, and the rest is left to the system. *)
Theorem main_signals_table n :
  raise n main_signals =
    if (n =? SIGINT) || (n =? SIGTERM) then MainQuits
    else if n =? SIGPIPE then Nothing else if n =? SIGSEGV then Exits 1 else SystemDefault.
Proof.
  unfold raise, main_signals, init, signal, no_signals, SIGINT, SIGTERM, SIGPIPE, SIGSEGV. cbn [table].
  destruct (Z.eqb_spec n 2) as [->|]; [done|]. destruct (Z.eqb_spec n 15) as [->|]; [done|].
  destruct (Z.eqb_spec n 13) as [->|]; [done|]. destruct (Z.eqb_spec n 11) as [->|]; [done|]. cbn [orb].
  by rewrite !lookup_insert_ne, lookup_empty by done.
Qed.

(** ** Reading a time stamp *)

Definition number (b : bytes) : option Z :=
  if forallb is_digit b && negb (bool_decide (b = [])) then Some (digits_val b) else None.

Definition read_timestamp (b : bytes) : option (tm * Z) :=
  y ← number (take 4 b);
  mo ← number (take 2 (drop 5 b));
  d ← number (take 2 (drop 8 b));
  h ← number (take 2 (drop 11 b));
  mi ← number (take 2 (drop 14 b));
  s ← number (take 2 (drop 17 b));
  ms ← number (take 3 (drop 20 b));
  Some (mkTm (y - 1900) (mo - 1) d h mi s, ms).

Lemma digits_val_zeros k b : digits_val (replicate k "0"%char ++ b) = digits_val b.
Proof. induction k as [|k IH]; [done|]. cbn [replicate app]. unfold digits_val in *. cbn [foldl]. exact IH. Qed.

(** A number that fits is written in exactly its width. *)
Lemma pad_spec w n :
  0 <= n < 10 ^ Z.of_nat w -> (0 < w)%nat -> length (pad w n) = w /\ number (pad w n) = Some n.
Proof.
  intros Hn Hw. unfold pad. assert (to_string n = show_unsigned n) as -> by (unfold to_string; by rewrite (proj2 (Z.ltb_ge _ _)) by lia).
  destruct (show_unsigned_spec n) as (Hne & Hd & Hv); [lia|].
  assert (length (show_unsigned n) <= w)%nat as Hlen.
  { destruct w as [|k]; [lia|]. by apply (dec_digits_length _ k). }
  split; [rewrite length_app, length_replicate; lia|]. unfold number.
  assert (forallb is_digit (replicate (w - length (show_unsigned n)) "0"%char ++ show_unsigned n) = true) as ->.
  { apply forallb_forall. intros c Hc. apply in_app_or in Hc as [Hc|Hc]; [by apply list_elem_of_In, elem_of_replicate in Hc as [-> _]|]. rewrite Forall_forall in Hd.
    by apply Hd, list_elem_of_In. }
  rewrite bool_decide_eq_false_2; [|by intros [_ ?]%app_eq_nil]. by rewrite digits_val_zeros, Hv.
Qed.

Definition tm_ok (t : tm) : Prop :=
  1000 <= tm_year t + 1900 <= 9999 /\ 0 <= tm_mon t <= 11 /\ 1 <= tm_mday t <= 31 /\ 0 <= tm_hour t <= 23 /\ 0 <= tm_min t <= 59 /\ 0 <= tm_sec t <= 60.

Lemma year_text y : 1000 <= y <= 9999 -> length (to_string y) = 4%nat /\ number (to_string y) = Some y.
Proof.
  intros Hy. destruct (pad_spec 4 y) as [Hl Hn]; [change (10 ^ Z.of_nat 4) with 10000; lia|lia|]. unfold pad in *.
  assert (4 <= length (to_string y))%nat as Hlen.
  { unfold to_string. rewrite (proj2 (Z.ltb_ge _ _)) by lia. unfold show_unsigned.
    assert (exists f, S (Z.to_nat (Z.log2 y)) = S (S (S (S f)))) as [f ->].
    { assert (9 <= Z.log2 y) by (apply (Z.log2_le_mono 1000); lia). exists (Z.to_nat (Z.log2 y) - 3)%nat. lia. }
    rewrite !dec_digits_S. do 3 (rewrite (proj2 (Z.ltb_ge _ _)); [|repeat apply Z.div_le_lower_bound; lia]). rewrite !length_app. cbn [length].
    destruct (Z.ltb_spec (y / 10 / 10 / 10) 10) as [|Hbig]; [cbn; lia|]. rewrite !length_app. cbn [length]. lia. }
  replace (4 - length (to_string y))%nat with 0%nat in Hl, Hn by lia. split; [exact Hl|exact Hn].
Qed.

(** A time stamp is 23 characters long and says the time: reading it gives back the fields
    and the milliseconds, so that different times have different stamps. *)
Theorem timestamp_roundtrip t epoch_ms :
  tm_ok t -> 0 <= epoch_ms -> length (timestamp t epoch_ms) = 23%nat /\ read_timestamp (timestamp t epoch_ms) = Some (t, epoch_ms mod 1000).
Proof.
  intros (Hy & Hmo & Hd & Hh & Hmi & Hs) He. rewrite <-Z.rem_mod_nonneg by lia.
  pose proof (Z.rem_bound_pos epoch_ms 1000 ltac:(lia) ltac:(lia)) as Hms.
  assert (10 ^ Z.of_nat 2 = 100) as E2 by done. assert (10 ^ Z.of_nat 3 = 1000) as E3 by done.
  destruct (year_text (tm_year t + 1900)) as [Ly Ny]; [lia|].
  destruct (pad_spec 2 (tm_mon t + 1)) as [Lmo Nmo]; [lia..|]. destruct (pad_spec 2 (tm_mday t)) as [Ld Nd]; [lia..|].
  destruct (pad_spec 2 (tm_hour t)) as [Lh Nh]; [lia..|]. destruct (pad_spec 2 (tm_min t)) as [Lmi Nmi]; [lia..|].
  destruct (pad_spec 2 (tm_sec t)) as [Ls Ns]; [lia..|]. destruct (pad_spec 3 (Z.rem epoch_ms 1000)) as [Lm Nm]; [lia..|].
  unfold read_timestamp, timestamp. revert Ly Ny Lmo Nmo Ld Nd Lh Nh Lmi Nmi Ls Ns Lm Nm.
  generalize (to_string (tm_year t + 1900)) (pad 2 (tm_mon t + 1)) (pad 2 (tm_mday t)) (pad 2 (tm_hour t)) (pad 2 (tm_min t)) (pad 2 (tm_sec t)) (pad 3 (Z.rem epoch_ms 1000)).
  intros y mo d h mi s ms Ly Ny Lmo Nmo Ld Nd Lh Nh Lmi Nmi Ls Ns Lm Nm.
  split; [rewrite !length_app, Ly, Lmo, Ld, Lh, Lmi, Ls, Lm; done|].
  destruct y as [|y1 [|y2 [|y3 [|y4 [|]]]]]; try done. destruct mo as [|m1 [|m2 [|]]]; try done. destruct d as [|d1 [|d2 [|]]]; try done.
  destruct h as [|h1 [|h2 [|]]]; try done. destruct mi as [|i1 [|i2 [|]]]; try done. destruct s as [|s1 [|s2 [|]]]; try done.
  destruct ms as [|e1 [|e2 [|e3 [|]]]]; try done.
  change (lit "-") with ["-"%char]. change (lit " ") with [" "%char]. change (lit ":") with [":"%char]. change (lit ".") with ["."%char].
  cbn [app take drop]. rewrite Ny. cbn [mbind option_bind]. rewrite Nmo. cbn [mbind option_bind]. rewrite Nd. cbn [mbind option_bind].
  rewrite Nh. cbn [mbind option_bind]. rewrite Nmi. cbn [mbind option_bind]. rewrite Ns. cbn [mbind option_bind]. rewrite Nm. cbn [mbind option_bind].
  do 2 f_equal. destruct t. cbn. f_equal; lia.
Qed.
End Format.
