(* ===== verification/NodesFile.v ===== *)
(** * What the cluster tells about itself: the queries of cluster_state.cpp and
    cluster_server.cpp, and the file of nodes ([saveNodesConf])

    The file is a line for each node. Nothing in the program reads it; the reader of this
    file is the grammar it is written in, and shows that nothing is lost in it. *)

From S2P Require Import Prelude Base Resp Slots Cluster Config.
From stdpp Require Import options.

Module NodesFile.
Import Text Slots Cluster.

(** ** Queries of ClusterState *)

(** [order] is the order of one iteration over [nodes_]. *)
Definition getNodeByIpPort (order : list nid) (i : bytes) (p : Z) (s : ClusterState) : option nid :=
  find (fun x => match heap s !! x with Some n => bool_decide (ip (info_ n) = i) && (port (info_ n) =? p) | None => false end) order.

Definition state_size (s : ClusterState) : nat := size (nodes_ s).

Definition getMigratingSlots (s : ClusterState) : list Z := (map_to_list (migrating_slots_ s)).*1.
Definition getImportingSlots (s : ClusterState) : list Z := (map_to_list (importing_slots_ s)).*1.

Definition getReplicas (master : bytes) (s : ClusterState) : list nid := default [] (replicas_ s !! master).

(** [lock] is [alive]. *)
Definition getMasterNode (lock : nid -> bool) (n : ClusterNode) : option nid :=
  i ← master_node_ n; if lock i then Some i else None.

Definition getMasterOfReplica (lock : nid -> bool) (replica : bytes) (s : ClusterState) : option nid :=
  i ← nodes_ s !! replica; n ← heap s !! i; getMasterNode lock n.

Definition nodes_with (P : ClusterNode -> bool) (s : ClusterState) : list ClusterNode :=
  filter (fun n => P n = true) (getAllNodes s).

Definition getFailedNodes : ClusterState -> list ClusterNode := nodes_with isFailed.
Definition getPfailedNodes : ClusterState -> list ClusterNode := nodes_with isPfailed.

(** The counters of bus messages: 64 bits, the value after the message. *)
Definition note_message (counter : Z) : Z * Z := ((counter + 1) mod (uint64_max + 1), (counter + 1) mod (uint64_max + 1)).

(** ** Queries of ClusterServer *)

Definition getNodeBySlot (slot : Z) (s : ClusterServer) : option nid := getNodeForSlot slot (state_ s).
Definition getNodeByKey (key : bytes) (s : ClusterServer) : option nid := getNodeBySlot (keyToSlot key) s.

Definition getSlotMigrationTarget (slot : Z) (s : ClusterServer) : option nid :=
  let info := getSlotMigrationInfo slot (state_ s) in
  if bool_decide (mg_status info = mgMigrating) && negb (bool_decide (mg_target info = [])) then getNode (mg_target info) (state_ s) else None.

Definition getSlotMigrationSource (slot : Z) (s : ClusterServer) : option nid :=
  let info := getSlotMigrationInfo slot (state_ s) in
  if bool_decide (mg_status info = mgImporting) && negb (bool_decide (mg_source info = [])) then getNode (mg_source info) (state_ s) else None.

Definition getMyReplicas (s : ClusterServer) : list nid :=
  match my_node s with Some n => getReplicas (getName n) (state_ s) | None => [] end.

(** [on_timer], after the timer of the connections. *)
Definition on_timer (now : Z) (s : ClusterServer) : ClusterServer :=
  if negb (enabled_ s) || negb (running_ s) then s else executeFailover now s.

(** ** The file of nodes *)

Definition SP : ascii := " "%char.

Definition node_flags (n : ClusterNode) : bytes :=
  (if isMaster n then lit "master" else if node_isReplica n then lit "slave" else lit "myself")
  ++ (if isFailed n then lit ",fail" else []) ++ (if isPfailed n then lit ",fail?" else []).

Definition master_name (s : ClusterServer) (n : ClusterNode) : bytes :=
  match getMasterNode (fun i => alive i s) n with
  | Some i => default (lit "-") (getName <$> node_at i s)
  | None => lit "-"
  end.

(** The slots with a blank between them. *)
Fixpoint slots_text (l : list Z) : bytes :=
  match l with
  | [] => []
  | [x] => to_string x
  | x :: l => to_string x ++ lit " " ++ slots_text l
  end.

Definition node_line (s : ClusterServer) (n : ClusterNode) : bytes :=
  getName n ++ lit " " ++ ip (info_ n) ++ lit ":" ++ to_string (port (info_ n)) ++ lit " " ++
  node_flags n ++ lit " " ++ master_name s n ++ lit " " ++ lit "0 0 " ++ to_string (getConfigEpoch n) ++ lit " " ++
  lit "connected" ++ (match slots_ n with [] => [] | l => lit " " ++ slots_text l end).

Definition nodes_text (s : ClusterServer) (nodes : list ClusterNode) : bytes :=
  mjoin ((fun n => node_line s n ++ [LF]) <$> nodes).

(** [saveNodesConf]: the file that is replaced, when it can be opened. *)
Definition saveNodesConf (c : Config.Config) (can_open : bool) (nodes : list ClusterNode) (s : ClusterServer)
    (files : gmap bytes bytes) : gmap bytes bytes :=
  let filename := Config.clusterConfigFile c in
  let filename := if bool_decide (filename = []) then lit "nodes.conf" else filename in
  if can_open then <[filename := nodes_text s nodes]> files else files.

(** ** Its reader *)

Fixpoint split_blank (cur line : bytes) : list bytes :=
  match line with
  | [] => [cur]
  | c :: rest => if bool_decide (c = SP) then cur :: split_blank [] rest else split_blank (cur ++ [c]) rest
  end.

Record node_record := mkRecord {
  nr_name : bytes; nr_address : bytes; nr_flags : bytes; nr_master : bytes; nr_epoch : Z; nr_slots : list Z
}.

Definition read_number (b : bytes) : option Z :=
  match stoll b with Some (z, used) => if (used =? length b)%nat then Some z else None | None => None end.

Definition read_node (line : bytes) : option node_record :=
  match split_blank [] line with
  | nm :: addr :: fl :: master :: _ :: _ :: epoch :: _ :: slots =>
      e ← read_number epoch; l ← mapM read_number slots; Some (mkRecord nm addr fl master e l)
  | _ => None
  end.

Definition read_nodes (text : bytes) : option (list node_record) := mapM read_node (Config.get_lines [] text).

Definition record_of (s : ClusterServer) (n : ClusterNode) : node_record :=
  mkRecord (getName n) (ip (info_ n) ++ lit ":" ++ to_string (port (info_ n))) (node_flags n) (master_name s n)
    (getConfigEpoch n) (slots_ n).

(** ** Proofs *)

(** Words: no blank and no line break in them. *)
Definition word (b : bytes) : Prop := (SP ∉ b) /\ (LF ∉ b).

Fixpoint join_blank (l : list bytes) : bytes :=
  match l with [] => [] | [x] => x | x :: l => x ++ SP :: join_blank l end.

Lemma split_blank_app cur a rest : SP ∉ a -> split_blank cur (a ++ rest) = split_blank (cur ++ a) rest.
Proof.
  revert cur. induction a as [|c a IH]; intros cur; cbn [app split_blank]; [by rewrite app_nil_r|].
  intros [Hc Ha]%not_elem_of_cons. rewrite bool_decide_eq_false_2 by congruence. by rewrite IH, <-app_assoc.
Qed.

Lemma split_join x l : SP ∉ x -> Forall word l -> split_blank [] (join_blank (x :: l)) = x :: l.
Proof.
  intros Hx Hl. revert x Hx. induction Hl as [|y l [Hy _] _ IH]; intros x Hx.
  - cbn. rewrite <-(app_nil_r x) at 1. by rewrite split_blank_app.
  - change (join_blank (x :: y :: l)) with (x ++ SP :: join_blank (y :: l)). rewrite split_blank_app by done. cbn [app split_blank].
    rewrite bool_decide_eq_true_2 by done. by rewrite IH.
Qed.

Lemma to_string_word z : word (to_string z).
Proof.
  assert (forall w, 0 <= w -> Forall (fun c => is_space c = false) (show_unsigned w)) as Hd.
  { intros w Hw. destruct (show_unsigned_spec w Hw) as (_ & Hd & _). eapply Forall_impl; [exact Hd|]. by intros c Hc%is_digit_not_space. }
  assert (Forall (fun c => is_space c = false) (to_string z)) as Ht.
  { unfold to_string. destruct (Z.ltb_spec z 0); [apply Forall_cons; split; [done|apply Hd; lia]|apply Hd; lia]. }
  rewrite Forall_forall in Ht. split; intros Hin; by apply Ht in Hin.
Qed.

Lemma word_app a b : word a -> word b -> word (a ++ b).
Proof. intros [] []. split; rewrite not_elem_of_app; done. Qed.

Lemma word_lit a : bool_decide (SP ∉ lit a) && bool_decide (LF ∉ lit a) = true -> word (lit a).
Proof. intros [? ?]%andb_prop. split; by eapply bool_decide_eq_true. Qed.

Lemma flags_word n : word (node_flags n).
Proof.
  unfold node_flags. repeat apply word_app; repeat case_match; first [apply word_lit; by vm_compute|split; apply not_elem_of_nil].
Qed.

Lemma slots_text_join l : slots_text l = join_blank (to_string <$> l).
Proof.
  induction l as [|x [|y l] IH]; [done..|].
  change (slots_text (x :: y :: l)) with (to_string x ++ lit " " ++ slots_text (y :: l)). by rewrite IH.
Qed.

Definition node_words (s : ClusterServer) (n : ClusterNode) : list bytes :=
  [ip (info_ n) ++ lit ":" ++ to_string (port (info_ n)); node_flags n; master_name s n; lit "0"; lit "0";
   to_string (getConfigEpoch n); lit "connected"] ++ (to_string <$> slots_ n).

Lemma join_blank_cons x y l : join_blank (x :: y :: l) = x ++ lit " " ++ join_blank (y :: l).
Proof. done. Qed.

Lemma node_line_join s n : node_line s n = join_blank (getName n :: node_words s n).
Proof.
  unfold node_line, node_words. cbn [app]. rewrite !join_blank_cons. change (lit "0 0 ") with (lit "0" ++ lit " " ++ lit "0" ++ lit " ").
  rewrite <-!app_assoc. do 20 (f_equal; []). destruct (slots_ n) as [|x l]; [done|].
  rewrite slots_text_join. cbn [fmap list_fmap]. by rewrite join_blank_cons.
Qed.

(** What a node must look like for its line: a name and an address in one word each, and
    numbers of their width. *)
Record clean (n : ClusterNode) : Prop := {
  cl_name : word (getName n);
  cl_ip : word (ip (info_ n));
  cl_epoch : in_i64 (getConfigEpoch n);
  cl_slots : Forall in_i64 (slots_ n)
}.

Definition names_clean (s : ClusterServer) : Prop := forall i n, node_at i s = Some n -> word (getName n).

Lemma node_words_ok s n : clean n -> names_clean s -> Forall word (node_words s n).
Proof.
  intros [Hn Hi _ _] Hs. unfold node_words. apply Forall_app. split.
  - repeat apply Forall_cons_2; try (apply word_lit; by vm_compute); [|apply flags_word| |apply to_string_word|constructor].
    + repeat apply word_app; [done|apply word_lit; by vm_compute|apply to_string_word].
    + unfold master_name. destruct (getMasterNode _ n) as [i|]; [|apply word_lit; by vm_compute].
      destruct (node_at i s) as [m|] eqn:Hm; [by apply (Hs i m)|apply word_lit; by vm_compute].
  - apply Forall_fmap, Forall_true. intros z. apply to_string_word.
Qed.

Lemma read_number_text z : in_i64 z -> read_number (to_string z) = Some z.
Proof. intros Hz. unfold read_number. by rewrite stoll_to_string, Nat.eqb_refl. Qed.

Lemma read_numbers l : Forall in_i64 l -> mapM read_number (to_string <$> l) = Some l.
Proof. induction 1 as [|z l Hz _ IH]; [done|]. cbn. by rewrite read_number_text, IH. Qed.

Lemma read_node_line s n : clean n -> names_clean s -> read_node (node_line s n) = Some (record_of s n).
Proof.
  intros Hc Hs. unfold read_node. rewrite node_line_join, split_join; [|apply Hc|by apply node_words_ok]. cbn [node_words app].
  rewrite read_number_text by apply Hc. cbn [mbind option_bind]. by rewrite read_numbers by apply Hc.
Qed.

Lemma node_line_no_break s n : clean n -> names_clean s -> LF ∉ node_line s n.
Proof.
  intros Hc Hs. rewrite node_line_join. pose proof (node_words_ok s n Hc Hs) as Hw.
  assert (Forall word (getName n :: node_words s n)) as H by (constructor; [apply Hc|done]).
  induction H as [|x [|y l] [_ Hx] _ IH]; [apply not_elem_of_nil|done|]. rewrite join_blank_cons, !not_elem_of_app. split_and!; [done| |exact IH].
  apply (bool_decide_unpack _). by vm_compute.
Qed.

(** The file of nodes holds a line for every node, in the order in which they are given;
    reading it back gives the name, the address, the flags, the master, the epoch and the
    slots of each. *)
Theorem nodes_file_roundtrip c s nodes files :
  Forall clean nodes -> names_clean s ->
  exists filename, filename <> [] /\
    (saveNodesConf c true nodes s files !! filename ≫= read_nodes) = Some (record_of s <$> nodes) /\
    (forall f, f <> filename -> saveNodesConf c true nodes s files !! f = files !! f) /\
    saveNodesConf c false nodes s files = files.
Proof.
  intros Hn Hs. unfold saveNodesConf. set (f := if bool_decide _ then _ else _). exists f.
  assert (read_nodes (nodes_text s nodes) = Some (record_of s <$> nodes)) as Hread.
  { unfold read_nodes, nodes_text. induction Hn as [|n nodes Hc _ IH]; [done|].
    change (mjoin (_ <$> n :: nodes)) with ((node_line s n ++ [LF]) ++ mjoin ((fun n => node_line s n ++ [LF]) <$> nodes)).
    rewrite <-app_assoc, Config.get_lines_app by by apply node_line_no_break.
    cbn [app Config.get_lines]. rewrite bool_decide_eq_true_2 by done. cbn [mapM]. rewrite read_node_line by done. cbn [mbind option_bind]. by rewrite IH. }
  split_and!; [|by rewrite lookup_insert_eq|intros g Hg; by rewrite lookup_insert_ne|done].
  unfold f. case_bool_decide; [by vm_compute|done].
Qed.
End NodesFile.
