(* ===== verification/BusCall.v ===== *)
(** * Commands over the bus: cluster/cluster_connection.h, cluster_connection.cpp

    Requests that wait for a reply ([send_command_and_wait], [deliver_command_reply])
    as interleaved steps of their callers on the shared table of pending replies; who
    is believed to be the sender of a message ([classify_bus_name],
    [bus_sender_identity_accepted]); and what a node does with a message
    ([handle_link_msg]), on its cluster state, its store, its replication and its
    table of pending replies. The counter of rejected messages is left out. *)

From S2P Require Import Prelude Base Buffer Resp Object Payload Storage Commands Slots Cluster Link Gossip Connection Replication.
From stdpp Require Import options.

Module BusCall.
Import Text Resp Storage Commands Cluster Link Gossip Server Replication.

(** ** Tagged texts *)

(** [std::stoull(s, &idx)]: a sign is accepted, and a negative number wraps. *)
Definition stoull (s : bytes) : option (Z * nat) :=
  let '(w, s1) := skip_spaces s in
  let '(neg, sg, body) :=
    match s1 with
    | c :: r =>
        if bool_decide (c = "-"%char) then (true, 1%nat, r)
        else if bool_decide (c = "+"%char) then (false, 1%nat, r)
        else (false, 0%nat, s1)
    | [] => (false, 0%nat, s1)
    end in
  let '(ds, _) := span_digits body in
  match ds with
  | [] => None
  | _ =>
      let v := digits_val ds in
      if v <=? uint64_max then Some (if neg : bool then u64 (- v) else v, w + sg + length ds)%nat else None
  end.

Definition SPACE : ascii := " "%char.
Definition is_blank (c : ascii) : bool := bool_decide (c = SPACE).

Definition parse_bus_tagged (head text : bytes) : option (Z * bytes) :=
  if (length text <=? length head)%nat || negb (bool_decide (take (length head) text = head)) then None
  else
    let rest := drop (length head) text in
    match find_pos is_blank rest with
    | None => None
    | Some p =>
        let id_text := take p rest in
        match stoull id_text with
        | Some (id, consumed) =>
            if (consumed =? length id_text)%nat then Some (id, drop (S p) rest) else None
        | None => None
        end
    end.

Definition CCREQ : bytes := lit "CCREQ ".
Definition CCRESP : bytes := lit "CCRESP ".

Definition tagged (head : bytes) (id : Z) (body : bytes) : bytes := head ++ to_string id ++ SPACE :: body.

(** ** Pending replies *)

Record PendingBusReply := mkPending { p_reply : bytes; p_done : bool; deadline_ms : Z }.

(** A call of [send_command_and_wait]: refused at once, between the registration and
    the result of the send, in [wait_for], at its end with a reply or without. *)
Inductive caller :=
  | Refused | Sending (id : Z) | Waiting (id : Z) | Answered (id : Z) (reply : bytes) | Failed (id : Z).

Record BusCalls := mkCalls {
  next_request_id_ : Z;
  pending_replies_ : gmap Z PendingBusReply;
  callers : list caller
}.

Definition new_calls : BusCalls := mkCalls 1 ∅ [].

(** Entries past their deadline are removed on the way. *)
Definition drop_stale (now : Z) : gmap Z PendingBusReply -> gmap Z PendingBusReply :=
  filter (fun '(_, p) => ~ deadline_ms p < now).

(** The beginning: the text to send with the state, [None] where it returns at once. *)
Definition call_begin (args : list bytes) (timeout now : Z) (c : BusCalls) : option bytes * BusCalls :=
  if bool_decide (args = []) || (timeout <=? 0)
  then (None, mkCalls (next_request_id_ c) (pending_replies_ c) (callers c ++ [Refused]))
  else
    let id := next_request_id_ c in
    let pending := drop_stale now (pending_replies_ c) in
    (* [emplace] keeps an entry that is there *)
    let pending := match pending !! id with
                   | Some _ => pending
                   | None => <[id := mkPending [] false (now + timeout)]> pending
                   end in
    (Some (tagged CCREQ id (encode_array args)),
     mkCalls (u64 (id + 1)) pending (callers c ++ [Sending id])).

(** [send_command_to_node] returned [ok]. *)
Definition call_sent (i : nat) (ok : bool) (c : BusCalls) : option BusCalls :=
  match callers c !! i with
  | Some (Sending id) =>
      if ok then Some (mkCalls (next_request_id_ c) (pending_replies_ c) (<[i := Waiting id]> (callers c)))
      else Some (mkCalls (next_request_id_ c) (delete id (pending_replies_ c)) (<[i := Failed id]> (callers c)))
  | _ => None
  end.

(** [wait_for] returns when its condition holds or when the time is up, and the rest of
    the call; [None] where it waits on. *)
Definition call_wait (i : nat) (time_up : bool) (c : BusCalls) : option BusCalls :=
  match callers c !! i with
  | Some (Waiting id) =>
      let found := pending_replies_ c !! id in
      let arrived := match found with None => true | Some p => p_done p end in
      if negb arrived && negb time_up then None
      else
        let c' r := mkCalls (next_request_id_ c) (delete id (pending_replies_ c)) (<[i := r]> (callers c)) in
        match found with
        | Some p => if p_done p then Some (c' (Answered id (p_reply p))) else Some (c' (Failed id))
        | None => Some (c' (Failed id))
        end
  | _ => None
  end.

Definition deliver_command_reply (id : Z) (reply : bytes) (c : BusCalls) : BusCalls :=
  match pending_replies_ c !! id with
  | None => c
  | Some p =>
      mkCalls (next_request_id_ c) (<[id := mkPending reply true (deadline_ms p)]> (pending_replies_ c)) (callers c)
  end.

Inductive call_event :=
  | Call (args : list bytes) (timeout now : Z)
  | SentResult (i : nat) (ok : bool)
  | WaitEnds (i : nat) (time_up : bool)
  | Deliver (id : Z) (reply : bytes).

Definition call_step (ev : call_event) (c : BusCalls) : option BusCalls :=
  match ev with
  | Call args timeout now => Some (call_begin args timeout now c).2
  | SentResult i ok => call_sent i ok c
  | WaitEnds i time_up => call_wait i time_up c
  | Deliver id reply => Some (deliver_command_reply id reply c)
  end.

Definition call_steps (evs : list call_event) (c : BusCalls) : option BusCalls :=
  foldl (fun c ev => c ≫= call_step ev) (Some c) evs.

(** ** Who sent a message *)

Inductive BusNameShape := kLiteralAddress | kHostname | kMalformed.

Global Instance BusNameShape_eq_dec : EqDecision BusNameShape.
Proof. solve_decision. Defined.

Definition between (lo hi c : ascii) : bool := (byte_val lo <=? byte_val c) && (byte_val c <=? byte_val hi).
Definition is_separator (c : ascii) : bool := bool_decide (c = "."%char) || bool_decide (c = ":"%char).
Definition is_hex_letter (c : ascii) : bool := between "a" "f" c || between "A" "F" c.
Definition is_name_letter (c : ascii) : bool :=
  bool_decide (c = "-"%char) || between "g" "z" c || between "G" "Z" c.

(** The loop with its two flags; [None] is the return from its inside. *)
Fixpoint classify_loop (s : bytes) (has_separator has_non_hex_letter : bool) : option (bool * bool) :=
  match s with
  | [] => Some (has_separator, has_non_hex_letter)
  | c :: s =>
      if between "0" "9" c then classify_loop s has_separator has_non_hex_letter
      else if is_separator c then classify_loop s true has_non_hex_letter
      else if is_hex_letter c then classify_loop s has_separator has_non_hex_letter
      else if is_name_letter c then classify_loop s has_separator true
      else None
  end.

Definition classify_bus_name (s : bytes) : BusNameShape :=
  match s with
  | [] => kMalformed
  | _ =>
      match classify_loop s false false with
      | None => kMalformed
      | Some (has_separator, has_non_hex_letter) =>
          if has_non_hex_letter then kHostname else if has_separator then kLiteralAddress else kMalformed
      end
  end.

Inductive BusMsgPlane := kControl | kData.

Definition bus_sender_identity_accepted (claimed_ip observed_ip : bytes) (sender_is_known_member : bool)
    (plane : BusMsgPlane) : bool :=
  if bool_decide (claimed_ip = []) || bool_decide (observed_ip = []) then false
  else
    match plane with
    | kData => sender_is_known_member && negb (bool_decide (classify_bus_name claimed_ip = kMalformed))
    | kControl =>
        match classify_bus_name claimed_ip, classify_bus_name observed_ip with
        | kMalformed, _ | _, kMalformed => false
        | kLiteralAddress, kLiteralAddress => bool_decide (claimed_ip = observed_ip)
        | _, _ => true
        end
    end.

(** ** What a node does with a message *)

Record BusNode := mkBusNode {
  bn_world : GossipServer;
  bn_store : Storage;
  bn_repl : ReplicationMgr;
  bn_calls : BusCalls
}.

Definition with_world (w : GossipServer) (n : BusNode) : BusNode :=
  mkBusNode w (bn_store n) (bn_repl n) (bn_calls n).
Definition with_bn_store (s : Storage) (n : BusNode) : BusNode :=
  mkBusNode (bn_world n) s (bn_repl n) (bn_calls n).
Definition with_bn_repl (r : ReplicationMgr) (n : BusNode) : BusNode :=
  mkBusNode (bn_world n) (bn_store n) r (bn_calls n).
Definition with_bn_calls (c : BusCalls) (n : BusNode) : BusNode :=
  mkBusNode (bn_world n) (bn_store n) (bn_repl n) c.

(** What it sends on the link of the message. *)
Inductive bus_send := SendPong | SendAck (arg : bytes).

(** What comes of a message: whether an exception leaves the handler, what is sent on
    the link, and the node. *)
Record Handled := mkHandled { threw : bool; sends : list bus_send; node : BusNode }.

Definition kPing : Z := 1.
Definition kPong : Z := 2.
Definition kMeet : Z := 3.
Definition kRepData : Z := 10.

Definition is_colon (c : ascii) : bool := bool_decide (c = ":"%char).
Definition REPLSYNC : bytes := lit "REPLSYNC:".

Section handler.
Context `{StringHash} `{DoubleText} `{DoubleLib}.
Context (execute_other : Command -> list bytes -> Storage -> option bytes * Storage).
Context (e : Env) (now master_offset max_lag : Z).

Definition my_name (n : BusNode) : bytes := getMyNodeName (server (bn_world n)).
Definition known_member (nm : bytes) (n : BusNode) : bool :=
  match getNode nm (state_ (server (bn_world n))) with Some _ => true | None => false end.

(** A request: the reply of the command, or the text of the exception. *)
Definition handle_request (id : Z) (body : bytes) (n : BusNode) : option (list bus_send * BusNode) :=
  match execute_bus_command_line execute_other e body (bn_store n) with
  | None => None
  | Some (out, s) =>
      let exec_out := default (encode_error (lit "ERR command threw: " ++ e_what e)) out in
      Some ([SendAck (tagged CCRESP id exec_out)], with_bn_store s n)
  end.

(** [REPLSYNC:<replica>]. *)
Definition handle_replsync (sender replica : bytes) (n : BusNode) : BusNode :=
  let w := server (bn_world n) in
  match getNode sender (state_ w) ≫= fun i => node_at i w with
  | Some nd =>
      let r := add_replica replica (ip (info_ nd)) (port (info_ nd)) (bn_repl n) in
      let kvs := get_all_objects_with_ttl (H0 := e_store_order e) (e_now e) (bn_store n) in
      with_bn_repl (send_rdb_to_replica (H0 := e_hash_order e) (e_now e) replica kvs r).2 n
  | None => n
  end.

(** The branch for [kRepData]. *)
Definition handle_rep_data (sender : bytes) (args : list bytes) (n : BusNode) : option (list bus_send * BusNode) :=
  match args with
  | [] => Some ([], n)
  | cmd_line :: _ =>
      match parse_bus_tagged CCREQ cmd_line with
      | Some (id, body) => handle_request id body n
      | None =>
          match parse_bus_tagged CCRESP cmd_line with
          | Some (id, body) => Some ([], with_bn_calls (deliver_command_reply id body (bn_calls n)) n)
          | None =>
              if bool_decide (take 9 cmd_line = REPLSYNC)
              then Some ([], handle_replsync sender (drop 9 cmd_line) n)
              else
                match handle_replication_command execute_other e cmd_line (bn_store n) with
                | Some s => Some ([], with_bn_store s n)
                | None => None
                end
          end
      end
  end.

(** The callback for gossip comes last, whatever the type. *)
Definition then_gossip (sender : bytes) (m : ClusterMsg) (snt : list bus_send) (n : BusNode) : Handled :=
  mkHandled false snt (with_world (gossip_callback now master_offset max_lag sender m (bn_world n)) n).

(** The branches on the type; nobody sets [msg_callback_]. *)
Definition dispatch (sender : bytes) (p : nat) (m : ClusterMsg) (n : BusNode) : option Handled :=
  let t := h_type (m_header m) in
  if t =? kPing then Some (then_gossip sender m [SendPong] n)
  else if t =? kMeet then
    let ip0 := take p sender in
    let port_str := drop (S p) sender in
    if bool_decide (ip0 = []) || bool_decide (port_str = []) then Some (mkHandled false [] n)
    else
      match stoi port_str with
      | Some port0 => Some (then_gossip sender m [SendPong] (with_world (on_server (meet ip0 port0) (bn_world n)) n))
      | None => Some (then_gossip sender m [] n)
      end
  else if t =? kPong then
    match node_connected sender (server (bn_world n)) with
    | Some s => Some (then_gossip sender m [] (with_world (on_server (fun _ => s) (bn_world n)) n))
    | None => Some (mkHandled true [] n)
    end
  else if t =? kRepData then
    match handle_rep_data sender (m_args m) n with
    | Some (snt, n) => Some (then_gossip sender m snt n)
    | None => None
    end
  else Some (then_gossip sender m [] n).

(** [handle_link_msg] on a link to [observed_ip]; [None] is running out of fuel in the
    parser of commands. *)
Definition handle_link_msg (observed_ip : bytes) (m : ClusterMsg) (n : BusNode) : option Handled :=
  let sender := sender_name_str m in
  match find_pos is_colon sender with
  | None => Some (mkHandled false [] n)
  | Some p =>
      let claimed_ip := take p sender in
      let plane := if h_type (m_header m) =? kRepData then kData else kControl in
      if negb (bus_sender_identity_accepted claimed_ip observed_ip (known_member sender n) plane)
      then Some (mkHandled false [] n)
      else if bool_decide (sender = my_name n) then Some (mkHandled false [] n)
      else dispatch sender p m n
  end.
End handler.
End BusCall.
