(* ===== verification/BusCallProps.v ===== *)
(** * Properties of commands over the bus

    A call gets the reply to its own request and leaves nothing behind; a message acts
    only in the name of its sender; and a command sent to another node is executed
    there and its reply comes back. *)

From S2P Require Import Prelude Base Buffer Resp RespSpec Object Payload PayloadSpec Storage StorageSpec StorageProps Commands CommandsSpec CommandsEffect CommandsProps Slots Cluster ClusterProps Link LinkProps Gossip Connection ConnectionProps Replication ReplicationProps BusCall.
From stdpp Require Import options.

Module BusCallProps.
Import Text Resp RespSpec Storage Commands CommandsSpec CommandsProps Cluster Link LinkProps Gossip Server ConnectionProps Replication ReplicationProps BusCall.

(** ** Tagged texts *)

Lemma stoull_to_string z : 0 <= z <= uint64_max -> stoull (to_string z) = Some (z, length (to_string z)).
Proof.
  intros Hz. unfold to_string. destruct (Z.ltb_spec z 0); [lia|].
  destruct (show_unsigned_spec z) as (Hne & Hd & Hv); [lia|].
  destruct (show_unsigned z) as [|c r] eqn:E; [done|]. apply Forall_cons in Hd as Hc. destruct Hc as [Hc _].
  unfold stoull. rewrite skip_spaces_digit by by apply is_digit_not_space.
  rewrite !bool_decide_eq_false_2 by (by apply is_digit_not_minus || by apply is_digit_not_plus).
  rewrite span_digits_all by done. rewrite Hv. destruct (Z.leb_spec z uint64_max); [done|lia].
Qed.

Lemma to_string_no_blank z : Forall (fun c => is_blank c = false) (to_string z).
Proof.
  assert (forall z, 0 <= z -> Forall (fun c => is_blank c = false) (show_unsigned z)) as H.
  { intros w Hw. destruct (show_unsigned_spec w Hw) as (_ & Hd & _). eapply Forall_impl; [exact Hd|].
    intros c Hc. apply is_digit_not_space in Hc. apply bool_decide_eq_false. by intros ->. }
  unfold to_string. destruct (Z.ltb_spec z 0); [|apply H; lia].
  apply Forall_cons. split; [done|]. apply H. lia.
Qed.

Lemma parse_tagged head id body :
  0 <= id <= uint64_max -> parse_bus_tagged head (tagged head id body) = Some (id, body).
Proof.
  intros Hid. unfold parse_bus_tagged, tagged.
  rewrite take_app_length, drop_app_length, (bool_decide_eq_true_2 (head = head)) by done.
  rewrite (proj2 (Nat.leb_gt _ _)) by (rewrite !length_app; cbn; lia). cbn [orb negb].
  rewrite (find_pos_first is_blank (to_string id) SPACE body) by (apply to_string_no_blank || done).
  rewrite take_app_length, stoull_to_string by done. rewrite Nat.eqb_refl.
  do 2 f_equal. replace (S (length (to_string id))) with (length (to_string id) + 1)%nat by lia.
  rewrite <-drop_drop, drop_app_length. done.
Qed.

Lemma request_not_of_reply id body : parse_bus_tagged CCREQ (tagged CCRESP id body) = None.
Proof.
  unfold parse_bus_tagged. rewrite (bool_decide_eq_false_2 (take _ _ = _)); [by rewrite orb_true_r|].
  unfold tagged, CCRESP, CCREQ. by cbn.
Qed.

(** ** Calls *)

Definition id_of (x : caller) : option Z :=
  match x with Refused => None | Sending id | Waiting id | Answered id _ | Failed id => Some id end.

Definition has_id (i : nat) (id : Z) (c : BusCalls) : Prop := callers c !! i ≫= id_of = Some id.

Definition in_flight (i : nat) (id : Z) (c : BusCalls) : Prop :=
  callers c !! i = Some (Sending id) \/ callers c !! i = Some (Waiting id).

(** The reply was delivered while a call with that number was in flight. *)
Definition delivered_to (i : nat) (id : Z) (reply : bytes) (evs : list call_event) : Prop :=
  exists evs1 evs2 c1, evs = evs1 ++ Deliver id reply :: evs2 /\ call_steps evs1 new_calls = Some c1 /\
    in_flight i id c1.

Record calls_inv (evs : list call_event) (c : BusCalls) : Prop := {
  ci_next : 1 <= next_request_id_ c <= 1 + zlen evs;
  ci_below i id : has_id i id c -> 1 <= id < next_request_id_ c;
  ci_once i j id : has_id i id c -> has_id j id c -> i = j;
  ci_pending id p : pending_replies_ c !! id = Some p -> exists i, in_flight i id c;
  ci_done id p i : pending_replies_ c !! id = Some p -> p_done p = true -> has_id i id c -> delivered_to i id (p_reply p) evs;
  ci_answered i id r : callers c !! i = Some (Answered id r) -> delivered_to i id r evs
}.

Lemma delivered_to_snoc i id r evs ev : delivered_to i id r evs -> delivered_to i id r (evs ++ [ev]).
Proof. intros (e1 & e2 & c1 & -> & H). exists e1, (e2 ++ [ev]), c1. by rewrite <-app_assoc. Qed.

Lemma in_flight_id i id c : in_flight i id c -> has_id i id c.
Proof. unfold has_id. by intros [-> | ->]. Qed.

Lemma has_id_update i x y n pend c j id :
  callers c !! i = Some x -> id_of x = id_of y ->
  has_id j id (mkCalls n pend (<[i := y]> (callers c))) <-> has_id j id c.
Proof.
  intros Hi Hxy. unfold has_id. cbn [callers]. destruct (decide (i = j)) as [<-|Hne].
  - rewrite list_lookup_insert_eq by by eapply lookup_lt_Some. by rewrite Hi; cbn; rewrite Hxy.
  - by rewrite list_lookup_insert_ne.
Qed.

(** A step that ends a call, with its entry removed, or moves it on. *)
Lemma calls_inv_update evs ev c i id x y pend :
  calls_inv evs c -> callers c !! i = Some x -> id_of x = Some id -> id_of y = Some id ->
  (y = Waiting id /\ pend = pending_replies_ c \/ pend = delete id (pending_replies_ c)) ->
  (forall r, y = Answered id r -> delivered_to i id r evs) ->
  calls_inv (evs ++ [ev]) (mkCalls (next_request_id_ c) pend (<[i := y]> (callers c))).
Proof.
  intros [Hn Hb Ho Hp Hd Ha] Hi Hx Hy Hpend Hans.
  assert (has_id i id c) as Hid by (unfold has_id; rewrite Hi; exact Hx).
  assert (forall j d, has_id j d (mkCalls (next_request_id_ c) pend (<[i := y]> (callers c))) <-> has_id j d c) as Hsame.
  { intros j d. eapply has_id_update; [exact Hi|congruence]. }
  assert (forall d p, pend !! d = Some p -> pending_replies_ c !! d = Some p /\ (d = id -> y = Waiting id)) as Hsub.
  { intros d p Hdp. destruct Hpend as [[-> ->]| ->]; [done|]. apply lookup_delete_Some in Hdp as [Hne Hdp]. split; [done|].
    intros ->. done. }
  constructor; cbn [next_request_id_ pending_replies_].
  - unfold zlen in *. rewrite length_app. cbn [length]. lia.
  - intros j d Hj. apply Hsame in Hj. by apply (Hb j).
  - intros j k d Hj Hk. apply Hsame in Hj, Hk. by eapply Ho.
  - intros d p Hdp. apply Hsub in Hdp as [Hdp Hw]. destruct (Hp d p Hdp) as [j Hj].
    assert (has_id j d c) as Hjd by by apply in_flight_id. exists j. unfold in_flight. cbn [callers].
    destruct (decide (i = j)) as [<-|Hne]; [|by rewrite !list_lookup_insert_ne].
    unfold has_id in Hid, Hjd. rewrite Hid in Hjd. injection Hjd as <-. rewrite (Hw eq_refl).
    right. apply list_lookup_insert_eq. by eapply lookup_lt_Some.
  - intros d p j Hdp Hdone Hj. apply Hsub in Hdp as [Hdp _]. apply Hsame in Hj.
    apply delivered_to_snoc. by eapply Hd.
  - intros j d r Hj. cbn [callers] in Hj. apply delivered_to_snoc.
    destruct (decide (i = j)) as [<-|Hne]; [|rewrite list_lookup_insert_ne in Hj by done; by eapply Ha].
    rewrite list_lookup_insert_eq in Hj by by eapply lookup_lt_Some. injection Hj as ->.
    cbn in Hy. injection Hy as ->. by apply Hans.
Qed.

Lemma has_id_app c n pend x j id :
  has_id j id (mkCalls n pend (callers c ++ [x])) <->
  has_id j id c \/ (j = length (callers c) /\ id_of x = Some id).
Proof.
  unfold has_id. cbn [callers]. destruct (decide (j < length (callers c))%nat) as [Hlt|Hge].
  - rewrite lookup_app_l by done. split; [by left|]. intros [?|[-> _]]; [done|lia].
  - rewrite (lookup_ge_None_2 (callers c)) by lia. rewrite lookup_app_r by lia.
    destruct (decide (j = length (callers c))) as [-> |Hne].
    + rewrite Nat.sub_diag. cbn. split; [intros Hx; right; by split|]. by intros [?|[_ ?]].
    + rewrite lookup_ge_None_2 by (cbn; lia). cbn. split; [done|]. intros [?|[? _]]; done.
Qed.

Lemma in_flight_app c n pend x j id :
  in_flight j id c -> in_flight j id (mkCalls n pend (callers c ++ [x])).
Proof. intros [H|H]; [left|right]; cbn [callers]; by rewrite (lookup_app_l_Some _ _ _ _ H). Qed.

Lemma answered_app c n pend x j id r :
  (forall d t, x <> Answered d t) ->
  callers (mkCalls n pend (callers c ++ [x])) !! j = Some (Answered id r) -> callers c !! j = Some (Answered id r).
Proof. intros Hx [?|[_ E]]%lookup_app_Some; [done|]. apply list_lookup_singleton_Some in E as [_ E]. by destruct (Hx id r). Qed.

Lemma call_begin_inv evs args timeout now c :
  1 + zlen evs < uint64_max -> calls_inv evs c ->
  calls_inv (evs ++ [Call args timeout now]) (call_begin args timeout now c).2.
Proof.
  intros Hlen [Hn Hb Ho Hp Hd Ha]. unfold call_begin.
  assert (forall (e : call_event), zlen (evs ++ [e]) = zlen evs + 1) as Hzl by (intros e0; unfold zlen; rewrite length_app; cbn; lia).
  destruct (bool_decide (args = []) || (timeout <=? 0)); cbn [snd].
  - constructor; cbn [next_request_id_ pending_replies_].
    + rewrite Hzl. lia.
    + intros i id [Hi|[_ [=]]]%has_id_app. by eapply Hb.
    + intros i j id [Hi|[_ [=]]]%has_id_app [Hj|[_ [=]]]%has_id_app. by eapply Ho.
    + intros id p Hip. destruct (Hp id p Hip) as [i Hi]. exists i. by apply in_flight_app.
    + intros id p i Hip Hdone [Hi|[_ [=]]]%has_id_app. apply delivered_to_snoc. by eapply Hd.
    + intros i id r Hi. apply answered_app in Hi; [|done]. apply delivered_to_snoc. by eapply Ha.
  - set (id0 := next_request_id_ c) in *. set (st := drop_stale now (pending_replies_ c)).
    assert (forall id p, st !! id = Some p -> pending_replies_ c !! id = Some p) as Hst.
    { intros id p [Hip _]%map_lookup_filter_Some. done. }
    assert (st !! id0 = None) as Hfresh.
    { apply eq_None_not_Some. intros [p Hip%Hst]. destruct (Hp id0 p Hip) as [i Hi%in_flight_id].
      apply Hb in Hi. unfold id0 in *. lia. }
    rewrite Hfresh. assert (u64 (id0 + 1) = id0 + 1) as Hu.
    { unfold u64, uint64_max in *. apply Z.mod_small. lia. }
    rewrite Hu. constructor; cbn [next_request_id_ pending_replies_].
    + rewrite Hzl. lia.
    + intros i id [Hi|[_ [= <-]]]%has_id_app; [apply Hb in Hi|]; lia.
    + intros i j id [Hi|[-> Hi]]%has_id_app [Hj|[-> Hj]]%has_id_app; [by eapply Ho| | |done].
      * injection Hj as <-. apply Hb in Hi. unfold id0 in *. lia.
      * injection Hi as <-. apply Hb in Hj. unfold id0 in *. lia.
    + intros id p [[<- <-]|[Hne Hip]]%lookup_insert_Some.
      * exists (length (callers c)). left. cbn [callers]. by rewrite lookup_app_r, Nat.sub_diag by lia.
      * destruct (Hp id p (Hst _ _ Hip)) as [i Hi]. exists i. by apply in_flight_app.
    + intros id p i [[<- <-]|[Hne Hip]]%lookup_insert_Some Hdone; [done|].
      intros [Hi|[_ [= ->]]]%has_id_app; [|done]. apply delivered_to_snoc. by eapply Hd; [apply Hst|..].
    + intros i id r Hi. apply answered_app in Hi; [|done]. apply delivered_to_snoc. by eapply Ha.
Qed.

Lemma deliver_inv evs id r c :
  call_steps evs new_calls = Some c -> calls_inv evs c ->
  calls_inv (evs ++ [Deliver id r]) (deliver_command_reply id r c).
Proof.
  intros Hrun [Hn Hb Ho Hp Hd Ha].
  assert (zlen (evs ++ [Deliver id r]) = zlen evs + 1) as Hzl by (unfold zlen; rewrite length_app; cbn; lia).
  unfold deliver_command_reply. destruct (pending_replies_ c !! id) as [p|] eqn:E.
  - constructor; cbn [next_request_id_ pending_replies_]; unfold has_id; cbn [callers].
    + lia.
    + exact Hb.
    + exact Ho.
    + intros d q [[<- _]|[_ Hq]]%lookup_insert_Some; [exact (Hp id p E)|exact (Hp d q Hq)].
    + intros d q i [[<- <-]|[_ Hq]]%lookup_insert_Some Hdone Hi; [|apply delivered_to_snoc; by eapply Hd].
      destruct (Hp id p E) as [j Hj]. cbn [p_reply]. rewrite (Ho i j id Hi (in_flight_id _ _ _ Hj)).
      exists evs, [], c. done.
    + intros i d t Hi. apply delivered_to_snoc. by eapply Ha.
  - constructor; [lia|exact Hb|exact Ho|exact Hp| |].
    + intros d q i Hq Hdone Hi. apply delivered_to_snoc. by eapply Hd.
    + intros i d t Hi. apply delivered_to_snoc. by eapply Ha.
Qed.

Lemma calls_inv_step evs ev c c' :
  1 + zlen evs < uint64_max -> call_steps evs new_calls = Some c -> calls_inv evs c ->
  call_step ev c = Some c' -> calls_inv (evs ++ [ev]) c'.
Proof.
  intros Hlen Hrun Hc. destruct ev as [args timeout now|i ok|i up|id r]; cbn [call_step].
  - intros [= <-]. by apply call_begin_inv.
  - unfold call_sent. destruct (callers c !! i) as [[| id | | |]|] eqn:E; try done.
    destruct ok; intros [= <-]; eapply calls_inv_update; eauto; naive_solver.
  - unfold call_wait. destruct (callers c !! i) as [[| |id | |]|] eqn:E; try done. cbv zeta.
    destruct (pending_replies_ c !! id) as [p|] eqn:Ep.
    + destruct (p_done p) eqn:Ed; cbn [negb andb].
      * intros [= <-]. eapply calls_inv_update; eauto. intros r [= <-].
        eapply ci_done; eauto. unfold has_id. by rewrite E.
      * destruct up; [|done]. intros [= <-]. eapply calls_inv_update; eauto. done.
    + cbn. intros [= <-]. eapply calls_inv_update; eauto. done.
  - intros [= <-]. by apply deliver_inv.
Qed.

Lemma call_steps_snoc evs ev c : call_steps (evs ++ [ev]) c = call_steps evs c ≫= call_step ev.
Proof. unfold call_steps. by rewrite foldl_app. Qed.

Lemma calls_inv_steps evs c :
  zlen evs < uint64_max -> call_steps evs new_calls = Some c -> calls_inv evs c.
Proof.
  revert c. induction evs as [|ev evs IH] using rev_ind; intros c Hlen.
  - intros [= <-]. constructor; try done; unfold has_id; cbn; lia || intros; by rewrite ?lookup_nil in *.
  - rewrite call_steps_snoc. intros (c0 & H0 & Hs)%bind_Some.
    assert (zlen (evs ++ [ev]) = zlen evs + 1) as Hzl by (unfold zlen; rewrite length_app; cbn; lia).
    eapply calls_inv_step; [lia|exact H0| |exact Hs]. apply IH; [lia|done].
Qed.

(** A reply that has arrived stays until its caller takes it. *)
Definition reply_kept (i : nat) (id : Z) (c : BusCalls) : Prop :=
  callers c !! i = Some (Waiting id) /\ exists p, pending_replies_ c !! id = Some p /\ p_done p = true.

Lemma other_caller_keeps i j id d x y p n c :
  (forall i j id, has_id i id c -> has_id j id c -> i = j) ->
  callers c !! i = Some (Waiting id) -> pending_replies_ c !! id = Some p -> p_done p = true ->
  callers c !! j = Some x -> id_of x = Some d -> i <> j ->
  reply_kept i id (mkCalls n (delete d (pending_replies_ c)) (<[j := y]> (callers c))).
Proof.
  intros Ho Hi Hp Hdone Hj Hx Hne. split; cbn [callers pending_replies_].
  - by rewrite list_lookup_insert_ne.
  - exists p. split; [|done]. rewrite lookup_delete_ne; [done|]. intros ->.
    apply Hne, (Ho i j id); unfold has_id; [by rewrite Hi|by rewrite Hj].
Qed.

Lemma arrived_reply i id p ev c c' :
  (forall i j id, has_id i id c -> has_id j id c -> i = j) -> 1 <= next_request_id_ c ->
  callers c !! i = Some (Waiting id) -> pending_replies_ c !! id = Some p -> p_done p = true ->
  call_step ev c = Some c' ->
  callers c' !! i = Some (Answered id (p_reply p)) \/ reply_kept i id c' \/
  exists args timeout now, ev = Call args timeout now /\ deadline_ms p < now.
Proof.
  intros Ho Hn Hi Hp Hdone. destruct ev as [args timeout now|j ok|j up|d r]; cbn [call_step].
  - intros [= <-]. right. unfold call_begin.
    destruct (bool_decide (args = []) || (timeout <=? 0)); cbn [snd].
    { left. split; cbn [callers]; [by rewrite (lookup_app_l_Some _ _ _ _ Hi)|by exists p]. }
    destruct (decide (deadline_ms p < now)) as [Hlate|Hin]; [right; by exists args, timeout, now|left].
    assert (drop_stale now (pending_replies_ c) !! id = Some p) as Hst by by apply map_lookup_filter_Some.
    split; cbn [callers pending_replies_]; [by rewrite (lookup_app_l_Some _ _ _ _ Hi)|]. exists p. split; [|done].
    destruct (drop_stale now (pending_replies_ c) !! next_request_id_ c) eqn:E; [done|].
    rewrite lookup_insert_ne; [done|]. congruence.
  - unfold call_sent. destruct (callers c !! j) as [[| d | | |]|] eqn:Ej; try done.
    assert (i <> j) as Hne by (intros ->; congruence). destruct ok; intros [= <-]; right; left.
    + split; cbn [callers pending_replies_]; [by rewrite list_lookup_insert_ne|by exists p].
    + by eapply other_caller_keeps.
  - unfold call_wait. destruct (callers c !! j) as [[| |d | |]|] eqn:Ej; try done. cbv zeta.
    destruct (decide (i = j)) as [<-|Hne].
    + rewrite Hi in Ej. injection Ej as ->. rewrite Hp, Hdone. cbn. intros [= <-]. left.
      cbn [callers]. apply list_lookup_insert_eq. by eapply lookup_lt_Some.
    + intros Hc. right; left. destruct (negb _ && negb up); [done|].
      destruct (pending_replies_ c !! d) as [q|]; [destruct (p_done q)|]; injection Hc as <-; by eapply other_caller_keeps.
  - intros [= <-]. right; left. unfold deliver_command_reply. split.
    + by destruct (pending_replies_ c !! d).
    + destruct (pending_replies_ c !! d) as [q|] eqn:E; [|by exists p]. cbn [pending_replies_].
      destruct (decide (d = id)) as [-> |Hne]; [rewrite lookup_insert_eq|rewrite lookup_insert_ne by done]; eauto.
Qed.

(** C23: calls that wait for a reply of another node. In every interleaving of fewer than
    2^64 steps, two calls never have the same number; a call returns only a reply that
    was delivered for its number while it was in flight; the table has entries only for
    calls in flight, so that nothing is left of those that returned; a call ends when
    its time is up; and a reply that has arrived is returned, unless another call
    begins after the deadline and clears it away. *)
Theorem bus_calls_correct evs c :
  zlen evs < uint64_max -> call_steps evs new_calls = Some c ->
  (forall i j id, has_id i id c -> has_id j id c -> i = j) /\
  (forall i id r, callers c !! i = Some (Answered id r) -> delivered_to i id r evs) /\
  (forall id, is_Some (pending_replies_ c !! id) -> exists i, in_flight i id c) /\
  (forall i id, callers c !! i = Some (Waiting id) -> is_Some (call_wait i true c)) /\
  (forall i id p ev c', callers c !! i = Some (Waiting id) -> pending_replies_ c !! id = Some p -> p_done p = true ->
     call_step ev c = Some c' ->
     callers c' !! i = Some (Answered id (p_reply p)) \/ reply_kept i id c' \/
     exists args timeout now, ev = Call args timeout now /\ deadline_ms p < now).
Proof.
  intros Hlen Hrun. destruct (calls_inv_steps evs c Hlen Hrun) as [Hn Hb Ho Hp Hd Ha]. split_and!.
  - exact Ho.
  - exact Ha.
  - intros id [p Hip]. by eapply Hp.
  - intros i id Hi. unfold call_wait. rewrite Hi, andb_false_r.
    destruct (pending_replies_ c !! id) as [p|]; [destruct (p_done p)|]; by eexists.
  - intros i id p ev c' Hi Hip Hdone. apply arrived_reply; [done|lia|done..].
Qed.

Definition sample_calls : list call_event := [
  Call [lit "GET"; lit "a"] 100 0; Call [lit "GET"; lit "b"] 100 1; SentResult 1 true; SentResult 0 true;
  Deliver 2 (lit "+b"); Deliver 7 (lit "+x"); WaitEnds 1 false; WaitEnds 0 true].

Lemma bus_calls_correct_witness :
  zlen sample_calls < uint64_max /\
  call_steps sample_calls new_calls = Some (mkCalls 3 ∅ [Failed 1; Answered 2 (lit "+b")]) /\
  delivered_to 1 2 (lit "+b") sample_calls.
Proof.
  assert (zlen sample_calls < uint64_max) as H1 by by vm_compute.
  assert (call_steps sample_calls new_calls = Some (mkCalls 3 ∅ [Failed 1; Answered 2 (lit "+b")])) as H2 by by vm_compute.
  destruct (bus_calls_correct _ _ H1 H2) as (_ & H & _). split_and!; [done|done|]. by apply H.
Defined.

(** ** Messages and their senders *)

Lemma line_args_total line : is_Some (line_args line).
Proof.
  destruct (parse_loop_total (S (length (peeked (mkPst new_parser line)))) [] (mkPst new_parser line))
    as (cmds & st' & Hp & _); [done|done|lia|]. fold (parse (mkPst new_parser line)) in Hp.
  unfold line_args. rewrite Hp.
  repeat match goal with |- is_Some (match ?x with _ => _ end) => destruct x end; by eexists.
Qed.

(** Names of hexadecimal digits only, such as [db] or the beginning of an IPv6 address. *)
Definition hex_only (s : bytes) : Prop := Forall (fun c => between "0" "9" c || is_hex_letter c = true) s.

Lemma hex_only_malformed s : hex_only s -> classify_bus_name s = kMalformed.
Proof.
  intros Hs. unfold classify_bus_name. destruct s as [|c0 s0]; [done|]. revert Hs. generalize (c0 :: s0). intros s Hs.
  enough (classify_loop s false false = Some (false, false)) as -> by done.
  induction Hs as [|c s Hc Hs IH]; [done|]. cbn [classify_loop]. destruct (between "0" "9" c) eqn:E; [exact IH|].
  cbn [orb] in Hc. rewrite Hc. destruct (is_separator c) eqn:Es; [|exact IH].
  exfalso. clear -Hc Es. unfold is_separator in Es. apply orb_true_iff in Es as [Es|Es]; apply bool_decide_eq_true in Es; subst c; by vm_compute in Hc.
Qed.

(** A node with such a name is never heard, whatever is known of it. *)
Theorem hex_name_dropped s observed known plane :
  hex_only s -> bus_sender_identity_accepted s observed known plane = false.
Proof.
  intros Hs%hex_only_malformed. unfold bus_sender_identity_accepted. rewrite Hs.
  destruct (_ || _); [done|]. destruct plane; [done|]. by rewrite bool_decide_eq_true_2, andb_false_r.
Qed.

Section handler.
Context `{StringHash} `{DoubleText} `{DoubleLib}.
Context (other : Command -> list bytes -> Storage -> option bytes * Storage).
Context (e : Env) (now master_offset max_lag : Z).

Lemma execute_line_total line s : is_Some (execute_bus_command_line other e line s).
Proof.
  unfold execute_bus_command_line. destruct (line_args_total line) as [r ->].
  destruct r as [err|[|nm args]]; [by eexists..|]. destruct (create (to_lower nm)); by eexists.
Qed.

Lemma handle_rep_data_total sender args n : is_Some (handle_rep_data other e sender args n).
Proof.
  unfold handle_rep_data. destruct args as [|line args]; [by eexists|].
  destruct (parse_bus_tagged CCREQ line) as [[id body]|].
  { unfold handle_request. destruct (execute_line_total body (bn_store n)) as [[out s] ->]. by eexists. }
  destruct (parse_bus_tagged CCRESP line) as [[id body]|]; [by eexists|].
  case_bool_decide; [by eexists|]. unfold handle_replication_command.
  destruct (execute_line_total line (bn_store n)) as [[out s] ->]. by eexists.
Qed.

(** What a message other than [kRepData] cannot touch. *)
Definition same_data (n n' : BusNode) : Prop :=
  bn_store n' = bn_store n /\ bn_repl n' = bn_repl n /\ bn_calls n' = bn_calls n.

Lemma dispatch_spec sender p m n :
  exists h, dispatch other e now master_offset max_lag sender p m n = Some h /\
    (h_type (m_header m) <> kRepData -> same_data n (node h)) /\
    (threw h = true -> h_type (m_header m) = kPong /\ node h = n /\ sends h = []).
Proof.
  unfold dispatch. cbv zeta.
  destruct (Z.eqb_spec (h_type (m_header m)) kPing) as [E|E]; [by eexists|].
  destruct (Z.eqb_spec (h_type (m_header m)) kMeet) as [E1|E1].
  { destruct (_ || _); [by eexists|]. destruct (stoi (drop (S p) sender)); by eexists. }
  destruct (Z.eqb_spec (h_type (m_header m)) kPong) as [E2|E2].
  { destruct (node_connected sender (server (bn_world n))); by eexists. }
  destruct (Z.eqb_spec (h_type (m_header m)) kRepData) as [E3|E3]; [|by eexists].
  destruct (handle_rep_data_total sender (m_args m) n) as [[snt n'] ->]. by eexists.
Qed.

(** C22: in whose name a message acts. The handler ends for every message. A message that
    bears the name of the node itself does nothing. Only a message of the data plane
    from a known member touches the store, the replication or the pending replies. A
    control message that names a literal address other than the one its link leads to
    does nothing, while the data of a known member is taken on every link. An exception
    leaves the handler only for a PONG, which then has done nothing. *)
Theorem bus_identity observed m n :
  let handle := fun ip => handle_link_msg other e now master_offset max_lag ip m n in
  let sender := sender_name_str m in
  let idle := fun h => node h = n /\ sends h = [] in
  exists h, handle observed = Some h /\
    (sender = my_name n -> idle h) /\
    (known_member sender n = false \/ h_type (m_header m) <> kRepData -> same_data n (node h)) /\
    (forall p, find_pos is_colon sender = Some p -> h_type (m_header m) <> kRepData ->
       classify_bus_name (take p sender) = kLiteralAddress -> classify_bus_name observed = kLiteralAddress ->
       take p sender <> observed -> idle h) /\
    (forall observed', h_type (m_header m) = kRepData -> observed <> [] -> observed' <> [] ->
       handle observed' = Some h) /\
    (threw h = true -> h_type (m_header m) = kPong /\ idle h).
Proof.
  cbv zeta. unfold handle_link_msg. cbv zeta. set (sender := sender_name_str m).
  destruct (find_pos is_colon sender) as [p|]; [|by eexists].
  destruct (dispatch_spec sender p m n) as (h & Hd & Hsame & Hthrew).
  destruct (Z.eqb_spec (h_type (m_header m)) kRepData) as [E|E].
  - unfold bus_sender_identity_accepted.
    destruct (decide (observed = [])) as [-> |Hobs].
    { rewrite (bool_decide_eq_true_2 ([] = [])), orb_true_r by done. by eexists. }
    rewrite (bool_decide_eq_false_2 (observed = [])), orb_false_r by done.
    destruct (bool_decide (take p sender = [])) eqn:Ep.
    { eexists. split_and!; try done; intros o _ _ Ho; by rewrite (bool_decide_eq_false_2 (o = [])), orb_false_r. }
    destruct (known_member sender n) eqn:Ek; cbn [andb negb].
    2: { eexists. split_and!; try done; intros o _ _ Ho; by rewrite (bool_decide_eq_false_2 (o = [])). }
    destruct (decide (classify_bus_name (take p sender) = kMalformed)) as [Em|Em];
      [rewrite (bool_decide_eq_true_2 _ Em)|rewrite (bool_decide_eq_false_2 _ Em)]; cbn [negb].
    { eexists. split_and!; try done; intros o _ _ Ho; by rewrite (bool_decide_eq_false_2 (o = [])). }
    destruct (decide (sender = my_name n)) as [Es|Es].
    { rewrite (bool_decide_eq_true_2 _ Es). eexists. split_and!; try done; intros o _ _ Ho; by rewrite (bool_decide_eq_false_2 (o = [])). }
    rewrite (bool_decide_eq_false_2 _ Es). exists h. split_and!; [done|done|by intros [?|?]|done| |exact Hthrew].
    intros o _ _ Ho; by rewrite (bool_decide_eq_false_2 (o = [])).
  - destruct (bus_sender_identity_accepted (take p sender) observed (known_member sender n) kControl) eqn:Ea; cbn [negb]; [|by eexists].
    destruct (decide (sender = my_name n)) as [Es|Es]; [rewrite (bool_decide_eq_true_2 _ Es); by eexists|].
    rewrite (bool_decide_eq_false_2 _ Es). exists h. split_and!; [done|done|by intros _; apply Hsame| |done|exact Hthrew].
    intros q [= <-] _ Hc Ho Hne. exfalso. unfold bus_sender_identity_accepted in Ea. rewrite Hc, Ho in Ea.
    destruct (_ || _); [done|]. by rewrite bool_decide_eq_false_2 in Ea.
Qed.
End handler.

(** ** A command and its reply *)

(** A node name that survives the header and that the receiver believes. *)
Record name_ok (nm : bytes) : Prop := {
  no_host : exists p, find_pos is_colon nm = Some p /\ classify_bus_name (take p nm) <> kMalformed;
  no_length : (length nm <= 39)%nat;
  no_text : Forall (fun c => c <> NUL) nm
}.

Lemma c_str_app s r : Forall (fun c => c <> NUL) s -> c_str (s ++ NUL :: r) = s.
Proof.
  induction 1 as [|c s Hc _ IH]; [done|]. cbn [app c_str]. by rewrite bool_decide_eq_false_2, IH.
Qed.

Lemma c_str_whole s : Forall (fun c => c <> NUL) s -> c_str s = s.
Proof. induction 1 as [|c s Hc _ IH]; [done|]. cbn [c_str]. by rewrite bool_decide_eq_false_2, IH. Qed.

Lemma sender_of_sent nm t args :
  name_ok nm -> sender_name_str (sent nm (with_type t args new_msg)) = nm.
Proof.
  intros [(p & Hp & _) Hl Ht]. unfold sender_name_str, sent, sent_header, sent_name.
  cbn [m_header h_sender_name with_type new_msg]. 
  assert (nm <> []) as Hne by (by intros ->).
  rewrite (bool_decide_eq_true_2 (head _ = _)), (bool_decide_eq_false_2 (nm = [])) by done. cbn [negb andb].
  unfold put_name. rewrite (c_str_whole nm), (take_ge nm) by done. by apply c_str_app.
Qed.

Definition rep_data (arg : bytes) : ClusterMsg := with_type kRepData [arg] new_msg.

Section call.
Context `{StringHash} `{DoubleText} `{DoubleLib}.
Context (other : Command -> list bytes -> Storage -> option bytes * Storage).
Context (now master_offset max_lag : Z).

(** A message of the data plane from a known member reaches its branch. *)
Lemma rep_data_handled e observed nm arg n snt n' :
  name_ok nm -> observed <> [] -> known_member nm n = true -> nm <> my_name n ->
  handle_rep_data other e nm [arg] n = Some (snt, n') ->
  handle_link_msg other e now master_offset max_lag observed (sent nm (rep_data arg)) n = Some (mkHandled false snt n').
Proof.
  intros Hnm Hobs Hk Hme Hh. unfold handle_link_msg. cbv zeta. unfold rep_data. rewrite sender_of_sent by done.
  destruct Hnm as [(p & Hp & Hc) _ _]. rewrite Hp.
  change (h_type (m_header (sent nm (with_type kRepData [arg] new_msg)))) with kRepData.
  rewrite Z.eqb_refl. unfold bus_sender_identity_accepted.
  rewrite (bool_decide_eq_false_2 (take p nm = [])) by (intros E; by rewrite E in Hc).
  rewrite (bool_decide_eq_false_2 (observed = [])), Hk by done. cbn [orb andb].
  rewrite (bool_decide_eq_false_2 _ Hc), (bool_decide_eq_false_2 _ Hme). cbn [negb].
  unfold dispatch. cbv zeta.
  change (h_type (m_header (sent nm (with_type kRepData [arg] new_msg)))) with kRepData.
  change (m_args (sent nm (with_type kRepData [arg] new_msg))) with [arg].
  change (kRepData =? kPing) with false. change (kRepData =? kMeet) with false. change (kRepData =? kPong) with false.
  change (kRepData =? kRepData) with true. cbv iota. rewrite Hh. unfold then_gossip. do 2 f_equal.
  unfold gossip_callback. cbv zeta.
  change (h_type (m_header (sent nm (with_type kRepData [arg] new_msg)))) with kRepData.
  by destruct n'.
Qed.

(** C19: a command that is sent to another node. Two nodes that know each other by names
    the bus can carry: the target executes the command once on its store, and the reply
    of that execution, or the text of its exception, comes back to the caller that sent
    it, with the caller's table as it was but for entries past their deadline. *)
Theorem bus_call_answered eA eB obsA obsB (A B : BusNode) evs args cmd_name rest cmd timeout t :
  name_ok (my_name A) -> name_ok (my_name B) -> my_name A <> my_name B -> obsA <> [] -> obsB <> [] ->
  known_member (my_name A) B = true -> known_member (my_name B) A = true ->
  zlen evs + 1 < uint64_max -> call_steps evs new_calls = Some (bn_calls A) ->
  args = cmd_name :: rest -> command_ok args -> create (to_lower cmd_name) = Some cmd -> 0 < timeout ->
  let i := length (callers (bn_calls A)) in
  let handle e := handle_link_msg other e now master_offset max_lag in
  let '(r, s') := run_command other eB cmd args (bn_store B) in
  let reply := default (encode_error (lit "ERR command threw: " ++ e_what eB)) r in
  exists text c1 c1' ack A1 c2,
    call_begin args timeout t (bn_calls A) = (Some text, c1) /\ call_sent i true c1 = Some c1' /\
    handle eB obsB (sent (my_name A) (rep_data text)) B = Some (mkHandled false [SendAck ack] (with_bn_store s' B)) /\
    handle eA obsA (sent (my_name B) (rep_data ack)) (with_bn_calls c1' A) = Some (mkHandled false [] A1) /\
    call_wait i false (bn_calls A1) = Some c2 /\
    callers c2 !! i = Some (Answered (next_request_id_ (bn_calls A)) reply) /\
    pending_replies_ c2 = drop_stale t (pending_replies_ (bn_calls A)).
Proof.
  intros HA HB Hne HoA HoB HkA HkB Hlen Hrun -> Hok Hcr Ht i handle.
  destruct (run_command other eB cmd (cmd_name :: rest) (bn_store B)) as [r s'] eqn:Hcmd. intros reply.
  destruct (calls_inv_steps evs (bn_calls A)) as [Hn Hb _ Hp _ _]; [lia|done|].
  set (id := next_request_id_ (bn_calls A)) in *. set (st := drop_stale t (pending_replies_ (bn_calls A))).
  assert (st !! id = None) as Hfresh.
  { apply eq_None_not_Some. intros [q [Hq _]%map_lookup_filter_Some]. destruct (Hp id q Hq) as [j Hj%in_flight_id].
    apply Hb in Hj. lia. }
  assert (0 <= id <= uint64_max) as Hid by lia.
  set (text := tagged CCREQ id (encode_array (cmd_name :: rest))).
  set (ack := tagged CCRESP id reply).
  set (cs pend x := mkCalls (u64 (id + 1)) pend (callers (bn_calls A) ++ [x])).
  exists text, (cs (<[id := mkPending [] false (t + timeout)]> st) (Sending id)),
    (cs (<[id := mkPending [] false (t + timeout)]> st) (Waiting id)), ack,
    (with_bn_calls (cs (<[id := mkPending reply true (t + timeout)]> st) (Waiting id)) A), (cs st (Answered id reply)).
  assert (forall pend x y, <[i := y]> (callers (cs pend x)) = callers (bn_calls A) ++ [y]) as Hins.
  { intros pend x y. unfold cs, i. cbn [callers]. rewrite insert_app_r_alt by lia. by rewrite Nat.sub_diag. }
  assert (forall pend x, callers (cs pend x) !! i = Some x) as Hlook.
  { intros pend x. unfold cs, i. cbn [callers]. rewrite lookup_app_r by lia. by rewrite Nat.sub_diag. }
  split_and!.
  - unfold call_begin. rewrite (bool_decide_eq_false_2 (cmd_name :: rest = [])) by done.
    rewrite (proj2 (Z.leb_gt timeout 0)) by lia. cbn [orb]. fold id st. by rewrite Hfresh.
  - unfold call_sent. rewrite Hlook, Hins. done.
  - apply rep_data_handled; [done..|]. unfold handle_rep_data. unfold text. rewrite parse_tagged by done.
    unfold handle_request, execute_bus_command_line. rewrite line_args_array by done. by rewrite Hcr, Hcmd.
  - apply rep_data_handled; [done|done|done|done|]. unfold handle_rep_data, ack. rewrite request_not_of_reply, parse_tagged by done.
    do 2 f_equal. unfold with_bn_calls, deliver_command_reply. cbn [bn_calls pending_replies_ cs].
    rewrite lookup_insert_eq. cbn [next_request_id_ callers deadline_ms]. by rewrite insert_insert_eq.
  - unfold call_wait. cbn [bn_calls with_bn_calls]. rewrite Hlook. cbn [pending_replies_ cs]. rewrite lookup_insert_eq.
    cbn [p_done p_reply negb andb]. rewrite Hins. cbn [next_request_id_]. unfold cs. by rewrite delete_insert_id.
  - apply Hlook.
  - done.
Qed.
End call.

Definition peer (me you : bytes) : BusNode :=
  mkBusNode (mkGossip (meet you 7000 (init me 7000)) ∅) new_storage new_repl new_calls.

Definition sample_a : BusNode := peer (lit "10.0.0.1") (lit "10.0.0.2").
Definition sample_b : BusNode := peer (lit "10.0.0.2") (lit "10.0.0.1").

Lemma sample_name_ok nm : nm = lit "10.0.0.1:7000" \/ nm = lit "10.0.0.2:7000" -> name_ok nm.
Proof.
  intros [-> | ->]; (split; [exists 8%nat; by vm_compute|apply (bool_decide_unpack _); by vm_compute|apply (bool_decide_unpack _); by vm_compute]).
Qed.

Lemma sample_names : name_ok (my_name sample_a) /\ name_ok (my_name sample_b).
Proof. split; apply sample_name_ok; [left|right]; by vm_compute. Qed.

Lemma bus_call_answered_witness :
  let other := fun (_ : Command) (_ : list bytes) (s : Storage) => (@None bytes, s) in
  exists text c1 c2, call_begin [lit "GET"; lit "k"] 100 5 (bn_calls sample_a) = (Some text, c1) /\
    callers c2 !! 0%nat = Some (Answered 1 (default (encode_error (lit "ERR command threw: "))
      (@run_command shash PayloadSpec.bits_text bits_lib other env9 CGet [lit "GET"; lit "k"] new_storage).1)).
Proof.
  intros other.
  pose proof (@bus_call_answered shash PayloadSpec.bits_text bits_lib other 5 0 0 env0 env9 (lit "10.0.0.2") (lit "10.0.0.1")
    sample_a sample_b [] [lit "GET"; lit "k"] (lit "GET") [lit "k"] CGet 100 5) as Hx.
  assert (my_name sample_a <> my_name sample_b) as H1 by (apply (bool_decide_unpack _); by vm_compute).
  assert (known_member (my_name sample_a) sample_b = true) as H2 by (vm_compute; reflexivity).
  assert (known_member (my_name sample_b) sample_a = true) as H3 by (vm_compute; reflexivity).
  assert (command_ok [lit "GET"; lit "k"]) as H4 by (split; [by vm_compute|]; apply (bool_decide_unpack _); by vm_compute).
  assert (create (to_lower (lit "GET")) = Some CGet) as H5 by (vm_compute; reflexivity).
  specialize (Hx (proj1 sample_names) (proj2 sample_names) H1 ltac:(discriminate) ltac:(discriminate) H2 H3
    ltac:(vm_compute; reflexivity) eq_refl eq_refl H4 H5 ltac:(lia)). cbv zeta in Hx. clear H1 H2 H3 H4 H5.
  change (bn_store sample_b) with new_storage in Hx.
  destruct (@run_command shash PayloadSpec.bits_text bits_lib other env9 CGet [lit "GET"; lit "k"] new_storage) as [r s'].
  destruct Hx as (text & c1 & c1' & ack & A1 & c2 & H1 & _ & _ & _ & _ & H2 & _).
  exists text, c1, c2. exact (conj H1 H2).
Defined.

(** A reply is matched by its number alone: a known member the request was not sent to
    can answer it. *)
Theorem reply_from_another `{StringHash} `{DoubleText} `{DoubleLib} other e now off lag observed id nm r (n : BusNode) p :
  name_ok nm -> observed <> [] -> known_member nm n = true -> nm <> my_name n -> 0 <= id <= uint64_max ->
  pending_replies_ (bn_calls n) !! id = Some p ->
  exists n', handle_link_msg other e now off lag observed (sent nm (rep_data (tagged CCRESP id r))) n = Some (mkHandled false [] n') /\
    pending_replies_ (bn_calls n') !! id = Some (mkPending r true (deadline_ms p)).
Proof.
  intros Hnm Ho Hk Hme Hid Hp. eexists. split.
  - apply rep_data_handled; [done..|]. unfold handle_rep_data. rewrite request_not_of_reply, parse_tagged by done. reflexivity.
  - cbn [bn_calls with_bn_calls]. unfold deliver_command_reply. rewrite Hp. cbn [pending_replies_]. apply lookup_insert_eq.
Qed.
End BusCallProps.
