(* ===== verification/BusConn.v ===== *)
(** * Outbound connections: the table of links of cluster/cluster_connection.cpp

    The links to other nodes by name: connecting, sending to one node and to all, and the
    heartbeat that pings them and reports those that are silent. Whether a connection
    can be made is an input; the event loop and its channels are in BusLinks.v. *)

From S2P Require Import Prelude Base Buffer Slots Cluster Link LinkProps Gossip BusCall.
From stdpp Require Import options.

Module BusConn.
Import Text Cluster Link Gossip BusCall.

Section table.
Context {B : Type} `{!ByteQueue B}.

Record ClusterConnection := mkConn {
  c_links : gmap bytes (ClusterLink B);
  heartbeat_interval_ms_ : Z;
  ping_timeout_ms_ : Z;
  last_heartbeat_time_ms_ : Z;
  heartbeat_running_ : bool
}.

Definition new_connection : ClusterConnection := mkConn ∅ 1000 5000 0 false.

Definition with_links (m : gmap bytes (ClusterLink B)) (c : ClusterConnection) : ClusterConnection :=
  mkConn m (heartbeat_interval_ms_ c) (ping_timeout_ms_ c) (last_heartbeat_time_ms_ c) (heartbeat_running_ c).

Definition start_heartbeat (now : Z) (c : ClusterConnection) : ClusterConnection :=
  if heartbeat_running_ c then c
  else mkConn (c_links c) (heartbeat_interval_ms_ c) (ping_timeout_ms_ c) now true.

Definition stop_heartbeat (c : ClusterConnection) : ClusterConnection :=
  if negb (heartbeat_running_ c) then c
  else mkConn (c_links c) (heartbeat_interval_ms_ c) (ping_timeout_ms_ c) (last_heartbeat_time_ms_ c) false.

(** [dialled] is the link when [connect] succeeds. The callback is [None] where it throws. *)
Definition connect_to_node (name : bytes) (dialled : option (ClusterLink B)) (c : ClusterConnection) (s : ClusterServer)
    : bool * ClusterConnection * option ClusterServer :=
  match c_links c !! name with
  | Some _ => (true, c, Some s)
  | None =>
      match dialled with
      | None => (false, c, Some s)
      | Some l => (true, with_links (<[name := l]> (c_links c)) c, node_connected name s)
      end
  end.

(** The callback of the server for a lost link only logs. *)
Definition on_node_disconnected (name : bytes) (c : ClusterConnection) : ClusterConnection :=
  with_links (delete name (c_links c)) c.

Definition disconnect_from_node (name : bytes) (c : ClusterConnection) : ClusterConnection :=
  match c_links c !! name with
  | Some _ => with_links (delete name (c_links c)) c
  | None => c
  end.

Definition disconnect_all (c : ClusterConnection) : ClusterConnection := with_links ∅ c.

(** [find_link] and [get_link]; [snapshot_links] and [get_all_links]. *)
Definition find_link (name : bytes) (c : ClusterConnection) : option (ClusterLink B) := c_links c !! name.
Definition snapshot_links (c : ClusterConnection) : list (bytes * ClusterLink B) := map_to_list (c_links c).

(** A send on the link to a node, [false] without one. *)
Definition send_on (send : ClusterLink B -> bool * ClusterLink B) (name : bytes) (c : ClusterConnection)
    : bool * ClusterConnection :=
  match find_link name c with
  | None => (false, c)
  | Some l => let '(ok, l) := send l in (ok, with_links (<[name := l]> (c_links c)) c)
  end.

Definition send_to_node (my_name name : bytes) (m : ClusterMsg) := send_on (send_msg my_name m) name.
Definition ping_node (my_name name : bytes) := send_on (send_ping my_name) name.
Definition pong_node (my_name name : bytes) := send_on (send_pong my_name) name.
Definition meet_node (my_name name my_ip : bytes) (my_port : Z) := send_on (send_meet my_name my_ip my_port) name.
Definition send_command_to_node (my_name name : bytes) (args : list bytes) :=
  send_on (send_msg my_name (with_type kRepData args new_msg)) name.
Definition send_raw_to_node (name data : bytes) := send_on (send_raw data) name.

(** A send on every link of the snapshot that is connected. *)
Definition broadcast_on (send : ClusterLink B -> bool * ClusterLink B) (c : ClusterConnection) : ClusterConnection :=
  foldl (fun c '(name, l) => if Link.connected_ l then (send_on send name c).2 else c) c (snapshot_links c).

Definition broadcast_ping (my_name : bytes) := broadcast_on (send_ping my_name).
Definition broadcast_pong (my_name : bytes) := broadcast_on (send_pong my_name).
Definition broadcast_gossip (my_name : bytes) (m : GossipMsg) := broadcast_on (send_gossip my_name m).

Definition connected_count (c : ClusterConnection) : Z :=
  zlen (List.filter (fun '(_, l) => Link.connected_ l) (snapshot_links c)).

Definition is_node_connected (name : bytes) (c : ClusterConnection) : bool :=
  match c_links c !! name with Some l => Link.connected_ l | None => false end.

Definition silent (now : Z) (c : ClusterConnection) (l : ClusterLink B) : bool :=
  Link.connected_ l && (0 <? last_recv_time_ l) && (ping_timeout_ms_ c <? now - last_recv_time_ l).

(** The names are collected first; then each node is marked and the callback called. *)
Definition check_connections (now : Z) (c : ClusterConnection) (s : ClusterServer) : ClusterServer :=
  let timed_out_nodes := (List.filter (fun '(_, l) => silent now c l) (snapshot_links c)).*1 in
  foldl (fun s name => node_timed_out now name s) s timed_out_nodes.

Definition on_timer (now : Z) (my_name : bytes) (c : ClusterConnection) (s : ClusterServer)
    : ClusterConnection * ClusterServer :=
  if negb (heartbeat_running_ c) then (c, s)
  else
    let c :=
      if heartbeat_interval_ms_ c <=? now - last_heartbeat_time_ms_ c then
        let c := broadcast_ping my_name c in
        mkConn (c_links c) (heartbeat_interval_ms_ c) (ping_timeout_ms_ c) now (heartbeat_running_ c)
      else c in
    (c, check_connections now c s).

(** ** Sending *)

Lemma send_on_lookup send name c k :
  c_links (send_on send name c).2 !! k =
    if decide (k = name) then (fun l => (send l).2) <$> c_links c !! name else c_links c !! k.
Proof.
  unfold send_on, find_link. destruct (c_links c !! name) as [l|] eqn:E.
  - destruct (send l) as [ok l'] eqn:Es. cbn. rewrite lookup_insert, Es. cbn.
    destruct (decide (name = k)), (decide (k = name)); cbn; congruence.
  - cbn. case_decide; [congruence|done].
Qed.

(** A broadcast sends once on every link that is connected and leaves the others alone. *)
Lemma broadcast_on_links send c :
  c_links (broadcast_on send c) = (fun l => if Link.connected_ l then (send l).2 else l) <$> c_links c.
Proof.
  assert (forall L c k, NoDup L.*1 ->
    c_links (foldl (fun c '(name, l) => if Link.connected_ l then (send_on send name c).2 else c) c L) !! k =
      match list_to_map (M := gmap bytes (ClusterLink B)) L !! k with
      | Some l => if Link.connected_ l then (fun l => (send l).2) <$> c_links c !! k else c_links c !! k
      | None => c_links c !! k
      end) as Hloop.
  { induction L as [|[name l] L IH]; intros c0 k; [done|]. cbn [fmap list_fmap fst foldl]. intros [Hn HL]%NoDup_cons.
    rewrite IH by done. cbn [list_to_map foldr fst snd uncurry]. rewrite lookup_insert.
    destruct (decide (name = k)) as [-> |Hne].
    - rewrite (not_elem_of_list_to_map_1 L k Hn).
      destruct (Link.connected_ l); [|done]. by rewrite send_on_lookup, decide_True.
    - destruct (Link.connected_ l); [|done]. by rewrite send_on_lookup, decide_False by done. }
  apply map_eq. intros k. unfold broadcast_on, snapshot_links. rewrite Hloop by apply NoDup_fst_map_to_list.
  rewrite list_to_map_to_list, lookup_fmap. destruct (c_links c !! k) as [l|]; [|done]. cbn. by destruct (Link.connected_ l).
Qed.

Lemma broadcast_on_rest send c :
  ping_timeout_ms_ (broadcast_on send c) = ping_timeout_ms_ c /\ heartbeat_running_ (broadcast_on send c) = heartbeat_running_ c /\
  heartbeat_interval_ms_ (broadcast_on send c) = heartbeat_interval_ms_ c.
Proof.
  unfold broadcast_on. generalize (snapshot_links c). intros L. revert c.
  induction L as [|[name l] L IH]; intros c; [done|]. cbn [foldl].
  destruct (Link.connected_ l); [|apply IH]. destruct (IH (send_on send name c).2) as (-> & -> & ->).
  unfold send_on. destruct (find_link name c) as [x|]; [|done]. by destruct (send x).
Qed.

(** ** The heartbeat *)

Lemma pfailed_mark now n : isPfailed (incrementFailureCount (setPfailFlag now true n)) = true.
Proof.
  unfold isPfailed, hasFlags, incrementFailureCount, setPfailFlag. cbv zeta.
  assert (Z.land (Z.lor (flags (info_ n)) kPfail) kPfail <> 0) as H.
  { rewrite Z.land_lor_distr_l. change (Z.land kPfail kPfail) with 2. intros [_ ?]%Z.lor_eq_0_iff. lia. }
  destruct (first_pfail_time_ (addFlags kPfail n) =? 0); cbn; by apply Z.eqb_neq in H as ->.
Qed.

Lemma pfailed_fail now n : isPfailed (setFailFlag now true n) = isPfailed n.
Proof.
  unfold isPfailed, hasFlags, setFailFlag. cbn. rewrite Z.land_lor_distr_l.
  change (Z.land kFail kPfail) with 0. by rewrite Z.lor_0_r.
Qed.

(** Marking a silent node marks that node alone. *)
Lemma node_timed_out_effect now nm s :
  let s' := node_timed_out now nm s in
  nodes_ (state_ s') = nodes_ (state_ s) /\
  (forall i, nodes_ (state_ s) !! nm <> Some i -> heap (state_ s') !! i = heap (state_ s) !! i) /\
  (forall i n, nodes_ (state_ s) !! nm = Some i -> heap (state_ s) !! i = Some n ->
     exists n', heap (state_ s') !! i = Some n' /\ isPfailed n' = true).
Proof.
  cbv zeta. unfold node_timed_out, ping_timeout. set (s1 := on_state (markNodeAsPfail now nm) s).
  assert (forall f, nodes_ (on_named nm f (state_ s)) = nodes_ (state_ s)) as Hn by (intros f; unfold on_named; by destruct (nodes_ (state_ s) !! nm)).
  assert (nodes_ (state_ s1) = nodes_ (state_ s)) as Hn1 by apply Hn.
  assert (forall i, nodes_ (state_ s) !! nm <> Some i -> heap (state_ s1) !! i = heap (state_ s) !! i) as Ho1.
  { intros i Hi. cbn. unfold markNodeAsPfail, on_named. destruct (nodes_ (state_ s) !! nm) as [j|] eqn:E; [|done].
    cbn. apply lookup_alter_ne. congruence. }
  assert (forall i n, nodes_ (state_ s) !! nm = Some i -> heap (state_ s) !! i = Some n ->
    exists n', heap (state_ s1) !! i = Some n' /\ isPfailed n' = true) as Hm1.
  { intros i n Hi Hh. cbn. unfold markNodeAsPfail, on_named. rewrite Hi. cbn. rewrite lookup_alter_eq, Hh.
    eexists. split; [done|]. apply pfailed_mark. }
  clearbody s1. destruct (checkFailQuorum nm s1); [|done]. unfold markNodeAsFail. destruct (_ || _); [done|].
  unfold getNode. rewrite Hn1. destruct (nodes_ (state_ s) !! nm) as [j|] eqn:Ej; [|done].
  set (s2 := on_state (state_markNodeAsFail now nm) s1).
  assert (forall x : ClusterServer, state_ x = state_ s2 -> nodes_ (state_ x) = nodes_ (state_ s) /\
    (forall i, Some j <> Some i -> heap (state_ x) !! i = heap (state_ s) !! i) /\
    (forall i n, Some j = Some i -> heap (state_ s) !! i = Some n -> exists n', heap (state_ x) !! i = Some n' /\ isPfailed n' = true)) as Hx.
  { intros x ->. cbn. unfold state_markNodeAsFail, on_named. rewrite Hn1, Ej. cbn. split; [done|]. split.
    - intros i Hi. rewrite lookup_alter_ne by congruence. by apply Ho1.
    - intros i n [= <-] Hh. destruct (Hm1 j n eq_refl Hh) as (n' & Hn' & Hp). rewrite lookup_alter_eq, Hn'.
      eexists. split; [done|]. by rewrite pfailed_fail. }
  destruct (node_at j s2) as [n2|]; [destruct (my_node s2) as [me|]|]; by apply Hx.
Qed.

Lemma timed_out_effect now names s :
  let s' := foldl (fun s name => node_timed_out now name s) s names in
  nodes_ (state_ s') = nodes_ (state_ s) /\
  (forall i, (forall nm, nm ∈ names -> nodes_ (state_ s) !! nm <> Some i) -> heap (state_ s') !! i = heap (state_ s) !! i) /\
  (forall i n, (exists nm, nm ∈ names /\ nodes_ (state_ s) !! nm = Some i) -> heap (state_ s) !! i = Some n ->
     exists n', heap (state_ s') !! i = Some n' /\ isPfailed n' = true).
Proof.
  cbv zeta. induction names as [|nm names IH] using rev_ind.
  { split; [done|]. split; [done|]. intros i n (nm & Hnm & _). by apply elem_of_nil in Hnm. }
  rewrite foldl_app. cbn [foldl]. destruct IH as (Hn & Ho & Hm).
  set (s1 := foldl (fun s name => node_timed_out now name s) s names) in *.
  destruct (node_timed_out_effect now nm s1) as (Hn2 & Ho2 & Hm2). rewrite Hn in Hn2, Ho2, Hm2. split; [done|]. split.
  - intros i Hi. rewrite Ho2 by (apply Hi; set_solver). apply Ho. intros x Hx. apply Hi. set_solver.
  - intros i n (x & Hx & Hxi) Hh.
    assert (exists n1, heap (state_ s1) !! i = Some n1 /\ ((exists y, y ∈ names /\ nodes_ (state_ s) !! y = Some i) -> isPfailed n1 = true)) as (n1 & Hh1 & Hp1).
    { destruct (decide (Exists (fun y => nodes_ (state_ s) !! y = Some i) names)) as [He|He]; rewrite Exists_exists in He.
      - destruct (Hm i n He Hh) as (n' & ? & ?). eauto.
      - exists n. split; [|by intros ?%He]. rewrite Ho; [done|]. intros y Hy E. apply He. eauto. }
    destruct (decide (nodes_ (state_ s) !! nm = Some i)) as [Hnm|Hnm]; [by eapply Hm2|].
    exists n1. rewrite Ho2 by done. split; [done|]. apply Hp1. exists x. split; [|done].
    apply elem_of_app in Hx as [Hx| ->%list_elem_of_singleton]; done.
Qed.

Definition silent_node (now : Z) (c : ClusterConnection) (nm : bytes) : Prop :=
  exists l, c_links c !! nm = Some l /\ silent now c l = true.

Lemma check_names now c nm :
  nm ∈ (List.filter (fun '(_, l) => silent now c l) (snapshot_links c)).*1 <-> silent_node now c nm.
Proof.
  unfold silent_node, snapshot_links. rewrite list_elem_of_fmap. split.
  - intros ([k l] & -> & Hin). apply list_elem_of_In, filter_In in Hin as [Hin Hs]. exists l. split; [|done].
    by apply elem_of_map_to_list, list_elem_of_In.
  - intros (l & Hl & Hs). exists (nm, l). split; [done|]. apply list_elem_of_In, filter_In. split; [|done].
    by apply list_elem_of_In, elem_of_map_to_list.
Qed.

Lemma silent_after_ping now my_name c t nm :
  let c1 := broadcast_ping my_name c in
  let c2 := mkConn (c_links c1) (heartbeat_interval_ms_ c1) (ping_timeout_ms_ c1) t (heartbeat_running_ c1) in
  silent_node now c2 nm <-> silent_node now c nm.
Proof.
  cbv zeta. unfold silent_node, silent. cbn [c_links ping_timeout_ms_]. unfold broadcast_ping.
  destruct (broadcast_on_rest (send_ping my_name) c) as (-> & _). rewrite broadcast_on_links, lookup_fmap.
  assert (forall l, connected_ (if Link.connected_ l then (send_ping my_name l).2 else l) = Link.connected_ l /\
    last_recv_time_ (if Link.connected_ l then (send_ping my_name l).2 else l) = last_recv_time_ l) as Hsame.
  { intros l. destruct (Link.connected_ l) eqn:E; [|done]. unfold send_ping, send_msg. rewrite E. cbn [negb].
    by destruct (frame_of my_name _). }
  destruct (c_links c !! nm) as [l|]; cbn; [|by split; intros (x & [=] & _)].
  destruct (Hsame l) as [H1 H2]. split; intros (x & [= <-] & Hs); (eexists; split; [done|]); [by rewrite <-H1, <-H2|by rewrite H1, H2].
Qed.

(** A beat of the heartbeat. When the interval is over, every link that is connected
    gets one PING in its send buffer and no other link changes. Every known node whose
    link has been silent for longer than the timeout is suspected, and the record of
    every other node stays as it is. *)
Theorem heartbeat_correct now my_name c s c' s' :
  heartbeat_running_ c = true -> on_timer now my_name c s = (c', s') ->
  c_links c' = (if heartbeat_interval_ms_ c <=? now - last_heartbeat_time_ms_ c
                then (fun l => if Link.connected_ l then (send_ping my_name l).2 else l) <$> c_links c else c_links c) /\
  nodes_ (state_ s') = nodes_ (state_ s) /\
  (forall nm i n, silent_node now c nm -> nodes_ (state_ s) !! nm = Some i -> heap (state_ s) !! i = Some n ->
     exists n', heap (state_ s') !! i = Some n' /\ isPfailed n' = true) /\
  (forall i, (forall nm, silent_node now c nm -> nodes_ (state_ s) !! nm <> Some i) ->
     heap (state_ s') !! i = heap (state_ s) !! i).
Proof.
  intros Hrun. unfold on_timer. rewrite Hrun. cbn [negb]. cbv zeta.
  assert (forall c1, (forall nm, silent_node now c1 nm <-> silent_node now c nm) ->
    let s1 := check_connections now c1 s in
    nodes_ (state_ s1) = nodes_ (state_ s) /\
    (forall nm i n, silent_node now c nm -> nodes_ (state_ s) !! nm = Some i -> heap (state_ s) !! i = Some n ->
       exists n', heap (state_ s1) !! i = Some n' /\ isPfailed n' = true) /\
    (forall i, (forall nm, silent_node now c nm -> nodes_ (state_ s) !! nm <> Some i) ->
       heap (state_ s1) !! i = heap (state_ s) !! i)) as Hcheck.
  { intros c1 Hc1. cbv zeta. unfold check_connections. cbv zeta.
    destruct (timed_out_effect now (List.filter (fun '(_, l) => silent now c1 l) (snapshot_links c1)).*1 s) as (Hn & Ho & Hm).
    split; [done|]. split.
    - intros nm i n Hs Hi. apply Hm. exists nm. split; [|done]. by apply check_names, Hc1.
    - intros i Hi. apply Ho. intros nm Hnm. by apply Hi, Hc1, check_names. }
  destruct (heartbeat_interval_ms_ c <=? now - last_heartbeat_time_ms_ c); intros [= <- <-].
  - split; [apply broadcast_on_links|]. apply Hcheck. intros nm. apply silent_after_ping.
  - split; [done|]. by apply Hcheck.
Qed.
End table.

Lemma heartbeat_correct_witness :
  let l := update_last_recv_time 1000 LinkProps.fresh_link in
  let c := mkConn {[lit "10.0.0.2:7000" := l]} 1000 5000 0 true in
  let s := meet (lit "10.0.0.2") 7000 (init (lit "10.0.0.1") 7000) in
  let s' := (on_timer 9000 (lit "10.0.0.1:7000") c s).2 in
  exists i n', nodes_ (state_ s) !! lit "10.0.0.2:7000" = Some i /\ heap (state_ s') !! i = Some n' /\ isPfailed n' = true.
Proof.
  intros l c s s'. destruct (on_timer 9000 (lit "10.0.0.1:7000") c s) as [c1 s1] eqn:E.
  destruct (heartbeat_correct 9000 (lit "10.0.0.1:7000") c s c1 s1 eq_refl E) as (_ & _ & H & _).
  assert (exists i n, nodes_ (state_ s) !! lit "10.0.0.2:7000" = Some i /\ heap (state_ s) !! i = Some n) as (i & n & Hi & Hn).
  { eexists _, _. split; by vm_compute. }
  destruct (H (lit "10.0.0.2:7000") i n) as (n' & Hn' & Hp); [|done|done|].
  - exists l. split; by vm_compute.
  - exists i, n'. exact (conj Hi (conj Hn' Hp)).
Defined.
End BusConn.
