(* ===== verification/BusLinks.v ===== *)
(** * Links of the bus: cluster/cluster_bus.h, cluster_bus.cpp, with network/event_loop.cpp
    and network/channel.cpp

    The loop thread of a node with the inbound links of the bus: the table of channels of
    the event loop and its queue of tasks, the dispatch of events to the callbacks of a
    channel, the tables of links and channels of the bus, and the objects themselves. A
    destroyed object is gone from the heap, and an operation that touches it gives
    [None]. What a link reads is an input: the link stays, goes down, or an exception
    leaves its handler; the frames are in Link.v. The listening channel, which is never
    among these, brings the [Accept] steps. *)

From S2P Require Import Prelude Base.
From stdpp Require Import options.

Module BusLinks.
Import Text.

Record Channel := mkChannel { ch_fd : Z; ch_link : nat }.

(** The fields of a [ClusterLink] that the tables look at. *)
Record InLink := mkInLink { l_name : bytes; l_fd : Z; registered_fd_ : Z; l_connected : bool }.

Record BusLoop := mkLoop {
  channels_ : gmap Z nat;          (** of the event loop *)
  watched : gset Z;                (** the descriptors in the kernel's interest list *)
  pending_tasks_ : list (nat * option nat);   (** links and channels to be destroyed *)
  link_channels_ : gmap Z nat;
  links_ : gmap bytes nat;
  inbound_refused_ : Z;
  chan_heap : gmap nat Channel;
  link_heap : gmap nat InLink;
  open_fds : gset Z;
  next_id : nat
}.

Definition new_loop : BusLoop := mkLoop ∅ ∅ [] ∅ ∅ 0 ∅ ∅ ∅ 0.

Definition with_loop (chs : gmap Z nat) (w : gset Z) (s : BusLoop) : BusLoop :=
  mkLoop chs w (pending_tasks_ s) (link_channels_ s) (links_ s) (inbound_refused_ s) (chan_heap s) (link_heap s)
    (open_fds s) (next_id s).
Definition with_tables (lc : gmap Z nat) (ls : gmap bytes nat) (s : BusLoop) : BusLoop :=
  mkLoop (channels_ s) (watched s) (pending_tasks_ s) lc ls (inbound_refused_ s) (chan_heap s) (link_heap s)
    (open_fds s) (next_id s).
Definition with_heaps (ch : gmap nat Channel) (lh : gmap nat InLink) (s : BusLoop) : BusLoop :=
  mkLoop (channels_ s) (watched s) (pending_tasks_ s) (link_channels_ s) (links_ s) (inbound_refused_ s) ch lh
    (open_fds s) (next_id s).
Definition with_tasks (ts : list (nat * option nat)) (s : BusLoop) : BusLoop :=
  mkLoop (channels_ s) (watched s) ts (link_channels_ s) (links_ s) (inbound_refused_ s) (chan_heap s) (link_heap s)
    (open_fds s) (next_id s).

(** Closing a descriptor takes it out of the interest list. *)
Definition close_fd (fd : Z) (s : BusLoop) : BusLoop :=
  mkLoop (channels_ s) (watched s ∖ {[fd]}) (pending_tasks_ s) (link_channels_ s) (links_ s) (inbound_refused_ s)
    (chan_heap s) (link_heap s) (open_fds s ∖ {[fd]}) (next_id s).

(** ** The event loop *)

(** An fd that is in the table already is modified: its channel stays. *)
Definition update_channel (c : nat) (s : BusLoop) : option BusLoop :=
  ch ← chan_heap s !! c;
  match channels_ s !! ch_fd ch with
  | None => Some (with_loop (<[ch_fd ch := c]> (channels_ s)) (watched s ∪ {[ch_fd ch]}) s)
  | Some _ => Some s
  end.

Definition remove_channel (c : nat) (s : BusLoop) : option BusLoop :=
  ch ← chan_heap s !! c;
  match channels_ s !! ch_fd ch with
  | None => Some s
  | Some _ => Some (with_loop (delete (ch_fd ch) (channels_ s)) (watched s ∖ {[ch_fd ch]}) s)
  end.

Definition queue_in_loop (t : nat * option nat) (s : BusLoop) : BusLoop := with_tasks (pending_tasks_ s ++ [t]) s.

(** The destructor of a link closes its descriptor and tells nobody. *)
Definition delete_link (l : nat) (s : BusLoop) : option BusLoop :=
  lk ← link_heap s !! l;
  let s := with_heaps (chan_heap s) (delete l (link_heap s)) s in
  Some (if l_connected lk && (0 <=? l_fd lk) then close_fd (l_fd lk) s else s).

Definition delete_channel (c : nat) (s : BusLoop) : option BusLoop :=
  _ ← chan_heap s !! c; Some (with_heaps (delete c (chan_heap s)) (link_heap s) s).

Definition delete_channels (cs : list nat) (s : BusLoop) : option BusLoop :=
  foldl (fun s c => s ≫= delete_channel c) (Some s) cs.
Definition delete_links (ls : list nat) (s : BusLoop) : option BusLoop :=
  foldl (fun s l => s ≫= delete_link l) (Some s) ls.

(** A task of [remove_link] destroys the channel when it runs, and the link it keeps
    with the queue, at the end. *)
Definition drain_pending_tasks (s : BusLoop) : option BusLoop :=
  let ts := pending_tasks_ s in
  delete_channels (omap snd ts) (with_tasks [] s) ≫= delete_links ts.*1.

(** ** The bus *)

Definition kMaxInboundLinks : Z := 512.
Definition inbound_admitted (current_links limit : Z) : bool := current_links <? limit.
Definition link_count (s : BusLoop) : Z := Z.of_nat (size (links_ s)).

Definition register_link_to_loop (l : nat) (s : BusLoop) : option BusLoop :=
  lk ← link_heap s !! l;
  if l_fd lk <? 0 then Some s
  else
    let c := next_id s in
    let s := mkLoop (channels_ s) (watched s) (pending_tasks_ s) (link_channels_ s) (links_ s) (inbound_refused_ s)
               (<[c := mkChannel (l_fd lk) l]> (chan_heap s)) (link_heap s) (open_fds s) (S c) in
    (* enable_reading, enable_writing and the registration itself *)
    s ← update_channel c s; s ← update_channel c s; s ← update_channel c s;
    Some (with_tables (<[l_fd lk := c]> (link_channels_ s)) (links_ s) s).

(** A link that has the same name is replaced and thereby destroyed. *)
Definition create_link (fd : Z) (name : bytes) (s : BusLoop) : option (nat * BusLoop) :=
  let l := next_id s in
  let s := mkLoop (channels_ s) (watched s) (pending_tasks_ s) (link_channels_ s) (links_ s) (inbound_refused_ s)
             (chan_heap s) (<[l := mkInLink name fd fd true]> (link_heap s)) (open_fds s) (S l) in
  s ← match links_ s !! name with Some old => delete_link old s | None => Some s end;
  let s := with_tables (link_channels_ s) (<[name := l]> (links_ s)) s in
  s ← register_link_to_loop l s;
  Some (l, s).

(** Out of the tables; the channel is for the caller to destroy. *)
Definition detach_link_channel (fd : Z) (s : BusLoop) : option (option nat * BusLoop) :=
  match link_channels_ s !! fd with
  | None => Some (None, s)
  | Some c =>
      s ← remove_channel c (with_tables (delete fd (link_channels_ s)) (links_ s) s);
      Some (Some c, s)
  end.

Definition remove_link (name : bytes) (s : BusLoop) : option BusLoop :=
  match links_ s !! name with
  | None => Some s
  | Some l =>
      lk ← link_heap s !! l;
      let s := with_tables (link_channels_ s) (delete name (links_ s)) s in
      '(detached, s) ← (if registered_fd_ lk <? 0 then Some (None, s)
                         else detach_link_channel (registered_fd_ lk) s);
      Some (queue_in_loop (l, detached) s)
  end.

Definition disconnect_and_notify (l : nat) (s : BusLoop) : option BusLoop :=
  lk ← link_heap s !! l;
  if negb (l_connected lk) then Some s
  else
    let s := with_heaps (chan_heap s) (<[l := mkInLink (l_name lk) (-1) (registered_fd_ lk) false]> (link_heap s)) s in
    let s := if 0 <=? l_fd lk then close_fd (l_fd lk) s else s in
    remove_link (l_name lk) s.

(** What a handler of a link comes to. *)
Inductive io := Stays | Down | Throws.

(** [handle_read] and [handle_write]: whether an exception leaves them, and the state. *)
Definition handle_io (r : io) (l : nat) (s : BusLoop) : option (bool * BusLoop) :=
  lk ← link_heap s !! l;
  if negb (l_connected lk) then Some (false, s)
  else
    match r with
    | Stays => Some (false, s)
    | Down => (fun s => (false, s)) <$> disconnect_and_notify l s
    | Throws => Some (true, s)
    end.

(** [Channel::handle_event] with the callbacks of a link, which has no [close_cb]. The
    loop catches what leaves it. *)
Definition handle_event (err hup can_read can_write : bool) (rd wr : io) (c : nat) (s : BusLoop) : option BusLoop :=
  ch ← chan_heap s !! c;
  let l := ch_link ch in
  if err then disconnect_and_notify l s
  else if hup then snd <$> handle_io rd l s
  else
    match (if can_read then handle_io rd l s else Some (false, s)) with
    | Some (thrown, s) =>
        if thrown then Some s else if can_write then snd <$> handle_io wr l s else Some s
    | None => None
    end.

(** The body of the loop of [handle_accept] for one connection, and of [loop] for one event. *)
Inductive action :=
  | Accept (fd : Z) (name : bytes) (rd : io)
  | Event (fd : Z) (err hup can_read can_write : bool) (rd wr : io).

Definition accept_one (fd : Z) (name : bytes) (rd : io) (s : BusLoop) : option BusLoop :=
  let s := mkLoop (channels_ s) (watched s) (pending_tasks_ s) (link_channels_ s) (links_ s) (inbound_refused_ s)
             (chan_heap s) (link_heap s) (open_fds s ∪ {[fd]}) (next_id s) in
  if negb (inbound_admitted (link_count s) kMaxInboundLinks) then
    let s := mkLoop (channels_ s) (watched s) (pending_tasks_ s) (link_channels_ s) (links_ s) (inbound_refused_ s + 1)
               (chan_heap s) (link_heap s) (open_fds s) (next_id s) in
    Some (close_fd fd s)
  else
    '(l, s) ← create_link fd name s;
    snd <$> handle_io rd l s.

Definition act (a : action) (s : BusLoop) : option BusLoop :=
  match a with
  | Accept fd name rd => accept_one fd name rd s
  | Event fd err hup can_read can_write rd wr =>
      match channels_ s !! fd with
      | None => Some s
      | Some c => handle_event err hup can_read can_write rd wr c s
      end
  end.

(** One round of [loop]: the queued tasks, then the events. *)
Definition round (batch : list action) (s : BusLoop) : option BusLoop :=
  foldl (fun s a => s ≫= act a) (drain_pending_tasks s) batch.

(** [stop] on the loop thread: the channels at once, then the links. *)
Definition unregister_channels (cs : list nat) (s : BusLoop) : option BusLoop :=
  foldl (fun s c => s ≫= fun s => remove_channel c s ≫= delete_channel c) (Some s) cs.

Definition stop (s : BusLoop) : option BusLoop :=
  s ← unregister_channels (map_to_list (link_channels_ s)).*2 s;
  let s := with_tables ∅ (links_ s) s in
  s ← delete_links (map_to_list (links_ s)).*2 s;
  Some (with_tables (link_channels_ s) ∅ s).
End BusLinks.
