(* ===== verification/BusLinksProps.v ===== *)
(** * The links of the bus are never used after they are destroyed *)

From S2P Require Import Prelude Base BusLinks.
From stdpp Require Import options.

Module BusLinksProps.
Import Text BusLinks.

(** A link with its name, its descriptor and its channel, in all the tables. *)
Record entry (s : BusLoop) (name : bytes) (l : nat) (fd : Z) (c : nat) : Prop := {
  en_link : links_ s !! name = Some l;
  en_heap : link_heap s !! l = Some (mkInLink name fd fd true);
  en_table : link_channels_ s !! fd = Some c;
  en_chan : chan_heap s !! c = Some (mkChannel fd l);
  en_open : fd ∈ open_fds s;
  en_fd : 0 <= fd
}.

(** [cs] and [ls] are the channels and links that wait for their destruction. *)
Record inv (cs ls : list nat) (s : BusLoop) : Prop := {
  in_links name l : links_ s !! name = Some l -> exists fd c, entry s name l fd c;
  in_chans fd c : link_channels_ s !! fd = Some c -> exists name l, entry s name l fd c;
  in_loop : channels_ s = link_channels_ s;
  in_watched : watched s = dom (channels_ s);
  in_dead_chans c : c ∈ cs -> is_Some (chan_heap s !! c) /\ forall fd, link_channels_ s !! fd <> Some c;
  in_dead_links l : l ∈ ls -> exists lk, link_heap s !! l = Some lk /\ l_connected lk = false;
  in_once : NoDup cs /\ NoDup ls;
  in_fresh i : (is_Some (chan_heap s !! i) \/ is_Some (link_heap s !! i)) -> (i < next_id s)%nat;
  in_quota : link_count s <= kMaxInboundLinks;
  in_all_links l lk : link_heap s !! l = Some lk -> (l_connected lk = true /\ links_ s !! l_name lk = Some l) \/ l ∈ ls;
  in_all_chans c ch : chan_heap s !! c = Some ch -> link_channels_ s !! ch_fd ch = Some c \/ c ∈ cs
}.

Lemma inv_new : inv [] [] new_loop.
Proof.
  split; try done.
  - by intros c Hc%elem_of_nil.
  - by intros l Hl%elem_of_nil.
  - split; apply NoDup_nil_2.
  - intros i [[x Hx]|[x Hx]]; by vm_compute in Hx.
Qed.

(** An entry is untouched by a change of other links. *)
Lemma entry_frame s s' name l fd c :
  entry s name l fd c ->
  links_ s' !! name = links_ s !! name -> link_heap s' !! l = link_heap s !! l ->
  link_channels_ s' !! fd = link_channels_ s !! fd -> chan_heap s' !! c = chan_heap s !! c ->
  (fd ∈ open_fds s -> fd ∈ open_fds s') -> entry s' name l fd c.
Proof. intros [H1 H2 H3 H4 H5 H6] E1 E2 E3 E4 E5. split; try congruence. by apply E5. Qed.

(** Two entries that share a name, a link, a descriptor or a channel are the same. *)
Lemma entry_same s n1 l1 f1 c1 n2 l2 f2 c2 :
  entry s n1 l1 f1 c1 -> entry s n2 l2 f2 c2 ->
  n1 = n2 \/ l1 = l2 \/ f1 = f2 \/ c1 = c2 -> n1 = n2 /\ l1 = l2 /\ f1 = f2 /\ c1 = c2.
Proof.
  intros [A1 A2 A3 A4 _ _] [B1 B2 B3 B4 _ _] H.
  assert (l1 = l2) as ->.
  { destruct H as [->|[->|[->| ->]]]; [congruence|done| |congruence].
    rewrite A3 in B3. injection B3 as ->. congruence. }
  rewrite A2 in B2. injection B2 as -> ->. split_and!; congruence.
Qed.

(** ** Destruction *)

Lemma delete_channel_inv c cs ls s :
  inv (c :: cs) ls s ->
  exists s', delete_channel c s = Some s' /\ inv cs ls s' /\ pending_tasks_ s' = pending_tasks_ s /\
    links_ s' = links_ s /\ link_channels_ s' = link_channels_ s /\ open_fds s' = open_fds s.
Proof.
  intros [Hl Hc Hlo Hw Hdc Hdl [[Hcn Hcs]%NoDup_cons Hls] Hf Hq Hal Hac].
  destruct (Hdc c ltac:(set_solver)) as [[ch Hch] Hno].
  unfold delete_channel. rewrite Hch. cbn. eexists. split; [done|]. split; [|done].
  assert (forall n l fd d, entry s n l fd d ->
    entry (with_heaps (delete c (chan_heap s)) (link_heap s) s) n l fd d) as Hen.
  { intros n l fd d He. eapply entry_frame; [exact He|done..| |done]. apply lookup_delete_ne.
    intros <-. by apply (Hno fd), (en_table _ _ _ _ _ He). }
  constructor; cbn [with_heaps links_ link_channels_ channels_ watched chan_heap link_heap next_id link_count].
  - intros n l H. destruct (Hl n l H) as (fd & d & He). eauto.
  - intros fd d H. destruct (Hc fd d H) as (n & l & He). eauto.
  - done.
  - done.
  - intros d Hd. destruct (Hdc d ltac:(set_solver)) as [Hs Hno2]. split; [|done].
    rewrite lookup_delete_ne; [done|]. by intros <-.
  - done.
  - done.
  - intros i [Hi|Hi]; apply Hf; [|by right]. left. rewrite lookup_delete in Hi. case_decide; [by destruct Hi|done].
  - exact Hq.
  - done.
  - intros d x [Hne Hx]%lookup_delete_Some. destruct (Hac d x Hx) as [?|?]; [by left|right; set_solver].
Qed.

Lemma delete_link_inv l cs ls s :
  inv cs (l :: ls) s ->
  exists s', delete_link l s = Some s' /\ inv cs ls s' /\ pending_tasks_ s' = pending_tasks_ s /\
    links_ s' = links_ s /\ link_channels_ s' = link_channels_ s /\ open_fds s' = open_fds s.
Proof.
  intros [Hl Hc Hlo Hw Hdc Hdl [Hcs [Hln Hls]%NoDup_cons] Hf Hq Hal Hac].
  destruct (Hdl l ltac:(set_solver)) as (lk & Hlk & Hcon).
  unfold delete_link. rewrite Hlk. cbn. rewrite Hcon. cbn. eexists. split; [done|]. split; [|done].
  assert (forall n l0 fd d, entry s n l0 fd d ->
    entry (with_heaps (chan_heap s) (delete l (link_heap s)) s) n l0 fd d) as Hen.
  { intros n l0 fd d He. eapply entry_frame; [exact He|done| |done..]. apply lookup_delete_ne.
    intros <-. rewrite (en_heap _ _ _ _ _ He) in Hlk. by injection Hlk as <-. }
  constructor; cbn [with_heaps links_ link_channels_ channels_ watched chan_heap link_heap next_id link_count].
  - intros n l0 H. destruct (Hl n l0 H) as (fd & d & He). eauto.
  - intros fd d H. destruct (Hc fd d H) as (n & l0 & He). eauto.
  - done.
  - done.
  - done.
  - intros l0 H0. destruct (Hdl l0 ltac:(set_solver)) as (lk0 & Hlk0 & Hc0). exists lk0. split; [|done].
    rewrite lookup_delete_ne; [done|]. by intros <-.
  - done.
  - intros i [Hi|Hi]; apply Hf; [by left|]. right. rewrite lookup_delete in Hi. case_decide; [by destruct Hi|done].
  - exact Hq.
  - intros d x [Hne Hx]%lookup_delete_Some. destruct (Hal d x Hx) as [?|?]; [by left|right; set_solver].
  - done.
Qed.

Definition same_tables (s s' : BusLoop) : Prop :=
  pending_tasks_ s' = pending_tasks_ s /\ links_ s' = links_ s /\ link_channels_ s' = link_channels_ s /\ open_fds s' = open_fds s.

Lemma delete_channels_inv cs ls s :
  inv cs ls s -> exists s', delete_channels cs s = Some s' /\ inv [] ls s' /\ same_tables s s'.
Proof.
  revert s. induction cs as [|c cs IH]; intros s Hs; [by exists s|].
  destruct (delete_channel_inv c cs ls s Hs) as (s1 & H1 & Hi & Ht).
  destruct (IH s1 Hi) as (s2 & H2 & Hi2 & Ht2). exists s2. unfold delete_channels in *. cbn. rewrite H1.
  split; [done|]. split; [done|]. destruct Ht as (?&?&?&?), Ht2 as (?&?&?&?). unfold same_tables. split_and!; congruence.
Qed.

Lemma delete_links_inv cs ls s :
  inv cs ls s -> exists s', delete_links ls s = Some s' /\ inv cs [] s' /\ same_tables s s'.
Proof.
  revert s. induction ls as [|l ls IH]; intros s Hs; [by exists s|].
  destruct (delete_link_inv l cs ls s Hs) as (s1 & H1 & Hi & Ht).
  destruct (IH s1 Hi) as (s2 & H2 & Hi2 & Ht2). exists s2. unfold delete_links in *. cbn. rewrite H1.
  split; [done|]. split; [done|]. destruct Ht as (?&?&?&?), Ht2 as (?&?&?&?). unfold same_tables. split_and!; congruence.
Qed.

(** A state between two steps of the loop. *)
Definition loop_ok (s : BusLoop) : Prop := inv (omap snd (pending_tasks_ s)) (pending_tasks_ s).*1 s.

Lemma inv_with_tasks cs ls ts s : inv cs ls s -> inv cs ls (with_tasks ts s).
Proof.
  assert (forall n l fd c, entry s n l fd c -> entry (with_tasks ts s) n l fd c) as He by (intros n l fd c []; by split).
  intros [Hl Hc]. split; try done.
  - intros n l H. destruct (Hl n l H) as (fd & c & ?). eauto.
  - intros fd c H. destruct (Hc fd c H) as (n & l & ?). eauto.
Qed.

Lemma drain_ok s :
  loop_ok s -> exists s', drain_pending_tasks s = Some s' /\ loop_ok s' /\ pending_tasks_ s' = [] /\
    links_ s' = links_ s /\ open_fds s' = open_fds s.
Proof.
  intros Hs. unfold drain_pending_tasks, loop_ok in *. cbv zeta.
  destruct (delete_channels_inv _ _ _ (inv_with_tasks _ _ [] s Hs)) as (s1 & H1 & Hi1 & (T1 & L1 & _ & O1)). rewrite H1.
  destruct (delete_links_inv _ _ _ Hi1) as (s2 & H2 & Hi2 & (T2 & L2 & _ & O2)). cbn [mbind option_bind]. rewrite H2.
  cbn [with_tasks pending_tasks_ links_ open_fds] in *. exists s2.
  assert (pending_tasks_ s2 = []) as Ht by congruence. rewrite Ht. split_and!; [done|done|done|congruence|congruence].
Qed.

(** ** A link goes down *)

Lemma down_inv cs ls s name l fd c :
  inv cs ls s -> entry s name l fd c ->
  exists s', disconnect_and_notify l s = Some s' /\ inv (cs ++ [c]) (ls ++ [l]) s' /\
    pending_tasks_ s' = pending_tasks_ s ++ [(l, Some c)] /\ links_ s' = delete name (links_ s) /\
    open_fds s' = open_fds s ∖ {[fd]} /\ link_heap s' !! l = Some (mkInLink name (-1) fd false).
Proof.
  intros Hs He. pose proof Hs as [Hl Hc Hlo Hw Hdc Hdl [Hcs Hls] Hf Hq Hal Hac]. destruct He as [E1 E2 E3 E4 E5 E6] eqn:Heq. clear Heq.
  eexists. split.
  { unfold disconnect_and_notify. rewrite E2. cbn. rewrite (proj2 (Z.leb_le 0 fd)) by lia.
    unfold remove_link. cbn. rewrite E1. cbn. rewrite lookup_insert_eq. cbn.
    rewrite (proj2 (Z.ltb_ge fd 0)) by lia. unfold detach_link_channel. cbn. rewrite E3.
    unfold remove_channel. cbn. rewrite E4. cbn. rewrite Hlo, E3. cbn. reflexivity. }
  split; [|cbn; split_and!; try done; [by apply lookup_insert_eq]].
  assert (forall n l0 f d, entry s n l0 f d -> n <> name -> l0 <> l /\ f <> fd /\ d <> c) as Hother.
  { intros n l0 f d Hd Hne. split_and!; intros ->; apply Hne;
      by destruct (entry_same s n _ _ _ name l fd c Hd He) as (? & _); [tauto|]. }
  match goal with |- inv _ _ ?x => set (s' := x) end.
  assert (forall n l0 f d, entry s n l0 f d -> n <> name -> entry s' n l0 f d) as Hen.
  { intros n l0 f d Hd Hne. destruct (Hother n l0 f d Hd Hne) as (? & ? & ?).
    eapply entry_frame; [exact Hd|..]; cbn.
    - by apply lookup_delete_ne.
    - by apply lookup_insert_ne.
    - by apply lookup_delete_ne.
    - done.
    - set_solver. }
  constructor.
  - intros n l0 H0. change (delete name (links_ s) !! n = Some l0) in H0. apply lookup_delete_Some in H0 as [Hne H0]. destruct (Hl n l0 H0) as (f & d & Hd). eauto.
  - intros f d H0. change (delete fd (link_channels_ s) !! f = Some d) in H0. apply lookup_delete_Some in H0 as [Hne H0].
    destruct (Hc f d H0) as (n & l0 & Hd). exists n, l0. apply Hen; [done|].
    intros ->. apply Hne. by destruct (entry_same s name l0 f d name l fd c Hd He) as (_ & _ & ? & _); [tauto|].
  - unfold s'; cbn. done.
  - unfold s'; cbn. rewrite Hw, Hlo, dom_delete_L. set_solver.
  - intros d [Hd| ->%list_elem_of_singleton]%elem_of_app.
    + destruct (Hdc d Hd) as [Hsome Hno]. split; [done|]. unfold s'; cbn. intros f [_ Hx]%lookup_delete_Some. by apply (Hno f).
    + split; [by eexists|]. unfold s'; cbn. intros f [Hne Hx]%lookup_delete_Some. apply Hne.
      destruct (Hc f c Hx) as (n & l0 & Hd). by destruct (entry_same s n l0 f c name l fd c Hd He) as (_ & _ & ? & _); [tauto|].
  - intros l0 [H0| ->%list_elem_of_singleton]%elem_of_app; unfold s'; cbn.
    + destruct (Hdl l0 H0) as (lk & Hlk & Hcon). exists lk. split; [|done]. rewrite lookup_insert_ne; [done|].
      intros <-. rewrite E2 in Hlk. by injection Hlk as <-.
    + rewrite lookup_insert_eq. by eexists.
  - split; apply NoDup_app; (split; [done|]; split; [|apply NoDup_singleton]).
    + intros d Hd ->%list_elem_of_singleton. destruct (Hdc c Hd) as [_ Hno]. by apply (Hno fd).
    + intros d Hd ->%list_elem_of_singleton. destruct (Hdl l Hd) as (lk & Hlk & Hcon). rewrite E2 in Hlk. by injection Hlk as <-.
  - unfold s'; cbn. intros i [Hi|Hi]; apply Hf; [by left|]. right. rewrite lookup_insert in Hi. case_decide; [subst; by eexists|done].
  - unfold link_count, s' in *. cbn. rewrite map_size_delete, E1. lia.
  - unfold s'; cbn. intros l0 lk [[<- <-]|[Hne H0]]%lookup_insert_Some; [right; set_solver|].
    destruct (Hal l0 lk H0) as [[Hcon Hin]|?]; [|right; set_solver]. left. split; [done|]. apply lookup_delete_Some. split; [|done].
    intros E. rewrite <-E, E1 in Hin. by injection Hin as ->.
  - unfold s'; cbn. intros d ch H0. destruct (Hac d ch H0) as [Hin|?]; [|right; set_solver].
    destruct (decide (ch_fd ch = fd)) as [E|Hne]; [right|left; by apply lookup_delete_Some].
    rewrite E, E3 in Hin. injection Hin as ->. set_solver.
Qed.

(** ** A new link *)

Definition with_open (fd : Z) (s : BusLoop) : BusLoop :=
  mkLoop (channels_ s) (watched s) (pending_tasks_ s) (link_channels_ s) (links_ s) (inbound_refused_ s)
    (chan_heap s) (link_heap s) (open_fds s ∪ {[fd]}) (next_id s).

(** The state with a link of its own name on a descriptor of its own. *)
Definition linked (fd : Z) (name : bytes) (s : BusLoop) : BusLoop :=
  let l := next_id s in
  mkLoop (<[fd := S l]> (channels_ s)) (watched s ∪ {[fd]}) (pending_tasks_ s) (<[fd := S l]> (link_channels_ s))
    (<[name := l]> (links_ s)) (inbound_refused_ s) (<[S l := mkChannel fd l]> (chan_heap s))
    (<[l := mkInLink name fd fd true]> (link_heap s)) (open_fds s ∪ {[fd]}) (S (S l)).

Lemma create_link_eq fd name s :
  channels_ s !! fd = None -> links_ s !! name = None -> 0 <= fd ->
  create_link fd name (with_open fd s) = Some (next_id s, linked fd name s).
Proof.
  intros Hc Hl Hfd. unfold create_link. cbn. rewrite Hl. cbn. unfold register_link_to_loop. cbn.
  rewrite lookup_insert_eq. cbn. rewrite (proj2 (Z.ltb_ge fd 0)) by lia.
  assert (forall x : BusLoop, chan_heap x !! S (next_id s) = Some (mkChannel fd (next_id s)) -> is_Some (channels_ x !! fd) ->
    update_channel (S (next_id s)) x = Some x) as Hagain.
  { intros x Hx [y Hy]. unfold update_channel. rewrite Hx. cbn. by rewrite Hy. }
  unfold update_channel at 3. cbn. rewrite lookup_insert_eq. cbn. rewrite Hc. cbn.
  rewrite Hagain by (cbn; rewrite lookup_insert_eq; by eauto). cbn.
  rewrite Hagain by (cbn; rewrite lookup_insert_eq; by eauto). reflexivity.
Qed.

Lemma linked_inv cs ls fd name s :
  inv cs ls s -> fd ∉ open_fds s -> 0 <= fd -> links_ s !! name = None -> link_count s < kMaxInboundLinks ->
  channels_ s !! fd = None /\ inv cs ls (linked fd name s) /\ entry (linked fd name s) name (next_id s) fd (S (next_id s)).
Proof.
  intros [Hl Hc Hlo Hw Hdc Hdl Hn Hf Hq Hal Hac] Hfd H0 Hname Hcount.
  assert (link_channels_ s !! fd = None) as Hnone.
  { destruct (link_channels_ s !! fd) as [c|] eqn:E; [|done]. destruct (Hc fd c E) as (n & l & He). by destruct Hfd, He. }
  split; [by rewrite Hlo|].
  assert (entry (linked fd name s) name (next_id s) fd (S (next_id s))) as Hnew.
  { split; cbn; rewrite ?lookup_insert_eq; try done. set_solver. }
  split; [|exact Hnew].
  assert (forall i, is_Some (link_heap s !! i) -> i <> next_id s) as Hfl by (intros i Hi ->; specialize (Hf (next_id s) (or_intror Hi)); lia).
  assert (forall i, is_Some (chan_heap s !! i) -> i <> S (next_id s)) as Hfc by (intros i Hi ->; specialize (Hf _ (or_introl Hi)); lia).
  assert (forall n l f d, entry s n l f d -> entry (linked fd name s) n l f d) as Hen.
  { intros n l f d He. pose proof He as [E1 E2 E3 E4 E5 E6]. eapply entry_frame; [exact He|..]; cbn.
    - apply lookup_insert_ne. congruence.
    - apply lookup_insert_ne. apply not_eq_sym, Hfl. by eexists.
    - apply lookup_insert_ne. congruence.
    - apply lookup_insert_ne. apply not_eq_sym, Hfc. by eexists.
    - set_solver. }
  constructor.
  - cbn. intros n l [[<- <-]|[Hne H1]]%lookup_insert_Some; [eauto|]. destruct (Hl n l H1) as (f & d & He). eauto.
  - cbn. intros f d [[<- <-]|[Hne H1]]%lookup_insert_Some; [eauto|]. destruct (Hc f d H1) as (n & l & He). eauto.
  - cbn. by rewrite Hlo.
  - cbn. rewrite Hw, dom_insert_L. set_solver.
  - intros d Hd. destruct (Hdc d Hd) as [Hsome Hno]. cbn. split.
    + rewrite lookup_insert_ne; [done|]. by apply not_eq_sym, Hfc.
    + intros f [[_ <-]|[_ H1]]%lookup_insert_Some; [by apply Hfc in Hsome|by apply (Hno f)].
  - intros l Hd. destruct (Hdl l Hd) as (lk & Hlk & Hcon). exists lk. split; [|done]. cbn.
    rewrite lookup_insert_ne; [done|]. apply not_eq_sym, Hfl. by eexists.
  - exact Hn.
  - cbn. intros i [Hi|Hi]; rewrite lookup_insert in Hi; case_decide; try lia.
    + specialize (Hf i (or_introl Hi)). lia.
    + specialize (Hf i (or_intror Hi)). lia.
  - unfold link_count in *. cbn. rewrite map_size_insert_None by done. lia.
  - cbn. intros l lk [[<- <-]|[Hne H1]]%lookup_insert_Some; [left; by rewrite lookup_insert_eq|].
    destruct (Hal l lk H1) as [[Hcon Hin]|?]; [|by right]. left. split; [done|]. rewrite lookup_insert_ne; [done|]. congruence.
  - cbn. intros d ch [[<- <-]|[Hne H1]]%lookup_insert_Some; [left; by rewrite lookup_insert_eq|].
    destruct (Hac d ch H1) as [Hin|?]; [|by right]. left. rewrite lookup_insert_ne; [done|]. congruence.
Qed.

(** ** Handlers *)

(** A link that is live keeps to the tables, or it is on its way out. *)
Lemma live_link s l lk :
  loop_ok s -> link_heap s !! l = Some lk -> l_connected lk = true -> exists fd c, entry s (l_name lk) l fd c.
Proof.
  intros Hs Hlk Hcon. destruct (in_all_links _ _ _ Hs l lk Hlk) as [[_ Hin]|Hdead]; [by eapply in_links|].
  destruct (in_dead_links _ _ _ Hs l Hdead) as (lk' & Hlk' & Hcon'). congruence.
Qed.

Lemma down_ok s name l fd c :
  loop_ok s -> entry s name l fd c ->
  exists s', disconnect_and_notify l s = Some s' /\ loop_ok s' /\ is_Some (link_heap s' !! l) /\
    links_ s' ⊆ links_ s /\ open_fds s' ⊆ open_fds s.
Proof.
  intros Hs He. destruct (down_inv _ _ s name l fd c Hs He) as (s' & Hd & Hi & Ht & Hl & Ho & Hh).
  exists s'. split; [done|]. unfold loop_ok. rewrite Ht, fmap_app, omap_app. split; [exact Hi|]. split; [by eexists|].
  rewrite Hl, Ho. split; [apply delete_subseteq|set_solver].
Qed.

Lemma handle_io_ok r l s :
  loop_ok s -> is_Some (link_heap s !! l) ->
  exists b s', handle_io r l s = Some (b, s') /\ loop_ok s' /\ is_Some (link_heap s' !! l) /\
    links_ s' ⊆ links_ s /\ open_fds s' ⊆ open_fds s.
Proof.
  intros Hs [lk Hlk]. unfold handle_io. rewrite Hlk. cbn.
  assert (is_Some (link_heap s !! l)) as Hlive by by eexists.
  destruct (l_connected lk) eqn:Hcon; cbn; [|by exists false, s].
  destruct r; [by exists false, s| |by exists true, s].
  destruct (live_link s l lk Hs Hlk Hcon) as (fd & c & He).
  destruct (down_ok s _ l fd c Hs He) as (s' & -> & H1). by exists false, s'.
Qed.

Lemma handle_event_ok err hup cr cw rd wr fd c s :
  loop_ok s -> channels_ s !! fd = Some c ->
  exists s', handle_event err hup cr cw rd wr c s = Some s' /\ loop_ok s'.
Proof.
  intros Hs Hc. rewrite (in_loop _ _ _ Hs) in Hc. destruct (in_chans _ _ _ Hs fd c Hc) as (name & l & He).
  pose proof He as [_ Eh _ Ec _ _]. assert (is_Some (link_heap s !! l)) as Hlive by by eexists.
  unfold handle_event. rewrite Ec. cbn.
  destruct err. { destruct (down_ok s name l fd c Hs He) as (s' & -> & Hok & _). by exists s'. }
  destruct (handle_io_ok rd l s Hs Hlive) as (b & s1 & Hio & Hok1 & Hlive1 & _).
  destruct hup. { rewrite Hio. by exists s1. }
  assert (exists b s1, (if cr then handle_io rd l s else Some (false, s)) = Some (b, s1) /\ loop_ok s1 /\ is_Some (link_heap s1 !! l))
    as (b' & s2 & -> & Hok2 & Hlive2) by (destruct cr; eauto 6).
  destruct b'; [by exists s2|]. destruct cw; [|by exists s2].
  destruct (handle_io_ok wr l s2 Hok2 Hlive2) as (b3 & s3 & -> & Hok3 & _). by exists s3.
Qed.

(** What the kernel can bring, a descriptor that is not open; and a name that no link has,
    which is up to the peers and not looked at by the code ([name_collision_faults]). *)
Definition legal (a : action) (s : BusLoop) : Prop :=
  match a with
  | Accept fd name _ => 0 <= fd /\ (fd ∉ open_fds s) /\ links_ s !! name = None
  | Event _ _ _ _ _ _ _ => True
  end.

Lemma inv_same_maps cs ls s s' :
  inv cs ls s -> channels_ s' = channels_ s -> watched s' = watched s -> link_channels_ s' = link_channels_ s ->
  links_ s' = links_ s -> chan_heap s' = chan_heap s -> link_heap s' = link_heap s -> open_fds s' = open_fds s ->
  next_id s' = next_id s -> inv cs ls s'.
Proof.
  destruct s as [x1 x2 x3 x4 x5 x6 x7 x8 x9 x10], s' as [y1 y2 y3 y4 y5 y6 y7 y8 y9 y10]. cbn.
  intros Hs -> -> -> -> -> -> -> ->. destruct Hs as [Hl Hc].
  assert (forall n l fd c, entry (mkLoop x1 x2 x3 x4 x5 x6 x7 x8 x9 x10) n l fd c -> entry (mkLoop x1 x2 y3 x4 x5 y6 x7 x8 x9 x10) n l fd c)
    as He by (intros n l fd c []; by split).
  split; try done.
  - intros n l H. destruct (Hl n l H) as (fd & c & ?). eauto.
  - intros fd c H. destruct (Hc fd c H) as (n & l & ?). eauto.
Qed.

Lemma accept_ok fd name rd s :
  loop_ok s -> legal (Accept fd name rd) s -> exists s', accept_one fd name rd s = Some s' /\ loop_ok s'.
Proof.
  intros Hs (H0 & Hfd & Hname). unfold accept_one. cbv zeta. fold (with_open fd s).
  unfold inbound_admitted. change (link_count (with_open fd s)) with (link_count s).
  destruct (Z.ltb_spec (link_count s) kMaxInboundLinks) as [Hlt|Hge]; cbn [negb].
  - destruct (linked_inv _ _ fd name s Hs Hfd H0 Hname Hlt) as (Hc & Hi & He).
    rewrite create_link_eq by done. cbn [mbind option_bind].
    destruct (handle_io_ok rd (next_id s) (linked fd name s)) as (b & s' & -> & Hok & _); [exact Hi|destruct He; by eexists|].
    by exists s'.
  - eexists. split; [done|]. unfold loop_ok. cbn. eapply inv_same_maps; [exact Hs|cbn; try done..].
    + rewrite (in_watched _ _ _ Hs), (in_loop _ _ _ Hs). apply difference_disjoint_L, disjoint_singleton_r.
      rewrite not_elem_of_dom. destruct (link_channels_ s !! fd) as [c|] eqn:E; [|done].
      destruct (in_chans _ _ _ Hs fd c E) as (n & l & [_ _ _ _ Ho _]). done.
    + set_solver.
Qed.

Lemma act_ok a s : loop_ok s -> legal a s -> exists s', act a s = Some s' /\ loop_ok s'.
Proof.
  intros Hs Ha. destruct a as [fd name rd|fd err hup cr cw rd wr]; cbn [act]; [by apply accept_ok|].
  destruct (channels_ s !! fd) as [c|] eqn:E; [by eapply handle_event_ok|by exists s].
Qed.

Fixpoint legal_all (batch : list action) (s : BusLoop) : Prop :=
  match batch with
  | [] => True
  | a :: batch => legal a s /\ forall s', act a s = Some s' -> legal_all batch s'
  end.

Lemma acts_ok batch s :
  loop_ok s -> legal_all batch s -> exists s', (foldl (fun s a => s ≫= act a) (Some s) batch) = Some s' /\ loop_ok s'.
Proof.
  revert s. induction batch as [|a batch IH]; intros s Hs; [by exists s|]. intros [Ha Hrest].
  destruct (act_ok a s Hs Ha) as (s1 & H1 & Hok). cbn [foldl mbind option_bind]. rewrite H1. by apply IH, Hrest.
Qed.

Definition legal_round (batch : list action) (s : BusLoop) : Prop :=
  forall s', drain_pending_tasks s = Some s' -> legal_all batch s'.

Lemma round_ok batch s :
  loop_ok s -> legal_round batch s -> exists s', round batch s = Some s' /\ loop_ok s'.
Proof.
  intros Hs Hb. unfold round. destruct (drain_ok s Hs) as (s1 & H1 & Hok & _). rewrite H1. apply acts_ok; [done|by apply Hb].
Qed.

Inductive reachable : BusLoop -> Prop :=
  | reach_new : reachable new_loop
  | reach_round batch s s' : reachable s -> legal_round batch s -> round batch s = Some s' -> reachable s'.

Lemma reachable_ok s : reachable s -> loop_ok s.
Proof.
  induction 1 as [|batch s s' _ IH Hb Hr]; [exact inv_new|].
  destruct (round_ok batch s IH Hb) as (s1 & H1 & Hok). congruence.
Qed.

(** C20: the inbound links of the bus, as long as no connection is accepted under the name
    of a link that is still in the table, that is from the address and port of a peer whose
    last connection the loop has not yet taken down (in that case a destroyed link is
    touched: [name_collision_faults]). Whatever else the loop dispatches in a round, and
    however many links go down in it, no handler touches a channel or a link that was
    destroyed, and none is destroyed twice. There are never more than 512 links; every
    link in the table is connected and its descriptor is watched for it alone; and when
    the queued tasks have run, the objects that are left are those in the tables. *)
Theorem bus_links_safe s :
  reachable s ->
  (forall batch, legal_round batch s -> is_Some (round batch s)) /\
  link_count s <= kMaxInboundLinks /\
  (forall name l, links_ s !! name = Some l -> exists fd c, entry s name l fd c /\ fd ∈ watched s) /\
  (forall fd, fd ∈ watched s -> exists name l c, entry s name l fd c /\ channels_ s !! fd = Some c) /\
  (exists s', drain_pending_tasks s = Some s' /\ links_ s' = links_ s /\
     (forall l, is_Some (link_heap s' !! l) <-> exists name, links_ s' !! name = Some l) /\
     (forall c, is_Some (chan_heap s' !! c) <-> exists fd, link_channels_ s' !! fd = Some c)).
Proof.
  intros Hs%reachable_ok. split_and!.
  - intros batch Hb. destruct (round_ok batch s Hs Hb) as (s' & -> & _). by eexists.
  - by eapply in_quota.
  - intros name l Hl. destruct (in_links _ _ _ Hs name l Hl) as (fd & c & He). exists fd, c. split; [done|].
    rewrite (in_watched _ _ _ Hs), (in_loop _ _ _ Hs). destruct He as [_ _ Ht _ _ _]. by eapply elem_of_dom_2.
  - intros fd Hfd. rewrite (in_watched _ _ _ Hs), elem_of_dom in Hfd. destruct Hfd as [c Hc].
    rewrite (in_loop _ _ _ Hs) in *. destruct (in_chans _ _ _ Hs fd c Hc) as (n & l & He). by exists n, l, c.
  - destruct (drain_ok s Hs) as (s' & Hd & Hok & Ht & Hl & _). exists s'. split_and!; [done|done|..].
    + intros l. split.
      * intros [lk Hlk]. destruct (in_all_links _ _ _ Hok l lk Hlk) as [[_ ?]|Hx]; [by eexists|]. rewrite Ht in Hx. by apply elem_of_nil in Hx.
      * intros [n Hn]. destruct (in_links _ _ _ Hok n l Hn) as (fd & c & []). by eexists.
    + intros c. split.
      * intros [ch Hch]. destruct (in_all_chans _ _ _ Hok c ch Hch) as [?|Hx]; [by eexists|]. rewrite Ht in Hx. by apply elem_of_nil in Hx.
      * intros [fd Hfd]. destruct (in_chans _ _ _ Hok fd c Hfd) as (n & l & []). by eexists.
Qed.

(** Two links, the first of which goes down while it is read and would still be written. *)
Definition sample_batch : list action :=
  [Accept 5 (lit "handshake:10.0.0.2:4000") Stays; Accept 6 (lit "handshake:10.0.0.3:4000") Stays;
   Event 5 false false true true Down Down; Event 5 true false false false Stays Stays].

Lemma sample_batch_legal : legal_round sample_batch new_loop.
Proof.
  intros s' [= <-]. cbn [legal_all sample_batch]. split; [by vm_compute|].
  intros s1 H1. vm_compute in H1. injection H1 as <-. split; [split_and!; [done|apply (bool_decide_unpack _); by vm_compute|by vm_compute]|].
  by intros s2 _.
Qed.

Lemma bus_links_safe_witness :
  is_Some (round sample_batch new_loop) /\ link_count new_loop <= kMaxInboundLinks.
Proof.
  destruct (bus_links_safe new_loop reach_new) as (H & Hq & _). split; [apply H, sample_batch_legal|exact Hq].
Defined.

(** A peer that comes back from the same port before the loop has seen its old
    connection fail: the new link takes the place of the old one, which is destroyed
    while its channel still leads to it, and the next event of the old connection, in the
    same round, touches the destroyed link. *)
Theorem name_collision_faults :
  let name := lit "handshake:10.0.0.2:4000" in
  exists s, round [Accept 5 name Stays] new_loop = Some s /\ (6 ∉ open_fds s) /\
    round [Accept 6 name Stays; Event 5 false true true false Down Stays] s = None.
Proof.
  eexists. split; [by vm_compute|]. split; [apply (bool_decide_unpack _); by vm_compute|by vm_compute].
Qed.

(** ** stop *)

Lemma unregister_ok cs s :
  NoDup cs -> (forall c, c ∈ cs -> is_Some (chan_heap s !! c)) ->
  exists s', unregister_channels cs s = Some s' /\ link_heap s' = link_heap s /\ links_ s' = links_ s.
Proof.
  revert s. induction cs as [|c cs IH]; intros s Hnd Hlive; [by exists s|]. apply NoDup_cons in Hnd as [Hc Hnd].
  destruct (Hlive c ltac:(set_solver)) as [ch Hch].
  assert (exists s1, (remove_channel c s ≫= delete_channel c) = Some s1 /\ link_heap s1 = link_heap s /\ links_ s1 = links_ s /\
    chan_heap s1 = delete c (chan_heap s)) as (s1 & H1 & Hl1 & Hn1 & Hc1).
  { unfold remove_channel. rewrite Hch. cbn. destruct (channels_ s !! ch_fd ch); cbn; unfold delete_channel; cbn; rewrite Hch; cbn; by eexists. }
  destruct (IH s1 Hnd) as (s2 & H2 & Hl2 & Hn2).
  { intros d Hd. rewrite Hc1, lookup_delete_ne; [apply Hlive; set_solver|]. by intros <-. }
  exists s2. unfold unregister_channels in *. cbn. rewrite H1. split_and!; [done|congruence|congruence].
Qed.

Lemma delete_links_ok ls s :
  NoDup ls -> (forall l, l ∈ ls -> is_Some (link_heap s !! l)) ->
  exists s', delete_links ls s = Some s' /\ link_channels_ s' = link_channels_ s.
Proof.
  revert s. induction ls as [|l ls IH]; intros s Hnd Hlive; [by exists s|]. apply NoDup_cons in Hnd as [Hl Hnd].
  destruct (Hlive l ltac:(set_solver)) as [lk Hlk].
  assert (exists s1, delete_link l s = Some s1 /\ link_heap s1 = delete l (link_heap s) /\ link_channels_ s1 = link_channels_ s)
    as (s1 & H1 & Hl1 & Hc1) by (unfold delete_link; rewrite Hlk; cbn; destruct (_ && _); by eexists).
  destruct (IH s1 Hnd) as (s2 & H2 & Hc2).
  { intros d Hd. rewrite Hl1, lookup_delete_ne; [apply Hlive; set_solver|]. by intros <-. }
  exists s2. unfold delete_links in *. cbn. rewrite H1. split; [done|congruence].
Qed.

Lemma NoDup_values {K} `{Countable K} (m : gmap K nat) :
  (forall i j x, m !! i = Some x -> m !! j = Some x -> i = j) -> NoDup (map_to_list m).*2.
Proof.
  intros Hinj. apply NoDup_fmap_2_strong; [|apply NoDup_map_to_list].
  intros [i x] [j y] Hi%elem_of_map_to_list Hj%elem_of_map_to_list. cbn. intros ->. by rewrite (Hinj i j y Hi Hj).
Qed.

(** Stopping the bus on the loop thread between two rounds empties the tables and
    touches nothing that was destroyed. *)
Theorem stop_safe s :
  reachable s -> exists s', stop s = Some s' /\ links_ s' = ∅ /\ link_channels_ s' = ∅.
Proof.
  intros Hs%reachable_ok. unfold stop.
  destruct (unregister_ok (map_to_list (link_channels_ s)).*2 s) as (s1 & -> & Hl1 & Hn1).
  - apply NoDup_values. intros f g c Hf Hg. destruct (in_chans _ _ _ Hs f c Hf) as (n & l & He), (in_chans _ _ _ Hs g c Hg) as (n' & l' & He').
    by destruct (entry_same s n l f c n' l' g c He He') as (_ & _ & ? & _); [tauto|].
  - intros c Hc. apply list_elem_of_fmap in Hc as ([f d] & -> & Hin%elem_of_map_to_list). destruct (in_chans _ _ _ Hs f d Hin) as (n & l & []). by eexists.
  - cbn [mbind option_bind]. cbn [links_ with_tables]. rewrite Hn1.
    destruct (delete_links_ok (map_to_list (links_ s)).*2 (with_tables ∅ (links_ s) s1)) as (s2 & -> & Hc2).
    + apply NoDup_values. intros n n' l Hn Hn'. destruct (in_links _ _ _ Hs n l Hn) as (f & c & He), (in_links _ _ _ Hs n' l Hn') as (f' & c' & He').
      by destruct (entry_same s n l f c n' l f' c' He He') as (? & _); [tauto|].
    + intros l Hl. apply list_elem_of_fmap in Hl as ([n d] & -> & Hin%elem_of_map_to_list). cbn. rewrite Hl1.
      destruct (in_links _ _ _ Hs n d Hin) as (f & c & []). by eexists.
    + eexists. split; [done|]. split; [done|]. by cbn.
Qed.
End BusLinksProps.
