(* ===== verification/Channels.v ===== *)
(** * Channels: network/channel.cpp

    The mask of a channel, its optional callbacks and the dispatch of what epoll reports,
    for any callbacks; then that the dispatch used for the links of the bus (BusLinks.v) is
    this one. A callback runs on a state; it may throw, and it may fail ([None]) where it
    would touch a destroyed object. *)

From S2P Require Import Prelude Base BusLinks.
From stdpp Require Import options.

Module Channels.

Definition EPOLLIN : Z := 1.
Definition EPOLLOUT : Z := 4.
Definition EPOLLERR : Z := 8.
Definition EPOLLHUP : Z := 16.
Definition EPOLLRDHUP : Z := 8192.

Section channel.
Context {S : Type}.

Abbreviation callback := (S -> option (bool * S)).

Record Channel := mkChannel {
  fd_ : Z;
  events_ : Z;
  triggered_events_ : Z;
  read_cb_ : option callback;
  write_cb_ : option callback;
  error_cb_ : option callback;
  close_callback_ : option callback
}.

Definition new_channel (fd : Z) : Channel := mkChannel fd 0 0 None None None None.

Definition with_events (e : Z) (c : Channel) : Channel :=
  mkChannel (fd_ c) e (triggered_events_ c) (read_cb_ c) (write_cb_ c) (error_cb_ c) (close_callback_ c).

(** Each of these goes on to [update_channel] of the loop. *)
Definition enable_reading (c : Channel) : Channel := with_events (Z.lor (events_ c) EPOLLIN) c.
Definition enable_writing (c : Channel) : Channel := with_events (Z.lor (events_ c) EPOLLOUT) c.
Definition disable_all (c : Channel) : Channel := with_events 0 c.

Definition set_triggered_events (e : Z) (c : Channel) : Channel :=
  mkChannel (fd_ c) (events_ c) e (read_cb_ c) (write_cb_ c) (error_cb_ c) (close_callback_ c).

Definition has (revents bits : Z) : bool := negb (Z.land revents bits =? 0).

(** A callback that is set: whether it threw, and the state. *)
Definition invoke (cb : option callback) (s : S) : option (bool * S) :=
  match cb with Some f => f s | None => Some (false, s) end.

(** The callbacks are copied first, so that they do not depend on what becomes of the
    channel. *)
Definition handle_event (c : Channel) (s : S) : option (Channel * S) :=
  let revents := triggered_events_ c in
  let c' := set_triggered_events 0 c in
  let done r := snd <$> r in
  (fun s => (c', s)) <$>
  (if has revents EPOLLERR then done (invoke (error_cb_ c) s)
   else if has revents (Z.lor EPOLLHUP EPOLLRDHUP) then
     match close_callback_ c, read_cb_ c with
     | Some f, _ => done (f s)
     | None, Some f => done (f s)
     | None, None => done (invoke (error_cb_ c) s)
     end
   else
     '(thrown, s) ← (if has revents EPOLLIN then invoke (read_cb_ c) s else Some (false, s));
     if thrown : bool then Some s
     else done (if has revents EPOLLOUT then invoke (write_cb_ c) s else Some (false, s))).

(** The mask after any calls: reading and writing are asked for exactly when they were
    enabled after the last time everything was disabled. *)
Inductive mask_call := Reading | Writing | NoEvents.

Definition apply_call (m : mask_call) (c : Channel) : Channel :=
  match m with Reading => enable_reading c | Writing => enable_writing c | NoEvents => disable_all c end.

Fixpoint since_disabled (ms : list mask_call) (last : list mask_call) : list mask_call :=
  match ms with
  | [] => last
  | NoEvents :: ms => since_disabled ms []
  | m :: ms => since_disabled ms (last ++ [m])
  end.

#[export] Instance mask_call_eq_dec : EqDecision mask_call.
Proof. solve_decision. Defined.

Definition mask_of (last : list mask_call) : Z :=
  Z.lor (if bool_decide (Reading ∈ last) then EPOLLIN else 0) (if bool_decide (Writing ∈ last) then EPOLLOUT else 0).

Lemma mask_of_snoc last m :
  mask_of (last ++ [m]) = match m with Reading => Z.lor (mask_of last) EPOLLIN | Writing => Z.lor (mask_of last) EPOLLOUT | NoEvents => mask_of last end.
Proof.
  assert (forall x, x ∈ last ++ [m] <-> x ∈ last \/ x = m) as Hin by (intros x; rewrite elem_of_app, list_elem_of_singleton; done).
  unfold mask_of. rewrite (bool_decide_ext _ _ (Hin Reading)), (bool_decide_ext _ _ (Hin Writing)).
  destruct m; repeat case_bool_decide; try done; exfalso; naive_solver.
Qed.

Theorem channel_mask fd ms :
  events_ (foldl (fun c m => apply_call m c) (new_channel fd) ms) = mask_of (since_disabled ms []).
Proof.
  assert (forall c last, events_ c = mask_of last -> events_ (foldl (fun c m => apply_call m c) c ms) = mask_of (since_disabled ms last)) as H;
    [|by apply H].
  induction ms as [|m ms IH]; intros c last Hc; [done|]. cbn [foldl]. destruct m; cbn [since_disabled]; apply IH; cbn; rewrite ?mask_of_snoc, ?Hc; done.
Qed.

(** A connection that hangs up is never ignored: a channel with a callback for closing,
    for reading or for errors calls one of them, and exactly one. *)
Theorem hang_up_handled c s :
  has (triggered_events_ c) EPOLLERR = false -> has (triggered_events_ c) (Z.lor EPOLLHUP EPOLLRDHUP) = true ->
  (exists f, (close_callback_ c = Some f \/ close_callback_ c = None /\ (read_cb_ c = Some f \/ read_cb_ c = None /\ error_cb_ c = Some f)) /\
    (snd <$> handle_event c s) = snd <$> f s) \/
  (close_callback_ c = None /\ read_cb_ c = None /\ error_cb_ c = None /\ handle_event c s = Some (set_triggered_events 0 c, s)).
Proof.
  intros He Hh. unfold handle_event. rewrite He, Hh.
  destruct (close_callback_ c) as [f|] eqn:H1; [left; exists f; split; [by left|by destruct (f s)]|].
  destruct (read_cb_ c) as [f|] eqn:H2; [left; exists f; split; [right; split; [done|by left]|by destruct (f s)]|].
  destruct (error_cb_ c) as [f|] eqn:H3; [|by right]. left. exists f. split; [right; split; [done|right; done]|]. cbn. by destruct (f s).
Qed.
End channel.

(** The channel of a link of the bus: [register_link_to_loop] sets no callback for closing. *)
Definition link_channel (fd revents : Z) (rd wr : BusLinks.io) (l : nat) : Channel (S := BusLinks.BusLoop) :=
  mkChannel fd (Z.lor EPOLLIN EPOLLOUT) revents (Some (BusLinks.handle_io rd l)) (Some (BusLinks.handle_io wr l))
    (Some (fun s => (fun s => (false, s)) <$> BusLinks.disconnect_and_notify l s)) None.

(** The dispatch of BusLinks.v is [Channel::handle_event] with these callbacks. *)
Theorem link_dispatch_refines fd revents rd wr c l s :
  BusLinks.chan_heap s !! c = Some (BusLinks.mkChannel fd l) ->
  (snd <$> handle_event (link_channel fd revents rd wr l) s) =
    BusLinks.handle_event (has revents EPOLLERR) (has revents (Z.lor EPOLLHUP EPOLLRDHUP)) (has revents EPOLLIN) (has revents EPOLLOUT) rd wr c s.
Proof.
  intros Hc. unfold handle_event, BusLinks.handle_event, link_channel. rewrite Hc. cbn [mbind option_bind BusLinks.ch_link triggered_events_ read_cb_ write_cb_ error_cb_ close_callback_ invoke].
  destruct (has revents EPOLLERR); [by destruct (BusLinks.disconnect_and_notify l s)|].
  destruct (has revents (Z.lor EPOLLHUP EPOLLRDHUP)); [by destruct (BusLinks.handle_io rd l s)|].
  destruct (has revents EPOLLIN); [destruct (BusLinks.handle_io rd l s) as [[[] s']|]|]; try done; cbn;
    (destruct (has revents EPOLLOUT); [by destruct (BusLinks.handle_io wr l _)|done]).
Qed.
End Channels.
