(* ===== verification/OutLinks.v ===== *)
(** * Outbound links and their channels: cluster/cluster_connection.cpp with event_loop.cpp

    A client thread connects to a node ([connect_to_node]: the look-up, the dial, the entry
    in the table, the channel, the entry of the channel), while the thread of the main loop
    dispatches events to links, takes those that go down out of the tables
    ([on_node_disconnected]) and runs the tasks that destroy them, and while other threads
    send over links they hold by a [shared_ptr] or by a bare pointer. Each of these is a
    step, in any order.

    A link is destroyed when its last owner is gone: the table, a queued task, a holder, or
    the thread that dials. An operation that touches a destroyed object is a [Fault]. *)

From S2P Require Import Prelude Base.
From stdpp Require Import options.

Module OutLinks.

Record Channel := mkChannel { ch_fd : Z; ch_link : nat }.

Record OutLink := mkLink { l_name : bytes; l_fd : Z; registered_fd_ : Z; l_connected : bool }.

(** What is queued for the loop: the end of a channel, or a link that is kept till then. *)
Inductive task := DeleteChannel (c : nat) | KeepLink (l : nat).

(** What a callback of a channel comes to. *)
Inductive io := Stays | Down | Throws.

(** Where the thread of the loop is. *)
Inductive place :=
  | Dispatching                                (** between two events *)
  | Draining (todo batch : list task)          (** [batch] was taken, [todo] is left of it *)
  | Calling (l : nat) (calls : list io)        (** the callbacks of one event *)
  | Notifying (l : nat) (calls : list io).     (** in [disconnect_and_notify], past the close *)

(** How far a call of [connect_to_node] is. *)
Inductive dial :=
  | Looked (name : bytes)
  | Dialled (name : bytes) (l : nat)
  | Inserted (name : bytes) (l : nat)
  | Registered (name : bytes) (l : nat) (fd : Z) (c : nat).

Definition dial_name (d : dial) : bytes :=
  match d with Looked n | Dialled n _ | Inserted n _ | Registered n _ _ _ => n end.

Record OutLoop := mkOut {
  channels_ : gmap Z nat;          (** of the event loop *)
  watched : gset Z;                (** the kernel's interest list *)
  pending_tasks_ : list task;
  at_loop : place;
  link_channels_ : gmap Z nat;
  links_ : gmap bytes nat;
  chan_heap : gmap nat Channel;
  link_heap : gmap nat OutLink;
  dials : gmap nat dial;           (** by thread *)
  held : list nat;                 (** the [shared_ptr]s of other threads *)
  bare : list nat;                 (** the bare pointers of other threads *)
  open_fds : gset Z;
  next_id : nat
}.

Definition new_out : OutLoop := mkOut ∅ ∅ [] Dispatching ∅ ∅ ∅ ∅ ∅ [] [] ∅ 0.

Definition with_place (p : place) (s : OutLoop) : OutLoop :=
  mkOut (channels_ s) (watched s) (pending_tasks_ s) p (link_channels_ s) (links_ s) (chan_heap s) (link_heap s)
    (dials s) (held s) (bare s) (open_fds s) (next_id s).
Definition with_dials (d : gmap nat dial) (s : OutLoop) : OutLoop :=
  mkOut (channels_ s) (watched s) (pending_tasks_ s) (at_loop s) (link_channels_ s) (links_ s) (chan_heap s)
    (link_heap s) d (held s) (bare s) (open_fds s) (next_id s).
Definition with_links (ls : gmap bytes nat) (s : OutLoop) : OutLoop :=
  mkOut (channels_ s) (watched s) (pending_tasks_ s) (at_loop s) (link_channels_ s) ls (chan_heap s) (link_heap s)
    (dials s) (held s) (bare s) (open_fds s) (next_id s).
Definition with_held (h : list nat) (s : OutLoop) : OutLoop :=
  mkOut (channels_ s) (watched s) (pending_tasks_ s) (at_loop s) (link_channels_ s) (links_ s) (chan_heap s)
    (link_heap s) (dials s) h (bare s) (open_fds s) (next_id s).
Definition with_bare (b : list nat) (s : OutLoop) : OutLoop :=
  mkOut (channels_ s) (watched s) (pending_tasks_ s) (at_loop s) (link_channels_ s) (links_ s) (chan_heap s)
    (link_heap s) (dials s) (held s) b (open_fds s) (next_id s).
Definition with_tasks (ts : list task) (s : OutLoop) : OutLoop :=
  mkOut (channels_ s) (watched s) ts (at_loop s) (link_channels_ s) (links_ s) (chan_heap s) (link_heap s) (dials s)
    (held s) (bare s) (open_fds s) (next_id s).

Definition queue_in_loop (t : task) (s : OutLoop) : OutLoop := with_tasks (pending_tasks_ s ++ [t]) s.

(** ** Owners *)

Definition kept (ts : list task) : list nat := omap (fun t => match t with KeepLink l => Some l | DeleteChannel _ => None end) ts.
Definition doomed (ts : list task) : list nat := omap (fun t => match t with DeleteChannel c => Some c | KeepLink _ => None end) ts.

(** Tasks live till the end of their round, also those that have run. *)
Definition batch_of (p : place) : list task := match p with Draining _ b => b | _ => [] end.
Definition todo_of (p : place) : list task := match p with Draining t _ => t | _ => [] end.

Definition dialled (m : gmap nat dial) : list nat :=
  omap (fun d => match d with Dialled _ l => Some l | _ => None end) (map_to_list m).*2.

Definition owners (s : OutLoop) : list nat :=
  (map_to_list (links_ s)).*2 ++ kept (pending_tasks_ s) ++ kept (batch_of (at_loop s)) ++ held s ++ dialled (dials s).

(** [~ClusterLink]: a link that is still connected closes its descriptor. *)
Definition delete_link (l : nat) (s : OutLoop) : option OutLoop :=
  lk ← link_heap s !! l;
  let closes := l_connected lk && (0 <=? l_fd lk) in
  Some (mkOut (channels_ s) (if closes then watched s ∖ {[l_fd lk]} else watched s) (pending_tasks_ s) (at_loop s)
    (link_channels_ s) (links_ s) (chan_heap s) (delete l (link_heap s)) (dials s) (held s) (bare s)
    (if closes then open_fds s ∖ {[l_fd lk]} else open_fds s) (next_id s)).

(** An owner is gone: the link is destroyed if it was the last. *)
Definition release (l : nat) (s : OutLoop) : option OutLoop :=
  if bool_decide (l ∈ owners s) then Some s else delete_link l s.

(** Several owners go, and a link that is among them more than once only when the last has gone. *)
Fixpoint release_all (ls : list nat) (s : OutLoop) : option OutLoop :=
  match ls with
  | [] => Some s
  | l :: ls => s ← (if bool_decide (l ∈ ls) then Some s else release l s); release_all ls s
  end.

(** ** connect_to_node *)

Definition lookup (t : nat) (name : bytes) (s : OutLoop) : OutLoop :=
  match links_ s !! name with Some _ => s | None => with_dials (<[t := Looked name]> (dials s)) s end.

(** The constructor of the link and its [connect]; [None] is a failure. *)
Definition dial_out (t : nat) (name : bytes) (fd : option Z) (s : OutLoop) : OutLoop :=
  match fd with
  | None => with_dials (delete t (dials s)) s
  | Some fd =>
      mkOut (channels_ s) (watched s) (pending_tasks_ s) (at_loop s) (link_channels_ s) (links_ s) (chan_heap s)
        (<[next_id s := mkLink name fd fd true]> (link_heap s)) (<[t := Dialled name (next_id s)]> (dials s))
        (held s) (bare s) (open_fds s ∪ {[fd]}) (S (next_id s))
  end.

(** A link that has the name is replaced. *)
Definition insert_link (t : nat) (name : bytes) (l : nat) (s : OutLoop) : option OutLoop :=
  let old := links_ s !! name in
  let s := with_dials (<[t := Inserted name l]> (dials s)) (with_links (<[name := l]> (links_ s)) s) in
  match old with Some old => release old s | None => Some s end.

(** A descriptor that is in the table is only modified, which does nothing to one that is
    not in the interest list. *)
Definition update_channel (c : nat) (ch : Channel) (s : OutLoop) : OutLoop :=
  match channels_ s !! ch_fd ch with
  | None =>
      mkOut (<[ch_fd ch := c]> (channels_ s)) (watched s ∪ {[ch_fd ch]}) (pending_tasks_ s) (at_loop s) (link_channels_ s)
        (links_ s) (chan_heap s) (link_heap s) (dials s) (held s) (bare s) (open_fds s) (next_id s)
  | Some _ => s
  end.

(** [register_link_to_loop] up to the registration with the loop ... *)
Definition register_channel (t : nat) (name : bytes) (l : nat) (s : OutLoop) : option OutLoop :=
  lk ← link_heap s !! l;
  if l_fd lk <? 0 then Some (with_dials (delete t (dials s)) s)
  else
    let c := next_id s in
    let ch := mkChannel (l_fd lk) l in
    Some (update_channel c ch
      (mkOut (channels_ s) (watched s) (pending_tasks_ s) (at_loop s) (link_channels_ s) (links_ s)
        (<[c := ch]> (chan_heap s)) (link_heap s) (<[t := Registered name l (l_fd lk) c]> (dials s)) (held s) (bare s)
        (open_fds s) (S c))).

(** ... and the rest, which has the descriptor in a variable. *)
Definition record_channel (t : nat) (fd : Z) (c : nat) (s : OutLoop) : OutLoop :=
  mkOut (channels_ s) (watched s) (pending_tasks_ s) (at_loop s) (<[fd := c]> (link_channels_ s)) (links_ s)
    (chan_heap s) (link_heap s) (delete t (dials s)) (held s) (bare s) (open_fds s) (next_id s).

(** ** The loop *)

Definition unregister_link_from_loop (l : nat) (s : OutLoop) : option OutLoop :=
  lk ← link_heap s !! l;
  match link_channels_ s !! registered_fd_ lk with
  | None => Some s
  | Some c =>
      ch ← chan_heap s !! c;
      let in_table := bool_decide (is_Some (channels_ s !! ch_fd ch)) in
      Some (queue_in_loop (DeleteChannel c)
        (mkOut (delete (ch_fd ch) (channels_ s)) (if in_table then watched s ∖ {[ch_fd ch]} else watched s)
          (pending_tasks_ s) (at_loop s) (delete (registered_fd_ lk) (link_channels_ s)) (links_ s) (chan_heap s)
          (link_heap s) (dials s) (held s) (bare s) (open_fds s) (next_id s)))
  end.

Definition on_node_disconnected (name : bytes) (l : nat) (s : OutLoop) : option OutLoop :=
  s ← unregister_link_from_loop l s;
  match links_ s !! name with
  | None => Some s
  | Some dying => Some (queue_in_loop (KeepLink dying) (with_links (delete name (links_ s)) s))
  end.

(** [disconnect_and_notify] up to the callback. *)
Definition disconnect (l : nat) (lk : OutLink) (calls : list io) (s : OutLoop) : OutLoop :=
  let closes := 0 <=? l_fd lk in
  mkOut (channels_ s) (if closes then watched s ∖ {[l_fd lk]} else watched s) (pending_tasks_ s) (Notifying l calls)
    (link_channels_ s) (links_ s) (chan_heap s) (<[l := mkLink (l_name lk) (-1) (registered_fd_ lk) false]> (link_heap s))
    (dials s) (held s) (bare s) (if closes then open_fds s ∖ {[l_fd lk]} else open_fds s) (next_id s).

(** One callback; a link that is down already does nothing. *)
Definition call (l : nat) (r : io) (calls : list io) (s : OutLoop) : option OutLoop :=
  lk ← link_heap s !! l;
  if negb (l_connected lk) then Some (with_place (Calling l calls) s)
  else
    match r with
    | Stays => Some (with_place (Calling l calls) s)
    | Down => Some (disconnect l lk calls s)
    | Throws => Some (with_place Dispatching s)
    end.

Definition run_task (t : task) (todo batch : list task) (s : OutLoop) : option OutLoop :=
  match t with
  | KeepLink _ => Some (with_place (Draining todo batch) s)
  | DeleteChannel c =>
      _ ← chan_heap s !! c;
      Some (mkOut (channels_ s) (watched s) (pending_tasks_ s) (Draining todo batch) (link_channels_ s) (links_ s)
        (delete c (chan_heap s)) (link_heap s) (dials s) (held s) (bare s) (open_fds s) (next_id s))
  end.

(** The end of [drain_pending_tasks]: the tasks of the round are destroyed. *)
Definition end_round (batch : list task) (s : OutLoop) : option OutLoop := release_all (kept batch) (with_place Dispatching s).

(** What the loop does next; [Event] names a descriptor and what its callbacks come to. *)
Inductive loop_event := Take | Go | Event (fd : Z) (calls : list io).

Inductive event :=
  | LookUp (t : nat) (name : bytes)
  | Dial (t : nat) (fd : option Z)
  | Advance (t : nat)                          (** the next step of [connect_to_node] *)
  | FindLink (name : bytes)
  | SnapshotLinks
  | UseHeld (i : nat)
  | DropHeld (i : nat)
  | GetLink (name : bytes)
  | UseBare (i : nat)
  | Loop (e : loop_event).

Inductive result := Stuck | Fault | Next (s : OutLoop).

Definition to_result (r : option OutLoop) : result := match r with Some s => Next s | None => Fault end.

Definition loop_step (e : loop_event) (s : OutLoop) : result :=
  match e, at_loop s with
  | Take, Dispatching => Next (with_place (Draining (pending_tasks_ s) (pending_tasks_ s)) (with_tasks [] s))
  | Event fd calls, Dispatching =>
      if bool_decide (fd ∈ watched s) then
        match channels_ s !! fd with
        | None => Next s
        | Some c => to_result (ch ← chan_heap s !! c; Some (with_place (Calling (ch_link ch) calls) s))
        end
      else Stuck
  | Go, Draining (t :: todo) batch => to_result (run_task t todo batch s)
  | Go, Draining [] batch => to_result (end_round batch s)
  | Go, Calling l (r :: calls) => to_result (call l r calls s)
  | Go, Calling l [] => Next (with_place Dispatching s)
  | Go, Notifying l calls =>
      to_result (lk ← link_heap s !! l; s ← on_node_disconnected (l_name lk) l s; Some (with_place (Calling l calls) s))
  | _, _ => Stuck
  end.

(** A descriptor whose channel is with the loop and not yet in [link_channels_]. *)
Definition half_registered (fd : Z) (s : OutLoop) : bool :=
  existsb (fun d => match d with Registered _ _ fd' _ => fd' =? fd | _ => false end) (map_to_list (dials s)).*2.

(** [orderly]: no two threads connect to one node at a time, the system gives no descriptor
    whose channel is still in a table, nothing happens to a link before its channel is
    recorded, and no thread uses a bare pointer. *)
Definition orderly_event (e : event) (s : OutLoop) : bool :=
  match e with
  | LookUp _ name => forallb (fun d => negb (bool_decide (dial_name d = name))) (map_to_list (dials s)).*2
  | Dial _ (Some fd) => bool_decide (channels_ s !! fd = None)
  | GetLink _ | UseBare _ => false
  | Loop (Event fd _) => negb (half_registered fd s)
  | _ => true
  end.

Definition step (e : event) (s : OutLoop) : result :=
  match e with
  | LookUp t name => match dials s !! t with None => Next (lookup t name s) | Some _ => Stuck end
  | Dial t fd =>
      match dials s !! t with
      | Some (Looked name) =>
          if match fd with Some fd => (0 <=? fd) && bool_decide (fd ∉ open_fds s) | None => true end
          then Next (dial_out t name fd s) else Stuck
      | _ => Stuck
      end
  | Advance t =>
      match dials s !! t with
      | Some (Dialled name l) => to_result (insert_link t name l s)
      | Some (Inserted name l) => to_result (register_channel t name l s)
      | Some (Registered name l fd c) => Next (record_channel t fd c s)
      | _ => Stuck
      end
  | FindLink name => match links_ s !! name with Some l => Next (with_held (l :: held s) s) | None => Next s end
  | SnapshotLinks => Next (with_held ((map_to_list (links_ s)).*2 ++ held s) s)
  | UseHeld i => match held s !! i with Some l => to_result (_ ← link_heap s !! l; Some s) | None => Stuck end
  | DropHeld i => match held s !! i with Some l => to_result (release l (with_held (delete i (held s)) s)) | None => Stuck end
  | GetLink name => match links_ s !! name with Some l => Next (with_bare (l :: bare s) s) | None => Next s end
  | UseBare i => match bare s !! i with Some l => to_result (_ ← link_heap s !! l; Some s) | None => Stuck end
  | Loop e => loop_step e s
  end.

Inductive reachable : OutLoop -> Prop :=
  | reach_new : reachable new_out
  | reach_step e s s' : reachable s -> orderly_event e s = true -> step e s = Next s' -> reachable s'.

(** Any run. *)
Definition run (es : list event) : result :=
  foldl (fun r e => match r with Next s => step e s | r => r end) (Next new_out) es.
End OutLinks.
