(* ===== verification/OutLinksProps.v ===== *)
(** * Outbound links are never used after they are destroyed, in orderly runs, and what
    happens in the others *)

From S2P Require Import Prelude Base OutLinks.
From stdpp Require Import options.

Module OutLinksProps.
Import OutLinks.

(** ** Owners *)

Definition owned (l : nat) (s : OutLoop) : Prop :=
  (exists name, links_ s !! name = Some l) \/ l ∈ kept (pending_tasks_ s) \/ l ∈ kept (batch_of (at_loop s)) \/
  l ∈ held s \/ exists t name, dials s !! t = Some (Dialled name l).

Lemma elem_of_values `{Countable K} {A} (m : gmap K A) x : x ∈ (map_to_list m).*2 <-> exists k, m !! k = Some x.
Proof.
  rewrite list_elem_of_fmap. split.
  - intros ([k y] & -> & Hk%elem_of_map_to_list). by exists k.
  - intros [k Hk]. exists (k, x). split; [done|]. by apply elem_of_map_to_list.
Qed.

Lemma elem_of_dialled l m : l ∈ dialled m <-> exists t name, m !! t = Some (Dialled name l).
Proof.
  unfold dialled. rewrite list_elem_of_omap. split.
  - intros (d & [t Ht]%elem_of_values & Hd). destruct d; try done. injection Hd as ->. eauto.
  - intros (t & name & Ht). exists (Dialled name l). split; [|done]. apply elem_of_values. by exists t.
Qed.

Lemma owners_spec l s : l ∈ owners s <-> owned l s.
Proof. unfold owners, owned. rewrite !elem_of_app, elem_of_values, elem_of_dialled. tauto. Qed.

Lemma kept_app ts ts' : kept (ts ++ ts') = kept ts ++ kept ts'.
Proof. apply omap_app. Qed.

Lemma doomed_app ts ts' : doomed (ts ++ ts') = doomed ts ++ doomed ts'.
Proof. apply omap_app. Qed.

(** ** The invariant *)

(** A link that a table or a dial has by its name. *)
Definition tabled (l : nat) (lk : OutLink) (links : gmap bytes nat) (ds : gmap nat dial) : Prop :=
  links !! l_name lk = Some l \/ exists t, ds !! t = Some (Dialled (l_name lk) l).

Definition dial_ok (d : dial) (s : OutLoop) : Prop :=
  match d with
  | Looked name => links_ s !! name = None
  | Dialled name l => links_ s !! name = None /\ exists fd, link_heap s !! l = Some (mkLink name fd fd true) /\ channels_ s !! fd = None
  | Inserted name l => links_ s !! name = Some l /\ exists fd, link_heap s !! l = Some (mkLink name fd fd true) /\ channels_ s !! fd = None
  | Registered name l fd c =>
      links_ s !! name = Some l /\ link_heap s !! l = Some (mkLink name fd fd true) /\ channels_ s !! fd = Some c /\
      link_channels_ s !! fd = None
  end.

Definition place_ok (s : OutLoop) : Prop :=
  match at_loop s with
  | Calling l _ =>
      (exists lk, link_heap s !! l = Some lk /\ l_connected lk = true /\ is_Some (link_channels_ s !! l_fd lk)) \/
      (exists lk, link_heap s !! l = Some lk /\ l_connected lk = false) /\ l ∈ kept (pending_tasks_ s)
  | Notifying l _ =>
      exists name fd, link_heap s !! l = Some (mkLink name (-1) fd false) /\ links_ s !! name = Some l /\ is_Some (link_channels_ s !! fd)
  | _ => True
  end.

(** More links, names and channels do not disturb the thread of the loop. *)
Lemma place_mono s s' :
  place_ok s -> at_loop s' = at_loop s -> pending_tasks_ s' = pending_tasks_ s -> link_heap s ⊆ link_heap s' -> links_ s ⊆ links_ s' ->
  (forall fd, is_Some (link_channels_ s !! fd) -> is_Some (link_channels_ s' !! fd)) -> place_ok s'.
Proof.
  unfold place_ok. intros Hp -> -> Hh Hl Hc. destruct (at_loop s) as [| |l calls|l calls]; [done..| |].
  - destruct Hp as [(lk & H1 & H2 & H3)|[(lk & H1 & H2) H3]]; [left|right; split; [|done]]; exists lk; split_and!; auto;
      by apply (lookup_weaken _ _ _ _ H1).
  - destruct Hp as (name & fd & H1 & H2 & H3). exists name, fd. split_and!; auto; [by apply (lookup_weaken _ _ _ _ H1)|by apply (lookup_weaken _ _ _ _ H2)].
Qed.

Definition condemned (s : OutLoop) : list nat := doomed (pending_tasks_ s) ++ doomed (todo_of (at_loop s)).

(** [ls] are links that have just lost an owner. *)
Record inv (ls : list nat) (s : OutLoop) : Prop := {
  v_link name l : links_ s !! name = Some l ->
    exists lk, link_heap s !! l = Some lk /\ l_name lk = name /\ (l_connected lk = true \/ exists calls, at_loop s = Notifying l calls);
  v_live l lk : link_heap s !! l = Some lk -> l_connected lk = true ->
    l_fd lk = registered_fd_ lk /\ 0 <= l_fd lk /\ l_fd lk ∈ open_fds s /\ tabled l lk (links_ s) (dials s);
  v_fd l l' lk lk' : link_heap s !! l = Some lk -> link_heap s !! l' = Some lk' -> tabled l lk (links_ s) (dials s) -> tabled l' lk' (links_ s) (dials s) ->
    registered_fd_ lk = registered_fd_ lk' -> l = l';
  v_open fd : fd ∈ open_fds s -> exists l lk, link_heap s !! l = Some lk /\ l_connected lk = true /\ l_fd lk = fd;
  v_chan fd c : channels_ s !! fd = Some c ->
    exists l lk, chan_heap s !! c = Some (mkChannel fd l) /\ link_heap s !! l = Some lk /\ registered_fd_ lk = fd /\
      links_ s !! l_name lk = Some l /\ (l_connected lk = true -> fd ∈ watched s) /\
      (link_channels_ s !! fd = Some c \/ exists t, dials s !! t = Some (Registered (l_name lk) l fd c));
  v_rec fd c : link_channels_ s !! fd = Some c -> channels_ s !! fd = Some c;
  v_reg name l lk : links_ s !! name = Some l -> link_heap s !! l = Some lk ->
    is_Some (channels_ s !! registered_fd_ lk) \/ exists t, dials s !! t = Some (Inserted name l);
  v_dial t d : dials s !! t = Some d -> dial_ok d s;
  v_names t t' d d' : dials s !! t = Some d -> dials s !! t' = Some d' -> dial_name d = dial_name d' -> t = t';
  v_condemned c : c ∈ condemned s -> is_Some (chan_heap s !! c) /\ forall fd, channels_ s !! fd <> Some c;
  v_once : NoDup (condemned s);
  v_chans c ch : chan_heap s !! c = Some ch -> channels_ s !! ch_fd ch = Some c \/ c ∈ condemned s;
  v_own l : is_Some (link_heap s !! l) <-> owned l s \/ l ∈ ls;
  v_fresh i : is_Some (chan_heap s !! i) \/ is_Some (link_heap s !! i) -> (i < next_id s)%nat;
  v_place : place_ok s
}.

Lemma out_inv_new : inv [] new_out.
Proof.
  split; try done.
  - by intros c Hc%elem_of_nil.
  - apply NoDup_nil_2.
  - intros l. split; [by intros [x Hx]|]. intros [[[n Hn]|[Hl|[Hl|[Hl|(t & n & Hn)]]]]|Hl]; try done; by apply elem_of_nil in Hl.
  - by intros i [[x Hx]|[x Hx]].
Qed.

(** Links in the tables have one descriptor each. *)
Lemma chan_of name l lk c s ls :
  inv ls s -> links_ s !! name = Some l -> link_heap s !! l = Some lk -> channels_ s !! registered_fd_ lk = Some c ->
  chan_heap s !! c = Some (mkChannel (registered_fd_ lk) l).
Proof.
  intros I Hn Hl Hc. destruct (v_chan _ _ I _ _ Hc) as (l' & lk' & Hch & Hl' & Hfd & Hn' & _).
  destruct (v_link _ _ I _ _ Hn) as (lk0 & H0 & Hnm & _). rewrite Hl in H0. injection H0 as <-.
  rewrite (v_fd _ _ I l l' lk lk' Hl Hl'); [done|left; by rewrite Hnm|by left|done].
Qed.

(** ** A link loses its last owner *)

Lemma out_delete_link_inv l ls s :
  inv (l :: ls) s -> ~ owned l s -> l ∉ ls -> exists s', delete_link l s = Some s' /\ inv ls s'.
Proof.
  intros I Hno Hls. destruct (proj2 (v_own _ _ I l)) as [lk Hlk]; [right; set_solver|].
  assert (l_connected lk = false) as Hcon.
  { destruct (l_connected lk) eqn:Hc; [|done]. destruct (v_live _ _ I l lk Hlk Hc) as (_ & _ & _ & [Hn|(t & Ht)]); destruct Hno; [left|do 4 right]; eauto. }
  unfold delete_link. rewrite Hlk. cbn. rewrite Hcon. cbn. eexists. split; [done|].
  assert (forall l', owned l' s -> l <> l') as Hne by (intros l' Ho <-; done).
  assert (forall name l', links_ s !! name = Some l' -> delete l (link_heap s) !! l' = link_heap s !! l') as Hk.
  { intros name l' Hn. apply lookup_delete_ne, Hne. left. eauto. }
  split; cbn.
  - intros name l' Hn. rewrite (Hk _ _ Hn). by apply (v_link _ _ I).
  - intros l' lk' [_ Hl']%lookup_delete_Some. by apply (v_live _ _ I).
  - intros l1 l2 lk1 lk2 [_ H1]%lookup_delete_Some [_ H2]%lookup_delete_Some. by apply (v_fd _ _ I).
  - intros fd Hfd. destruct (v_open _ _ I fd Hfd) as (l' & lk' & Hl' & Hc' & Hf). exists l', lk'. split; [|done].
    rewrite lookup_delete_ne; [done|]. intros <-. rewrite Hlk in Hl'. injection Hl' as <-. congruence.
  - intros fd c Hc. destruct (v_chan _ _ I fd c Hc) as (l' & lk' & H1 & H2 & H3 & H4 & H5). exists l', lk'. by rewrite (Hk _ _ H4).
  - apply (v_rec _ _ I).
  - intros name l' lk' Hn. rewrite (Hk _ _ Hn). by apply (v_reg _ _ I).
  - intros t d Hd. pose proof (v_dial _ _ I t d Hd) as Hok. destruct d as [name|name l'|name l'|name l' fd c]; cbn in *; [done| | |].
    + rewrite lookup_delete_ne; [done|]. apply Hne. do 4 right. eauto.
    + by rewrite (Hk _ _ (proj1 Hok)).
    + by rewrite (Hk _ _ (proj1 Hok)).
  - apply (v_names _ _ I).
  - apply (v_condemned _ _ I).
  - apply (v_once _ _ I).
  - apply (v_chans _ _ I).
  - intros l'. destruct (decide (l = l')) as [<-|Hl'].
    + rewrite lookup_delete_eq. split; [by intros [? ?]|]. intros [?|?]; done.
    + rewrite lookup_delete_ne by done. rewrite (v_own _ _ I l'). unfold owned. cbn. set_solver.
  - intros i Hi. apply (v_fresh _ _ I). destruct Hi as [?|[x [_ Hx]%lookup_delete_Some]]; eauto.
  - pose proof (v_place _ _ I) as Hp. unfold place_ok in *. cbn. destruct (at_loop s) as [| |l' calls|l' calls] eqn:Hat; [done..| |].
    + destruct Hp as [(lk' & H1 & H2 & H3)|[(lk' & H1 & H2) H3]].
      * left. exists lk'. rewrite lookup_delete_ne; [done|]. intros <-. congruence.
      * right. split; [|done]. exists lk'. rewrite lookup_delete_ne; [done|]. apply Hne. right. by left.
    + destruct Hp as (name & fd & H1 & H2 & H3). exists name, fd. by rewrite (Hk _ _ H2).
Qed.

Lemma release_inv l ls s :
  inv (l :: ls) s -> l ∉ ls -> exists s', release l s = Some s' /\ inv ls s'.
Proof.
  intros I Hls. unfold release. case_bool_decide as Ho; rewrite owners_spec in Ho; [|by apply out_delete_link_inv].
  exists s. split; [done|]. destruct I. split; try done. intros l'. rewrite v_own0. set_solver.
Qed.

Lemma release_all_inv ls s : inv ls s -> exists s', release_all ls s = Some s' /\ inv [] s'.
Proof.
  revert s. induction ls as [|l ls IH]; intros s I; cbn; [by exists s|]. case_bool_decide as Hl.
  - apply IH. destruct I. split; try done. intros l'. rewrite v_own0. set_solver.
  - destruct (release_inv l ls s I Hl) as (s' & -> & I'). by apply IH.
Qed.

(** ** Connecting *)

Definition is_looked (d : dial) : bool := match d with Looked _ => true | _ => false end.

(** A dial that has only looked is nothing to the rest. *)
Lemma looked_inv m ls s :
  inv ls s -> (forall t d, is_looked d = false -> m !! t = Some d <-> dials s !! t = Some d) ->
  (forall t d, m !! t = Some d -> is_looked d = true -> dial_ok d s) ->
  (forall t t' d d', m !! t = Some d -> m !! t' = Some d' -> dial_name d = dial_name d' -> t = t') ->
  inv ls (with_dials m s).
Proof.
  intros I Hm Hl Hn.
  assert (forall l lk, tabled l lk (links_ s) m <-> tabled l lk (links_ s) (dials s)) as Ht.
  { intros l lk. unfold tabled. cbn. by setoid_rewrite (fun t => Hm t (Dialled (l_name lk) l) eq_refl). }
  split; cbn; try apply I.
  - intros l lk. rewrite Ht. apply (v_live _ _ I).
  - intros l l' lk lk'. rewrite !Ht. apply (v_fd _ _ I).
  - intros fd c Hc. destruct (v_chan _ _ I fd c Hc) as (l & lk & H1 & H2 & H3 & H4 & H5 & H6). exists l, lk. split_and!; try done.
    destruct H6 as [?|[t Hd]]; [by left|right]. exists t. by apply Hm.
  - intros name l lk H1 H2. destruct (v_reg _ _ I name l lk H1 H2) as [?|[t Hd]]; [by left|right]. exists t. by apply Hm.
  - intros t d Hd. destruct (is_looked d) eqn:Hld; [exact (Hl t d Hd Hld)|]. apply Hm in Hd; [|done]. exact (v_dial _ _ I t d Hd).
  - done.
  - intros l. rewrite (v_own _ _ I l). unfold owned. cbn. by setoid_rewrite (fun t n => Hm t (Dialled n l) eq_refl).
Qed.

Lemma forallb_dials (f : dial -> bool) s t d : forallb f (map_to_list (dials s)).*2 = true -> dials s !! t = Some d -> f d = true.
Proof. rewrite forallb_forall. intros H Hd. apply H, list_elem_of_In, elem_of_values. by exists t. Qed.

Lemma lookup_inv t name s :
  inv [] s -> dials s !! t = None -> orderly_event (LookUp t name) s = true -> inv [] (lookup t name s).
Proof.
  intros I Ht Ho. unfold lookup. destruct (links_ s !! name) as [l|] eqn:Hn; [done|]. apply looked_inv; [done|..].
  - intros t' d Hd. destruct (decide (t = t')) as [<-|Hne]; [|by rewrite lookup_insert_ne].
    rewrite lookup_insert_eq, Ht. by split; [intros [= <-]|].
  - intros t' d [[<- <-]|[_ Hd]]%lookup_insert_Some Hl; [done|by apply (v_dial _ _ I t')].
  - assert (forall t' d, dials s !! t' = Some d -> dial_name d <> name) as Hno.
    { intros t' d Hd Hnm. pose proof (forallb_dials _ _ _ _ Ho Hd) as Hb. cbn in Hb. by rewrite bool_decide_eq_true_2 in Hb. }
    intros t1 t2 d1 d2 [[<- <-]|[_ H1]]%lookup_insert_Some [[<- <-]|[_ H2]]%lookup_insert_Some Heq; cbn in Heq; try done.
    + by destruct (Hno t2 d2 H2).
    + by destruct (Hno t1 d1 H1).
    + by eapply (v_names _ _ I).
Qed.

Lemma dial_failed_inv t name s : inv [] s -> dials s !! t = Some (Looked name) -> inv [] (with_dials (delete t (dials s)) s).
Proof.
  intros I Ht. apply looked_inv; [done|..].
  - intros t' d Hd. destruct (decide (t = t')) as [<-|Hne]; [|by rewrite lookup_delete_ne].
    rewrite lookup_delete_eq, Ht. split; [done|]. by intros [= <-].
  - intros t' d [_ Hd]%lookup_delete_Some _. by apply (v_dial _ _ I t').
  - intros t1 t2 d1 d2 [_ H1]%lookup_delete_Some [_ H2]%lookup_delete_Some. by apply (v_names _ _ I).
Qed.

(** A dial goes on: its thread has it alone. *)
Lemma names_insert t d d' ls s :
  inv ls s -> dials s !! t = Some d -> dial_name d' = dial_name d ->
  forall t1 t2 d1 d2, <[t := d']> (dials s) !! t1 = Some d1 -> <[t := d']> (dials s) !! t2 = Some d2 ->
    dial_name d1 = dial_name d2 -> t1 = t2.
Proof.
  intros I Ht Hn t1 t2 d1 d2 [[<- <-]|[? H1]]%lookup_insert_Some [[<- <-]|[? H2]]%lookup_insert_Some Heq; try done.
  - apply (v_names _ _ I t t2 d d2); congruence.
  - apply (v_names _ _ I t1 t d1 d); congruence.
  - by eapply (v_names _ _ I).
Qed.

(** A descriptor that is not open and has no channel belongs to no link of the tables. *)
Lemma fd_free fd ls s :
  inv ls s -> fd ∉ open_fds s -> channels_ s !! fd = None ->
  forall l lk, link_heap s !! l = Some lk -> registered_fd_ lk = fd -> ~ tabled l lk (links_ s) (dials s).
Proof.
  intros I Hop Hch l lk Hl Hr Htb. destruct (l_connected lk) eqn:Hc.
  - destruct (v_live _ _ I l lk Hl Hc) as (H1 & _ & H3 & _). congruence.
  - destruct Htb as [Hn|(t' & Hd')].
    + destruct (v_link _ _ I _ _ Hn) as (lk' & Hl' & _ & [Hc'|[calls Hp]]); [congruence|].
      pose proof (v_place _ _ I) as Hpl. unfold place_ok in Hpl. rewrite Hp in Hpl. destruct Hpl as (nm & fd' & H1 & H2 & [c H3]).
      simplify_eq. cbn in Hch. by rewrite (v_rec _ _ I _ _ H3) in Hch.
    + pose proof (v_dial _ _ I _ _ Hd') as (_ & fd' & H1 & _). rewrite Hl in H1. injection H1 as H1. by rewrite H1 in Hc.
Qed.

Lemma dial_out_inv t name fd s :
  inv [] s -> dials s !! t = Some (Looked name) -> 0 <= fd -> fd ∉ open_fds s -> channels_ s !! fd = None ->
  inv [] (dial_out t name (Some fd) s).
Proof.
  intros I Ht Hfd Hop Hch. cbn. set (n := next_id s).
  assert (link_heap s !! n = None) as Hf.
  { destruct (link_heap s !! n) eqn:E; [|done]. assert (n < n)%nat by (apply (v_fresh _ _ I); right; by rewrite E). lia. }
  assert (forall l lk, link_heap s !! l = Some lk -> <[n := mkLink name fd fd true]> (link_heap s) !! l = Some lk) as Hk.
  { intros l lk Hl. rewrite lookup_insert_ne; [done|]. intros <-. congruence. }
  pose proof (v_dial _ _ I t _ Ht) as Hln. cbn in Hln.
  assert (forall t' d, is_looked d = false -> dials s !! t' = Some d -> <[t := Dialled name n]> (dials s) !! t' = Some d) as Hd.
  { intros t' d Hl Hd. rewrite lookup_insert_ne; [done|]. intros <-. rewrite Ht in Hd. by injection Hd as <-. }
  pose proof (fd_free fd [] s I Hop Hch) as Hreg.
  assert (forall l lk, link_heap s !! l = Some lk -> tabled l lk (links_ s) (<[t := Dialled name n]> (dials s)) ->
    tabled l lk (links_ s) (dials s)) as Htab.
  { intros l lk Hl [?|(t' & [[_ [= _ <-]]|[_ ?]]%lookup_insert_Some)]; [by left|congruence|right; eauto]. }
  split; cbn; try apply I.
  - intros nm l Hn. destruct (v_link _ _ I nm l Hn) as (lk & Hl & H'). exists lk. split; [by apply Hk|done].
  - intros l lk [[<- <-]|[_ Hl]]%lookup_insert_Some Hc; cbn.
    + split_and!; [done|done|set_solver|]. right. exists t. apply lookup_insert_eq.
    + destruct (v_live _ _ I l lk Hl Hc) as (? & ? & ? & [?|(t' & Hd')]); split_and!; try done; [set_solver|by left|set_solver|right; eauto].
  - intros l1 l2 lk1 lk2 [[<- <-]|[_ H1]]%lookup_insert_Some [[<- <-]|[_ H2]]%lookup_insert_Some T1 T2 Heq; cbn in Heq; try done.
    + by destruct (Hreg l2 lk2 H2); [|apply Htab].
    + by destruct (Hreg l1 lk1 H1); [|apply Htab].
    + eapply (v_fd _ _ I); eauto.
  - intros x [Hx| ->%elem_of_singleton]%elem_of_union.
    + destruct (v_open _ _ I x Hx) as (l & lk & H1 & H2). exists l, lk. split; [by apply Hk|done].
    + eexists n, _. split; [apply lookup_insert_eq|done].
  - intros x c Hc. destruct (v_chan _ _ I x c Hc) as (l & lk & H1 & H2 & H3 & H4 & H5 & H6). exists l, lk. split_and!; eauto.
    destruct H6 as [?|[t' Hd']]; [by left|right; eauto].
  - intros nm l lk Hn Hl. destruct (v_link _ _ I nm l Hn) as (lk' & Hl' & _). rewrite (Hk _ _ Hl') in Hl. injection Hl as <-.
    destruct (v_reg _ _ I nm l lk' Hn Hl') as [?|[t' Hd']]; [by left|right; eauto].
  - intros t' d [[<- <-]|[Hne Hd']]%lookup_insert_Some; cbn.
    + split; [done|]. exists fd. split; [apply lookup_insert_eq|done].
    + pose proof (v_dial _ _ I t' d Hd') as Hok. destruct d as [nm|nm l|nm l|nm l x c]; cbn in *; [done| | |]; destruct Hok as [H1 H2].
      * destruct H2 as (x & H2 & H3). split; eauto.
      * destruct H2 as (x & H2 & H3). split; eauto.
      * destruct H2 as (H2 & H3). split_and!; eauto; apply H3.
  - exact (names_insert t (Looked name) (Dialled name n) [] s I Ht eq_refl).
  - intros l. destruct (decide (l = n)) as [->|Hne].
    + rewrite lookup_insert_eq. split; [|done]. intros _. left. do 4 right. exists t, name. apply lookup_insert_eq.
    + rewrite lookup_insert_ne by done. rewrite (v_own _ _ I l). unfold owned. cbn. split; (intros [H|?]; [left|by right]).
      * destruct H as [?|[?|[?|[?|(t' & nm & Hd')]]]]; eauto 10.
      * destruct H as [?|[?|[?|[?|(t' & nm & [[_ [= _ <-]]|[_ ?]]%lookup_insert_Some)]]]]; [tauto..|done|do 4 right; eauto].
  - intros i [Hi|[x [[<- _]|[_ Hi]]%lookup_insert_Some]]; [|lia|]; (enough (i < n)%nat by lia; apply (v_fresh _ _ I); eauto).
  - apply (place_mono s); cbn; [apply I|done|done| |done|done]. by apply insert_subseteq.
Qed.

Lemma insert_link_inv t name l s :
  inv [] s -> dials s !! t = Some (Dialled name l) -> exists s', insert_link t name l s = Some s' /\ inv [] s'.
Proof.
  intros I Ht. destruct (v_dial _ _ I t _ Ht) as (Hln & fd & Hl & Hch). unfold insert_link. rewrite Hln. eexists. split; [done|].
  assert (forall l' lk, tabled l' lk (<[name := l]> (links_ s)) (<[t := Inserted name l]> (dials s)) ->
    link_heap s !! l' = Some lk -> tabled l' lk (links_ s) (dials s)) as Htab.
  { intros l' lk [[[Hnm <-]|[_ ?]]%lookup_insert_Some|(t' & [[_ ?]|[_ ?]]%lookup_insert_Some)] _; [right; rewrite <-Hnm; eauto|by left|done|right; eauto]. }
  assert (forall nm l', links_ s !! nm = Some l' -> <[name := l]> (links_ s) !! nm = Some l') as Hk.
  { intros nm l' Hn. rewrite lookup_insert_ne; [done|]. congruence. }
  assert (forall t' d, dials s !! t' = Some d -> d <> Dialled name l -> <[t := Inserted name l]> (dials s) !! t' = Some d) as Hd.
  { intros t' d Hd Hne. rewrite lookup_insert_ne; [done|]. congruence. }
  split; cbn; try apply I.
  - intros nm l' [[<- <-]|[_ Hn]]%lookup_insert_Some; [eauto 10|]. by apply (v_link _ _ I).
  - intros l' lk Hl' Hc. destruct (v_live _ _ I l' lk Hl' Hc) as (? & ? & ? & [?|(t' & Hd')]); split_and!; try done; [left; eauto|].
    destruct (decide (t = t')) as [<-|]; [|right; exists t'; by rewrite lookup_insert_ne].
    rewrite Ht in Hd'. injection Hd' as Hnm <-. left. rewrite <-Hnm. apply lookup_insert_eq.
  - intros l1 l2 lk1 lk2 H1 H2 T1 T2. apply (v_fd _ _ I l1 l2 lk1 lk2 H1 H2); by apply Htab.
  - intros x c Hc. destruct (v_chan _ _ I x c Hc) as (l' & lk & H1 & H2 & H3 & H4 & H5 & H6). exists l', lk. split_and!; eauto.
    destruct H6 as [?|[t' Hd']]; [by left|right; exists t'; by apply Hd].
  - intros nm l' lk [[<- <-]|[_ Hn]]%lookup_insert_Some Hl'; [right; exists t; apply lookup_insert_eq|].
    destruct (v_reg _ _ I nm l' lk Hn Hl') as [?|[t' Hd']]; [by left|right; exists t'; by apply Hd].
  - intros t' d [[<- <-]|[Hne Hd']]%lookup_insert_Some; cbn; [split; [apply lookup_insert_eq|eauto]|].
    assert (dial_name d <> name) as Hnm.
    { intros Heq. apply Hne. by apply (v_names _ _ I t t' (Dialled name l) d). }
    pose proof (v_dial _ _ I t' d Hd') as Hok. destruct d as [nm|nm l'|nm l'|nm l' x c]; cbn in *; by rewrite lookup_insert_ne.
  - exact (names_insert t (Dialled name l) (Inserted name l) [] s I Ht eq_refl).
  - intros l'. rewrite (v_own _ _ I l'). unfold owned. cbn. split; (intros [H|?]; [left|by right]).
    + destruct H as [[nm ?]|[?|[?|[?|(t' & nm & Hd')]]]]; [left; eauto|tauto..|]. destruct (decide (t = t')) as [<-|].
      * rewrite Ht in Hd'. injection Hd' as <- <-. left. exists name. apply lookup_insert_eq.
      * do 4 right. exists t', nm. by rewrite lookup_insert_ne.
    + destruct H as [[nm [[_ <-]|[_ ?]]%lookup_insert_Some]|[?|[?|[?|(t' & nm & [[_ ?]|[_ ?]]%lookup_insert_Some)]]]]; [|by left; eauto|tauto..|done|];
        do 4 right; eauto.
  - apply (place_mono s); cbn; [apply I|done..| |done]. by apply insert_subseteq.
Qed.

Lemma register_channel_inv t name l s :
  inv [] s -> dials s !! t = Some (Inserted name l) -> exists s', register_channel t name l s = Some s' /\ inv [] s'.
Proof.
  intros I Ht. destruct (v_dial _ _ I t _ Ht) as (Hln & fd & Hl & Hch).
  destruct (v_live _ _ I l _ Hl eq_refl) as (_ & Hfd & Hop & _). cbn in Hfd, Hop.
  unfold register_channel. rewrite Hl. cbn. rewrite (proj2 (Z.ltb_ge _ _)) by done. eexists. split; [done|].
  unfold update_channel. cbn. rewrite Hch. set (n := next_id s).
  assert (chan_heap s !! n = None) as Hf.
  { destruct (chan_heap s !! n) eqn:E; [|done]. assert (n < n)%nat by (apply (v_fresh _ _ I); left; by rewrite E). lia. }
  assert (forall c ch, chan_heap s !! c = Some ch -> <[n := mkChannel fd l]> (chan_heap s) !! c = Some ch) as Hk.
  { intros c ch Hc. rewrite lookup_insert_ne; [done|]. intros <-. congruence. }
  assert (forall x c, channels_ s !! x = Some c -> <[fd := n]> (channels_ s) !! x = Some c) as Hc'.
  { intros x c Hx. rewrite lookup_insert_ne; [done|]. congruence. }
  assert (forall t' d, dials s !! t' = Some d -> d <> Inserted name l -> <[t := Registered name l fd n]> (dials s) !! t' = Some d) as Hd.
  { intros t' d Hd Hne. rewrite lookup_insert_ne; [done|]. congruence. }
  assert (link_channels_ s !! fd = None) as Hlc.
  { destruct (link_channels_ s !! fd) eqn:E; [|done]. by rewrite (v_rec _ _ I _ _ E) in Hch. }
  assert (forall l' lk, tabled l' lk (links_ s) (<[t := Registered name l fd n]> (dials s)) <-> tabled l' lk (links_ s) (dials s)) as Htab.
  { intros l' lk. unfold tabled. split; (intros [?|[t' Hd']]; [by left|right]); [|exists t'; by apply Hd].
    apply lookup_insert_Some in Hd' as [[_ ?]|[_ ?]]; [done|eauto]. }
  split; cbn; try apply I.
  - intros l' lk. rewrite Htab. apply (v_live _ _ I).
  - intros l1 l2 lk1 lk2. rewrite !Htab. apply (v_fd _ _ I).
  - intros x c [[<- <-]|[Hne Hx]]%lookup_insert_Some.
    + eexists l, _. split; [apply lookup_insert_eq|]. split; [exact Hl|]. cbn. split_and!; [done|done|set_solver|].
      right. exists t. apply lookup_insert_eq.
    + destruct (v_chan _ _ I x c Hx) as (l' & lk & H1 & H2 & H3 & H4 & H5 & H6). exists l', lk. split_and!; eauto; [set_solver|].
      destruct H6 as [?|[t' Hd']]; [by left|right; exists t'; by apply Hd].
  - intros x c Hx. by apply Hc', (v_rec _ _ I).
  - intros nm l' lk Hn Hl'. destruct (v_reg _ _ I nm l' lk Hn Hl') as [[c Hx]|[t' Hd']]; [left; eauto|].
    destruct (decide (t = t')) as [<-|]; [|right; exists t'; by rewrite lookup_insert_ne].
    rewrite Ht in Hd'. injection Hd' as <- <-. rewrite Hl in Hl'. injection Hl' as <-. left. cbn. by rewrite lookup_insert_eq.
  - intros t' d [[<- <-]|[Hne Hd']]%lookup_insert_Some; cbn; [by rewrite lookup_insert_eq|].
    assert (dial_name d <> name) as Hnm.
    { intros Heq. apply Hne. by apply (v_names _ _ I t t' (Inserted name l) d). }
    assert (forall nm l' x, link_heap s !! l' = Some (mkLink nm x x true) -> nm <> name -> tabled l' (mkLink nm x x true) (links_ s) (dials s) -> fd <> x) as Hx.
    { intros nm l' x Hl' Hn Htb <-. rewrite (v_fd _ _ I l' l _ _ Hl' Hl Htb (or_introl Hln) eq_refl) in Hl'. congruence. }
    pose proof (v_dial _ _ I t' d Hd') as Hok. destruct d as [nm|nm l'|nm l'|nm l' x c]; cbn in *; [done| | |].
    + destruct Hok as (H1 & x & H2 & H3). split; [done|]. exists x. split; [done|]. rewrite lookup_insert_ne; [done|].
      apply (Hx nm l'); [done|done|right; eauto].
    + destruct Hok as (H1 & x & H2 & H3). split; [done|]. exists x. split; [done|]. rewrite lookup_insert_ne; [done|].
      apply (Hx nm l'); [done|done|by left].
    + destruct Hok as (H1 & H2 & H3 & H4). split_and!; eauto.
  - exact (names_insert t (Inserted name l) (Registered name l fd n) [] s I Ht eq_refl).
  - intros c Hc. destruct (v_condemned _ _ I c Hc) as [[ch H1] H2]. split; [rewrite (Hk _ _ H1); eauto|].
    intros x [[_ <-]|[_ Hx]]%lookup_insert_Some; [congruence|by eapply H2].
  - intros c ch [[<- <-]|[_ Hc]]%lookup_insert_Some; [left; apply lookup_insert_eq|].
    destruct (v_chans _ _ I c ch Hc) as [?|?]; [left; eauto|by right].
  - intros l'. rewrite (v_own _ _ I l'). unfold owned. cbn. split; (intros [H|?]; [left|by right]).
    + destruct H as [?|[?|[?|[?|(t' & nm & Hd')]]]]; [tauto..|]. do 4 right. exists t', nm. by apply Hd.
    + destruct H as [?|[?|[?|[?|(t' & nm & [[_ ?]|[_ ?]]%lookup_insert_Some)]]]]; [tauto..|done|]. do 4 right. eauto.
  - intros i [[x [[<- _]|[_ Hi]]%lookup_insert_Some]|Hi]; [lia|..]; (enough (i < n)%nat by lia; apply (v_fresh _ _ I); eauto).
Qed.

Lemma record_channel_inv t name l fd c s :
  inv [] s -> dials s !! t = Some (Registered name l fd c) -> inv [] (record_channel t fd c s).
Proof.
  intros I Ht. destruct (v_dial _ _ I t _ Ht) as (Hln & Hl & Hch & Hlc).
  assert (forall t' d, dials s !! t' = Some d -> d <> Registered name l fd c -> delete t (dials s) !! t' = Some d) as Hd.
  { intros t' d Hd Hne. rewrite lookup_delete_ne; [done|]. congruence. }
  assert (forall l' lk, tabled l' lk (links_ s) (delete t (dials s)) <-> tabled l' lk (links_ s) (dials s)) as Htab.
  { intros l' lk. unfold tabled. split; (intros [?|[t' Hd']]; [by left|right]); [|exists t'; by apply Hd].
    apply lookup_delete_Some in Hd' as [_ ?]. eauto. }
  split; cbn; try apply I.
  - intros l' lk. rewrite Htab. apply (v_live _ _ I).
  - intros l1 l2 lk1 lk2. rewrite !Htab. apply (v_fd _ _ I).
  - intros x c' Hx. destruct (v_chan _ _ I x c' Hx) as (l' & lk & H1 & H2 & H3 & H4 & H5 & H6). exists l', lk. split_and!; eauto.
    destruct (decide (fd = x)) as [<-|]; [left; rewrite lookup_insert_eq; congruence|].
    destruct H6 as [?|[t' Hd']]; [left; by rewrite lookup_insert_ne|right; exists t'; apply Hd; congruence].
  - intros x c' [[<- <-]|[_ Hx]]%lookup_insert_Some; [done|by apply (v_rec _ _ I)].
  - intros nm l' lk Hn Hl'. destruct (v_reg _ _ I nm l' lk Hn Hl') as [?|[t' Hd']]; [by left|right; exists t'; by apply Hd].
  - intros t' d [Hne Hd']%lookup_delete_Some. pose proof (v_dial _ _ I t' d Hd') as Hok.
    destruct d as [nm|nm l'|nm l'|nm l' x c']; cbn in *; [done..|]. destruct Hok as (H1 & H2 & H3 & H4). split_and!; try done.
    rewrite lookup_insert_ne; [done|]. intros <-. assert (l = l') as <-.
    { apply (v_fd _ _ I l l' _ _ Hl H2); [by left|by left|done]. }
    rewrite Hl in H2. injection H2 as <-. apply Hne. by apply (v_names _ _ I t t' _ _ Ht Hd').
  - intros t1 t2 d1 d2 [_ H1]%lookup_delete_Some [_ H2]%lookup_delete_Some. by apply (v_names _ _ I).
  - intros l'. rewrite (v_own _ _ I l'). unfold owned. cbn. split; (intros [H|?]; [left|by right]).
    + destruct H as [?|[?|[?|[?|(t' & nm & Hd')]]]]; [tauto..|]. do 4 right. exists t', nm. by apply Hd.
    + destruct H as [?|[?|[?|[?|(t' & nm & [_ ?]%lookup_delete_Some)]]]]; [tauto..|]. do 4 right. eauto.
  - assert (forall x, is_Some (link_channels_ s !! x) -> is_Some (<[fd := c]> (link_channels_ s) !! x)) as Hs.
    { intros x Hx. destruct (decide (fd = x)) as [<-|]; [rewrite lookup_insert_eq; eauto|by rewrite lookup_insert_ne]. }
    by apply (place_mono s); cbn; [apply I|..].
Qed.

(** ** Holders *)

Lemma held_inv h ls ls' s :
  inv ls s -> (forall l, owned l s \/ l ∈ ls <-> owned l (with_held h s) \/ l ∈ ls') -> inv ls' (with_held h s).
Proof. intros I Ho. split; try apply I. intros l. rewrite <-Ho. apply (v_own _ _ I). Qed.

Lemma hold_inv (h : list nat) s :
  inv [] s -> (forall l, l ∈ h -> owned l s) -> inv [] (with_held (h ++ held s) s).
Proof.
  intros I Hh. apply (held_inv _ [] []); [done|]. intros l. pose proof (Hh l) as Hl. unfold owned in *. cbn. rewrite elem_of_app. tauto.
Qed.

Lemma drop_inv i l s :
  inv [] s -> held s !! i = Some l -> exists s', release l (with_held (delete i (held s)) s) = Some s' /\ inv [] s'.
Proof.
  intros I Hi. apply (release_inv l []); [|set_solver]. apply (held_inv _ [] [l]); [done|]. intros x.
  assert (x ∈ held s <-> x = l \/ x ∈ delete i (held s)) as Hx.
  { pose proof (delete_Permutation _ _ _ Hi) as Hperm. rewrite Hperm at 1. apply elem_of_cons. }
  unfold owned. cbn. rewrite Hx, list_elem_of_singleton. set_solver.
Qed.

(** ** The loop *)

(** The thread of the loop is elsewhere. *)
Lemma place_inv p ls ls' s :
  inv ls s -> (forall l calls, at_loop s <> Notifying l calls) ->
  doomed (todo_of p) = doomed (todo_of (at_loop s)) ->
  (forall l, l ∈ kept (batch_of (at_loop s)) \/ l ∈ ls <-> l ∈ kept (batch_of p) \/ l ∈ ls') ->
  place_ok (with_place p s) -> inv ls' (with_place p s).
Proof.
  intros I Hn Ht Hb Hp. split; unfold condemned; cbn; rewrite ?Ht; try apply I; try done.
  - intros name l Hl. destruct (v_link _ _ I name l Hl) as (lk & H1 & H2 & [H3|[calls H3]]); [eauto 10|by destruct (Hn l calls)].
  - intros l. rewrite (v_own _ _ I l). unfold owned. cbn. specialize (Hb l). tauto.
Qed.

Lemma take_inv s :
  inv [] s -> at_loop s = Dispatching ->
  inv [] (with_place (Draining (pending_tasks_ s) (pending_tasks_ s)) (with_tasks [] s)).
Proof.
  intros I Hp. assert (condemned (with_place (Draining (pending_tasks_ s) (pending_tasks_ s)) (with_tasks [] s)) = condemned s) as Hc.
  { unfold condemned. rewrite Hp. cbn. by rewrite app_nil_r. }
  split; rewrite ?Hc; cbn; try apply I; try done.
  - intros name l Hl. destruct (v_link _ _ I name l Hl) as (lk & H1 & H2 & [H3|[calls H3]]); [eauto 10|congruence].
  - intros l. rewrite (v_own _ _ I l). unfold owned. cbn. rewrite Hp. cbn. tauto.
Qed.

Lemma run_task_inv t todo batch s :
  inv [] s -> at_loop s = Draining (t :: todo) batch -> exists s', run_task t todo batch s = Some s' /\ inv [] s'.
Proof.
  intros I Hp. destruct t as [c|l]; cbn.
  2:{ eexists. split; [done|]. apply (place_inv _ []); [done|by rewrite Hp|by rewrite Hp|by rewrite Hp|done]. }
  destruct (v_condemned _ _ I c) as [[ch Hch] Hno]; [unfold condemned; rewrite Hp; cbn; set_solver|]. rewrite Hch. eexists. split; [done|].
  assert (condemned s ≡ₚ c :: (doomed (pending_tasks_ s) ++ doomed todo)) as Hcon.
  { unfold condemned. rewrite Hp. cbn. symmetry. apply Permutation_middle. }
  pose proof (v_once _ _ I) as Hon. rewrite Hcon in Hon. apply NoDup_cons in Hon as [Hnc Hon].
  assert (forall x d, channels_ s !! x = Some d -> delete c (chan_heap s) !! d = chan_heap s !! d) as Hk.
  { intros x d Hx. apply lookup_delete_ne. intros <-. by apply (Hno x). }
  split; unfold condemned; cbn; try apply I; try done.
  - intros name l Hl. destruct (v_link _ _ I name l Hl) as (lk & H1 & H2 & [H3|[calls H3]]); [eauto 10|congruence].
  - intros x d Hx. rewrite (Hk _ _ Hx). apply (v_chan _ _ I _ _ Hx).
  - intros d Hd. destruct (v_condemned _ _ I d) as [H1 H2]; [rewrite Hcon; by right|]. split; [|done].
    rewrite lookup_delete_ne; [done|]. by intros <-.
  - intros d x [Hne Hd]%lookup_delete_Some. destruct (v_chans _ _ I d x Hd) as [?|Hin]; [by left|right].
    rewrite Hcon in Hin. by apply elem_of_cons in Hin as [?|?].
  - intros l. rewrite (v_own _ _ I l). unfold owned. by rewrite Hp.
  - intros i [[x [_ Hi]%lookup_delete_Some]|Hi]; apply (v_fresh _ _ I); eauto.
Qed.

Lemma end_round_inv batch s :
  inv [] s -> at_loop s = Draining [] batch -> exists s', end_round batch s = Some s' /\ inv [] s'.
Proof.
  intros I Hp. apply release_all_inv. apply (place_inv _ []); [done|by rewrite Hp|by rewrite Hp| |done].
  intros l. rewrite Hp. cbn. set_solver.
Qed.

Lemma event_inv fd calls c s :
  inv [] s -> at_loop s = Dispatching -> orderly_event (Loop (Event fd calls)) s = true -> channels_ s !! fd = Some c ->
  exists ch, chan_heap s !! c = Some ch /\ inv [] (with_place (Calling (ch_link ch) calls) s).
Proof.
  intros I Hp Ho Hc. destruct (v_chan _ _ I fd c Hc) as (l & lk & H1 & H2 & H3 & H4 & _ & H6). exists (mkChannel fd l). split; [done|].
  apply (place_inv _ []); [done|by rewrite Hp|by rewrite Hp|by rewrite Hp|]. left. exists lk. cbn. split; [done|].
  destruct (v_link _ _ I _ _ H4) as (lk' & H2' & _ & [Hcon|[calls' ?]]); [|congruence]. rewrite H2 in H2'. injection H2' as <-.
  split; [done|]. destruct (v_live _ _ I l lk H2 Hcon) as (-> & _). rewrite H3. destruct H6 as [->|[t Ht]]; [eauto|].
  exfalso. cbn in Ho. unfold half_registered in Ho. apply negb_true_iff, not_true_iff_false in Ho. apply Ho. apply existsb_exists.
  eexists. split; [apply list_elem_of_In, elem_of_values; by exists t|]. apply Z.eqb_refl.
Qed.

Lemma disconnect_inv l lk r calls calls' s :
  inv [] s -> at_loop s = Calling l (r :: calls') -> link_heap s !! l = Some lk -> l_connected lk = true ->
  is_Some (link_channels_ s !! l_fd lk) -> inv [] (disconnect l lk calls s).
Proof.
  intros I Hp Hl Hc [c Hlc]. destruct (v_live _ _ I l lk Hl Hc) as (Hreg & Hfd & Hop & Htb).
  pose proof (v_rec _ _ I _ _ Hlc) as Hch. unfold disconnect. rewrite (proj2 (Z.leb_le _ _)) by done.
  assert (links_ s !! l_name lk = Some l) as Hn.
  { destruct Htb as [?|[t Ht]]; [done|]. destruct (v_dial _ _ I _ _ Ht) as (_ & x & H1 & H2). rewrite Hl in H1. injection H1 as H1.
    rewrite H1 in Hch. cbn in Hch. congruence. }
  set (dead := mkLink (l_name lk) (-1) (registered_fd_ lk) false).
  assert (forall l' lk', <[l := dead]> (link_heap s) !! l' = Some lk' ->
    exists lk0, link_heap s !! l' = Some lk0 /\ l_name lk0 = l_name lk' /\ registered_fd_ lk0 = registered_fd_ lk' /\ (l_connected lk' = true -> lk0 = lk' /\ l <> l')) as Hold.
  { intros l' lk' [[<- <-]|[Hne ?]]%lookup_insert_Some; [by exists lk|by exists lk']. }
  assert (forall l' lk', link_heap s !! l' = Some lk' -> l_connected lk' = true -> l <> l' -> l_fd lk' <> l_fd lk) as Hdiff.
  { intros l' lk' Hl' Hc' Hne Heq. destruct (v_live _ _ I l' lk' Hl' Hc') as (Hr' & _ & _ & Ht'). apply Hne.
    apply (v_fd _ _ I l l' lk lk' Hl Hl' Htb Ht'). congruence. }
  split; cbn; try apply I.
  - intros nm l' Hn'. destruct (v_link _ _ I nm l' Hn') as (lk' & H1 & H2 & [H3|[x H3]]); [|congruence].
    destruct (decide (l = l')) as [<-|Hne]; [|exists lk'; rewrite lookup_insert_ne by done; eauto].
    exists dead. rewrite lookup_insert_eq. rewrite Hl in H1. injection H1 as <-. eauto.
  - intros l' lk' H1 H2. destruct (Hold l' lk' H1) as (lk0 & H3 & _ & _ & H4). destruct (H4 H2) as [-> Hne].
    destruct (v_live _ _ I l' lk' H3 H2) as (? & ? & ? & ?). split_and!; try done. pose proof (Hdiff l' lk' H3 H2 Hne). set_solver.
  - intros l1 l2 lk1 lk2 H1 H2 T1 T2 Heq. destruct (Hold l1 lk1 H1) as (k1 & A1 & A2 & A3 & _), (Hold l2 lk2 H2) as (k2 & B1 & B2 & B3 & _).
    apply (v_fd _ _ I l1 l2 k1 k2 A1 B1); [unfold tabled; by rewrite A2|unfold tabled; by rewrite B2|congruence].
  - intros x [Hx Hne]%elem_of_difference. destruct (v_open _ _ I x Hx) as (l' & lk' & H1 & H2 & H3). exists l', lk'.
    rewrite lookup_insert_ne; [done|]. intros <-. rewrite Hl in H1. injection H1 as <-. by apply Hne, elem_of_singleton.
  - intros x c' Hx. destruct (v_chan _ _ I x c' Hx) as (l' & lk' & H1 & H2 & H3 & H4 & H5 & H6). destruct (decide (l = l')) as [<-|Hne].
    + exists l, dead. rewrite lookup_insert_eq. rewrite Hl in H2. injection H2 as <-. split_and!; done.
    + exists l', lk'. rewrite lookup_insert_ne by done. split_and!; try done. intros Hc'. pose proof (Hdiff l' lk' H2 Hc' Hne).
      destruct (v_live _ _ I l' lk' H2 Hc') as (Hr & _). specialize (H5 Hc').
      apply elem_of_difference. split; [done|]. rewrite elem_of_singleton. congruence.
  - intros nm l' lk' H1 H2. destruct (Hold l' lk' H2) as (lk0 & H3 & _ & <- & _). by apply (v_reg _ _ I nm l').
  - intros t d Hd. pose proof (v_dial _ _ I t d Hd) as Hok. destruct d as [nm|nm l'|nm l'|nm l' x c']; cbn in *; [done|..].
    + destruct Hok as (H1 & x & H2 & H3). split; [done|]. exists x. rewrite lookup_insert_ne; [done|]. intros <-. simplify_eq. cbn in *. congruence.
    + destruct Hok as (H1 & x & H2 & H3). split; [done|]. exists x. rewrite lookup_insert_ne; [done|]. intros <-. simplify_eq. cbn in *. congruence.
    + destruct Hok as (H1 & H2 & H3 & H4). split_and!; try done. rewrite lookup_insert_ne; [done|]. intros <-. simplify_eq. cbn in *. congruence.
  - pose proof (v_condemned _ _ I) as H. unfold condemned in *. by rewrite Hp in H.
  - pose proof (v_once _ _ I) as H. unfold condemned in *. by rewrite Hp in H.
  - pose proof (v_chans _ _ I) as H. unfold condemned in *. by rewrite Hp in H.
  - intros l'. pose proof (v_own _ _ I l') as H. unfold owned in *. rewrite Hp in H. cbn in *. rewrite <-H.
    destruct (decide (l = l')) as [<-|]; [rewrite lookup_insert_eq, Hl; split; eauto|by rewrite lookup_insert_ne].
  - intros i [Hi|[x [[<- _]|[_ Hi]]%lookup_insert_Some]]; apply (v_fresh _ _ I); eauto.
  - unfold place_ok. cbn. exists (l_name lk), (registered_fd_ lk). rewrite lookup_insert_eq. split_and!; [done|done|].
    rewrite <-Hreg. eauto.
Qed.

Lemma call_inv l r calls s :
  inv [] s -> at_loop s = Calling l (r :: calls) -> exists s', call l r calls s = Some s' /\ inv [] s'.
Proof.
  intros I Hp. pose proof (v_place _ _ I) as Hok. unfold place_ok in Hok. rewrite Hp in Hok. unfold call.
  assert (forall p, (p = Calling l calls \/ p = Dispatching) -> inv [] (with_place p s)) as Hgo.
  { intros p Hpp. apply (place_inv _ []); [done|by rewrite Hp|by destruct Hpp as [->| ->]; rewrite Hp|by destruct Hpp as [->| ->]; rewrite Hp|].
    by destruct Hpp as [->| ->]. }
  destruct Hok as [(lk & H1 & H2 & H3)|[(lk & H1 & H2) _]]; rewrite H1; cbn; rewrite H2; cbn; [|eauto].
  destruct r; eexists; (split; [done|]); [by apply Hgo; left| |by apply Hgo; right]. by eapply disconnect_inv.
Qed.

(** The link that goes down shares neither its name nor its descriptor. *)
Lemma notifying_alone l name fd ls s :
  inv ls s -> link_heap s !! l = Some (mkLink name (-1) fd false) -> links_ s !! name = Some l ->
  (forall l' lk', link_heap s !! l' = Some lk' -> tabled l' lk' (links_ s) (dials s) -> l' <> l -> l_name lk' <> name /\ registered_fd_ lk' <> fd) /\
  (forall nm l', nm <> name -> links_ s !! nm = Some l' -> l' <> l).
Proof.
  intros I Hl Hn. split.
  - intros l' lk' Hl' Ht Hne. split.
    + intros Heq. destruct Ht as [Ht|[t Ht]]; [congruence|]. pose proof (v_dial _ _ I _ _ Ht) as [H1 _]. congruence.
    + intros Heq. apply Hne. apply (v_fd _ _ I l' l _ _ Hl' Hl Ht); [by left|done].
  - intros nm l' Hne Hn' ->. destruct (v_link _ _ I nm l Hn') as (lk' & H1 & H2 & _). rewrite Hl in H1. injection H1 as <-. by apply Hne.
Qed.

Lemma notify_inv l calls s :
  inv [] s -> at_loop s = Notifying l calls ->
  exists lk s', link_heap s !! l = Some lk /\ on_node_disconnected (l_name lk) l s = Some s' /\ inv [] (with_place (Calling l calls) s').
Proof.
  intros I Hp. pose proof (v_place _ _ I) as Hok. unfold place_ok in Hok. rewrite Hp in Hok. destruct Hok as (name & fd & Hl & Hn & [c Hlc]).
  pose proof (v_rec _ _ I _ _ Hlc) as Hch. pose proof (chan_of name l _ c s [] I Hn Hl Hch) as Hc. cbn in Hc.
  eexists _, _. split; [exact Hl|]. cbn [l_name]. split.
  { unfold on_node_disconnected, unregister_link_from_loop. rewrite Hl. cbn. rewrite Hlc. cbn. rewrite Hc. cbn.
    rewrite Hn. reflexivity. }
  rewrite bool_decide_eq_true_2 by (rewrite Hch; eauto).
  destruct (notifying_alone l name fd [] s I Hl Hn) as [Hother Hnl].
  assert (condemned s = doomed (pending_tasks_ s)) as Hcon by (unfold condemned; rewrite Hp; apply app_nil_r).
  assert (doomed ((pending_tasks_ s ++ [DeleteChannel c]) ++ [KeepLink l]) ++ [] = condemned s ++ [c]) as Hcon'.
  { by rewrite Hcon, app_nil_r, !doomed_app, app_nil_r. }
  assert (forall l', l' ∈ kept ((pending_tasks_ s ++ [DeleteChannel c]) ++ [KeepLink l]) <-> l' ∈ kept (pending_tasks_ s) \/ l' = l) as Hkept.
  { intros l'. rewrite !kept_app, !elem_of_app. cbn. rewrite list_elem_of_singleton. set_solver. }
  split; unfold condemned; cbn -[doomed kept]; try apply I.
  - intros nm l' [Hne Hn']%lookup_delete_Some. destruct (v_link _ _ I nm l' Hn') as (lk' & H1 & H2 & [H3|[x H3]]); [eauto 10|].
    destruct (Hnl nm l'); [done..|congruence].
  - intros l' lk' Hl' Hc'. destruct (v_live _ _ I l' lk' Hl' Hc') as (? & ? & ? & Ht). split_and!; try done.
    destruct (Hother l' lk' Hl' Ht) as [Hnm _]; [intros ->; simplify_eq|]. destruct Ht as [?|?]; [left; by rewrite lookup_delete_ne|by right].
  - intros l1 l2 lk1 lk2 H1 H2 T1 T2. apply (v_fd _ _ I l1 l2 lk1 lk2 H1 H2).
    + destruct T1 as [[_ ?]%lookup_delete_Some|?]; [by left|by right].
    + destruct T2 as [[_ ?]%lookup_delete_Some|?]; [by left|by right].
  - intros x c' [Hne Hx]%lookup_delete_Some. destruct (v_chan _ _ I x c' Hx) as (l' & lk' & H1 & H2 & H3 & H4 & H5 & H6). exists l', lk'.
    assert (l' <> l) as Hll by (intros ->; simplify_eq; done). destruct (Hother l' lk' H2 (or_introl H4) Hll) as [Hnm _].
    split_and!; [done..|by rewrite lookup_delete_ne| |].
    + intros Hc'. specialize (H5 Hc'). apply elem_of_difference. split; [done|]. rewrite elem_of_singleton. congruence.
    + destruct H6 as [?|?]; [left; by rewrite lookup_delete_ne|by right].
  - intros x c' [Hne Hx]%lookup_delete_Some. rewrite lookup_delete_ne by done. by apply (v_rec _ _ I).
  - intros nm l' lk' [Hne Hn']%lookup_delete_Some Hl'. destruct (v_reg _ _ I nm l' lk' Hn' Hl') as [Hx|?]; [left|by right].
    destruct (v_link _ _ I nm l' Hn') as (lk0 & H1 & H2 & _). rewrite Hl' in H1. injection H1 as <-.
    destruct (Hother l' lk' Hl') as [_ Hr]; [left; by rewrite H2|by apply (Hnl nm)|]. by rewrite lookup_delete_ne.
  - intros t d Hd. pose proof (v_dial _ _ I t d Hd) as Hdok. destruct d as [nm|nm l'|nm l'|nm l' x c']; cbn in *.
    + rewrite lookup_delete. by case_decide.
    + destruct Hdok as (H1 & x & H2 & H3). split; [rewrite lookup_delete; by case_decide|]. exists x. split; [done|]. rewrite lookup_delete. by case_decide.
    + destruct Hdok as (H1 & x & H2 & H3). split; [rewrite lookup_delete_ne; [done|intros <-; simplify_eq]|]. exists x. split; [done|]. rewrite lookup_delete. by case_decide.
    + destruct Hdok as (H1 & H2 & H3 & H4). rewrite !lookup_delete_ne; [done|congruence|congruence|intros <-; simplify_eq].
  - intros d Hin. assert (d ∈ condemned s ++ [c]) as [Hd| ->%list_elem_of_singleton]%elem_of_app by (rewrite <-Hcon'; exact Hin).
    + destruct (v_condemned _ _ I d Hd) as [H1 H2]. split; [done|]. intros x [_ Hx]%lookup_delete_Some. by apply (H2 x).
    + split; [eauto|]. intros x [Hne Hx]%lookup_delete_Some. destruct (v_chan _ _ I x c Hx) as (l' & lk' & H1 & _). congruence.
  - cut (NoDup (condemned s ++ [c])); [by rewrite <-Hcon'|]. apply NoDup_app. split; [apply I|]. split; [|apply NoDup_singleton]. intros d Hd ->%list_elem_of_singleton.
    by apply (proj2 (v_condemned _ _ I c Hd) fd).
  - intros d ch Hd. cut (delete fd (channels_ s) !! ch_fd ch = Some d \/ d ∈ condemned s ++ [c]); [by rewrite <-Hcon'|]. destruct (v_chans _ _ I d ch Hd) as [Hx|?]; [|right; apply elem_of_app; by left].
    destruct (decide (ch_fd ch = fd)) as [Heq|]; [|left; by rewrite lookup_delete_ne]. right. apply elem_of_app. right.
    rewrite Heq, Hch in Hx. injection Hx as ->. by apply list_elem_of_singleton.
  - intros l'. rewrite (v_own _ _ I l'). unfold owned. cbn -[kept]. rewrite Hkept, Hp. cbn -[kept]. split; (intros [H|?]; [left|by right]).
    + destruct H as [[nm Hn']|[?|[?|?]]]; [|tauto..]. destruct (decide (nm = name)) as [->|]; [right; left; right; congruence|].
      left. exists nm. by rewrite lookup_delete_ne.
    + destruct H as [[nm [_ Hn']%lookup_delete_Some]|[[?| ->]|[?|?]]]; [left; eauto|tauto|left; eauto|tauto..].
  - right. cbn -[kept]. split; [eauto|]. apply Hkept. by right.
Qed.

(** ** Every step *)

Definition good (r : result) : Prop := match r with Stuck => True | Fault => False | Next s => inv [] s end.

Lemma good_some r : (exists s', r = Some s' /\ inv [] s') -> good (to_result r).
Proof. by intros (s' & -> & I). Qed.

Lemma loop_step_good e s : inv [] s -> orderly_event (Loop e) s = true -> good (loop_step e s).
Proof.
  intros I Ho. unfold loop_step. destruct e as [| |fd calls], (at_loop s) as [|[|t todo] batch|l [|r calls']|l calls'] eqn:Hp; try done.
  - by apply take_inv.
  - by apply good_some, end_round_inv.
  - by apply good_some, run_task_inv.
  - apply (place_inv _ []); [done|by rewrite Hp|by rewrite Hp|by rewrite Hp|done].
  - by apply good_some, call_inv.
  - destruct (notify_inv l calls' s I Hp) as (lk & s' & -> & H1 & H2). cbn. by rewrite H1.
  - case_bool_decide; [|done]. destruct (channels_ s !! fd) as [c|] eqn:Hc; [|done].
    destruct (event_inv fd calls c s I Hp Ho Hc) as (ch & -> & I'). done.
Qed.

Lemma link_owned name l s : links_ s !! name = Some l -> owned l s.
Proof. intros H. left. eauto. Qed.

Lemma step_good e s : inv [] s -> orderly_event e s = true -> good (step e s).
Proof.
  intros I Ho. destruct e as [t name|t fd|t|name| |i|i|name|i|e]; cbn [step].
  - destruct (dials s !! t) eqn:Ht; [done|]. by apply lookup_inv.
  - destruct (dials s !! t) as [[name|name l|name l|name l x c]|] eqn:Ht; try done. destruct fd as [fd|]; [|by eapply dial_failed_inv].
    destruct (0 <=? fd) eqn:Hfd; [|done]. cbn [andb]. case_bool_decide as Hop; [|done]. cbn in Ho.
    apply Z.leb_le in Hfd. apply bool_decide_eq_true in Ho. by apply dial_out_inv.
  - destruct (dials s !! t) as [[name|name l|name l|name l x c]|] eqn:Ht; try done.
    + by apply good_some, insert_link_inv.
    + by apply good_some, register_channel_inv.
    + by eapply record_channel_inv.
  - destruct (links_ s !! name) as [l|] eqn:Hn; [|done]. apply (hold_inv [l] s I). intros x ->%list_elem_of_singleton. by eapply link_owned.
  - apply (hold_inv _ s I). intros x [name Hx]%elem_of_values. by eapply link_owned.
  - destruct (held s !! i) as [l|] eqn:Hi; [|done]. destruct (proj2 (v_own _ _ I l)) as [lk Hl]; [|by rewrite Hl].
    left. do 3 right. left. by eapply list_elem_of_lookup_2.
  - destruct (held s !! i) as [l|] eqn:Hi; [|done]. by apply good_some, drop_inv.
  - done.
  - done.
  - by apply loop_step_good.
Qed.

Lemma out_reachable_inv s : reachable s -> inv [] s.
Proof.
  induction 1 as [|e s s' _ IH Ho Hs]; [apply out_inv_new|]. pose proof (step_good e s IH Ho) as Hg. by rewrite Hs in Hg.
Qed.

(** No thread and no queued task has anything to do with links. *)
Definition quiet (s : OutLoop) : Prop :=
  at_loop s = Dispatching /\ pending_tasks_ s = [] /\ held s = [] /\ dials s = ∅.

(** C21: Outbound links in orderly runs. As long as no two threads connect to one node at
    the same time, the system gives no descriptor whose channel is still in a table of the
    loop, nothing happens on a link before its channel is recorded, and links are held by
    shared pointers: no step touches a destroyed link or channel, whatever the threads do;
    every link of the table that is connected and registered hears its events, through its
    own channel; and when all is quiet the links, the channels and the open descriptors are
    those of the table, so that nothing is lost or left over. (What happens without these
    conditions: [two_connects_fault], [reused_descriptor_deafens],
    [early_event_deafens], [bare_pointer_faults].) *)
Theorem out_links_safe s :
  reachable s ->
  (forall e, orderly_event e s = true -> step e s <> Fault) /\
  (forall name l, links_ s !! name = Some l -> (forall calls, at_loop s <> Notifying l calls) -> (forall t, dials s !! t <> Some (Inserted name l)) ->
    exists fd c, link_heap s !! l = Some (mkLink name fd fd true) /\ fd ∈ watched s /\ channels_ s !! fd = Some c /\ chan_heap s !! c = Some (mkChannel fd l)) /\
  (quiet s ->
    (forall l, is_Some (link_heap s !! l) <-> exists name, links_ s !! name = Some l) /\
    (forall c ch, chan_heap s !! c = Some ch -> link_channels_ s !! ch_fd ch = Some c) /\
    (forall fd, fd ∈ open_fds s <-> is_Some (link_channels_ s !! fd)) /\
    channels_ s = link_channels_ s).
Proof.
  intros I%out_reachable_inv. split_and!.
  - intros e Ho Hs. pose proof (step_good e s I Ho) as Hg. by rewrite Hs in Hg.
  - intros name l Hn Hnot Hins. destruct (v_link _ _ I name l Hn) as (lk & Hl & <- & [Hc|[calls Hp]]); [|by destruct (Hnot calls)].
    destruct (v_live _ _ I l lk Hl Hc) as (Hr & _ & _ & _). destruct (v_reg _ _ I _ l lk Hn Hl) as [[c Hch]|[t Ht]]; [|by destruct (Hins t)].
    pose proof (chan_of _ l lk c s [] I Hn Hl Hch) as Hheap. exists (l_fd lk), c. destruct (v_chan _ _ I _ _ Hch) as (l' & lk' & H1 & H2 & H3 & H4 & H5 & _).
    rewrite Hheap in H1. injection H1 as <-. rewrite Hl in H2. injection H2 as <-. rewrite Hr. split_and!; [|by apply H5|done|done].
    rewrite Hl. destruct lk. cbn in *. by subst.
  - intros (Hp & Ht & Hh & Hd).
    assert (channels_ s = link_channels_ s) as Hsame.
    { apply map_eq. intros fd. apply option_eq. intros c. split; [|apply I]. intros Hc.
      destruct (v_chan _ _ I fd c Hc) as (l & lk & _ & _ & _ & _ & _ & [?|[t Hx]]); [done|]. rewrite Hd in Hx. done. }
    assert (forall l lk, link_heap s !! l = Some lk -> links_ s !! l_name lk = Some l /\ l_connected lk = true) as Hall.
    { intros l lk Hl. destruct (proj1 (v_own _ _ I l)) as [[[name Hn]|[Hx|[Hx|[Hx|(t & n & Hx)]]]]|Hx]; [eauto| |by rewrite ?Ht, ?Hh, ?Hp, ?Hd in Hx; cbn in Hx; set_solver..].
      destruct (v_link _ _ I name l Hn) as (lk' & H1 & H2 & [H3|[calls H3]]); [|congruence]. rewrite Hl in H1. injection H1 as <-. by subst. }
    split_and!; [| | |done].
    + intros l. split; [intros [lk Hl]; destruct (Hall l lk Hl); eauto|]. intros [name Hn]. apply (v_own _ _ I). left. by eapply link_owned.
    + intros c ch Hc. rewrite <-Hsame. destruct (v_chans _ _ I c ch Hc) as [?|Hx]; [done|]. unfold condemned in Hx. rewrite Ht, Hp in Hx. cbn in Hx. by apply elem_of_nil in Hx.
    + intros fd. rewrite <-Hsame. split.
      * intros Hfd. destruct (v_open _ _ I fd Hfd) as (l & lk & Hl & Hc & <-). destruct (v_live _ _ I l lk Hl Hc) as (-> & _).
        destruct (v_reg _ _ I _ l lk (proj1 (Hall l lk Hl)) Hl) as [?|[t Hx]]; [done|]. by rewrite Hd in Hx.
      * intros [c Hc]. destruct (v_chan _ _ I fd c Hc) as (l & lk & _ & Hl & <- & _). destruct (Hall l lk Hl) as [_ Hcon].
        destruct (v_live _ _ I l lk Hl Hcon) as (<- & _ & ? & _). done.
Qed.

(** ** Runs *)

Definition node_a : bytes := lit "a".

(** All of [connect_to_node] at once; an event that takes a link down; a round of tasks. *)
Definition connect (t : nat) (name : bytes) (fd : Z) : list event :=
  [LookUp t name; Dial t (Some fd); Advance t; Advance t; Advance t].
Definition goes_down (fd : Z) : list event := [Loop (Event fd [Down]); Loop Go; Loop Go; Loop Go].
Definition tidy (tasks : nat) : list event := Loop Take :: replicate (S tasks) (Loop Go).

Definition orderly_run (es : list event) : result :=
  foldl (fun r e => match r with Next s => if orderly_event e s then step e s else Stuck | r => r end) (Next new_out) es.

Lemma orderly_run_reachable es s : orderly_run es = Next s -> reachable s.
Proof.
  revert s. induction es as [|e es IH] using rev_ind; intros s; unfold orderly_run; [intros [= <-]; apply reach_new|].
  rewrite foldl_app. cbn. fold (orderly_run es). destruct (orderly_run es) as [| |s0] eqn:E; try done.
  destruct (orderly_event e s0) eqn:Ho; [|done]. intros Hs. by apply (reach_step e s0); [apply IH|..].
Qed.

(** A thread holds the link while it goes down and the tasks run. *)
Lemma out_links_safe_witness :
  exists s, reachable s /\ links_ s = ∅ /\ size (link_heap s) = 1%nat /\ forall e, orderly_event e s = true -> step e s <> Fault.
Proof.
  set (es := connect 1 node_a 5 ++ [FindLink node_a] ++ goes_down 5 ++ tidy 2).
  set (s := match orderly_run es with Next s => s | _ => new_out end).
  assert (reachable s) as Hr by (apply (orderly_run_reachable es); vm_compute; reflexivity).
  exists s. split; [exact Hr|]. split; [vm_compute; reflexivity|]. split; [vm_compute; reflexivity|]. exact (proj1 (out_links_safe s Hr)).
Defined.

(** A link that is in the table and connected, and of which the loop will hear nothing. *)
Definition deaf (name : bytes) (s : OutLoop) : Prop :=
  quiet s /\ exists l fd, links_ s !! name = Some l /\ link_heap s !! l = Some (mkLink name fd fd true) /\ (fd ∉ watched s).

Ltac deaf_run := eexists; split; [vm_compute; reflexivity|]; split; [by vm_compute|];
  eexists _, _; split; [vm_compute; reflexivity|]; split; [vm_compute; reflexivity|]; apply (bool_decide_unpack _); vm_compute; reflexivity.

(** The loop reports an event on a link before [register_link_to_loop] has recorded the
    channel: the link goes away and its channel stays, and the next link that gets the
    same descriptor is deaf. *)
Theorem early_event_deafens :
  exists s, run ([LookUp 1 node_a; Dial 1 (Some 5); Advance 1; Advance 1] ++ goes_down 5 ++ [Advance 1] ++ tidy 1 ++ connect 1 node_a 5) = Next s /\
    deaf node_a s.
Proof. deaf_run. Qed.

(** A link is closed before its channel leaves the table: a new link that gets the
    descriptor in between is deaf. *)
Theorem reused_descriptor_deafens :
  exists s, run (connect 1 node_a 5 ++ [Loop (Event 5 [Down]); Loop Go; LookUp 2 (lit "b"); Dial 2 (Some 5); Advance 2; Advance 2;
      Loop Go; Loop Go; Advance 2] ++ tidy 2) = Next s /\ deaf (lit "b") s.
Proof. deaf_run. Qed.

(** Two threads connect to one node: the second link replaces and destroys the first while
    the first thread still has its bare pointer. *)
Theorem two_connects_fault :
  run [LookUp 1 node_a; LookUp 2 node_a; Dial 1 (Some 5); Dial 2 (Some 6); Advance 1; Advance 2; Advance 1] = Fault.
Proof. vm_compute. reflexivity. Qed.

(** [send_to_node], [ping_node], [pong_node] and [meet_node] send over a bare pointer. *)
Theorem bare_pointer_faults : run (connect 1 node_a 5 ++ [GetLink node_a] ++ goes_down 5 ++ tidy 2 ++ [UseBare 0]) = Fault.
Proof. vm_compute. reflexivity. Qed.
End OutLinksProps.
