(* ===== verification/Reactor.v ===== *)
(** * Reactors: network/main_reactor.cpp, sub_reactor_pool.cpp, sub_reactor.cpp, with
    network/event_loop.cpp and the life of a Connection (network/connection.cpp)

    The thread that accepts clients and the loop thread of a sub-reactor, interleaved: an
    accepted descriptor is handed over as a task, the loop registers it, dispatches
    events, closes connections and destroys them with a later round of tasks. Closing is
    two steps, between which the accepting thread can get the same descriptor again. A
    step that touches a destroyed connection is a [Fault]. A channel belongs to its
    connection and has its life. What a handler does with the bytes is in Connection.v. *)

From S2P Require Import Prelude Base.
From stdpp Require Import options.

Module Reactor.

Record Conn := mkConn { c_fd : Z; c_closed : bool }.

(** What is queued for the loop: a registration, or a connection that is kept until the
    queue is gone. *)
Inductive task := Register (fd : Z) | Keep (c : nat).

(** Where the loop thread is: in [epoll_wait], running tasks, destroying what they kept,
    dispatching events. *)
Inductive phase := Polling | Draining | Destroying | Dispatching.

Record SubReactor := mkReactor {
  channels_ : gmap Z nat;          (** channels by descriptor: those of the connections *)
  pending_tasks_ : list task;
  running : list task;             (** taken from the queue and not yet run *)
  kept : list nat;                 (** connections the tasks that ran have kept *)
  at_phase : phase;
  closing : option (Z * nat);      (** a [close] that has yet to call back: the number it captured, and the
                                       connection, to whose handler it returns *)
  connections_ : gmap Z nat;
  connection_count_ : Z;
  conn_heap : gmap nat Conn;
  open_fds : gset Z;
  next_conn : nat
}.

Definition new_reactor : SubReactor := mkReactor ∅ [] [] [] Polling None ∅ 0 ∅ ∅ 0.

(** The result of a step: not possible here, a touch of a destroyed object, or a state. *)
Inductive result := Stuck | Fault | Next (s : SubReactor).

(** [add_connection] on the accepting thread, before the loop quits. *)
Definition add_connection (fd : Z) (s : SubReactor) : SubReactor :=
  mkReactor (channels_ s) (pending_tasks_ s ++ [Register fd]) (running s) (kept s) (at_phase s) (closing s)
    (connections_ s) (connection_count_ s) (conn_heap s) (open_fds s ∪ {[fd]}) (next_conn s).

(** The tasks are swapped out of the queue. *)
Definition take_tasks (s : SubReactor) : SubReactor :=
  mkReactor (channels_ s) [] (pending_tasks_ s) (kept s) Draining (closing s)
    (connections_ s) (connection_count_ s) (conn_heap s) (open_fds s) (next_conn s).

Definition with_phase (p : phase) (s : SubReactor) : SubReactor :=
  mkReactor (channels_ s) (pending_tasks_ s) (running s) (kept s) p (closing s)
    (connections_ s) (connection_count_ s) (conn_heap s) (open_fds s) (next_conn s).

(** [~Connection] and [~Socket]. *)
Definition destroy (c : nat) (s : SubReactor) : option SubReactor :=
  match conn_heap s !! c with
  | None => None
  | Some x =>
      let h := delete c (conn_heap s) in
      Some (if c_closed x
            then mkReactor (channels_ s) (pending_tasks_ s) (running s) (kept s) (at_phase s) (closing s)
                   (connections_ s) (connection_count_ s) h (open_fds s) (next_conn s)
            else mkReactor (delete (c_fd x) (channels_ s)) (pending_tasks_ s) (running s) (kept s) (at_phase s) (closing s)
                   (connections_ s) (connection_count_ s) h (open_fds s ∖ {[c_fd x]}) (next_conn s))
  end.

(** A connection that is in the table under the same number is replaced and destroyed;
    a channel that is in the loop's table stays there. *)
Definition register_connection (fd : Z) (s : SubReactor) : option SubReactor :=
  let c := next_conn s in
  let chs := match channels_ s !! fd with None => <[fd := c]> (channels_ s) | Some _ => channels_ s end in
  let s' := mkReactor chs (pending_tasks_ s) (running s) (kept s) (at_phase s) (closing s)
              (<[fd := c]> (connections_ s)) (connection_count_ s + 1) (<[c := mkConn fd false]> (conn_heap s))
              (open_fds s) (S c) in
  match connections_ s !! fd with
  | Some old => destroy old s'
  | None => Some s'
  end.

Definition remove_connection (fd : Z) (s : SubReactor) : SubReactor :=
  match connections_ s !! fd with
  | None => s
  | Some c =>
      mkReactor (channels_ s) (pending_tasks_ s ++ [Keep c]) (running s) (kept s) (at_phase s) (closing s)
        (delete fd (connections_ s)) (connection_count_ s - 1) (conn_heap s) (open_fds s) (next_conn s)
  end.

Definition to_result (r : option SubReactor) : result := match r with Some s => Next s | None => Fault end.

(** The next task, or the end of them. *)
Definition run_task (s : SubReactor) : result :=
  match running s with
  | [] => Next (with_phase Destroying s)
  | t :: rest =>
      let s := mkReactor (channels_ s) (pending_tasks_ s) rest (kept s) (at_phase s) (closing s)
                 (connections_ s) (connection_count_ s) (conn_heap s) (open_fds s) (next_conn s) in
      match t with
      | Register fd => to_result (register_connection fd s)
      | Keep c =>
          Next (mkReactor (channels_ s) (pending_tasks_ s) (running s) (kept s ++ [c]) (at_phase s) (closing s)
                  (connections_ s) (connection_count_ s) (conn_heap s) (open_fds s) (next_conn s))
      end
  end.

(** The next of the kept connections, or the end of them. *)
Definition destroy_kept (s : SubReactor) : result :=
  match kept s with
  | [] => Next (with_phase Dispatching s)
  | c :: rest =>
      to_result (destroy c
        (mkReactor (channels_ s) (pending_tasks_ s) (running s) rest (at_phase s) (closing s)
          (connections_ s) (connection_count_ s) (conn_heap s) (open_fds s) (next_conn s)))
  end.

(** What an event comes to: the handler stays, or it calls [close]; an error or a hang-up
    calls back without [close]. *)
Inductive outcome := Stays | Closes | HangsUp.

(** The first step of [close]: the flag, the channel, the descriptor. *)
Definition close_begin (c : nat) (x : Conn) (s : SubReactor) : SubReactor :=
  if c_closed x then s
  else
    mkReactor (delete (c_fd x) (channels_ s)) (pending_tasks_ s) (running s) (kept s) (at_phase s) (Some (c_fd x, c))
      (connections_ s) (connection_count_ s) (<[c := mkConn (c_fd x) true]> (conn_heap s))
      (open_fds s ∖ {[c_fd x]}) (next_conn s).

Definition handle_event (fd : Z) (o : outcome) (s : SubReactor) : result :=
  match channels_ s !! fd with
  | None => Next s
  | Some c =>
      match conn_heap s !! c with
      | None => Fault
      | Some x =>
          match o with
          | Stays => Next s
          | Closes => Next (close_begin c x s)
          | HangsUp =>
              let s := remove_connection (c_fd x) s in
              match conn_heap s !! c with None => Fault | Some _ => Next s end
          end
      end
  end.

(** The second step of [close]: the callback, and the return to the handler, which looks at
    its connection again (the test of [closed_], the callback for writing). *)
Definition close_notify (s : SubReactor) : result :=
  match closing s with
  | None => Stuck
  | Some (fd, c) =>
      let s := remove_connection fd s in
      match conn_heap s !! c with
      | None => Fault
      | Some _ =>
          Next (mkReactor (channels_ s) (pending_tasks_ s) (running s) (kept s) (at_phase s) None
                  (connections_ s) (connection_count_ s) (conn_heap s) (open_fds s) (next_conn s))
      end
  end.

Inductive event :=
  | Accepted (fd : Z)                     (** on the accepting thread *)
  | TakeTasks | RunTask | DestroyKept     (** on the loop thread *)
  | Ready (fd : Z) (o : outcome) | Notify | EndBatch.

Definition step (ev : event) (s : SubReactor) : result :=
  match ev, at_phase s, closing s with
  | Accepted fd, _, _ => if bool_decide (fd ∈ open_fds s) then Stuck else Next (add_connection fd s)
  | TakeTasks, Polling, None => Next (take_tasks s)
  | RunTask, Draining, None => run_task s
  | DestroyKept, Destroying, None => destroy_kept s
  | Ready fd o, Dispatching, None => handle_event fd o s
  | Notify, Dispatching, Some _ => close_notify s
  | EndBatch, Dispatching, None => Next (with_phase Polling s)
  | _, _, _ => Stuck
  end.

Inductive reachable : SubReactor -> Prop :=
  | reach_new : reachable new_reactor
  | reach_step ev s s' : reachable s -> step ev s = Next s' -> reachable s'.

(** ** The choice of a reactor *)

(** [next_index_.fetch_add(1)] in 64 bits: the reactor and the next index. *)
Definition get_next_reactor (reactors : Z) (next_index : Z) : Z * Z :=
  (next_index mod reactors, (next_index + 1) mod 18446744073709551616).

Fixpoint assign (n : nat) (reactors next_index : Z) : list Z :=
  match n with
  | O => []
  | S n => let '(r, next_index) := get_next_reactor reactors next_index in r :: assign n reactors next_index
  end.
End Reactor.
