(* ===== verification/ReactorProps.v ===== *)
(** * Every accepted connection has one owner, from the queue to its destruction *)

From S2P Require Import Prelude Base Reactor.
From stdpp Require Import options.

Module ReactorProps.
Import Reactor.

Definition keeps (t : task) : option nat := match t with Keep c => Some c | Register _ => None end.
Definition registers (t : task) : option Z := match t with Register fd => Some fd | Keep _ => None end.

(** The connections that wait for their destruction, and the descriptors that wait for
    their registration. *)
Definition doomed (s : SubReactor) : list nat := omap keeps (pending_tasks_ s) ++ omap keeps (running s) ++ kept s.
Definition queued (s : SubReactor) : list Z := omap registers (pending_tasks_ s) ++ omap registers (running s).

Record inv (D : list nat) (Q : list Z) (s : SubReactor) : Prop := {
  i_conns fd c : connections_ s !! fd = Some c ->
    (c ∉ D) /\ exists x, conn_heap s !! c = Some x /\ c_fd x = fd /\ (c_closed x = false \/ closing s = Some (fd, c));
  i_chans fd c : channels_ s !! fd = Some c -> conn_heap s !! c = Some (mkConn fd false);
  i_live c x : conn_heap s !! c = Some x ->
    (connections_ s !! c_fd x = Some c \/ c ∈ D) /\ (c_closed x = false -> channels_ s !! c_fd x = Some c);
  i_doomed c : c ∈ D -> is_Some (conn_heap s !! c);
  i_once : NoDup D /\ NoDup Q;
  i_queued fd : fd ∈ Q -> channels_ s !! fd = None;
  i_open fd : fd ∈ open_fds s <-> is_Some (channels_ s !! fd) \/ fd ∈ Q;
  i_count : connection_count_ s = Z.of_nat (size (connections_ s));
  i_fresh c : is_Some (conn_heap s !! c) -> (c < next_conn s)%nat;
  i_closing fd c : closing s = Some (fd, c) -> is_Some (conn_heap s !! c)
}.

Record phase_ok (s : SubReactor) : Prop := {
  p_closing : closing s <> None -> at_phase s = Dispatching;
  p_running : running s <> [] -> at_phase s = Draining;
  p_kept : kept s <> [] -> at_phase s = Draining \/ at_phase s = Destroying
}.

Definition reactor_ok (s : SubReactor) : Prop := inv (doomed s) (queued s) s /\ phase_ok s.

Lemma new_reactor_ok : reactor_ok new_reactor.
Proof.
  split; [|by split]. split; try done.
  - by intros c Hc%elem_of_nil.
  - split; apply NoDup_nil_2.
  - intros fd. split; [by intros ?%elem_of_empty|]. intros [[c Hc]|H]; [done|]. by apply elem_of_nil in H.
  - intros c [x Hx]. by vm_compute in Hx.
Qed.

(** The invariant looks at the maps only, and at the queues as bags. *)
Lemma inv_ext D D' Q Q' s s' :
  inv D Q s -> D ≡ₚ D' -> Q ≡ₚ Q' ->
  channels_ s' = channels_ s -> connections_ s' = connections_ s -> conn_heap s' = conn_heap s -> closing s' = closing s ->
  open_fds s' = open_fds s -> connection_count_ s' = connection_count_ s -> next_conn s' = next_conn s -> inv D' Q' s'.
Proof.
  intros [H1 H2 H3 H4 [H5a H5b] H6 H7 H8 H9 H10] HD HQ E1 E2 E3 E4 E5 E6 E7.
  split; rewrite ?E1, ?E2, ?E3, ?E4, ?E5, ?E6, ?E7.
  - intros fd c Hc. rewrite <-HD. by apply H1.
  - exact H2.
  - intros c x Hc. rewrite <-HD. by apply H3.
  - intros c Hc. rewrite <-HD in Hc. by apply H4.
  - by rewrite <-HD, <-HQ.
  - intros fd Hfd. rewrite <-HQ in Hfd. by apply H6.
  - intros fd. rewrite <-HQ. apply H7.
  - exact H8.
  - exact H9.
  - exact H10.
Qed.

Lemma register_inv D Q fd s :
  inv D (fd :: Q) s -> closing s = None ->
  exists s', register_connection fd s = Some s' /\ inv D Q s' /\
    pending_tasks_ s' = pending_tasks_ s /\ running s' = running s /\ kept s' = kept s /\ at_phase s' = at_phase s /\ closing s' = closing s.
Proof.
  intros [H1 H2 H3 H4 [H5a [H5q H5b]%NoDup_cons] H6 H7 H8 H9 H10] Hcl.
  assert (channels_ s !! fd = None) as Hch by (apply H6; set_solver).
  assert (connections_ s !! fd = None) as Hco.
  { destruct (connections_ s !! fd) as [c|] eqn:E; [|done]. destruct (H1 fd c E) as (_ & x & Hx & <- & Hcs).
    destruct (H3 c x Hx) as [_ Hun]. rewrite Hcl in Hcs. destruct Hcs as [Hcs|Hcs]; [|done]. specialize (Hun Hcs). congruence. }
  assert (conn_heap s !! next_conn s = None) as Hfresh.
  { apply eq_None_not_Some. intros H%H9. lia. }
  unfold register_connection. rewrite Hch, Hco. eexists. split; [done|]. split; [|done].
  assert (next_conn s ∉ D) as HnD by (intros H%H4; rewrite Hfresh in H; by destruct H).
  split; cbn.
  - intros f c [[<- <-]|[Hne Hc]]%lookup_insert_Some.
    + split; [done|]. rewrite lookup_insert_eq. eexists; split_and!; [done|done|by left].
    + destruct (H1 f c Hc) as (Hd & x & Hx & Hrest). split; [done|]. exists x. rewrite lookup_insert_ne; [done|]. congruence.
  - intros f c [[<- <-]|[Hne Hc]]%lookup_insert_Some; [apply lookup_insert_eq|].
    rewrite lookup_insert_ne; [by apply H2|]. intros E. apply H2 in Hc. congruence.
  - intros c x [[<- <-]|[Hne Hc]]%lookup_insert_Some; cbn; [rewrite !lookup_insert_eq; by split; [left|]|].
    destruct (H3 c x Hc) as [Ho Hu]. split.
    + destruct Ho as [Ho|]; [|by right]. left. rewrite lookup_insert_ne; [done|]. congruence.
    + intros Hcl0. specialize (Hu Hcl0). rewrite lookup_insert_ne; [done|]. congruence.
  - intros c Hc. destruct (H4 c Hc) as [x Hx]. rewrite lookup_insert_ne; [by eexists|]. congruence.
  - done.
  - intros f Hf. rewrite lookup_insert_ne; [apply H6; set_solver|]. by intros <-.
  - intros f. rewrite H7, elem_of_cons, lookup_insert. destruct (decide (fd = f)) as [<-|Hne]; [|naive_solver].
    split; [intros _; left; by eexists|]. intros _. right. by left.
  - rewrite map_size_insert_None by done. lia.
  - intros c [x [[<- _]|[_ Hx]]%lookup_insert_Some]; [lia|]. specialize (H9 c ltac:(by eexists)). lia.
  - congruence.
Qed.

Lemma destroy_inv c D Q s :
  inv (c :: D) Q s -> closing s = None ->
  exists s', destroy c s = Some s' /\ inv D Q s' /\
    pending_tasks_ s' = pending_tasks_ s /\ running s' = running s /\ kept s' = kept s /\ at_phase s' = at_phase s /\ closing s' = closing s.
Proof.
  intros [H1 H2 H3 H4 [[Hcd H5a]%NoDup_cons H5b] H6 H7 H8 H9 H10] Hcl.
  destruct (H4 c ltac:(set_solver)) as [x Hx]. destruct (H3 c x Hx) as [_ Hu].
  assert (forall f c', connections_ s !! f = Some c' -> c' <> c) as Hco by (intros f c' Hc ->; destruct (H1 f c Hc); set_solver).
  assert (forall f c', connections_ s !! f = Some c' -> (c' ∉ D) /\
    exists y, delete c (conn_heap s) !! c' = Some y /\ c_fd y = f /\ (c_closed y = false \/ closing s = Some (f, c'))) as Hconns.
  { intros f c' Hc. destruct (H1 f c' Hc) as (Hd & y & Hy & Hrest). split; [set_solver|]. exists y.
    rewrite lookup_delete_ne; [done|]. apply not_eq_sym. by eapply Hco. }
  unfold destroy. rewrite Hx. destruct (c_closed x) eqn:Ecl; (eexists; split; [done|]; split; [|done]); split; cbn; try done; try by rewrite Hcl.
  - intros f c' Hc. rewrite lookup_delete_ne; [by apply H2|]. intros <-. apply H2 in Hc. rewrite Hx in Hc. by injection Hc as ->.
  - intros c' y [Hne Hy]%lookup_delete_Some. destruct (H3 c' y Hy) as [[Ho|Ho] Hun]; (split; [|done]); [by left|right; set_solver].
  - intros c' Hc. rewrite lookup_delete_ne; [apply H4; set_solver|]. by intros <-.
  - intros c' [y [_ Hy]%lookup_delete_Some]. apply H9. by eexists.
  - intros f c' [Hne Hc]%lookup_delete_Some. rewrite lookup_delete_ne; [by apply H2|]. intros <-.
    apply H2 in Hc. rewrite Hx in Hc. by injection Hc as ->.
  - intros c' y [Hne Hy]%lookup_delete_Some. destruct (H3 c' y Hy) as [Ho Hun]. split.
    + destruct Ho as [Ho|Ho]; [by left|right; set_solver].
    + intros Hcy. specialize (Hun Hcy). apply lookup_delete_Some. split; [|done]. intros E. rewrite <-E, (Hu eq_refl) in Hun. congruence.
  - intros c' Hc. rewrite lookup_delete_ne; [apply H4; set_solver|]. by intros <-.
  - intros f Hf. rewrite lookup_delete. case_decide; [done|]. by apply H6.
  - intros f. rewrite elem_of_difference, elem_of_singleton, H7, lookup_delete. destruct (decide (c_fd x = f)) as [<-|Hne].
    + split; [naive_solver|]. intros [[? [=]]|Hq]. apply H6 in Hq. rewrite (Hu eq_refl) in Hq. done.
    + naive_solver.
  - intros c' [y [_ Hy]%lookup_delete_Some]. apply H9. by eexists.
Qed.

(** A connection out of the table is on its way to its destruction. *)
Lemma remove_inv D Q fd c s :
  inv D Q s -> connections_ s !! fd = Some c -> inv (c :: D) Q (remove_connection fd s).
Proof.
  intros [H1 H2 H3 H4 [H5a H5b] H6 H7 H8 H9 H10] Hc. unfold remove_connection. rewrite Hc.
  destruct (H1 fd c Hc) as (Hd & x & Hx & Hfd & _). split; cbn; try done.
  - intros f c' [Hne Hc']%lookup_delete_Some. destruct (H1 f c' Hc') as (Hd' & y & Hy & Hyf & Hrest). split; [|by exists y].
    rewrite not_elem_of_cons. split; [|done]. intros ->. rewrite Hx in Hy. congruence.
  - intros c' y Hy. destruct (H3 c' y Hy) as [[Ho|Ho] Hun]; (split; [|done]); [|right; set_solver].
    destruct (decide (c_fd y = fd)) as [E|Hne]; [right|left; by rewrite lookup_delete_ne].
    rewrite E, Hc in Ho. injection Ho as ->. set_solver.
  - intros c' [-> |Hc']%elem_of_cons; [by eexists|by apply H4].
  - split; [|done]. by apply NoDup_cons.
  - rewrite H8, map_size_delete_Some by by eexists.
    assert (size (connections_ s) <> 0%nat) by (intros E; apply map_size_empty_inv in E; rewrite E in Hc; by rewrite lookup_empty in Hc). lia.
Qed.

Lemma close_begin_inv D Q c x s :
  inv D Q s -> closing s = None -> conn_heap s !! c = Some x -> c_closed x = false -> inv D Q (close_begin c x s).
Proof.
  intros [H1 H2 H3 H4 H5 H6 H7 H8 H9 H10] Hcl Hx Hun. unfold close_begin. rewrite Hun.
  assert (channels_ s !! c_fd x = Some c) as Hch by by apply (H3 c x Hx). split; cbn; try done.
  - intros f c' Hc. destruct (H1 f c' Hc) as (Hd & y & Hy & Hyf & Hcs). split; [done|].
    destruct (decide (c' = c)) as [-> |Hne].
    + rewrite lookup_insert_eq. eexists. split; [done|]. rewrite Hx in Hy. injection Hy as ->. split; [done|]. right. by rewrite Hyf.
    + rewrite lookup_insert_ne by done. exists y. split_and!; [done|done|]. left. rewrite Hcl in Hcs. by destruct Hcs.
  - intros f c' [Hne Hc]%lookup_delete_Some. rewrite lookup_insert_ne; [by apply H2|]. intros <-.
    apply H2 in Hc. rewrite Hx in Hc. by injection Hc as ->.
  - intros c' y [[<- <-]|[Hne Hy]]%lookup_insert_Some; cbn.
    + destruct (H3 c x Hx) as [Ho _]. by split.
    + destruct (H3 c' y Hy) as [Ho Hu]. split; [done|]. intros Hcy. specialize (Hu Hcy). apply lookup_delete_Some. split; [|done].
      intros E. rewrite <-E, Hch in Hu. congruence.
  - intros c' Hc. rewrite lookup_insert. case_decide; [by eexists|by apply H4].
  - intros f Hf. rewrite lookup_delete. case_decide; [done|by apply H6].
  - intros f. rewrite elem_of_difference, elem_of_singleton, H7, lookup_delete. destruct (decide (c_fd x = f)) as [<-|Hne]; [|naive_solver].
    split; [naive_solver|]. intros [[? [=]]|Hq]. apply H6 in Hq. congruence.
  - intros c' [y [[<- _]|[_ Hy]]%lookup_insert_Some]; apply H9; by eexists.
  - intros f c' [= _ <-]. rewrite lookup_insert_eq. by eexists.
Qed.

Lemma add_ok fd s : reactor_ok s -> fd ∉ open_fds s -> reactor_ok (add_connection fd s).
Proof.
  intros [[H1 H2 H3 H4 [H5a H5b] H6 H7 H8 H9 H10] Hp] Hfd. rewrite H7 in Hfd. split; [|destruct Hp; by split].
  assert (doomed (add_connection fd s) = doomed s) as HD by (unfold doomed; cbn; rewrite omap_app; cbn; by rewrite app_nil_r).
  assert (queued (add_connection fd s) ≡ₚ fd :: queued s) as HQ by (unfold queued; cbn; rewrite omap_app; cbn; solve_Permutation).
  rewrite HD. eapply (inv_ext _ _ (fd :: queued s)); [|done|by symmetry|done..]. split; cbn; try done.
  - split; [done|]. apply NoDup_cons. split; [|done]. intros Hq. apply Hfd. by right.
  - intros f [-> |Hf]%elem_of_cons; [|by apply H6]. destruct (channels_ s !! fd) eqn:E; [|done]. destruct Hfd. left. by eexists.
  - intros f. rewrite elem_of_union, elem_of_singleton, H7, elem_of_cons. naive_solver.
Qed.

Lemma run_task_ok s :
  reactor_ok s -> at_phase s = Draining -> closing s = None -> exists s', run_task s = Next s' /\ reactor_ok s'.
Proof.
  intros [Hi Hp] Hph Hcl. unfold run_task. destruct (running s) as [|t rest] eqn:Er.
  - eexists. split; [done|]. split.
    + eapply inv_ext; [exact Hi|done..].
    + destruct Hp as [P1 P2 P3]. split; cbn; [congruence|congruence|by right].
  - assert (forall s', at_phase s' = Draining -> closing s' = None -> phase_ok s') as Hph' by (intros s' E1 E2; split; [congruence|done|by left]).
    destruct t as [fd|c]; cbv zeta.
    + set (s0 := mkReactor _ _ _ _ _ _ _ _ _ _ _).
      destruct (register_inv (doomed s) (omap registers (pending_tasks_ s) ++ omap registers rest) fd s0) as (s' & -> & Hi' & E1 & E2 & E3 & E4 & E5).
      * eapply inv_ext; [exact Hi|done| |done..]. unfold queued. rewrite Er. cbn. solve_Permutation.
      * done.
      * eexists. split; [done|]. split; [|apply Hph'; [by rewrite E4|by rewrite E5]].
        eapply inv_ext; [exact Hi'| | |done..].
        -- unfold doomed. rewrite E1, E2, E3, Er. done.
        -- unfold queued. rewrite E1, E2. done.
    + eexists. split; [done|]. split; [|by apply Hph'].
      eapply inv_ext; [exact Hi| | |done..].
      * unfold doomed. rewrite Er. cbn. solve_Permutation.
      * unfold queued. rewrite Er. done.
Qed.

Lemma destroy_kept_ok s :
  reactor_ok s -> at_phase s = Destroying -> closing s = None -> exists s', destroy_kept s = Next s' /\ reactor_ok s'.
Proof.
  intros [Hi [P1 P2 P3]] Hph Hcl. unfold destroy_kept. destruct (kept s) as [|c rest] eqn:Ek.
  - eexists. split; [done|]. split; [by eapply inv_ext|]. split; cbn; [done| |congruence].
    intros H%P2. congruence.
  - set (s0 := mkReactor _ _ _ _ _ _ _ _ _ _ _).
    destruct (destroy_inv c (omap keeps (pending_tasks_ s) ++ omap keeps (running s) ++ rest) (queued s) s0) as (s' & -> & Hi' & E1 & E2 & E3 & E4 & E5).
    + eapply inv_ext; [exact Hi| |done..]. unfold doomed. rewrite Ek. solve_Permutation.
    + done.
    + eexists. split; [done|]. split.
      * eapply inv_ext; [exact Hi'| | |done..].
        -- unfold doomed. rewrite E1, E2, E3. done.
        -- unfold queued. rewrite E1, E2. done.
      * split; rewrite ?E2, ?E3, ?E4, ?E5; [done| |by right]. intros H%P2. congruence.
Qed.

Lemma remove_ok fd s :
  reactor_ok s ->
  reactor_ok (remove_connection fd s) /\ at_phase (remove_connection fd s) = at_phase s /\
  closing (remove_connection fd s) = closing s /\ connections_ (remove_connection fd s) !! fd = None.
Proof.
  intros [Hi Hp]. destruct (connections_ s !! fd) as [c|] eqn:E.
  - pose proof (remove_inv _ _ fd c s Hi E) as Hr. revert Hr. unfold remove_connection. rewrite E. intros Hr. cbn.
    split; [split|split_and!; [done|done|apply lookup_delete_eq]].
    + eapply inv_ext; [exact Hr| | |done..]; [unfold doomed|unfold queued]; cbn; rewrite omap_app; cbn; [|rewrite app_nil_r]; solve_Permutation.
    + destruct Hp; by split.
  - unfold remove_connection. by rewrite E.
Qed.

Lemma remove_heap fd s : conn_heap (remove_connection fd s) = conn_heap s.
Proof. unfold remove_connection. by destruct (connections_ s !! fd). Qed.

Lemma reactor_event_ok fd o s :
  reactor_ok s -> at_phase s = Dispatching -> closing s = None -> exists s', handle_event fd o s = Next s' /\ reactor_ok s'.
Proof.
  intros [Hi Hp] Hph Hcl. unfold handle_event. destruct (channels_ s !! fd) as [c|] eqn:Ec; [|by exists s].
  rewrite (i_chans _ _ _ Hi fd c Ec). destruct o; [by exists s| |].
  - eexists. split; [done|]. split; [|destruct Hp as [P1 P2 P3]; by split].
    assert (inv (doomed s) (queued s) (close_begin c (mkConn fd false) s)) as Hc.
    { apply close_begin_inv; [done|done|by apply i_chans with (D := doomed s) (Q := queued s)|done]. }
    eapply inv_ext; [exact Hc|done..].
  - cbv zeta. rewrite remove_heap, (i_chans _ _ _ Hi fd c Ec). eexists. split; [done|]. by apply remove_ok.
Qed.

Lemma close_notify_ok s fd c0 :
  reactor_ok s -> closing s = Some (fd, c0) -> exists s', close_notify s = Next s' /\ reactor_ok s'.
Proof.
  intros Hs Hcl. unfold close_notify. rewrite Hcl. cbv zeta.
  destruct (i_closing _ _ _ (proj1 Hs) _ _ Hcl) as [x0 Hx0]. rewrite <-(remove_heap fd) in Hx0. rewrite Hx0. clear Hx0. destruct (remove_ok fd s Hs) as ([Hi [P1 P2 P3]] & Hph & Hcl' & Hnone).
  eexists. split; [done|]. revert Hi P2 P3 Hph Hcl' Hnone. generalize (remove_connection fd s). intros r [H1 H2 H3 H4 H5 H6 H7 H8 H9 H10] P2 P3 Hph Hcl' Hnone.
  split; [|by split]. split; cbn; try done.
  intros f c Hc. destruct (H1 f c Hc) as (Hd & x & Hx & Hxf & Hcs). split; [exact Hd|]. exists x. split_and!; [done|done|].
  left. destruct Hcs as [Hcs|Hcs]; [done|]. rewrite Hcl', Hcl in Hcs. injection Hcs as ->. congruence.
Qed.

(** Every step that is possible leads on. *)
Lemma step_ok ev s : reactor_ok s -> step ev s = Stuck \/ exists s', step ev s = Next s' /\ reactor_ok s'.
Proof.
  intros Hs. pose proof Hs as [Hi [P1 P2 P3]]. unfold step. destruct ev as [fd| | | |fd o| |].
  - destruct (at_phase s), (closing s); (case_bool_decide; [by left|right; eexists; split; [done|by apply add_ok]]).
  - destruct (at_phase s) eqn:Hph; try (by left). destruct (closing s) eqn:Hcl; [by left|]. right. eexists. split; [done|].
    assert (running s = []) as Hr by (destruct (running s); [done|]; specialize (P2 ltac:(done)); congruence).
    assert (kept s = []) as Hk by (destruct (kept s); [done|]; destruct (P3 ltac:(done)); congruence).
    split; [|split; cbn; [by rewrite Hcl|done|by left]].
    eapply inv_ext; [exact Hi| | |done..]; [unfold doomed|unfold queued]; cbn; rewrite Hr; cbn; by rewrite ?app_nil_r, ?Hk, ?app_nil_r.
  - destruct (at_phase s) eqn:Hph; try (by left). destruct (closing s) eqn:Hcl; [by left|]. right. by apply run_task_ok.
  - destruct (at_phase s) eqn:Hph; try (by left). destruct (closing s) eqn:Hcl; [by left|]. right. by apply destroy_kept_ok.
  - destruct (at_phase s) eqn:Hph; try (by left). destruct (closing s) eqn:Hcl; [by left|]. right. by apply reactor_event_ok.
  - destruct (at_phase s) eqn:Hph; try (by left). destruct (closing s) as [[fd c]|] eqn:Hcl; [|by left]. right. by eapply close_notify_ok.
  - destruct (at_phase s) eqn:Hph; try (by left). destruct (closing s) eqn:Hcl; [by left|]. right. eexists. split; [done|].
    split; [by eapply inv_ext|]. split; cbn.
    + by rewrite Hcl.
    + intros H%P2. congruence.
    + intros H%P3. destruct H; congruence.
Qed.

Lemma reactor_reachable_ok s : reachable s -> reactor_ok s.
Proof.
  induction 1 as [|ev s s' _ IH Hs]; [exact new_reactor_ok|].
  destruct (step_ok ev s IH) as [H|(s1 & H1 & Hok)]; [congruence|]. rewrite Hs in H1. by injection H1 as ->.
Qed.

(** C16: connections of clients on a sub-reactor. In every interleaving of the accepting
    thread with the loop, no step touches a connection that was destroyed, even where a
    descriptor is used again between its close and the callback. Every open descriptor
    is waiting in the queue or watched by one live connection, which is the one in the
    table unless it is about to be destroyed; the count is the number of connections in
    the table; and when the loop waits with nothing queued, exactly the connections in
    the table are left, each open and watched under its descriptor. *)
Theorem reactor_safe s :
  reachable s ->
  (forall ev, step ev s <> Fault) /\
  (forall fd, fd ∈ open_fds s -> fd ∈ queued s \/
     exists c, channels_ s !! fd = Some c /\ conn_heap s !! c = Some (mkConn fd false) /\
       (connections_ s !! fd = Some c \/ c ∈ doomed s)) /\
  connection_count_ s = Z.of_nat (size (connections_ s)) /\
  (at_phase s = Polling -> pending_tasks_ s = [] ->
     open_fds s = dom (connections_ s) /\ channels_ s = connections_ s /\
     forall c x, conn_heap s !! c = Some x <-> x = mkConn (c_fd x) false /\ connections_ s !! c_fd x = Some c).
Proof.
  intros Hs%reactor_reachable_ok. pose proof Hs as [[H1 H2 H3 H4 H5 H6 H7 H8 H9 H10] [P1 P2 P3]]. split_and!.
  - intros ev. destruct (step_ok ev s Hs) as [-> |(s' & -> & _)]; done.
  - intros fd [[c Hc]|Hq]%H7; [right|by left]. exists c. pose proof (H2 fd c Hc) as Hx. split_and!; [done|done|].
    by destruct (H3 c _ Hx) as [Ho _].
  - exact H8.
  - intros Hph Hp.
    assert (running s = []) as Hr by (destruct (running s); [done|]; specialize (P2 ltac:(done)); congruence).
    assert (kept s = []) as Hk by (destruct (kept s); [done|]; destruct (P3 ltac:(done)); congruence).
    assert (closing s = None) as Hcl by (destruct (closing s); [|done]; specialize (P1 ltac:(done)); congruence).
    assert (doomed s = []) as HD by (unfold doomed; by rewrite Hp, Hr, Hk).
    assert (queued s = []) as HQ by (unfold queued; by rewrite Hp, Hr).
    assert (forall fd c, connections_ s !! fd = Some c -> conn_heap s !! c = Some (mkConn fd false)) as Hco.
    { intros fd c Hc. destruct (H1 fd c Hc) as (_ & [f b] & Hx & Hf & Hun). cbn in *. rewrite Hcl in Hun. destruct Hun; [by subst|done]. }
    assert (channels_ s = connections_ s) as Heq.
    { apply map_eq. intros fd. destruct (connections_ s !! fd) as [c|] eqn:Ec.
      - by apply (H3 c _ (Hco fd c Ec)).
      - destruct (channels_ s !! fd) as [c|] eqn:Ech; [|done]. destruct (H3 c _ (H2 fd c Ech)) as [[Ho|Ho] _]; [cbn in Ho; congruence|].
        rewrite HD in Ho. by apply elem_of_nil in Ho. }
    split_and!; [|done|].
    + apply set_eq. intros fd. rewrite H7, HQ, Heq, elem_of_dom, elem_of_nil. naive_solver.
    + intros c x. split.
      * intros Hx. destruct (H3 c x Hx) as [[Ho|Ho] _]; [|rewrite HD in Ho; by apply elem_of_nil in Ho].
        split; [|done]. pose proof (Hco _ _ Ho). congruence.
      * intros [-> Hc]. by apply Hco.
Qed.

(** A descriptor is closed, accepted again before the callback, and served anew. *)
Definition sample_run : list event :=
  [Accepted 7; TakeTasks; RunTask; RunTask; DestroyKept; Ready 7 Closes; Accepted 7; Notify; EndBatch;
   TakeTasks; RunTask; RunTask; RunTask; DestroyKept; DestroyKept; Ready 7 Stays; EndBatch].

Definition run_events (evs : list event) : option SubReactor :=
  foldl (fun s ev => s ≫= fun s => match step ev s with Next s => Some s | _ => None end) (Some new_reactor) evs.

Lemma run_reachable evs s : run_events evs = Some s -> reachable s.
Proof.
  revert s. induction evs as [|ev evs IH] using rev_ind; intros s; [intros [= <-]; constructor|].
  unfold run_events. rewrite foldl_app. cbn. intros (s1 & H1 & Hs)%bind_Some.
  destruct (step ev s1) eqn:E; try done. injection Hs as <-. econstructor; [by apply IH|exact E].
Qed.

Lemma reactor_safe_witness :
  exists s, run_events sample_run = Some s /\ at_phase s = Polling /\ open_fds s = dom (connections_ s) /\ connection_count_ s = 1.
Proof.
  destruct (run_events sample_run) as [s|] eqn:E; [|by vm_compute in E].
  destruct (reactor_safe s (run_reachable _ _ E)) as (_ & _ & _ & H).
  assert (at_phase s = Polling /\ pending_tasks_ s = [] /\ connection_count_ s = 1) as (Hp & Ht & Hc).
  { vm_compute in E. injection E as <-. done. }
  destruct (H Hp Ht) as (Ho & _). exists s. exact (conj eq_refl (conj Hp (conj Ho Hc))).
Defined.

(** ** The choice of a reactor *)

Lemma assign_lookup n r i k :
  0 <= i -> i + Z.of_nat n < 18446744073709551616 -> (k < n)%nat -> assign n r i !! k = Some ((i + Z.of_nat k) mod r).
Proof.
  revert i k. induction n as [|n IH]; intros i k Hi Hn Hk; [lia|]. cbn [assign get_next_reactor].
  rewrite (Z.mod_small (i + 1)) by lia. destruct k as [|k]; cbn; [by rewrite Z.add_0_r|].
  rewrite IH by lia. do 2 f_equal. lia.
Qed.

(** Connections go round the reactors: of any [r] in a row, no two go to the same. *)
Theorem round_robin r i j k :
  0 < r -> 0 <= i -> i + r < 18446744073709551616 -> (j < k < Z.to_nat r)%nat ->
  exists x y, assign (Z.to_nat r) r i !! j = Some x /\ assign (Z.to_nat r) r i !! k = Some y /\ x <> y /\ 0 <= x < r.
Proof.
  intros Hr Hi Hb Hjk. exists ((i + Z.of_nat j) mod r), ((i + Z.of_nat k) mod r).
  rewrite !assign_lookup by lia. split_and!; try done; [|apply Z.mod_pos_bound; lia..].
  intros E. pose proof (Z.div_mod (i + Z.of_nat j) r ltac:(lia)) as H1. pose proof (Z.div_mod (i + Z.of_nat k) r ltac:(lia)) as H2.
  rewrite E in H1. assert (Z.of_nat k - Z.of_nat j = r * ((i + Z.of_nat k) / r - (i + Z.of_nat j) / r)) as H3 by lia.
  assert (0 < Z.of_nat k - Z.of_nat j < r) as H4 by lia. rewrite H3 in H4.
  assert (0 < (i + Z.of_nat k) / r - (i + Z.of_nat j) / r < 1) by nia. lia.
Qed.
End ReactorProps.
