(* ===== verification/Workers.v ===== *)
(** * Threads that are started and stopped: [ExpirationChecker], [RdbScheduler], the
    heartbeat of [ClusterConnection] and [SubReactor]

    The thread that calls [start] and [stop] and the thread that works, in any
    interleaving. The worker goes round a loop of tests of a flag, naps and pieces of
    work; what the work is, is in the files of the parts. [stop] sets the flag and joins.
    Assigning to a [std::thread] that has not been joined ends the process: a [Fault].
    Then two helpers of other parts that wait or try: [wait_for_bgsave] and [make_dirs]. *)

From S2P Require Import Prelude Base.
From stdpp Require Import options.

Module Workers.

Inductive part := Checker | Scheduler | Heartbeat | SubReactor.

(** [Test] leaves the loop when the flag says so, [Again] goes back to its head. *)
Inductive instr := Test | Again | Nap | Work.

Definition body (p : part) : list instr :=
  match p with
  | Checker => [Test; Work; Nap]
  | Scheduler => [Test; Nap; Work]
  | Heartbeat => [Test; Nap; Again; Work]
  | SubReactor => [Test; Nap; Test; Work]
  end.

Inductive place := At (pc : nat) | Exited.

(** The thread that controls: in no call, or in a join, of [stop] or of a new [start]. *)
Inductive control := Free | Joining (restart : bool).

Record Worker := mkWorker {
  flag : bool;               (** [running_], [heartbeat_running_], [thread_ != nullptr] *)
  go : bool;                 (** what the worker tests: [running_], not the stop flag, not [quit_] *)
  thread_ : option place;    (** a thread that is joinable *)
  at_control : control;
  works : nat                (** pieces of work done *)
}.

Definition new_worker (p : part) : Worker :=
  mkWorker false (match p with SubReactor => true | _ => false end) None Free 0.

Inductive result := Stuck | Fault | Next (s : Worker).

(** The end of [start]: the flags and the new thread. *)
Definition launch (p : part) (s : Worker) : result :=
  match thread_ s with
  | Some _ => Fault
  | None =>
      Next (mkWorker true (match p with SubReactor => go s | _ => true end) (Some (At 0)) Free (works s))
  end.

Definition start (p : part) (s : Worker) : result :=
  if flag s then Next s
  else
    match p, thread_ s with
    | Checker, Some _ => Next (mkWorker (flag s) (go s) (thread_ s) (Joining true) (works s))
    | _, _ => launch p s
    end.

(** [stop] up to the join; that of a sub-reactor sets [quit_] in any case. *)
Definition stop (p : part) (s : Worker) : Worker :=
  let f := match p with SubReactor => flag s | _ => false end in
  if match p with SubReactor => false | _ => negb (flag s) end then s
  else
    match thread_ s with
    | Some _ => mkWorker f false (thread_ s) (Joining false) (works s)
    | None => mkWorker f false None Free (works s)
    end.

(** The join returns once the thread has ended. *)
Definition joined (p : part) (s : Worker) : result :=
  match at_control s, thread_ s with
  | Joining restart, Some Exited =>
      let s := mkWorker (match p with SubReactor => false | _ => flag s end) (go s) None Free (works s) in
      if restart then launch p s else Next s
  | _, _ => Stuck
  end.

Definition worker_step (p : part) (s : Worker) : result :=
  match thread_ s with
  | Some (At pc) =>
      let next := if (S pc <? length (body p))%nat then At (S pc) else At 0 in
      let goto l w := Next (mkWorker (flag s) (go s) (Some l) (at_control s) w) in
      match body p !! pc with
      | Some Test => goto (if go s then next else Exited) (works s)
      | Some Again => goto (if go s then next else At 0) (works s)
      | Some Nap => goto next (works s)
      | Some Work => goto next (S (works s))
      | None => Stuck
      end
  | _ => Stuck
  end.

Inductive event := Start | Stop | Joined | Goes.

Definition step (p : part) (e : event) (s : Worker) : result :=
  match e, at_control s with
  | Start, Free => start p s
  | Stop, Free => Next (stop p s)
  | Joined, _ => joined p s
  | Goes, _ => worker_step p s
  | _, _ => Stuck
  end.

Inductive reachable (p : part) : Worker -> Prop :=
  | reach_new : reachable p (new_worker p)
  | reach_step e s s' : reachable p s -> step p e s = Next s' -> reachable p s'.

(** [n] steps of the worker. *)
Fixpoint goes (p : part) (n : nat) (s : Worker) : result :=
  match n with
  | O => Next s
  | S n => match worker_step p s with Next s => goes p n s | r => r end
  end.

(** ** RdbPersistence::wait_for_bgsave *)

(** [in_progress n] and [clock n] are what the [n]-th look at the flag and at the clock say;
    [fuel] bounds the rounds. *)
Fixpoint wait_loop (fuel : nat) (timeout_ms start : Z) (in_progress : nat -> bool) (clock : nat -> Z) (n : nat) : option bool :=
  match fuel with
  | O => None
  | S fuel =>
      if negb (in_progress n) then Some true
      else if (0 <=? timeout_ms) && (timeout_ms <? clock n - start) then Some false
      else wait_loop fuel timeout_ms start in_progress clock (S n)
  end.

Definition wait_for_bgsave (fuel : nat) (timeout_ms start : Z) (first : bool) (in_progress : nat -> bool) (clock : nat -> Z) : option bool :=
  if negb first then Some true else wait_loop fuel timeout_ms start in_progress clock 0.

(** ** make_dirs *)

(** Names of files: a directory or something else. [may] says where [mkdir] is allowed. *)
Inductive node := Dir | File.

Definition slash : ascii := "/"%char.

(** [path.substr(0, path.find_last_of('/'))]: the parent, if there is a slash. *)
Fixpoint parent (path : bytes) : option bytes :=
  match path with
  | [] => None
  | c :: rest =>
      match parent rest with
      | Some p => Some (c :: p)
      | None => if bool_decide (c = slash) then Some [] else None
      end
  end.

(** [mkdir], or that it is there already. *)
Definition make_one (may : bytes -> bool) (path : bytes) (fs : gmap bytes node) : bool * gmap bytes node :=
  match fs !! path with
  | Some _ => (true, fs)
  | None => if may path then (true, <[path := Dir]> fs) else (false, fs)
  end.

Fixpoint make_dirs (fuel : nat) (may : bytes -> bool) (path : bytes) (fs : gmap bytes node) : option (bool * gmap bytes node) :=
  match fuel with
  | O => None
  | S fuel =>
      if bool_decide (path = []) then Some (true, fs)
      else
        match fs !! path with
        | Some Dir => Some (true, fs)
        | Some File => Some (false, fs)
        | None =>
            match parent path with
            | Some (c :: p) =>
                '(ok, fs) ← make_dirs fuel may (c :: p) fs;
                if ok : bool then Some (make_one may path fs) else Some (false, fs)
            | _ => Some (make_one may path fs)
            end
        end
  end.

(** ** The life of a worker *)

Definition stopped_place (p : part) (s : Worker) : Prop :=
  match thread_ s with Some (At pc) => (pc < length (body p))%nat | _ => True end.

Record worker_ok (p : part) (s : Worker) : Prop := {
  w_place : stopped_place p s;
  w_free : at_control s = Free -> (flag s = true <-> is_Some (thread_ s));
  w_alive : at_control s = Free -> thread_ s = Some Exited -> p = SubReactor /\ go s = false;
  w_runs : at_control s = Free -> flag s = true -> p <> SubReactor -> go s = true;
  w_join r : at_control s = Joining r -> r = false /\ go s = false /\ is_Some (thread_ s) /\ (p <> SubReactor -> flag s = false)
}.

Lemma worker_step_ok p s s' : worker_ok p s -> worker_step p s = Next s' ->
  worker_ok p s' /\ flag s' = flag s /\ go s' = go s /\ at_control s' = at_control s /\ is_Some (thread_ s').
Proof.
  intros [H1 H2 H3 H4 H5]. unfold worker_step, stopped_place in *. destruct (thread_ s) as [[pc|]|] eqn:Ht; try done.
  set (nx := if (S pc <? length (body p))%nat then At (S pc) else At 0).
  assert (exists n, nx = At n /\ (n < length (body p))%nat) as Hnx.
  { unfold nx. destruct (Nat.ltb_spec (S pc) (length (body p))); [eauto|]. exists 0%nat. split; [done|destruct p; cbn; lia]. }
  intros Hs.
  assert (exists l w, s' = mkWorker (flag s) (go s) (Some l) (at_control s) w /\
    ((exists n, l = At n /\ (n < length (body p))%nat) \/ l = Exited /\ go s = false)) as (l & w & -> & Hl).
  { assert (exists n, At 0 = At n /\ (n < length (body p))%nat) as H0 by (exists 0%nat; split; [done|destruct p; cbn; lia]).
    destruct (body p !! pc) as [[]|]; try done; injection Hs as <-; destruct (go s) eqn:Hg; eauto 10. }
  split; [|done]. split; cbn.
  - unfold stopped_place. cbn. destruct Hl as [(n & -> & Hn)|[-> _]]; done.
  - intros Hf. split; [eauto|]. intros _. apply H2; eauto.
  - intros Hf [= ->]. destruct Hl as [(n & ? & _)|[_ Hg]]; [done|]. split; [|done].
    destruct p; [..|done]; exfalso; rewrite H4 in Hg; try done; by apply H2.
  - done.
  - intros r Hr. destruct (H5 r Hr) as (? & ? & ? & ?). eauto.
Qed.

Lemma launch_ok p s : worker_ok p s -> thread_ s = None -> exists s', launch p s = Next s' /\ worker_ok p s'.
Proof.
  intros [H1 H2 H3 H4 H5] Ht. unfold launch. rewrite Ht. eexists. split; [done|]. split; cbn; try done.
  - unfold stopped_place. cbn. destruct p; cbn; lia.
  - intros _ _ ?. by destruct p.
Qed.

Lemma free_idle p s : worker_ok p s -> at_control s = Free -> flag s = false -> thread_ s = None.
Proof.
  intros [_ H2 _ _ _] Hc Hf. destruct (thread_ s) as [l|] eqn:Ht; [|done]. assert (flag s = true) by (apply H2; eauto). congruence.
Qed.

Definition good (p : part) (r : result) : Prop := match r with Stuck => True | Fault => False | Next s => worker_ok p s end.

Lemma start_ok p s : worker_ok p s -> at_control s = Free -> good p (start p s).
Proof.
  intros Hs Hc. unfold start. destruct (flag s) eqn:Hf; [done|]. pose proof (free_idle p s Hs Hc Hf) as Ht. rewrite Ht.
  destruct (launch_ok p s Hs Ht) as (s' & -> & Hok). by destruct p.
Qed.

Lemma stop_ok p s : worker_ok p s -> at_control s = Free -> worker_ok p (stop p s).
Proof.
  intros [H1 H2 H3 H4 H5] Hc. unfold stop. destruct (match p with SubReactor => false | _ => negb (flag s) end) eqn:Hb; [by split|].
  destruct (thread_ s) as [l|] eqn:Ht; split; cbn; try done.
  - unfold stopped_place in *. cbn. by rewrite Ht in H1.
  - intros r [= <-]. split_and!; [done|done|eauto|]. by destruct p.
  - intros _. split; [|by intros [? ?]]. destruct p; [done..|]. by intros ?%H2.
  - intros _ Hf Hp. by destruct p.
Qed.

Lemma joined_ok p s : worker_ok p s -> good p (joined p s).
Proof.
  intros [H1 H2 H3 H4 H5]. unfold joined. destruct (at_control s) as [|r] eqn:Hc; [done|]. destruct (H5 r eq_refl) as (-> & Hg & _ & Hf).
  destruct (thread_ s) as [[pc|]|]; try done. split; cbn; try done.
  - intros _. split; [|by intros [? ?]]. destruct p; [rewrite Hf; done..|done].
  - intros _ Hf' Hp. rewrite Hf in Hf' by done. by destruct p.
Qed.

Lemma worker_good p e s : worker_ok p s -> good p (step p e s).
Proof.
  intros Hs. destruct e; cbn [step].
  - destruct (at_control s) eqn:Hc; [by apply start_ok|done].
  - destruct (at_control s) eqn:Hc; [by apply stop_ok|done].
  - by apply joined_ok.
  - destruct (worker_step p s) as [| |s'] eqn:E; [done| |by apply (worker_step_ok p s s')].
    unfold worker_step in E. repeat case_match; done.
Qed.

Lemma workers_reachable_ok p s : reachable p s -> worker_ok p s.
Proof.
  induction 1 as [|e s s' _ IH Hs].
  - split; cbn; done.
  - pose proof (worker_good p e s IH) as Hg. by rewrite Hs in Hg.
Qed.

(** A worker that is told to stop is at its end after three steps at most. *)
Lemma winds_down p f pc c w :
  (pc < length (body p))%nat ->
  exists n w', (n <= 3)%nat /\ (w' <= S w)%nat /\ goes p n (mkWorker f false (Some (At pc)) c w) = Next (mkWorker f false (Some Exited) c w').
Proof.
  intros Hpc. destruct p, pc as [|[|[|[|pc]]]]; cbn in Hpc; try lia;
    first [exists 1%nat, w; solve [split_and!; [lia|lia|reflexivity]]
          |exists 2%nat, w; solve [split_and!; [lia|lia|reflexivity]]
          |exists 2%nat, (S w); solve [split_and!; [lia|lia|reflexivity]]
          |exists 3%nat, w; solve [split_and!; [lia|lia|reflexivity]]
          |exists 3%nat, (S w); solve [split_and!; [lia|lia|reflexivity]]].
Qed.

(** Parts that are started and stopped. Nothing that [start] and [stop] do, in any order
    and at any time, ends the process; outside the calls a part that is not running has no
    thread, so that after [stop] no work is done until the next [start], and one that is
    running has a thread that goes on; [stop] returns: its worker is at its end after three
    steps at most, with one more piece of work at most. *)
Theorem workers_stop p s :
  reachable p s ->
  (forall e, step p e s <> Fault) /\
  (at_control s = Free -> flag s = false -> thread_ s = None /\ step p Goes s = Stuck) /\
  (at_control s = Free -> flag s = true -> p <> SubReactor -> exists s', step p Goes s = Next s') /\
  (forall r, at_control s = Joining r ->
    exists n s' s'', (n <= 3)%nat /\ goes p n s = Next s' /\ (works s' <= S (works s))%nat /\
      step p Joined s' = Next s'' /\ at_control s'' = Free /\ flag s'' = false).
Proof.
  intros Hok%workers_reachable_ok. pose proof Hok as [H1 H2 H3 H4 H5]. split_and!.
  - intros e Hs. pose proof (worker_good p e s Hok) as Hg. by rewrite Hs in Hg.
  - intros Hc Hf. pose proof (free_idle p s Hok Hc Hf) as Ht. split; [done|]. cbn. unfold worker_step. by rewrite Ht.
  - intros Hc Hf Hp. cbn. unfold worker_step, stopped_place in *. destruct (proj1 (H2 Hc) Hf) as [l Ht]. rewrite Ht in *.
    destruct l as [pc|]; [|by destruct (H3 Hc eq_refl)]. apply lookup_lt_is_Some_2 in H1 as [i Hi]. rewrite Hi. destruct i; eauto.
  - intros r Hc. destruct (H5 r Hc) as (-> & Hg & [l Ht] & Hf). destruct s as [f g th c w]. cbn in *. subst g th c.
    assert (exists n w', (n <= 3)%nat /\ (w' <= S w)%nat /\
      goes p n (mkWorker f false (Some l) (Joining false) w) = Next (mkWorker f false (Some Exited) (Joining false) w')) as (n & w' & Hn & Hw & He).
    { destruct l as [pc|]; [by apply winds_down|]. exists 0%nat, w. split; [lia|]. split; [lia|done]. }
    eexists n, _, _. split; [done|]. split; [exact He|]. split; [done|]. cbn. split; [reflexivity|]. split; [done|]. cbn.
    destruct p; [by rewrite Hf..|done].
Qed.

(** ** Waiting and trying *)

Lemma wait_loop_S fuel timeout_ms start in_progress clock n :
  wait_loop (S fuel) timeout_ms start in_progress clock n =
  (if negb (in_progress n) then Some true
   else if (0 <=? timeout_ms) && (timeout_ms <? clock n - start) then Some false
   else wait_loop fuel timeout_ms start in_progress clock (S n)).
Proof. done. Qed.

(** With a limit the wait ends: after the first round that sees the clock past it, and with
    [true] exactly when a look found no save in progress before that. *)
Theorem wait_for_bgsave_ends timeout_ms start first in_progress clock n :
  0 <= timeout_ms -> timeout_ms < clock n - start ->
  exists r, wait_for_bgsave (S n) timeout_ms start first in_progress clock = Some r /\
    (r = false -> first = true /\ exists k, (k <= n)%nat /\ timeout_ms < clock k - start /\ forall j, (j <= k)%nat -> in_progress j = true).
Proof.
  intros Ht Hn. unfold wait_for_bgsave. destruct first; cbn [negb]; [|by exists true].
  assert (forall m k, (m + k = n)%nat -> (forall j, (j < k)%nat -> in_progress j = true) ->
    exists r, wait_loop (S m) timeout_ms start in_progress clock k = Some r /\
      (r = false -> exists k', (k' <= n)%nat /\ timeout_ms < clock k' - start /\ forall j, (j <= k')%nat -> in_progress j = true)) as Hloop.
  { induction m as [|m IH]; intros k Hk Hbefore; rewrite wait_loop_S; (destruct (in_progress k) eqn:Hp; cbn [negb]; [|by exists true]);
      rewrite (proj2 (Z.leb_le _ _)) by done; cbn [andb].
    - assert (k = n) as -> by lia. rewrite (proj2 (Z.ltb_lt _ _)) by done. exists false. split; [done|]. intros _. exists n.
      split; [done|]. split; [done|]. intros j Hj. destruct (decide (j = n)) as [->|]; [done|apply Hbefore; lia].
    - assert (forall j, (j <= k)%nat -> in_progress j = true) as Hup.
      { intros j Hj. destruct (decide (j = k)) as [->|]; [done|apply Hbefore; lia]. }
      destruct (Z.ltb_spec timeout_ms (clock k - start)).
      + exists false. split; [done|]. intros _. exists k. split; [lia|done].
      + apply IH; [lia|]. intros j Hj. apply Hup. lia. }
  destruct (Hloop n 0%nat) as (r & Hr & Hf); [lia|intros j Hj; lia|]. exists r. split; [exact Hr|]. intros Hrf. split; [done|]. by apply Hf.
Qed.

Lemma parent_prefix path p : parent path = Some p -> p `prefix_of` path /\ (length p < length path)%nat.
Proof.
  revert p. induction path as [|c rest IH]; intros p; cbn; [done|]. destruct (parent rest) as [q|] eqn:E.
  - intros [= <-]. destruct (IH q eq_refl). split; [by apply prefix_cons|cbn; lia].
  - case_bool_decide; [|done]. intros [= <-]. split; [apply prefix_nil|cbn; lia].
Qed.

Lemma make_one_spec may path fs ok fs' :
  make_one may path fs = (ok, fs') -> fs !! path <> Some File ->
  fs ⊆ fs' /\ (ok = true -> fs' !! path = Some Dir) /\ (may path = true -> ok = true) /\
  (forall q x, fs' !! q = Some x -> fs !! q = Some x \/ (x = Dir /\ q = path /\ may q = true)).
Proof.
  unfold make_one. intros H Hf. destruct (fs !! path) as [[]|] eqn:E; try done; [injection H as <- <-; auto|].
  destruct (may path) eqn:Hm; injection H as <- <-; [|by split_and!; auto]. split_and!; [by apply insert_subseteq|intros _; apply lookup_insert_eq|done|].
  intros q x [[<- <-]|[_ ?]]%lookup_insert_Some; auto.
Qed.

(** The directories of a path: [make_dirs] ends, changes nothing that is there, makes
    directories only, of the path and above it and where it may; when it succeeds the
    directory is there, and it succeeds when nothing on the way forbids it. *)
Theorem make_dirs_correct may path fs fuel :
  (length path < fuel)%nat ->
  exists ok fs', make_dirs fuel may path fs = Some (ok, fs') /\ fs ⊆ fs' /\
    (ok = true -> path <> [] -> fs' !! path = Some Dir) /\
    (forall q x, fs' !! q = Some x -> fs !! q = Some x \/ (x = Dir /\ q `prefix_of` path /\ may q = true)) /\
    ((forall q, q `prefix_of` path -> may q = true /\ fs !! q <> Some File) -> ok = true).
Proof.
  revert path fs. induction fuel as [|fuel IH]; intros path fs Hlen; [lia|]. cbn [make_dirs].
  case_bool_decide as Hnil; [eexists _, _; split; [done|]; split_and!; auto; done|].
  assert (forall fs0, fs0 !! path <> Some File -> fs ⊆ fs0 ->
    (forall q x, fs0 !! q = Some x -> fs !! q = Some x \/ (x = Dir /\ q `prefix_of` path /\ may q = true)) ->
    exists ok fs', Some (make_one may path fs0) = Some (ok, fs') /\ fs ⊆ fs' /\
    (ok = true -> path <> [] -> fs' !! path = Some Dir) /\
    (forall q x, fs' !! q = Some x -> fs !! q = Some x \/ (x = Dir /\ q `prefix_of` path /\ may q = true)) /\
    ((forall q, q `prefix_of` path -> may q = true /\ fs !! q <> Some File) -> ok = true)) as Hone.
  { intros fs0 Hf Hsub Hnew. destruct (make_one may path fs0) as [ok fs'] eqn:E. destruct (make_one_spec _ _ _ _ _ E Hf) as (H1 & H2 & H3 & H4).
    exists ok, fs'. split_and!; [done|by transitivity fs0|auto| |].
    - intros q x Hq. destruct (H4 q x Hq) as [?|(-> & -> & ?)]; [auto|right; auto].
    - intros Hall. apply H3, Hall. done. }
  destruct (fs !! path) as [[]|] eqn:Hp.
  - eexists _, _. split; [done|]. split_and!; auto.
  - eexists _, _. split; [done|]. split_and!; auto; [done|]. intros Hall. by destruct (Hall path (reflexivity _)) as [_ ?].
  - destruct (parent path) as [[|c p]|] eqn:Hpar; [apply Hone; auto; congruence| |apply Hone; auto; congruence].
    destruct (parent_prefix _ _ Hpar) as [Hpre Hshort]. destruct (IH (c :: p) fs) as (ok & fs1 & -> & H1 & H2 & H3 & H4); [lia|].
    assert (forall q x, fs1 !! q = Some x -> fs !! q = Some x \/ (x = Dir /\ q `prefix_of` path /\ may q = true)) as H3'.
    { intros q x Hq. destruct (H3 q x Hq) as [?|(-> & Hqp & ?)]; [auto|right; split_and!; [done|by etransitivity|done]]. }
    cbn [mbind option_bind]. destruct ok.
    + apply Hone; [|done|done]. intros Hf. destruct (H3 path File Hf) as [?|(? & _)]; congruence.
    + eexists _, _. split; [done|]. split_and!; auto; [done|]. intros Hall. apply H4. intros q Hq. apply Hall. by etransitivity.
Qed.
End Workers.
