(* ===== verification/Sockets.v ===== *)
(** * Descriptors: network/socket.cpp, and the parts that open descriptors themselves:
    [ClusterBus::start], [ClusterLink::connect], the constructor and destructor of
    [EventLoop], [MainReactor::init]

    The system keeps the set of open descriptors. What it answers to a call is an input: a
    new descriptor is one that is not open. Closing a descriptor that is not open is a
    fault ([None]): it may already belong to someone else. *)

From S2P Require Import Prelude Base.
From stdpp Require Import options.

Module Sockets.

Abbreviation descriptors := (gset Z).

Definition sys_close (fd : Z) (k : descriptors) : option descriptors :=
  if bool_decide (fd ∈ k) then Some (k ∖ {[fd]}) else None.

(** A call that opens a descriptor, with its answer. *)
Definition opens (r : option Z) (k : descriptors) : descriptors := match r with Some fd => k ∪ {[fd]} | None => k end.

Definition fresh_answer (r : option Z) (k : descriptors) : bool :=
  match r with Some fd => (0 <=? fd) && bool_decide (fd ∉ k) | None => true end.

(** ** Socket *)

(** [close]: the new [fd_]. *)
Definition close_socket (fd_ : Z) (k : descriptors) : option (Z * descriptors) :=
  if 0 <=? fd_ then k ← sys_close fd_ k; Some (-1, k) else Some (fd_, k).

(** [bind_and_listen] with the answers of [socket], [bind] and [listen]. *)
Definition bind_and_listen (sock : option Z) (bound listening : bool) (fd_ : Z) (k : descriptors)
    : option (bool * Z * descriptors) :=
  '(_, k) ← close_socket fd_ k;
  match sock with
  | None => Some (false, -1, k)
  | Some fd =>
      let k := opens sock k in
      if negb bound then '(fd_, k) ← close_socket fd k; Some (false, fd_, k)
      else if negb listening then '(fd_, k) ← close_socket fd k; Some (false, fd_, k)
      else Some (true, fd, k)
  end.

Definition valid (fd_ : Z) : bool := 0 <=? fd_.

(** Any program over sockets: the objects by number, and the descriptors that [accept] has
    given out and nobody has taken. *)
Record sockets := mkSockets { objects : gmap nat Z; loose : gset Z; open_set : descriptors }.

Definition no_sockets : sockets := mkSockets ∅ ∅ ∅.

Inductive operation :=
  | Construct (i : nat)                                       (** [Socket()] *)
  | Adopt (i : nat) (fd : Z)                                  (** [Socket(fd)] of an accepted one *)
  | MoveConstruct (i j : nat)                                 (** [i] from [j] *)
  | MoveAssign (i j : nat)
  | Listen (i : nat) (sock : option Z) (bound listening : bool)
  | Accept (i : nat) (r : option Z)
  | Close (i : nat)
  | Destroy (i : nat)
  | CloseLoose (fd : Z).                                      (** [::close] of an accepted one *)

(** The result: not possible here, a fault, or a state. *)
Inductive result := Stuck | Fault | Next (s : sockets).

Definition to_result (r : option sockets) : result := match r with Some s => Next s | None => Fault end.

Definition operate (op : operation) (s : sockets) : result :=
  let obj i := objects s !! i in
  match op with
  | Construct i =>
      match obj i with None => Next (mkSockets (<[i := -1]> (objects s)) (loose s) (open_set s)) | Some _ => Stuck end
  | Adopt i fd =>
      match obj i with
      | None => if bool_decide (fd ∈ loose s) then Next (mkSockets (<[i := fd]> (objects s)) (loose s ∖ {[fd]}) (open_set s)) else Stuck
      | Some _ => Stuck
      end
  | MoveConstruct i j =>
      match obj i, obj j with
      | None, Some fd => Next (mkSockets (<[i := fd]> (<[j := -1]> (objects s))) (loose s) (open_set s))
      | _, _ => Stuck
      end
  | MoveAssign i j =>
      match obj i, obj j with
      | Some old, Some fd =>
          if bool_decide (i = j) then Next s
          else to_result ('(_, k) ← close_socket old (open_set s);
                          Some (mkSockets (<[j := -1]> (<[i := fd]> (objects s))) (loose s) k))
      | _, _ => Stuck
      end
  | Listen i sock bound listening =>
      match obj i with
      | Some fd_ =>
          if fresh_answer sock (open_set s) then
            to_result ('(_, fd_, k) ← bind_and_listen sock bound listening fd_ (open_set s);
                       Some (mkSockets (<[i := fd_]> (objects s)) (loose s) k))
          else Stuck
      | None => Stuck
      end
  | Accept i r =>
      match obj i with
      | Some _ => if fresh_answer r (open_set s) then Next (mkSockets (objects s) (opens r (loose s)) (opens r (open_set s))) else Stuck
      | None => Stuck
      end
  | Close i =>
      match obj i with
      | Some fd_ => to_result ('(fd_, k) ← close_socket fd_ (open_set s); Some (mkSockets (<[i := fd_]> (objects s)) (loose s) k))
      | None => Stuck
      end
  | Destroy i =>
      match obj i with
      | Some fd_ => to_result ('(_, k) ← close_socket fd_ (open_set s); Some (mkSockets (delete i (objects s)) (loose s) k))
      | None => Stuck
      end
  | CloseLoose fd =>
      if bool_decide (fd ∈ loose s) then
        to_result (k ← sys_close fd (open_set s); Some (mkSockets (objects s) (loose s ∖ {[fd]}) k))
      else Stuck
  end.

Inductive reachable : sockets -> Prop :=
  | reach_none : reachable no_sockets
  | reach_op op s s' : reachable s -> operate op s = Next s' -> reachable s'.

(** ** ClusterBus::start *)

Record Bus := mkBus { bus_running : bool; bus_loop : bool; listen_fd_ : Z; listen_port_ : Z; listen_channel_ : bool }.

(** The answers of [socket], [bind], [listen] and of the two calls of [fcntl]. *)
Definition bus_start (server_port : Z) (sock : option Z) (bound listening getfl setfl : bool) (b : Bus) (k : descriptors)
    : option (bool * Bus * descriptors) :=
  if bus_running b then Some (true, b, k)
  else if negb (bus_loop b) then Some (false, b, k)
  else
    match sock with
    | None => Some (false, mkBus false (bus_loop b) (-1) (listen_port_ b) (listen_channel_ b), k)
    | Some fd =>
        let k := opens sock k in
        if negb bound || negb listening || negb getfl || negb setfl then
          k ← sys_close fd k; Some (false, mkBus false (bus_loop b) (-1) (listen_port_ b) (listen_channel_ b), k)
        else Some (true, mkBus true (bus_loop b) fd (server_port + 10000) true, k)
    end.

(** What [stop] does to the listening socket. *)
Definition bus_stop (b : Bus) (k : descriptors) : option (Bus * descriptors) :=
  if negb (bus_running b) then Some (b, k)
  else
    '(fd_, k) ← close_socket (listen_fd_ b) k;
    Some (mkBus false (bus_loop b) fd_ (listen_port_ b) false, k).

(** ** ClusterLink::connect *)

Record LinkFd := mkLinkFd { connected_ : bool; link_fd : Z; registered_fd_ : Z }.

Definition new_link_fd : LinkFd := mkLinkFd false (-1) (-1).

Inductive connect_answer := Connected | InProgress | ConnectFailed.

Definition link_connect (sock : option Z) (ip_valid : bool) (answer : connect_answer) (l : LinkFd) (k : descriptors)
    : option (bool * LinkFd * descriptors) :=
  if connected_ l then Some (true, l, k)
  else
    match sock with
    | None => Some (false, mkLinkFd false (-1) (registered_fd_ l), k)
    | Some fd =>
        let k := opens sock k in
        if negb ip_valid then k ← sys_close fd k; Some (false, mkLinkFd false (-1) fd, k)
        else
          match answer with
          | ConnectFailed => k ← sys_close fd k; Some (false, mkLinkFd false (-1) fd, k)
          | Connected | InProgress => Some (true, mkLinkFd true fd fd, k)
          end
    end.

Definition link_disconnect (l : LinkFd) (k : descriptors) : option (LinkFd * descriptors) :=
  if negb (connected_ l) then Some (l, k)
  else
    '(fd_, k) ← close_socket (link_fd l) k; Some (mkLinkFd false fd_ (registered_fd_ l), k).

(** ** EventLoop *)

Record LoopFds := mkLoopFds { epoll_fd_ : Z; wakeup_fd_ : Z; pipe_write : Z }.

(** [EventLoop()] with the answers of [epoll_create1] and [pipe]; that [epoll_ctl] fails
    changes nothing here. *)
Definition loop_construct (epoll : option Z) (pipe : option (Z * Z)) (k : descriptors) : option (LoopFds * descriptors) :=
  match epoll with
  | None => Some (mkLoopFds (-1) (-1) (-1), k)
  | Some e =>
      let k := opens epoll k in
      match pipe with
      | None => k ← sys_close e k; Some (mkLoopFds (-1) (-1) (-1), k)
      | Some (r, w) => Some (mkLoopFds e r w, opens (Some w) (opens (Some r) k))
      end
  end.

Definition loop_destruct (l : LoopFds) (k : descriptors) : option descriptors :=
  '(_, k) ← close_socket (epoll_fd_ l) k;
  '(_, k) ← close_socket (wakeup_fd_ l) k;
  '(_, k) ← close_socket (pipe_write l) k;
  Some k.

(** ** Ownership *)

(** Every open descriptor belongs to one object, or is an accepted one that nobody has
    taken. *)
Record owned (s : sockets) : Prop := {
  ow_open fd : fd ∈ open_set s <-> fd ∈ loose s \/ exists i, objects s !! i = Some fd /\ 0 <= fd;
  ow_unique i j fd : objects s !! i = Some fd -> objects s !! j = Some fd -> 0 <= fd -> i = j;
  ow_loose i fd : objects s !! i = Some fd -> fd ∉ loose s;
  ow_nonneg fd : fd ∈ loose s -> 0 <= fd
}.

Lemma no_sockets_owned : owned no_sockets.
Proof.
  split; cbn; [|by intros i j fd ?%lookup_empty_Some|by intros i fd ?%lookup_empty_Some|by intros fd ?%elem_of_empty].
  intros fd. split; [by intros ?%elem_of_empty|]. intros [?%elem_of_empty|(i & ?%lookup_empty_Some & _)]; done.
Qed.

(** An object may hold any negative number. *)
Lemma owned_insert_neg i v s :
  owned s -> v < 0 -> (forall fd, objects s !! i = Some fd -> fd < 0) -> owned (mkSockets (<[i := v]> (objects s)) (loose s) (open_set s)).
Proof.
  intros [H1 H2 H3 H4] Hv Hi. split; cbn; [| | |done].
  - intros fd. rewrite H1. split; (intros [?|(j & Hj & Hfd)]; [by left|right]; exists j; split; [|done]).
    + rewrite lookup_insert_ne; [done|]. intros ->. apply Hi in Hj. lia.
    + apply lookup_insert_Some in Hj as [[_ ?]|[_ ?]]; [lia|done].
  - intros j k fd [[_ ?]|[_ Hj]]%lookup_insert_Some [[_ ?]|[_ Hk]]%lookup_insert_Some ?; try lia. by eapply H2.
  - intros j fd [[_ <-]|[_ Hj]]%lookup_insert_Some; [|by eapply H3]. intros ?%H4. lia.
Qed.

(** An object gives its descriptor up. *)
Lemma owned_close i fd s :
  owned s -> objects s !! i = Some fd ->
  exists v k, close_socket fd (open_set s) = Some (v, k) /\ v < 0 /\
    owned (mkSockets (<[i := v]> (objects s)) (loose s) k) /\ k ⊆ open_set s.
Proof.
  intros Ho Hi. unfold close_socket. destruct (Z.leb_spec 0 fd) as [Hfd|Hfd].
  - pose proof Ho as [H1 H2 H3 H4]. assert (fd ∈ open_set s) as Hin by (apply H1; right; by exists i).
    unfold sys_close. rewrite bool_decide_eq_true_2 by done. cbn. eexists _, _. split; [done|]. split; [done|]. split; [|set_solver].
    split; cbn; [| | |done].
    + intros x. rewrite elem_of_difference, elem_of_singleton, H1. split.
      * intros [[?|(j & Hj & Hx)] Hne]; [by left|]. right. exists j. split; [|done]. rewrite lookup_insert_ne; [done|congruence].
      * intros [Hl|(j & [[_ <-]|[Hne Hj]]%lookup_insert_Some & Hx)]; [|lia|].
        -- split; [by left|]. intros ->. by apply (H3 i fd).
        -- split; [right; by exists j|]. intros ->. destruct Hne. by eapply H2.
    + intros j k x [[_ <-]|[_ Hj]]%lookup_insert_Some [[_ ?]|[_ Hk]]%lookup_insert_Some ?; try lia. by eapply H2.
    + intros j x [[_ <-]|[_ Hj]]%lookup_insert_Some; [|by eapply H3]. intros ?%H4. lia.
  - eexists _, _. split; [done|]. split; [done|]. split; [|done]. apply owned_insert_neg; [done..|]. intros x Hx. congruence.
Qed.

(** An object that has none gets one that no object has. *)
Lemma owned_give i fd L k s :
  owned s -> (forall v, objects s !! i = Some v -> v < 0) -> 0 <= fd ->
  (fd ∈ loose s /\ L = loose s ∖ {[fd]} /\ k = open_set s) \/ ((fd ∉ open_set s) /\ L = loose s /\ k = open_set s ∪ {[fd]}) ->
  owned (mkSockets (<[i := fd]> (objects s)) L k).
Proof.
  intros [H1 H2 H3 H4] Hi Hfd Hcase.
  assert (forall j, objects s !! j = Some fd -> False) as Hno.
  { intros j Hj. destruct Hcase as [(Hl & _)|(Hl & _)]; [by eapply H3|]. apply Hl, H1. right. by exists j. }
  assert (forall x, x ∈ k <-> x = fd \/ x ∈ open_set s) as Hk.
  { destruct Hcase as [(Hl & -> & ->)|(Hl & -> & ->)]; [|set_solver]. intros x. split; [by right|]. intros [->|?]; [apply H1; by left|done]. }
  assert (forall x, x ∈ L <-> x <> fd /\ x ∈ loose s) as HL.
  { destruct Hcase as [(Hl & -> & ->)|(Hl & -> & ->)]; [set_solver|]. intros x. split; [|tauto]. intros Hx. split; [|done].
    intros ->. apply Hl, H1. by left. }
  split; cbn.
  - intros x. rewrite Hk, HL, H1. split.
    + intros [->|[Hl|(j & Hj & Hx)]]; [right; exists i; split; [apply lookup_insert_eq|done]| |].
      * destruct (decide (x = fd)) as [->|]; [right; exists i; split; [apply lookup_insert_eq|done]|by left].
      * right. exists j. split; [|done]. rewrite lookup_insert_ne; [done|]. intros ->. apply Hi in Hj. lia.
    + intros [[? Hl]|(j & [[_ ->]|[_ Hj]]%lookup_insert_Some & Hx)]; [right; by left|by left|right; right; by exists j].
  - intros j j' x [[-> <-]|[_ Hj]]%lookup_insert_Some [[<- ?]|[_ Hk']]%lookup_insert_Some Hx; try done.
    + by destruct (Hno j').
    + subst x. by destruct (Hno j).
    + by eapply H2.
  - intros j x [[_ <-]|[_ Hj]]%lookup_insert_Some Hx%HL; [by destruct Hx|]. exact (H3 j x Hj (proj2 Hx)).
  - intros x [_ Hx]%HL. auto.
Qed.

Lemma owned_delete i v s : owned s -> objects s !! i = Some v -> v < 0 -> owned (mkSockets (delete i (objects s)) (loose s) (open_set s)).
Proof.
  intros [H1 H2 H3 H4] Hi Hv. split; cbn; [| | |done].
  - intros x. rewrite H1. split; (intros [?|(j & Hj & Hx)]; [by left|right]; exists j; split; [|done]).
    + rewrite lookup_delete_ne; [done|]. intros ->. simplify_eq. lia.
    + by apply lookup_delete_Some in Hj as [_ ?].
  - intros j k x [_ Hj]%lookup_delete_Some [_ Hk]%lookup_delete_Some. by eapply H2.
  - intros j x [_ Hj]%lookup_delete_Some. by eapply H3.
Qed.

Lemma bind_and_listen_owned i fd_ sock bound listening s :
  owned s -> objects s !! i = Some fd_ -> fresh_answer sock (open_set s) = true ->
  exists r fd k, bind_and_listen sock bound listening fd_ (open_set s) = Some (r, fd, k) /\
    owned (mkSockets (<[i := fd]> (objects s)) (loose s) k) /\ r = valid fd.
Proof.
  intros Ho Hi Hf. destruct (owned_close i fd_ s Ho Hi) as (v & k & Hc & Hv & Ho' & Hk).
  unfold bind_and_listen. rewrite Hc. cbn [mbind option_bind].
  assert (forall v' : Z, v' < 0 -> owned (mkSockets (<[i := v']> (objects s)) (loose s) k)) as Hneg.
  { intros v' Hv'. rewrite <-(insert_insert_eq (objects s) i v' v).
    refine (owned_insert_neg i v' _ Ho' Hv' _). cbn. intros x [[_ <-]|[? _]]%lookup_insert_Some; done. }
  destruct sock as [fd|]; [|eexists _, _, _; split; [done|]; split; [by apply Hneg|done]].
  cbn in Hf. bsplit. apply bool_decide_eq_true in H0. apply Z.leb_le in H.
  assert (close_socket fd (k ∪ {[fd]}) = Some (-1, k)) as Hback.
  { unfold close_socket, sys_close. rewrite (proj2 (Z.leb_le _ _)) by done. rewrite bool_decide_eq_true_2 by set_solver.
    cbn. do 2 f_equal. set_solver. }
  cbn [opens]. destruct bound; cbn [negb].
  2: rewrite Hback; eexists _, _, _; split; [done|]; split; [by apply Hneg|done].
  destruct listening; cbn [negb].
  2: rewrite Hback; eexists _, _, _; split; [done|]; split; [by apply Hneg|done].
  eexists _, _, _. split; [done|]. split; [|unfold valid; by rewrite (proj2 (Z.leb_le _ _))].
  rewrite <-(insert_insert_eq (objects s) i fd v). refine (owned_give i fd _ _ _ Ho' _ _ _); [|done|].
  - cbn. intros x [[_ <-]|[? _]]%lookup_insert_Some; done.
  - right. cbn. set_solver.
Qed.

(** A descriptor changes hands: [i], which has none, takes that of [j]. *)
Lemma owned_transfer i j fd s :
  owned s -> objects s !! j = Some fd -> i <> j -> (forall v, objects s !! i = Some v -> v < 0) ->
  owned (mkSockets (<[i := fd]> (<[j := -1]> (objects s))) (loose s) (open_set s)).
Proof.
  intros [H1 H2 H3 H4] Hj Hij Hi. split; cbn; [| | |done].
  - intros x. rewrite H1. split.
    + intros [?|(m & Hm & Hx)]; [by left|right]. destruct (decide (m = j)) as [->|].
      * exists i. simplify_eq. by rewrite lookup_insert_eq.
      * exists m. rewrite !lookup_insert_ne; [done|done|]. intros ->. apply Hi in Hm. lia.
    + intros [?|(m & [[_ <-]|[_ [[_ <-]|[_ Hm]]%lookup_insert_Some]]%lookup_insert_Some & Hx)]; [by left| |lia|];
        right; [by exists j|by exists m].
  - intros m n x [[<- <-]|[? [[_ <-]|[Hmj Hm]]%lookup_insert_Some]]%lookup_insert_Some
      [[<- ?]|[? [[_ ?]|[Hnj Hn]]%lookup_insert_Some]]%lookup_insert_Some Hx; try done; try lia.
    + destruct Hnj. by eapply H2.
    + subst x. destruct Hmj. by eapply H2.
    + by eapply H2.
  - intros m x [[_ <-]|[_ [[_ <-]|[_ Hm]]%lookup_insert_Some]]%lookup_insert_Some; [by eapply H3| |by eapply H3].
    intros ?%H4. lia.
Qed.

Lemma operate_owned op s :
  owned s -> match operate op s with Fault => False | Stuck => True | Next s' => owned s' end.
Proof.
  intros Ho. destruct op as [i|i fd|i j|i j|i sock bound listening|i r|i|i|fd]; cbn [operate].
  - destruct (objects s !! i) eqn:Hi; [done|]. apply owned_insert_neg; [done..|]. intros fd. congruence.
  - destruct (objects s !! i) eqn:Hi; [done|]. case_bool_decide as Hl; [|done]. apply owned_give; [done| | |].
    + intros v. congruence.
    + by apply (ow_nonneg s Ho).
    + by left.
  - destruct (objects s !! i) eqn:Hi; [done|]. destruct (objects s !! j) as [fd|] eqn:Hj; [|done].
    apply owned_transfer; [done..| |]; [congruence|]. intros v. congruence.
  - destruct (objects s !! i) as [old|] eqn:Hi; [|done]. destruct (objects s !! j) as [fd|] eqn:Hj; [|done].
    case_bool_decide as Hij; [done|]. destruct (owned_close i old s Ho Hi) as (v & k & -> & Hv & Ho' & _). cbn.
    pose proof (owned_transfer i j fd _ Ho') as Ht. cbn in Ht.
    rewrite lookup_insert_ne, (insert_insert_ne _ j i), insert_insert_eq in Ht by congruence.
    rewrite (insert_insert_ne _ j i) by congruence. apply Ht; [done..|]. intros x. rewrite lookup_insert_eq. congruence.
  - destruct (objects s !! i) as [fd_|] eqn:Hi; [|done]. destruct (fresh_answer sock (open_set s)) eqn:Hf; [|done].
    by destruct (bind_and_listen_owned i fd_ sock bound listening s Ho Hi Hf) as (r & fd & k & -> & Ho' & _).
  - destruct (objects s !! i) as [fd_|] eqn:Hi; [|done]. destruct (fresh_answer r (open_set s)) eqn:Hf; [|done].
    destruct r as [fd|]; [|by destruct s]. cbn in Hf. bsplit. apply bool_decide_eq_true in H0. apply Z.leb_le in H.
    destruct Ho as [H1 H2 H3 H4]. split; cbn; [|done| |].
    + intros x. rewrite !elem_of_union, elem_of_singleton, H1. tauto.
    + intros j x Hj. specialize (H3 j x Hj). rewrite elem_of_union, elem_of_singleton. intros [?| ->]; [done|].
      apply H0, H1. right. by exists j.
    + intros x [?| ->%elem_of_singleton]%elem_of_union; auto.
  - destruct (objects s !! i) as [fd_|] eqn:Hi; [|done]. by destruct (owned_close i fd_ s Ho Hi) as (v & k & -> & Hv & Ho' & _).
  - destruct (objects s !! i) as [fd_|] eqn:Hi; [|done]. destruct (owned_close i fd_ s Ho Hi) as (v & k & -> & Hv & Ho' & _). cbn.
    pose proof (owned_delete i v _ Ho') as Hd. cbn in Hd. rewrite delete_insert_eq in Hd. apply Hd; [apply lookup_insert_eq|done].
  - case_bool_decide as Hl; [|done]. destruct Ho as [H1 H2 H3 H4].
    unfold sys_close. rewrite bool_decide_eq_true_2 by (apply H1; by left). cbn. split; cbn; [|done| |].
    + intros x. rewrite !elem_of_difference, elem_of_singleton, H1. split.
      * intros [[?|?] ?]; [by left|by right].
      * intros [[? ?]|(j & Hj & Hx)]; [tauto|]. split; [right; by exists j|]. intros ->. by apply (H3 j fd).
    + intros j x Hj [? _]%elem_of_difference. by apply (H3 j x).
    + intros x [? _]%elem_of_difference. auto.
Qed.

(** Sockets own their descriptors. In any program that constructs, moves, assigns,
    binds, accepts, closes and destroys sockets, whatever the system answers, no descriptor
    is closed that is not open; each open one belongs to exactly one object or is an
    accepted one that nobody has taken; and once the objects are gone and the accepted ones
    taken or closed, none is open. *)
Theorem sockets_own s :
  reachable s ->
  (forall op, operate op s <> Fault) /\
  (forall fd, fd ∈ open_set s <-> fd ∈ loose s \/ exists i, objects s !! i = Some fd /\ valid fd = true) /\
  (forall i j fd, objects s !! i = Some fd -> objects s !! j = Some fd -> valid fd = true -> i = j) /\
  (objects s = ∅ -> loose s = ∅ -> open_set s = ∅).
Proof.
  intros Hr. assert (owned s) as Ho.
  { induction Hr as [|op s s' _ IH Hop]; [apply no_sockets_owned|]. pose proof (operate_owned op s IH) as H. by rewrite Hop in H. }
  unfold valid. split_and!.
  - intros op Hop. pose proof (operate_owned op s Ho) as H. by rewrite Hop in H.
  - intros fd. rewrite (ow_open s Ho). by setoid_rewrite Z.leb_le.
  - intros i j fd Hi Hj ?%Z.leb_le. by eapply (ow_unique s Ho).
  - intros Hobj Hl. apply set_eq. intros fd. rewrite (ow_open s Ho), Hobj, Hl. set_solver.
Qed.

Lemma close_opened fd k : 0 <= fd -> fd ∉ k -> sys_close fd (k ∪ {[fd]}) = Some k /\ close_socket fd (k ∪ {[fd]}) = Some (-1, k).
Proof.
  intros Hfd Hk. assert (sys_close fd (k ∪ {[fd]}) = Some k) as H.
  { unfold sys_close. rewrite bool_decide_eq_true_2 by set_solver. f_equal. set_solver. }
  split; [done|]. unfold close_socket. rewrite (proj2 (Z.leb_le _ _)) by done. by rewrite H.
Qed.

Lemma fresh_answer_Some fd k : fresh_answer (Some fd) k = true -> 0 <= fd /\ fd ∉ k.
Proof. cbn. intros [? ?%bool_decide_eq_true]%andb_prop. split; [by apply Z.leb_le|done]. Qed.

(** The bus, a link and an event loop open descriptors of their own: on every path, errors
    included, they hold exactly what they have opened, and give it back when they end. *)
Theorem descriptors_given_back sock (k : descriptors) :
  fresh_answer sock k = true ->
  (forall port bound listening getfl setfl b, bus_running b = false -> bus_loop b = true ->
    exists r b' k', bus_start port sock bound listening getfl setfl b k = Some (r, b', k') /\ bus_running b' = r /\
      k' = (if r then k ∪ {[listen_fd_ b']} else k) /\ exists b'', bus_stop b' k' = Some (b'', k)) /\
  (forall ip_valid answer, exists r l' k', link_connect sock ip_valid answer new_link_fd k = Some (r, l', k') /\ connected_ l' = r /\
      k' = (if r then k ∪ {[link_fd l']} else k) /\ exists l'', link_disconnect l' k' = Some (l'', k)) /\
  (forall pipe, match pipe with
                | Some (r, w) => fresh_answer (Some r) (opens sock k) = true /\ fresh_answer (Some w) (opens (Some r) (opens sock k)) = true
                | None => True
                end ->
     exists l k', loop_construct sock pipe k = Some (l, k') /\ loop_destruct l k' = Some k).
Proof.
  intros Hf. split_and!.
  - intros port bound listening getfl setfl b Hr Hl. unfold bus_start. rewrite Hr, Hl. cbn [negb].
    destruct sock as [fd|]; [|by eexists _, _, _; split_and!; try done; eexists]. apply fresh_answer_Some in Hf as [Hfd Hk].
    destruct (close_opened fd k Hfd Hk) as [Hc Hc']. cbn [opens]. rewrite Hc.
    destruct (_ || _); cbn; eexists _, _, _; split_and!; try done; [by eexists|]. unfold bus_stop. cbn. rewrite Hc'. by eexists.
  - intros ip_valid answer. unfold link_connect. cbn [new_link_fd connected_].
    destruct sock as [fd|]; [|by eexists _, _, _; split_and!; try done; eexists]. apply fresh_answer_Some in Hf as [Hfd Hk].
    destruct (close_opened fd k Hfd Hk) as [Hc Hc']. cbn [opens]. rewrite Hc.
    destruct ip_valid, answer; cbn; eexists _, _, _; split_and!; try done; try (by eexists); unfold link_disconnect; cbn; rewrite Hc'; by eexists.
  - intros pipe Hp. unfold loop_construct, loop_destruct. destruct sock as [fd|]; [|by eexists _, _].
    apply fresh_answer_Some in Hf as [Hfd Hk]. destruct (close_opened fd k Hfd Hk) as [Hc Hc']. cbn [opens] in *.
    destruct pipe as [[r w]|]; [|rewrite Hc; by eexists _, _]. destruct Hp as [[Hr1 Hr2]%fresh_answer_Some [Hw1 Hw2]%fresh_answer_Some].
    eexists _, _. split; [done|]. cbn [epoll_fd_ wakeup_fd_ pipe_write].
    replace (k ∪ {[fd]} ∪ {[r]} ∪ {[w]}) with (k ∪ {[r]} ∪ {[w]} ∪ {[fd]}) by set_solver.
    rewrite (proj2 (close_opened fd (k ∪ {[r]} ∪ {[w]}) Hfd ltac:(set_solver))). cbn.
    replace (k ∪ {[r]} ∪ {[w]}) with (k ∪ {[w]} ∪ {[r]}) by set_solver.
    rewrite (proj2 (close_opened r (k ∪ {[w]}) Hr1 ltac:(set_solver))). cbn.
    by rewrite (proj2 (close_opened w k Hw1 ltac:(set_solver))).
Qed.

Lemma sockets_own_witness :
  exists s, reachable s /\ objects s = {[0%nat := 5]} /\ open_set s = {[5]} /\ (forall op, operate op s <> Fault).
Proof.
  assert (forall ops s, foldl (fun r op => match r with Next s => operate op s | r => r end) (Next no_sockets) ops = Next s -> reachable s) as Hrun.
  { intros ops. assert (forall s0 s, reachable s0 ->
      foldl (fun r op => match r with Next s => operate op s | r => r end) (Next s0) ops = Next s -> reachable s) as H;
      [|intros s; apply H, reach_none].
    induction ops as [|op ops IH]; intros s0 s H0; cbn; [by intros [= <-]|]. destruct (operate op s0) as [| |s1] eqn:E.
    - clear. induction ops; [done|exact IHops].
    - clear. induction ops; [done|exact IHops].
    - apply IH. by eapply reach_op. }
  eexists. split; [eapply (Hrun [Construct 1; Listen 1 (Some 4) true true; Accept 1 (Some 5); Adopt 0 5; Destroy 1]); vm_compute; reflexivity|].
  split; [reflexivity|]. split; [reflexivity|].
  refine (proj1 (sockets_own _ _)). eapply (Hrun [Construct 1; Listen 1 (Some 4) true true; Accept 1 (Some 5); Adopt 0 5; Destroy 1]).
  vm_compute. reflexivity.
Defined.
End Sockets.
