(* ===== verification/ClusterLife.v ===== *)
(** * The start and the stop of the cluster: [ClusterServer::start] and [stop]

    The flag of the server, the bus with its listening socket (Sockets.v), the heartbeat
    (BusConn.v) and the file of nodes (NodesFile.v), in the order of the source. *)

From S2P Require Import Prelude Base Buffer Slots Cluster Link BusConn Config NodesFile Sockets.
From stdpp Require Import options.

Module ClusterLife.
Import Text Cluster.

Section life.
Context {B : Type} `{!ByteQueue B}.

Record Parts := mkParts {
  server : ClusterServer;
  connection_ : BusConn.ClusterConnection (B := B);
  cluster_bus_ : Sockets.Bus;
  fds : Sockets.descriptors;
  files : gmap bytes bytes
}.

Definition set_running (b : bool) (s : ClusterServer) : ClusterServer :=
  mkServer (enabled_ s) b (my_node_ s) (state_ s) (outbox s).

(** What the system answers to the calls of [ClusterBus::start]. *)
Record answers := mkAnswers { a_socket : option Z; a_bound : bool; a_listening : bool; a_getfl : bool; a_setfl : bool }.

(** The result of the bus is not looked at. [None] is a descriptor closed twice. *)
Definition start (now : Z) (c : Config.Config) (a : answers) (p : Parts) : option Parts :=
  if negb (enabled_ (server p)) then Some p
  else
    let s := set_running true (server p) in
    let server_port := Config.getInt (lit "port") 6379 c in
    '(_, bus, k) ← Sockets.bus_start server_port (a_socket a) (a_bound a) (a_listening a) (a_getfl a) (a_setfl a) (cluster_bus_ p) (fds p);
    Some (mkParts s (BusConn.start_heartbeat now (connection_ p)) bus k (files p)).

(** [nodes] is [getAllNodes] in the order of one iteration. *)
Definition stop (c : Config.Config) (can_open : bool) (nodes : list ClusterNode) (p : Parts) : option Parts :=
  if negb (enabled_ (server p)) then Some p
  else
    let f := NodesFile.saveNodesConf c can_open nodes (server p) (files p) in
    '(bus, k) ← Sockets.bus_stop (cluster_bus_ p) (fds p);
    Some (mkParts (set_running false (server p)) (BusConn.stop_heartbeat (connection_ p)) bus k f).

(** A cluster that is started and stopped: the server is marked as running and the
    heartbeat beats from the start to the stop, whatever the system answers; afterwards
    every descriptor is given back, and the nodes are in their file. One that is switched
    off does nothing. *)
Theorem cluster_starts_stops now c a can_open nodes p :
  Sockets.bus_running (cluster_bus_ p) = false -> Sockets.bus_loop (cluster_bus_ p) = true ->
  Sockets.fresh_answer (a_socket a) (fds p) = true -> BusConn.heartbeat_running_ (connection_ p) = false ->
  (enabled_ (server p) = false -> start now c a p = Some p /\ stop c can_open nodes p = Some p) /\
  (enabled_ (server p) = true ->
    exists p1 p2, start now c a p = Some p1 /\ stop c can_open nodes p1 = Some p2 /\
      running_ (server p1) = true /\ BusConn.heartbeat_running_ (connection_ p1) = true /\
      (Sockets.bus_running (cluster_bus_ p1) = true ->
        Sockets.listen_port_ (cluster_bus_ p1) = Config.getInt (lit "port") 6379 c + 10000 /\ Sockets.listen_fd_ (cluster_bus_ p1) ∈ fds p1) /\
      running_ (server p2) = false /\ BusConn.heartbeat_running_ (connection_ p2) = false /\
      Sockets.bus_running (cluster_bus_ p2) = false /\ fds p2 = fds p /\
      files p2 = NodesFile.saveNodesConf c can_open nodes (server p1) (files p)).
Proof.
  intros Hb Hl Hf Hh. split; intros He.
  - unfold start, stop. by rewrite He.
  - destruct (Sockets.descriptors_given_back (a_socket a) (fds p) Hf) as [Hbus _].
    destruct (Hbus (Config.getInt (lit "port") 6379 c) (a_bound a) (a_listening a) (a_getfl a) (a_setfl a) (cluster_bus_ p) Hb Hl)
      as (r & b' & k' & Hs & Hr & Hk & b'' & Hstop).
    unfold start, stop. rewrite He. cbn [negb]. rewrite Hs. cbn [mbind option_bind]. eexists _, _. split; [reflexivity|].
    cbn [server set_running enabled_ cluster_bus_ fds files connection_]. rewrite He. cbn [negb]. rewrite Hstop. cbn [mbind option_bind].
    split; [reflexivity|]. cbn [server set_running running_ cluster_bus_ fds files connection_].
    unfold BusConn.start_heartbeat, BusConn.stop_heartbeat. rewrite Hh. cbn. split_and!; try done.
    + intros Hr'. rewrite Hr' in Hr. subst r k'. split; [|set_solver].
      unfold Sockets.bus_start in Hs. rewrite Hb, Hl in Hs. cbn in Hs. destruct (a_socket a) as [fd|]; [|done].
      destruct (_ || _) in Hs; [by destruct (Sockets.sys_close _ _) in Hs|]. by injection Hs as <- _.
    + unfold Sockets.bus_stop in Hstop. destruct (negb (Sockets.bus_running b')) eqn:En.
      * injection Hstop as <- _. by apply negb_true_iff in En.
      * destruct (Sockets.close_socket _ _) as [[fd k]|] in Hstop; [|done]. by injection Hstop as <- _.
Qed.

(** A start whose bus cannot listen counts as one: the node beats and takes part in
    failovers, and nobody can reach it. *)
Theorem deaf_start now c p :
  enabled_ (server p) = true -> Sockets.bus_running (cluster_bus_ p) = false -> Sockets.bus_loop (cluster_bus_ p) = true ->
  BusConn.heartbeat_running_ (connection_ p) = false ->
  exists p1, start now c (mkAnswers None true true true true) p = Some p1 /\
    running_ (server p1) = true /\ BusConn.heartbeat_running_ (connection_ p1) = true /\ Sockets.bus_running (cluster_bus_ p1) = false.
Proof.
  intros He Hb Hl Hh. unfold start, Sockets.bus_start. rewrite He, Hb, Hl. cbn. eexists. split; [done|].
  unfold BusConn.start_heartbeat. by rewrite Hh.
Qed.
End life.
End ClusterLife.
