(* ===== verification/EventLoop.v ===== *)
(** * The event loop: network/event_loop.cpp

    The thread of a loop interleaved with the threads that post tasks to it and with the
    call of [quit]: the tests of the flag, [epoll_wait] with its time limit, the pipe that
    wakes it up, the timer for the configuration, the rounds of tasks, the dispatch of
    events, and the last round of tasks on the way out. Then the hand-over of accepted
    descriptors by [SubReactor::add_connection], which looks at the flag before it posts.

    A task is a value of any type; what it does is given by the tasks it posts in turn,
    since an exception out of a task is caught and the next one runs. *)

From S2P Require Import Prelude Base.
From stdpp Require Import options.

Module EventLoop.

(** What a pipe holds: a write to a full one fails, since it does not block. *)
Definition pipe_capacity : Z := 65536.

(** [char buf[1024]] of [handle_wakeup]. *)
Definition wakeup_buf : Z := 1024.

Definition config_check_interval_ : Z := 10.

Section event_loop.
Context {A : Type} (posts : A -> list A).

(** What [epoll_wait] gives: the events (the pipe, or a channel whose callback posts
    tasks), no event in 100 ms, an interruption, an error. *)
Inductive ready := Wakeup | Channel (tasks : list A).
Inductive epoll_result := Events (evs : list ready) | Timeout | Interrupted | Failed.

(** Where the thread of the loop is. *)
Inductive place :=
  | Top                                          (** before the first test of [quit_] *)
  | Waiting                                      (** in [epoll_wait] *)
  | Returned (r : epoll_result)                  (** before the second test *)
  | Checking (r : epoll_result)                  (** before the timer for the configuration *)
  | Swapping (r : epoll_result)                  (** before the queue is swapped out *)
  | Draining (tasks : list A) (r : epoll_result)
  | Dispatching (n : Z) (evs : list ready)     (** [n] events in all, these are left *)
  | LastSwap
  | LastDrain (tasks : list A)
  | Ended.

Record EventLoop := mkLoop {
  quit_ : bool;
  pending_tasks_ : list A;
  pipe : Z;                        (** bytes in the pipe *)
  waking : nat;                    (** calls of [queue_in_loop] and [quit] before [wakeup] *)
  events_size : Z;                 (** [events_.size()] *)
  last_config_check_time_ : Z;
  reloads : nat;                   (** calls of [Config::reload] *)
  at_place : place;
  posted : list A;                 (** every task ever queued, in this order *)
  ran : list A                     (** every task that ran, in this order *)
}.

Definition new_loop (now : Z) : EventLoop := mkLoop false [] 0 0 65536 now 0 Top [] [].

Definition goto (p : place) (l : EventLoop) : EventLoop :=
  mkLoop (quit_ l) (pending_tasks_ l) (pipe l) (waking l) (events_size l) (last_config_check_time_ l) (reloads l) p
    (posted l) (ran l).

Definition with_pipe (n : Z) (l : EventLoop) : EventLoop :=
  mkLoop (quit_ l) (pending_tasks_ l) n (waking l) (events_size l) (last_config_check_time_ l) (reloads l) (at_place l)
    (posted l) (ran l).

Definition with_waking (n : nat) (l : EventLoop) : EventLoop :=
  mkLoop (quit_ l) (pending_tasks_ l) (pipe l) n (events_size l) (last_config_check_time_ l) (reloads l) (at_place l)
    (posted l) (ran l).

(** One byte, unless the pipe is full. *)
Definition wakeup (l : EventLoop) : EventLoop :=
  if pipe l <? pipe_capacity then with_pipe (pipe l + 1) l else l.

(** The part of [queue_in_loop] under the mutex. *)
Definition push_task (t : A) (l : EventLoop) : EventLoop :=
  mkLoop (quit_ l) (pending_tasks_ l ++ [t]) (pipe l) (waking l) (events_size l) (last_config_check_time_ l) (reloads l)
    (at_place l) (posted l ++ [t]) (ran l).

(** [queue_in_loop] on the thread of the loop. *)
Definition queue_in_loop (t : A) (l : EventLoop) : EventLoop := wakeup (push_task t l).

Definition queue_all (ts : list A) (l : EventLoop) : EventLoop := foldl (fun l t => queue_in_loop t l) l ts.

Definition set_quit (l : EventLoop) : EventLoop :=
  mkLoop true (pending_tasks_ l) (pipe l) (waking l) (events_size l) (last_config_check_time_ l) (reloads l) (at_place l)
    (posted l) (ran l).

(** [time_t] to [difftime] and back: seconds. *)
Definition check_config_reload (now : Z) (l : EventLoop) : EventLoop :=
  if now - last_config_check_time_ l <? config_check_interval_ then l
  else mkLoop (quit_ l) (pending_tasks_ l) (pipe l) (waking l) (events_size l) now (S (reloads l)) (at_place l)
         (posted l) (ran l).

(** The queue is swapped out. *)
Definition swap_tasks (p : list A -> place) (l : EventLoop) : EventLoop :=
  mkLoop (quit_ l) [] (pipe l) (waking l) (events_size l) (last_config_check_time_ l) (reloads l) (p (pending_tasks_ l))
    (posted l) (ran l).

Definition run_task (t : A) (rest : place) (l : EventLoop) : EventLoop :=
  let l := queue_all (posts t) (goto rest l) in
  mkLoop (quit_ l) (pending_tasks_ l) (pipe l) (waking l) (events_size l) (last_config_check_time_ l) (reloads l)
    (at_place l) (posted l) (ran l ++ [t]).

(** What follows the tasks of a round. After a failed call the source looks at [errno]
    only now, when the tasks and the reload may have changed it; [errno] is again what the
    system says, [Failed] for a value that is not [EINTR]. *)
Definition after_drain (errno r : epoll_result) : place :=
  match r with
  | Events evs => Dispatching (zlen evs) evs
  | Timeout => Top
  | Interrupted | Failed => match errno with Failed => LastSwap | _ => Top end
  end.

(** The end of a round: more room when every place was taken. *)
Definition grow_events (n : Z) (l : EventLoop) : EventLoop :=
  mkLoop (quit_ l) (pending_tasks_ l) (pipe l) (waking l)
    (if n =? events_size l then events_size l * 2 else events_size l)
    (last_config_check_time_ l) (reloads l) (at_place l) (posted l) (ran l).

(** What [epoll_wait] may give: the pipe is reported only when it holds a byte, and
    nothing at all only when it holds none. *)
Definition may_return (r : epoll_result) (l : EventLoop) : bool :=
  match r with
  | Events evs =>
      (0 <? zlen evs) && (zlen evs <=? events_size l) &&
      (negb (existsb (fun e => match e with Wakeup => true | Channel _ => false end) evs) || (0 <? pipe l))
  | Timeout => pipe l =? 0
  | Interrupted | Failed => true
  end.

(** The next step of the thread of the loop; [r] and [now] are what the system says. *)
Definition loop_step (r : epoll_result) (now : Z) (l : EventLoop) : option EventLoop :=
  match at_place l with
  | Top => Some (goto (if quit_ l then LastSwap else Waiting) l)
  | Waiting => if may_return r l then Some (goto (Returned r) l) else None
  | Returned r => Some (goto (if quit_ l then LastSwap else Checking r) l)
  | Checking r => Some (goto (Swapping r) (check_config_reload now l))
  | Swapping r => Some (swap_tasks (fun ts => Draining ts r) l)
  | Draining [] ret => Some (goto (after_drain r ret) l)
  | Draining (t :: ts) r => Some (run_task t (Draining ts r) l)
  | Dispatching n [] => Some (goto Top (grow_events n l))
  | Dispatching n (Wakeup :: evs) =>
      if pipe l =? 0 then Some (goto (Dispatching n evs) l)
      else Some (with_pipe (Z.max 0 (pipe l - wakeup_buf)) l)
  | Dispatching n (Channel ts :: evs) => Some (queue_all ts (goto (Dispatching n evs) l))
  | LastSwap => Some (swap_tasks LastDrain l)
  | LastDrain [] => Some (goto Ended l)
  | LastDrain (t :: ts) => Some (run_task t (LastDrain ts) l)
  | Ended => None
  end.

Inductive event :=
  | Post (t : A)                     (** another thread queues a task ... *)
  | Quit                             (** ... or calls [quit] ... *)
  | Wake                             (** ... and one of them goes on to [wakeup] *)
  | Loop (r : epoll_result) (now : Z).

Definition step (e : event) (l : EventLoop) : option EventLoop :=
  match e with
  | Post t => Some (with_waking (S (waking l)) (push_task t l))
  | Quit => Some (with_waking (S (waking l)) (set_quit l))
  | Wake => match waking l with O => None | S n => Some (wakeup (with_waking n l)) end
  | Loop r now => loop_step r now l
  end.

Definition steps (es : list event) (l : EventLoop) : option EventLoop := foldl (fun l e => l ≫= step e) (Some l) es.

Inductive reachable : EventLoop -> Prop :=
  | reach_new now : reachable (new_loop now)
  | reach_step e l l' : reachable l -> step e l = Some l' -> reachable l'.

(** [n] steps of the thread of the loop, while no other thread runs. *)
Inductive alone : nat -> EventLoop -> EventLoop -> Prop :=
  | alone_none l : alone 0 l l
  | alone_step n r now l l' l'' : loop_step r now l = Some l' -> alone n l' l'' -> alone (S n) l l''.

(** The tasks that are out of the queue and have not run. *)
Definition in_hand (l : EventLoop) : list A :=
  match at_place l with Draining ts _ | LastDrain ts => ts | _ => [] end.
End event_loop.

(** ** Accepted descriptors *)

(** What is queued for the loop of a sub-reactor: the registration of a descriptor, or a
    connection that is kept a little longer. Neither queues more. *)
Inductive duty := Register (fd : Z) | Keep.

Definition no_posts (_ : duty) : list duty := [].

(** The accepting thread and the loop it hands descriptors to. *)
Record Handover := mkHandover {
  loop_ : EventLoop (A := duty);
  handing : option Z;          (** [add_connection] past its test of [is_quitting] *)
  accepted : list Z;
  dropped : list Z             (** closed by [add_connection] *)
}.

Definition new_handover (now : Z) : Handover := mkHandover (new_loop now) None [] [].

(** [add_connection]: the test, and then the post. *)
Definition add_connection (fd : Z) (h : Handover) : Handover :=
  if quit_ (loop_ h) then mkHandover (loop_ h) (handing h) (accepted h ++ [fd]) (dropped h ++ [fd])
  else mkHandover (loop_ h) (Some fd) (accepted h ++ [fd]) (dropped h).

Definition hand_over (fd : Z) (h : Handover) : option Handover :=
  l ← step no_posts (Post (Register fd)) (loop_ h); Some (mkHandover l None (accepted h) (dropped h)).

Inductive hand_event := Accepted (fd : Z) | Hand | Stop | Other (e : event (A := duty)).

(** What else happens: other threads and callbacks queue no registrations. *)
Definition allowed (orderly : bool) (e : event (A := duty)) : bool :=
  match e with
  | Post (Register _) | Quit => false
  | Loop Failed _ => negb orderly
  | Loop (Events evs) _ =>
      forallb (fun e => match e with Wakeup => true | Channel ts => forallb (fun d => match d with Keep => true | Register _ => false end) ts end) evs
  | _ => true
  end.

(** [orderly]: the loop is stopped by the thread that accepts, between two descriptors, as
    main.cpp does it, and [epoll_wait] does not fail. *)
Definition hand_step (orderly : bool) (e : hand_event) (h : Handover) : option Handover :=
  match e, handing h with
  | Accepted fd, None => Some (add_connection fd h)
  | Hand, Some fd => hand_over fd h
  | Stop, w =>
      if orderly && bool_decide (is_Some w) then None
      else l ← step no_posts Quit (loop_ h); Some (mkHandover l w (accepted h) (dropped h))
  | Other e, w =>
      if allowed orderly e then l ← step no_posts e (loop_ h); Some (mkHandover l w (accepted h) (dropped h)) else None
  | _, _ => None
  end.

Definition hand_steps (orderly : bool) (es : list hand_event) (h : Handover) : option Handover :=
  foldl (fun h e => h ≫= hand_step orderly e) (Some h) es.

(** The descriptors among tasks. *)
Definition descriptors (ds : list duty) : list Z := omap (fun d => match d with Register fd => Some fd | Keep => None end) ds.
End EventLoop.
