(* ===== verification/EventLoopProps.v ===== *)
(** * Tasks run once, in order, in bounded time; a loop that is told to quit ends *)

From S2P Require Import Prelude Base EventLoop.
From stdpp Require Import options.

Module EventLoopProps.
Import EventLoop.

Section props.
Context {A : Type} (posts : A -> list A).
Implicit Types (l : EventLoop (A := A)) (ts : list A).

(** ** What the operations keep *)

Definition frame l l' : Prop :=
  quit_ l' = quit_ l /\ ran l' = ran l /\ at_place l' = at_place l /\
  (0 <= pipe l <= pipe_capacity -> 0 <= pipe l' <= pipe_capacity).

Lemma wakeup_frame l :
  frame l (wakeup l) /\ pending_tasks_ (wakeup l) = pending_tasks_ l /\ posted (wakeup l) = posted l.
Proof. unfold wakeup, frame. destruct (Z.ltb_spec (pipe l) pipe_capacity); cbn; split_and!; try done; lia. Qed.

Lemma queue_all_frame ts l :
  frame l (queue_all ts l) /\ pending_tasks_ (queue_all ts l) = pending_tasks_ l ++ ts /\
  posted (queue_all ts l) = posted l ++ ts.
Proof.
  revert l. induction ts as [|t ts IH]; intros l; [by rewrite !app_nil_r|]. cbn [queue_all foldl].
  destruct (IH (queue_in_loop t l)) as ((Q1 & Q2 & Q3 & Q4) & Q5 & Q6).
  destruct (wakeup_frame (push_task t l)) as ((W1 & W2 & W3 & W4) & W5 & W6). unfold queue_in_loop in *.
  change (foldl _ _ ts) with (queue_all ts (wakeup (push_task t l))).
  rewrite Q5, Q6, W5, W6. cbn. rewrite <-!app_assoc. split; [|done].
  unfold frame. rewrite Q1, Q2, Q3, W1, W2, W3. split_and!; auto.
Qed.

(** The invariant: the queue is first in, first out, and the pipe within its bounds. *)
Record loop_ok l : Prop := {
  ok_fifo : posted l = ran l ++ in_hand l ++ pending_tasks_ l;
  ok_pipe : 0 <= pipe l <= pipe_capacity
}.

(** What one step of the loop does to the tasks. *)
Inductive task_step l l' : Prop :=
  | ts_move : ran l' = ran l -> in_hand l = [] -> in_hand l' = [] ->
      (exists ts, pending_tasks_ l' = pending_tasks_ l ++ ts /\ posted l' = posted l ++ ts) -> task_step l l'
  | ts_swap : ran l' = ran l -> in_hand l = [] -> in_hand l' = pending_tasks_ l ->
      pending_tasks_ l' = [] -> posted l' = posted l -> task_step l l'
  | ts_run t : ran l' = ran l ++ [t] -> in_hand l = t :: in_hand l' ->
      pending_tasks_ l' = pending_tasks_ l ++ posts t -> posted l' = posted l ++ posts t -> task_step l l'.

Lemma after_drain_hand errno r : match @after_drain A errno r with Draining ts _ | LastDrain ts => ts | _ => [] end = [].
Proof. by destruct r, errno. Qed.

Lemma run_task_step t p l :
  (in_hand l = t :: match p with Draining ts _ | LastDrain ts => ts | _ => [] end) -> task_step l (run_task posts t p l).
Proof.
  intros Hh. destruct (queue_all_frame (posts t) (goto p l)) as ((Q1 & Q2 & Q3 & Q4) & Q5 & Q6).
  apply ts_run with t; unfold run_task; cbn [ran in_hand at_place pending_tasks_ posted].
  - by rewrite Q2.
  - rewrite Hh. unfold in_hand. cbn [at_place]. by rewrite Q3.
  - by rewrite Q5.
  - by rewrite Q6.
Qed.

Lemma loop_step_tasks r now l l' : loop_step posts r now l = Some l' -> task_step l l'.
Proof.
  unfold loop_step. destruct (at_place l) as [| |r'|r'|r'|[|t ts] r'|n [|[|cs] evs]| |[|t ts]|] eqn:Hp; intros H.
  all: assert (Hh : in_hand l = match at_place l with Draining ts _ | LastDrain ts => ts | _ => [] end) by done; rewrite Hp in Hh.
  all: try (injection H as <-; apply ts_move; [done|done|by unfold in_hand; cbn; repeat case_match; simplify_eq|exists []; cbn; by rewrite !app_nil_r]).
  - destruct (may_return r l); [|done]. injection H as <-. apply ts_move; [done..|exists []; cbn; by rewrite !app_nil_r].
  - injection H as <-. unfold check_config_reload.
    case_match; (apply ts_move; [done..|exists []; cbn; by rewrite !app_nil_r]).
  - injection H as <-. by apply ts_swap.
  - injection H as <-. apply ts_move; [done|done|apply after_drain_hand|exists []; cbn; by rewrite !app_nil_r].
  - injection H as <-. by apply run_task_step.
  - destruct (pipe l =? 0); injection H as <-; (apply ts_move; [done|done|by unfold in_hand; cbn; rewrite ?Hp|exists []; cbn; by rewrite !app_nil_r]).
  - injection H as <-. destruct (queue_all_frame cs (goto (Dispatching n evs) l)) as ((Q1 & Q2 & Q3 & Q4) & Q5 & Q6).
    apply ts_move; [done|done|unfold in_hand; by rewrite Q3|]. exists cs. by rewrite Q5, Q6.
  - injection H as <-. by apply ts_swap.
  - injection H as <-. by apply run_task_step.
  - done.
Qed.

Lemma loop_step_pipe r now l l' :
  loop_step posts r now l = Some l' -> 0 <= pipe l <= pipe_capacity -> 0 <= pipe l' <= pipe_capacity.
Proof.
  unfold loop_step. destruct (at_place l) as [| |r'|r'|r'|[|t ts] r'|n [|[|cs] evs]| |[|t ts]|] eqn:Hp; intros H Hl.
  all: try (injection H as <-; exact Hl).
  - destruct (may_return r l); [|done]. by injection H as <-.
  - injection H as <-. unfold check_config_reload. by case_match.
  - injection H as <-. by apply (queue_all_frame (posts t)).
  - destruct (pipe l =? 0); injection H as <-; cbn; [done|unfold wakeup_buf; lia].
  - injection H as <-. by apply (queue_all_frame cs).
  - injection H as <-. by apply (queue_all_frame (posts t)).
  - done.
Qed.

Lemma task_step_fifo l l' :
  task_step l l' -> posted l = ran l ++ in_hand l ++ pending_tasks_ l -> posted l' = ran l' ++ in_hand l' ++ pending_tasks_ l'.
Proof.
  intros [H1 H2 H3 (ts & H4 & H5)|H1 H2 H3 H4 H5|t H1 H2 H3 H4] H.
  - rewrite H5, H, H1, H2, H3, H4. cbn. by rewrite <-app_assoc.
  - by rewrite H5, H, H1, H2, H3, H4, app_nil_r.
  - rewrite H4, H, H1, H2, H3. by rewrite <-!app_assoc.
Qed.

Lemma loop_event_ok e l l' : step posts e l = Some l' -> loop_ok l -> loop_ok l'.
Proof.
  intros H [H1 H2]. destruct e as [t| | |r now]; cbn in H.
  - injection H as <-. split; [|done]. cbn. unfold in_hand in *. cbn. by rewrite H1, <-!app_assoc.
  - by injection H as <-.
  - destruct (waking l) as [|n]; [done|]. injection H as <-.
    destruct (wakeup_frame (with_waking n l)) as ((W1 & W2 & W3 & W4) & W5 & W6).
    split; [|by apply W4]. unfold in_hand. by rewrite W2, W3, W5, W6.
  - split; [|by eapply loop_step_pipe]. by eapply task_step_fifo, H1; eapply loop_step_tasks.
Qed.

Lemma loop_reachable_ok l : reachable posts l -> loop_ok l.
Proof. induction 1 as [now|e l l' _ IH Hs]; [by split|by eapply loop_event_ok]. Qed.

Lemma alone_ok n l l' : alone posts n l l' -> loop_ok l -> loop_ok l'.
Proof. induction 1 as [|n r now l l1 l2 Hs _ IH]; [done|]. intros Hl. apply IH. by apply (loop_event_ok (Loop r now) l). Qed.

(** ** What was posted before the last round has run when the loop has ended *)

Definition leaving l : bool := match at_place l with LastDrain _ | Ended => true | _ => false end.

(** [P] is what was posted by then. *)
Definition covered (P : list A) l : Prop :=
  P `prefix_of` posted l /\ (leaving l = true -> P `prefix_of` ran l ++ in_hand l).

Lemma loop_step_leaving r now l l' :
  loop_step posts r now l = Some l' -> leaving l' = true -> leaving l = true \/ at_place l = LastSwap.
Proof.
  unfold loop_step, leaving. destruct (at_place l) as [| |r'|r'|r'|[|t ts] r'|n [|[|cs] evs]| |[|t ts]|] eqn:Hp; intros H Hl; auto.
  all: try (injection H as <-; cbn in Hl; by repeat case_match).
  - destruct (may_return r l); [|done]. injection H as <-. done.
  - injection H as <-. by destruct r', r.
  - injection H as <-. destruct (queue_all_frame (posts t) (goto (Draining ts r') l)) as ((_ & _ & Q & _) & _).
    cbn in Hl, Q. by rewrite Q in Hl.
  - destruct (pipe l =? 0); injection H as <-; cbn in Hl; by rewrite ?Hp in Hl.
  - injection H as <-. destruct (queue_all_frame cs (goto (Dispatching n evs) l)) as ((_ & _ & Q & _) & _).
    cbn in Hl, Q. by rewrite Q in Hl.
Qed.

Lemma task_step_hand l l' : task_step l l' -> ran l ++ in_hand l `prefix_of` ran l' ++ in_hand l'.
Proof.
  intros [H1 H2 H3 _|H1 H2 H3 _ _|t H1 H2 _ _].
  - by rewrite H1, H2, H3.
  - rewrite H1, H2, app_nil_r. by exists (in_hand l').
  - by rewrite H1, H2, <-app_assoc.
Qed.

Lemma task_step_posted l l' : task_step l l' -> posted l `prefix_of` posted l'.
Proof.
  intros [_ _ _ (ts & _ & ->)|_ _ _ _ ->|t _ _ _ ->]; [by exists ts|done|by exists (posts t)].
Qed.

Lemma step_covered P e l l' : step posts e l = Some l' -> loop_ok l -> covered P l -> covered P l'.
Proof.
  intros H [Hf Hb] [Hp Hc]. destruct e as [t| | |r now]; cbn in H.
  - injection H as <-. split; [by apply prefix_app_r|exact Hc].
  - injection H as <-. by split.
  - destruct (waking l) as [|n]; [done|]. injection H as <-.
    destruct (wakeup_frame (with_waking n l)) as ((W1 & W2 & W3 & W4) & W5 & W6).
    unfold covered, leaving, in_hand. by rewrite W2, W3, W6.
  - pose proof (loop_step_tasks _ _ _ _ H) as Ht. split; [etrans; [done|by apply task_step_posted]|].
    intros Hl. destruct (loop_step_leaving _ _ _ _ H Hl) as [Hl'|Hl'].
    { etrans; [by apply Hc|by apply task_step_hand]. }
    unfold loop_step in H. rewrite Hl' in H. injection H as <-. cbn [ran in_hand swap_tasks at_place].
    unfold in_hand in Hf. rewrite Hl' in Hf. cbn in Hf. by rewrite <-Hf.
Qed.

Lemma steps_cons e es l : steps posts (e :: es) l = step posts e l ≫= steps posts es.
Proof.
  unfold steps. cbn. destruct (step posts e l); [done|]. cbn. induction es as [|e' es IH]; [done|exact IH].
Qed.

Lemma steps_covered P es l l' : steps posts es l = Some l' -> loop_ok l -> covered P l -> loop_ok l' /\ covered P l'.
Proof.
  revert l. induction es as [|e es IH]; intros l; [by intros [= ->]|]. rewrite steps_cons.
  destruct (step posts e l) as [l1|] eqn:He; [|done]. intros H Hl Hc.
  apply (IH l1); [done|by eapply loop_event_ok|by eapply step_covered].
Qed.

(** ** How many steps the thread of the loop needs *)

(** A full pipe takes 64 reads, and one more that finds it empty. *)
Definition ev_cost (e : ready (A := A)) : nat := match e with Wakeup => 66 | Channel ts => 1 + length ts end.
Definition evs_cost (evs : list (ready (A := A))) : nat := sum_list_with ev_cost evs.
Definition run_cost (ts : list A) : nat := sum_list_with (fun t => S (length (posts t))) ts.
Definition res_cost (r : epoll_result (A := A)) : nat := match r with Events evs => evs_cost evs | _ => 0 end.

Definition reads_left l : nat := Z.to_nat ((pipe l + 1023) / 1024).

(** What is left of a dispatch, whose first event may be half done. *)
Definition dispatch_cost l (evs : list (ready (A := A))) : nat :=
  match evs with Wakeup :: evs => S (reads_left l + evs_cost evs) | _ => evs_cost evs end.

Definition queue_len l : nat := length (pending_tasks_ l).

(** Up to the end, once [quit_] is set. *)
Definition quit_cost l : nat :=
  match at_place l with
  | Ended => 0
  | LastDrain ts => S (length ts)
  | LastSwap => queue_len l + 2
  | Top | Returned _ => queue_len l + 3
  | Waiting => queue_len l + 4
  | Dispatching _ evs => dispatch_cost l evs + queue_len l + 4
  | Draining ts r => run_cost ts + res_cost r + queue_len l + 5
  | Swapping r => run_cost (pending_tasks_ l) + res_cost r + 6
  | Checking r => run_cost (pending_tasks_ l) + res_cost r + 7
  end.

(** Up to the next time the queue is swapped out and run. *)
Definition turn_cost l : nat :=
  match at_place l with
  | Ended | LastDrain _ => 0
  | Swapping _ | LastSwap => queue_len l + 2
  | Checking _ => queue_len l + 3
  | Returned _ => queue_len l + 4
  | Waiting => queue_len l + 5
  | Top => queue_len l + 6
  | Dispatching _ evs => dispatch_cost l evs + queue_len l + 7
  | Draining ts r => run_cost ts + res_cost r + queue_len l + 8
  end.

Lemma reads_bound l : 0 <= pipe l <= pipe_capacity -> (reads_left l <= 64)%nat.
Proof.
  intros H. unfold reads_left, pipe_capacity in *. Z.to_euclidean_division_equations; lia.
Qed.

Lemma reads_step l : 0 < pipe l -> (reads_left (with_pipe (Z.max 0 (pipe l - wakeup_buf)) l) < reads_left l)%nat.
Proof.
  intros H. unfold reads_left, wakeup_buf. cbn.
  assert ((Z.max 0 (pipe l - 1024) + 1023) / 1024 < (pipe l + 1023) / 1024); [|apply Z2Nat.inj_lt; [apply Z.div_pos; lia..|done]].
  destruct (Z.max_spec 0 (pipe l - 1024)) as [[? ->]|[? ->]]; Z.to_euclidean_division_equations; lia.
Qed.

Lemma dispatch_bound l evs : 0 <= pipe l <= pipe_capacity -> (dispatch_cost l evs <= evs_cost evs)%nat.
Proof. intros H%reads_bound. destruct evs as [|[|ts] evs]; [done| |done]. change (evs_cost (Wakeup :: evs)) with (66 + evs_cost evs)%nat. cbn; lia. Qed.

Lemma run_cost_app ts ts' : run_cost (ts ++ ts') = (run_cost ts + run_cost ts')%nat.
Proof. apply sum_list_with_app. Qed.

(** Compare the costs of two explicit places. *)
Ltac solve_cost :=
  cbn -[dispatch_cost run_cost res_cost evs_cost]; unfold queue_len; cbn -[dispatch_cost run_cost res_cost evs_cost]; split_and!;
  [done|intros; first [discriminate|lia]|first [by right; left|left; lia]].

(** One step: what it costs by either count. *)
Lemma loop_step_costs r now l l' :
  loop_ok l -> loop_step posts r now l = Some l' ->
  quit_ l' = quit_ l /\ (quit_ l = true -> (quit_cost l' < quit_cost l)%nat) /\
  ((turn_cost l' < turn_cost l)%nat \/ leaving l' = true \/ (exists r, at_place l = Swapping r)).
Proof.
  intros [_ Hb]. unfold loop_step, quit_cost, turn_cost, leaving.
  destruct (at_place l) as [| |r'|r'|r'|[|t ts] r'|n [|[|cs] evs]| |[|t ts]|] eqn:Hp; intros H.
  - injection H as <-. destruct (quit_ l) eqn:Hq; solve_cost.
  - destruct (may_return r l); [|done]. injection H as <-. solve_cost.
  - injection H as <-. destruct (quit_ l) eqn:Hq; solve_cost.
  - injection H as <-. unfold check_config_reload. destruct (now - last_config_check_time_ l <? config_check_interval_); solve_cost.
  - injection H as <-. cbn. unfold queue_len; cbn. split_and!; eauto. lia.
  - injection H as <-. destruct r' as [evs| | |], r; try solve_cost.
    all: pose proof (dispatch_bound (goto (Dispatching (zlen evs) evs) l) evs Hb); change (res_cost (Events evs)) with (evs_cost evs); solve_cost.
  - injection H as <-. destruct (queue_all_frame (posts t) (goto (Draining ts r') l)) as ((Q1 & Q2 & Q3 & Q4) & Q5 & Q6).
    unfold run_task, queue_len. cbn -[run_cost res_cost]. rewrite Q1, Q3, Q5. cbn -[run_cost res_cost]. rewrite length_app.
    change (run_cost (t :: ts)) with (S (length (posts t)) + run_cost ts)%nat. split_and!; [done|lia|left; lia].
  - injection H as <-. solve_cost.
  - destruct (Z.eqb_spec (pipe l) 0) as [E|E]; injection H as <-.
    + pose proof (dispatch_bound (goto (Dispatching n evs) l) evs Hb).
      assert (evs_cost evs <= dispatch_cost l (Wakeup :: evs) - 1)%nat by (cbn -[evs_cost]; lia).
      assert (1 <= dispatch_cost l (Wakeup :: evs))%nat by (cbn; lia). solve_cost.
    + assert (Hr : (dispatch_cost (with_pipe (Z.max 0 (pipe l - wakeup_buf)) l) (Wakeup :: evs) < dispatch_cost l (Wakeup :: evs))%nat).
      { assert (0 < pipe l) as Hr%reads_step by lia. cbn -[evs_cost]. lia. }
      revert Hr. cbn -[dispatch_cost]. rewrite Hp. unfold queue_len. cbn -[dispatch_cost]. intros Hr. split_and!; [done|lia|left; lia].
  - injection H as <-. destruct (queue_all_frame cs (goto (Dispatching n evs) l)) as ((Q1 & Q2 & Q3 & Q4) & Q5 & Q6).
    pose proof (dispatch_bound (queue_all cs (goto (Dispatching n evs) l)) evs (Q4 Hb)).
    unfold queue_len. rewrite Q1, Q3, Q5. cbn -[dispatch_cost] in *. rewrite length_app.
    change (dispatch_cost l (Channel cs :: evs)) with (S (length cs) + evs_cost evs)%nat. split_and!; [done|lia|left; lia].
  - injection H as <-. unfold queue_len. cbn. split_and!; auto; lia.
  - injection H as <-. solve_cost.
  - injection H as <-. destruct (queue_all_frame (posts t) (goto (LastDrain ts) l)) as ((Q1 & Q2 & Q3 & Q4) & Q5 & Q6).
    cbn. rewrite Q1, Q3. cbn. split_and!; auto; lia.
  - done.
Qed.

(** The thread of the loop is never stuck before its end. *)
Lemma loop_never_stuck l : at_place l <> Ended -> exists r now l', loop_step posts r now l = Some l'.
Proof.
  intros Hp. exists Interrupted, 0. unfold loop_step.
  destruct (at_place l) as [| |r'|r'|r'|[|t ts] r'|n [|[|cs] evs]| |[|t ts]|]; eauto; [|done].
  destruct (pipe l =? 0); eauto.
Qed.

Lemma quit_bounds n l l' : alone posts n l l' -> loop_ok l -> quit_ l = true -> (n + quit_cost l' <= quit_cost l)%nat.
Proof.
  induction 1 as [|n r now l l1 l2 Hs _ IH]; [done|]. intros Hl Hq.
  destruct (loop_step_costs _ _ _ _ Hl Hs) as (Hq' & Hc & _). specialize (Hc Hq).
  assert (n + quit_cost l2 <= quit_cost l1)%nat by (apply IH; [by apply (loop_event_ok (Loop r now) l)|congruence]). lia.
Qed.

(** How many steps until the tasks [P], the first ones that were posted, have run. *)
Definition todo (P : list A) l : nat :=
  if (length P <=? length (ran l))%nat then 0
  else if (length P <=? length (ran l ++ in_hand l))%nat then length P - length (ran l) else turn_cost l.

Lemma hand_grows l l' : task_step l l' -> (length (ran l ++ in_hand l) <= length (ran l' ++ in_hand l'))%nat.
Proof. intros [k E]%task_step_hand. rewrite E, !length_app. lia. Qed.

Lemma turn_cost_room l : leaving l = false -> (queue_len l + 2 <= turn_cost l)%nat.
Proof. unfold leaving, turn_cost. destruct (at_place l); intros; try done; lia. Qed.

Lemma todo_step P r now l l' :
  loop_ok l -> covered P l -> loop_step posts r now l = Some l' -> (todo P l' <= pred (todo P l))%nat.
Proof.
  intros Hl Hc Hs. pose proof (loop_step_tasks _ _ _ _ Hs) as Ht. pose proof (hand_grows _ _ Ht) as Hg.
  destruct (step_covered P (Loop r now) l l' Hs Hl Hc) as [_ Hc'].
  destruct (loop_step_costs _ _ _ _ Hl Hs) as (_ & _ & Hcost). destruct Hc as [Hp Hc].
  unfold todo in *. destruct (Nat.leb_spec (length P) (length (ran l))) as [H0|H0].
  { assert (length (ran l) <= length (ran l'))%nat by (destruct Ht as [E _ _ _|E _ _ _ _|t E _ _ _]; rewrite E, ?length_app; lia).
    destruct (Nat.leb_spec (length P) (length (ran l'))); lia. }
  destruct (Nat.leb_spec (length P) (length (ran l ++ in_hand l))) as [H1|H1].
  - destruct (Nat.leb_spec (length P) (length (ran l' ++ in_hand l'))); [|lia].
    destruct Ht as [_ H3 _ _|_ H3 _ _ _|t H2 _ _ _]; [by rewrite H3, app_nil_r in H1; lia..|].
    rewrite H2, length_app. cbn. destruct (Nat.leb_spec (length P) (length (ran l) + 1)); lia.
  - assert (leaving l = false) as Hlv.
    { destruct (leaving l); [|done]. specialize (Hc eq_refl). apply prefix_length in Hc. lia. }
    destruct (Nat.leb_spec (length P) (length (ran l'))) as [|Hran]; [lia|].
    destruct (Nat.leb_spec (length P) (length (ran l' ++ in_hand l'))) as [H3|H3].
    + pose proof (turn_cost_room l Hlv) as Hroom. destruct Ht as [H2 H4 H5 _|H2 H4 H5 _ _|t H2 H4 _ _].
      * rewrite H2, H5, app_nil_r in H3. lia.
      * rewrite H2, H5, length_app in H3. rewrite H2. unfold queue_len in *. lia.
      * rewrite H4 in H1. rewrite H2, <-app_assoc in H3. cbn in H3. lia.
    + destruct Hcost as [Hlt|[Hlv'|[r' Hsw]]]; [lia| |]; exfalso.
      * apply Hc', prefix_length in Hlv'. lia.
      * unfold loop_step in Hs. rewrite Hsw in Hs. injection Hs as <-. apply prefix_length in Hp.
        rewrite (ok_fifo _ Hl) in Hp. unfold in_hand in Hp. rewrite Hsw in Hp. cbn in Hp, H3. lia.
Qed.

Lemma alone_todo P n l l' :
  alone posts n l l' -> loop_ok l -> covered P l -> loop_ok l' /\ covered P l' /\ (todo P l' <= todo P l - n)%nat.
Proof.
  induction 1 as [|n r now l l1 l2 Hs _ IH]; intros Hl Hc; [split_and!; [done..|lia]|].
  pose proof (todo_step P _ _ _ _ Hl Hc Hs). destruct IH as (H1 & H2 & H3); [by apply (loop_event_ok (Loop r now) l)|by eapply (step_covered P (Loop r now))|].
  split_and!; [done..|lia].
Qed.

Lemma todo_zero P l : loop_ok l -> covered P l -> todo P l = 0%nat -> P `prefix_of` ran l.
Proof.
  intros Hl [Hp Hc]. unfold todo. destruct (Nat.leb_spec (length P) (length (ran l))) as [H0|H0]; intros Ht.
  - assert (ran l `prefix_of` posted l) as Hr by (rewrite (ok_fifo _ Hl); by exists (in_hand l ++ pending_tasks_ l)).
    destruct (prefix_weak_total _ _ _ Hp Hr) as [?|Hr']; [done|]. by rewrite (prefix_length_eq _ _ Hr' H0).
  - destruct (Nat.leb_spec (length P) (length (ran l ++ in_hand l))) as [H1|H1]; [lia|]. destruct (leaving l) eqn:E.
    + specialize (Hc eq_refl). apply prefix_length in Hc. lia.
    + pose proof (turn_cost_room l E). lia.
Qed.

(** C17: Tasks given to an event loop run once each and in the order in which they were
    queued, whatever the threads do; the loop never blocks for ever: everything that is
    queued at some time has run after a bounded number of its steps, and also when the
    loop has ended, unless it was queued after the last round had begun. *)
Theorem tasks_run l :
  reachable posts l ->
  posted l = ran l ++ in_hand l ++ pending_tasks_ l /\
  (at_place l <> Ended -> exists r now l', loop_step posts r now l = Some l') /\
  (leaving l = false ->
    (forall n l', alone posts n l l' -> (todo (posted l) l <= n)%nat -> posted l `prefix_of` ran l') /\
    (forall es l', steps posts es l = Some l' -> at_place l' = Ended -> posted l `prefix_of` ran l')).
Proof.
  intros Hl%loop_reachable_ok. split_and!; [by apply ok_fifo|by apply loop_never_stuck|].
  intros Hlv. assert (covered (posted l) l) as Hc by (split; [done|by rewrite Hlv]). split.
  - intros n l' Ha Hn. destruct (alone_todo _ _ _ _ Ha Hl Hc) as (Hl' & Hc' & Ht). apply todo_zero; [done..|lia].
  - intros es l' Hes Hend. destruct (steps_covered _ _ _ _ Hes Hl Hc) as [_ [_ Hc']].
    unfold leaving, in_hand in Hc'. rewrite Hend, app_nil_r in Hc'. by apply Hc'.
Qed.

(** A loop that is told to quit ends: from then on its thread takes a bounded number
    of steps, and never stops before the end. *)
Theorem quit_ends l :
  reachable posts l -> quit_ l = true ->
  forall n l', alone posts n l l' ->
    (n <= quit_cost l)%nat /\ (at_place l' = Ended \/ exists r now l'', loop_step posts r now l' = Some l'').
Proof.
  intros Hl%loop_reachable_ok Hq n l' Ha. pose proof (quit_bounds _ _ _ Ha Hl Hq). split; [lia|].
  destruct (at_place l') eqn:E; auto; right; apply loop_never_stuck; by rewrite E.
Qed.
End props.

(** ** Accepted descriptors *)

(** The callbacks that are still to come queue no registrations, and nothing failed. *)
Definition keeps_only (evs : list (ready (A := duty))) : bool := allowed true (Loop (Events evs) 0).

Definition place_ok (p : place (A := duty)) : Prop :=
  match p with
  | Returned r | Checking r | Swapping r | Draining _ r => allowed true (Loop r 0) = true
  | Dispatching _ evs => keeps_only evs = true
  | _ => True
  end.

Record hand_ok (h : Handover) : Prop := {
  h_loop : loop_ok (loop_ h);
  h_all : accepted h ≡ₚ dropped h ++ option_list (handing h) ++ descriptors (posted (loop_ h));
  h_stopped : quit_ (loop_ h) = true -> handing h = None;
  h_leaving : leaving (loop_ h) = true \/ at_place (loop_ h) = LastSwap -> quit_ (loop_ h) = true;
  h_late : leaving (loop_ h) = true -> descriptors (pending_tasks_ (loop_ h)) = [];
  h_place : place_ok (at_place (loop_ h))
}.

Lemma keeps_none ts : forallb (fun d => match d with Keep => true | Register _ => false end) ts = true -> descriptors ts = [].
Proof. induction ts as [|[fd|] ts IH]; cbn; [done|done|exact IH]. Qed.

Lemma descriptors_app ds ds' : descriptors (ds ++ ds') = descriptors ds ++ descriptors ds'.
Proof. apply omap_app. Qed.

Lemma allowed_now r now now' : allowed true (Loop r now) = allowed true (Loop r now').
Proof. by destruct r. Qed.

Lemma no_posts_queue t (l : EventLoop (A := duty)) : queue_all (no_posts t) l = l.
Proof. done. Qed.

(** One step of a loop whose tasks queue nothing. *)
Lemma loop_step_hand r now (l l' : EventLoop (A := duty)) :
  allowed true (Loop r now) = true -> place_ok (at_place l) -> loop_step no_posts r now l = Some l' ->
  place_ok (at_place l') /\ descriptors (posted l') = descriptors (posted l) /\
  (leaving l' = true \/ at_place l' = LastSwap -> leaving l = true \/ at_place l = LastSwap \/ quit_ l = true) /\
  (leaving l' = true -> leaving l = true /\ pending_tasks_ l' = pending_tasks_ l \/ pending_tasks_ l' = []).
Proof.
  rewrite (allowed_now r now 0). intros Hr Hp. unfold loop_step, leaving.
  destruct (at_place l) as [| |r'|r'|r'|[|t ts] r'|n [|[|cs] evs]| |[|t ts]|] eqn:E; intros H; cbn in Hp.
  all: try (injection H as <-; cbn; destruct (quit_ l); cbn; split_and!; naive_solver).
  - destruct (may_return r l); [|done]. injection H as <-. cbn. split_and!; naive_solver.
  - injection H as <-. unfold check_config_reload.
    destruct (now - last_config_check_time_ l <? config_check_interval_); cbn; split_and!; naive_solver.
  - injection H as <-. destruct r', r; cbn in *; split_and!; naive_solver.
  - destruct (pipe l =? 0); injection H as <-; cbn; rewrite ?E; cbn; split_and!; try done; naive_solver.
  - injection H as <-. destruct (queue_all_frame cs (goto (Dispatching n evs) l)) as ((Q1 & Q2 & Q3 & Q4) & Q5 & Q6).
    rewrite Q3, Q6. cbn. unfold keeps_only in Hp. cbn in Hp. bsplit. split_and!; try naive_solver.
    by rewrite descriptors_app, (keeps_none cs), app_nil_r.
  - done.
Qed.

Lemma with_waking_ok n (l : EventLoop (A := duty)) : loop_ok l -> loop_ok (with_waking n l).
Proof. by intros [H1 H2]. Qed.

Lemma other_step_ok e h l' :
  allowed true e = true -> step no_posts e (loop_ h) = Some l' -> hand_ok h -> hand_ok (mkHandover l' (handing h) (accepted h) (dropped h)).
Proof.
  intros Ha He [H1 H2 H3 H4 H5 H6]. pose proof (loop_event_ok _ _ _ _ He H1) as H1'. destruct e as [[fd|]| | |r now]; try done.
  - cbn in He. injection He as <-. split; cbn; try done; rewrite descriptors_app; cbn; rewrite app_nil_r; done.
  - cbn in He. destruct (waking (loop_ h)) as [|n]; [done|]. injection He as <-.
    destruct (wakeup_frame (with_waking n (loop_ h))) as ((W1 & W2 & W3 & W4) & W5 & W6).
    split; cbn; unfold leaving; rewrite ?W1, ?W3, ?W5, ?W6; done.
  - cbn in He. destruct (loop_step_hand _ _ _ _ Ha H6 He) as (P1 & P2 & P3 & P4).
    destruct (loop_step_costs _ _ _ _ _ H1 He) as (Hq & _ & _). split; cbn; rewrite ?P2, ?Hq; try done.
    + intros Hl. destruct (P3 Hl) as [?|[?|?]]; auto.
    + intros Hl. destruct (P4 Hl) as [[? ->]| ->]; auto.
Qed.

Lemma hand_step_ok e h h' : hand_step true e h = Some h' -> hand_ok h -> hand_ok h'.
Proof.
  intros Hs [H1 H2 H3 H4 H5 H6]. destruct h as [l w acc drp]. cbn in *. destruct e as [fd| | |e], w as [fd'|]; try done; cbn in *.
  - injection Hs as <-. unfold add_connection. cbn. destruct (quit_ l) eqn:Hq; split; cbn; try done; rewrite ?Hq; try done.
    + rewrite H2. cbn. rewrite <-!app_assoc. apply Permutation_app_head, Permutation_app_comm.
    + rewrite H2. cbn. rewrite <-!app_assoc. apply Permutation_app_head, (Permutation_app_comm _ [fd]).
  - injection Hs as <-. assert (quit_ l = false) as Hq by (destruct (quit_ l); [by specialize (H3 eq_refl)|done]).
    split; cbn; try done.
    + by apply (loop_event_ok no_posts (Post (Register fd')) l).
    + rewrite H2, descriptors_app. apply Permutation_app_head, (Permutation_app_comm [fd']).
    + intros Hl. rewrite H4 in Hq by auto. done.
  - injection Hs as <-. split; cbn; try done. by apply (loop_event_ok no_posts Quit l).
  - destruct (allowed true e) eqn:Ha; [|done]. destruct (step no_posts e l) as [l1|] eqn:He; [|done]. injection Hs as <-.
    apply (other_step_ok e (mkHandover l (Some fd') acc drp) _ Ha He). by split.
  - destruct (allowed true e) eqn:Ha; [|done]. destruct (step no_posts e l) as [l1|] eqn:He; [|done]. injection Hs as <-.
    apply (other_step_ok e (mkHandover l None acc drp) _ Ha He). by split.
Qed.

Lemma hand_steps_ok es h h' : hand_steps true es h = Some h' -> hand_ok h -> hand_ok h'.
Proof.
  revert h. induction es as [|e es IH]; intros h; [by intros [= ->]|]. unfold hand_steps. cbn.
  destruct (hand_step true e h) as [h1|] eqn:He; [intros H Hh; apply (IH h1); [done|by eapply hand_step_ok]|].
  cbn. clear. induction es as [|e' es IH]; [done|exact IH].
Qed.

(** Every accepted descriptor has one owner: [add_connection] closes it, is about to
    queue it, or its registration is queued, taken out or done. When the loop has ended
    after the accepting thread stopped it, each one was closed or registered, whatever
    else the threads do: none is left in a queue that nobody reads. *)
Theorem descriptors_handed_over now es h :
  hand_steps true es (new_handover now) = Some h ->
  accepted h ≡ₚ dropped h ++ option_list (handing h) ++ descriptors (ran (loop_ h)) ++
                descriptors (in_hand (loop_ h)) ++ descriptors (pending_tasks_ (loop_ h)) /\
  (at_place (loop_ h) = Ended -> accepted h ≡ₚ dropped h ++ descriptors (ran (loop_ h))).
Proof.
  intros [H1 H2 H3 H4 H5 _]%hand_steps_ok; [|by split; try done; cbn; intros [?|?]].
  assert (accepted h ≡ₚ dropped h ++ option_list (handing h) ++ descriptors (ran (loop_ h)) ++
                descriptors (in_hand (loop_ h)) ++ descriptors (pending_tasks_ (loop_ h))) as Hall
    by by rewrite H2, (ok_fifo _ H1), !descriptors_app.
  split; [done|]. intros Hend. rewrite Hall. unfold leaving, in_hand in *. rewrite Hend in *.
  rewrite H3, H5 by auto. cbn. by rewrite !app_nil_r.
Qed.

Definition orderly_stop : list hand_event :=
  [Accepted 7; Hand; Other (Loop Timeout 0); Stop; Accepted 8] ++ replicate 5 (Other (Loop Timeout 0)).

Lemma descriptors_handed_over_witness :
  exists h, hand_steps true orderly_stop (new_handover 0) = Some h /\
    at_place (loop_ h) = Ended /\ accepted h ≡ₚ dropped h ++ descriptors (ran (loop_ h)) /\ ran (loop_ h) = [Register 7] /\ dropped h = [8].
Proof.
  eexists. split; [vm_compute; reflexivity|]. split; [reflexivity|]. split; [|split; reflexivity].
  eapply (descriptors_handed_over 0 orderly_stop); vm_compute; reflexivity.
Defined.

(** A loop whose [epoll_wait] fails ends without [quit_]: descriptors are queued for it
    for ever after. So is one whose test was made before the loop was stopped by another
    thread. *)
Theorem descriptors_left_behind :
  (exists h, hand_steps false ([Accepted 7; Hand] ++ replicate 9 (Other (Loop Failed 0)) ++ [Accepted 8; Hand]) (new_handover 0) = Some h /\
     at_place (loop_ h) = Ended /\ dropped h = [] /\ descriptors (ran (loop_ h)) = [7] /\ pending_tasks_ (loop_ h) = [Register 8]) /\
  (exists h, hand_steps false ([Accepted 7; Stop] ++ replicate 3 (Other (Loop Timeout 0)) ++ [Hand]) (new_handover 0) = Some h /\
     at_place (loop_ h) = Ended /\ dropped h = [] /\ ran (loop_ h) = [] /\ pending_tasks_ (loop_ h) = [Register 7]).
Proof. split; (eexists; split; [vm_compute; reflexivity|by vm_compute]). Qed.

(** A task whose wake-up byte is read by [handle_wakeup] of the round before waits for the
    time limit of [epoll_wait]: the loop sleeps with a task in the queue. *)
Theorem wakeup_swallowed :
  exists l, steps (fun _ : nat => []) ([Post 1%nat; Wake; Loop Timeout 0; Loop (Events [Wakeup]) 0] ++ replicate 5 (Loop Timeout 0) ++
              [Post 2%nat; Wake] ++ replicate 4 (Loop Timeout 0)) (new_loop 0) = Some l /\
    at_place l = Waiting /\ pipe l = 0 /\ waking l = 0%nat /\ quit_ l = false /\ pending_tasks_ l = [2%nat].
Proof. eexists. split; [vm_compute; reflexivity|by vm_compute]. Qed.

Lemma tasks_run_witness :
  exists l, reachable (fun _ : nat => []) l /\ posted l = [1%nat] /\
    (forall n l', alone (fun _ : nat => []) n l l' -> (todo (fun _ => []) [1%nat] l <= n)%nat -> [1%nat] `prefix_of` ran l').
Proof.
  set (p := fun _ : nat => @nil nat). exists (with_waking 1 (push_task 1%nat (new_loop 0))).
  assert (reachable p (with_waking 1 (push_task 1%nat (new_loop 0)))) as H
    by (eapply (reach_step p (Post 1%nat) (new_loop 0)); [apply reach_new|reflexivity]).
  split; [exact H|]. split; [reflexivity|]. exact (proj1 (proj2 (proj2 (tasks_run p _ H)) eq_refl)).
Defined.

Lemma quit_ends_witness :
  exists l, reachable (fun _ : nat => []) l /\ quit_ l = true /\ quit_cost (fun _ => []) l = 3%nat /\
    forall n l', alone (fun _ : nat => []) n l l' -> (n <= 3)%nat.
Proof.
  set (p := fun _ : nat => @nil nat). exists (with_waking 1 (set_quit (new_loop 0))).
  assert (reachable p (with_waking 1 (set_quit (new_loop 0)))) as H
    by (eapply (reach_step p Quit (new_loop 0)); [apply reach_new|reflexivity]).
  split; [exact H|]. split; [reflexivity|]. split; [reflexivity|]. intros n l' Ha. exact (proj1 (quit_ends p _ H eq_refl n l' Ha)).
Defined.
End EventLoopProps.
