(* ===== verification/Main.v ===== *)
(** * The program: main.cpp

    The command line, the settings read from the configuration with their corrections,
    the start with its exit codes, the life of the server as the steps of the main thread
    interleaved with what clients, the bus and the expiration checker do to the store, and
    the last save. Then the signal handler against the start of the main loop.

    What the operating system answers is an input: the files, which of them can be read,
    which ports can be bound, the number of processors. The parts themselves are in the
    other files. *)

From S2P Require Import Prelude Base Object ExpireDict Storage Commands CommandsSpec Rdb Config Log Background EventLoop.
From stdpp Require Import options.

Module Main.
Import Text Storage Commands Rdb.

(** ** The command line *)

Inductive arguments := Help | Refused | Options (config_path : bytes) (config_explicit : bool) (port_override : Z).

(** [std::stoi] with the number of characters it used. *)
Definition parse_port (value : bytes) : option Z :=
  match stoll value with
  | Some (parsed, consumed) =>
      if (-2147483648 <=? parsed) && (parsed <=? 2147483647) &&
         (consumed =? length value)%nat && negb (parsed <? 1) && negb (65535 <? parsed)
      then Some parsed else None
  | None => None
  end.

Fixpoint parse_args (argv : list bytes) (config_path : bytes) (config_explicit : bool) (port_override : Z) : arguments :=
  match argv with
  | [] => Options config_path config_explicit port_override
  | arg :: rest =>
      if bool_decide (arg = lit "--help") || bool_decide (arg = lit "-h") then Help
      else if bool_decide (arg = lit "--config") then
        match rest with
        | [] => Refused
        | path :: rest => parse_args rest path true port_override
        end
      else if bool_decide (arg = lit "--port") then
        match rest with
        | [] => Refused
        | value :: rest =>
            match parse_port value with
            | Some parsed => parse_args rest config_path config_explicit parsed
            | None => Refused
            end
        end
      else Refused
  end.

Definition command_line (argv : list bytes) : arguments := parse_args argv (lit "conf/concurrentcache.conf") false 0.

(** ** The settings *)

Record Settings := mkSettings {
  port : Z;
  reactor_count : Z;
  thread_pool_size : Z;
  save_config : Background.SaveConfig;
  max_entries : option Z;             (** what the store is told, if anything *)
  log_level : Log.LogLevel;
  log_file : option (bytes * Z * Z);  (** name, size at which it is rotated, files kept *)
  rdb_path : bytes;
  cluster_port : Z                    (** the port the cluster takes for its own *)
}.

Definition at_least_one (n dflt : Z) : Z := if n <=? 0 then dflt else n.

Definition read_settings (hardware_concurrency port_override : Z) (c : Config.Config) : Settings :=
  let get key dflt := Config.getInt (lit key) dflt c in
  let p := get "port"%string 6379 in
  let file := Config.getString (lit "log_file") [] c in
  let max_bytes := get "log_max_size"%string 104857600 in
  let configured := get "max_entries"%string 0 in
  mkSettings
    (if 0 <? port_override then port_override else p)
    (at_least_one (get "reactor_count"%string hardware_concurrency) 1)
    (at_least_one (get "thread_pool_size"%string hardware_concurrency) 1)
    (Background.mkSaveConfig (at_least_one (get "rdb_save_interval"%string 900) 900)
       (at_least_one (get "rdb_dirty_threshold"%string 1) 1))
    (if 0 <? configured then Some configured else None)
    (default Log.DEBUG (Log.parse_log_level (Config.getString (lit "log_level") (lit "1") c)))
    (if bool_decide (file = []) then None
     else Some (file, if 0 <? max_bytes then max_bytes else 104857600, 5))
    (Config.getString (lit "rdb_path") (lit "./dump.rdb") c)
    (get "port"%string 6379).

(** The empty store under its limit. *)
Definition fresh_store (st : Settings) : Storage :=
  match max_entries st with Some n => set_max_entries n new_storage | None => new_storage end.

(** ** The start *)

(** What the system answers. [config_file] is the content of a file that can be opened,
    [readable] is [access(.., R_OK)], [can_listen] takes the 16 bits that [htons] keeps. *)
Record World := mkWorld {
  config_file : bytes -> option bytes;
  hardware_concurrency : Z;
  can_listen : Z -> bool;
  readable : bytes -> bool;
  disk : fs
}.

Inductive outcome := Exit (code : Z) | Started (st : Settings) (s : Storage).

Section start.
Context `{StringHash} `{StoreOrder} `{Crc32}.

(** [RdbPersistence::load] on a name. *)
Definition load_rdb (now : Z) (draw : rng) (path : bytes) (files : fs) (s : Storage) : option bool * Storage :=
  match files !! path with Some file => load now draw file s | None => (Some false, s) end.

(** [main] up to the start of the background threads. *)
Definition start (now : Z) (draw : rng) (argv : list bytes) (w : World) : outcome :=
  match command_line argv with
  | Help => Exit 0
  | Refused => Exit 1
  | Options path explicit port_override =>
      let '(loaded, c) := Config.load (config_file w) path Config.new_config in
      if negb loaded && explicit then Exit 1
      else
        let st := read_settings (hardware_concurrency w) port_override c in
        if negb (can_listen w (port st mod 65536)) then Exit 1
        else if negb (readable w (rdb_path st)) then Started st (fresh_store st)
        else
          match load_rdb now draw (rdb_path st) (disk w) (fresh_store st) with
          | (Some true, s) => Started st s
          | (_, _) => Exit 1
          end
  end.
End start.

(** ** The life of the server *)

(** The parts that can change the store or save it, and the steps of the main thread. *)
Inductive part := Scheduler | SubReactors | MainReactor | Checker | Cluster | Workers.

#[export] Instance part_eq_dec : EqDecision part.
Proof. solve_decision. Defined.

Inductive action := Start (p : part) | RunLoop | Stop (p : part) | SaveRdb.

(** From the start of the background threads to the end of [main]; the sub-reactors and the
    worker threads have been started before. *)
Definition main_script : list action :=
  [Start Checker; Start Scheduler; Start Cluster; RunLoop;
   Stop Scheduler; Stop SubReactors; Stop MainReactor; Stop Checker; Stop Cluster; Stop Workers; SaveRdb].

Record Server := mkServer {
  store : Storage;
  script : list action;               (** what the main thread has yet to do *)
  running : part -> bool;
  in_loop : bool;                     (** the main loop runs *)
  opened : bool;                      (** the main loop has run: clients may be connected *)
  snapshot : option (Z * list KVWithTTL)  (** what the last save wrote, and when *)
}.

Definition boot (s : Storage) : Server :=
  mkServer s main_script (fun p => match p with SubReactors | Workers => true | _ => false end) false false None.

Definition switch (p : part) (b : bool) (f : part -> bool) : part -> bool := fun q => if decide (q = p) then b else f q.

Section life.
Context `{StringHash} `{StoreOrder} `{HashOrder} `{DoubleText} `{DoubleLib}.

(** A command with what it reads: the clock, random draws, the member SPOP takes. *)
Record request := mkRequest { r_now : Z; r_draw : rng; r_pick : nat; r_command : Command; r_args : list bytes }.

Definition serve (r : request) (s : Storage) : Storage :=
  match execute (r_now r) (r_draw r) (r_pick r) (r_command r) (r_args r) with
  | Some m => (m s).2
  | None => s
  end.

Inductive event :=
  | Client (r : request)                              (** on a sub-reactor *)
  | Bus (r : request)                                 (** a command from another node, on the main loop *)
  | Cycle (rounds : list Background.round)            (** of the expiration checker *)
  | Main (now : Z)                                    (** the main thread goes on *)
  | Skip.                                             (** [g_running] is false before the main loop *)

Definition with_store (s : Storage) (sv : Server) : Server :=
  mkServer s (script sv) (running sv) (in_loop sv) (opened sv) (snapshot sv).

Definition main_step (now : Z) (sv : Server) : option Server :=
  match script sv with
  | [] => None
  | Start p :: rest => Some (mkServer (store sv) rest (switch p true (running sv)) (in_loop sv) (opened sv) (snapshot sv))
  | RunLoop :: rest =>
      if in_loop sv then Some (mkServer (store sv) rest (running sv) false (opened sv) (snapshot sv))
      else Some (mkServer (store sv) (script sv) (switch MainReactor true (running sv)) true true (snapshot sv))
  | Stop p :: rest => Some (mkServer (store sv) rest (switch p false (running sv)) (in_loop sv) (opened sv) (snapshot sv))
  | SaveRdb :: rest =>
      Some (mkServer (store sv) rest (running sv) (in_loop sv) (opened sv) (Some (now, get_all_objects_with_ttl now (store sv))))
  end.

Definition server_step (e : event) (sv : Server) : option Server :=
  match e with
  | Client r => if running sv SubReactors && opened sv then Some (with_store (serve r (store sv)) sv) else None
  | Bus r => if in_loop sv then Some (with_store (serve r (store sv)) sv) else None
  | Cycle rounds =>
      if running sv Checker then
        '(_, _, s) ← Background.check_cycle rounds 0 0 (store sv); Some (with_store s sv)
      else None
  | Main now => main_step now sv
  | Skip =>
      match script sv with
      | RunLoop :: rest =>
          if in_loop sv then None
          else Some (mkServer (store sv) rest (running sv) false (opened sv) (snapshot sv))
      | _ => None
      end
  end.

Definition server_run (es : list event) (sv : Server) : option Server := foldl (fun sv e => sv ≫= server_step e) (Some sv) es.
End life.

(** ** The signal handler *)

(** Where the main thread is: before [g_main_reactor] is set, before its last look at
    [g_running], in the main loop, or past it without having run it. *)
Inductive main_place := Initialising | Ready | Looping | Skipped.

Record Signals := mkSignals {
  g_running : bool;
  g_main_reactor : bool;                       (** the pointer is set *)
  handling : bool;                             (** a handler is past its exchange *)
  at_main : main_place;
  main_loop : EventLoop.EventLoop (A := nat)
}.

Definition new_signals (now : Z) : Signals := mkSignals true false false Initialising (EventLoop.new_loop now).

(** [signal_handler], which may run on any thread, in two steps. *)
Definition signal_handler (g : Signals) : Signals :=
  if g_running g then mkSignals false (g_main_reactor g) true (at_main g) (main_loop g) else g.

Definition handler_quits (g : Signals) : option Signals :=
  if handling g then
    Some (mkSignals (g_running g) (g_main_reactor g) false (at_main g)
            (if g_main_reactor g then EventLoop.wakeup (EventLoop.set_quit (main_loop g)) else main_loop g))
  else None.

Definition main_goes (g : Signals) : option Signals :=
  match at_main g with
  | Initialising => Some (mkSignals (g_running g) true (handling g) Ready (main_loop g))
  | Ready => Some (mkSignals (g_running g) (g_main_reactor g) (handling g) (if g_running g then Looping else Skipped) (main_loop g))
  | Looping | Skipped => None
  end.

Inductive signal_event := Signal | Handle | Goes | InLoop (e : EventLoop.event (A := nat)).

(** The loop itself goes on only while the main thread is in it. *)
Definition loop_may (e : EventLoop.event (A := nat)) (p : main_place) : bool :=
  match e, p with
  | EventLoop.Loop _ _, Looping => true
  | EventLoop.Loop _ _, _ => false
  | _, _ => true
  end.

Definition signal_step (e : signal_event) (g : Signals) : option Signals :=
  match e with
  | Signal => Some (signal_handler g)
  | Handle => handler_quits g
  | Goes => main_goes g
  | InLoop e =>
      if loop_may e (at_main g) then
        l ← EventLoop.step (fun _ => []) e (main_loop g);
        Some (mkSignals (g_running g) (g_main_reactor g) (handling g) (at_main g) l)
      else None
  end.

Inductive signals_reachable : Signals -> Prop :=
  | sig_new now : signals_reachable (new_signals now)
  | sig_step e g g' : signals_reachable g -> signal_step e g = Some g' -> signals_reachable g'.
End Main.
