(* ===== verification/MainProps.v ===== *)
(** * A server that is stopped and started again has its keys; signals are not lost *)

From S2P Require Import Prelude Base Object ObjectSpec Payload PayloadSpec.
From S2P Require Import ExpireDict Storage StorageSpec Commands CommandsSpec CommandsProps Rdb RdbSpec RdbProps.
From S2P Require Import Config Log Background EventLoop EventLoopProps Main.
From stdpp Require Import options.

Module MainProps.
Import Text Object PayloadSpec Storage StorageSpec Commands CommandsSpec Rdb RdbSpec Main.

(** ** The command line and the settings *)

(** The ports that are accepted are those from 1 to 65535, and the text of each one is. *)
Lemma parse_port_range v p : parse_port v = Some p -> 1 <= p <= 65535.
Proof.
  unfold parse_port. destruct (stoll v) as [[z n]|]; [|done].
  destruct (_ && _) eqn:E; [|done]. intros [= ->]. blia.
Qed.

Lemma parse_port_text p : 1 <= p <= 65535 -> parse_port (to_string p) = Some p.
Proof.
  intros Hp. unfold parse_port. rewrite stoll_to_string by (unfold in_i64, int64_min, int64_max; lia).
  rewrite Nat.eqb_refl. by rewrite !(proj2 (Z.leb_le _ _)), !(proj2 (Z.ltb_ge _ _)) by lia.
Qed.

Lemma parse_args_port argv path explicit po path' explicit' po' :
  parse_args argv path explicit po = Options path' explicit' po' -> 0 <= po <= 65535 -> 0 <= po' <= 65535.
Proof.
  revert path explicit po. induction argv as [argv IH] using (induction_ltof1 _ length).
  intros path explicit po. destruct argv as [|arg rest]; cbn [parse_args]; [by intros [= <- <- <-]|].
  destruct (_ || _); [done|]. destruct (bool_decide (arg = lit "--config")).
  { destruct rest as [|p rest]; [done|]. apply IH. unfold ltof. cbn. lia. }
  destruct (bool_decide (arg = lit "--port")); [|done]. destruct rest as [|v rest]; [done|].
  destruct (parse_port v) as [p|] eqn:Hp; [|done]. intros H _. apply parse_port_range in Hp.
  eapply IH; [|exact H|lia]. unfold ltof. cbn. lia.
Qed.

Lemma at_least_one_pos n d : 0 < d -> 0 < at_least_one n d.
Proof. unfold at_least_one. destruct (Z.leb_spec n 0); lia. Qed.

(** Whatever the configuration holds, the numbers the parts are started with are positive. *)
Theorem settings_sound hw po c :
  0 <= po ->
  let st := read_settings hw po c in
  0 < reactor_count st /\ 0 < thread_pool_size st /\
  0 < Background.interval_sec (save_config st) /\ 0 < Background.dirty_threshold (save_config st) /\
  (forall n, max_entries st = Some n -> 0 < n) /\
  (forall f size n, log_file st = Some (f, size, n) -> f <> [] /\ 0 < size /\ n = 5) /\
  port st = if 0 <? po then po else cluster_port st.
Proof.
  intros Hpo st. unfold st, read_settings. cbn. split_and!; try (by apply at_least_one_pos).
  - intros n. case_match eqn:E; [|done]. intros [= <-]. by apply Z.ltb_lt.
  - intros f size n. case_bool_decide; [done|]. intros [= <- <- <-]. split_and!; [done| |done].
    case_match eqn:E; [by apply Z.ltb_lt in E|lia].
  - done.
Qed.

(** ** The life of the server *)

Section life.
Context `{StringHash} `{StoreOrder} `{HashOrder} `{DoubleText} `{DoubleLib}.

Lemma serve_ok r s : store_ok s -> 0 <= r_now r < int64_max -> store_ok (serve r s).
Proof.
  intros Hs Hr. unfold serve. destruct (execute _ _ _ _ _) as [m|] eqn:Hm; [|done].
  exact (proj1 (execute_answers _ _ _ Hr _ _ _ Hm s Hs)).
Qed.

Lemma del_ok k s : store_ok s -> store_ok (del k s).2.
Proof. intros Hs. exact (proj1 (keeps_del k s Hs)). Qed.

Lemma check_candidates_ok cs checks i n s : store_ok s -> store_ok (Background.check_candidates cs checks i n s).2.
Proof.
  revert i n s. induction cs as [|key cs IH]; intros i n s Hs; cbn [Background.check_candidates]; [done|].
  destruct (checks i) as [r now]. destruct (negb r); [done|]. destruct (is_expired now key s); [|by apply IH].
  destruct (del key s) as [d s'] eqn:Hd. apply IH. change s' with (d, s').2. rewrite <-Hd. by apply del_ok.
Qed.

Lemma check_cycle_ok rounds a b s x y s' :
  store_ok s -> Background.check_cycle rounds a b s = Some (x, y, s') -> store_ok s'.
Proof.
  revert a b s. induction rounds as [|r rounds IH]; intros a b s Hs; cbn [Background.check_cycle]; [done|].
  destruct (negb _); [by intros [= <- <- <-]|].
  destruct (ExpireDict.get_candidates _ _ _) as [|c cs] eqn:Hc; [by intros [= <- <- <-]|].
  pose proof (check_candidates_ok (c :: cs) (Background.checks r) 0 b s Hs) as Hs'.
  destruct (Background.check_candidates _ _ _ _ _) as [b' s1]. cbn [snd] in Hs'.
  destruct (_ <=? _); [by intros [= <- <- <-]|by apply IH].
Qed.

(** The clock of a request is one. *)
Definition timely (e : event) : Prop :=
  match e with Client r | Bus r => 0 <= r_now r < int64_max | _ => True end.

(** Where the main thread is, and what runs then. *)
Record life_at (k : nat) (sv : Server) : Prop := {
  la_script : script sv = drop k main_script;
  la_loop : in_loop sv = true -> k = 3%nat;
  la_clients : running sv SubReactors = true -> (k <= 5)%nat;
  la_checker : running sv Checker = true -> (k <= 7)%nat;
  la_saved : match snapshot sv with
             | Some (now, kvs) => k = 11%nat /\ kvs = get_all_objects_with_ttl now (store sv)
             | None => (k <= 10)%nat
             end
}.

Lemma boot_life s : life_at 0 (boot s).
Proof. split; cbn; try done; lia. Qed.

Lemma main_step_life now k sv sv' : life_at k sv -> main_step now sv = Some sv' -> exists k', life_at k' sv'.
Proof.
  intros [Hs Hl Hc Hk Hv] Hm. unfold main_step in Hm. rewrite Hs in Hm.
  assert (k <= 10)%nat as Hk10.
  { destruct (snapshot sv) as [[t kvs]|]; [|done]. destruct Hv as [-> _]. by cbn in Hm. }
  assert (snapshot sv = None) as Hnone by (destruct (snapshot sv) as [[t kvs]|]; [destruct Hv; lia|done]).
  destruct (decide (k = 3%nat)) as [->|Hk3].
  { cbn in Hm. destruct (in_loop sv); injection Hm as <-; [exists 4%nat|exists 3%nat]; split; cbn; unfold switch; rewrite ?Hnone; try done; try lia. }
  exists (S k). assert (in_loop sv = false) as Hloop by (destruct (in_loop sv); [by destruct Hk3; apply Hl|done]).
  do 11 (destruct k as [|k]; [cbn in Hm; try done; injection Hm as <-; split; cbn; unfold switch; rewrite ?Hnone, ?Hloop; cbn; auto; try done;
    first [lia|intros HH; first [lia|apply Hc in HH; lia|apply Hk in HH; lia]]|]).
  lia.
Qed.

(** A write to the store happens before the last save. *)
Lemma write_life k sv s : life_at k sv -> (k <= 10)%nat -> life_at k (with_store s sv).
Proof.
  intros [Hs Hl Hc Hk Hv] Hk10. split; try done. cbn. destruct (snapshot sv) as [[t kvs]|]; [|done]. destruct Hv. lia.
Qed.

Lemma server_step_life e k sv sv' :
  life_at k sv -> store_ok (store sv) -> timely e -> server_step e sv = Some sv' ->
  (exists k', life_at k' sv') /\ store_ok (store sv').
Proof.
  intros Hlife Hok Ht Hs. pose proof Hlife as [Hscript Hl Hc Hk _]. destruct e as [r|r|rounds|now|]; cbn in Hs, Ht.
  - destruct (running sv SubReactors); [|done]. destruct (opened sv); [|done]. injection Hs as <-.
    specialize (Hc eq_refl). split; [exists k; apply write_life; [done|lia]|by apply serve_ok].
  - destruct (in_loop sv); [|done]. injection Hs as <-. specialize (Hl eq_refl).
    split; [exists k; apply write_life; [done|lia]|by apply serve_ok].
  - destruct (running sv Checker); [|done]. specialize (Hk eq_refl).
    destruct (Background.check_cycle rounds 0 0 (store sv)) as [[[x y] s']|] eqn:Hcy; [|done]. injection Hs as <-.
    split; [exists k; apply write_life; [done|lia]|by eapply check_cycle_ok].
  - split; [by eapply main_step_life|]. unfold main_step in Hs. repeat case_match; by simplify_eq.
  - destruct (script sv) as [|[]] eqn:E; try done. destruct (in_loop sv) eqn:Hin; [done|]. injection Hs as <-.
    split; [|done]. destruct (decide (k = 3%nat)) as [->|Hne].
    + exists 4%nat. destruct Hlife as [_ _ _ _ Hv]. cbn in Hscript. injection Hscript as ->. split; cbn; try done; try lia.
      destruct (snapshot sv) as [[]|]; [by destruct Hv|lia].
    + exfalso. do 12 (destruct k as [|k]; [first [by cbn in Hscript|by destruct Hne]|]). by destruct k.
Qed.

Lemma server_run_life es sv sv' k :
  life_at k sv -> store_ok (store sv) -> Forall timely es -> server_run es sv = Some sv' ->
  (exists k', life_at k' sv') /\ store_ok (store sv').
Proof.
  intros Hl Hok Ht. revert k sv Hl Hok. induction Ht as [|e es He _ IH]; intros k sv Hl Hok; unfold server_run; cbn.
  - intros [= <-]. split; [by exists k|done].
  - destruct (server_step e sv) as [sv1|] eqn:Hs.
    + destruct (server_step_life e k sv sv1 Hl Hok He Hs) as [[k1 Hl1] Hok1]. by apply (IH k1).
    + clear. cbn. induction es as [|e' es IH]; [done|exact IH].
Qed.

(** Whatever clients, other nodes and the checker did in between, when [main] has ended
    its last save has written the store as it is at the end, which is well-formed. *)
Lemma last_save_complete es s sv :
  store_ok s -> Forall timely es -> server_run es (boot s) = Some sv -> script sv = [] ->
  store_ok (store sv) /\ exists now, snapshot sv = Some (now, get_all_objects_with_ttl now (store sv)).
Proof.
  intros Hok Ht Hr Hend. destruct (server_run_life es (boot s) sv 0 (boot_life s) Hok Ht Hr) as [[k [Hs _ _ _ Hv]] Hok'].
  split; [done|]. destruct (snapshot sv) as [[now kvs]|]; [destruct Hv as [_ ->]; by exists now|].
  exfalso. rewrite Hend in Hs. do 11 (destruct k as [|k]; [by cbn in Hs|]). lia.
Qed.
End life.

(** ** Stopping and starting again *)

Lemma fresh_store_ok `{StringHash} st : store_ok (fresh_store st).
Proof.
  unfold fresh_store. destruct (max_entries st); [|apply new_storage_ok].
  destruct new_storage_ok as [[] Ho]. by split; [split|].
Qed.

Lemma fresh_store_empty `{StringHash} st now k : live now (fresh_store st) k = None.
Proof. unfold fresh_store. destruct (max_entries st); apply (live_new_storage now k). Qed.

Lemma fresh_store_size st : size_ (fresh_store st) = 0.
Proof.
  assert (size_ new_storage = 0) as Hz by by vm_compute. unfold fresh_store. destruct (max_entries st); [|done].
  rewrite <-Hz. apply size_stores. reflexivity.
Qed.

(** The world after the files have changed; the snapshot can be read. *)
Definition after (path : bytes) (f : fs) (w : World) : World :=
  mkWorld (config_file w) (hardware_concurrency w) (can_listen w) (fun p => bool_decide (p = path) || readable w p) f.

(** C13: A server that is stopped and started again has its keys. Let a start succeed, let
    clients, other nodes and the checker do what they do while the main thread goes through
    its script, and let the last save return true, on a disk in any state, without having lost
    bytes to one of the calls whose result it does not look at (see [save_atomic]). Then, if no
    visible key is empty and the keys fit the limit of entries of the server and the fields
    of the file, the same start, with the same configuration and at a later time, loads the
    snapshot and succeeds with the same settings, and exactly the keys that were visible at
    the end and have not expired since are visible, with their values and deadlines. *)
Theorem restart_restores `{StringHash} `{StoreOrder} `{HashOrder} `{DoubleText} `{DoubleLib} `{Crc32}
    t1 d1 t2 d2 argv w st s0 es sv now kvs f0 f :
  start t1 d1 argv w = Started st s0 -> store_ok s0 ->
  Forall timely es -> server_run es (boot s0) = Some sv -> script sv = [] -> snapshot sv = Some (now, kvs) ->
  rtc (save_step (rdb_path st) (rdb_file kvs)) (SOpen, f0) (SDone true false, f) ->
  0 <= now <= t2 -> t2 < int64_max ->
  (forall k o dl, live now (store sv) k = Some (o, dl) -> k <> [] /\ zlen k < 4261412864 /\ rdb_fits o) ->
  zlen kvs <= threshold (fresh_store st) -> zlen kvs < 4294967296 ->
  exists s2, start t2 d2 argv (after (rdb_path st) f w) = Started st s2 /\ store_ok s2 /\
    forall k, live t2 s2 k = live t2 (store sv) k.
Proof.
  intros Hst Hok0 Ht Hrun Hend Hsnap Hsave Hle Hlt Hfit Hn H32.
  destruct (last_save_complete es s0 sv Hok0 Ht Hrun Hend) as [Hok (now' & Hsnap')].
  rewrite Hsnap in Hsnap'. injection Hsnap' as <- ->. apply RdbProps.save_done in Hsave as Hf.
  destruct (RdbProps.load_snapshot now t2 d2 (store sv) (fresh_store st) Hok Hle Hlt Hfit) as (s2 & Hload & Hok2 & Hl);
    [apply fresh_store_ok|apply fresh_store_empty|apply fresh_store_size|done|done|].
  exists s2. split; [|done]. unfold start in *. destruct (command_line argv) as [| |path ex po]; try discriminate. cbn [after config_file hardware_concurrency can_listen readable disk].
  destruct (Config.load (config_file w) path Config.new_config) as [ld c]. destruct (negb ld && ex); [discriminate|].
  set (st' := read_settings _ po c) in *. destruct (negb (can_listen w (port st' mod 65536))); [discriminate|].
  assert (st' = st) as ->.
  { destruct (negb (readable w (rdb_path st'))); [by injection Hst as -> _|]. destruct (load_rdb _ _ _ _ _) as [[[]|] s1]; try discriminate. by injection Hst as -> _. }
  rewrite bool_decide_eq_true_2 by done. cbn. unfold load_rdb. rewrite Hf. by rewrite Hload.
Qed.

(** ** Signals *)

Record signals_ok (g : Signals) : Prop := {
  so_loop : EventLoopProps.loop_ok (main_loop g);
  so_set : at_main g <> Initialising -> g_main_reactor g = true;
  so_handling : handling g = true -> g_running g = false;
  so_quit : at_main g = Looping -> g_running g = false -> handling g = true \/ EventLoop.quit_ (main_loop g) = true
}.

Lemma quit_ok (l : EventLoop.EventLoop (A := nat)) :
  EventLoopProps.loop_ok l -> EventLoopProps.loop_ok (EventLoop.wakeup (EventLoop.set_quit l)) /\
  EventLoop.quit_ (EventLoop.wakeup (EventLoop.set_quit l)) = true.
Proof.
  intros [H1 H2]. destruct (EventLoopProps.wakeup_frame (EventLoop.set_quit l)) as ((W1 & W2 & W3 & W4) & W5 & W6).
  split; [split|by rewrite W1]; [|by apply W4]. unfold EventLoop.in_hand. by rewrite W2, W3, W5, W6.
Qed.

Lemma loop_keeps_quit (e : EventLoop.event (A := nat)) l l' :
  EventLoopProps.loop_ok l -> EventLoop.step (fun _ => []) e l = Some l' -> EventLoop.quit_ l = true -> EventLoop.quit_ l' = true.
Proof.
  intros Hl Hs Hq. destruct e as [t| | |r now]; cbn in Hs.
  - by injection Hs as <-.
  - by injection Hs as <-.
  - destruct (EventLoop.waking l) as [|n]; [done|]. injection Hs as <-.
    destruct (EventLoopProps.wakeup_frame (EventLoop.with_waking n l)) as ((W1 & _) & _). by rewrite W1.
  - destruct (EventLoopProps.loop_step_costs _ _ _ _ _ Hl Hs) as (-> & _). done.
Qed.

Lemma in_loop_ok e g l' :
  signals_ok g -> EventLoop.step (fun _ => []) e (main_loop g) = Some l' ->
  signals_ok (mkSignals (g_running g) (g_main_reactor g) (handling g) (at_main g) l').
Proof.
  intros [H1 H2 H3 H4] Hs. split; cbn; try done; [by eapply EventLoopProps.loop_event_ok|].
  intros Hm Hr. destruct (H4 Hm Hr) as [?|Hq]; [by left|right]. by eapply loop_keeps_quit.
Qed.

Lemma signal_step_ok e g g' : signal_step e g = Some g' -> signals_ok g -> signals_ok g'.
Proof.
  intros Hs Hg. pose proof Hg as [H1 H2 H3 H4]. destruct e as [| | |e]; cbn in Hs.
  - injection Hs as <-. unfold signal_handler. destruct (g_running g) eqn:Hr; [|done]. split; cbn; auto.
  - unfold handler_quits in Hs. destruct (handling g) eqn:Hh; [|done]. injection Hs as <-.
    destruct (quit_ok _ H1) as [Hok Hq]. split; cbn; try done; destruct (g_main_reactor g) eqn:Hp; auto.
    intros Hm. rewrite Hm in H2. by specialize (H2 ltac:(done)).
  - unfold main_goes in Hs. destruct (at_main g) eqn:Hm; try done; injection Hs as <-; split; cbn; auto.
    + done.
    + intros Hx Hr. by rewrite Hr in Hx.
  - destruct (loop_may e (at_main g)); [|done].
    destruct (EventLoop.step (fun _ => []) e (main_loop g)) as [l'|] eqn:Hl; [|done]. injection Hs as <-. by eapply in_loop_ok.
Qed.

Lemma signals_reachable_ok g : signals_reachable g -> signals_ok g.
Proof. induction 1 as [now|e g g' _ IH Hs]; [by split|by eapply signal_step_ok]. Qed.

(** C18: A signal ends the server, whenever it comes: once the first handler has returned,
    the main thread will not enter its loop, or the loop is told to quit and ends within a
    bounded number of its own steps. *)
Theorem signal_ends g :
  signals_reachable g -> g_running g = false -> handling g = false ->
  match at_main g with
  | Initialising => exists g1, main_goes g = Some g1 /\ exists g2, main_goes g1 = Some g2 /\ at_main g2 = Skipped
  | Ready => exists g', main_goes g = Some g' /\ at_main g' = Skipped
  | Skipped => main_goes g = None
  | Looping =>
      EventLoop.quit_ (main_loop g) = true /\
      forall n l', EventLoop.alone (fun _ => []) n (main_loop g) l' ->
        (n <= EventLoopProps.quit_cost (fun _ => []) (main_loop g))%nat /\
        (EventLoop.at_place l' = EventLoop.Ended \/ exists r now l'', EventLoop.loop_step (fun _ => []) r now l' = Some l'')
  end.
Proof.
  intros [H1 H2 H3 H4]%signals_reachable_ok Hr Hh. unfold main_goes. destruct (at_main g) eqn:Hm.
  - eexists. split; [done|]. cbn. rewrite Hr. by eexists.
  - rewrite Hr. by eexists.
  - destruct (H4 eq_refl Hr) as [?|Hq]; [congruence|]. split; [done|]. intros n l' Ha.
    pose proof (EventLoopProps.quit_bounds _ _ _ _ Ha H1 Hq). split; [lia|].
    destruct (EventLoop.at_place l') eqn:E; auto; right; apply EventLoopProps.loop_never_stuck; by rewrite E.
  - done.
Qed.

(** ** Witness *)

Abbreviation shash := StorageProps.StorageProps.sum_hash.
Abbreviation sord := StorageProps.StorageProps.plain_store_order.
Abbreviation bits_lib := CommandsProps.bits_lib.

Definition plain_world : World := mkWorld (fun _ => None) 4 (fun _ => true) (fun _ => false) ∅.

Definition set_request : request := mkRequest 5 (fun n => n) 0 CSet [lit "set"; lit "k"; lit "v"].

(** The server starts, a client sets a key, the server stops. *)
Definition sample_life : list (event) :=
  replicate 4 (Main 3) ++ [Client set_request] ++ replicate 8 (Main 5).

Definition sample_start : outcome := @start shash sord RdbProps.plain_crc 3 (fun n => n) [] plain_world.

Definition sample_settings : Settings := Eval vm_compute in
  match sample_start with Started st _ => st | Exit _ => read_settings 0 0 Config.new_config end.

Definition sample_end : option Server :=
  @server_run shash sord plain_order bits_text bits_lib sample_life (boot new_storage).

Definition sample_server : Server := default (boot new_storage) sample_end.

Definition sample_kvs : list KVWithTTL := @get_all_objects_with_ttl sord 5 (store sample_server).

Definition sample_disk : fs :=
  <[rdb_path sample_settings := @rdb_file plain_order RdbProps.plain_crc sample_kvs]>
    (delete (tmp_path (rdb_path sample_settings)) (disk plain_world)).

Lemma sample_store : store sample_server = @set_locked shash 5 (lit "k") (object_of_string (lit "v")) new_storage.
Proof. vm_compute. reflexivity. Qed.

Lemma restart_restores_witness :
  exists s2, @start shash sord RdbProps.plain_crc 9 (fun n => n) [] (after (rdb_path sample_settings) sample_disk plain_world) =
      Started sample_settings s2 /\ @store_ok shash s2 /\
    forall k, @live shash 9 s2 k = @live shash 9 (store sample_server) k.
Proof.
  apply (@restart_restores shash sord plain_order bits_text bits_lib RdbProps.plain_crc 3 (fun n => n) 9 (fun n => n) []
    plain_world sample_settings new_storage sample_life sample_server 5 sample_kvs (disk plain_world) sample_disk).
  - vm_compute. reflexivity.
  - apply new_storage_ok.
  - repeat constructor; vm_compute; congruence.
  - vm_compute. reflexivity.
  - vm_compute. reflexivity.
  - vm_compute. reflexivity.
  - apply RdbProps.save_succeeds.
  - lia.
  - vm_compute. reflexivity.
  - rewrite sample_store. intros k o dl.
    destruct (@set_live shash 5 (lit "k") (object_of_string (lit "v")) new_storage) as [_ Hl]; [apply new_storage_wf|].
    rewrite Hl. unfold upd. case_decide as E; [|by rewrite live_new_storage]. intros [= <- <-]. subst k. done.
  - vm_compute. congruence.
  - vm_compute. reflexivity.
Defined.

(** The handler runs while the main thread is in its loop. *)
Lemma signal_ends_witness :
  exists g, signals_reachable g /\ g_running g = false /\ handling g = false /\ at_main g = Looping /\
    EventLoop.quit_ (main_loop g) = true.
Proof.
  set (g0 := new_signals 0). set (g1 := mkSignals true true false Ready (EventLoop.new_loop 0)).
  set (g2 := mkSignals true true false Looping (EventLoop.new_loop 0)). set (g3 := signal_handler g2).
  set (g4 := default g3 (handler_quits g3)).
  assert (signals_reachable g4) as Hr.
  { apply (sig_step Handle g3); [|reflexivity]. apply (sig_step Signal g2); [|reflexivity].
    apply (sig_step Goes g1); [|reflexivity]. apply (sig_step Goes g0); [apply sig_new|reflexivity]. }
  exists g4. split; [exact Hr|]. split; [reflexivity|]. split; [reflexivity|]. split; [reflexivity|].
  exact (proj1 (signal_ends g4 Hr eq_refl eq_refl)).
Defined.

(** A snapshot that is there and cannot be read counts as none: the server starts empty,
    and its next save replaces the file. *)
Theorem unreadable_snapshot_replaced `{StringHash} `{StoreOrder} `{HashOrder} `{Crc32} now draw argv w st s kvs f :
  start now draw argv w = Started st s -> readable w (rdb_path st) = false ->
  rtc (save_step (rdb_path st) (rdb_file kvs)) (SOpen, disk w) (SDone true false, f) ->
  (forall t k, live t s k = None) /\ f !! rdb_path st = Some (rdb_file kvs).
Proof.
  intros Hst Hr Hsave. split; [|by apply RdbProps.save_done in Hsave]. unfold start in Hst.
  destruct (command_line argv) as [| |path ex po]; try discriminate.
  destruct (Config.load (config_file w) path Config.new_config) as [ld c]. destruct (negb ld && ex); [discriminate|].
  set (st' := read_settings _ po c) in *. destruct (negb (can_listen w _)); [discriminate|].
  destruct (readable w (rdb_path st')) eqn:Hr'; cbn [negb] in Hst.
  - destruct (load_rdb _ _ _ _ _) as [[[]|] s1]; try discriminate. injection Hst as <- _. congruence.
  - injection Hst as _ <-. intros t k. apply fresh_store_empty.
Qed.

(** [--port] reaches the listening socket and not the cluster, whose name for this node
    and whose bus port are made from the configured one. *)
Theorem port_option_partial :
  exists st s, @start shash sord RdbProps.plain_crc 3 (fun n => n) [lit "--port"; lit "7000"] plain_world = Started st s /\
    port st = 7000 /\ cluster_port st = 6379.
Proof. eexists _, _. split; [vm_compute; reflexivity|]. split; reflexivity. Qed.
End MainProps.
